(* ===== verification/_CoqProject ===== *)
-Q . S2P
Prelude.v
GoStd.v
GoNet.v
GoNetip.v
GoJson.v
ConfigTypes.v
ConfigDocs.v
FsParams.v
StateMachine.v
FencingMark.v
FencingStore.v
Backend.v
Fencing.v
FencingCorrect.v
AgentServer.v
RecoveryAuth.v
Recovery.v
FencingTheorems.v
AgentServerCorrect.v
RecoveryCorrect.v
PillarVolumeState.v
Resolve.v
ResolveCorrect.v
VolumeFencing.v
KubeCorrect.v
Lifecycle.v
VolumeFencingCorrect.v
IdentityTheorems.v
ControllerTheorems.v
EndToEnd.v
LioFs.v
LioTarget.v
LioLaws.v
ConfigfsEffects.v
LioCorrect.v
LioTheorems.v
LioServing.v
LioKernel.v
LioKernelLaws.v
IscsiAgent.v
IscsiAgentCorrect.v
IscsiReconcile.v
ServerExport.v
ServerExportCorrect.v
ExportDemo.v
NvmetTarget.v
NvmetLaws.v
NvmetCorrect.v
NvmetPorts.v
NvmetServing.v
NvmetIsolation.v
NvmetRemoval.v
NvmetMemory.v
NvmeAgent.v
NvmeAgentCorrect.v
NvmeReconcile.v
ServerRestore.v
NvmeDemo.v
RestoreDemo.v
NfsManager.v
NfsLaws.v
NfsConverge.v
NfsStart.v
NfsSections.v
NfsMemory.v
NfsTheorems.v
Drain.v
IscsiPdu.v
IscsiChap.v
IscsiLogin.v
IscsiLoginCorrect.v
