(* ===== verification/Prelude.v ===== *)
(** * pillar-csi: a verified model

    pillar-csi is a CSI driver that carves volumes out of the storage of
    ordinary nodes and exports them over the network.  Its parts, and how they
    meet:

    - the CSI controller (src/internal/csi) keeps one PillarVolumeState record
      per volume in the Kubernetes API server; it claims, publishes, revokes
      and deletes through compare-and-swap writes, each of which yields a
      fencing token (lifecycle UID, generation);
    - the agent (src/internal/agent) runs on the storage node and serves the
      controller's RPCs.  It keeps a durable fencing mark per volume and
      refuses requests whose token was overtaken; admitted requests change the
      storage backends, the kernel's iSCSI and NVMe-oF targets (LIO and nvmet,
      through configfs), and the kernel's NFS export table;
    - the CSI node (src/internal/csi, src/internal/iscsi) logs in to the target
      and attaches the volume.

    Conventions.  A Go function returning (T, error) is a function into
    [result]; stateful code is a computation [M W E A] on an explicit world,
    which keeps what was written before an error.  gRPC statuses keep code and
    message, other errors their text ([go_error]); wrapping is dropped where no
    caller tests for it.  Definitions carry the names of the source.  A mutex
    makes its section one computation; Drain and the volume record, where
    interleavings matter, have explicit steps.  Code that is not in the
    repository is a parameter with its documented behaviour as hypotheses, and
    every theorem with such hypotheses has a witness that satisfies them.

    ** Files

    Shared.  Prelude: results, the state-and-error monad, its [wp] calculus and
    tactics.  GoStd, GoNet, GoNetip, GoJson: the functions of Go's standard
    library in use.

    CSI lifecycle.  StateMachine: statemachine.go; the transition table, what a
    transition does, and that teardown is accepted from every state.

    Agent fencing.  FencingMark: marks and [admitFencingToken].  FencingStore:
    mark files under I/O failures and crashes.  Backend: server.go and
    backend.go, the interfaces.  Fencing: the critical sections of fencing.go.
    FencingCorrect, FencingTheorems: every operation refines atomic mark steps;
    a mutation runs only on a durable mark; overtaken, retired and former
    lifecycles never act again.

    Agent RPCs.  AgentServer: server_volume.go, server_import.go,
    server_release.go, target_id.go.  RecoveryAuth: recoveryauth.go.  Recovery:
    server_inspect.go, server_recovery.go.  AgentServerCorrect,
    RecoveryCorrect: adopted volumes are never destroyed under
    PreserveOriginal, releases terminate, payloads are accepted exactly when
    they are in force, ownership moves only on such payloads that name the
    recorded owner and pin, and answers of a transfer are truthful.

    Controller records.  PillarVolumeState: pillarvolumestate_types.go.
    VolumeFencing: volume_fencing.go against an API server with other writers,
    lost requests and lost answers.  KubeCorrect, Lifecycle,
    VolumeFencingCorrect: the protocol every write follows.
    ControllerTheorems, IdentityTheorems: exclusive publications, ordered
    tokens, final deletion, pinned identities.  EndToEnd: tokens of the
    controller against marks of the agent.

    Volume configuration.  ConfigTypes: the fields of stores, protocols and
    classes.  ConfigDocs: configdocs.go.  FsParams: mkfs_options.go,
    fs_params.go; accepted mkfs options reach no other device, and the node
    reads back what the controller wrote.  Resolve, ResolveCorrect:
    resolve.go, pvc_annotations.go; the result is a rule per field, stays in
    its bounds, a retry keeps what was recorded, adoption annotations are never
    lost, and the status code tells what is wrong.

    iSCSI exports.  LioFs, LioTarget: lio/configfs.go, target.go, chap.go,
    exports.go.  LioLaws: what the code relies on of configfs ([FSLaws]), and
    scopes that bound what a computation touches; ConfigfsEffects carries them
    across computations, for LIO and nvmet.  LioCorrect, LioTheorems,
    LioServing: isolation, complete removal, revocation, exclusive local
    attach, access policy before reachability.  LioKernel, LioKernelLaws: the
    emulated kernel liotest/kernel.go satisfies [FSLaws].  IscsiAgent,
    IscsiAgentCorrect, IscsiReconcile: protocol_handler_iscsi.go inside the
    fenced sections.  ServerExport, ServerExportCorrect: server_export.go,
    server_reconcile.go, server_export_restore.go; nothing becomes reachable
    while a restore is pending.  ExportDemo: these theorems on runs of the
    emulated kernel.

    NVMe-oF exports.  NvmetTarget: nvmeof/configfs.go, identity.go,
    local_attach.go, exports.go.  NvmetLaws, NvmetCorrect, NvmetPorts,
    NvmetServing, NvmetIsolation, NvmetRemoval: only complete exports appear on
    a port, devices are claimed first, live identities are kept, exports do not
    disturb each other, and removal is complete.  NvmeAgent, NvmeAgentCorrect,
    NvmeReconcile: protocol_handler.go and nvme_identity.go; identities come
    back after a restart and a reconcile serves what it reports.  NvmetMemory,
    NvmeDemo: a configfs in memory that satisfies the laws, and the theorems
    on runs of it.

    Restore.  ServerRestore: ReconcileState with the iSCSI and NVMe-oF handlers
    together; a complete state restores what it reports.  RestoreDemo: on a
    node with exports of three protocols.

    NFS exports.  NfsManager: nfs/manager.go.  NfsLaws, NfsConverge, NfsStart,
    NfsSections, NfsTheorems: whatever fails and wherever the agent crashes,
    owner.json covers every row the manager may have granted; operations that
    succeed have put their policy in force.  NfsMemory: the test runtime
    satisfies the laws.

    Drain: server_drain.go; drain calls and requests in every interleaving,
    with Go's reader-writer lock and the target locks of the handlers; drained
    means quiet, and nobody waits forever.

    iSCSI login.  IscsiPdu, IscsiChap, IscsiLogin: pdu.go, chap.go, login.go
    against an arbitrary target.  IscsiLoginCorrect: what a completed login
    guarantees about authentication, and bounded exchanges.

    ** Bounds and fuel

    Recursion on fuel appears where Go loops until something external happens.
    The retry loop of [updateVolumeState] has the retry budget of the source;
    ReleaseVolume's loop is given two rounds, and [ReleaseVolume_terminates]
    shows that two always suffice; the login loop has [maxLoginRounds] of the
    source; [WaitForDevice] has the number of probes before its deadline as an
    argument.  Parsers of addresses and JSON arrays have the length of their
    input, which every round consumes.  Generations and sizes are the source's
    64-bit integers as [Z]; no modelled code adds to them except the bump of a
    generation.

    ** Assumptions

    [FSLaws] and [RemoveLaws] for configfs, which also sets the attributes of
    a port when a subsystem is linked to it; device claimers and busy checks
    only look; identity records are no part of configfs ([IdLaws]).  Go ranges
    over a map in some order, each entry once.  In ServerExportCorrect the
    handlers of other protocols and the operations on adopted filesystems make
    nothing of configfs reachable ([Revoking], [RevokingFilesystem]); in
    ServerRestore they leave configfs alone ([elsewhere]).  NVMe host names are
    single path components, as every NQN is.  [NfsLaws] for exportfs and the
    runtime around it.  The YAML reader, UUIDs, SHA-1, signature verification,
    protobuf encoding and random sources are parameters; mkfs reads its
    arguments as getopt does.

    Other writers of the volume records follow the protocol of Lifecycle
    ([env_ok]): a write leaves the generation or moves it by one.  The adoption
    of a recovery record (recovery.go), which raises the generation of a fresh
    record to the one its grant names, is not among them.

    ** Simplifications

    Of joined errors the first is kept.  Sections under one lock are one
    computation, so two operations on one target do not interleave.  Agent
    steps do not write the marks of adopted filesystems, which have keys of
    their own.  Reading owner.json yields the decoded record; that json.Unmarshal,
    at a second start of one process, keeps what the file omits of the entries
    in memory is not modelled.  Handlers return: what they
    do besides taking target locks is not part of the drain model.

    ** Not modelled

    The node service and the connectors (mount, format, netlink, sysfs), the
    storage backends (they drive zfs, lvm and blkid), the NFS runtime (it
    drives exportfs and the daemons), the NFS protocol handler, the proxy
    mounts of adopted filesystems, the flows of CreateVolume around resolution
    and records, the Kubernetes controllers and webhooks, telemetry, and
    process start-up.  Contexts and their cancellation are left out: a
    cancelled call is one that fails. *)

(** ** Prelude *)
From stdpp Require Import base numbers list strings gmap.
From Stdlib Require Import ZArith Ascii Lia.

(** ** Results of fallible Go code

    A Go function returning [(T, error)] is a function into [result E T]:
    [Err e] is a non-nil error, [Ok v] the value returned with a nil one. *)
Inductive result (E A : Type) : Type :=
| Ok (a : A)
| Err (e : E).
Arguments Ok {E A} a.
Arguments Err {E A} e.

#[export] Instance result_ret E : MRet (result E) := λ A x, Ok x.
#[export] Instance result_bind E : MBind (result E) := λ A B f m,
  match m with Ok a => f a | Err e => Err e end.
#[export] Instance result_fmap E : FMap (result E) := λ A B f m,
  match m with Ok a => Ok (f a) | Err e => Err e end.

Definition is_ok {E A} (r : result E A) : bool :=
  match r with Ok _ => true | Err _ => false end.
Definition err_of {E A} (r : result E A) : option E :=
  match r with Ok _ => None | Err e => Some e end.

Lemma result_bind_Ok {E A B} (f : A → result E B) (m : result E A) b :
  m ≫= f = Ok b ↔ ∃ a, m = Ok a ∧ f a = Ok b.
Proof. destruct m; cbn; naive_solver. Qed.

(** ** Stateful fallible code

    [M W E A] is a computation that reads and writes a world [W] and ends
    with a Go result.  The world is kept on the error path: what a function
    wrote before it failed stays written. *)
Definition M (W E A : Type) : Type := W → result E A * W.

#[export] Instance M_ret W E : MRet (M W E) := λ A x w, (Ok x, w).
#[export] Instance M_bind W E : MBind (M W E) := λ A B f m w,
  match m w with
  | (Ok a, w') => f a w'
  | (Err e, w') => (Err e, w')
  end.

Definition throw {W E A} (e : E) : M W E A := λ w, (Err e, w).
Definition lift {W E A} (r : result E A) : M W E A := λ w, (r, w).
Definition reads {W E A} (f : W → A) : M W E A := λ w, (Ok (f w), w).
Definition modify {W E} (f : W → W) : M W E unit := λ w, (Ok tt, f w).
(** [try m] makes the error of [m] a value, as [err := f()] does in Go. *)
Definition try {W E A} (m : M W E A) : M W E (result E A) := λ w,
  let '(r, w') := m w in (Ok r, w').

Lemma M_bind_inv {W E A B} (f : A → M W E B) (m : M W E A) w r w' :
  (m ≫= f) w = (r, w') →
  (∃ a w1, m w = (Ok a, w1) ∧ f a w1 = (r, w')) ∨
  (∃ e, m w = (Err e, w') ∧ r = Err e).
Proof.
  unfold mbind, M_bind. destruct (m w) as [[a|e] w1]; intros; simplify_eq; eauto.
Qed.

Lemma M_bind_Ok {W E A B} (f : A → M W E B) (m : M W E A) w a w1 :
  m w = (Ok a, w1) → (m ≫= f) w = f a w1.
Proof. unfold mbind, M_bind. by intros ->. Qed.

Lemma M_bind_Err {W E A B} (f : A → M W E B) (m : M W E A) w e w1 :
  m w = (Err e, w1) → (m ≫= f) w = (Err e, w1).
Proof. unfold mbind, M_bind. by intros ->. Qed.

(** Invert every [_ ≫= _] run found in a hypothesis. *)
Ltac minv1 :=
  match goal with
  | H : (mbind _ _) _ = (_, _) |- _ =>
      apply M_bind_inv in H as [(? & ? & ? & H)|(? & ? & ?)]
  | H : mret _ _ = (_, _) |- _ => unfold mret, M_ret in H; simplify_eq
  | H : throw _ _ = (_, _) |- _ => unfold throw in H; simplify_eq
  | H : lift _ _ = (_, _) |- _ => unfold lift in H; simplify_eq
  | H : reads _ _ = (_, _) |- _ => unfold reads in H; simplify_eq
  | H : modify _ _ = (_, _) |- _ => unfold modify in H; simplify_eq
  end.
Ltac minv := repeat (minv1; simplify_eq/=).

(** *** Weakest preconditions

    [wp m Q w]: run from [w], [m] ends in a result and a world satisfying [Q].
    The rules follow the code top-down, one lemma per construct. *)
Definition wp {W E A} (m : M W E A) (Q : result E A → W → Prop) (w : W) : Prop :=
  Q (m w).1 (m w).2.

Section WP.
Context {W E : Type}.

Lemma wp_run {A} (m : M W E A) Q w r w' : wp m Q w → m w = (r, w') → Q r w'.
Proof. unfold wp. by intros ? H; rewrite H in *. Qed.

Lemma wp_of_run {A} (m : M W E A) (Q : result E A → W → Prop) w :
  (∀ r w', m w = (r, w') → Q r w') → wp m Q w.
Proof. unfold wp. destruct (m w). naive_solver. Qed.

Lemma wp_mono {A} (m : M W E A) (P Q : result E A → W → Prop) w :
  wp m P w → (∀ r w', P r w' → Q r w') → wp m Q w.
Proof. unfold wp. auto. Qed.

(** As [wp_mono], remembering the run. *)
Lemma wp_mono_run {A} (m : M W E A) (P Q : result E A → W → Prop) w :
  wp m P w → (∀ r w', m w = (r, w') → P r w' → Q r w') → wp m Q w.
Proof. unfold wp. destruct (m w); eauto. Qed.

Lemma wp_ret {A} (a : A) (Q : result E A → W → Prop) w : Q (Ok a) w → wp (mret a) Q w.
Proof. done. Qed.

Lemma wp_throw {A} (e : E) (Q : result E A → W → Prop) w : Q (Err e) w → wp (throw e) Q w.
Proof. done. Qed.

Lemma wp_lift {A} (r : result E A) (Q : result E A → W → Prop) w : Q r w → wp (lift r) Q w.
Proof. done. Qed.

Lemma wp_reads {A} (f : W → A) (Q : result E A → W → Prop) w : Q (Ok (f w)) w → wp (reads f) Q w.
Proof. done. Qed.

Lemma wp_modify (f : W → W) (Q : result E unit → W → Prop) w : Q (Ok tt) (f w) → wp (modify f) Q w.
Proof. done. Qed.

Lemma wp_bind {A C} (m : M W E A) (f : A → M W E C) Q w :
  wp m (λ r w', match r with Ok a => wp (f a) Q w' | Err e => Q (Err e) w' end) w →
  wp (m ≫= f) Q w.
Proof. unfold wp, mbind, M_bind. by destruct (m w) as [[a|e] w']. Qed.

Lemma wp_try {A} (m : M W E A) (Q : result E (result E A) → W → Prop) w :
  wp m (λ r w', Q (Ok r) w') w → wp (try m) Q w.
Proof. unfold wp, try. by destruct (m w). Qed.

(** A bind whose head is specified: the usual step through a call. *)
Lemma wp_call {A C} (m : M W E A) (f : A → M W E C) (P : result E A → W → Prop) Q w :
  wp m P w →
  (∀ a w', P (Ok a) w' → wp (f a) Q w') →
  (∀ e w', P (Err e) w' → Q (Err e) w') →
  wp (m ≫= f) Q w.
Proof. intros Hm Ha He. apply wp_bind. eapply wp_mono; [exact Hm|]. intros [a|e] w'; auto. Qed.
End WP.

(** Step through a call with its specification. *)
Tactic Notation "wcall" uconstr(spec) := eapply wp_call; [eapply spec|cbn beta|cbn beta].
Tactic Notation "wend" uconstr(spec) := eapply wp_mono; [eapply spec|cbn beta].

(** ** gRPC status errors *)
Inductive code :=
| CodeOK | Canceled | Unknown | InvalidArgument | DeadlineExceeded | NotFound
| AlreadyExists | PermissionDenied | ResourceExhausted | FailedPrecondition
| Aborted | OutOfRange | Unimplemented | Internal | Unavailable | DataLoss
| Unauthenticated.

(** An error value of the agent and of the controller: a gRPC status with
    its code and the fixed part of its message, one of the backend's typed
    errors, or any other Go error. *)
Inductive go_error :=
| EStatus (c : code) (msg : string)
| EImportRefused (reason : string)
| EConflict (msg : string)
| ELayoutMismatch (msg : string)
| EInsufficientCapacity (msg : string)
| EPlain (msg : string).

#[export] Instance code_eq_dec : EqDecision code.
Proof. solve_decision. Defined.
#[export] Instance go_error_eq_dec : EqDecision go_error.
Proof. solve_decision. Defined.

(** [status.Code] of a non-nil error. *)
Definition status_code (e : go_error) : code :=
  match e with EStatus c _ => c | _ => Unknown end.
(** The [ok] result of [status.FromError]. *)
Definition is_status (e : go_error) : bool :=
  match e with EStatus _ _ => true | _ => false end.

Abbreviation GoResult := (result go_error).

(** ** Lookup in a Go map literal kept as an association list *)
Fixpoint assoc {K V} `{EqDecision K} (k : K) (l : list (K * V)) : option V :=
  match l with
  | [] => None
  | (k', v) :: l => if decide (k = k') then Some v else assoc k l
  end.

Lemma assoc_In {K V} `{EqDecision K} (k : K) (v : V) l :
  assoc k l = Some v → (k, v) ∈ l.
Proof.
  induction l as [|[k' v'] l IH]; cbn; [done|].
  case_decide; intros; simplify_eq; [left|right; auto].
Qed.

(** [slices.Contains] on strings. *)
Definition containsb (l : list string) (s : string) : bool := bool_decide (s ∈ l).

Lemma containsb_true l s : containsb l s = true ↔ s ∈ l.
Proof. apply bool_decide_eq_true. Qed.
Lemma containsb_false l s : containsb l s = false ↔ s ∉ l.
Proof. apply bool_decide_eq_false. Qed.

(** ** Strings *)
Lemma string_length_app (a b : string) :
  String.length (a +:+ b) = (String.length a + String.length b)%nat.
Proof. induction a as [|c a IH]; [done|]. change (S (String.length (a +:+ b)) = S (String.length a + String.length b))%nat. by rewrite IH. Qed.

Lemma string_app_nil s : s +:+ "" = s.
Proof. induction s as [|x s IH]; [done|]. change (String x (s +:+ "") = String x s). by rewrite IH. Qed.
Lemma string_app_assoc a b c : (a +:+ b) +:+ c = a +:+ b +:+ c.
Proof. induction a as [|x a IH]; [done|]. change (String x ((a +:+ b) +:+ c) = String x (a +:+ b +:+ c)). by rewrite IH. Qed.


Lemma string_app_inj_r (a b s : string) : a +:+ s = b +:+ s → a = b.
Proof.
  revert b. induction a as [|c a IH]; intros [|c' b] H.
  - done.
  - apply (f_equal String.length) in H. rewrite !string_length_app in H. cbn in H. lia.
  - apply (f_equal String.length) in H. rewrite !string_length_app in H. cbn in H. lia.
  - injection H as -> H. f_equal. by apply IH.
Qed.

(** ** Automation

    [go] case-splits every test the translated code branches on, in the
    hypothesis that runs the code and in the goal. *)
Ltac split_test :=
  match goal with
  | H : context [if ?b then _ else _] |- _ =>
      lazymatch b with
      | context [if _ then _ else _] => fail
      | context [match _ with _ => _ end] => fail
      | _ => let E := fresh "E" in destruct b eqn:E
      end
  | H : context [match ?x with _ => _ end] |- _ =>
      lazymatch x with
      | context [match _ with _ => _ end] => fail
      | _ => let E := fresh "E" in destruct x eqn:E
      end
  end.
