(* ===== verification/GoStd.v ===== *)
(** * The parts of the Go standard library the sources use

    [strings], [strconv], [path/filepath], [encoding/hex],
    [encoding/base64], [crypto/md5] and [crypto/sha256], for the calls that
    appear in the modelled files.  Go strings are byte strings: a Rocq
    [string] is the sequence of their bytes; a [[]byte] is a [list ascii]. *)
From stdpp Require Import base numbers list strings.
From Stdlib Require Import Ascii.
From S2P Require Import Prelude.
Open Scope Z_scope.

Abbreviation bytes := (list ascii).

Definition Z_of_byte (c : ascii) : Z := Z.of_N (N_of_ascii c).
(** The conversion [byte(n)]: the low eight bits. *)
Definition byte_of_Z (n : Z) : ascii := ascii_of_N (Z.to_N (n `mod` 256)).

Definition bytes_of_string (s : string) : bytes := String.list_ascii_of_string s.
Definition string_of_bytes (b : bytes) : string := String.string_of_list_ascii b.

Lemma Z_of_byte_bound c : 0 ≤ Z_of_byte c < 256.
Proof. unfold Z_of_byte. pose proof (N_ascii_bounded c). lia. Qed.

Lemma Z_of_byte_of_Z n : Z_of_byte (byte_of_Z n) = n `mod` 256.
Proof.
  unfold Z_of_byte, byte_of_Z. pose proof (Z.mod_pos_bound n 256 ltac:(lia)).
  rewrite N_ascii_embedding by lia. lia.
Qed.

Lemma byte_of_Z_of_byte c : byte_of_Z (Z_of_byte c) = c.
Proof.
  unfold byte_of_Z. rewrite Z.mod_small by apply Z_of_byte_bound.
  unfold Z_of_byte. by rewrite N2Z.id, ascii_N_embedding.
Qed.

Lemma string_of_bytes_of_string s : string_of_bytes (bytes_of_string s) = s.
Proof. apply String.string_of_list_ascii_of_string. Qed.
Lemma bytes_of_string_of_bytes b : bytes_of_string (string_of_bytes b) = b.
Proof. apply String.list_ascii_of_string_of_list_ascii. Qed.

(** ** strings *)

(** [strings.HasPrefix] *)
Fixpoint HasPrefix (s p : string) : bool :=
  match p, s with
  | EmptyString, _ => true
  | String c p, String c' s => Ascii.eqb c c' && HasPrefix s p
  | String _ _, EmptyString => false
  end.

Fixpoint drop_string (n : nat) (s : string) : string :=
  match n, s with
  | S n, String _ s => drop_string n s
  | _, _ => s
  end.

(** [strings.TrimPrefix], [strings.CutPrefix] *)
Definition TrimPrefix (s p : string) : string :=
  if HasPrefix s p then drop_string (String.length p) s else s.
Definition CutPrefix (s p : string) : option string :=
  if HasPrefix s p then Some (drop_string (String.length p) s) else None.

Definition rev_string (s : string) : string := string_of_bytes (rev (bytes_of_string s)).

Lemma HasPrefix_app s t : HasPrefix (s +:+ t) s = true.
Proof. induction s as [|c s IH]; [by destruct t|].
  change (Ascii.eqb c c && HasPrefix (s +:+ t) s = true). by rewrite Ascii.eqb_refl.
Qed.
Lemma drop_string_app s t : drop_string (String.length s) (s +:+ t) = t.
Proof. induction s as [|c s IH]; [by destruct t|]. exact IH. Qed.
Lemma CutPrefix_app s t : CutPrefix (s +:+ t) s = Some t.
Proof. unfold CutPrefix. by rewrite HasPrefix_app, drop_string_app. Qed.
Lemma HasPrefix_split s p : HasPrefix s p = true → s = p +:+ drop_string (String.length p) s.
Proof.
  revert s. induction p as [|c p IH]; intros [|c' s]; cbn; try done. rewrite andb_true_iff.
  intros [->%Ascii.eqb_eq Hs]. change (String c' s = String c' (p +:+ drop_string (String.length p) s)). f_equal. by apply IH.
Qed.
Lemma TrimPrefix_inj p a b :
  HasPrefix a p = true → HasPrefix b p = true → TrimPrefix a p = TrimPrefix b p → a = b.
Proof.
  unfold TrimPrefix. intros Ha Hb. rewrite Ha, Hb. intros Heq.
  by rewrite (HasPrefix_split _ _ Ha), (HasPrefix_split _ _ Hb), Heq.
Qed.

(** [strings.HasSuffix], [strings.TrimSuffix] *)
Definition HasSuffix (s p : string) : bool := HasPrefix (rev_string s) (rev_string p).
Definition TrimSuffix (s p : string) : string := rev_string (TrimPrefix (rev_string s) (rev_string p)).

(** [strings.Cut] at a one-byte separator: the text around its first
    occurrence. *)
Fixpoint Cut (sep : ascii) (s : string) : string * string * bool :=
  match s with
  | EmptyString => ("", "", false)
  | String c s =>
      if Ascii.eqb c sep then ("", s, true)
      else let '(a, b, found) := Cut sep s in (String c a, b, found)
  end.

(** [strings.Split] at a one-byte separator. *)
Fixpoint Split (sep : ascii) (s : string) : list string :=
  match s with
  | EmptyString => [""]
  | String c s =>
      if Ascii.eqb c sep then "" :: Split sep s
      else match Split sep s with
           | [] => [String c ""]
           | x :: l => String c x :: l
           end
  end.

(** [strings.Join] *)
Fixpoint Join (sep : string) (l : list string) : string :=
  match l with
  | [] => ""
  | [x] => x
  | x :: l => x +:+ sep +:+ Join sep l
  end.

(** [strings.ReplaceAll] of one byte by another. *)
Fixpoint ReplaceAll (old new : ascii) (s : string) : string :=
  match s with
  | EmptyString => ""
  | String c s => String (if Ascii.eqb c old then new else c) (ReplaceAll old new s)
  end.

(** [strings.TrimSpace] on ASCII text. *)
Definition isSpace (c : ascii) : bool :=
  let n := N_of_ascii c in ((n =? 32) || ((9 <=? n) && (n <=? 13)))%N.

Fixpoint TrimLeft (s : string) : string :=
  match s with
  | String c s' => if isSpace c then TrimLeft s' else s
  | EmptyString => ""
  end.
Definition TrimSpace (s : string) : string := rev_string (TrimLeft (rev_string (TrimLeft s))).

Lemma string_of_bytes_app a b : string_of_bytes (a ++ b) = string_of_bytes a +:+ string_of_bytes b.
Proof. induction a as [|c a IH]; [done|].
  change (String c (string_of_bytes (a ++ b)) = String c (string_of_bytes a +:+ string_of_bytes b)). by rewrite IH.
Qed.
Lemma bytes_of_string_app a b : bytes_of_string (a +:+ b) = bytes_of_string a ++ bytes_of_string b.
Proof. induction a as [|c a IH]; [done|].
  change (c :: bytes_of_string (a +:+ b) = c :: bytes_of_string a ++ bytes_of_string b). by rewrite IH.
Qed.

Lemma Split_sep c a b : c ∉ bytes_of_string a → Split c (a +:+ String c b) = a :: Split c b.
Proof.
  induction a as [|x a IH]; intros Hc.
  - change ("" +:+ String c b) with (String c b). cbn [Split]. by rewrite Ascii.eqb_refl.
  - cbn in Hc. apply not_elem_of_cons in Hc as [Hx Hc].
    change (String x a +:+ String c b) with (String x (a +:+ String c b)). cbn [Split].
    destruct (Ascii.eqb_spec x c); [by subst|]. by rewrite (IH Hc).
Qed.

Lemma Split_app c a s : Split c (a +:+ String c s) = Split c a ++ Split c s.
Proof.
  induction a as [|x a IH].
  - change ("" +:+ String c s) with (String c s). cbn [Split]. by rewrite Ascii.eqb_refl.
  - change (String x a +:+ String c s) with (String x (a +:+ String c s)). cbn [Split].
    destruct (Ascii.eqb x c); [by rewrite IH|]. rewrite IH. destruct (Split c a) eqn:E; [|done].
    destruct a as [|y a]; [done|]. cbn in E. destruct (Ascii.eqb y c); [done|]. by destruct (Split c a).
Qed.
Lemma Cut_sep c a b : c ∉ bytes_of_string a → Cut c (a +:+ String c b) = (a, b, true).
Proof.
  induction a as [|x a IH]; intros Hc.
  - change ("" +:+ String c b) with (String c b). cbn [Cut]. by rewrite Ascii.eqb_refl.
  - cbn in Hc. apply not_elem_of_cons in Hc as [Hx Hc].
    change (String x a +:+ String c b) with (String x (a +:+ String c b)). cbn [Cut].
    destruct (Ascii.eqb_spec x c); [by subst|]. by rewrite (IH Hc).
Qed.

(** Trimming what is trimmed, with a newline behind it. *)
Lemma rev_string_involutive s : rev_string (rev_string s) = s.
Proof. unfold rev_string. by rewrite bytes_of_string_of_bytes, rev_involutive, string_of_bytes_of_string. Qed.
Lemma rev_string_snoc c s : rev_string (String c s) = rev_string s +:+ String c "".
Proof. unfold rev_string. cbn. by rewrite string_of_bytes_app. Qed.
Lemma rev_string_last s c : rev_string (s +:+ String c "") = String c (rev_string s).
Proof. unfold rev_string. by rewrite bytes_of_string_app, rev_app_distr. Qed.
Lemma TrimLeft_idem s : TrimLeft (TrimLeft s) = TrimLeft s.
Proof. induction s as [|c s IH]; [done|]. cbn. destruct (isSpace c) eqn:E; [done|]. cbn. by rewrite E. Qed.
Lemma TrimLeft_snoc s c : isSpace c = false → TrimLeft (s +:+ String c "") = TrimLeft s +:+ String c "".
Proof.
  intros Hc. induction s as [|x s IH].
  - change ("" +:+ String c "") with (String c ""). cbn. by rewrite Hc.
  - change (String x s +:+ String c "") with (String x (s +:+ String c "")). cbn [TrimLeft].
    by destruct (isSpace x).
Qed.
Lemma TrimLeft_head s : TrimLeft s = "" ∨ ∃ c s', TrimLeft s = String c s' ∧ isSpace c = false.
Proof. induction s as [|c s IH]; [by left|]. cbn. destruct (isSpace c) eqn:E; [done|]. eauto. Qed.

Lemma TrimSpace_sides s : TrimLeft (TrimSpace s) = TrimSpace s ∧ TrimLeft (rev_string (TrimSpace s)) = rev_string (TrimSpace s).
Proof.
  unfold TrimSpace. split; [|by rewrite rev_string_involutive, TrimLeft_idem].
  destruct (TrimLeft_head s) as [->|(c&s'&->&Hc)]; [done|].
  rewrite rev_string_snoc, TrimLeft_snoc, rev_string_last by done. cbn. by rewrite Hc.
Qed.

Lemma TrimSpace_newline s c : isSpace c = true → TrimSpace (TrimSpace s +:+ String c "") = TrimSpace s.
Proof.
  intros Hc. destruct (TrimSpace_sides s) as [HL HR]. set (w := TrimSpace s) in *.
  assert (TrimLeft (w +:+ String c "") = (match w with EmptyString => "" | _ => w +:+ String c "" end)) as Hl.
  { destruct w as [|x w']; [change ("" +:+ String c "") with (String c ""); cbn; by rewrite Hc|].
    change (String x w' +:+ String c "") with (String x (w' +:+ String c "")). cbn [TrimLeft].
    destruct (isSpace x) eqn:Ex; [|done]. exfalso. clear -HL Ex. cbn [TrimLeft] in HL. rewrite Ex in HL.
    assert (String.length (TrimLeft w') ≤ String.length w')%nat as Hlen.
    { clear. induction w' as [|y w IH]; [done|]. cbn. destruct (isSpace y); cbn; lia. }
    rewrite HL in Hlen. cbn in Hlen. lia. }
  unfold TrimSpace at 1. rewrite Hl. destruct w as [|x w'] eqn:Ew; [done|]. rewrite <- Ew in *.
  rewrite rev_string_last. cbn [TrimLeft]. rewrite Hc, HR. apply rev_string_involutive.
Qed.

(** [slices.Sort] on strings: byte-wise order. *)
Fixpoint sort_insert (x : string) (l : list string) : list string :=
  match l with
  | [] => [x]
  | y :: l' => if String.leb x y then x :: l else y :: sort_insert x l'
  end.
Definition Sort (l : list string) : list string := foldr sort_insert [] l.

Lemma sort_insert_perm x l : sort_insert x l ≡ₚ x :: l.
Proof.
  induction l as [|y l IH]; cbn; [done|]. destruct (String.leb x y); [done|]. rewrite IH. apply Permutation_swap.
Qed.
Lemma Sort_perm l : Sort l ≡ₚ l.
Proof. induction l as [|x l IH]; cbn; [done|]. by rewrite sort_insert_perm, IH. Qed.

(** [slices.Compact]: adjacent equal elements are kept once. *)
Fixpoint Compact (l : list string) : list string :=
  match l with
  | [] => []
  | x :: l' => if decide (head l' = Some x) then Compact l' else x :: Compact l'
  end.
Lemma elem_of_Compact x l : x ∈ Compact l ↔ x ∈ l.
Proof.
  induction l as [|y l IH]; cbn [Compact]; [done|]. case_decide as Hh.
  - destruct l as [|z l]; [done|]. injection Hh as ->. rewrite IH, !elem_of_cons. tauto.
  - rewrite !elem_of_cons, IH. tauto.
Qed.

(** [strings.ContainsAny] *)
Definition ContainsAny (s chars : string) : bool :=
  existsb (λ c, bool_decide (c ∈ bytes_of_string chars)) (bytes_of_string s).

(** ** path.Clean, filepath.Clean, filepath.IsAbs (Unix) *)

Definition IsAbs (p : string) : bool := HasPrefix p "/".

(** One path element against the elements kept so far, last first. *)
Definition clean_step (rooted : bool) (out : list string) (e : string) : list string :=
  if bool_decide (e = "") || bool_decide (e = ".") then out
  else if bool_decide (e = "..") then
    match out with
    | [] => if rooted then [] else [".."]
    | top :: rest => if bool_decide (top = "..") then ".." :: out else rest
    end
  else e :: out.

Definition Clean (p : string) : string :=
  if bool_decide (p = "") then "."
  else
    let rooted := IsAbs p in
    let out := rev (foldl (clean_step rooted) [] (Split "/" p)) in
    if rooted then "/" +:+ Join "/" out
    else match out with [] => "." | _ => Join "/" out end.

(** [filepath.Join]: the cleaned path of the non-empty elements. *)
Definition PathJoin (l : list string) : string :=
  match base.filter (λ e, e ≠ "") l with
  | [] => ""
  | l => Clean (Join "/" l)
  end.

(** [filepath.Rel] of two absolute paths; the sources pass no others. *)
Definition path_elements (p : string) : list string := base.filter (λ e, e ≠ "") (Split "/" p).
Fixpoint strip_common (a b : list string) : list string * list string :=
  match a, b with
  | x :: a', y :: b' => if decide (x = y) then strip_common a' b' else (a, b)
  | _, _ => (a, b)
  end.
Definition Rel (base targ : string) : option string :=
  if negb (IsAbs base) || negb (IsAbs targ) then None
  else
    let '(up, down) := strip_common (path_elements (Clean base)) (path_elements (Clean targ)) in
    match map (λ _, "..") up ++ down with [] => Some "." | l => Some (Join "/" l) end.

Example Rel_ex1 : Rel "/a/b" "/a/b/c/d" = Some "c/d".
Proof. reflexivity. Qed.
Example Rel_ex2 : Rel "/a/b" "/a/x" = Some "../x".
Proof. reflexivity. Qed.
Example Rel_ex3 : Rel "/" "/a/" = Some "a".
Proof. reflexivity. Qed.

Lemma strip_common_refl l : strip_common l l = ([], []).
Proof. induction l as [|x l IH]; cbn; [done|]. by rewrite decide_True. Qed.
Lemma Rel_refl p : IsAbs p = true → Rel p p = Some ".".
Proof. intros Hp. unfold Rel. by rewrite Hp, strip_common_refl. Qed.

Example Clean_ex1 : Clean "/a//b/./c/.." = "/a/b".
Proof. reflexivity. Qed.
Example Clean_ex2 : Clean "../../x/" = "../../x".
Proof. reflexivity. Qed.
Example Clean_ex3 : Clean "/.." = "/".
Proof. reflexivity. Qed.

(** ** encoding/hex *)

Definition hex_digit (n : Z) : ascii := byte_of_Z (if n <? 10 then n + 48 else n + 87).

(** [hex.EncodeToString] *)
Fixpoint hex_encode (b : bytes) : string :=
  match b with
  | [] => ""
  | c :: b =>
      String (hex_digit (Z.shiftr (Z_of_byte c) 4))
        (String (hex_digit (Z.land (Z_of_byte c) 15)) (hex_encode b))
  end.

(** The value of a hexadecimal digit of either case. *)
Definition unhex_digit (c : ascii) : option Z :=
  let n := Z_of_byte c in
  if (48 <=? n) && (n <=? 57) then Some (n - 48)
  else if (97 <=? n) && (n <=? 102) then Some (n - 87)
  else if (65 <=? n) && (n <=? 70) then Some (n - 55)
  else None.

(** [hex.DecodeString]; [None] is its error. *)
Fixpoint hex_decode (s : string) : option bytes :=
  match s with
  | EmptyString => Some []
  | String h (String l s) =>
      match unhex_digit h, unhex_digit l, hex_decode s with
      | Some h, Some l, Some b => Some (byte_of_Z (Z.lor (Z.shiftl h 4) l) :: b)
      | _, _, _ => None
      end
  | String _ EmptyString => None
  end.

Lemma hex_digits c :
  unhex_digit (hex_digit (Z.shiftr (Z_of_byte c) 4)) = Some (Z.shiftr (Z_of_byte c) 4) ∧
  unhex_digit (hex_digit (Z.land (Z_of_byte c) 15)) = Some (Z.land (Z_of_byte c) 15) ∧
  byte_of_Z (Z.lor (Z.shiftl (Z.shiftr (Z_of_byte c) 4) 4) (Z.land (Z_of_byte c) 15)) = c.
Proof. destruct c as [[] [] [] [] [] [] [] []]; vm_compute; auto. Qed.

Lemma hex_decode_encode b : hex_decode (hex_encode b) = Some b.
Proof.
  induction b as [|c b IH]; [done|]. cbn [hex_encode hex_decode].
  destruct (hex_digits c) as (-> & -> & E). by rewrite IH, E.
Qed.

(** ** encoding/base64, StdEncoding and RawStdEncoding *)

Definition unb64_digit (c : ascii) : option Z :=
  let n := Z_of_byte c in
  if (65 <=? n) && (n <=? 90) then Some (n - 65)
  else if (97 <=? n) && (n <=? 122) then Some (n - 71)
  else if (48 <=? n) && (n <=? 57) then Some (n + 4)
  else if n =? 43 then Some 62
  else if n =? 47 then Some 63
  else None.

(** Decode groups of four digits; [padded] selects StdEncoding, which ends a
    short group with padding, against RawStdEncoding, which does not. *)
Fixpoint b64_decode_go (padded : bool) (s : bytes) : option bytes :=
  match s with
  | [] => Some []
  | a :: b :: c :: d :: rest =>
      match unb64_digit a, unb64_digit b with
      | Some a, Some b =>
          match unb64_digit c, unb64_digit d with
          | Some c, Some d =>
              match b64_decode_go padded rest with
              | Some out =>
                  Some (byte_of_Z (Z.lor (Z.shiftl a 2) (Z.shiftr b 4))
                        :: byte_of_Z (Z.lor (Z.shiftl b 4) (Z.shiftr c 2))
                        :: byte_of_Z (Z.lor (Z.shiftl c 6) d) :: out)
              | None => None
              end
          | Some c', None =>
              if padded && Ascii.eqb d "=" && bool_decide (rest = [])
              then Some [byte_of_Z (Z.lor (Z.shiftl a 2) (Z.shiftr b 4));
                         byte_of_Z (Z.lor (Z.shiftl b 4) (Z.shiftr c' 2))]
              else None
          | None, _ =>
              if padded && Ascii.eqb c "=" && Ascii.eqb d "=" && bool_decide (rest = [])
              then Some [byte_of_Z (Z.lor (Z.shiftl a 2) (Z.shiftr b 4))]
              else None
          end
      | _, _ => None
      end
  | [a; b; c] =>
      match unb64_digit a, unb64_digit b, unb64_digit c with
      | Some a, Some b, Some c =>
          if padded then None
          else Some [byte_of_Z (Z.lor (Z.shiftl a 2) (Z.shiftr b 4));
                     byte_of_Z (Z.lor (Z.shiftl b 4) (Z.shiftr c 2))]
      | _, _, _ => None
      end
  | [a; b] =>
      match unb64_digit a, unb64_digit b with
      | Some a, Some b =>
          if padded then None else Some [byte_of_Z (Z.lor (Z.shiftl a 2) (Z.shiftr b 4))]
      | _, _ => None
      end
  | [_] => None
  end.

(** [DecodeString] skips carriage returns and line feeds. *)
Definition b64_decode (padded : bool) (s : string) : option bytes :=
  b64_decode_go padded
    (filter (λ c, c ≠ "010"%char ∧ c ≠ "013"%char) (bytes_of_string s)).

Example b64_ex1 : b64_decode true "Zm9vYg==" = Some (bytes_of_string "foob").
Proof. reflexivity. Qed.
Example b64_ex2 : b64_decode false "Zm9vYg" = Some (bytes_of_string "foob").
Proof. reflexivity. Qed.

(** ** crypto/md5 and crypto/sha256 *)

Definition u32 (x : Z) : Z := x `mod` 2 ^ 32.
Definition rotl32 (x n : Z) : Z := u32 (Z.lor (Z.shiftl x n) (Z.shiftr x (32 - n))).
Definition rotr32 (x n : Z) : Z := rotl32 x (32 - n).
Definition not32 (x : Z) : Z := 2 ^ 32 - 1 - x.

(** The message with its 0x80 byte and zeros up to eight bytes short of a
    multiple of 64. *)
Definition md_pad (msg : list Z) : list Z :=
  msg ++ [128] ++ replicate (Z.to_nat ((55 - Z.of_nat (length msg)) `mod` 64)) 0.

Definition le_word (l : list Z) : Z := foldr (λ b acc, b + 256 * acc) 0 l.
Definition be_word (l : list Z) : Z := foldl (λ acc b, 256 * acc + b) 0 l.
Definition le_bytes (n : nat) (x : Z) : list Z :=
  map (λ i, Z.shiftr x (8 * Z.of_nat i) `mod` 256) (seq 0 n).
Definition be_bytes (n : nat) (x : Z) : list Z := rev (le_bytes n x).

(** Consecutive groups of [n] elements; [fuel] is at least their number. *)
Fixpoint chunks {A} (fuel n : nat) (l : list A) : list (list A) :=
  match fuel, l with
  | O, _ | _, [] => []
  | S fuel, _ => take n l :: chunks fuel n (drop n l)
  end.

Definition md5_K : list Z :=
  [3614090360; 3905402710; 606105819; 3250441966; 4118548399; 1200080426; 2821735955;
   4249261313; 1770035416; 2336552879; 4294925233; 2304563134; 1804603682; 4254626195;
   2792965006; 1236535329; 4129170786; 3225465664; 643717713; 3921069994; 3593408605; 38016083;
   3634488961; 3889429448; 568446438; 3275163606; 4107603335; 1163531501; 2850285829;
   4243563512; 1735328473; 2368359562; 4294588738; 2272392833; 1839030562; 4259657740;
   2763975236; 1272893353; 4139469664; 3200236656; 681279174; 3936430074; 3572445317; 76029189;
   3654602809; 3873151461; 530742520; 3299628645; 4096336452; 1126891415; 2878612391;
   4237533241; 1700485571; 2399980690; 4293915773; 2240044497; 1873313359; 4264355552;
   2734768916; 1309151649; 4149444226; 3174756917; 718787259; 3951481745].
Definition md5_s : list Z :=
  [7; 12; 17; 22; 7; 12; 17; 22; 7; 12; 17; 22; 7; 12; 17; 22; 5; 9; 14; 20; 5; 9; 14; 20; 5; 9;
   14; 20; 5; 9; 14; 20; 4; 11; 16; 23; 4; 11; 16; 23; 4; 11; 16; 23; 4; 11; 16; 23; 6; 10; 15;
   21; 6; 10; 15; 21; 6; 10; 15; 21; 6; 10; 15; 21].

Definition nthZ (l : list Z) (i : nat) : Z := nth i l 0.

Definition md5_round (m : list Z) (st : Z * Z * Z * Z) (i : nat) : Z * Z * Z * Z :=
  let '(a, b, c, d) := st in
  let '(f, g) :=
    if (i <? 16)%nat then (Z.lor (Z.land b c) (Z.land (not32 b) d), i)
    else if (i <? 32)%nat then (Z.lor (Z.land d b) (Z.land (not32 d) c), (5 * i + 1) `mod` 16)%nat
    else if (i <? 48)%nat then (Z.lxor (Z.lxor b c) d, (3 * i + 5) `mod` 16)%nat
    else (Z.lxor c (Z.lor b (not32 d)), (7 * i) `mod` 16)%nat in
  let f := u32 (f + a + nthZ md5_K i + nthZ m g) in
  (d, u32 (b + rotl32 f (nthZ md5_s i)), b, c).

Definition md5_block (st : Z * Z * Z * Z) (block : list Z) : Z * Z * Z * Z :=
  let m := map le_word (chunks 16 4 block) in
  let '(a0, b0, c0, d0) := st in
  let '(a, b, c, d) := foldl (md5_round m) st (seq 0 64) in
  (u32 (a0 + a), u32 (b0 + b), u32 (c0 + c), u32 (d0 + d)).

Definition md5 (msg : bytes) : bytes :=
  let msg := map Z_of_byte msg in
  let data := md_pad msg ++ le_bytes 8 (8 * Z.of_nat (length msg)) in
  let '(a, b, c, d) :=
    foldl md5_block (1732584193, 4023233417, 2562383102, 271733878)
      (chunks (length data) 64 data) in
  map byte_of_Z (le_bytes 4 a ++ le_bytes 4 b ++ le_bytes 4 c ++ le_bytes 4 d).

Example md5_empty : hex_encode (md5 []) = "d41d8cd98f00b204e9800998ecf8427e".
Proof. vm_compute. reflexivity. Qed.
Example md5_abc : hex_encode (md5 (bytes_of_string "abc")) = "900150983cd24fb0d6963f7d28e17f72".
Proof. vm_compute. reflexivity. Qed.

Definition sha256_K : list Z :=
  [1116352408; 1899447441; 3049323471; 3921009573; 961987163; 1508970993; 2453635748;
   2870763221; 3624381080; 310598401; 607225278; 1426881987; 1925078388; 2162078206;
   2614888103; 3248222580; 3835390401; 4022224774; 264347078; 604807628; 770255983; 1249150122;
   1555081692; 1996064986; 2554220882; 2821834349; 2952996808; 3210313671; 3336571891;
   3584528711; 113926993; 338241895; 666307205; 773529912; 1294757372; 1396182291; 1695183700;
   1986661051; 2177026350; 2456956037; 2730485921; 2820302411; 3259730800; 3345764771;
   3516065817; 3600352804; 4094571909; 275423344; 430227734; 506948616; 659060556; 883997877;
   958139571; 1322822218; 1537002063; 1747873779; 1955562222; 2024104815; 2227730452;
   2361852424; 2428436474; 2756734187; 3204031479; 3329325298].
Definition sha256_H : list Z :=
  [1779033703; 3144134277; 1013904242; 2773480762; 1359893119; 2600822924; 528734635;
   1541459225].

(** The message schedule, most recent word first. *)
Fixpoint sha256_extend (n : nat) (w : list Z) : list Z :=
  match n with
  | O => w
  | S n =>
      let s0 := let x := nthZ w 14 in Z.lxor (Z.lxor (rotr32 x 7) (rotr32 x 18)) (Z.shiftr x 3) in
      let s1 := let x := nthZ w 1 in Z.lxor (Z.lxor (rotr32 x 17) (rotr32 x 19)) (Z.shiftr x 10) in
      sha256_extend n (u32 (nthZ w 15 + s0 + nthZ w 6 + s1) :: w)
  end.

Definition sha256_round (st : list Z) (kw : Z * Z) : list Z :=
  match st with
  | [a; b; c; d; e; f; g; h] =>
      let s1 := Z.lxor (Z.lxor (rotr32 e 6) (rotr32 e 11)) (rotr32 e 25) in
      let ch := Z.lxor (Z.land e f) (Z.land (not32 e) g) in
      let t1 := u32 (h + s1 + ch + kw.1 + kw.2) in
      let s0 := Z.lxor (Z.lxor (rotr32 a 2) (rotr32 a 13)) (rotr32 a 22) in
      let maj := Z.lxor (Z.lxor (Z.land a b) (Z.land a c)) (Z.land b c) in
      let t2 := u32 (s0 + maj) in
      [u32 (t1 + t2); a; b; c; u32 (d + t1); e; f; g]
  | _ => st
  end.

Definition sha256_block (st block : list Z) : list Z :=
  let w := rev (sha256_extend 48 (rev (map be_word (chunks 16 4 block)))) in
  zip_with (λ x y, u32 (x + y)) st (foldl sha256_round st (zip sha256_K w)).

Definition sha256 (msg : bytes) : bytes :=
  let msg := map Z_of_byte msg in
  let data := md_pad msg ++ be_bytes 8 (8 * Z.of_nat (length msg)) in
  map byte_of_Z (mjoin (map (be_bytes 4) (foldl sha256_block sha256_H (chunks (length data) 64 data)))).

Example sha256_abc : hex_encode (sha256 (bytes_of_string "abc")) =
  "ba7816bf8f01cfea414140de5dae2223b00361a396177a9cb410ff61f20015ad".
Proof. vm_compute. reflexivity. Qed.
