(* ===== verification/GoNet.v ===== *)
(** * strconv and net, as far as the sources use them

    [strconv.ParseUint], [strconv.Atoi], [strconv.FormatUint],
    [net.SplitHostPort], [net.ParseIP] and [net.IP.String]. *)
From stdpp Require Import base numbers list strings pretty.
From Stdlib Require Import Ascii.
From S2P Require Import Prelude GoStd.
Open Scope Z_scope.

(** ** strconv *)

(** ASCII upper-case letters to lower case (and other bytes as [c | 0x20]). *)
Definition lower (c : ascii) : ascii := byte_of_Z (Z.lor (Z_of_byte c) 32).

Definition between (lo hi : Z) (c : ascii) : bool := (lo <=? Z_of_byte c) && (Z_of_byte c <=? hi).
Definition isDigit : ascii → bool := between 48 57.

(** The value of a digit in bases up to 36. *)
Definition digitValue (c : ascii) : option Z :=
  if isDigit c then Some (Z_of_byte c - 48)
  else if between 97 122 (lower c) then Some (Z_of_byte (lower c) - 97 + 10)
  else None.

(** [underscoreOK]: underscores separate digits, or the base prefix from one.
    [i] is the kind of the last byte: ['^'] at the start, ['0'] a digit, ['_']
    an underscore, ['!'] anything else. *)
Fixpoint underscoreOK_go (hex : bool) (i : ascii) (s : string) : bool :=
  match s with
  | EmptyString => negb (Ascii.eqb i "_")
  | String c s =>
      if isDigit c || hex && between 97 102 (lower c) then underscoreOK_go hex "0" s
      else if Ascii.eqb c "_" then Ascii.eqb i "0" && underscoreOK_go hex "_" s
      else negb (Ascii.eqb i "_") && underscoreOK_go hex "!" s
  end.

Definition underscoreOK (s : string) : bool :=
  let s := match s with
           | String c s' => if Ascii.eqb c "-" || Ascii.eqb c "+" then s' else s
           | EmptyString => s
           end in
  match s with
  | String "0" (String p rest) =>
      if Ascii.eqb (lower p) "b" || Ascii.eqb (lower p) "o" || Ascii.eqb (lower p) "x"
      then underscoreOK_go (Ascii.eqb (lower p) "x") "0" rest
      else underscoreOK_go false "^" s
  | _ => underscoreOK_go false "^" s
  end.

(** The digit loop: the value, and whether an underscore was skipped. *)
Fixpoint ParseUint_go (base maxVal : Z) (base0 : bool) (n : Z) (us : bool) (s : string) : option (Z * bool) :=
  match s with
  | EmptyString => Some (n, us)
  | String c s =>
      if Ascii.eqb c "_" && base0 then ParseUint_go base maxVal base0 n true s
      else
        match digitValue c with
        | None => None
        | Some d =>
            if base <=? d then None
            else if maxVal <? n * base + d then None
            else ParseUint_go base maxVal base0 (n * base + d) us s
        end
  end.

(** [strconv.ParseUint(s, base, bitSize)], [None] for any error. *)
Definition ParseUint (s : string) (base bitSize : Z) : option Z :=
  match s with
  | EmptyString => None
  | String c rest =>
      let '(b, digits) :=
        if negb (base =? 0) then (base, s)
        else if negb (Ascii.eqb c "0") then (10, s)
        else match rest with
             | String p (String _ _ as rest') =>
                 if Ascii.eqb (lower p) "b" then (2, drop_string 1 rest)
                 else if Ascii.eqb (lower p) "o" then (8, drop_string 1 rest)
                 else if Ascii.eqb (lower p) "x" then (16, drop_string 1 rest)
                 else (8, rest)
             | _ => (8, rest)
             end in
      match ParseUint_go b (2 ^ bitSize - 1) (base =? 0) 0 false digits with
      | Some (n, us) => if us && negb (underscoreOK s) then None else Some n
      | None => None
      end
  end.

(** [strconv.Atoi] on a 64-bit platform. *)
Definition Atoi (s : string) : option Z :=
  match s with
  | EmptyString => None
  | String c rest =>
      let neg := Ascii.eqb c "-" in
      let digits := if neg || Ascii.eqb c "+" then rest else s in
      match ParseUint digits 10 64 with
      | None => None
      | Some n => if neg then if n <=? 2 ^ 63 then Some (- n) else None
                  else if n <? 2 ^ 63 then Some n else None
      end
  end.

(** [strconv.Itoa], [strconv.FormatUint(n, 10)] *)
Definition Itoa (n : Z) : string := pretty n.

Lemma pretty_N_go_chars (P : ascii → bool) :
  (∀ d, P (pretty_N_char d) = true) →
  ∀ x s, forallb P (bytes_of_string s) = true → forallb P (bytes_of_string (pretty_N_go x s)) = true.
Proof.
  intros HP x. induction (N.lt_wf_0 x) as [x _ IH]. intros s Hs.
  destruct (decide (0 < x)%N) as [Hx|Hx].
  - rewrite pretty_N_go_step by done. apply IH; [apply N.div_lt; lia|]. cbn. by rewrite HP.
  - assert (x = 0%N) as -> by lia. by rewrite pretty_N_go_0.
Qed.
Lemma Itoa_chars (P : ascii → bool) n : 0 ≤ n → (∀ d, P (pretty_N_char d) = true) → forallb P (bytes_of_string (Itoa n)) = true.
Proof.
  intros Hn HP. unfold Itoa, pretty, pretty_Z. destruct n as [|p|p]; [| |lia].
  - change (P (pretty_N_char 0) && true = true). by rewrite HP.
  - change (pretty p) with (pretty (N.pos p)). unfold pretty, pretty_N. rewrite decide_False by done. by apply pretty_N_go_chars.
Qed.

Example ParseUint_ex1 : ParseUint "0x1F" 0 32 = Some 31.
Proof. reflexivity. Qed.
Example ParseUint_ex2 : ParseUint "017" 0 16 = Some 15.
Proof. reflexivity. Qed.
Example ParseUint_ex3 : ParseUint "256" 10 8 = None.
Proof. reflexivity. Qed.
Example ParseUint_ex4 : ParseUint "1_000" 0 32 = Some 1000.
Proof. reflexivity. Qed.
Example ParseUint_ex5 : ParseUint "1__0" 0 32 = None.
Proof. reflexivity. Qed.
Example Itoa_ex : Itoa 16776192 = "16776192".
Proof. reflexivity. Qed.

Lemma ParseUint_go_bound base maxVal base0 n us s m us' :
  0 ≤ base → 0 ≤ n ≤ maxVal → ParseUint_go base maxVal base0 n us s = Some (m, us') → 0 ≤ m ≤ maxVal.
Proof.
  intros Hb. revert n us. induction s as [|c s IH]; intros n us Hn; cbn; [by intros [= <- <-]|].
  destruct (Ascii.eqb c "_" && base0); [by apply IH|].
  destruct (digitValue c) as [d|] eqn:Ed; [|done]. destruct (base <=? d); [done|].
  destruct (Z.ltb_spec maxVal (n * base + d)); [done|]. apply IH.
  assert (0 ≤ d); [|nia]. unfold digitValue, isDigit, between in Ed.
  destruct (_ && _) eqn:E in Ed; [apply andb_true_iff in E as [E%Z.leb_le _]; simplify_eq; lia|].
  destruct (_ && _) eqn:E' in Ed; [apply andb_true_iff in E' as [E'%Z.leb_le _]; simplify_eq; lia|done].
Qed.

Lemma ParseUint_bound s base bitSize n :
  0 ≤ base → 0 ≤ bitSize → ParseUint s base bitSize = Some n → 0 ≤ n < 2 ^ bitSize.
Proof.
  intros Hb Hs. unfold ParseUint. destruct s as [|c rest]; [done|].
  match goal with |- (let '(b, digits) := ?X in _) = _ → _ => destruct X as [b digits] eqn:EX end.
  assert (0 ≤ b) as Hb'. { repeat case_match; simplify_eq; lia. }
  destruct (ParseUint_go _ _ _ _ _ _) as [[m us]|] eqn:E; [|done].
  apply ParseUint_go_bound in E; [|done|pose proof (Z.pow_pos_nonneg 2 bitSize); lia].
  destruct (us && _); intros; simplify_eq; lia.
Qed.

(** ** net.SplitHostPort *)

Fixpoint IndexByte (c : ascii) (s : string) : option nat :=
  match s with
  | EmptyString => None
  | String c' s => if Ascii.eqb c' c then Some 0%nat else S <$> IndexByte c s
  end.
Fixpoint LastIndexByte (c : ascii) (s : string) : option nat :=
  match s with
  | EmptyString => None
  | String c' s =>
      match LastIndexByte c s with
      | Some i => Some (S i)
      | None => if Ascii.eqb c' c then Some 0%nat else None
      end
  end.
Definition containsByte (c : ascii) (s : string) : bool :=
  match IndexByte c s with Some _ => true | None => false end.

(** [filepath.Dir] *)
Definition Dir (p : string) : string :=
  Clean (match LastIndexByte "/" p with Some i => String.substring 0 (S i) p | None => "" end).

Definition SplitHostPort (hostport : string) : option (string * string) :=
  match LastIndexByte ":" hostport with
  | None => None
  | Some i =>
      let parts :=
        match hostport with
        | String "[" _ =>
            match IndexByte "]" hostport with
            | None => None
            | Some e => if (S e =? i)%nat
                        then Some (String.substring 1 (e - 1) hostport, 1%nat, S e) else None
            end
        | _ =>
            let host := String.substring 0 i hostport in
            if containsByte ":" host then None else Some (host, 0%nat, 0%nat)
        end in
      match parts with
      | None => None
      | Some (host, j, k) =>
          if containsByte "[" (drop_string j hostport) || containsByte "]" (drop_string k hostport) then None
          else Some (host, drop_string (S i) hostport)
      end
  end.

Example SplitHostPort_ex1 : SplitHostPort "10.0.0.1:3260" = Some ("10.0.0.1", "3260").
Proof. reflexivity. Qed.
Example SplitHostPort_ex2 : SplitHostPort "[fe80::1]:860" = Some ("fe80::1", "860").
Proof. reflexivity. Qed.
Example SplitHostPort_ex3 : SplitHostPort "fe80::1" = None.
Proof. reflexivity. Qed.

(** ** net.ParseIP and net.IP.String

    An address is its 16 bytes; an IPv4 address has the prefix ::ffff:0:0/96. *)

(** [parseIPv4Fields]: four decimal octets without leading zeros. *)
Fixpoint ipv4_fields (val digLen : Z) (prevDot : bool) (pos : nat) (acc : list Z) (s : string) : option (list Z) :=
  match s with
  | EmptyString => if (pos <? 3)%nat then None else Some (rev (val :: acc))
  | String c s' =>
      if isDigit c then
        let val' := val * 10 + (Z_of_byte c - 48) in
        if (digLen =? 1) && (val =? 0) then None
        else if 255 <? val' then None
        else ipv4_fields val' (digLen + 1) false pos acc s'
      else if Ascii.eqb c "." then
        if prevDot || bool_decide (s' = "") || (pos =? 3)%nat then None
        else ipv4_fields 0 0 true (S pos) (val :: acc) s'
      else None
  end.
Definition parseIPv4Fields (s : string) : option (list Z) := ipv4_fields 0 0 true 0 [] s.

(** One hexadecimal field of at most four digits, and the rest. *)
Fixpoint ipv6_field (off : nat) (acc : Z) (s : string) : option (nat * Z * string) :=
  match s with
  | String c s' =>
      match digitValue c with
      | Some d =>
          if d <? 16 then if (3 <? off)%nat then None else ipv6_field (S off) (acc * 16 + d) s'
          else Some (off, acc, s)
      | None => Some (off, acc, s)
      end
  | EmptyString => Some (off, acc, s)
  end.

(** The field loop: the bytes read so far, the position of the ellipsis, and
    the text to come; each round reads at least two bytes. *)
Fixpoint ipv6_fields (fuel : nat) (ip : list Z) (ellipsis : option nat) (s : string)
    : option (list Z * option nat * string) :=
  match fuel with
  | O => Some (ip, ellipsis, s)
  | S fuel =>
      if (16 <=? length ip)%nat then Some (ip, ellipsis, s)
      else
        match ipv6_field 0 0 s with
        | None | Some (O, _, _) => None
        | Some (_, _, String "." _) =>
            if (bool_decide (ellipsis = None) && negb (length ip =? 12)%nat) || (16 <? length ip + 4)%nat then None
            else match parseIPv4Fields s with
                 | Some b4 => Some (ip ++ b4, ellipsis, "")
                 | None => None
                 end
        | Some (_, acc, rest) =>
            let ip := ip ++ [acc `div` 256; acc `mod` 256] in
            match rest with
            | EmptyString => Some (ip, ellipsis, "")
            | String ":" (String c' rest' as s') =>
                if Ascii.eqb c' ":" then
                  match ellipsis with
                  | Some _ => None
                  | None => if bool_decide (rest' = "") then Some (ip, Some (length ip), "")
                            else ipv6_fields fuel ip (Some (length ip)) rest'
                  end
                else ipv6_fields fuel ip ellipsis s'
            | _ => None
            end
        end
  end.

Definition parseIPv6 (s : string) : option (list Z) :=
  if containsByte "%" s then None
  else
    let '(ellipsis, s') :=
      match s with String ":" (String ":" rest) => (Some 0%nat, rest) | _ => (None, s) end in
    if bool_decide (ellipsis = Some 0%nat) && bool_decide (s' = "") then Some (replicate 16 0)
    else
      match ipv6_fields 9 [] ellipsis s' with
      | Some (ip, ellipsis, "") =>
          if (length ip <? 16)%nat then
            match ellipsis with
            | None => None
            | Some e => Some (take e ip ++ replicate (16 - length ip) 0 ++ drop e ip)
            end
          else if bool_decide (ellipsis = None) then Some ip else None
      | _ => None
      end.

(** The first ['.'] or [':'] decides the family; a zone is refused. *)
Fixpoint ipFamily (s : string) : option ascii :=
  match s with
  | EmptyString => None
  | String c s =>
      if Ascii.eqb c "." || Ascii.eqb c ":" then Some c
      else if Ascii.eqb c "%" then None else ipFamily s
  end.

Definition v4InV6Prefix : list Z := replicate 10 0 ++ [255; 255].

Definition ParseIP (s : string) : option (list Z) :=
  match ipFamily s with
  | Some "." => (λ b4, v4InV6Prefix ++ b4) <$> parseIPv4Fields s
  | Some _ => parseIPv6 s
  | None => None
  end%char.

(** The 16-bit groups of an address. *)
Fixpoint ipGroups (ip : list Z) : list Z :=
  match ip with a :: b :: ip => (a * 256 + b) :: ipGroups ip | _ => [] end.

Fixpoint zeroRun (l : list Z) : nat :=
  match l with 0 :: l => S (zeroRun l) | _ => 0 end.

(** The longest run of at least two zero groups, the first of several. *)
Fixpoint longestRun (i : nat) (l : list Z) (best : nat * nat) : nat * nat :=
  match l with
  | [] => best
  | _ :: l' =>
      let n := zeroRun l in
      longestRun (S i) l' (if (2 <=? n)%nat && (best.2 <? n)%nat then (i, n) else best)
  end.

Fixpoint hexNumber (fuel : nat) (n : Z) : string :=
  match fuel with
  | O => ""
  | S fuel => (if n <? 16 then "" else hexNumber fuel (n `div` 16)) +:+ String (hex_digit (n `mod` 16)) ""
  end.

Definition IPString (ip : list Z) : string :=
  if bool_decide (take 12 ip = v4InV6Prefix) then Join "." (map Itoa (drop 12 ip))
  else
    let groups := ipGroups ip in
    let '(start, n) := longestRun 0 groups (0%nat, 0%nat) in
    if (n =? 0)%nat then Join ":" (map (hexNumber 4) groups)
    else Join ":" (map (hexNumber 4) (take start groups)) +:+ "::" +:+
         Join ":" (map (hexNumber 4) (drop (start + n) groups)).

Definition normalizeIP (s : string) : string := from_option IPString s (ParseIP s).

Example normalizeIP_ex1 : normalizeIP "0:0::1" = "::1".
Proof. reflexivity. Qed.
Example normalizeIP_ex2 : normalizeIP "2001:DB8:0:0:1:0:0:1" = "2001:db8::1:0:0:1".
Proof. reflexivity. Qed.
Example normalizeIP_ex3 : normalizeIP "::ffff:10.0.0.1" = "10.0.0.1".
Proof. reflexivity. Qed.
Example normalizeIP_ex4 : normalizeIP "10.0.0.01" = "10.0.0.01".
Proof. reflexivity. Qed.
Example normalizeIP_ex5 : normalizeIP "::" = "::".
Proof. reflexivity. Qed.
Example normalizeIP_ex6 : normalizeIP "storage.local" = "storage.local".
Proof. reflexivity. Qed.
