(* ===== verification/GoNetip.v ===== *)
(** * net/netip, as far as the sources use it

    [netip.ParseAddr], [Addr.Unmap], [Addr.String] and the address classes,
    and that an address is printed so that it is read back. *)
From stdpp Require Import base numbers list strings pretty.
From Stdlib Require Import Ascii.
From S2P Require Import Prelude GoStd GoNet.
Open Scope Z_scope.

(** An address is its 4 or 16 bytes and its zone. *)
Record Addr := { ad_bytes : list Z; ad_zone : string }.
#[export] Instance Addr_eq_dec : EqDecision Addr.
Proof. solve_decision. Defined.

(** [netip.ParseAddr] *)
Definition ParseAddr (s : string) : option Addr :=
  match ipFamily s with
  | Some "." => (λ b4, {| ad_bytes := b4; ad_zone := ""%string |}) <$> parseIPv4Fields s
  | Some _ =>
      let '(host, zone, found) := Cut "%" s in
      if found && bool_decide (zone = ""%string) then None
      else (λ b, {| ad_bytes := b; ad_zone := zone |}) <$> parseIPv6 host
  | None => None
  end%char.

Definition Is4 (a : Addr) : bool := (length (ad_bytes a) =? 4)%nat.
Definition Is4In6 (a : Addr) : bool := negb (Is4 a) && bool_decide (take 12 (ad_bytes a) = v4InV6Prefix).
Definition Unmap (a : Addr) : Addr :=
  if Is4In6 a then {| ad_bytes := drop 12 (ad_bytes a); ad_zone := "" |} else a.

(** [IsUnspecified] compares with "0.0.0.0" and "::" as they are. *)
Definition IsUnspecified (a : Addr) : bool :=
  bool_decide (a = {| ad_bytes := replicate 4 0; ad_zone := "" |}) ||
  bool_decide (a = {| ad_bytes := replicate 16 0; ad_zone := "" |}).
(** [IsMulticast] looks through an IPv4-mapped address. *)
Definition IsMulticast (a : Addr) : bool :=
  let b := hd 0 (ad_bytes (Unmap a)) in
  if Is4 (Unmap a) then Z.land b 240 =? 224 else b =? 255.

Definition AddrString (a : Addr) : string :=
  let zone := if decide (ad_zone a = "") then "" else "%" +:+ ad_zone a in
  if Is4 a then Join "." (map Itoa (ad_bytes a))
  else if Is4In6 a then "::ffff:" +:+ Join "." (map Itoa (drop 12 (ad_bytes a))) +:+ zone
  else IPString (ad_bytes a) +:+ zone.

Example ParseAddr_ex1 : AddrString <$> ParseAddr "2001:DB8:0::1%eth0" = Some "2001:db8::1%eth0".
Proof. reflexivity. Qed.
Example ParseAddr_ex2 : AddrString ∘ Unmap <$> ParseAddr "::ffff:192.0.2.1" = Some "192.0.2.1".
Proof. reflexivity. Qed.
Example ParseAddr_ex3 : ParseAddr "192.0.2.1%eth0" = None.
Proof. reflexivity. Qed.

(** ** Printing and parsing an IPv4 address *)
Lemma ipv4_octet n : 0 ≤ n < 256 →
  ∃ k, k ≠ 0 ∧ ∀ pos acc t, ipv4_fields 0 0 true pos acc (Itoa n +:+ t) = ipv4_fields n k false pos acc t.
Proof.
  intros Hn. assert (n ∈ seqZ 0 256) as Hin by (apply elem_of_seqZ; lia). clear Hn. revert n Hin.
  apply Forall_forall. vm_compute (seqZ 0 256).
  repeat (constructor; [first [exists 1; split; [done|]; reflexivity|exists 2; split; [done|]; reflexivity
    |exists 3; split; [done|]; reflexivity]|]). constructor.
Qed.
Lemma Itoa_nonempty n t : 0 ≤ n → Itoa n +:+ t ≠ "".
Proof.
  intros Hn. unfold Itoa, pretty, pretty_Z. destruct n as [|p|p]; [done| |lia].
  unfold pretty, pretty_positive, pretty, pretty_N. rewrite decide_False by done.
  intros H. apply (f_equal String.length) in H. rewrite string_length_app in H.
  rewrite pretty_N_go_step in H by lia.
  assert (∀ x s, (0 < String.length s)%nat → (0 < String.length (pretty_N_go x s))%nat) as Hl.
  { intros x. induction (N.lt_wf_0 x) as [x _ IH]. intros s Hs. destruct (decide (0 < x)%N).
    - rewrite pretty_N_go_step by done. apply IH; [apply N.div_lt; lia|cbn; lia].
    - assert (x = 0%N) as -> by lia. by rewrite pretty_N_go_0. }
  specialize (Hl (N.pos p `div` 10)%N (String (pretty_N_char (N.pos p `mod` 10)) "") ltac:(cbn; lia)).
  cbn [String.length] in H. lia.
Qed.
Lemma ipv4_dot n k pos acc t : k ≠ 0 → (pos < 3)%nat → t ≠ "" →
  ipv4_fields n k false pos acc ("." +:+ t) = ipv4_fields 0 0 true (S pos) (n :: acc) t.
Proof.
  intros Hk Hp Ht. change ("." +:+ t) with (String "." t). cbn -[bool_decide]. rewrite bool_decide_eq_false_2 by done.
  by replace (pos =? 3)%nat with false by (symmetry; apply Nat.eqb_neq; lia).
Qed.

(** [net.IPv4] text is read back as the same four octets. *)
Lemma parseIPv4_print a b c d : 0 ≤ a < 256 → 0 ≤ b < 256 → 0 ≤ c < 256 → 0 ≤ d < 256 →
  parseIPv4Fields (Join "." (map Itoa [a; b; c; d])) = Some [a; b; c; d].
Proof.
  intros Ha Hb Hc Hd. unfold parseIPv4Fields. cbn [Join map].
  destruct (ipv4_octet a Ha) as (ka&?&Ea), (ipv4_octet b Hb) as (kb&?&Eb), (ipv4_octet c Hc) as (kc&?&Ec),
    (ipv4_octet d Hd) as (kd&?&Ed).
  assert (Itoa d +:+ "" = Itoa d) as <- by apply string_app_nil.
  rewrite Ea, ipv4_dot, Eb, ipv4_dot, Ec, ipv4_dot, Ed by (done || lia || apply Itoa_nonempty; lia). reflexivity.
Qed.

(** ** Printing and parsing an IPv6 address *)

Definition group_ok (g : Z) : Prop := 0 ≤ g < 65536.
Definition groupText (gs : list Z) : string := Join ":" (map (hexNumber 4) gs).
Definition groupBytes (gs : list Z) : list Z := concat (map (λ g, [g `div` 256; g `mod` 256]) gs).
(** The text of a group ends here. *)
Definition ends (t : string) : Prop := t = "" ∨ ∃ t', t = String ":" t'.

Lemma digitValue_hex d : 0 ≤ d < 16 → digitValue (hex_digit d) = Some d.
Proof.
  intros Hd. assert (d ∈ seqZ 0 16) as Hin by (apply elem_of_seqZ; lia). clear Hd. revert d Hin.
  apply Forall_forall. vm_compute (seqZ 0 16). repeat (constructor; [reflexivity|]). constructor.
Qed.

Lemma ipv6_field_digit off acc d t : 0 ≤ d < 16 → (off < 4)%nat →
  ipv6_field off acc (String (hex_digit d) t) = ipv6_field (S off) (acc * 16 + d) t.
Proof.
  intros Hd Ho. cbn [ipv6_field]. rewrite digitValue_hex by done.
  replace (d <? 16) with true by (symmetry; apply Z.ltb_lt; lia).
  by replace (3 <? off)%nat with false by (symmetry; apply Nat.ltb_ge; lia).
Qed.
Lemma ipv6_field_end off acc t : ends t → ipv6_field off acc t = Some (off, acc, t).
Proof. by intros [->|[t' ->]]. Qed.

Lemma hexNumber_field g t : group_ok g → ends t →
  ∃ k, ipv6_field 0 0 (hexNumber 4 g +:+ t) = Some (S k, g, t).
Proof.
  intros Hg Ht. unfold group_ok in Hg. cbn [hexNumber].
  assert (∀ x, 0 ≤ x `mod` 16 < 16) as Hm by (intros; apply Z.mod_pos_bound; lia).
  pose proof (Z.div_mod g 16 ltac:(lia)). pose proof (Hm g). set (g1 := g `div` 16) in *.
  pose proof (Z.div_mod g1 16 ltac:(lia)). pose proof (Hm g1). set (g2 := g1 `div` 16) in *.
  pose proof (Z.div_mod g2 16 ltac:(lia)). pose proof (Hm g2). set (g3 := g2 `div` 16) in *.
  destruct (Z.ltb_spec g 16); [|destruct (Z.ltb_spec g1 16); [|destruct (Z.ltb_spec g2 16);
    [|destruct (Z.ltb_spec g3 16); [|exfalso; lia]]]];
    repeat change (String ?c ?s +:+ ?u) with (String c (s +:+ u)); repeat change ("" +:+ ?u) with u; rewrite ?string_app_assoc;
    repeat change (String ?c ?s +:+ ?u) with (String c (s +:+ u)); repeat change ("" +:+ ?u) with u;
    rewrite !ipv6_field_digit by (done || lia); rewrite ipv6_field_end by done; eexists; do 2 f_equal; f_equal.
  - rewrite Z.mod_small by lia. lia.
  - rewrite (Z.mod_small g1) by lia. lia.
  - rewrite (Z.mod_small g2) by lia. lia.
  - rewrite (Z.mod_small g3) by lia. lia.
Qed.

Lemma hexNumber_head n g t : (0 < n)%nat → ∃ c u, hexNumber n g +:+ t = String c u ∧ c ≠ ":"%char ∧ c ≠ "."%char ∧ c ≠ "%"%char.
Proof.
  assert (∀ d, hex_digit (d `mod` 16) ≠ ":"%char ∧ hex_digit (d `mod` 16) ≠ "."%char ∧ hex_digit (d `mod` 16) ≠ "%"%char) as Hd.
  { intros d. assert (d `mod` 16 ∈ seqZ 0 16) as Hin by (apply elem_of_seqZ; pose proof (Z.mod_pos_bound d 16); lia).
    revert Hin. generalize (d `mod` 16). apply Forall_forall. vm_compute (seqZ 0 16). repeat (constructor; [done|]). constructor. }
  intros Hn. revert g t. induction n as [|n IH]; intros g t; [lia|]. cbn [hexNumber]. destruct (g <? 16).
  - eexists _, _. split; [reflexivity|]. apply Hd.
  - rewrite string_app_assoc. destruct n as [|n]; [eexists _, _; split; [reflexivity|apply Hd]|].
    apply IH. lia.
Qed.

(** One group and a separator. *)
Lemma ipv6_fields_group fuel ip ell g c t :
  group_ok g → (length ip < 16)%nat → c ≠ ":"%char →
  ipv6_fields (S fuel) ip ell (hexNumber 4 g +:+ String ":" (String c t)) =
  ipv6_fields fuel (ip ++ [g `div` 256; g `mod` 256]) ell (String c t).
Proof.
  intros Hg Hl Hc. cbn [ipv6_fields]. replace (16 <=? length ip)%nat with false by (symmetry; apply Nat.leb_gt; lia).
  destruct (hexNumber_field g (String ":" (String c t)) Hg ltac:(right; eauto)) as [k ->].
  destruct (Ascii.eqb_spec c ":"); [done|reflexivity].
Qed.
Lemma groupText_cons g gs : gs ≠ [] → groupText (g :: gs) = hexNumber 4 g +:+ String ":" (groupText gs).
Proof. by destruct gs. Qed.
Lemma groupText_head gs t : gs ≠ [] → ∃ c u, groupText gs +:+ t = String c u ∧ c ≠ ":"%char ∧ c ≠ "."%char ∧ c ≠ "%"%char.
Proof.
  destruct gs as [|g [|g' gs]]; intros Hg; [done|apply (hexNumber_head 4); lia|].
  rewrite groupText_cons, string_app_assoc by done. apply hexNumber_head. lia.
Qed.

(** The groups up to the end of the text. *)
Lemma ipv6_fields_groups fuel ip ell gs :
  gs ≠ [] → Forall group_ok gs → (length ip + 2 * length gs ≤ 16)%nat → (length gs ≤ fuel)%nat →
  ipv6_fields fuel ip ell (groupText gs) = Some (ip ++ groupBytes gs, ell, "").
Proof.
  revert fuel ip. induction gs as [|g gs IH]; intros fuel ip Hne Hok Hl Hf; [done|]. cbn [length] in *.
  inversion Hok as [|?? Hg Hgs]; subst. destruct fuel as [|fuel]; [lia|]. destruct gs as [|g' gs'] eqn:Egs.
  - cbn [ipv6_fields groupText map Join]. replace (16 <=? length ip)%nat with false by (symmetry; apply Nat.leb_gt; lia).
    destruct (hexNumber_field g "" Hg ltac:(by left)) as [k Hk]. rewrite string_app_nil in Hk. rewrite Hk. reflexivity.
  - rewrite groupText_cons by done. destruct (groupText_head (g' :: gs') "" ltac:(done)) as (c&u&E&Hc&_).
    rewrite string_app_nil in E. rewrite E, ipv6_fields_group by (done || lia). rewrite <- E.
    rewrite IH; [|done|done|rewrite length_app; cbn in *; lia|cbn in *; lia]. cbn [groupBytes map concat]. by rewrite <- app_assoc.
Qed.

(** The groups up to the ellipsis. *)
Lemma ipv6_fields_ellipsis fuel ip A t :
  A ≠ [] → Forall group_ok A → (length ip + 2 * length A ≤ 16)%nat → (length A ≤ fuel)%nat →
  ipv6_fields fuel ip None (groupText A +:+ "::" +:+ t) =
  let ip' := ip ++ groupBytes A in
  if bool_decide (t = "") then Some (ip', Some (length ip'), "")
  else ipv6_fields (fuel - length A) ip' (Some (length ip')) t.
Proof.
  revert fuel ip. induction A as [|g A IH]; intros fuel ip Hne Hok Hl Hf; [done|]. cbn [length] in *.
  inversion Hok as [|?? Hg HA]; subst. destruct fuel as [|fuel]; [lia|]. destruct A as [|g' A'] eqn:EA.
  - change (groupText [g]) with (hexNumber 4 g). change ("::" +:+ t) with (String ":" (String ":" t)).
    cbn [ipv6_fields]. replace (16 <=? length ip)%nat with false by (symmetry; apply Nat.leb_gt; lia).
    destruct (hexNumber_field g (String ":" (String ":" t)) Hg ltac:(right; eauto)) as [k ->].
    cbn [Ascii.eqb]. cbn [groupBytes map concat length Nat.sub]. rewrite app_nil_r, Nat.sub_0_r. reflexivity.
  - rewrite groupText_cons, string_app_assoc by done.
    change (String ":" (groupText (g' :: A')) +:+ ?x) with (String ":" (groupText (g' :: A') +:+ x)).
    destruct (groupText_head (g' :: A') ("::" +:+ t) ltac:(done)) as (c&u&E&Hc&_).
    rewrite E, ipv6_fields_group by (done || lia). rewrite <- E.
    rewrite IH; [|done|done|rewrite length_app; cbn in *; lia|cbn in *; lia].
    cbn [groupBytes map concat]. rewrite <- app_assoc. reflexivity.
Qed.

Lemma zeroRun_zeros l : (zeroRun l ≤ length l)%nat ∧ take (zeroRun l) l = replicate (zeroRun l) 0.
Proof. induction l as [|[|p|p] l [IH1 IH2]]; cbn; try (split; [lia|done]). split; [lia|by rewrite IH2]. Qed.

Lemma longestRun_zeros i l best s n : longestRun i l best = (s, n) →
  (s, n) = best ∨ (i ≤ s)%nat ∧ (s - i + n ≤ length l)%nat ∧ take n (drop (s - i) l) = replicate n 0.
Proof.
  revert i best. induction l as [|x l IH]; intros i best; cbn [longestRun]; [by left|].
  intros [Hb|(Hi&Hl&Ht)]%IH.
  - destruct (_ && _); [|by left]. injection Hb as -> ->. right. destruct (zeroRun_zeros (x :: l)) as [H1 H2].
    rewrite Nat.sub_diag. split_and!; [done|exact H1|exact H2].
  - right. replace (s - i)%nat with (S (s - S i)) by lia. split_and!; [lia|cbn; lia|exact Ht].
Qed.

Lemma groupBytes_app a b : groupBytes (a ++ b) = groupBytes a ++ groupBytes b.
Proof. unfold groupBytes. by rewrite map_app, concat_app. Qed.
Lemma groupBytes_zeros n : groupBytes (replicate n 0) = replicate (2 * n) 0.
Proof. induction n as [|n IH]; [done|]. replace (2 * S n)%nat with (S (S (2 * n))) by lia.
  change (groupBytes (replicate (S n) 0)) with (0 :: 0 :: groupBytes (replicate n 0)). by rewrite IH.
Qed.
Lemma groupBytes_length gs : length (groupBytes gs) = (2 * length gs)%nat.
Proof.
  induction gs as [|g gs IH]; [done|]. change (S (S (length (groupBytes gs))) = (2 * S (length gs))%nat). rewrite IH. lia.
Qed.

Lemma ipGroups_bytes ip : Forall (λ b, 0 ≤ b < 256) ip → Nat.even (length ip) = true →
  groupBytes (ipGroups ip) = ip ∧ Forall group_ok (ipGroups ip) ∧ (length ip = 2 * length (ipGroups ip))%nat.
Proof.
  revert ip. fix IH 1. intros [|a [|b ip]] Hb He; [repeat split; constructor|done|].
  inversion Hb as [|?? Ha Hb']; subst. inversion Hb' as [|?? Hb2 Hip]; subst. destruct (IH ip Hip He) as (H1&H2&H3).
  cbn [ipGroups groupBytes map concat length]. split_and!.
  - rewrite Z.div_add_l, Z.div_small by lia. replace (a * 256 + b) with (b + a * 256) by lia.
    rewrite Z.mod_add, Z.mod_small by lia. rewrite Z.add_0_r. cbn [app]. unfold groupBytes in H1. by rewrite H1.
  - constructor; [unfold group_ok; lia|done].
  - lia.
Qed.

Lemma hex_digit_plain d : Ascii.eqb (hex_digit (d `mod` 16)) ":" = false ∧ Ascii.eqb (hex_digit (d `mod` 16)) "." = false ∧
  Ascii.eqb (hex_digit (d `mod` 16)) "%" = false.
Proof.
  assert (d `mod` 16 ∈ seqZ 0 16) as Hin by (apply elem_of_seqZ; pose proof (Z.mod_pos_bound d 16); lia).
  revert Hin. generalize (d `mod` 16). apply Forall_forall. vm_compute (seqZ 0 16).
  repeat (constructor; [split_and!; reflexivity|]). constructor.
Qed.
Lemma containsByte_cons c x s : Ascii.eqb x c = false → containsByte c (String x s) = containsByte c s.
Proof. intros Hx. unfold containsByte. cbn [IndexByte]. rewrite Hx. by destruct (IndexByte c s). Qed.
Lemma hexNumber_no_percent n g u : containsByte "%" (hexNumber n g +:+ u) = containsByte "%" u.
Proof.
  revert g u. induction n as [|n IH]; intros g u; [done|]. cbn [hexNumber]. rewrite string_app_assoc.
  destruct (g <? 16); [|rewrite IH]; apply containsByte_cons, (hex_digit_plain g).
Qed.
Lemma no_percent gs t : containsByte "%" (groupText gs +:+ t) = containsByte "%" t.
Proof.
  induction gs as [|g gs IH]; [done|]. destruct gs as [|g' gs]; [apply hexNumber_no_percent|].
  rewrite groupText_cons, string_app_assoc, hexNumber_no_percent by done.
  change (String ":" (groupText (g' :: gs)) +:+ t) with (String ":" (groupText (g' :: gs) +:+ t)).
  by rewrite containsByte_cons.
Qed.
Lemma ipFamily_hex n g t : ipFamily (hexNumber n g +:+ String ":" t) = Some ":"%char.
Proof.
  assert (∀ u, ipFamily u = Some ":"%char → ipFamily (hexNumber n g +:+ u) = Some ":"%char) as Hh; [|by apply Hh].
  revert g. induction n as [|n IH]; intros g u Hu; [done|]. cbn [hexNumber]. rewrite string_app_assoc.
  assert (ipFamily (String (hex_digit (g `mod` 16)) u) = Some ":"%char) as Hd.
  { cbn [ipFamily]. destruct (hex_digit_plain g) as (->&->&->). exact Hu. }
  destruct (g <? 16); [exact Hd|by apply IH].
Qed.

(** [parseIPv6] after the leading ellipsis was looked for. *)
Lemma parseIPv6_plain gs : length gs = 8%nat → Forall group_ok gs → parseIPv6 (groupText gs) = Some (groupBytes gs).
Proof.
  intros Hl Hok. assert (gs ≠ []) as Hne by by destruct gs. unfold parseIPv6.
  pose proof (no_percent gs "") as Hp. rewrite string_app_nil in Hp. rewrite Hp.
  destruct (groupText_head gs "" Hne) as (c&u&E&Hc&_). rewrite string_app_nil in E.
  replace (match groupText gs with String ":" (String ":" rest) => (Some 0%nat, rest) | _ => (None, groupText gs) end)
    with (@None nat, groupText gs) by (rewrite E; by repeat case_match). cbn [andb bool_decide decide_rel].
  rewrite bool_decide_eq_false_2 by done. cbn [andb].
  rewrite ipv6_fields_groups by (done || cbn; lia). cbn [app]. rewrite groupBytes_length, Hl. reflexivity.
Qed.

Lemma parseIPv6_ellipsis A B : Forall group_ok A → Forall group_ok B → (length A + length B < 8)%nat →
  parseIPv6 (groupText A +:+ "::" +:+ groupText B) = Some (groupBytes A ++ replicate (16 - 2 * (length A + length B)) 0 ++ groupBytes B).
Proof.
  intros HA HB Hl. unfold parseIPv6. rewrite no_percent.
  change ("::" +:+ groupText B) with (String ":" (String ":" (groupText B))).
  rewrite !containsByte_cons by done. pose proof (no_percent B "") as Hp. rewrite string_app_nil in Hp. rewrite Hp. clear Hp.
  cbn [containsByte IndexByte]. destruct A as [|a A'] eqn:EA.
  - cbn [groupText map Join]. change ("" +:+ ?x) with x. cbv beta iota. rewrite bool_decide_eq_true_2 by done. cbn [andb].
    destruct B as [|b B'] eqn:EB; [reflexivity|]. rewrite <- EB in *. assert (B ≠ []) as Hne by by subst.
    destruct (groupText_head B "" Hne) as (c&u&E&_). rewrite string_app_nil in E.
    rewrite bool_decide_eq_false_2 by (rewrite E; done). rewrite ipv6_fields_groups by (done || cbn in *; lia).
    cbn [app length]. rewrite groupBytes_length. replace (2 * length B <? 16)%nat with true by (symmetry; apply Nat.ltb_lt; cbn in *; lia).
    reflexivity.
  - rewrite <- EA in *. assert (A ≠ []) as Hne by by subst.
    destruct (groupText_head A (String ":" (String ":" (groupText B))) Hne) as (c&u&E&Hc&_).
    match goal with |- context [match ?s with EmptyString => _ | String _ _ => _ end] =>
      replace (match s with String ":" (String ":" rest) => (Some 0%nat, rest) | _ => (None, s) end) with (@None nat, s)
        by (rewrite E; by repeat case_match) end.
    cbv beta iota. rewrite bool_decide_eq_false_2 by done. cbn [andb].
    change (String ":" (String ":" (groupText B))) with ("::" +:+ groupText B).
    rewrite ipv6_fields_ellipsis by (done || cbn in *; lia). cbn [app]. cbn zeta.
    destruct B as [|b B'] eqn:EB.
    + cbn [groupText map Join]. rewrite bool_decide_eq_true_2 by done. rewrite groupBytes_length.
      replace (2 * length A <? 16)%nat with true by (symmetry; apply Nat.ltb_lt; cbn in *; lia).
      rewrite firstn_all2, skipn_all2 by (rewrite groupBytes_length; lia). cbn [groupBytes map concat length]. rewrite !Nat.add_0_r.
      reflexivity.
    + rewrite <- EB in *. assert (B ≠ []) as HneB by by subst.
      destruct (groupText_head B "" HneB) as (c'&u'&E'&_). rewrite string_app_nil in E'.
      rewrite bool_decide_eq_false_2 by (rewrite E'; done).
      rewrite ipv6_fields_groups by (done || rewrite ?groupBytes_length; cbn in *; lia).
      rewrite length_app, !groupBytes_length.
      replace (2 * length A + 2 * length B <? 16)%nat with true by (symmetry; apply Nat.ltb_lt; cbn in *; lia).
      rewrite take_app_length', drop_app_length' by (symmetry; apply groupBytes_length).
      replace (16 - (2 * length A + 2 * length B))%nat with (16 - 2 * (length A + length B))%nat by lia. reflexivity.
Qed.

(** [netip.Addr.String] of an IPv6 address that is not IPv4-mapped is read
    back as the same address. *)
Lemma ParseAddr_print6 ip : length ip = 16%nat → Forall (λ b, 0 ≤ b < 256) ip → take 12 ip ≠ v4InV6Prefix →
  ParseAddr (IPString ip) = Some {| ad_bytes := ip; ad_zone := "" |}.
Proof.
  intros Hl Hb H4. destruct (ipGroups_bytes ip Hb ltac:(by rewrite Hl)) as (Hg&Hok&Hlen). rewrite Hl in Hlen.
  assert (∃ t, IPString ip = t ∧ parseIPv6 t = Some ip ∧ containsByte "%" t = false ∧ ipFamily t = Some ":"%char) as (t&->&Hp&Hc&Hf).
  { unfold IPString. rewrite bool_decide_eq_false_2 by done. set (gs := ipGroups ip) in *. eexists. split; [reflexivity|].
    destruct (longestRun 0 gs (0, 0)%nat) as [s n] eqn:Er. apply longestRun_zeros in Er. rewrite Nat.sub_0_r in Er.
    destruct (n =? 0)%nat eqn:En; fold (groupText gs) (groupText (take s gs)) (groupText (drop (s + n) gs)).
    - split_and!; [rewrite parseIPv6_plain, Hg by (done || lia); done|by rewrite <- (string_app_nil (groupText gs)), no_percent|].
      destruct gs as [|g [|g' gs']]; [done..|]. rewrite groupText_cons by done. apply ipFamily_hex.
    - destruct Er as [Er|(_&Hsn&Hz)]; [by simplify_eq|]. apply Nat.eqb_neq in En.
      assert (gs = take s gs ++ replicate n 0 ++ drop (s + n) gs) as Hgs.
      { rewrite <- Hz, <- drop_drop, take_drop, take_drop. done. }
      split_and!.
      + rewrite parseIPv6_ellipsis; [|by apply Forall_take|by apply Forall_drop|rewrite length_take, length_drop; lia].
        f_equal. transitivity (groupBytes gs); [|exact Hg]. rewrite (f_equal groupBytes Hgs), !groupBytes_app, groupBytes_zeros.
        do 3 f_equal. rewrite length_take, length_drop. lia.
      + rewrite no_percent. change ("::" +:+ ?x) with (String ":" (String ":" x)). rewrite !containsByte_cons by done.
        by rewrite <- (string_app_nil (groupText _)), no_percent.
      + destruct (take s gs) as [|g [|g' gs']]; [done|apply ipFamily_hex|].
        rewrite groupText_cons, string_app_assoc by done. apply ipFamily_hex. }
  unfold ParseAddr. rewrite Hf. assert (Cut "%" t = (t, "", false)) as ->.
  { clear -Hc. induction t as [|c t IH]; [done|]. destruct (Ascii.eqb c "%") eqn:E.
    - unfold containsByte in Hc. cbn [IndexByte] in Hc. by rewrite E in Hc.
    - cbn [Cut]. rewrite E. rewrite containsByte_cons in Hc by done. by rewrite IH. }
  cbn [andb]. by rewrite Hp.
Qed.

Lemma ParseAddr_print4 ip : length ip = 4%nat → Forall (λ b, 0 ≤ b < 256) ip →
  ParseAddr (Join "." (map Itoa ip)) = Some {| ad_bytes := ip; ad_zone := "" |}.
Proof.
  intros Hl Hb. destruct ip as [|a [|b [|c [|d [|]]]]]; try done. rewrite !Forall_cons in Hb.
  destruct Hb as (?&?&?&?&_). unfold ParseAddr. replace (ipFamily _) with (Some "."%char).
  - by rewrite parseIPv4_print.
  - change (Some "."%char = ipFamily (Itoa a +:+ String "." (Join "." (map Itoa [b; c; d])))).
    assert (a ∈ seqZ 0 256) as Hin by (apply elem_of_seqZ; lia). revert Hin. generalize (Join "." (map Itoa [b; c; d])). clear.
    intros t. revert a. apply Forall_forall. vm_compute (seqZ 0 256). repeat (constructor; [reflexivity|]). constructor.
Qed.

(** ** What the parsers return *)
Definition byte_ok (b : Z) : Prop := 0 ≤ b < 256.

Lemma isDigit_value c : isDigit c = true → 0 ≤ Z_of_byte c - 48 < 10.
Proof. unfold isDigit, between. intros [?%Z.leb_le ?%Z.leb_le]%andb_true_iff. lia. Qed.

Lemma ipv4_fields_ok v d p pos acc s l : byte_ok v → Forall byte_ok acc → length acc = pos → (pos ≤ 3)%nat →
  ipv4_fields v d p pos acc s = Some l → length l = 4%nat ∧ Forall byte_ok l.
Proof.
  revert v d p pos acc. induction s as [|c s IH]; intros v d p pos acc Hv Ha Hl Hp; cbn [ipv4_fields].
  - destruct (Nat.ltb_spec pos 3); [done|]. intros [= <-]. rewrite length_app, length_rev. split; [cbn; lia|].
    apply Forall_app_2; [by apply Forall_rev|by constructor].
  - destruct (isDigit c) eqn:Ed.
    + apply isDigit_value in Ed. destruct (_ && _); [done|]. destruct (Z.ltb_spec 255 (v * 10 + (Z_of_byte c - 48))); [done|].
      apply IH; try done. unfold byte_ok in *. lia.
    + destruct (Ascii.eqb c "."); [|done]. destruct (p || _ || _) eqn:E; [done|]. apply orb_false_iff in E as [_ E%Nat.eqb_neq].
      apply IH; [done|by constructor|cbn; lia|lia].
Qed.
Lemma parseIPv4Fields_ok s l : parseIPv4Fields s = Some l → length l = 4%nat ∧ Forall byte_ok l.
Proof. apply ipv4_fields_ok; [done|constructor|done|lia]. Qed.

Lemma digitValue_nonneg c d : digitValue c = Some d → 0 ≤ d.
Proof.
  unfold digitValue, isDigit, between. intros Hd. repeat case_match; simplify_eq;
    match goal with E : _ && _ = true |- _ => apply andb_true_iff in E as [?%Z.leb_le _]; lia end.
Qed.
Lemma ipv6_field_ok off acc s k g t : 0 ≤ acc < 16 ^ Z.of_nat off → (off ≤ 4)%nat →
  ipv6_field off acc s = Some (k, g, t) → 0 ≤ g < 65536.
Proof.
  revert off acc. induction s as [|c s IH]; intros off acc Ha Ho; cbn [ipv6_field].
  - intros; simplify_eq. split; [lia|]. eapply Z.lt_le_trans; [apply Ha|]. change 65536 with (16 ^ 4). apply Z.pow_le_mono_r; lia.
  - assert (0 ≤ acc < 65536) as Hacc.
    { split; [lia|]. eapply Z.lt_le_trans; [apply Ha|]. change 65536 with (16 ^ 4). apply Z.pow_le_mono_r; lia. }
    destruct (digitValue c) as [d|] eqn:Ed; [|by intros; simplify_eq]. apply digitValue_nonneg in Ed.
    destruct (Z.ltb_spec d 16); [|by intros; simplify_eq]. destruct (Nat.ltb_spec 3 off); [done|].
    apply IH; [|lia]. rewrite Nat2Z.inj_succ, Z.pow_succ_r by lia. nia.
Qed.

Lemma ipv6_fields_ok fuel ip ell s ip' ell' t : Forall byte_ok ip → (length ip ≤ 16)%nat → Nat.even (length ip) = true →
  ipv6_fields fuel ip ell s = Some (ip', ell', t) → Forall byte_ok ip' ∧ (length ip' ≤ 16)%nat.
Proof.
  revert ip ell s. induction fuel as [|fuel IH]; intros ip ell s Hb Hl He; cbn [ipv6_fields]; [by intros; simplify_eq|].
  destruct (Nat.leb_spec 16 (length ip)); [by intros; simplify_eq|].
  destruct (ipv6_field 0 0 s) as [[[[|k] g] u]|] eqn:Ef; [done| |done].
  apply ipv6_field_ok in Ef; [|lia|lia].
  assert (Forall byte_ok (ip ++ [g `div` 256; g `mod` 256])) as Hb'.
  { apply Forall_app_2; [done|]. pose proof (Z.mod_pos_bound g 256). pose proof (Z.div_pos g 256).
    assert (g `div` 256 < 256) by (apply Z.div_lt_upper_bound; lia). repeat constructor; unfold byte_ok; lia. }
  assert (length (ip ++ [g `div` 256; g `mod` 256]) = S (S (length ip))) as Hl' by (rewrite length_app; cbn; lia).
  assert (S (length ip) ≠ 16)%nat by (intros E; assert (length ip = 15)%nat as E' by lia; rewrite E' in He; done).
  intros Hr. repeat case_match; try done; simplify_eq;
    try (split; [done|rewrite Hl'; lia]);
    try (eapply IH; [exact Hb'|rewrite Hl'; lia|by rewrite Hl'|exact Hr]).
  match goal with E : parseIPv4Fields _ = Some _, F : _ || _ = false |- _ =>
    apply parseIPv4Fields_ok in E as [E1 E2]; apply orb_false_iff in F as [_ F%Nat.ltb_ge] end.
  rewrite length_app. split; [by apply Forall_app_2|lia].
Qed.

Lemma parseIPv6_ok s ip : parseIPv6 s = Some ip → length ip = 16%nat ∧ Forall byte_ok ip.
Proof.
  unfold parseIPv6. destruct (containsByte "%" s); [done|].
  destruct (match s with String ":" (String ":" rest) => _ | _ => _ end) as [ell s'].
  destruct (_ && _); [intros [= <-]; split; [done|repeat constructor; done]|].
  destruct (ipv6_fields 9 [] ell s') as [[[ip' ell'] [|]]|] eqn:Ef; [|done..].
  apply ipv6_fields_ok in Ef as [Hb Hl]; [|constructor|cbn; lia|done].
  destruct (Nat.ltb_spec (length ip') 16).
  - destruct ell' as [e|]; [|done]. intros [= <-]. rewrite !length_app, length_replicate. split.
    + rewrite <- (take_drop e ip') in Hl at 1. rewrite <- (take_drop e ip') in H at 1. rewrite length_app in *.
      rewrite <- (take_drop e ip') at 2. rewrite length_app. lia.
    + apply Forall_app_2; [by apply Forall_take|]. apply Forall_app_2; [|by apply Forall_drop].
      apply Forall_replicate. done.
  - case_bool_decide; [|done]. intros [= <-]. split; [lia|done].
Qed.

Lemma ParseAddr_ok s a : ParseAddr s = Some a →
  Forall byte_ok (ad_bytes a) ∧ (length (ad_bytes a) = 4%nat ∧ ad_zone a = "" ∨ length (ad_bytes a) = 16%nat).
Proof.
  unfold ParseAddr. destruct (ipFamily s) as [c|] eqn:Ec; [|done].
  assert (∀ r, (let '(host, zone, found) := Cut "%" s in if found && bool_decide (zone = "") then None
    else (λ b, {| ad_bytes := b; ad_zone := zone |}) <$> parseIPv6 host) = r → r = Some a →
    Forall byte_ok (ad_bytes a) ∧ (length (ad_bytes a) = 4%nat ∧ ad_zone a = "" ∨ length (ad_bytes a) = 16%nat)) as H6.
  { intros r <-. destruct (Cut "%" s) as [[host zone] found]. destruct (_ && _); [done|].
    destruct (parseIPv6 host) as [b|] eqn:Eb; [|done]. intros [= <-]. apply parseIPv6_ok in Eb as [??]. cbn. auto. }
  destruct (decide (c = "."%char)) as [->|Hc].
  - destruct (parseIPv4Fields s) as [b|] eqn:Eb; [|done]. intros [= <-]. apply parseIPv4Fields_ok in Eb as [??]. cbn. auto.
  - intros Hr. eapply H6; [reflexivity|]. rewrite <- Hr. destruct c as [[] [] [] [] [] [] [] []]; try done.
Qed.

Lemma Unmap_ok a : Forall byte_ok (ad_bytes a) →
  (length (ad_bytes a) = 4%nat ∧ ad_zone a = "" ∨ length (ad_bytes a) = 16%nat) →
  Forall byte_ok (ad_bytes (Unmap a)) ∧
  (length (ad_bytes (Unmap a)) = 4%nat ∧ ad_zone (Unmap a) = "" ∨
   length (ad_bytes (Unmap a)) = 16%nat ∧ take 12 (ad_bytes (Unmap a)) ≠ v4InV6Prefix ∧ ad_zone (Unmap a) = ad_zone a).
Proof.
  intros Hb Hl. unfold Unmap. destruct (Is4In6 a) eqn:E; unfold Is4In6, Is4 in E.
  - apply andb_true_iff in E as [E1%negb_true_iff%Nat.eqb_neq _]. cbn. split; [by apply Forall_drop|]. left.
    split; [|done]. rewrite length_drop. destruct Hl as [[??]|?]; lia.
  - split; [done|]. destruct Hl as [Hl|Hl]; [by left|]. right. split; [done|]. rewrite Hl in E. cbn in E.
    by apply bool_decide_eq_false in E.
Qed.

(** The text of an unmapped address without a zone denotes that address. *)
Lemma ParseAddr_AddrString s a : ParseAddr s = Some a → ad_zone a = "" →
  ParseAddr (AddrString (Unmap a)) = Some (Unmap a).
Proof.
  intros Hp Hz. destruct (ParseAddr_ok s a Hp) as [Hb Hl]. destruct (Unmap_ok a Hb Hl) as [Hb' Hl'].
  destruct (Unmap a) as [ip zone]; cbn in *. unfold AddrString, Is4In6, Is4; cbn.
  destruct Hl' as [[Hl' ->]|(Hl'&H4&->)]; rewrite Hl'; cbn.
  - by apply ParseAddr_print4.
  - rewrite bool_decide_eq_false_2 by done. rewrite Hz. rewrite decide_True by done. rewrite string_app_nil.
    by apply ParseAddr_print6.
Qed.
