(* ===== verification/GoJson.v ===== *)
(** * JSON string arrays

    [json.Marshal] and [json.Unmarshal] of a [[]string] (encoding/json), with
    UTF-8, the escapes of the encoder and every escape the decoder accepts.
    What the encoder writes decodes to what it was given, for strings that are
    valid UTF-8; other bytes it replaces by U+FFFD, as the library does. *)
From stdpp Require Import base numbers list strings.
From Stdlib Require Import Ascii.
From S2P Require Import Prelude GoStd.
Open Scope Z_scope.

Definition B (s : string) : bytes := bytes_of_string s.
Abbreviation ch n := (byte_of_Z n) (only parsing).
Definition quote : ascii := byte_of_Z 34.
Definition backslash : ascii := byte_of_Z 92.

(** ** unicode/utf8 *)

Definition between (lo hi : Z) (c : ascii) : bool := (lo <=? Z_of_byte c) && (Z_of_byte c <=? hi).
Definition isASCII (c : ascii) : bool := Z_of_byte c <? 128.
Definition isCont (c : ascii) : bool := between 128 191 c.

(** The encodings of one rune of two, three and four bytes. *)
Definition rune2 (a b : ascii) : bool := between 194 223 a && isCont b.
Definition rune3 (a b c : ascii) : bool :=
  let n := Z_of_byte a in
  between 224 239 a && isCont c &&
  (if n =? 224 then between 160 191 b else if n =? 237 then between 128 159 b else isCont b).
Definition rune4 (a b c d : ascii) : bool :=
  let n := Z_of_byte a in
  between 240 244 a && isCont c && isCont d &&
  (if n =? 240 then between 144 191 b else if n =? 244 then between 128 143 b else isCont b).

(** [utf8.ValidString] as a grammar. *)
Inductive valid_utf8 : bytes → Prop :=
| utf8_nil : valid_utf8 []
| utf8_1 a l : isASCII a = true → valid_utf8 l → valid_utf8 (a :: l)
| utf8_2 a b l : rune2 a b = true → valid_utf8 l → valid_utf8 (a :: b :: l)
| utf8_3 a b c l : rune3 a b c = true → valid_utf8 l → valid_utf8 (a :: b :: c :: l)
| utf8_4 a b c d l : rune4 a b c d = true → valid_utf8 l → valid_utf8 (a :: b :: c :: d :: l).
Definition ValidString (s : string) : Prop := valid_utf8 (bytes_of_string s).

Lemma ValidString_ascii s : forallb isASCII (bytes_of_string s) = true → ValidString s.
Proof.
  unfold ValidString. induction (bytes_of_string s) as [|c l IH]; [constructor|]. cbn. rewrite andb_true_iff. intros [? ?]. constructor; auto.
Qed.

(** [utf8.EncodeRune]; a surrogate or too large a rune is U+FFFD. *)
Definition runeError : bytes := [ch 239; ch 191; ch 189].
Definition EncodeRune (r : Z) : bytes :=
  let cont n := byte_of_Z (128 + Z.land (Z.shiftr r n) 63) in
  if r <? 128 then [byte_of_Z r]
  else if r <? 2048 then [byte_of_Z (192 + Z.shiftr r 6); cont 0]
  else if ((55296 <=? r) && (r <=? 57343)) || (1114111 <? r) then runeError
  else if r <? 65536 then [byte_of_Z (224 + Z.shiftr r 12); cont 6; cont 0]
  else [byte_of_Z (240 + Z.shiftr r 18); cont 12; cont 6; cont 0].

(** ** Marshal *)

Definition hexByte (n : Z) : bytes := [hex_digit (Z.shiftr n 4); hex_digit (Z.land n 15)].

(** The bytes one ASCII character is written as; HTML characters are escaped. *)
Definition escapeASCII (c : ascii) : bytes :=
  let n := Z_of_byte c in
  if (n =? 34) || (n =? 92) then [backslash; c]
  else if n =? 8 then B "\b"
  else if n =? 12 then B "\f"
  else if n =? 10 then B "\n"
  else if n =? 13 then B "\r"
  else if n =? 9 then B "\t"
  else if (n <? 32) || (n =? 60) || (n =? 62) || (n =? 38) then B "\u00" ++ hexByte n
  else [c].

Definition lineSeparator (a b c : ascii) : bool :=
  (Z_of_byte a =? 226) && (Z_of_byte b =? 128) && between 168 169 c.

(** An invalid byte is written as an escaped U+FFFD. *)
Definition escapedError : bytes := backslash :: B "ufffd".

Fixpoint jsonEscape (l : bytes) : bytes :=
  match l with
  | [] => []
  | a :: l1 =>
      if isASCII a then escapeASCII a ++ jsonEscape l1
      else
        match l1 with
        | b :: l2 =>
            if rune2 a b then a :: b :: jsonEscape l2
            else
              match l2 with
              | c :: l3 =>
                  if rune3 a b c then
                    (if lineSeparator a b c then B "\u202" ++ [hex_digit (Z.land (Z_of_byte c) 15)] else [a; b; c]) ++ jsonEscape l3
                  else
                    match l3 with
                    | d :: l4 => if rune4 a b c d then a :: b :: c :: d :: jsonEscape l4 else escapedError ++ jsonEscape l1
                    | [] => escapedError ++ jsonEscape l1
                    end
              | [] => escapedError ++ jsonEscape l1
              end
        | [] => escapedError ++ jsonEscape l1
        end
  end.
Definition jsonString (s : string) : bytes := quote :: jsonEscape (bytes_of_string s) ++ [quote].
Fixpoint jsonItems (l : list string) : bytes :=
  match l with
  | [] => []
  | [s] => jsonString s
  | s :: l => jsonString s ++ [ch 44] ++ jsonItems l
  end.
(** [json.Marshal] of a non-nil [[]string] *)
Definition MarshalStrings (l : list string) : string := string_of_bytes (ch 91 :: jsonItems l ++ [ch 93]).

(** ** Unmarshal *)

Definition simpleEscape (c : ascii) : option ascii :=
  let n := Z_of_byte c in
  if (n =? 34) || (n =? 92) || (n =? 47) then Some c
  else if n =? 98 then Some (ch 8)
  else if n =? 102 then Some (ch 12)
  else if n =? 110 then Some (ch 10)
  else if n =? 114 then Some (ch 13)
  else if n =? 116 then Some (ch 9)
  else None.
Definition hex4 (a b c d : ascii) : option Z :=
  match unhex_digit a, unhex_digit b, unhex_digit c, unhex_digit d with
  | Some a, Some b, Some c, Some d => Some (((a * 16 + b) * 16 + c) * 16 + d)
  | _, _, _, _ => None
  end.
Definition isSurrogate (r : Z) : bool := (55296 <=? r) && (r <=? 57343).
(** [utf16.DecodeRune] *)
Definition surrogatePair (r s : Z) : option Z :=
  if ((55296 <=? r) && (r <=? 56319)) && ((56320 <=? s) && (s <=? 57343))
  then Some ((r - 55296) * 1024 + (s - 56320) + 65536) else None.

Abbreviation emit b k := (match k with Some (s, rest) => Some (b ++ s, rest) | None => None end) (only parsing).

(** A string up to its closing quote, and what follows. *)
Fixpoint unquote (l : bytes) : option (bytes * bytes) :=
  match l with
  | [] => None
  | a :: l1 =>
      if Z_of_byte a =? 34 then Some ([], l1)
      else if Z_of_byte a =? 92 then
        match l1 with
        | [] => None
        | e :: l2 =>
            match simpleEscape e with
            | Some c => emit [c] (unquote l2)
            | None =>
                if negb (Z_of_byte e =? 117) then None
                else
                  match l2 with
                  | h1 :: h2 :: h3 :: h4 :: l3 =>
                      match hex4 h1 h2 h3 h4 with
                      | None => None
                      | Some r =>
                          if isSurrogate r then
                            match l3 with
                            | b1 :: b2 :: g1 :: g2 :: g3 :: g4 :: l4 =>
                                if (Z_of_byte b1 =? 92) && (Z_of_byte b2 =? 117) then
                                  match hex4 g1 g2 g3 g4 with
                                  | Some s =>
                                      match surrogatePair r s with
                                      | Some p => emit (EncodeRune p) (unquote l4)
                                      | None => emit runeError (unquote l3)
                                      end
                                  | None => None
                                  end
                                else emit runeError (unquote l3)
                            | _ => emit runeError (unquote l3)
                            end
                          else emit (EncodeRune r) (unquote l3)
                      end
                  | _ => None
                  end
            end
        end
      else if Z_of_byte a <? 32 then None
      else if isASCII a then emit [a] (unquote l1)
      else
        match l1 with
        | b :: l2 =>
            if rune2 a b then emit [a; b] (unquote l2)
            else
              match l2 with
              | c :: l3 =>
                  if rune3 a b c then emit [a; b; c] (unquote l3)
                  else
                    match l3 with
                    | d :: l4 => if rune4 a b c d then emit [a; b; c; d] (unquote l4) else emit runeError (unquote l1)
                    | [] => emit runeError (unquote l1)
                    end
              | [] => emit runeError (unquote l1)
              end
        | [] => emit runeError (unquote l1)
        end
  end.

Definition isJSONSpace (c : ascii) : bool := let n := Z_of_byte c in (n =? 32) || (n =? 9) || (n =? 10) || (n =? 13).
Fixpoint skipSpace (l : bytes) : bytes :=
  match l with c :: l' => if isJSONSpace c then skipSpace l' else l | [] => [] end.

(** One element of an array of strings; a null leaves the zero value. *)
Definition jsonItem (l : bytes) : option (string * bytes) :=
  match l with
  | a :: l1 =>
      if Z_of_byte a =? 34 then match unquote l1 with Some (s, rest) => Some (string_of_bytes s, rest) | None => None end
      else if bool_decide (take 4 l = B "null") then Some ("", drop 4 l)
      else None
  | [] => None
  end.
(** Elements up to the closing bracket. *)
Fixpoint jsonArray (fuel : nat) (l : bytes) : option (list string * bytes) :=
  match fuel with
  | O => None
  | S fuel =>
      match jsonItem (skipSpace l) with
      | None => None
      | Some (s, rest) =>
          match skipSpace rest with
          | a :: rest =>
              if Z_of_byte a =? 93 then Some ([s], rest)
              else if Z_of_byte a =? 44 then
                match jsonArray fuel rest with Some (ss, rest) => Some (s :: ss, rest) | None => None end
              else None
          | [] => None
          end
      end
  end.
(** [json.Unmarshal] into a [[]string]; [None] is an error, null is a nil slice. *)
Definition UnmarshalStrings (raw : string) : option (list string) :=
  let l := skipSpace (bytes_of_string raw) in
  match l with
  | a :: l1 =>
      if Z_of_byte a =? 91 then
        match skipSpace l1 with
        | b :: l2 =>
            let r := if Z_of_byte b =? 93 then Some ([], l2) else jsonArray (length l1) l1 in
            match r with
            | Some (ss, rest) => if decide (skipSpace rest = []) then Some ss else None
            | None => None
            end
        | [] => None
        end
      else if bool_decide (take 4 l = B "null") && bool_decide (skipSpace (drop 4 l) = []) then Some []
      else None
  | [] => None
  end.

(** ** What was marshalled is unmarshalled *)

Lemma between_spec lo hi c : between lo hi c = true ↔ lo <= Z_of_byte c <= hi.
Proof. unfold between. rewrite andb_true_iff, !Z.leb_le. done. Qed.
Lemma Z_of_byte_inj a b : Z_of_byte a = Z_of_byte b → a = b.
Proof. intros E. by rewrite <- (byte_of_Z_of_byte a), E, byte_of_Z_of_byte. Qed.

(** A byte of a longer encoding is neither ASCII nor special. *)
Lemma high_byte a : 128 <= Z_of_byte a →
  isASCII a = false ∧ (Z_of_byte a =? 34) = false ∧ (Z_of_byte a =? 92) = false ∧ (Z_of_byte a <? 32) = false.
Proof. intros H. unfold isASCII. rewrite !Z.ltb_ge, !Z.eqb_neq. lia. Qed.
Lemma rune2_high a b : rune2 a b = true → 128 <= Z_of_byte a.
Proof. unfold rune2. rewrite andb_true_iff, between_spec. lia. Qed.
Lemma rune3_high a b c : rune3 a b c = true → 224 <= Z_of_byte a.
Proof. unfold rune3. rewrite !andb_true_iff, between_spec. lia. Qed.
Lemma rune4_high a b c d : rune4 a b c d = true → 240 <= Z_of_byte a.
Proof. unfold rune4. rewrite !andb_true_iff, between_spec. lia. Qed.
Lemma rune2_not3 a b : 224 <= Z_of_byte a → rune2 a b = false.
Proof. intros H. apply not_true_iff_false. unfold rune2. rewrite andb_true_iff, between_spec. lia. Qed.
Lemma rune3_not4 a b c : 240 <= Z_of_byte a → rune3 a b c = false.
Proof. intros H. apply not_true_iff_false. unfold rune3. rewrite !andb_true_iff, between_spec. lia. Qed.

(** How the encoder writes an ASCII character: as it is, by a short escape, or
    by its code. *)
Definition plainASCII (a : ascii) : bool :=
  let n := Z_of_byte a in isASCII a && negb (n <? 32) && negb (n =? 34) && negb (n =? 92).
Lemma escapeASCII_cases a : isASCII a = true →
  (escapeASCII a = [a] ∧ plainASCII a = true) ∨
  (∃ e, escapeASCII a = [backslash; e] ∧ simpleEscape e = Some a) ∨
  (∃ h l, escapeASCII a = [backslash; ch 117; ch 48; ch 48; h; l] ∧ hex4 (ch 48) (ch 48) h l = Some (Z_of_byte a) ∧
    EncodeRune (Z_of_byte a) = [a]).
Proof.
  (* checked for all bytes at once *)
  set (check := λ a, negb (isASCII a) || match escapeASCII a with
    | [x] => bool_decide (x = a) && plainASCII a
    | [x; e] => bool_decide (x = backslash) && bool_decide (simpleEscape e = Some a)
    | [x; u; z; z'; h; l] => bool_decide ([x; u; z; z'] = [backslash; ch 117; ch 48; ch 48]) &&
        bool_decide (hex4 (ch 48) (ch 48) h l = Some (Z_of_byte a)) && bool_decide (EncodeRune (Z_of_byte a) = [a])
    | _ => false end).
  assert (forallb (λ n, check (ascii_of_nat n)) (seq 0 256) = true) as Hall by (vm_compute; reflexivity).
  intros Ha. assert (check a = true) as Hc.
  { rewrite forallb_forall in Hall. rewrite <- (ascii_nat_embedding a). apply Hall, in_seq. pose proof (nat_ascii_bounded a). lia. }
  unfold check in Hc. rewrite Ha in Hc. cbn [negb orb] in Hc. clear check Hall.
  destruct (escapeASCII a) as [|x [|e [|? [|? [|h [|l [|]]]]]]]; try discriminate Hc.
  - apply andb_true_iff in Hc as [->%bool_decide_eq_true Hp]. by left.
  - apply andb_true_iff in Hc as [->%bool_decide_eq_true He%bool_decide_eq_true]. right. left. eauto.
  - rewrite !andb_true_iff, !bool_decide_eq_true in Hc. destruct Hc as [[[= -> -> -> ->] Hh] Hr]. right. right. eauto.
Qed.
Lemma unquote_plain a tail : plainASCII a = true → unquote (a :: tail) = emit [a] (unquote tail).
Proof.
  unfold plainASCII. rewrite !andb_true_iff, !negb_true_iff. intros [[[H1 H2] H3] H4]. cbn [unquote]. by rewrite H1, H2, H3, H4.
Qed.
Lemma unquote_simple e c tail : simpleEscape e = Some c → unquote (backslash :: e :: tail) = emit [c] (unquote tail).
Proof. intros H. cbn [unquote]. change (Z_of_byte backslash =? 34) with false. change (Z_of_byte backslash =? 92) with true. by rewrite H. Qed.
Lemma unquote_code h1 h2 h3 h4 r tail : hex4 h1 h2 h3 h4 = Some r → isSurrogate r = false →
  unquote (backslash :: ch 117 :: h1 :: h2 :: h3 :: h4 :: tail) = emit (EncodeRune r) (unquote tail).
Proof.
  intros H Hs. cbn [unquote]. change (Z_of_byte backslash =? 34) with false. change (Z_of_byte backslash =? 92) with true.
  change (simpleEscape (ch 117)) with (@None ascii). change (Z_of_byte (ch 117) =? 117) with true. cbn [negb]. by rewrite H, Hs.
Qed.

Lemma unquote_ascii a tail s r : isASCII a = true → unquote tail = Some (s, r) → unquote (escapeASCII a ++ tail) = Some (a :: s, r).
Proof.
  intros Ha Ht. destruct (escapeASCII_cases a Ha) as [[-> Hp]|[(e&->&He)|(h&l&->&Hh&Hr)]]; cbn [app].
  - by rewrite unquote_plain, Ht.
  - by rewrite (unquote_simple _ _ _ He), Ht.
  - rewrite (unquote_code _ _ _ _ _ _ Hh); [by rewrite Ht, Hr|]. unfold isSurrogate. unfold isASCII in Ha.
    apply Z.ltb_lt in Ha. apply andb_false_iff. left. apply Z.leb_gt. lia.
Qed.

Lemma lineSeparator_eq a b c : lineSeparator a b c = true →
  a = ch 226 ∧ b = ch 128 ∧ (c = ch 168 ∨ c = ch 169).
Proof.
  unfold lineSeparator. rewrite !andb_true_iff, !Z.eqb_eq, between_spec. intros [[Ha Hb] Hc].
  split_and!; [by apply Z_of_byte_inj; rewrite Ha|by apply Z_of_byte_inj; rewrite Hb|].
  assert (Z_of_byte c = 168 ∨ Z_of_byte c = 169) as [E|E] by lia; [left|right]; by apply Z_of_byte_inj; rewrite E.
Qed.

Lemma unquote_escape l rest : valid_utf8 l → unquote (jsonEscape l ++ quote :: rest) = Some (l, rest).
Proof.
  induction 1 as [|a l Ha Hl IH|a b l Hr Hl IH|a b c l Hr Hl IH|a b c d l Hr Hl IH].
  - reflexivity.
  - cbn [jsonEscape]. rewrite Ha, <- app_assoc. by apply unquote_ascii.
  - pose proof (high_byte a (rune2_high _ _ Hr)) as (H1&H2&H3&H4).
    cbn [jsonEscape]. rewrite H1, Hr. cbn [app unquote]. by rewrite H2, H3, H4, H1, Hr, IH.
  - pose proof (rune3_high _ _ _ Hr) as Hh. pose proof (high_byte a ltac:(lia)) as (H1&H2&H3&H4).
    pose proof (rune2_not3 a b Hh) as H5. cbn [jsonEscape]. rewrite H1, H5, Hr.
    destruct (lineSeparator a b c) eqn:Es.
    + apply lineSeparator_eq in Es as (->&->&[-> | ->]); rewrite <- app_assoc;
        [change (B "\u202" ++ [hex_digit (Z.land (Z_of_byte (ch 168)) 15)]) with [backslash; ch 117; ch 50; ch 48; ch 50; ch 56]
        |change (B "\u202" ++ [hex_digit (Z.land (Z_of_byte (ch 169)) 15)]) with [backslash; ch 117; ch 50; ch 48; ch 50; ch 57]];
        cbn [app]; (erewrite unquote_code by reflexivity; by rewrite IH).
    + cbn [app unquote]. by rewrite H2, H3, H4, H1, H5, Hr, IH.
  - pose proof (rune4_high _ _ _ _ Hr) as Hh. pose proof (high_byte a ltac:(lia)) as (H1&H2&H3&H4).
    pose proof (rune2_not3 a b ltac:(lia)) as H5. pose proof (rune3_not4 a b c Hh) as H6.
    cbn [jsonEscape]. rewrite H1, H5, H6, Hr. cbn [app unquote]. by rewrite H2, H3, H4, H1, H5, H6, Hr, IH.
Qed.

Lemma jsonItem_string s rest : ValidString s → jsonItem (jsonString s ++ rest) = Some (s, rest).
Proof.
  intros Hs. unfold jsonString. cbn [app jsonItem]. change (Z_of_byte quote =? 34) with true. cbn iota.
  rewrite <- app_assoc. cbn [app]. rewrite (unquote_escape _ _ Hs). by rewrite string_of_bytes_of_string.
Qed.
Lemma skipSpace_string s rest : skipSpace (jsonString s ++ rest) = jsonString s ++ rest.
Proof. reflexivity. Qed.

Lemma jsonArray_items l rest fuel : l ≠ [] → Forall ValidString l → (length l ≤ fuel)%nat →
  jsonArray fuel (jsonItems l ++ ch 93 :: rest) = Some (l, rest).
Proof.
  revert fuel. induction l as [|s l IH]; intros fuel Hne Hv Hf; [done|]. inversion Hv as [|?? Hs Hl]; subst.
  destruct fuel as [|fuel]; [cbn in Hf; lia|]. cbn [jsonArray]. destruct l as [|s' l].
  - cbn [jsonItems]. rewrite skipSpace_string, (jsonItem_string _ _ Hs). reflexivity.
  - change (jsonItems (s :: s' :: l)) with (jsonString s ++ [ch 44] ++ jsonItems (s' :: l)). rewrite <- app_assoc.
    rewrite skipSpace_string, (jsonItem_string _ _ Hs). cbn [app].
    change (skipSpace (ch 44 :: ?x)) with (ch 44 :: x). change (Z_of_byte (ch 44) =? 93) with false.
    change (Z_of_byte (ch 44) =? 44) with true. cbn iota. rewrite IH; [done|done|done|cbn in Hf |- *; lia].
Qed.

Lemma jsonItems_length l : (length l ≤ S (length (jsonItems l)))%nat.
Proof.
  induction l as [|s l IH]; [cbn; lia|]. destruct l as [|s' l]; [cbn; lia|].
  change (jsonItems (s :: s' :: l)) with (jsonString s ++ [ch 44] ++ jsonItems (s' :: l)). rewrite !length_app. cbn [length] in *. lia.
Qed.

(** A list of valid strings survives the trip. *)
Theorem UnmarshalStrings_Marshal l : Forall ValidString l → UnmarshalStrings (MarshalStrings l) = Some l.
Proof.
  intros Hl. unfold UnmarshalStrings, MarshalStrings. rewrite bytes_of_string_of_bytes.
  change (skipSpace (ch 91 :: ?x)) with (ch 91 :: x). cbn iota. change (Z_of_byte (ch 91) =? 91) with true. cbn iota.
  destruct l as [|s l]; [reflexivity|].
  assert (∃ a tl, jsonItems (s :: l) ++ [ch 93] = a :: tl ∧ a = quote) as (a&tl&E&->).
  { destruct l; cbn; eauto. }
  replace (skipSpace (jsonItems (s :: l) ++ [ch 93])) with (quote :: tl) by (rewrite E; reflexivity).
  change (Z_of_byte quote =? 93) with false. cbn iota.
  rewrite jsonArray_items; [done|done|done|]. rewrite length_app. pose proof (jsonItems_length (s :: l)). cbn [length] in *. lia.
Qed.
