(* ===== verification/ConfigTypes.v ===== *)
(** * Configuration of stores, protocols and storage classes

    The data of PillarStore, PillarProtocol and PillarStorageClass that
    resolution reads, with the override documents and the checks the API types
    carry themselves: the kinds of the unions, defaults, the domain of
    maxDataTransferSize and the compatibility of a backend with a protocol
    (src/api/v1alpha1).  Union members are kept as the Go structs have them,
    one optional field each, so that a document that sets several is a value
    too. *)
From stdpp Require Import base numbers list strings gmap.
From S2P Require Import Prelude GoStd.
Open Scope Z_scope.

(** ** Backends *)

Definition BackendIDZFSZvol : string := "zfs-zvol".
Definition BackendIDZFSDataset : string := "zfs-dataset".
Definition BackendIDLVMLV : string := "lvm-lv".
Definition BackendIDDirectory : string := "directory".
Definition ZFSVolumeTypeZvol : string := "zvol".
Definition ZFSVolumeTypeDataset : string := "dataset".
Definition LVMProvisioningModeLinear : string := "linear".
Definition LVMProvisioningModeThin : string := "thin".

Record ZFSBackendConfig := {
  zc_VolumeType : string;
  zc_Pool : string;
  zc_ParentDataset : string;
  zc_Properties : gmap string string;
}.
Record LVMBackendConfig := { lc_VolumeGroup : string; lc_ThinPool : string; lc_ProvisioningMode : string }.
Record DirectoryBackendConfig := { dc_LogicalPool : string; dc_HostRoot : string }.
Record BackendSpec := {
  be_ZFS : option ZFSBackendConfig;
  be_LVM : option LVMBackendConfig;
  be_Directory : option DirectoryBackendConfig;
}.

(** [BackendSpec.Kind] *)
Definition BackendKind (b : BackendSpec) : string :=
  match be_ZFS b, be_LVM b, be_Directory b with
  | Some z, _, _ => if decide (zc_VolumeType z = ZFSVolumeTypeDataset) then BackendIDZFSDataset else BackendIDZFSZvol
  | None, Some _, _ => BackendIDLVMLV
  | None, None, Some _ => BackendIDDirectory
  | None, None, None => ""
  end.
(** [BackendSpec.PoolName] *)
Definition PoolName (b : BackendSpec) : string :=
  match be_ZFS b, be_LVM b, be_Directory b with
  | Some z, _, _ => zc_Pool z
  | None, Some l, _ => lc_VolumeGroup l
  | None, None, Some d => dc_LogicalPool d
  | None, None, None => ""
  end.

(** ** Protocols *)

Definition ProtocolIDNVMeOFTCP : string := "nvmeof-tcp".
Definition ProtocolIDISCSI : string := "iscsi".
Definition ProtocolIDNFS : string := "nfs".

Record NVMeOFTCPConfig := {
  nc_Port : Z;
  nc_ACL : bool;
  nc_MaxQueueSize : option Z;
  nc_InCapsuleDataSize : option Z;
  nc_MaxDataTransferSize : option Z;
  nc_CtrlLossTmo : option Z;
  nc_ReconnectDelay : option Z;
  nc_HdrDigest : bool;
  nc_DataDigest : bool;
}.
Record ISCSIAuth := { au_Method : string; au_SecretRef : option string }.
Record ISCSIConfig := {
  ic_Port : Z;
  ic_ACL : bool;
  ic_LoginTimeout : option Z;
  ic_ReplacementTimeout : option Z;
  ic_NoopOutInterval : option Z;
  ic_NoopOutTimeout : option Z;
  ic_Auth : option ISCSIAuth;
}.
Record NFSConfig := { fc_Version : string; fc_Port : Z; fc_ACL : bool; fc_Squash : string }.
Record ProtocolSpec := {
  ps_NVMeOFTCP : option NVMeOFTCPConfig;
  ps_ISCSI : option ISCSIConfig;
  ps_NFS : option NFSConfig;
}.

Definition ProtocolKind (p : ProtocolSpec) : string :=
  match ps_NVMeOFTCP p, ps_ISCSI p, ps_NFS p with
  | Some _, _, _ => ProtocolIDNVMeOFTCP
  | None, Some _, _ => ProtocolIDISCSI
  | None, None, Some _ => ProtocolIDNFS
  | None, None, None => ""
  end.

Definition ISCSIAuthMethodNone : string := "None".
(** [ISCSIAuth.EffectiveMethod] *)
Definition EffectiveMethod (a : option ISCSIAuth) : string :=
  match a with
  | Some a => if decide (au_Method a = "") then ISCSIAuthMethodNone else au_Method a
  | None => ISCSIAuthMethodNone
  end.

(** ** Override documents *)

Record ZFSBackendOverrides := { zo_Properties : gmap string string }.
Record LVMBackendOverrides := { lo_ProvisioningMode : string }.
Record BackendOverrides := {
  bo_ZFS : option ZFSBackendOverrides;
  bo_LVM : option LVMBackendOverrides;
  bo_Directory : option unit;
}.
Record NVMeOFTCPOverrides := {
  no_MaxQueueSize : option Z;
  no_InCapsuleDataSize : option Z;
  no_MaxDataTransferSize : option Z;
  no_CtrlLossTmo : option Z;
  no_ReconnectDelay : option Z;
}.
Record ISCSIOverrides := {
  io_LoginTimeout : option Z;
  io_ReplacementTimeout : option Z;
  io_NoopOutInterval : option Z;
  io_NoopOutTimeout : option Z;
}.
Record ProtocolOverrides := {
  po_NVMeOFTCP : option NVMeOFTCPOverrides;
  po_ISCSI : option ISCSIOverrides;
  po_NFS : option unit;
}.
Record FilesystemConfig := {
  fs_FSType : string;
  fs_MkfsOptions : option (list string);
  fs_MountOptions : option (list string);
  fs_PeriodicTrim : option bool;
}.
Record StorageClassOverrides := { so_Backend : option BackendOverrides; so_Protocol : option ProtocolOverrides }.

(** ** Objects *)

(** The specs of the three kinds, as far as resolution reads them. *)
Record PillarStore := { st_AgentRef : string; st_Backend : BackendSpec }.
Record PillarStorageClass := {
  sc_CSIDriver : string;
  sc_StoreRef : string;
  sc_ProtocolRef : string;
  sc_Filesystem : option FilesystemConfig;
  sc_Overrides : option StorageClassOverrides;
  sc_LocalAttach : bool;
}.

(** The effective configuration of a volume. *)
Record ResolvedConfig := {
  rv_Backend : BackendSpec;
  rv_Protocol : ProtocolSpec;
  rv_Filesystem : option FilesystemConfig;
  rv_LocalAttach : bool;
}.

#[export] Instance ZFSBackendConfig_eq_dec : EqDecision ZFSBackendConfig.
Proof. solve_decision. Defined.
#[export] Instance LVMBackendConfig_eq_dec : EqDecision LVMBackendConfig.
Proof. solve_decision. Defined.
#[export] Instance DirectoryBackendConfig_eq_dec : EqDecision DirectoryBackendConfig.
Proof. solve_decision. Defined.
#[export] Instance BackendSpec_eq_dec : EqDecision BackendSpec.
Proof. solve_decision. Defined.
#[export] Instance FilesystemConfig_eq_dec : EqDecision FilesystemConfig.
Proof. solve_decision. Defined.

(** ** maxDataTransferSize *)

Definition DefaultMaxDataTransferSize : Z := Z.shiftl 4 20.
Definition MinMaxDataTransferSize : Z := 8192.
Definition MaxMaxDataTransferSize : Z := Z.shiftl 1 30.

Definition IsValidMaxDataTransferSize (v : Z) : bool :=
  if v =? 0 then true
  else (MinMaxDataTransferSize <=? v) && (v <=? MaxMaxDataTransferSize) && (Z.land v (v - 1) =? 0).

Lemma land_pred_odd q n : 0 <= n → Z.odd q = true → 1 < q → Z.land (q * 2 ^ n) (q * 2 ^ n - 1) ≠ 0.
Proof.
  intros Hn Hq Hlt Hz.
  assert (Z.testbit (Z.land (q * 2 ^ n) (q * 2 ^ n - 1)) (Z.log2 q + n) = true) as Hb; [|by rewrite Hz, Z.testbit_0_l in Hb].
  rewrite Z.land_spec. pose proof (Z.log2_spec q ltac:(lia)) as [Hl Hu]. pose proof (Z.log2_nonneg q).
  assert (0 < 2 ^ n) by (apply Z.pow_pos_nonneg; lia).
  rewrite Z.mul_pow2_bits by lia. replace (Z.log2 q + n - n) with (Z.log2 q) by lia. rewrite Z.bit_log2 by lia.
  assert (q ≠ 2 ^ Z.log2 q) as Hne.
  { intros E. destruct (decide (Z.log2 q = 0)) as [E0|E0]; [rewrite E0 in E; lia|].
    assert (Z.odd (2 ^ Z.log2 q) = false); [|congruence].
    replace (Z.log2 q) with (Z.log2 q - 1 + 1) by lia. rewrite Z.pow_add_r by lia. by rewrite Z.odd_mul, andb_false_r. }
  assert (Z.log2 (q * 2 ^ n - 1) = Z.log2 q + n) as <-; [|rewrite Z.bit_log2; [done|nia]].
  rewrite Z.pow_succ_r in Hu by lia.
  apply Z.log2_unique; [lia|]. rewrite Z.pow_succ_r by lia. rewrite Z.pow_add_r by lia. nia.
Qed.

(** The bit trick is the power-of-two test. *)
Lemma power_of_two_land v : 0 < v → Z.land v (v - 1) = 0 ↔ ∃ k, 0 <= k ∧ v = 2 ^ k.
Proof.
  intros Hv. split.
  - intros Hz. assert (∃ q n, 0 <= n ∧ Z.odd q = true ∧ 0 < q ∧ v = q * 2 ^ n) as (q&n&Hn&Hq&Hp&->).
    { clear Hz. revert Hv. induction v as [v IH] using (well_founded_induction (Z.lt_wf 0)). intros Hv.
      destruct (Z.odd v) eqn:Eo; [exists v, 0; rewrite Z.mul_1_r; split_and!; [lia|done|lia|done]|].
      pose proof (Z.div_mod v 2 ltac:(lia)) as E. rewrite Zmod_odd, Eo, Z.add_0_r in E.
      destruct (IH (v / 2)) as (q&n&?&?&?&Eq); [lia|lia|]. exists q, (n + 1). split_and!; [lia|done|lia|].
      rewrite Z.pow_add_r by lia. lia. }
    destruct (decide (q = 1)) as [->|Hq1]; [exists n; split; [done|lia]|]. exfalso. eapply land_pred_odd; [done|done|lia|done].
  - intros (k&Hk&->). replace (2 ^ k - 1) with (Z.ones k) by (rewrite Z.ones_equiv; lia).
    rewrite Z.land_ones by done. by rewrite Z.mod_same by (apply Z.pow_nonzero; lia).
Qed.
Lemma IsValidMaxDataTransferSize_spec v :
  IsValidMaxDataTransferSize v = true ↔ v = 0 ∨ ∃ k, 13 <= k <= 30 ∧ v = 2 ^ k.
Proof.
  unfold IsValidMaxDataTransferSize, MinMaxDataTransferSize, MaxMaxDataTransferSize. change (Z.shiftl 1 30) with (2 ^ 30).
  destruct (Z.eqb_spec v 0) as [->|Hv]; [by split; [left|]|]. rewrite !andb_true_iff, !Z.leb_le, Z.eqb_eq. split.
  - intros [[H1 H2] H3]. right. apply power_of_two_land in H3 as (k&Hk&->); [|lia]. exists k. split; [|done].
    change 8192 with (2 ^ 13) in H1. rewrite <- Z.pow_le_mono_r_iff in H1, H2 by lia. lia.
  - intros [|(k&Hk&->)]; [done|]. change 8192 with (2 ^ 13). split; [split; apply Z.pow_le_mono_r; lia|].
    apply power_of_two_land; [apply Z.pow_pos_nonneg; lia|]. exists k. split; [lia|done].
Qed.

(** ** Compatibility *)

Inductive Category := CategoryUnknown | CategoryBlock | CategoryFilesystem.
#[export] Instance Category_eq_dec : EqDecision Category.
Proof. solve_decision. Defined.

Definition CategoryOf (b : string) : Category :=
  if decide (b = BackendIDZFSZvol ∨ b = BackendIDLVMLV) then CategoryBlock
  else if decide (b = BackendIDZFSDataset ∨ b = BackendIDDirectory) then CategoryFilesystem
  else CategoryUnknown.
Definition ProtocolCategoryOf (p : string) : Category :=
  if decide (p = ProtocolIDNVMeOFTCP ∨ p = ProtocolIDISCSI) then CategoryBlock
  else if decide (p = ProtocolIDNFS) then CategoryFilesystem
  else CategoryUnknown.

(** [Compatible], its verdict. *)
Definition Compatible (spec : BackendSpec) (pspec : ProtocolSpec) : bool :=
  let b := CategoryOf (BackendKind spec) in
  let p := ProtocolCategoryOf (ProtocolKind pspec) in
  negb (bool_decide (b = CategoryUnknown) || bool_decide (p = CategoryUnknown)) && bool_decide (b = p).
