(* ===== verification/ConfigDocs.v ===== *)
(** * Configuration documents

    The schema-checked YAML documents of annotations and class parameters
    (src/internal/configdocs/configdocs.go).  The YAML reader is a parameter
    that yields a value; everything after it is modelled: the union rule, the
    classification of fields into tunable and structural ones, the domain of
    every field, and the decoding into the typed documents. *)
From stdpp Require Import base numbers list strings gmap.
From S2P Require Import Prelude GoStd ConfigTypes.
Open Scope Z_scope.

Definition BackendDocKey : string := "pillar-csi.bhyoo.com/backend".
Definition ProtocolDocKey : string := "pillar-csi.bhyoo.com/protocol".
Definition FilesystemDocKey : string := "pillar-csi.bhyoo.com/filesystem".

(** A decoded YAML value; a mapping has distinct keys.  Numbers with a
    fraction or an exponent are of a type [float] of their own. *)
Inductive yaml (float : Type) :=
| YNull
| YBool (b : bool)
| YInt (z : Z)
| YFloat (f : float)
| YString (s : string)
| YList (l : list (yaml float))
| YMap (m : list (string * yaml float))
| YOther.
Arguments YNull {float}.
Arguments YBool {float}.
Arguments YInt {float}.
Arguments YFloat {float}.
Arguments YString {float}.
Arguments YList {float}.
Arguments YMap {float}.
Arguments YOther {float}.

Inductive fieldKind := fieldTunable | fieldStructural.

Section ConfigDocs.
Context {float : Type} (float_int64 : float → option Z) (UnmarshalYAML : string → GoResult (yaml float)).
Abbreviation value := (yaml float).
Abbreviation object := (list (string * value)).

Fixpoint assoc {A} (k : string) (m : list (string * A)) : option A :=
  match m with
  | [] => None
  | (k', v) :: m => if decide (k = k') then Some v else assoc k m
  end.
Definition without_key {A} (k : string) (m : list (string * A)) : list (string * A) := base.filter (λ kv, kv.1 ≠ k) m.

(** ** Value validators *)

Definition plain (ok : bool) (what : string) : GoResult unit := if ok then Ok tt else Err (EPlain what).

Definition nonEmptyString (v : value) : GoResult unit :=
  match v with
  | YString s => plain (negb (bool_decide (s = ""))) "must not be empty"
  | _ => Err (EPlain "expected a string")
  end.
Definition stringValue (v : value) : GoResult unit :=
  match v with YString _ => Ok tt | _ => Err (EPlain "expected a string") end.
Definition enumValue (allowed : list string) (v : value) : GoResult unit :=
  match v with
  | YString s => plain (containsb allowed s) "unsupported value"
  | _ => Err (EPlain "expected a string")
  end.
Definition boolValue (v : value) : GoResult unit :=
  match v with YBool _ => Ok tt | _ => Err (EPlain "expected a boolean") end.
Definition int64Value (v : value) : option Z :=
  match v with
  | YInt z => Some z
  | YFloat f => float_int64 f
  | _ => None
  end.
Definition intRange (minimum maximum : Z) (v : value) : GoResult unit :=
  match int64Value v with
  | Some n => plain (negb ((n <? minimum) || (maximum <? n))) "out of range"
  | None => Err (EPlain "expected an integer")
  end.
Definition maxDataTransferSize (v : value) : GoResult unit :=
  match int64Value v with
  | Some n => plain (IsValidMaxDataTransferSize n) "must be 0 (no limit) or a power of two"
  | None => Err (EPlain "expected an integer")
  end.
Definition is_string (v : value) : bool := match v with YString _ => true | _ => false end.
Definition stringMap (v : value) : GoResult unit :=
  match v with
  | YMap m => plain (forallb (λ kv, is_string kv.2) m) "expected a string value"
  | _ => Err (EPlain "expected a mapping of string values")
  end.
Definition mappingValue (v : value) : GoResult unit :=
  match v with YMap _ => Ok tt | _ => Err (EPlain "expected a mapping") end.
Definition stringList (v : value) : GoResult unit :=
  match v with
  | YList l => plain (forallb is_string l) "expected a string"
  | _ => Err (EPlain "expected a list of strings")
  end.

(** ** Field schema *)

Record fieldSpec := { fd_kind : fieldKind; fd_validate : value → GoResult unit; fd_required : bool }.
Definition tunable (v : value → GoResult unit) : fieldSpec := {| fd_kind := fieldTunable; fd_validate := v; fd_required := false |}.
Definition structural (v : value → GoResult unit) : fieldSpec := {| fd_kind := fieldStructural; fd_validate := v; fd_required := false |}.
Definition required (v : value → GoResult unit) : fieldSpec := {| fd_kind := fieldStructural; fd_validate := v; fd_required := true |}.
Abbreviation schema := (list (string * fieldSpec)).

Definition MaxInt32 : Z := 2 ^ 31 - 1.

Definition backendMembers : list (string * schema) := [
  ("zfs", [
    ("volumeType", structural (enumValue ["zvol"; "dataset"]));
    ("pool", required nonEmptyString);
    ("parentDataset", structural stringValue);
    ("properties", tunable stringMap)]);
  ("lvm", [
    ("volumeGroup", required nonEmptyString);
    ("thinPool", structural stringValue);
    ("provisioningMode", tunable (enumValue ["linear"; "thin"]))]);
  ("directory", [
    ("logicalPool", required nonEmptyString);
    ("hostRoot", required nonEmptyString)])].

Definition protocolMembers : list (string * schema) := [
  ("nvmeofTcp", [
    ("port", structural (intRange 1 65535));
    ("acl", structural boolValue);
    ("maxQueueSize", tunable (intRange 16 1024));
    ("inCapsuleDataSize", tunable (intRange 1024 MaxInt32));
    ("maxDataTransferSize", tunable maxDataTransferSize);
    ("ctrlLossTmo", tunable (intRange 0 MaxInt32));
    ("reconnectDelay", tunable (intRange 0 MaxInt32));
    ("hdrDigest", structural boolValue);
    ("dataDigest", structural boolValue)]);
  ("nfs", [
    ("version", structural (enumValue ["4.2"]));
    ("port", structural (intRange 2049 2049));
    ("acl", structural boolValue);
    ("squash", structural (enumValue ["root"; "none"; "all"]))]);
  ("iscsi", [
    ("port", structural (intRange 1 65535));
    ("acl", structural boolValue);
    ("loginTimeout", tunable (intRange 1 MaxInt32));
    ("replacementTimeout", tunable (intRange 0 MaxInt32));
    ("noopOutInterval", tunable (intRange 0 MaxInt32));
    ("noopOutTimeout", tunable (intRange 0 MaxInt32));
    ("auth", structural mappingValue)])].

Definition filesystemFields : schema := [
  ("fsType", tunable (enumValue ["ext4"; "xfs"; "nfs"]));
  ("mkfsOptions", tunable stringList);
  ("mountOptions", tunable stringList);
  ("periodicTrim", tunable boolValue)].

(** ** Union decoding *)

(** An absent document is [None]. *)
Definition decodeObject (raw : string) : GoResult (option object) :=
  if decide (TrimSpace raw = "") then Ok None
  else
    v ← UnmarshalYAML raw;
    match v with
    | YNull => Ok None
    | YMap obj => Ok (Some obj)
    | _ => Err (EPlain "expected a YAML mapping")
    end.

Definition sortedKeys {A} (m : list (string * A)) : list string := Sort (map fst m).

(** The loop of [checkFields]; a null is deleted. *)
Fixpoint checkKeys (fields : schema) (overridesOnly : bool) (keys : list string) (obj : object) : GoResult object :=
  match keys with
  | [] => Ok obj
  | key :: keys =>
      match assoc key fields with
      | None => Err (EPlain "unknown field")
      | Some spec =>
          if overridesOnly && match fd_kind spec with fieldStructural => true | fieldTunable => false end then
            Err (EPlain "structural and cannot be set per volume")
          else
            match assoc key obj with
            | None | Some YNull => checkKeys fields overridesOnly keys (without_key key obj)
            | Some v => _ ← fd_validate spec v; checkKeys fields overridesOnly keys obj
            end
      end
  end.
Definition checkFields (fields : schema) (obj : object) (overridesOnly : bool) : GoResult object :=
  checkKeys fields overridesOnly (sortedKeys obj) obj.

Definition missing (fields : schema) (body : object) : bool :=
  existsb (λ '(name, spec), fd_required spec && match assoc name body with None => true | Some _ => false end) fields.

Definition decodeUnion (raw : string) (members : list (string * schema)) (overridesOnly : bool) :
    GoResult (option (string * object)) :=
  doc ← decodeObject raw;
  match doc with
  | None => Ok None
  | Some obj =>
      if negb (forallb (λ name, match assoc name members with Some _ => true | None => false end) (map fst obj)) then
        Err (EPlain "unknown field")
      else
        match obj with
        | [(member, v)] =>
            match assoc member members with
            | None => Err (EPlain "unknown field")
            | Some fields =>
                match v with
                | YMap body =>
                    body ← checkFields fields body overridesOnly;
                    if negb overridesOnly && missing fields body then Err (EPlain "required") else Ok (Some (member, body))
                | _ => Err (EPlain "must be a mapping of its fields")
                end
            end
        | _ => Err (EPlain "exactly one must be set")
        end
  end.

(** ** Decoding into the typed documents *)

(** [unmarshalMember] re-encodes the checked body and decodes it into a
    struct by its json tags: each field is read from its key, an absent one
    keeps its zero value. *)
Definition typeError {A} : GoResult A := Err (EPlain "cannot unmarshal").
Definition getString (k : string) (body : object) : GoResult string :=
  match assoc k body with None | Some YNull => Ok "" | Some (YString s) => Ok s | _ => typeError end.
Definition getInt32 (k : string) (body : object) : GoResult (option Z) :=
  match assoc k body with
  | None | Some YNull => Ok None
  | Some v =>
      match int64Value v with
      | Some z => if (- 2 ^ 31 <=? z) && (z <? 2 ^ 31) then Ok (Some z) else typeError
      | None => typeError
      end
  end.
Definition getBool (k : string) (body : object) : GoResult (option bool) :=
  match assoc k body with None | Some YNull => Ok None | Some (YBool b) => Ok (Some b) | _ => typeError end.
Fixpoint strings_of (l : list value) : GoResult (list string) :=
  match l with
  | [] => Ok []
  | YString s :: l => rest ← strings_of l; Ok (s :: rest)
  | _ => typeError
  end.
Definition getStrings (k : string) (body : object) : GoResult (option (list string)) :=
  match assoc k body with
  | None | Some YNull => Ok None
  | Some (YList l) => l ← strings_of l; Ok (Some l)
  | _ => typeError
  end.
Fixpoint string_map_of (m : object) : GoResult (gmap string string) :=
  match m with
  | [] => Ok ∅
  | (k, YString s) :: m => rest ← string_map_of m; Ok (<[k := s]> rest)
  | _ => typeError
  end.
Definition getStringMap (k : string) (body : object) : GoResult (gmap string string) :=
  match assoc k body with None | Some YNull => Ok ∅ | Some (YMap m) => string_map_of m | _ => typeError end.

Definition DecodeBackendOverride (raw : string) : GoResult (option BackendOverrides) :=
  doc ← decodeUnion raw backendMembers true;
  match doc with
  | None => Ok None
  | Some (member, body) =>
      if decide (member = "zfs") then
        p ← getStringMap "properties" body;
        Ok (Some {| bo_ZFS := Some {| zo_Properties := p |}; bo_LVM := None; bo_Directory := None |})
      else if decide (member = "lvm") then
        m ← getString "provisioningMode" body;
        Ok (Some {| bo_ZFS := None; bo_LVM := Some {| lo_ProvisioningMode := m |}; bo_Directory := None |})
      else Ok (Some {| bo_ZFS := None; bo_LVM := None; bo_Directory := Some tt |})
  end.

Definition DecodeProtocolOverride (raw : string) : GoResult (option ProtocolOverrides) :=
  doc ← decodeUnion raw protocolMembers true;
  match doc with
  | None => Ok None
  | Some (member, body) =>
      if decide (member = "nvmeofTcp") then
        q ← getInt32 "maxQueueSize" body;
        c ← getInt32 "inCapsuleDataSize" body;
        m ← getInt32 "maxDataTransferSize" body;
        l ← getInt32 "ctrlLossTmo" body;
        r ← getInt32 "reconnectDelay" body;
        Ok (Some {| po_NVMeOFTCP := Some {| no_MaxQueueSize := q; no_InCapsuleDataSize := c; no_MaxDataTransferSize := m;
                                            no_CtrlLossTmo := l; no_ReconnectDelay := r |};
                    po_ISCSI := None; po_NFS := None |})
      else if decide (member = "iscsi") then
        l ← getInt32 "loginTimeout" body;
        r ← getInt32 "replacementTimeout" body;
        i ← getInt32 "noopOutInterval" body;
        t ← getInt32 "noopOutTimeout" body;
        Ok (Some {| po_NVMeOFTCP := None;
                    po_ISCSI := Some {| io_LoginTimeout := l; io_ReplacementTimeout := r; io_NoopOutInterval := i; io_NoopOutTimeout := t |};
                    po_NFS := None |})
      else Ok (Some {| po_NVMeOFTCP := None; po_ISCSI := None; po_NFS := Some tt |})
  end.

Definition DecodeFilesystemDoc (raw : string) : GoResult (option FilesystemConfig) :=
  doc ← decodeObject raw;
  match doc with
  | None => Ok None
  | Some fields =>
      body ← checkFields filesystemFields fields false;
      t ← getString "fsType" body;
      k ← getStrings "mkfsOptions" body;
      m ← getStrings "mountOptions" body;
      p ← getBool "periodicTrim" body;
      Ok (Some {| fs_FSType := t; fs_MkfsOptions := k; fs_MountOptions := m; fs_PeriodicTrim := p |})
  end.

Definition DecodeBackendSpec (raw : string) : GoResult (option BackendSpec) :=
  doc ← decodeUnion raw backendMembers false;
  match doc with
  | None => Ok None
  | Some (member, body) =>
      if decide (member = "zfs") then
        t ← getString "volumeType" body;
        pool ← getString "pool" body;
        parent ← getString "parentDataset" body;
        p ← getStringMap "properties" body;
        Ok (Some {| be_ZFS := Some {| zc_VolumeType := if decide (t = "") then ZFSVolumeTypeZvol else t; zc_Pool := pool;
                                      zc_ParentDataset := parent; zc_Properties := p |};
                    be_LVM := None; be_Directory := None |})
      else if decide (member = "lvm") then
        g ← getString "volumeGroup" body;
        thin ← getString "thinPool" body;
        m ← getString "provisioningMode" body;
        Ok (Some {| be_ZFS := None;
                    be_LVM := Some {| lc_VolumeGroup := g; lc_ThinPool := thin;
                                      lc_ProvisioningMode := if decide (m = "") then LVMProvisioningModeLinear else m |};
                    be_Directory := None |})
      else
        pool ← getString "logicalPool" body;
        root ← getString "hostRoot" body;
        Ok (Some {| be_ZFS := None; be_LVM := None; be_Directory := Some {| dc_LogicalPool := pool; dc_HostRoot := root |} |})
  end.

(** ** What a decoded document satisfies *)

Implicit Types (fields : schema) (obj body : object).

Lemma assoc_without {A} k k' (m : list (string * A)) v : assoc k (without_key k' m) = Some v → k ≠ k' ∧ assoc k m = Some v.
Proof.
  unfold without_key. induction m as [|[i x] m IH]; [done|]. rewrite filter_cons. cbn. case_decide as Hi; cbn.
  - case_decide as Hk; [intros [= ->]; subst; done|]. by intros [? ?]%IH.
  - intros [Hne Hv]%IH. split; [done|]. rewrite decide_False; [done|congruence].
Qed.
Lemma assoc_key {A} k (m : list (string * A)) v : assoc k m = Some v → k ∈ map fst m.
Proof.
  induction m as [|[i x] m IH]; [done|]. cbn. case_decide as Hk; [subst; left|]. intros H. right. auto.
Qed.
Lemma elem_of_sortedKeys {A} k (m : list (string * A)) v : assoc k m = Some v → k ∈ sortedKeys m.
Proof. intros H%assoc_key. unfold sortedKeys. by rewrite Sort_perm. Qed.

(** Every field of a checked body is known, within its domain, and tunable
    where only overrides are allowed. *)
Definition checked fields (overridesOnly : bool) body : Prop :=
  ∀ k v, assoc k body = Some v → ∃ spec, assoc k fields = Some spec ∧ (overridesOnly = true → fd_kind spec = fieldTunable) ∧
    fd_validate spec v = Ok tt ∧ v ≠ YNull.

Lemma checkKeys_ok fields oo keys obj body : checkKeys fields oo keys obj = Ok body →
  ∀ k v, assoc k body = Some v → assoc k obj = Some v ∧
    (k ∈ keys → ∃ spec, assoc k fields = Some spec ∧ (oo = true → fd_kind spec = fieldTunable) ∧ fd_validate spec v = Ok tt ∧ v ≠ YNull).
Proof.
  revert obj. induction keys as [|key keys IH]; intros obj; cbn [checkKeys].
  { intros [= <-] k v Hv. split; [done|]. by intros ?%elem_of_nil. }
  destruct (assoc key fields) as [spec|] eqn:Es; [|done].
  destruct (oo && _) eqn:Eo; [done|].
  assert (oo = true → fd_kind spec = fieldTunable) as Hoo by (intros ->; cbn in Eo; by destruct (fd_kind spec)).
  assert (checkKeys fields oo keys (without_key key obj) = Ok body →
    ∀ k v, assoc k body = Some v → assoc k obj = Some v ∧ (k ∈ key :: keys → ∃ spec, assoc k fields = Some spec ∧
      (oo = true → fd_kind spec = fieldTunable) ∧ fd_validate spec v = Ok tt ∧ v ≠ YNull)) as Hdel.
  { intros H k v Hv. destruct (IH _ H k v Hv) as [[Hne Hk]%assoc_without Hs]. split; [done|].
    intros [->|Hin]%elem_of_cons; [done|auto]. }
  destruct (assoc key obj) as [v|] eqn:Ev; [|exact Hdel].
  assert (∀ v', v = v' → v' ≠ YNull → (_ ← fd_validate spec v'; checkKeys fields oo keys obj) = Ok body →
    ∀ k u, assoc k body = Some u → assoc k obj = Some u ∧ (k ∈ key :: keys → ∃ spec, assoc k fields = Some spec ∧
      (oo = true → fd_kind spec = fieldTunable) ∧ fd_validate spec u = Ok tt ∧ u ≠ YNull)) as Hval.
  { intros v' <- Hn ([]&Hval&H)%result_bind_Ok k u Hu. destruct (IH _ H k u Hu) as [Hk Hs]. split; [done|].
    intros [->|Hin]%elem_of_cons; [|auto]. exists spec. rewrite Ev in Hk. injection Hk as <-. done. }
  destruct v; [exact Hdel|by apply Hval..].
Qed.
Lemma checkFields_ok fields obj oo body : checkFields fields obj oo = Ok body → checked fields oo body.
Proof.
  intros H k v Hv. destruct (checkKeys_ok _ _ _ _ _ H k v Hv) as [Hk Hs]. apply Hs. by eapply elem_of_sortedKeys.
Qed.

Lemma decodeUnion_ok raw members oo member body : decodeUnion raw members oo = Ok (Some (member, body)) →
  ∃ fields, assoc member members = Some fields ∧ checked fields oo body.
Proof.
  unfold decodeUnion. intros ([obj|]&_&H)%result_bind_Ok; [|done]. destruct (negb _); [done|].
  destruct obj as [|[m v] [|]]; [done| |done]. destruct (assoc m members) as [fields|] eqn:Em; [|done].
  destruct v; try done. apply result_bind_Ok in H as (b&Hb&H). destruct (_ && _); [done|]. injection H as <- <-.
  exists fields. split; [done|]. by eapply checkFields_ok.
Qed.

(** A value that is set lies between its bounds. *)
Definition within (minimum maximum : Z) (o : option Z) : Prop := ∀ z, o = Some z → minimum <= z <= maximum.

Lemma getInt32_some k body z : getInt32 k body = Ok (Some z) → ∃ v, assoc k body = Some v ∧ int64Value v = Some z.
Proof.
  unfold getInt32. destruct (assoc k body) as [[]|]; try done; destruct (int64Value _) as [n|] eqn:E; try done;
    destruct (_ && _); try done; intros [= ->]; eauto.
Qed.
Lemma getInt32_within fields oo k body a b o : checked fields oo body → assoc k fields = Some (tunable (intRange a b)) →
  getInt32 k body = Ok o → within a b o.
Proof.
  intros Hc Hf Hg z ->. apply getInt32_some in Hg as (v&Hv&Hz). destruct (Hc k v Hv) as (spec&Hs&_&Hok&_).
  rewrite Hf in Hs. injection Hs as <-. cbn in Hok. unfold intRange, plain in Hok. rewrite Hz in Hok.
  destruct ((z <? a) || (b <? z)) eqn:E; [done|]. apply orb_false_iff in E as [?%Z.ltb_ge ?%Z.ltb_ge]. lia.
Qed.
Lemma getInt32_transfer fields oo k body o : checked fields oo body → assoc k fields = Some (tunable maxDataTransferSize) →
  getInt32 k body = Ok o → ∀ z, o = Some z → IsValidMaxDataTransferSize z = true.
Proof.
  intros Hc Hf Hg z ->. apply getInt32_some in Hg as (v&Hv&Hz). destruct (Hc k v Hv) as (spec&Hs&_&Hok&_).
  rewrite Hf in Hs. injection Hs as <-. cbn in Hok. unfold maxDataTransferSize, plain in Hok. rewrite Hz in Hok.
  by destruct (IsValidMaxDataTransferSize z).
Qed.
Lemma getString_enum fields oo k body allowed s : checked fields oo body → assoc k fields = Some (tunable (enumValue allowed)) →
  getString k body = Ok s → s = "" ∨ s ∈ allowed.
Proof.
  intros Hc Hf. unfold getString. destruct (assoc k body) as [v|] eqn:Ev; [|intros [= <-]; by left].
  destruct (Hc k v Ev) as (spec&Hs&_&Hok&_). rewrite Hf in Hs. injection Hs as <-. cbn in Hok.
  destruct v; try done. intros [= <-]. unfold enumValue, plain in Hok. destruct (containsb allowed s0) eqn:E; [|done].
  right. by apply containsb_true.
Qed.
End ConfigDocs.

(** The domains of the tunables a volume may override. *)
Record nvme_tunables (q c m l r : option Z) : Prop := {
  nt_queue : within 16 1024 q;
  nt_capsule : within 1024 MaxInt32 c;
  nt_transfer z : m = Some z → IsValidMaxDataTransferSize z = true;
  nt_loss : within 0 MaxInt32 l;
  nt_delay : within 0 MaxInt32 r;
}.
Record iscsi_tunables (l r i t : option Z) : Prop := {
  it_login : within 1 MaxInt32 l;
  it_replacement : within 0 MaxInt32 r;
  it_interval : within 0 MaxInt32 i;
  it_timeout : within 0 MaxInt32 t;
}.
Definition override_ok (o : ProtocolOverrides) : Prop :=
  (∀ n, po_NVMeOFTCP o = Some n → nvme_tunables (no_MaxQueueSize n) (no_InCapsuleDataSize n) (no_MaxDataTransferSize n) (no_CtrlLossTmo n) (no_ReconnectDelay n)) ∧
  (∀ i, po_ISCSI o = Some i → iscsi_tunables (io_LoginTimeout i) (io_ReplacementTimeout i) (io_NoopOutInterval i) (io_NoopOutTimeout i)).

(** Every value a protocol override carries is in its domain. *)
Lemma DecodeProtocolOverride_ok {float} f (parse : string → GoResult (yaml float)) raw o :
  DecodeProtocolOverride f parse raw = Ok (Some o) → override_ok o.
Proof.
  unfold DecodeProtocolOverride. intros ([[member body]|]&Hd&H)%result_bind_Ok; [|done].
  apply decodeUnion_ok in Hd as (fields&Hf&Hc). case_decide as Hm; [|case_decide as Hm2].
  - subst. injection Hf as <-. repeat (apply result_bind_Ok in H as (?&?&H)). injection H as <-. split; [|done].
    intros n [= <-]. split; cbn; try (eapply getInt32_within; [exact Hc| |eassumption]; reflexivity).
    eapply getInt32_transfer; [exact Hc| |eassumption]; reflexivity.
  - subst. injection Hf as <-. repeat (apply result_bind_Ok in H as (?&?&H)). injection H as <-. split; [done|].
    intros n [= <-]. split; cbn; (eapply getInt32_within; [exact Hc| |eassumption]; reflexivity).
  - injection H as <-. done.
Qed.

(** A backend override sets one member, and a provisioning mode that exists. *)
Lemma DecodeBackendOverride_ok {float} (parse : string → GoResult (yaml float)) raw o :
  DecodeBackendOverride parse raw = Ok (Some o) →
  (∀ l, bo_LVM o = Some l → lo_ProvisioningMode l ∈ [""; LVMProvisioningModeLinear; LVMProvisioningModeThin]).
Proof.
  unfold DecodeBackendOverride. intros ([[member body]|]&Hd&H)%result_bind_Ok; [|done].
  apply decodeUnion_ok in Hd as (fields&Hf&Hc). case_decide as Hm; [|case_decide as Hm2].
  - apply result_bind_Ok in H as (p&_&[= <-]). done.
  - subst. injection Hf as <-. apply result_bind_Ok in H as (m&Hg&[= <-]). intros l [= <-]. cbn.
    destruct (getString_enum _ _ "provisioningMode" _ ["linear"; "thin"] _ Hc eq_refl Hg) as [->|Hin]; set_solver.
  - injection H as <-. done.
Qed.
Lemma DecodeFilesystemDoc_ok {float} (parse : string → GoResult (yaml float)) raw d :
  DecodeFilesystemDoc parse raw = Ok (Some d) → fs_FSType d ∈ [""; "ext4"; "xfs"; "nfs"].
Proof.
  unfold DecodeFilesystemDoc. intros ([fields|]&_&H)%result_bind_Ok; [|done].
  apply result_bind_Ok in H as (body&Hc%checkFields_ok&H). apply result_bind_Ok in H as (t&Ht&H).
  repeat (apply result_bind_Ok in H as (?&?&H)). injection H as <-. cbn.
  destruct (getString_enum _ _ "fsType" _ ["ext4"; "xfs"; "nfs"] _ Hc eq_refl Ht) as [->|Hin]; set_solver.
Qed.
