(* ===== verification/FsParams.v ===== *)
(** * Filesystem settings from controller to node

    The mkfs option allowlist (src/internal/csi/mkfs_options.go) and the way
    the resolved filesystem settings travel in the VolumeContext from
    CreateVolume to NodeStageVolume (fs_params.go).  The allowlist is checked
    against getopt, by which mkfs reads its arguments; the VolumeContext
    against what it was written from. *)
From stdpp Require Import base numbers list strings gmap.
From Stdlib Require Import Ascii.
From S2P Require Import Prelude GoStd GoJson ConfigTypes.
Open Scope Z_scope.

Definition defaultFsType : string := "ext4".
Definition xfsFsType : string := "xfs".
Definition ProtocolNFS : string := "nfs".
Definition paramFSType : string := "pillar-csi.bhyoo.com/fs-type".
Definition paramMkfsOptions : string := "pillar-csi.bhyoo.com/mkfs-options".
Definition paramMountOptions : string := "pillar-csi.bhyoo.com/mount-options".
Definition paramPeriodicTrim : string := "pillar-csi.bhyoo.com/periodic-trim".

(** ** The allowlist *)

Record mkfsFlag := {
  mf_takesValue : bool;
  mf_subopts : option (list string);
  mf_deniedValues : list string;
}.
Definition switch : mkfsFlag := {| mf_takesValue := false; mf_subopts := None; mf_deniedValues := [] |}.
Definition valued : mkfsFlag := {| mf_takesValue := true; mf_subopts := None; mf_deniedValues := [] |}.
Definition subopts (l : list string) : mkfsFlag := {| mf_takesValue := true; mf_subopts := Some l; mf_deniedValues := [] |}.
Definition denying (l : list string) : mkfsFlag := {| mf_takesValue := true; mf_subopts := None; mf_deniedValues := l |}.

Definition ext4Flags : list (string * mkfsFlag) := [
  ("-b", valued); ("-C", valued); ("-D", switch); ("-e", valued);
  ("-E", subopts ["assume_storage_prezeroed"; "discard"; "encoding"; "encoding_flags"; "lazy_itable_init"; "lazy_journal_init";
                  "no_copy_xattrs"; "nodiscard"; "num_backup_sb"; "orphan_file_size"; "packed_meta_blocks"; "quotatype";
                  "resize"; "root_owner"; "stride"; "stripe_width"; "stripe-width"; "test_fs"]);
  ("-F", switch); ("-g", valued); ("-G", valued); ("-i", valued); ("-I", valued); ("-j", switch);
  ("-J", subopts ["fast_commit_size"; "location"; "size"]);
  ("-L", valued); ("-m", valued); ("-M", valued); ("-N", valued); ("-o", valued);
  ("-O", denying ["journal_dev"; "^journal_dev"]);
  ("-q", switch); ("-r", valued); ("-T", valued); ("-U", valued); ("-v", switch)].
Definition xfsFlags : list (string * mkfsFlag) := [
  ("-b", subopts ["size"]);
  ("-d", subopts ["agcount"; "agsize"; "concurrency"; "cowextsize"; "daxinherit"; "extszinherit"; "noalign"; "size"; "su";
                  "sunit"; "sw"; "swidth"]);
  ("-f", switch);
  ("-i", subopts ["align"; "attr"; "exchange"; "maxpct"; "nrext64"; "projid32bit"; "size"; "sparse"]);
  ("-K", switch);
  ("-l", subopts ["agnum"; "internal"; "lazy-count"; "size"; "su"; "sunit"; "version"]);
  ("-L", valued);
  ("-m", subopts ["autofsck"; "bigtime"; "crc"; "finobt"; "inobtcount"; "metadir"; "reflink"; "rmapbt"; "uuid"]);
  ("-n", subopts ["ftype"; "parent"; "size"; "version"]);
  ("-q", switch);
  ("-s", subopts ["size"])].
Definition mkfsFlags (fsType : string) : option (list (string * mkfsFlag)) :=
  if decide (fsType = defaultFsType) then Some ext4Flags
  else if decide (fsType = xfsFsType) then Some xfsFlags
  else None.

Fixpoint flagSpec (name : string) (flags : list (string * mkfsFlag)) : option mkfsFlag :=
  match flags with
  | [] => None
  | (n, spec) :: flags => if decide (name = n) then Some spec else flagSpec name flags
  end.

(** ** Validation *)

Definition containsNUL (s : string) : bool := existsb (λ c, Z_of_byte c =? 0) (bytes_of_string s).

(** One comma-separated token of a value. *)
Definition validateToken (spec : mkfsFlag) (token : string) : bool :=
  negb (containsb (mf_deniedValues spec) token) &&
  match mf_subopts spec with
  | None => true
  | Some l => containsb l (fst (fst (Cut "=" token)))
  end.
Definition validateMkfsValue (spec : mkfsFlag) (value : string) : GoResult unit :=
  if bool_decide (TrimSpace value = "") || containsNUL value then Err (EPlain "empty or invalid value")
  else if forallb (validateToken spec) (Split "," value) then Ok tt
  else Err (EPlain "mkfs option is not allowed").

(** [opt[:2]] and [opt[2:]] of an option that is a single-letter flag. *)
Definition splitFlag (opt : string) : option (string * string) :=
  match opt with
  | String a (String b rest) =>
      if negb (Ascii.eqb a "-") || Ascii.eqb b "-" then None else Some (String a (String b ""), rest)
  | _ => None
  end.

Fixpoint validateOptions (flags : list (string * mkfsFlag)) (opts : list string) : GoResult unit :=
  match opts with
  | [] => Ok tt
  | opt :: opts =>
      match splitFlag opt with
      | None => Err (EPlain "not a single-letter flag")
      | Some (name, value) =>
          match flagSpec name flags with
          | None => Err (EPlain "mkfs option is not allowed")
          | Some spec =>
              if negb (mf_takesValue spec) then
                if decide (value = "") then validateOptions flags opts else Err (EPlain "takes no value")
              else if decide (value = "") then
                match opts with
                | [] => Err (EPlain "missing its value")
                | value :: opts => _ ← validateMkfsValue spec value; validateOptions flags opts
                end
              else _ ← validateMkfsValue spec value; validateOptions flags opts
          end
      end
  end.
Definition validateMkfsOptions (fsType : string) (opts : list string) : GoResult unit :=
  match mkfsFlags fsType with
  | Some flags => validateOptions flags opts
  | None => match opts with [] => Ok tt | _ => Err (EPlain "mkfs options are not supported") end
  end.

Definition decodeMkfsOptions (raw : string) : GoResult (list string) :=
  if decide (raw = "") then Ok []
  else match UnmarshalStrings raw with Some opts => Ok opts | None => Err (EPlain "decode as a JSON string array") end.
Definition parseMkfsOptions (fsType raw : string) : GoResult (list string) :=
  opts ← decodeMkfsOptions raw;
  _ ← validateMkfsOptions fsType opts;
  Ok opts.

(** ** The VolumeContext *)

Abbreviation volume_context := (gmap string string).

Record MountVolume := { mv_FsType : string; mv_MountFlags : list string }.
(** [csi.VolumeCapability]: mount, or block when there is none. *)
Record VolumeCapability := { vc_Mount : option MountVolume }.
Definition capFsType (c : VolumeCapability) : string := match vc_Mount c with Some m => mv_FsType m | None => "" end.
Definition capMountFlags (c : VolumeCapability) : list string := match vc_Mount c with Some m => mv_MountFlags m | None => [] end.

Definition derefList (p : option (list string)) : list string := default [] p.
Definition mustJSON (v : list string) : string := MarshalStrings v.
Definition FormatBool (b : bool) : string := if b then "true" else "false".
Definition getKey (m : volume_context) (k : string) : string := default "" (m !! k).

Fixpoint validateFilesystemConfig (fs : FilesystemConfig) (pvcFS : option FilesystemConfig) (caps : list VolumeCapability) : GoResult unit :=
  match caps with
  | [] => Ok tt
  | c :: caps =>
      match vc_Mount c with
      | Some _ =>
          _ ← (if decide (fs_FSType fs = ProtocolNFS) then Ok tt
               else validateMkfsOptions (fs_FSType fs) (derefList (fs_MkfsOptions fs)));
          validateFilesystemConfig fs pvcFS caps
      | None =>
          match pvcFS with
          | Some _ => Err (EPlain "cannot apply to a raw block volume")
          | None => validateFilesystemConfig fs pvcFS caps
          end
      end
  end.

Definition filesystemVolumeContext (fs : option FilesystemConfig) (volCtx : volume_context) : volume_context :=
  match fs with
  | None => volCtx
  | Some fs =>
      let volCtx := <[paramFSType := fs_FSType fs]> volCtx in
      let volCtx := match derefList (fs_MkfsOptions fs) with [] => volCtx | opts => <[paramMkfsOptions := mustJSON opts]> volCtx end in
      let volCtx := match fs_MountOptions fs with Some l => <[paramMountOptions := mustJSON l]> volCtx | None => volCtx end in
      match fs_PeriodicTrim fs with Some b => <[paramPeriodicTrim := FormatBool b]> volCtx | None => volCtx end
  end.

Record stagedFilesystem := {
  sg_fsType : string;
  sg_mkfsOptions : list string;
  sg_mountFlags : list string;
  sg_PeriodicTrim : option bool;
}.

Definition parsePeriodicTrim (volCtx : volume_context) : GoResult (option bool) :=
  match volCtx !! paramPeriodicTrim with
  | None => Ok None
  | Some raw =>
      if decide (raw = "true") then Ok (Some true)
      else if decide (raw = "false") then Ok (Some false)
      else Err (EPlain "unsupported periodic-trim")
  end.
Definition resolveMountFlags (volCtx : volume_context) (volCap : VolumeCapability) : GoResult (list string) :=
  match volCtx !! paramMountOptions with
  | None => Ok (capMountFlags volCap)
  | Some raw => match UnmarshalStrings raw with Some l => Ok l | None => Err (EPlain "decode as a JSON string array") end
  end.
Definition stagedMountReadOnly (volCtx : volume_context) (volCap : VolumeCapability) : GoResult bool :=
  flags ← resolveMountFlags volCtx volCap;
  Ok (containsb flags "ro").
Definition formatFsType (override : string) (volCap : VolumeCapability) : string :=
  if decide (override = "") then
    if decide (capFsType volCap = "") then defaultFsType else capFsType volCap
  else override.
Definition stageFilesystem (volCtx : volume_context) (volCap : VolumeCapability) : GoResult stagedFilesystem :=
  let override := getKey volCtx paramFSType in
  if negb (bool_decide (override = "")) && negb (bool_decide (override = defaultFsType)) && negb (bool_decide (override = xfsFsType)) then
    Err (EPlain "volume_context fs-type is unsupported")
  else
    let fsType := formatFsType override volCap in
    mkfsOptions ← parseMkfsOptions fsType (getKey volCtx paramMkfsOptions);
    mountFlags ← resolveMountFlags volCtx volCap;
    periodicTrim ← parsePeriodicTrim volCtx;
    Ok {| sg_fsType := fsType; sg_mkfsOptions := mkfsOptions; sg_mountFlags := mountFlags; sg_PeriodicTrim := periodicTrim |}.

(** ** What mkfs makes of accepted options *)

(** getopt: a program's option letters, each with or without a value
    ([None]: not an option of the program). *)
Section Getopt.
Context (arity : ascii → option bool).

(** One argument after its dash: the options it holds, and the last of them
    if it takes its value from the next argument. *)
Inductive clustered := ClusterDone (l : list (ascii * option string)) | ClusterPending (l : list (ascii * option string)) (c : ascii) | ClusterBad.
Fixpoint cluster (s : string) : clustered :=
  match s with
  | EmptyString => ClusterDone []
  | String c rest =>
      match arity c with
      | None => ClusterBad
      | Some true => match rest with EmptyString => ClusterPending [] c | _ => ClusterDone [(c, Some rest)] end
      | Some false =>
          match cluster rest with
          | ClusterDone l => ClusterDone ((c, None) :: l)
          | ClusterPending l d => ClusterPending ((c, None) :: l) d
          | ClusterBad => ClusterBad
          end
      end
  end.
(** The options and the operands of an argument list. *)
Fixpoint getopt (argv : list string) : option (list (ascii * option string) * list string) :=
  match argv with
  | [] => Some ([], [])
  | arg :: argv =>
      match arg with
      | String "-" (String b s) =>
          if decide (arg = "--") then Some ([], argv)
          else
            match cluster (String b s) with
            | ClusterDone l => match getopt argv with Some (ps, ops) => Some (l ++ ps, ops) | None => None end
            | ClusterPending l c =>
                match argv with
                | [] => None
                | v :: argv => match getopt argv with Some (ps, ops) => Some (l ++ (c, Some v) :: ps, ops) | None => None end
                end
            | ClusterBad => None
            end
      | _ => match getopt argv with Some (ps, ops) => Some (ps, arg :: ops) | None => None end
      end
  end.
End Getopt.

Definition flagName (c : ascii) : string := String "-" (String c "").
(** The program takes the listed flags as the list says. *)
Definition agrees (flags : list (string * mkfsFlag)) (arity : ascii → option bool) : Prop :=
  ∀ c spec, flagSpec (flagName c) flags = Some spec → arity c = Some (mf_takesValue spec).

(** An option as accepted: a listed flag with a value its tokens allow. *)
Definition accepted (flags : list (string * mkfsFlag)) (p : ascii * option string) : Prop :=
  ∃ spec, flagSpec (flagName p.1) flags = Some spec ∧
    match p.2 with
    | None => mf_takesValue spec = false
    | Some v => mf_takesValue spec = true ∧ forallb (validateToken spec) (Split "," v) = true
    end.

Lemma splitFlag_some opt name value : splitFlag opt = Some (name, value) →
  ∃ c, c ≠ "-"%char ∧ name = flagName c ∧ opt = String "-" (String c value).
Proof.
  destruct opt as [|a [|b rest]]; [done..|]. cbn. destruct (Ascii.eqb_spec a "-") as [->|]; [cbn|done].
  destruct (Ascii.eqb_spec b "-") as [->|Hb]; [done|]. intros [= <- <-]. by exists b.
Qed.
Lemma validateMkfsValue_ok spec v : validateMkfsValue spec v = Ok tt → v ≠ "" ∧ forallb (validateToken spec) (Split "," v) = true.
Proof.
  unfold validateMkfsValue. destruct (bool_decide (TrimSpace v = "")) eqn:Et; [done|]. destruct (containsNUL v); [done|].
  cbn [orb]. destruct (forallb _ _); [|done]. intros _. split; [|done]. intros ->. by apply bool_decide_eq_false in Et.
Qed.

Lemma validateOptions_getopt flags arity opts : agrees flags arity → validateOptions flags opts = Ok tt →
  ∃ pairs, getopt arity opts = Some (pairs, []) ∧ Forall (accepted flags) pairs.
Proof.
  intros Hag. remember (length opts) as n eqn:En. revert opts En.
  induction n as [n IH] using lt_wf_ind. intros opts En Hv. destruct opts as [|opt opts]; [by exists []|].
  cbn [validateOptions] in Hv. destruct (splitFlag opt) as [[name value]|] eqn:Es; [|done].
  apply splitFlag_some in Es as (c&Hc&->&->). destruct (flagSpec (flagName c) flags) as [spec|] eqn:Ef; [|done].
  pose proof (Hag c spec Ef) as Har. cbn [getopt].
  rewrite decide_False by (intros [= -> _]; done). cbn [cluster]. rewrite Har.
  destruct (mf_takesValue spec) eqn:Et; cbn [negb] in Hv.
  - destruct value as [|x value].
    + destruct opts as [|v opts]; [done|]. apply result_bind_Ok in Hv as ([]&Hval&Hrest).
      destruct (IH (length opts)) with opts as (ps&->&Hps); [cbn in En; lia|done|done|].
      exists ((c, Some v) :: ps). split; [done|]. constructor; [|done]. exists spec. cbn. apply validateMkfsValue_ok in Hval. tauto.
    + apply result_bind_Ok in Hv as ([]&Hval&Hrest).
      destruct (IH (length opts)) with opts as (ps&->&Hps); [cbn in En; lia|done|done|].
      exists ((c, Some (String x value)) :: ps). split; [done|]. constructor; [|done]. exists spec. cbn.
      apply validateMkfsValue_ok in Hval. tauto.
  - case_decide; [subst value|done].
    destruct (IH (length opts)) with opts as (ps&->&Hps); [cbn in En; lia|done|done|].
    exists ((c, None) :: ps). split; [done|]. constructor; [|done]. by exists spec.
Qed.

(** The options the allowlist exists to keep out: other files and devices,
    and what leaves no filesystem of the expected kind on the volume. *)
Definition keysOf (v : option string) : list string := map (λ t, fst (fst (Cut "=" t))) (Split "," (default "" v)).
Definition hazardous (fsType : string) (c : ascii) (v : option string) : bool :=
  if decide (fsType = defaultFsType) then
    containsb ["d"; "l"; "z"; "n"; "S"; "t"; "V"] (String c "") ||
    (Ascii.eqb c "J" && containsb (keysOf v) "device") || (Ascii.eqb c "E" && containsb (keysOf v) "offset") ||
    (Ascii.eqb c "O" && containsb (Split "," (default "" v)) "journal_dev")
  else
    containsb ["c"; "p"; "r"; "N"; "V"] (String c "") ||
    (Ascii.eqb c "l" && containsb (keysOf v) "logdev") ||
    (Ascii.eqb c "d" && (containsb (keysOf v) "name" || containsb (keysOf v) "file")).

Lemma flagSpec_In name flags spec : flagSpec name flags = Some spec → (name, spec) ∈ flags.
Proof. induction flags as [|[n s] flags IH]; [done|]. cbn. case_decide; [intros [= ->]; subst; left|right; auto]. Qed.

(** A token key that is no listed suboption does not occur. *)
Lemma key_excluded l v k : forallb (validateToken (subopts l)) (Split "," v) = true → k ∉ l → containsb (keysOf (Some v)) k = false.
Proof.
  intros Hf Hk. apply containsb_false. unfold keysOf. cbn [default]. rewrite list_elem_of_fmap. intros (t&->&Ht).
  rewrite forallb_forall in Hf. apply list_elem_of_In, Hf in Ht. unfold validateToken in Ht. cbn in Ht. by apply containsb_true in Ht.
Qed.
Lemma token_excluded l v t : forallb (validateToken (denying l)) (Split "," v) = true → t ∈ l → containsb (Split "," v) t = false.
Proof.
  intros Hf Hk. apply containsb_false. intros Ht. rewrite forallb_forall in Hf. apply list_elem_of_In, Hf in Ht.
  unfold validateToken in Ht. cbn in Ht. rewrite andb_true_r, negb_true_iff in Ht. by apply containsb_false in Ht.
Qed.

Lemma accepted_not_hazardous fsType flags p : mkfsFlags fsType = Some flags → accepted flags p → hazardous fsType p.1 p.2 = false.
Proof.
  destruct p as [c v]. cbn. intros Hf (spec&Hs&Hv). cbn in Hv. apply flagSpec_In in Hs. unfold mkfsFlags in Hf.
  destruct (decide (fsType = defaultFsType)) as [->|Hne]; [|destruct (decide (fsType = xfsFsType)) as [->|]; [|done]];
    injection Hf as <-; cbn in Hs;
    repeat (apply elem_of_cons in Hs as [[= -> ->]|Hs];
      [destruct v as [v|]; [destruct Hv as [Hv1 Hv]; try discriminate Hv1|try discriminate Hv]; clear -Hv;
       unfold hazardous; cbn -[keysOf Split containsb];
       rewrite ?(key_excluded _ _ _ Hv), ?(token_excluded _ _ _ Hv) by (cbn; set_solver); reflexivity|]);
    by apply elem_of_nil in Hs.
Qed.

(** C19: Options the controller or the node accepts reach mkfs as options alone:
    read by getopt they leave no operand, and none of them makes mkfs open
    another file or device or leave no filesystem behind. *)
Theorem mkfs_options_confined fsType flags opts arity : mkfsFlags fsType = Some flags → agrees flags arity →
  validateMkfsOptions fsType opts = Ok tt →
  ∃ pairs, getopt arity opts = Some (pairs, []) ∧ Forall (λ p, accepted flags p ∧ hazardous fsType p.1 p.2 = false) pairs.
Proof.
  intros Hf Hag Hv. unfold validateMkfsOptions in Hv. rewrite Hf in Hv.
  destruct (validateOptions_getopt _ _ _ Hag Hv) as (ps&Hg&Hps). exists ps. split; [done|].
  eapply Forall_impl; [exact Hps|]. intros p Hp. split; [done|]. by eapply accepted_not_hazardous.
Qed.

(** The letters mkfs.xfs takes, among them those the allowlist leaves out. *)
Definition xfs_getopt (c : ascii) : option bool :=
  if containsb ["b"; "c"; "d"; "i"; "l"; "L"; "m"; "n"; "p"; "r"; "s"] (String c "") then Some true
  else if containsb ["f"; "K"; "N"; "q"; "V"] (String c "") then Some false
  else None.
Lemma xfs_getopt_agrees : agrees xfsFlags xfs_getopt.
Proof.
  intros c spec Hs%flagSpec_In. unfold xfsFlags in Hs.
  repeat (apply elem_of_cons in Hs as [[= -> ->]|Hs]; [reflexivity|]). by apply elem_of_nil in Hs.
Qed.
Definition demo_mkfs : list string := ["-f"; "-Ldata"; "-m"; "crc=1,reflink=1"; "-d"; "su=64k,sw=4"].
Lemma mkfs_options_confined_witness : ∃ pairs, getopt xfs_getopt demo_mkfs = Some (pairs, []) ∧
  Forall (λ p, accepted xfsFlags p ∧ hazardous xfsFsType p.1 p.2 = false) pairs.
Proof. apply (mkfs_options_confined xfsFsType xfsFlags demo_mkfs xfs_getopt); [reflexivity|exact xfs_getopt_agrees|vm_compute; reflexivity]. Defined.

(** ** From CreateVolume to NodeStageVolume *)

Lemma lookup_filesystemVolumeContext fs ctx k :
  filesystemVolumeContext (Some fs) ctx !! k =
    if decide (k = paramFSType) then Some (fs_FSType fs)
    else if decide (k = paramMkfsOptions) then match derefList (fs_MkfsOptions fs) with [] => ctx !! k | l => Some (mustJSON l) end
    else if decide (k = paramMountOptions) then match fs_MountOptions fs with Some l => Some (mustJSON l) | None => ctx !! k end
    else if decide (k = paramPeriodicTrim) then match fs_PeriodicTrim fs with Some b => Some (FormatBool b) | None => ctx !! k end
    else ctx !! k.
Proof.
  unfold filesystemVolumeContext.
  destruct (derefList (fs_MkfsOptions fs)), (fs_MountOptions fs), (fs_PeriodicTrim fs);
    repeat case_decide; subst; rewrite ?lookup_insert; repeat case_decide; first [congruence|done].
Qed.

(** C40: What the node stages is what the controller resolved. *)
Theorem stage_filesystem_roundtrip fs ctx volCap :
  fs_FSType fs = defaultFsType ∨ fs_FSType fs = xfsFsType →
  validateMkfsOptions (fs_FSType fs) (derefList (fs_MkfsOptions fs)) = Ok tt →
  Forall ValidString (derefList (fs_MkfsOptions fs)) → Forall ValidString (derefList (fs_MountOptions fs)) →
  ctx !! paramMkfsOptions = None → ctx !! paramMountOptions = None → ctx !! paramPeriodicTrim = None →
  stageFilesystem (filesystemVolumeContext (Some fs) ctx) volCap = Ok {|
    sg_fsType := fs_FSType fs;
    sg_mkfsOptions := derefList (fs_MkfsOptions fs);
    sg_mountFlags := match fs_MountOptions fs with Some l => l | None => capMountFlags volCap end;
    sg_PeriodicTrim := fs_PeriodicTrim fs |}.
Proof.
  intros Ht Hv Hk Hm C1 C2 C3. unfold stageFilesystem, getKey, resolveMountFlags, parsePeriodicTrim.
  rewrite !lookup_filesystemVolumeContext, C1, C2, C3.
  repeat first [rewrite decide_True by done|rewrite (decide_False (P := paramMkfsOptions = _)) by done
               |rewrite (decide_False (P := paramMountOptions = _)) by done|rewrite (decide_False (P := paramPeriodicTrim = _)) by done].
  change (default "" (Some (fs_FSType fs))) with (fs_FSType fs). assert (formatFsType (fs_FSType fs) volCap = fs_FSType fs) as ->.
  { unfold formatFsType. rewrite decide_False; [done|]. destruct Ht as [-> | ->]; done. }
  replace (negb (bool_decide (fs_FSType fs = "")) && negb (bool_decide (fs_FSType fs = defaultFsType)) &&
           negb (bool_decide (fs_FSType fs = xfsFsType))) with false by (destruct Ht as [-> | ->]; done).
  assert (parseMkfsOptions (fs_FSType fs) (default "" match derefList (fs_MkfsOptions fs) with [] => None | l => Some (mustJSON l) end) =
    Ok (derefList (fs_MkfsOptions fs))) as ->.
  { unfold parseMkfsOptions, decodeMkfsOptions. destruct (derefList (fs_MkfsOptions fs)) as [|x l] eqn:El.
    { rewrite decide_True by done. cbn [mbind result_bind]. by rewrite Hv. }
    change (default "" (Some (mustJSON (x :: l)))) with (mustJSON (x :: l)).
    rewrite decide_False by done. unfold mustJSON. rewrite UnmarshalStrings_Marshal by done. cbn. by rewrite Hv. }
  cbn [mbind result_bind]. destruct (fs_MountOptions fs) as [l|]; [cbn in Hm; unfold mustJSON; rewrite UnmarshalStrings_Marshal by done|];
    destruct (fs_PeriodicTrim fs) as [[]|]; done.
Qed.

Definition demo_fs : FilesystemConfig := {|
  fs_FSType := "xfs"; fs_MkfsOptions := Some demo_mkfs; fs_MountOptions := Some ["noatime"; "logbufs=8"]; fs_PeriodicTrim := Some false |}.
Definition demo_cap : VolumeCapability := {| vc_Mount := Some {| mv_FsType := "ext4"; mv_MountFlags := ["discard"] |} |}.
Lemma stage_filesystem_roundtrip_witness : stageFilesystem (filesystemVolumeContext (Some demo_fs) ∅) demo_cap = Ok {|
  sg_fsType := "xfs"; sg_mkfsOptions := demo_mkfs; sg_mountFlags := ["noatime"; "logbufs=8"]; sg_PeriodicTrim := Some false |}.
Proof.
  apply (stage_filesystem_roundtrip demo_fs ∅ demo_cap); [by right|vm_compute; reflexivity| | |reflexivity..];
    repeat (constructor; [apply ValidString_ascii; reflexivity|]); constructor.
Defined.
