(* ===== verification/StateMachine.v ===== *)
(** * The CSI volume lifecycle state machine (internal/csi/statemachine.go)

    [VolumeState], [VolumeOperation] and [legalTransitions] are the file's
    constants and its transition table; [Transition], [ForceState],
    [GetState] and [AllStates] are the methods of [VolumeStateMachine], whose
    [states] map is the [gmap] [sm_states].  Every method runs under the
    machine's mutex, so a sequence of calls is a sequence of steps. *)
From stdpp Require Import base list strings gmap.
From S2P Require Import Prelude.

Inductive VolumeState :=
| StateNonExistent
| StateCreated
| StateControllerPublished
| StateNodeStaged
| StateNodePublished
| StateNodeStagePartial
| StateCreatePartial.

Inductive VolumeOperation :=
| OpCreateVolume
| OpDeleteVolume
| OpControllerPublish
| OpControllerUnpublish
| OpNodeStage
| OpNodeUnstage
| OpNodePublish
| OpNodeUnpublish
| OpNodeStageConnected
| OpCreateVolumeBackend.

#[export] Instance VolumeState_eq_dec : EqDecision VolumeState.
Proof. solve_decision. Defined.
#[export] Instance VolumeOperation_eq_dec : EqDecision VolumeOperation.
Proof. solve_decision. Defined.

(** [VolumeState.String] *)
Definition VolumeState_String (s : VolumeState) : string :=
  match s with
  | StateNonExistent => "NonExistent"
  | StateCreated => "Created"
  | StateControllerPublished => "ControllerPublished"
  | StateNodeStaged => "NodeStaged"
  | StateNodePublished => "NodePublished"
  | StateNodeStagePartial => "NodeStagePartial"
  | StateCreatePartial => "CreatePartial"
  end.

Record transitionResult := TransitionResult { tr_to : VolumeState; tr_isNoop : bool }.

Definition legalTransitions : list ((VolumeState * VolumeOperation) * transitionResult) :=
  [ ((StateNonExistent, OpCreateVolume), TransitionResult StateCreated false);
    ((StateCreated, OpCreateVolume), TransitionResult StateCreated true);
    ((StateNonExistent, OpCreateVolumeBackend), TransitionResult StateCreatePartial false);
    ((StateCreatePartial, OpCreateVolumeBackend), TransitionResult StateCreatePartial true);
    ((StateCreatePartial, OpCreateVolume), TransitionResult StateCreated false);
    ((StateCreatePartial, OpDeleteVolume), TransitionResult StateNonExistent false);
    ((StateCreated, OpDeleteVolume), TransitionResult StateNonExistent false);
    ((StateNonExistent, OpDeleteVolume), TransitionResult StateNonExistent true);
    ((StateCreated, OpControllerPublish), TransitionResult StateControllerPublished false);
    ((StateControllerPublished, OpControllerPublish), TransitionResult StateControllerPublished true);
    ((StateControllerPublished, OpControllerUnpublish), TransitionResult StateCreated false);
    ((StateCreated, OpControllerUnpublish), TransitionResult StateCreated true);
    ((StateControllerPublished, OpNodeStage), TransitionResult StateNodeStaged false);
    ((StateNodeStaged, OpNodeStage), TransitionResult StateNodeStaged true);
    ((StateControllerPublished, OpNodeStageConnected), TransitionResult StateNodeStagePartial false);
    ((StateNodeStagePartial, OpNodeStage), TransitionResult StateNodeStaged false);
    ((StateNodeStagePartial, OpNodeUnstage), TransitionResult StateControllerPublished false);
    ((StateNodeStaged, OpNodeUnstage), TransitionResult StateControllerPublished false);
    ((StateControllerPublished, OpNodeUnstage), TransitionResult StateControllerPublished true);
    ((StateNodeStaged, OpNodePublish), TransitionResult StateNodePublished false);
    ((StateNodePublished, OpNodePublish), TransitionResult StateNodePublished true);
    ((StateNodePublished, OpNodeUnpublish), TransitionResult StateNodeStaged false);
    ((StateNodeStaged, OpNodeUnpublish), TransitionResult StateNodeStaged true) ].

Record VolumeStateMachine := { sm_states : gmap string VolumeState }.

Definition NewVolumeStateMachine : VolumeStateMachine := {| sm_states := ∅ |}.

Definition lockedGetState (m : VolumeStateMachine) (volumeID : string) : VolumeState :=
  match sm_states m !! volumeID with
  | Some s => s
  | None => StateNonExistent
  end.

Definition GetState : VolumeStateMachine → string → VolumeState := lockedGetState.

Definition lockedSetState (m : VolumeStateMachine) (volumeID : string) (s : VolumeState)
  : VolumeStateMachine :=
  if decide (s = StateNonExistent)
  then {| sm_states := delete volumeID (sm_states m) |}
  else {| sm_states := <[volumeID := s]> (sm_states m) |}.

(** [Transition] returns [isNoop]; its error is always FailedPrecondition. *)
Definition Transition (volumeID : string) (op : VolumeOperation)
  : M VolumeStateMachine go_error bool := λ m,
  let current := lockedGetState m volumeID in
  match assoc (current, op) legalTransitions with
  | None => (Err (EStatus FailedPrecondition "operation is not valid in state"), m)
  | Some res =>
      (Ok (tr_isNoop res),
       if tr_isNoop res then m else lockedSetState m volumeID (tr_to res))
  end.

Definition ForceState (volumeID : string) (s : VolumeState) (m : VolumeStateMachine)
  : VolumeStateMachine := lockedSetState m volumeID s.

Definition AllStates (m : VolumeStateMachine) : gmap string VolumeState := sm_states m.

(** ** Single steps *)

(** One [Transition] seen on the state of its own volume. *)
Definition step_state (s : VolumeState) (op : VolumeOperation) : option VolumeState :=
  tr_to <$> assoc (s, op) legalTransitions.

Lemma get_set_eq m v s : GetState (lockedSetState m v s) v = s.
Proof.
  unfold GetState, lockedGetState, lockedSetState.
  case_decide; subst; cbn; by rewrite ?lookup_delete_eq, ?lookup_insert_eq.
Qed.

Lemma get_set_ne m v v' s : v ≠ v' → GetState (lockedSetState m v s) v' = GetState m v'.
Proof.
  intros. unfold GetState, lockedGetState, lockedSetState.
  case_decide; cbn; by rewrite ?lookup_delete_ne, ?lookup_insert_ne.
Qed.

(** A no-op entry of the table keeps the state, and only those entries do. *)
Lemma table_noop s op r :
  assoc (s, op) legalTransitions = Some r → tr_isNoop r = true ↔ tr_to r = s.
Proof. destruct s, op; vm_compute; intros; simplify_eq; naive_solver. Qed.

Lemma Transition_step v op m r m' :
  Transition v op m = (r, m') →
  GetState m' v = match step_state (GetState m v) op with
                  | Some s => s | None => GetState m v end ∧
  (∀ v', v ≠ v' → GetState m' v' = GetState m v').
Proof.
  unfold Transition, step_state. fold (GetState m v).
  destruct (assoc _ _) as [res|] eqn:E; intros; simplify_eq; cbn; [|done].
  pose proof (table_noop _ _ _ E) as Hn. destruct (tr_isNoop res).
  - split; [|done]. symmetry. by apply Hn.
  - split; [apply get_set_eq|]. intros. by apply get_set_ne.
Qed.

(** ** Histories

    [reaches h m]: the calls in [h] (newest first) succeeded, in that order
    and interleaved with any number of rejected ones, on a new machine that
    is now [m]. *)
Inductive reaches : list (string * VolumeOperation) → VolumeStateMachine → Prop :=
| reaches_new : reaches [] NewVolumeStateMachine
| reaches_ok h m v op noop m' :
    reaches h m → Transition v op m = (Ok noop, m') → reaches ((v, op) :: h) m'
| reaches_rejected h m v op e m' :
    reaches h m → Transition v op m = (Err e, m') → reaches h m'.

(** The operations applied to [v], newest first. *)
Definition ops_of (v : string) (h : list (string * VolumeOperation)) : list VolumeOperation :=
  (filter (λ p, p.1 = v) h).*2.

(** [o] was applied and [u] has not been applied since. *)
Definition since (o u : VolumeOperation) (l : list VolumeOperation) : Prop :=
  ∃ a b, l = a ++ o :: b ∧ u ∉ a.

Definition published_since l :=
  since OpControllerPublish OpControllerUnpublish l ∧ since OpControllerPublish OpDeleteVolume l.

(** What the history of a volume must contain for the volume to be in a state. *)
Definition history_of (s : VolumeState) (l : list VolumeOperation) : Prop :=
  match s with
  | StateNonExistent | StateCreated | StateCreatePartial => True
  | StateControllerPublished | StateNodeStagePartial => published_since l
  | StateNodeStaged => published_since l ∧ since OpNodeStage OpNodeUnstage l
  | StateNodePublished =>
      published_since l ∧ since OpNodeStage OpNodeUnstage l ∧ since OpNodePublish OpNodeUnpublish l
  end.

Lemma since_here o u l : since o u (o :: l).
Proof. exists [], l. split; [done|set_solver]. Qed.

Lemma since_later o u o' l : o' ≠ u → since o u l → since o u (o' :: l).
Proof. intros ? (a & b & -> & ?). exists (o' :: a), b. split; [done|set_solver]. Qed.

Create HintDb lifecycle.
#[export] Hint Resolve since_here since_later : lifecycle.
#[export] Hint Extern 1 (not (_ = _)) => discriminate : lifecycle.

Lemma history_step s op s' l :
  step_state s op = Some s' → history_of s l → history_of s' (op :: l).
Proof.
  destruct s, op; vm_compute step_state; intros; simplify_eq; cbn in *;
    unfold published_since in *; destruct_and?; split_and?; auto with lifecycle.
Qed.

Lemma ops_of_cons_eq v op h : ops_of v ((v, op) :: h) = op :: ops_of v h.
Proof. unfold ops_of. by rewrite filter_cons_True. Qed.

Lemma ops_of_cons_ne v v' op h : v' ≠ v → ops_of v ((v', op) :: h) = ops_of v h.
Proof. intros. unfold ops_of. by rewrite filter_cons_False. Qed.

Lemma Transition_ok_step v op m noop m' :
  Transition v op m = (Ok noop, m') → step_state (GetState m v) op = Some (GetState m' v).
Proof.
  intros H. pose proof (Transition_step _ _ _ _ _ H) as [-> _].
  revert H. unfold Transition, step_state, GetState.
  destruct (assoc _ _); intros; by simplify_eq/=.
Qed.

Lemma Transition_err_same v op m e m' : Transition v op m = (Err e, m') → m' = m.
Proof. unfold Transition. destruct (assoc _ _); intros; by simplify_eq. Qed.

Lemma history_reaches h m v : reaches h m → history_of (GetState m v) (ops_of v h).
Proof.
  induction 1 as [|h m v' op noop m' ? IH HT|h m v' op e m' ? IH HT]; [done| |].
  - destruct (decide (v' = v)) as [->|Hne].
    + rewrite ops_of_cons_eq. eapply history_step; [|exact IH]. by eapply Transition_ok_step.
    + rewrite ops_of_cons_ne by done.
      pose proof (Transition_step _ _ _ _ _ HT) as [_ Ho]. by rewrite Ho.
  - by apply Transition_err_same in HT as ->.
Qed.

(** ** Tearing down

    The CSI calls that take a volume from a state back to [StateNonExistent]. *)
Definition teardown (s : VolumeState) : list VolumeOperation :=
  match s with
  | StateNonExistent => []
  | StateCreated | StateCreatePartial => [OpDeleteVolume]
  | StateControllerPublished => [OpControllerUnpublish; OpDeleteVolume]
  | StateNodeStaged | StateNodeStagePartial =>
      [OpNodeUnstage; OpControllerUnpublish; OpDeleteVolume]
  | StateNodePublished =>
      [OpNodeUnpublish; OpNodeUnstage; OpControllerUnpublish; OpDeleteVolume]
  end.

(** Apply the calls in order; stops at the first rejection. *)
Fixpoint transitions (v : string) (ops : list VolumeOperation) : M VolumeStateMachine go_error unit :=
  match ops with
  | [] => mret tt
  | op :: ops => Transition v op ≫= λ _, transitions v ops
  end.

Lemma foldl_step_None ops :
  foldl (λ o op, o ≫= λ s, step_state s op) None ops = None.
Proof. induction ops as [|op ops IH]; [done|exact IH]. Qed.

Lemma transitions_follow v ops m s :
  foldl (λ o op, o ≫= λ s, step_state s op) (Some (GetState m v)) ops = Some s →
  ∃ m', transitions v ops m = (Ok tt, m') ∧ GetState m' v = s ∧
        ∀ v', v ≠ v' → GetState m' v' = GetState m v'.
Proof.
  revert m. induction ops as [|op ops IH]; intros m.
  { cbn. intros. simplify_eq. by exists m. }
  change (foldl _ _ (op :: ops))
    with (foldl (λ o op, o ≫= λ s, step_state s op) (step_state (GetState m v) op) ops).
  destruct (step_state (GetState m v) op) as [s1|] eqn:E.
  2:{ by rewrite foldl_step_None. }
  destruct (Transition v op m) as [[b|e] m1] eqn:HT.
  - pose proof (Transition_ok_step _ _ _ _ _ HT) as Hs. rewrite E in Hs. simplify_eq.
    intros H. destruct (IH _ H) as (m' & Hm & Hg & Ho). exists m'.
    cbn [transitions]. rewrite (M_bind_Ok _ _ _ _ _ HT). split_and!; [done..|].
    intros. rewrite Ho by done.
    by apply (Transition_step _ _ _ _ _ HT).
  - exfalso. revert HT E. unfold Transition, step_state, GetState.
    by destruct (assoc _ _).
Qed.

Lemma reaches_transitions v ops h m m' :
  reaches h m → transitions v ops m = (Ok tt, m') → reaches (rev (pair v <$> ops) ++ h) m'.
Proof.
  revert h m. induction ops as [|op ops IH]; intros h m Hr H; cbn in H; minv; [done|].
  csimpl. rewrite <-app_assoc. eapply IH; [|done]. by eapply reaches_ok.
Qed.

(** The map never holds [StateNonExistent]: absence stands for it. *)
Definition sm_wf (m : VolumeStateMachine) : Prop :=
  ∀ v, sm_states m !! v ≠ Some StateNonExistent.

Lemma lockedSetState_wf m v s : sm_wf m → sm_wf (lockedSetState m v s).
Proof.
  intros Hm v'. unfold lockedSetState. case_decide; cbn.
  - rewrite lookup_delete. case_decide; [done|apply Hm].
  - rewrite lookup_insert. case_decide; [congruence|apply Hm].
Qed.

(** ** Properties *)

(** Every call either applies the transition table to the volume it names
    and reports whether that was a no-op, or is rejected with
    FailedPrecondition and changes nothing; the states of other volumes and
    the representation invariant are kept either way. *)
Theorem Transition_spec v op m :
  let '(r, m') := Transition v op m in
  match assoc (GetState m v, op) legalTransitions with
  | Some res => r = Ok (bool_decide (tr_to res = GetState m v)) ∧ GetState m' v = tr_to res
  | None => (∃ msg, r = Err (EStatus FailedPrecondition msg)) ∧ m' = m
  end ∧
  (∀ v', v ≠ v' → GetState m' v' = GetState m v') ∧ (sm_wf m → sm_wf m').
Proof.
  destruct (Transition v op m) as [r m'] eqn:HT.
  pose proof (Transition_step _ _ _ _ _ HT) as [Hs Ho].
  split_and!; [|exact Ho|].
  - revert HT Hs. unfold Transition, step_state. fold (GetState m v).
    destruct (assoc _ _) as [res|] eqn:E; intros; simplify_eq/=; [|eauto].
    split; [|done]. f_equal. pose proof (table_noop _ _ _ E) as Hn.
    destruct (tr_isNoop res); symmetry; [apply bool_decide_eq_true|apply bool_decide_eq_false]; naive_solver.
  - intros. revert HT. unfold Transition.
    destruct (assoc _ _) as [res|]; intros; simplify_eq; [|done].
    destruct (tr_isNoop res); [done|by apply lockedSetState_wf].
Qed.

(** A volume that reached StateNodePublished through accepted calls went
    through ControllerPublishVolume, NodeStageVolume and NodePublishVolume,
    none of them undone since, and has not been deleted since it was
    published. *)
Theorem NodePublished_history h m v :
  reaches h m → GetState m v = StateNodePublished →
  since OpControllerPublish OpControllerUnpublish (ops_of v h) ∧
  since OpControllerPublish OpDeleteVolume (ops_of v h) ∧
  since OpNodeStage OpNodeUnstage (ops_of v h) ∧
  since OpNodePublish OpNodeUnpublish (ops_of v h).
Proof.
  intros Hr Hs. pose proof (history_reaches _ _ v Hr) as H.
  rewrite Hs in H. cbn in H. unfold published_since in H. naive_solver.
Qed.

(** From every state the CSI teardown calls are all accepted and end in
    StateNonExistent, whatever the other volumes do. *)
Theorem teardown_succeeds v m :
  ∃ m', transitions v (teardown (GetState m v)) m = (Ok tt, m') ∧
        GetState m' v = StateNonExistent ∧ ∀ v', v ≠ v' → GetState m' v' = GetState m v'.
Proof. apply transitions_follow. by destruct (GetState m v). Qed.

Definition example_ops : list VolumeOperation :=
  [OpCreateVolume; OpControllerPublish; OpNodeStage; OpNodePublish].
Definition example_history : list (string * VolumeOperation) := rev (pair "pv" <$> example_ops).
Definition example_machine : VolumeStateMachine := {| sm_states := {[ "pv" := StateNodePublished ]} |}.

Lemma NodePublished_history_witness :
  reaches example_history example_machine ∧
  GetState example_machine "pv" = StateNodePublished ∧
  since OpControllerPublish OpControllerUnpublish (ops_of "pv" example_history) ∧
  since OpControllerPublish OpDeleteVolume (ops_of "pv" example_history) ∧
  since OpNodeStage OpNodeUnstage (ops_of "pv" example_history) ∧
  since OpNodePublish OpNodeUnpublish (ops_of "pv" example_history).
Proof.
  assert (reaches example_history example_machine) as Hr.
  { apply (reaches_transitions "pv" example_ops [] NewVolumeStateMachine); [apply reaches_new|].
    vm_compute. reflexivity. }
  split; [exact Hr|]. split; [reflexivity|].
  apply (NodePublished_history example_history example_machine "pv" Hr). reflexivity.
Defined.
