(* ===== verification/FencingMark.v ===== *)
(** * Fencing marks and token admission (internal/agent/fencing.go, pure part)

    The durable per-volume record [fencingMark], the admission rules of
    [admitFencingToken], the sticky pin rules of [pinImportSource] and the
    escaping of volume IDs into mark file names.  The file operations around
    them are in FencingStore, the critical sections in Fencing. *)
From stdpp Require Import base numbers list strings gmap.
From Stdlib Require Import Ascii.
From S2P Require Import Prelude.
Open Scope Z_scope.

(** ** Data *)

(** [agentv1.FilesystemAdoption] *)
Record FilesystemAdoption := {
  fa_Kind : string;
  fa_CanonicalSource : string;
  fa_ResourceId : string;
  fa_HostPath : string;
  fa_FilesystemType : string;
  fa_FilesystemId : string;
  fa_Inode : Z;
  fa_ProjectId : Z;
}.

(** [backend.Layout] *)
Record Layout := { ly_ParentDataset : string; ly_ThinPool : string; ly_HostRoot : string }.

(** [backend.LVMIdentity], [agentv1.LvmSourceIdentity] *)
Record LVMIdentity := {
  li_VolumeGroup : string;
  li_LogicalVolume : string;
  li_VolumeGroupUUID : string;
  li_LogicalVolumeUUID : string;
}.

Record markLVMSource := {
  ls_VolumeGroup : string;
  ls_LogicalVolume : string;
  ls_VolumeGroupUUID : string;
  ls_LogicalVolumeUUID : string;
}.

Record markTransfer := {
  mt_AuthorizationDigest : string;
  mt_FromUID : string;
  mt_FromGeneration : Z;
  mt_ToUID : string;
  mt_ToGeneration : Z;
}.

Record fencingMark := {
  VolumeUID : string;
  Generation : Z;
  Ended : bool;
  EndedUIDs : list string;
  Filesystem : option FilesystemAdoption;
  FilesystemVolumeID : string;
  FilesystemCapacity : Z;
  FilesystemLayout : option Layout;
  LocalAttached : bool;
  FilesystemClients : list string;
  FilesystemOpen : bool;
  FilesystemExported : bool;
  FilesystemProxyClaimed : bool;
  LegacyRevokeOnly : bool;
  LVMSource : option markLVMSource;
  PreserveOriginal : bool;
  Transfer : option markTransfer;
}.

#[export] Instance FilesystemAdoption_eq_dec : EqDecision FilesystemAdoption.
Proof. solve_decision. Defined.
#[export] Instance Layout_eq_dec : EqDecision Layout.
Proof. solve_decision. Defined.
#[export] Instance LVMIdentity_eq_dec : EqDecision LVMIdentity.
Proof. solve_decision. Defined.
#[export] Instance markLVMSource_eq_dec : EqDecision markLVMSource.
Proof. solve_decision. Defined.
#[export] Instance markTransfer_eq_dec : EqDecision markTransfer.
Proof. solve_decision. Defined.
#[export] Instance fencingMark_eq_dec : EqDecision fencingMark.
Proof. solve_decision. Defined.

(** The zero value [fencingMark{}]. *)
Definition zeroMark : fencingMark := {|
  VolumeUID := ""; Generation := 0; Ended := false; EndedUIDs := [];
  Filesystem := None; FilesystemVolumeID := ""; FilesystemCapacity := 0;
  FilesystemLayout := None; LocalAttached := false; FilesystemClients := [];
  FilesystemOpen := false; FilesystemExported := false; FilesystemProxyClaimed := false;
  LegacyRevokeOnly := false; LVMSource := None; PreserveOriginal := false; Transfer := None |}.

(** The composite literal
    [fencingMark{VolumeUID, Generation, Ended, EndedUIDs, LVMSource, PreserveOriginal}]. *)
Definition mark_of (uid : string) (gen : Z) (ended : bool) (retired : list string)
    (src : option markLVMSource) (preserve : bool) : fencingMark := {|
  VolumeUID := uid; Generation := gen; Ended := ended; EndedUIDs := retired;
  Filesystem := None; FilesystemVolumeID := ""; FilesystemCapacity := 0;
  FilesystemLayout := None; LocalAttached := false; FilesystemClients := [];
  FilesystemOpen := false; FilesystemExported := false; FilesystemProxyClaimed := false;
  LegacyRevokeOnly := false; LVMSource := src; PreserveOriginal := preserve; Transfer := None |}.

(** Assignment to the lifecycle fields of a copied mark. *)
Definition set_lifecycle (m : fencingMark) (gen : Z) (ended : bool) (retired : list string)
    : fencingMark := {|
  VolumeUID := VolumeUID m; Generation := gen; Ended := ended; EndedUIDs := retired;
  Filesystem := Filesystem m; FilesystemVolumeID := FilesystemVolumeID m;
  FilesystemCapacity := FilesystemCapacity m; FilesystemLayout := FilesystemLayout m;
  LocalAttached := LocalAttached m; FilesystemClients := FilesystemClients m;
  FilesystemOpen := FilesystemOpen m; FilesystemExported := FilesystemExported m;
  FilesystemProxyClaimed := FilesystemProxyClaimed m; LegacyRevokeOnly := LegacyRevokeOnly m;
  LVMSource := LVMSource m; PreserveOriginal := PreserveOriginal m; Transfer := Transfer m |}.

(** Assignment to the adoption fields of a copied mark. *)
Definition set_adoption (m : fencingMark) (revokeOnly : bool) (src : option markLVMSource)
    (preserve : bool) (tr : option markTransfer) : fencingMark := {|
  VolumeUID := VolumeUID m; Generation := Generation m; Ended := Ended m; EndedUIDs := EndedUIDs m;
  Filesystem := Filesystem m; FilesystemVolumeID := FilesystemVolumeID m;
  FilesystemCapacity := FilesystemCapacity m; FilesystemLayout := FilesystemLayout m;
  LocalAttached := LocalAttached m; FilesystemClients := FilesystemClients m;
  FilesystemOpen := FilesystemOpen m; FilesystemExported := FilesystemExported m;
  FilesystemProxyClaimed := FilesystemProxyClaimed m; LegacyRevokeOnly := revokeOnly;
  LVMSource := src; PreserveOriginal := preserve; Transfer := tr |}.

Definition set_Generation (m : fencingMark) (g : Z) := set_lifecycle m g (Ended m) (EndedUIDs m).
Definition set_Ended (m : fencingMark) := set_lifecycle m (Generation m) true (EndedUIDs m).
Definition set_EndedUIDs (m : fencingMark) (l : list string) :=
  set_lifecycle m (Generation m) (Ended m) l.
Definition set_LegacyRevokeOnly (m : fencingMark) (b : bool) :=
  set_adoption m b (LVMSource m) (PreserveOriginal m) (Transfer m).
Definition set_pin (m : fencingMark) (src : option markLVMSource) (preserve : bool) :=
  set_adoption m (LegacyRevokeOnly m) src preserve (Transfer m).
Definition set_Transfer (m : fencingMark) (tr : option markTransfer) :=
  set_adoption m (LegacyRevokeOnly m) (LVMSource m) (PreserveOriginal m) tr.

(** [agentv1.FencingToken]; requests hold a pointer, [None] when absent. *)
Record FencingToken := { VolumeUid : string; TokenGeneration : Z }.
Definition GetVolumeUid (t : option FencingToken) : string :=
  match t with Some t => VolumeUid t | None => "" end.
Definition GetGeneration (t : option FencingToken) : Z :=
  match t with Some t => TokenGeneration t | None => 0 end.

Definition markLVMSourceFromProto (src : option LVMIdentity) : option markLVMSource :=
  match src with
  | None => None
  | Some s => Some {| ls_VolumeGroup := li_VolumeGroup s;
                      ls_LogicalVolume := li_LogicalVolume s;
                      ls_VolumeGroupUUID := li_VolumeGroupUUID s;
                      ls_LogicalVolumeUUID := li_LogicalVolumeUUID s |}
  end.

Definition identity (m : markLVMSource) : LVMIdentity :=
  {| li_VolumeGroup := ls_VolumeGroup m;
     li_LogicalVolume := ls_LogicalVolume m;
     li_VolumeGroupUUID := ls_VolumeGroupUUID m;
     li_LogicalVolumeUUID := ls_LogicalVolumeUUID m |}.

Definition equalLVMSource (a b : option markLVMSource) : bool :=
  match a, b with
  | Some a, Some b => bool_decide (a = b)
  | None, None => true
  | _, _ => false
  end.

Definition equalTransfer (a b : option markTransfer) : bool :=
  match a, b with
  | Some a, Some b => bool_decide (a = b)
  | None, None => true
  | _, _ => false
  end.

Definition equalMarks (a b : fencingMark) : bool :=
  bool_decide (VolumeUID a = VolumeUID b) && (Generation a =? Generation b) &&
  Bool.eqb (Ended a) (Ended b) && bool_decide (EndedUIDs a = EndedUIDs b) &&
  equalLVMSource (LVMSource a) (LVMSource b) &&
  Bool.eqb (PreserveOriginal a) (PreserveOriginal b) &&
  equalTransfer (Transfer a) (Transfer b).

(** ** Mark file names *)

Definition hexDigit (n : N) : ascii :=
  match String.get (N.to_nat n) "0123456789abcdef" with Some c => c | None => "0" end%char.

(** The bytes [fencingFilename] writes unescaped: [a-zA-Z0-9.-]. *)
Definition plainByte (c : ascii) : bool :=
  let n := N_of_ascii c in
  ((97 <=? n) && (n <=? 122) || (65 <=? n) && (n <=? 90) || (48 <=? n) && (n <=? 57)
   || (n =? 46) || (n =? 45))%N.

Definition escapeByte (c : ascii) (rest : string) : string :=
  if plainByte c then String c rest
  else String "_" (String (hexDigit (N.shiftr (N_of_ascii c) 4))
                  (String (hexDigit (N.land (N_of_ascii c) 15)) rest)).

Fixpoint escapeID (volumeID : string) : string :=
  match volumeID with
  | EmptyString => ""
  | String c rest => escapeByte c (escapeID rest)
  end.

Definition fencingSuffix : string := ".mark".
Definition fencingFilename (volumeID : string) : string := escapeID volumeID +:+ fencingSuffix.

(** ** Admission *)

Inductive fenceOp := fenceGrant | fenceRevoke | fenceDestroy.
#[export] Instance fenceOp_eq_dec : EqDecision fenceOp.
Proof. solve_decision. Defined.

(** The [telemetry.Fence*] decision values. *)
Inductive fenceDecision :=
| FenceAdmitNewLifecycle | FenceAdmitAdvance | FenceAdmitSameGeneration
| FenceAdmitTerminalRetry | FenceRejectMissingToken | FenceRejectRetired
| FenceRejectOtherOwner | FenceRejectEnded | FenceRejectSuperseded
| FenceRejectMarkChanged | FenceMarkIOError.
#[export] Instance fenceDecision_eq_dec : EqDecision fenceDecision.
Proof. solve_decision. Defined.

Record fenceAdmission := {
  adm_next : fencingMark;
  adm_changed : bool;
  adm_decision : fenceDecision;
}.

Definition admitFencingToken (token : option FencingToken) (op : fenceOp)
    (stored : fencingMark) (exists_ : bool) : fenceAdmission * option go_error :=
  let uid := GetVolumeUid token in
  let gen := GetGeneration token in
  let reject decision reason :=
    ({| adm_next := zeroMark; adm_changed := false; adm_decision := decision |},
     Some (EStatus FailedPrecondition reason)) in
  if decide (uid = "") then
    reject FenceRejectMissingToken "fencing token required"
  else if negb exists_ then
    ({| adm_next := mark_of uid gen false [] None false;
        adm_changed := true; adm_decision := FenceAdmitNewLifecycle |}, None)
  else if containsb (EndedUIDs stored) uid then
    reject FenceRejectRetired "lifecycle was retired"
  else if decide (uid ≠ VolumeUID stored) then
    if negb (Ended stored) then
      reject FenceRejectOtherOwner "another lifecycle owns the volume"
    else
      let retired := if containsb (EndedUIDs stored) (VolumeUID stored) then EndedUIDs stored
                     else EndedUIDs stored ++ [VolumeUID stored] in
      ({| adm_next := mark_of uid gen false retired (LVMSource stored) (PreserveOriginal stored);
          adm_changed := true; adm_decision := FenceAdmitNewLifecycle |}, None)
  else if Ended stored then
    if bool_decide (op = fenceGrant) || negb (gen =? Generation stored) then
      reject FenceRejectEnded "lifecycle already ended"
    else
      ({| adm_next := stored; adm_changed := false; adm_decision := FenceAdmitTerminalRetry |}, None)
  else if gen <? Generation stored then
    reject FenceRejectSuperseded "superseded by a newer operation"
  else if gen =? Generation stored then
    ({| adm_next := stored; adm_changed := false; adm_decision := FenceAdmitSameGeneration |}, None)
  else
    ({| adm_next := set_Generation stored gen;
        adm_changed := true; adm_decision := FenceAdmitAdvance |}, None).

(** ** Pinning an imported source *)
Definition pinImportSource (next stored : fencingMark) (src : option markLVMSource)
    (preserve : bool) : GoResult fencingMark :=
  if bool_decide (LVMSource stored ≠ None) && negb (equalLVMSource (LVMSource stored) src) then
    Err (EStatus FailedPrecondition "refusing to import another source")
  else if bool_decide (LVMSource stored ≠ None) && (PreserveOriginal stored && negb preserve) then
    Err (EStatus FailedPrecondition "refusing to downgrade the adoption to Managed")
  else
    Ok (set_pin next
          (match LVMSource stored with Some s => Some s | None => src end)
          (PreserveOriginal stored || (bool_decide (src ≠ None) && preserve))).

(** ** File names are injective

    [unescapeID] reads the escaping back, so distinct volume IDs have
    distinct marks. *)
Definition unhex (c : ascii) : N :=
  let n := N_of_ascii c in if (n <=? 57)%N then (n - 48)%N else (n - 87)%N.

Fixpoint unescapeID (s : string) : string :=
  match s with
  | EmptyString => ""
  | String c rest =>
      if Ascii.eqb c "_" then
        match rest with
        | String h (String l rest') =>
            String (ascii_of_N (N.lor (N.shiftl (unhex h) 4) (unhex l))) (unescapeID rest')
        | _ => ""
        end
      else String c (unescapeID rest)
  end.

Lemma unescape_escapeByte c rest :
  unescapeID (escapeByte c rest) = String c (unescapeID rest).
Proof. destruct c as [[] [] [] [] [] [] [] []]; reflexivity. Qed.

Lemma unescape_escapeID s : unescapeID (escapeID s) = s.
Proof.
  induction s as [|c s IH]; [done|]. cbn [escapeID].
  rewrite unescape_escapeByte. by rewrite IH.
Qed.

#[export] Instance escapeID_inj : Inj (=) (=) escapeID.
Proof. intros a b H. by rewrite <-(unescape_escapeID a), H, unescape_escapeID. Qed.

#[export] Instance fencingFilename_inj : Inj (=) (=) fencingFilename.
Proof. intros a b H. by apply string_app_inj_r, (inj escapeID) in H. Qed.

(** The temporary file of one mark is never the mark file of a volume. *)
Definition tmpName (name : string) : string := name +:+ ".tmp".

Fixpoint lastChar (d : ascii) (s : string) : ascii :=
  match s with EmptyString => d | String c s => lastChar c s end.

Lemma lastChar_app s c t d : lastChar d (s +:+ String c t) = lastChar c t.
Proof. revert d. induction s as [|c' s IH]; intros d; [done|exact (IH c')]. Qed.

Lemma tmpName_ne_filename v n : fencingFilename v ≠ tmpName n.
Proof.
  intros H. apply (f_equal (lastChar " ")) in H.
  unfold fencingFilename, tmpName, fencingSuffix in H. by rewrite !lastChar_app in H.
Qed.

(** ** Well-formed marks and their order *)

Record mark_wf (m : fencingMark) : Prop := {
  wf_uid : VolumeUID m ≠ "";
  wf_retired : NoDup (EndedUIDs m);
  wf_owner : Ended m = false → VolumeUID m ∉ EndedUIDs m;
}.

(** [mark_succ m m']: [m'] may replace [m] on disk.  The owner keeps its
    generation order and its ended state, or leaves for a fresh lifecycle and
    is retired; retired lifecycles stay retired; a pinned source and its
    preserve policy stay. *)
Record mark_succ (m m' : fencingMark) : Prop := {
  succ_owner :
    (VolumeUID m' = VolumeUID m ∧ Generation m ≤ Generation m' ∧ (Ended m = true → Ended m' = true))
    ∨ (VolumeUID m' ≠ VolumeUID m ∧ (VolumeUID m' ∉ EndedUIDs m) ∧ VolumeUID m ∈ EndedUIDs m');
  succ_retired : ∀ u, u ∈ EndedUIDs m → u ∈ EndedUIDs m';
  succ_pin : ∀ s, LVMSource m = Some s → LVMSource m' = Some s;
  succ_preserve : PreserveOriginal m = true → PreserveOriginal m' = true;
}.

Lemma mark_succ_refl m : mark_succ m m.
Proof. split; auto. left. split_and!; auto with lia. Qed.

Create HintDb fence.
#[export] Hint Resolve mark_succ_refl : fence.

(** A lifecycle retired by [m] that does not own it never owns a later mark. *)
Lemma retired_never_owns u m m' :
  rtc mark_succ m m' → u ∈ EndedUIDs m → VolumeUID m ≠ u →
  u ∈ EndedUIDs m' ∧ VolumeUID m' ≠ u.
Proof.
  induction 1 as [|m m1 m' Hs _ IH]; [done|]. intros Hu Hne.
  apply IH; [by apply Hs|].
  destruct (succ_owner _ _ Hs) as [(-> & _)|(_ & Hni & _)]; [done|].
  by intros <-.
Qed.

Lemma rtc_succ_retired u m m' :
  rtc mark_succ m m' → u ∈ EndedUIDs m → u ∈ EndedUIDs m'.
Proof. induction 1 as [|m m1 m' Hs _ IH]; [done|]. intros. by apply IH, Hs. Qed.

Lemma rtc_succ_owner m m' :
  rtc mark_succ m m' →
  (VolumeUID m' = VolumeUID m ∧ Generation m ≤ Generation m' ∧ (Ended m = true → Ended m' = true))
  ∨ (VolumeUID m' ≠ VolumeUID m ∧ VolumeUID m ∈ EndedUIDs m').
Proof.
  induction 1 as [m|m m1 m' Hs Hr IH]; [left; split_and!; auto with lia|].
  destruct (succ_owner _ _ Hs) as [(Hu & ? & ?)|(Hne & Hni & Hin)].
  - rewrite Hu in IH. destruct IH as [(? & ? & ?)|?]; [left|by right].
    split_and!; [done|lia|auto].
  - right. destruct (retired_never_owns (VolumeUID m) m1 m' Hr Hin Hne). done.
Qed.

(** ** What admission decides *)

(** The rejection of a token, and the mark an admitted one must leave. *)
Definition admits (token : option FencingToken) (op : fenceOp) (m : option fencingMark)
    : GoResult fenceAdmission :=
  let '(adm, err) :=
    admitFencingToken token op (default zeroMark m) (bool_decide (is_Some m)) in
  match err with Some e => Err e | None => Ok adm end.

(** [dominated t m]: [m] is newer than the token [t], whatever the operation. *)
Definition dominated (uid : string) (gen : Z) (m : fencingMark) : Prop :=
  uid ∈ EndedUIDs m ∨ (VolumeUID m = uid ∧ gen < Generation m).

Lemma dominated_rtc uid gen m m' :
  rtc mark_succ m m' → dominated uid gen m → dominated uid gen m'.
Proof.
  intros Hr [Hin|[<- Hg]]; [left; by eapply rtc_succ_retired|].
  destruct (rtc_succ_owner _ _ Hr) as [(? & ? & _)|(_ & ?)]; [right|by left].
  split; [done|lia].
Qed.

Lemma dominated_rejected token op m :
  dominated (GetVolumeUid token) (GetGeneration token) m →
  ∃ msg, admits token op (Some m) = Err (EStatus FailedPrecondition msg).
Proof.
  unfold admits, admitFencingToken, dominated. cbn.
  set (uid := GetVolumeUid token). set (gen := GetGeneration token).
  intros H. case_decide; [eauto|].
  destruct (containsb (EndedUIDs m) uid) eqn:Ec; [eauto|].
  apply containsb_false in Ec. destruct H as [?|[Hu Hg]]; [done|].
  rewrite decide_False by (rewrite Hu; tauto).
  destruct (Ended m); [rewrite orb_comm, (proj2 (Z.eqb_neq _ _)) by lia; eauto|].
  rewrite (proj2 (Z.ltb_lt _ _)) by lia. eauto.
Qed.

(** The mark a token admitted against [m] must make durable. *)
Definition admitted_mark (uid : string) (gen : Z) (op : fenceOp) (m : option fencingMark)
    (next : fencingMark) : Prop :=
  match m with
  | None => next = mark_of uid gen false [] None false
  | Some m =>
      (uid ∉ EndedUIDs m) ∧
      ((VolumeUID m = uid ∧ Ended m = false ∧ Generation m ≤ gen ∧ next = set_Generation m gen)
       ∨ (VolumeUID m = uid ∧ Ended m = true ∧ op ≠ fenceGrant ∧ gen = Generation m ∧ next = m)
       ∨ (VolumeUID m ≠ uid ∧ Ended m = true ∧
          ∃ retired, next = mark_of uid gen false retired (LVMSource m) (PreserveOriginal m) ∧
            (retired = EndedUIDs m ∧ VolumeUID m ∈ EndedUIDs m ∨
             retired = EndedUIDs m ++ [VolumeUID m] ∧ VolumeUID m ∉ EndedUIDs m)))
  end.

Lemma set_Generation_same m : set_Generation m (Generation m) = m.
Proof. by destruct m. Qed.

Lemma admits_sound token op m adm :
  admits token op m = Ok adm →
  GetVolumeUid token ≠ "" ∧
  admitted_mark (GetVolumeUid token) (GetGeneration token) op m (adm_next adm) ∧
  (adm_changed adm = false → m = Some (adm_next adm)).
Proof.
  unfold admits, admitFencingToken.
  set (uid := GetVolumeUid token). set (gen := GetGeneration token).
  case_decide as Hu; [done|]. destruct m as [m|]; cbn.
  2:{ intros. by simplify_eq/=. }
  destruct (containsb (EndedUIDs m) uid) eqn:Ec; [done|]. apply containsb_false in Ec.
  case_decide as Ho; destruct (Ended m) eqn:Ee; cbn.
  - intros [= <-]; cbn. split_and!; [done..| |done]. right. right.
    split_and!; [naive_solver..|]. eexists. split; [done|].
    destruct (containsb _ (VolumeUID m)) eqn:E;
      [apply containsb_true in E|apply containsb_false in E]; auto.
  - done.
  - destruct (bool_decide (op = fenceGrant)) eqn:Eg; [done|].
    destruct (gen =? Generation m) eqn:Eq; [|done]. intros [= <-]; cbn.
    apply bool_decide_eq_false in Eg. apply Z.eqb_eq in Eq. naive_solver.
  - destruct (gen <? Generation m) eqn:El; [done|]. apply Z.ltb_ge in El.
    destruct (gen =? Generation m) eqn:Eq; intros [= <-]; cbn; split_and!; try done.
    + apply Z.eqb_eq in Eq. left. rewrite Eq, set_Generation_same. naive_solver lia.
    + left. naive_solver.
Qed.

Lemma admits_complete token op m next :
  GetVolumeUid token ≠ "" →
  admitted_mark (GetVolumeUid token) (GetGeneration token) op m next →
  ∃ adm, admits token op m = Ok adm ∧ adm_next adm = next.
Proof.
  unfold admits, admitFencingToken.
  set (uid := GetVolumeUid token). set (gen := GetGeneration token).
  intros Hu H. rewrite decide_False by done. destruct m as [m|]; cbn in *.
  2:{ subst. eauto. }
  destruct H as (Hni & H). rewrite (proj2 (containsb_false _ _) Hni).
  destruct H as [(Ho & He & Hg & ->)|[(Ho & He & Hop & Hg & ->)|(Ho & He & r & -> & Hr)]];
    rewrite He; cbn.
  - rewrite decide_False by (rewrite Ho; tauto).
    rewrite (proj2 (Z.ltb_ge _ _)) by lia.
    destruct (gen =? Generation m) eqn:Eq; [|eauto].
    apply Z.eqb_eq in Eq. rewrite Eq, set_Generation_same. eauto.
  - rewrite decide_False by (rewrite Ho; tauto).
    rewrite bool_decide_eq_false_2 by done. rewrite Hg, Z.eqb_refl. cbn. eauto.
  - rewrite decide_True by congruence. eexists. split; [done|]. cbn. f_equal.
    destruct Hr as [[-> Hi]|[-> Hi]];
      [by rewrite (proj2 (containsb_true _ _) Hi)|by rewrite (proj2 (containsb_false _ _) Hi)].
Qed.

(** ** Marks the operations write keep the order *)

Lemma admitted_mark_wf uid gen op m next :
  uid ≠ "" → admitted_mark uid gen op m next →
  (∀ m0, m = Some m0 → mark_wf m0) → mark_wf next.
Proof.
  intros Hu Ha Hw. destruct m as [m|]; cbn in Ha.
  2:{ subst. split; cbn; [done|constructor|set_solver]. }
  destruct (Hw m eq_refl) as [Hid Hnd Hown].
  destruct Ha as (Hni & [(<- & He & _ & ->)|[(_ & _ & _ & _ & ->)|(Hne & He & r & -> & Hr)]]).
  - split; cbn; auto.
  - by split.
  - destruct Hr as [[-> Hi]|[-> Hi]]; split; cbn; auto.
    + rewrite NoDup_app. split_and!; [done| |apply NoDup_singleton]. set_solver.
    + set_solver.
Qed.

Lemma admitted_mark_succ uid gen op m next :
  admitted_mark uid gen op (Some m) next → mark_succ m next.
Proof.
  intros (Hni & [(<- & He & ? & ->)|[(_ & _ & _ & _ & ->)|(Hne & He & r & -> & Hr)]]).
  - split; cbn; auto.
  - apply mark_succ_refl.
  - assert (∀ u, u ∈ EndedUIDs m → u ∈ r) as Hsub
      by (destruct Hr as [[-> _]|[-> _]]; intros; rewrite ?elem_of_app; auto).
    assert (VolumeUID m ∈ r) as Hin
      by (destruct Hr as [[-> ?]|[-> ?]]; rewrite ?elem_of_app; [done|right; by left]).
    split; cbn; auto.
Qed.

Lemma set_Ended_wf m : mark_wf m → mark_wf (set_Ended m).
Proof. intros [? ? ?]. by split. Qed.
Lemma set_Ended_succ m : mark_succ m (set_Ended m).
Proof. split; cbn; auto. left. split_and!; auto with lia. Qed.

Lemma set_LegacyRevokeOnly_wf m b : mark_wf m → mark_wf (set_LegacyRevokeOnly m b).
Proof. intros [? ? ?]. by split. Qed.

Lemma mark_succ_revokeOnly m m' b : mark_succ m m' → mark_succ m (set_LegacyRevokeOnly m' b).
Proof. intros [? ? ? ?]. by split. Qed.

Lemma equalLVMSource_eq a b : equalLVMSource a b = true ↔ a = b.
Proof. destruct a, b; cbn; rewrite ?bool_decide_eq_true; naive_solver. Qed.

Lemma pinImportSource_Ok next m src preserve pinned :
  pinImportSource next m src preserve = Ok pinned →
  pinned = set_pin next (match LVMSource m with Some s => Some s | None => src end)
             (PreserveOriginal m || (bool_decide (src ≠ None) && preserve)) ∧
  (LVMSource m ≠ None → src = LVMSource m ∧ (PreserveOriginal m = true → preserve = true)).
Proof.
  unfold pinImportSource. destruct (LVMSource m) as [s|] eqn:El.
  - rewrite (bool_decide_eq_true_2 (Some s ≠ None)) by done. rewrite !andb_true_l.
    destruct (equalLVMSource (Some s) src) eqn:Ee; [|discriminate].
    apply equalLVMSource_eq in Ee as <-.
    destruct (PreserveOriginal m), preserve; intros [= <-]; naive_solver.
  - rewrite (bool_decide_eq_false_2 (None ≠ None)) by naive_solver.
    intros [= <-]. naive_solver.
Qed.

Lemma pinImportSource_succ m next src preserve pinned :
  mark_succ m next → pinImportSource next m src preserve = Ok pinned → mark_succ m pinned.
Proof.
  intros [Ho Hr Hp Hq] [-> _]%pinImportSource_Ok.
  split; cbn; [done..|by intros s ->|by intros ->].
Qed.

Lemma pinImportSource_wf m next src preserve pinned :
  mark_wf next → pinImportSource next m src preserve = Ok pinned → mark_wf pinned.
Proof. intros [? ? ?] [-> _]%pinImportSource_Ok. by split. Qed.

#[export] Hint Resolve set_Ended_wf set_Ended_succ set_LegacyRevokeOnly_wf
  mark_succ_revokeOnly pinImportSource_succ pinImportSource_wf
  admitted_mark_wf admitted_mark_succ : fence.
