(* ===== verification/FencingStore.v ===== *)
(** * The mark files (internal/agent/fencing.go, storage part)

    [readFencingMark], [writeFencingMarkOutcome], [persistFencingMark] and
    the directory handling under them, run against a model of the agent state
    directory.  [dk_live] is the generations directory as running processes
    see it, [dk_synced] as of its last successful fsync.  Every system call
    that can fail takes its outcome from [w_faults], so a statement about all
    worlds covers every pattern of I/O failures.

    [disk_step] is the abstraction the rest of the development uses: what the
    agent may do to the directory in one atomic file operation, and what a
    crash may leave of it. *)
From stdpp Require Import base numbers list strings gmap relations.
From S2P Require Import Prelude FencingMark.

(** ** The directory *)

(** File contents: the JSON text of a mark ([json.Unmarshal] of
    [json.Marshal] gives the mark back), or bytes that are not one. *)
Inductive file := FMark (m : fencingMark) | FGarbage.
#[export] Instance file_eq_dec : EqDecision file.
Proof. solve_decision. Defined.

Record disk := Disk {
  dk_stateDir : bool;
  dk_live : gmap string file;
  dk_synced : gmap string file;
  dk_genSynced : bool;
}.

(** What is certain to be there after a crash: the entries of the last fsync
    of the generations directory, once its own entry was fsynced. *)
Definition dk_durable (d : disk) : gmap string file :=
  if dk_genSynced d then dk_synced d else ∅.

Definition set_live (d : disk) (l : gmap string file) : disk :=
  Disk (dk_stateDir d) l (dk_synced d) (dk_genSynced d).

Definition live_file (d : disk) (v : string) : option file := dk_live d !! fencingFilename v.
Definition durable_file (d : disk) (v : string) : option file := dk_durable d !! fencingFilename v.

Section Store.
Context {B : Type}.

(** The world an agent request runs in: the state directory, the outcomes of
    the system calls to come ([true]: the call fails), and the state [B] of
    the storage backends and exports. *)
Record world := World {
  w_disk : disk;
  w_faults : list bool;
  w_backend : B;
}.

Definition Agent := M world go_error.

Definition set_disk (w : world) (d : disk) : world := World d (w_faults w) (w_backend w).
Definition on_disk (f : disk → disk) : Agent unit := modify (λ w, set_disk w (f (w_disk w))).

(** The next fallible system call: [Ok true] when it fails. *)
Definition syscall : Agent bool := λ w,
  match w_faults w with
  | [] => (Ok false, w)
  | f :: fs => (Ok f, World (w_disk w) fs (w_backend w))
  end.

(** Run backend code. *)
Definition backend_op {A} (m : M B go_error A) : Agent A := λ w,
  let '(r, b) := m (w_backend w) in (r, World (w_disk w) (w_faults w) b).

(** [openStateRoot]: create the state directory and the generations
    directory in it. *)
Definition openStateRoot : Agent unit :=
  f ← syscall;
  if f : bool then throw (EStatus Internal "create agent state dir")
  else
    on_disk (λ d, Disk true (dk_live d) (dk_synced d) (dk_genSynced d)) ;;
    f ← syscall;
    if f : bool then throw (EStatus Internal "open agent state dir")
    else
      f ← syscall;
      if f : bool then throw (EStatus Internal "create generations dir") else mret tt.

Definition openFencingRoot : Agent unit := openStateRoot.

(** [syncStateDirs]: fsync the generations directory, then the state
    directory that holds its entry. *)
Definition syncDir (effect : disk → disk) : Agent unit :=
  f ← syscall;
  if f : bool then throw (EStatus Internal "open for fsync")
  else
    syncFails ← syscall;
    (if syncFails : bool then mret tt else on_disk effect) ;;
    closeFails ← syscall;
    if orb syncFails closeFails then throw (EStatus Internal "fsync") else mret tt.

Definition sync_generations (d : disk) : disk :=
  Disk (dk_stateDir d) (dk_live d) (dk_live d) (dk_genSynced d).
Definition sync_stateDir (d : disk) : disk :=
  Disk (dk_stateDir d) (dk_live d) (dk_synced d) true.

Definition syncStateDirs : Agent unit := syncDir sync_generations ;; syncDir sync_stateDir.

Definition syncFencingDirs : Agent unit := syncStateDirs.

(** [writeFileSynced]: a failed write or fsync leaves unusable contents. *)
Definition writeFileSynced (name : string) (data : file) : Agent unit :=
  f ← syscall;
  if f : bool then throw (EPlain "open")
  else
    writeFails ← syscall;
    syncFails ← syscall;
    closeFails ← syscall;
    on_disk (λ d, set_live d (<[name := if orb writeFails syncFails then FGarbage else data]> (dk_live d))) ;;
    if orb (orb writeFails syncFails) closeFails then throw (EPlain "write/sync/close") else mret tt.

(** [root.Rename(tmp, name)] *)
Definition renameFile (tmp name : string) : Agent unit :=
  f ← syscall;
  if f : bool then throw (EPlain "rename")
  else
    d ← reads w_disk;
    match dk_live d !! tmp with
    | None => throw (EPlain "rename")
    | Some c => on_disk (λ d, set_live d (<[name := c]> (delete tmp (dk_live d))))
    end.

(** [writeFencingMarkOutcome] returns whether the new mark reached the mark
    path together with its error. *)
Definition writeFencingMarkOutcome (volumeID : string) (mark : fencingMark)
    : Agent (bool * option go_error) :=
  r ← try openFencingRoot;
  match r with
  | Err e => mret (false, Some e)
  | Ok _ =>
      let name := fencingFilename volumeID in
      let tmp := tmpName name in
      r ← try (writeFileSynced tmp (FMark mark));
      match r with
      | Err _ => mret (false, Some (EStatus Internal "write fencing mark"))
      | Ok _ =>
          r ← try (renameFile tmp name);
          match r with
          | Err _ => mret (false, Some (EStatus Internal "rename fencing mark"))
          | Ok _ =>
              r ← try syncFencingDirs;
              mret (true, match r with Err e => Some e | Ok _ => None end)
          end
      end
  end.

Definition writeFencingMark (volumeID : string) (mark : fencingMark) : Agent unit :=
  o ← writeFencingMarkOutcome volumeID mark;
  match o.2 with Some e => throw e | None => mret tt end.

Definition persistFencingMark (volumeID : string) (next : fencingMark) (changed : bool)
    : Agent unit :=
  if changed then writeFencingMark volumeID next
  else openFencingRoot ;; syncFencingDirs.

(** [readFencingMark] returns the stored mark and whether there is one; a
    mark that cannot be read or decoded is an error. *)
Definition readFencingMark (volumeID : string) : Agent (fencingMark * bool) :=
  f ← syscall;
  if f : bool then throw (EStatus Internal "open agent state dir")
  else
    d ← reads w_disk;
    if negb (dk_stateDir d) then mret (zeroMark, false)
    else
      f ← syscall;
      if f : bool then throw (EStatus Internal "read fencing mark")
      else
        match dk_live d !! fencingFilename volumeID with
        | None => mret (zeroMark, false)
        | Some FGarbage => throw (EStatus Internal "corrupt fencing mark")
        | Some (FMark m) =>
            if decide (VolumeUID m = "") then throw (EStatus Internal "corrupt fencing mark")
            else mret (m, true)
        end.

End Store.
Arguments world : clear implicits.
Arguments Agent : clear implicits.

(** ** Atomic effects *)

(** [m'] may replace the contents [old] of a mark file. *)
Definition may_replace (old : option file) (m' : fencingMark) : Prop :=
  mark_wf m' ∧
  match old with
  | None => True
  | Some (FMark m) => mark_succ m m'
  | Some FGarbage => False
  end.

Inductive disk_step : disk → disk → Prop :=
| ds_mkdir d : disk_step d (Disk true (dk_live d) (dk_synced d) (dk_genSynced d))
| ds_other d l :
    dk_stateDir d = true →
    (∀ v, l !! fencingFilename v = live_file d v) →
    disk_step d (set_live d l)
| ds_replace d v m' l :
    dk_stateDir d = true →
    may_replace (live_file d v) m' →
    l !! fencingFilename v = Some (FMark m') →
    (∀ v', v' ≠ v → l !! fencingFilename v' = live_file d v') →
    disk_step d (set_live d l)
| ds_sync_generations d : dk_stateDir d = true → disk_step d (sync_generations d)
| ds_sync_stateDir d : dk_stateDir d = true → disk_step d (sync_stateDir d)
| ds_crash d l :
    (∀ f, l !! f = dk_live d !! f ∨ l !! f = dk_durable d !! f) →
    disk_step d (Disk (dk_stateDir d) l l true).

Abbreviation disk_steps := (rtc disk_step).

(** [file_le f f']: [f'] is [f] or replaced it. *)
Definition file_le (f f' : option file) : Prop :=
  match f, f' with
  | None, _ => True
  | Some (FMark m), Some (FMark m') => rtc mark_succ m m'
  | Some FGarbage, Some FGarbage => True
  | _, _ => False
  end.

#[export] Instance file_le_preorder : PreOrder file_le.
Proof.
  split.
  - by intros [[m|]|]; cbn.
  - intros [[m|]|] [[m1|]|] [[m2|]|]; cbn; try done. intros. by etrans.
Qed.
#[global] Arguments file_le : simpl never.

Definition file_ok (f : option file) : Prop :=
  match f with Some (FMark m) => VolumeUID m ≠ "" → mark_wf m | _ => True end.

Record disk_inv (d : disk) : Prop := {
  inv_stateDir : dk_stateDir d = false → dk_live d = ∅ ∧ dk_synced d = ∅;
  inv_ok v : file_ok (live_file d v) ∧ file_ok (dk_synced d !! fencingFilename v);
  inv_le v : file_le (dk_synced d !! fencingFilename v) (live_file d v);
}.

Lemma may_replace_le old m' : may_replace old m' → file_le old (Some (FMark m')).
Proof. intros [_ H]. unfold file_le. destruct old as [[m|]|]; cbn in *; auto using rtc_once. Qed.

Lemma live_replace d v m' (l : gmap string file) v' :
  may_replace (live_file d v) m' → l !! fencingFilename v = Some (FMark m') →
  (∀ v', v' ≠ v → l !! fencingFilename v' = live_file d v') →
  file_le (live_file d v') (l !! fencingFilename v') ∧
  (file_ok (live_file d v') → file_ok (l !! fencingFilename v')).
Proof.
  intros Hm Hl Ho. destruct (decide (v' = v)) as [->|Hne].
  - rewrite Hl. split; [by apply may_replace_le|]. intros _. cbn. intros _. apply Hm.
  - by rewrite Ho.
Qed.

Lemma durable_synced d v :
  durable_file d v = dk_synced d !! fencingFilename v ∨ durable_file d v = None.
Proof. unfold durable_file, dk_durable. destruct (dk_genSynced d); [by left|right; apply lookup_empty]. Qed.

Lemma disk_step_inv d d' : disk_step d d' → disk_inv d → disk_inv d'.
Proof.
  intros Hs [Hd Hok Hle]. destruct Hs as [d|d l Hst Hl|d v m' l Hst Hm Hl Ho|d Hst|d Hst|d l Hl].
  - split; cbn; [done|apply Hok|apply Hle].
  - split; cbn; [by rewrite Hst|..]; intros v; unfold live_file; cbn; rewrite Hl; auto.
  - split; cbn; [by rewrite Hst|..]; intros v'; unfold live_file; cbn;
      destruct (live_replace d v m' l v' Hm Hl Ho) as [H1 H2].
    + split; [|apply Hok]. apply H2, Hok.
    + etrans; [apply Hle|done].
  - split; cbn; [by rewrite Hst|..]; intros v; [|done]. split; apply Hok.
  - split; cbn; [by rewrite Hst|apply Hok|apply Hle].
  - assert (∀ v, file_ok (l !! fencingFilename v)) as Hk.
    { intros v. destruct (Hl (fencingFilename v)) as [->| ->]; [apply Hok|].
      destruct (durable_synced d v) as [E|E]; unfold durable_file in E; rewrite E; [apply Hok|done]. }
    split; cbn; [|by intros v; split; apply Hk|done].
    intros Hst. destruct (Hd Hst) as [H1 H2].
    assert (l = ∅) as ->; [|done]. apply map_eq. intros f. rewrite lookup_empty.
    destruct (Hl f) as [->| ->]; [by rewrite H1|].
    unfold dk_durable. by destruct (dk_genSynced d); rewrite ?H2.
Qed.

Lemma disk_steps_inv d d' : disk_steps d d' → disk_inv d → disk_inv d'.
Proof. induction 1 as [|d d1 d' Hs _ IH]; eauto using disk_step_inv. Qed.

(** What was durable stays below what is live and what is durable. *)
Definition above (f : option file) (v : string) (d : disk) : Prop :=
  (f ≠ None → dk_genSynced d = true) ∧
  file_le f (live_file d v) ∧ file_le f (durable_file d v).

Lemma above_step f v d d' : disk_step d d' → above f v d → above f v d'.
Proof.
  intros Hs (Hg & Hl & Hd). destruct f as [f|]; [|done].
  specialize (Hg ltac:(done)). unfold above. unfold durable_file, dk_durable in *. rewrite Hg in Hd.
  destruct Hs as [d|d l Hst Hl'|d v' m' l Hst Hm Hl' Ho|d Hst|d Hst|d l Hl'];
    cbn; rewrite ?Hg; (split; [done|]); unfold live_file in *; cbn.
  - done.
  - by rewrite Hl'.
  - split; [|done]. etrans; [exact Hl|]. by apply (live_replace d v' m' l v).
  - done.
  - done.
  - unfold dk_durable in Hl'. rewrite Hg in Hl'.
    assert (file_le (Some f) (l !! fencingFilename v)); [|done].
    by destruct (Hl' (fencingFilename v)) as [->| ->].
Qed.

Lemma durable_above d v : disk_inv d → above (durable_file d v) v d.
Proof.
  intros [_ _ Hle]. unfold above, durable_file, dk_durable. destruct (dk_genSynced d).
  - split_and!; [done|apply Hle|done].
  - rewrite lookup_empty. split_and!; [done..].
Qed.

Lemma durable_le_steps d d' v :
  disk_steps d d' → disk_inv d →
  file_le (durable_file d v) (live_file d' v) ∧ file_le (durable_file d v) (durable_file d' v).
Proof.
  intros Hs Hi. assert (above (durable_file d v) v d') as (_ & ? & ?); [|done].
  generalize (durable_above d v Hi). generalize (durable_file d v). intros f.
  induction Hs as [|d d1 d' Hs _ IH]; [done|]. intros Ha. apply IH.
  - by eapply disk_step_inv.
  - by eapply above_step.
Qed.

(** ** What the storage functions do *)
Section Specs.
Context {B : Type}.
Implicit Types (w : world B) (v : string).

(** [frame w w']: only atomic directory effects, no mark replaced, the
    backends untouched. *)
Record frame w w' : Prop := {
  fr_steps : disk_steps (w_disk w) (w_disk w');
  fr_live v : live_file (w_disk w') v = live_file (w_disk w) v;
  fr_backend : w_backend w' = w_backend w;
  fr_stateDir : dk_stateDir (w_disk w) = true → dk_stateDir (w_disk w') = true;
}.

#[export] Instance frame_preorder : PreOrder frame.
Proof.
  split; [by intros w|]. intros w1 w2 w3 [? H1 ? ?] [? H2 ? ?].
  split; [by etrans|intros; by rewrite H2|congruence|auto].
Qed.

Lemma frame_same w w' : w_disk w' = w_disk w → w_backend w' = w_backend w → frame w w'.
Proof. intros Hd Hb. split; by rewrite ?Hd. Qed.

Lemma frame_step w d' :
  disk_step (w_disk w) d' → (∀ v, live_file d' v = live_file (w_disk w) v) →
  dk_stateDir d' = true → frame w (set_disk w d').
Proof. intros. split; [by apply rtc_once|done..]. Qed.

Lemma wp_syscall (Q : GoResult bool → world B → Prop) w :
  (∀ f w', frame w w' → w_disk w' = w_disk w → Q (Ok f) w') → wp syscall Q w.
Proof.
  intros H. apply wp_of_run. unfold syscall. intros r w'.
  destruct (w_faults w); intros; simplify_eq; apply H; by try apply frame_same.
Qed.

(** Step over the next system call, naming its outcome and the new world. *)
Ltac wsys f w := apply wp_bind, wp_syscall; intros f w ? ?; cbn beta iota.

Lemma openStateRoot_spec w :
  wp openStateRoot (λ r w', frame w w' ∧ (r = Ok tt → dk_stateDir (w_disk w') = true)) w.
Proof.
  unfold openStateRoot. wsys f w1. destruct f; [by apply wp_throw|].
  apply wp_bind, wp_modify. cbn beta iota.
  set (w2 := set_disk w1 _).
  assert (frame w1 w2) by (apply frame_step; [apply ds_mkdir|done..]).
  wsys f w3. assert (frame w w3) by (etrans; [done|]; by etrans).
  assert (dk_stateDir (w_disk w3) = true) by (by replace (w_disk w3) with (w_disk w2)).
  destruct f; [by apply wp_throw|].
  wsys f w4. assert (frame w w4) by (by etrans).
  assert (dk_stateDir (w_disk w4) = true) by congruence.
  destruct f; [by apply wp_throw|by apply wp_ret].
Qed.

Lemma syncDir_spec effect w :
  frame w (set_disk w (effect (w_disk w))) →
  wp (syncDir effect) (λ r w', frame w w' ∧
    (r = Ok tt → w_disk w' = effect (w_disk w))) w.
Proof.
  intros He. unfold syncDir. wsys f w1. destruct f; [by apply wp_throw|].
  wsys f w2. assert (frame w w2) as Hf2 by (by etrans). assert (w_disk w2 = w_disk w) as Hd by congruence.
  apply wp_bind. destruct f.
  - apply wp_ret. wsys f w3. apply wp_throw. split; [by etrans|done].
  - apply wp_modify. rewrite Hd. set (w3 := set_disk w2 _).
    assert (frame w w3).
    { destruct He as [? ? ? ?]. split; [done..|by apply Hf2|done]. }
    wsys f w4. assert (frame w w4) by (by etrans). assert (w_disk w4 = effect (w_disk w)) by done.
    destruct f; [by apply wp_throw|by apply wp_ret].
Qed.

Lemma syncStateDirs_spec w :
  dk_stateDir (w_disk w) = true →
  wp syncStateDirs (λ r w', frame w w' ∧
    (r = Ok tt → ∀ v, durable_file (w_disk w') v = live_file (w_disk w') v)) w.
Proof.
  intros Hst. unfold syncStateDirs. eapply wp_call.
  - apply syncDir_spec, frame_step; [by apply ds_sync_generations|done..].
  - intros [] w1 [Hf1 Hd1]. specialize (Hd1 eq_refl).
    assert (dk_stateDir (w_disk w1) = true) as Hs1 by (by rewrite Hd1).
    eapply wp_mono; [apply syncDir_spec, frame_step; [by apply ds_sync_stateDir|done..]|].
    intros r w2 [Hf2 Hd2]. split; [by etrans|]. intros ->. by rewrite Hd2, Hd1.
  - by intros e w1 [Hf1 _].
Qed.

Lemma frame_tmp w n c :
  dk_stateDir (w_disk w) = true →
  frame w (set_disk w (set_live (w_disk w) (<[tmpName n := c]> (dk_live (w_disk w))))).
Proof.
  intros Hst.
  assert (∀ v, <[tmpName n := c]> (dk_live (w_disk w)) !! fencingFilename v
               = live_file (w_disk w) v) as Hl.
  { intros v. rewrite lookup_insert_ne; [done|]. intros E. by apply (tmpName_ne_filename v n). }
  apply frame_step; [by apply ds_other|exact Hl|done].
Qed.

Lemma writeFileSynced_spec n c w :
  dk_stateDir (w_disk w) = true →
  wp (writeFileSynced (tmpName n) c) (λ r w', frame w w' ∧
    (r = Ok tt → dk_live (w_disk w') !! tmpName n = Some c)) w.
Proof.
  intros Hst. unfold writeFileSynced. wsys f w1. destruct f; [by apply wp_throw|].
  wsys wf w2. wsys sf w3. wsys cf w4.
  assert (frame w w4) by (repeat (etrans; [eassumption|]); done).
  assert (dk_stateDir (w_disk w4) = true) by (repeat match goal with H : w_disk _ = w_disk _ |- _ => rewrite H; clear H end; done).
  apply wp_bind, wp_modify. cbn beta iota.
  set (w5 := set_disk w4 _). assert (frame w w5) by (etrans; [done|]; by apply frame_tmp).
  destruct (orb (orb wf sf) cf) eqn:Ef; [by apply wp_throw|]. apply wp_ret. split; [done|].
  intros _. subst w5. cbn. destruct wf, sf; try done. by rewrite lookup_insert_eq.
Qed.

(** [replaced v m w w']: the mark file of [v], and no other mark, now holds
    [m]. *)
Record replaced v (m : fencingMark) w w' : Prop := {
  rp_steps : disk_steps (w_disk w) (w_disk w');
  rp_live : live_file (w_disk w') v = Some (FMark m);
  rp_other v' : v' ≠ v → live_file (w_disk w') v' = live_file (w_disk w) v';
  rp_backend : w_backend w' = w_backend w;
  rp_stateDir : dk_stateDir (w_disk w') = true;
}.

Lemma replaced_frame v m w1 w2 w3 : frame w1 w2 → replaced v m w2 w3 → replaced v m w1 w3.
Proof.
  intros [? Hl Hb ?] [? ? Ho ? ?]. split; [by etrans|done| |congruence|done].
  intros. by rewrite Ho, Hl.
Qed.

Lemma frame_replaced v m w1 w2 w3 : replaced v m w1 w2 → frame w2 w3 → replaced v m w1 w3.
Proof.
  intros [? Hr Ho Hb ?] [? Hl ? ?]. split; [by etrans|by rewrite Hl| |congruence|auto].
  intros. by rewrite Hl, Ho.
Qed.

Lemma renameFile_spec v m w :
  dk_stateDir (w_disk w) = true → may_replace (live_file (w_disk w) v) m →
  dk_live (w_disk w) !! tmpName (fencingFilename v) = Some (FMark m) →
  wp (renameFile (tmpName (fencingFilename v)) (fencingFilename v)) (λ r w',
    match r with Ok _ => replaced v m w w' | Err _ => frame w w' end) w.
Proof.
  intros Hst Hm Htmp. unfold renameFile. wsys f w1. destruct f; [by apply wp_throw|].
  apply wp_bind, wp_reads. replace (w_disk w1) with (w_disk w) by done. rewrite Htmp.
  apply wp_modify. replace (w_disk w1) with (w_disk w) by done.
  set (l := <[fencingFilename v := _]> _).
  assert (l !! fencingFilename v = Some (FMark m)) as Hl by apply lookup_insert_eq.
  assert (∀ v', v' ≠ v → l !! fencingFilename v' = live_file (w_disk w) v') as Ho.
  { intros v' Hne. unfold l. rewrite lookup_insert_ne.
    - rewrite lookup_delete_ne; [done|]. intros E. by apply (tmpName_ne_filename v' (fencingFilename v)).
    - intros E. by apply (inj fencingFilename) in E. }
  split; [|exact Hl|exact Ho|by apply (fr_backend w w1)|exact Hst].
  apply rtc_once. by eapply ds_replace.
Qed.

Lemma writeFencingMarkOutcome_spec v m w :
  may_replace (live_file (w_disk w) v) m →
  wp (writeFencingMarkOutcome v m) (λ r w',
    ∃ renamed err, r = Ok (renamed, err) ∧
      if renamed : bool
      then replaced v m w w' ∧
           (err = None → durable_file (w_disk w') v = Some (FMark m))
      else err ≠ None ∧ frame w w') w.
Proof.
  intros Hm. unfold writeFencingMarkOutcome.
  apply wp_bind, wp_try. eapply wp_mono; [apply openStateRoot_spec|].
  intros [[]|e] w1 [Hf1 Hs1]; [specialize (Hs1 eq_refl)|apply wp_ret; exists false; eexists; by split].
  apply wp_bind, wp_try. eapply wp_mono; [by apply (writeFileSynced_spec (fencingFilename v))|].
  intros [[]|e] w2 [Hf2 Ht2]; [specialize (Ht2 eq_refl)|apply wp_ret; exists false; eexists; split; [done|split; [done|by etrans]]].
  assert (frame w w2) as Hf by (by etrans).
  apply wp_bind, wp_try. eapply wp_mono.
  { apply renameFile_spec; [by apply Hf2|by rewrite (fr_live _ _ Hf)|done]. }
  intros [[]|e] w3 H3; [|apply wp_ret; exists false; eexists; split; [done|split; [done|by etrans]]].
  assert (replaced v m w w3) as Hr by (by eapply replaced_frame).
  apply wp_bind, wp_try. eapply wp_mono; [apply syncStateDirs_spec, Hr|].
  intros [[]|e] w4 [Hf4 Hd4]; apply wp_ret; exists true; eexists; (split; [done|]);
    (split; [by eapply frame_replaced|]); [|done].
  intros _. rewrite Hd4 by done. rewrite (fr_live _ _ Hf4). apply Hr.
Qed.

(** A successful write is durable; a failed one leaves the old or the new
    mark. *)
Lemma writeFencingMark_spec v m w :
  may_replace (live_file (w_disk w) v) m →
  wp (writeFencingMark v m) (λ r w',
    match r with
    | Ok _ => replaced v m w w' ∧ durable_file (w_disk w') v = Some (FMark m)
    | Err _ => replaced v m w w' ∨ frame w w'
    end) w.
Proof.
  intros Hm. unfold writeFencingMark. eapply wp_call; [by apply writeFencingMarkOutcome_spec| |].
  - intros [renamed err] w1 (? & ? & [= <- <-] & H). cbn.
    destruct err as [e|]; [apply wp_throw|apply wp_ret]; destruct renamed; naive_solver.
  - naive_solver.
Qed.

Lemma persistFencingMark_spec v m changed w :
  (if changed : bool then may_replace (live_file (w_disk w) v) m
   else live_file (w_disk w) v = Some (FMark m)) →
  wp (persistFencingMark v m changed) (λ r w',
    match r with
    | Ok _ => replaced v m w w' ∧ durable_file (w_disk w') v = Some (FMark m)
    | Err _ => replaced v m w w' ∨ frame w w'
    end) w.
Proof.
  intros Hm. unfold persistFencingMark. destruct changed; [by apply writeFencingMark_spec|].
  eapply wp_call; [apply openStateRoot_spec| |by intros e w1 [? _]; right].
  intros [] w1 [Hf1 Hs1]. specialize (Hs1 eq_refl).
  eapply wp_mono; [by apply syncStateDirs_spec|]. intros r w2 [Hf2 Hd2].
  assert (frame w w2) as Hf by (by etrans).
  assert (live_file (w_disk w2) v = Some (FMark m)) as Hl by (by rewrite (fr_live _ _ Hf)).
  destruct r as [[]|e]; [|by right]. rewrite Hd2 by done. split; [|done].
  destruct Hf as [? ? ? ?], Hf2. split; auto.
Qed.

(** Reading returns what the mark file holds; it writes nothing. *)
Lemma readFencingMark_spec v w :
  disk_inv (w_disk w) →
  wp (readFencingMark v) (λ r w', frame w w' ∧ w_disk w' = w_disk w ∧
    match r with
    | Ok (m, true) => live_file (w_disk w) v = Some (FMark m) ∧ mark_wf m
    | Ok (m, false) => live_file (w_disk w) v = None ∧ m = zeroMark
    | Err e => status_code e = Internal
    end) w.
Proof.
  intros [Hd Hok _]. unfold readFencingMark. wsys f w1. destruct f; [by apply wp_throw|].
  apply wp_bind, wp_reads. replace (w_disk w1) with (w_disk w) by done.
  destruct (dk_stateDir (w_disk w)) eqn:Est; cbn.
  2:{ apply wp_ret. destruct (Hd eq_refl) as [E _]. unfold live_file. by rewrite E, lookup_empty. }
  wsys f w2. assert (frame w w2) by (by etrans). assert (w_disk w2 = w_disk w) by congruence.
  destruct f; [by apply wp_throw|].
  specialize (Hok v) as [Hok _]. fold (live_file (w_disk w) v).
  destruct (live_file (w_disk w) v) as [[m|]|] eqn:El; [|by apply wp_throw|by apply wp_ret].
  case_decide; [by apply wp_throw|apply wp_ret]. split_and!; auto.
Qed.
End Specs.
