(* ===== verification/Backend.v ===== *)
(** * The agent's server and the interfaces it is built on

    [VolumeBackend] is internal/agent/backend/backend.go: the methods every
    storage backend has, and the optional interfaces the agent finds by type
    assertion (LVVerifier, LVInspector, LVImporter, VolumeImporter,
    existingFilesystemIdentity) as optional fields.  Methods documented as
    read-only take the backend state and return a result; the others may
    change it.  [Server] is the part of server.go the fenced operations use,
    with the pool and backend lookup functions. *)
From stdpp Require Import base numbers list strings gmap.
From Stdlib Require Import Ascii.
From S2P Require Import Prelude GoStd FencingMark FencingStore.
Open Scope Z_scope.

(** ** Enumerations of the agent API *)

Inductive BackendType :=
| BACKEND_TYPE_UNSPECIFIED | BACKEND_TYPE_ZFS_ZVOL | BACKEND_TYPE_ZFS_DATASET
| BACKEND_TYPE_LVM | BACKEND_TYPE_BLOCK_DEVICE | BACKEND_TYPE_DIRECTORY.
#[export] Instance BackendType_eq_dec : EqDecision BackendType.
Proof. solve_decision. Defined.

Inductive ProtocolType :=
| PROTOCOL_TYPE_UNSPECIFIED | PROTOCOL_TYPE_NVMEOF_TCP | PROTOCOL_TYPE_ISCSI
| PROTOCOL_TYPE_NFS | PROTOCOL_TYPE_SMB.
#[export] Instance ProtocolType_eq_dec : EqDecision ProtocolType.
Proof. solve_decision. Defined.

(** ** Backends *)

(** [backend.DeviceConsumer] *)
Record DeviceConsumer := { dc_Kind : string; dc_Detail : string }.

(** [backend.LVObservation] *)
Record LVObservation := {
  obs_Identity : LVMIdentity;
  obs_Attr : string;
  obs_Segtype : string;
  obs_PoolLV : string;
  obs_Origin : string;
  obs_DevicePath : string;
  obs_DevMajorMinor : string;
  obs_FSType : string;
  obs_FSUUID : string;
  obs_FSProbe : string;
  obs_FSProbeError : string;
  obs_SizeBytes : Z;
  obs_Active : bool;
  obs_ExclusiveClaim : string;
  obs_Consumers : list DeviceConsumer;
  obs_Exports : list DeviceConsumer;
}.

Definition ExclusiveClaimFree : string := "free".
Definition ExclusiveClaimBusy : string := "busy".
Definition ExclusiveClaimUnknown : string := "unknown".

#[export] Instance DeviceConsumer_eq_dec : EqDecision DeviceConsumer.
Proof. solve_decision. Defined.
#[export] Instance LVObservation_eq_dec : EqDecision LVObservation.
Proof. solve_decision. Defined.

(** [backend.VolumeBackend]; [P] is the type of the backend parameters a
    create request passes through to the backend. *)
Record VolumeBackend (B P : Type) := {
  be_Type : BackendType;
  be_Layout : Layout;
  be_DevicePath : string → string;
  be_Create : string → Z → P → M B go_error (string * Z);
  be_Delete : string → M B go_error unit;
  be_Expand : string → Z → M B go_error Z;
  be_Import : option (B → string → Z → string → GoResult (string * Z));
  be_ImportLV : option (B → string → Z → LVMIdentity → GoResult (string * Z));
  be_VerifyLV : option (B → string → LVMIdentity → GoResult unit);
  be_InspectLV : option (B → string → GoResult LVObservation);
  be_ExistingFilesystemIdentity : option (B → string → GoResult (option FilesystemAdoption));
}.
Arguments be_Type {B P}.
Arguments be_Layout {B P}.
Arguments be_DevicePath {B P}.
Arguments be_Create {B P}.
Arguments be_Delete {B P}.
Arguments be_Expand {B P}.
Arguments be_Import {B P}.
Arguments be_ImportLV {B P}.
Arguments be_VerifyLV {B P}.
Arguments be_InspectLV {B P}.
Arguments be_ExistingFilesystemIdentity {B P}.

(** A read of the backend state. *)
Definition query {B A} (q : B → GoResult A) : M B go_error A := λ b, (q b, b).

(** ** Protocol handlers *)

(** Export parameters of the agent API, with the fields the agent reads. *)
Record NvmeofTcpExportParams := {
  np_BindAddress : string; np_Port : Z; np_InCapsuleDataSize : Z; np_MaxDataTransferSize : option Z }.
Record IscsiChap := {
  ic_Username : string; ic_Password : string; ic_MutualUsername : string; ic_MutualPassword : string }.
Record IscsiExportParams := { ip_BindAddress : string; ip_Port : Z; ip_Chap : option IscsiChap }.
Record NfsExportParams := { nfs_Version : string; nfs_BindAddress : string; nfs_Squash : string; nfs_Readonly : bool }.
Record SmbExportParams := { smb_ShareName : string }.

(** The [oneof] of the ExportParams message. *)
Inductive ProtocolParams :=
| PPUnset | PPNvmeofTcp (p : NvmeofTcpExportParams) | PPIscsi (p : IscsiExportParams) | PPNfs (p : NfsExportParams)
| PPSmb (p : SmbExportParams).
Definition GetIscsi (p : ProtocolParams) : option IscsiExportParams :=
  match p with PPIscsi p => Some p | _ => None end.
Definition GetNvmeofTcp (p : ProtocolParams) : option NvmeofTcpExportParams :=
  match p with PPNvmeofTcp p => Some p | _ => None end.
Definition GetNfs (p : ProtocolParams) : option NfsExportParams :=
  match p with PPNfs p => Some p | _ => None end.

(** [ExportParams] *)
Record ExportParams (P : Type) := {
  xp_VolumeID : string;
  xp_DevicePath : string;
  xp_BindAddress : string;
  xp_Port : Z;
  xp_ProtocolParams : ProtocolParams;
  xp_ACLEnabled : bool;
  xp_Fence : option FencingToken;
  xp_FilesystemAdoption : option FilesystemAdoption;
  xp_CapacityBytes : Z;
  xp_BackendParams : P;
}.
Arguments xp_VolumeID {P}.
Arguments xp_DevicePath {P}.
Arguments xp_BindAddress {P}.
Arguments xp_Port {P}.
Arguments xp_ProtocolParams {P}.
Arguments xp_ACLEnabled {P}.
Arguments xp_Fence {P}.
Arguments xp_FilesystemAdoption {P}.
Arguments xp_CapacityBytes {P}.
Arguments xp_BackendParams {P}.

(** [ExportResult] *)
Record ExportResult := { xr_TargetID : string; xr_Address : string; xr_Port : Z; xr_VolumeRef : string }.

(** [ExportDesiredState] *)
Record ExportDesiredState (P : Type) := {
  ds_VolumeID : string;
  ds_DevicePath : string;
  ds_BindAddress : string;
  ds_Port : Z;
  ds_ProtocolParams : ProtocolParams;
  ds_AllowedInitiators : list string;
  ds_ACLEnabled : bool;
  ds_Fence : option FencingToken;
  ds_LocalAttach : bool;
  ds_FilesystemAdoption : option FilesystemAdoption;
  ds_CapacityBytes : Z;
  ds_BackendParams : P;
}.
Arguments ds_VolumeID {P}.
Arguments ds_DevicePath {P}.
Arguments ds_BindAddress {P}.
Arguments ds_Port {P}.
Arguments ds_ProtocolParams {P}.
Arguments ds_AllowedInitiators {P}.
Arguments ds_ACLEnabled {P}.
Arguments ds_Fence {P}.
Arguments ds_LocalAttach {P}.
Arguments ds_FilesystemAdoption {P}.
Arguments ds_CapacityBytes {P}.
Arguments ds_BackendParams {P}.

(** [AgentProtocolHandler]; [Reconcile] returns one error or none per entry. *)
Record AgentProtocolHandler (B P : Type) := {
  Export_ : ExportParams P → Agent B ExportResult;
  Unexport : string → option FencingToken → Agent B unit;
  AllowInitiator : string → string → ProtocolParams → option FencingToken → Agent B unit;
  DenyInitiator : string → string → option FencingToken → Agent B unit;
  SetLocalAttach : string → bool → option FencingToken → Agent B string;
  Reconcile : list (ExportDesiredState P) → Agent B (list (option go_error));
}.
Arguments Export_ {B P}.
Arguments Unexport {B P}.
Arguments AllowInitiator {B P}.
Arguments DenyInitiator {B P}.
Arguments SetLocalAttach {B P}.
Arguments Reconcile {B P}.

(** A path of the kernel's configfs trees: nothing there, an unreadable
    entry, a directory with its sorted entry names, or an attribute with its
    text. *)
Inductive cfs_node := CfsAbsent | CfsUnreadable | CfsDir (names : list string) | CfsAttr (text : string).

(** [Server]: its backends by pool, the variants of a pool serving several
    backend types, whether NFS is available, the protocol handlers, the
    nvmet namespace resize by subsystem NQN, and the configfs tree below
    [configfsRoot] as a function of the backend state. *)
Record Server (B P : Type) := {
  backends : gmap string (VolumeBackend B P);
  backendVariants : gmap string (list (BackendType * VolumeBackend B P));
  nfsManager : bool;
  handlerForProtocol : ProtocolType → GoResult (AgentProtocolHandler B P);
  ResizeNamespace : string → M B go_error unit;
  configfsRoot : string;
  configfs : B → string → cfs_node;
}.
Arguments backends {B P}.
Arguments backendVariants {B P}.
Arguments nfsManager {B P}.
Arguments handlerForProtocol {B P}.
Arguments ResizeNamespace {B P}.
Arguments configfsRoot {B P}.
Arguments configfs {B P}.

(** ** Looking up the backend of a volume *)

Definition poolFromVolumeID (volumeID : string) : GoResult string :=
  let '(pool, _, found) := Cut "/" volumeID in
  if negb found || bool_decide (pool = "") then Err (EStatus InvalidArgument "volumeID: expected <pool>/<name> format")
  else Ok pool.

Section Lookup.
Context {B P : Type} (s : Server B P).

Definition backendFor (volumeID : string) : GoResult (VolumeBackend B P) :=
  pool ← poolFromVolumeID volumeID;
  if (1 <? length (default [] (backendVariants s !! pool)))%nat then
    Err (EStatus FailedPrecondition "volume requires an explicit backend path")
  else
    match backends s !! pool with
    | None => Err (EStatus NotFound "no backend registered for pool")
    | Some b => Ok b
    end.

Definition backendForType (volumeID : string) (requested : BackendType)
    : GoResult (VolumeBackend B P) :=
  pool ← poolFromVolumeID volumeID;
  match backendVariants s !! pool ≫= assoc requested with
  | Some b => Ok b
  | None =>
      match backends s !! pool with
      | None => Err (EStatus NotFound "no backend registered for pool")
      | Some b => Ok b
      end
  end.

(** [verifyPinnedSource]: the LV a mark pins must still be the one the volume
    resolves to in backend state [st]. *)
Definition verifyPinnedSource (volumeID : string) (stored : fencingMark) (st : B) : GoResult unit :=
  match LVMSource stored with
  | None => Ok tt
  | Some pin =>
      match backendForType volumeID BACKEND_TYPE_LVM with
      | Err _ => Err (EStatus FailedPrecondition "no LVM backend serves it to verify the source")
      | Ok b =>
          match be_VerifyLV b with
          | None => Err (EStatus FailedPrecondition "backend cannot verify LV identities")
          | Some verifyLV =>
              match verifyLV st volumeID (identity pin) with
              | Ok _ => Ok tt
              | Err (EImportRefused _) =>
                  Err (EStatus FailedPrecondition "volume no longer resolves to its pinned LV")
              | Err _ => Err (EStatus Internal "verify pinned LV")
              end
          end
      end
  end.
End Lookup.

(** ** Filesystem adoptions *)

Definition filesystemAdoptionKindDirectory : string := "directory".
Definition filesystemAdoptionKindZFSDataset : string := "zfs-dataset".

(** [backend.FilesystemFenceID]: the pool-independent key of an adopted
    filesystem, empty for an invalid descriptor. *)
Definition FilesystemFenceID (a : FilesystemAdoption) : string :=
  if (negb (bool_decide (fa_Kind a = "directory")) && negb (bool_decide (fa_Kind a = "zfs-dataset")))
     || bool_decide (fa_ResourceId a = "") then ""
  else
    "filesystem/" +:+
    hex_encode (sha256 (bytes_of_string (fa_Kind a) ++ [Ascii.zero] ++ bytes_of_string (fa_ResourceId a))).

Definition validDirectoryAdoption (a : FilesystemAdoption) : bool :=
  let source := fa_CanonicalSource a in
  IsAbs source && bool_decide (Clean source = source)
  && negb (bool_decide (fa_FilesystemId a = "")) && negb (fa_Inode a =? 0)
  && negb (fa_ProjectId a =? 0)
  && (bool_decide (fa_FilesystemType a = "ext4") || bool_decide (fa_FilesystemType a = "xfs")).

Definition validZFSDatasetAdoption (a : FilesystemAdoption) : bool :=
  let hostPath := fa_HostPath a in
  bool_decide (fa_FilesystemType a = "zfs")
  && (bool_decide (hostPath = "") || (IsAbs hostPath && bool_decide (Clean hostPath = hostPath))).

Definition filesystemFenceKey (a : FilesystemAdoption) : GoResult string :=
  let key := FilesystemFenceID a in
  if bool_decide (key = "") || bool_decide (fa_CanonicalSource a = "") then
    Err (EStatus InvalidArgument "invalid filesystem adoption descriptor")
  else if bool_decide (fa_Kind a = filesystemAdoptionKindDirectory) then
    if negb (validDirectoryAdoption a) then
      Err (EStatus InvalidArgument "incomplete native directory identity")
    else Ok key
  else if bool_decide (fa_Kind a = filesystemAdoptionKindZFSDataset) then
    if negb (validZFSDatasetAdoption a) then
      Err (EStatus InvalidArgument "invalid native ZFS identity")
    else Ok key
  else Err (EStatus InvalidArgument "unknown filesystem adoption kind").

Definition filesystemBackendType (a : FilesystemAdoption) : BackendType :=
  if bool_decide (fa_Kind a = filesystemAdoptionKindDirectory) then BACKEND_TYPE_DIRECTORY
  else BACKEND_TYPE_ZFS_DATASET.

(** [legacyFilesystemVolumeID]: the managed volume ID an adopted dataset
    would have. *)
Definition legacyFilesystemVolumeID (a : FilesystemAdoption) : GoResult string :=
  if negb (bool_decide (fa_Kind a = filesystemAdoptionKindZFSDataset)) then Ok ""
  else
    let source := fa_CanonicalSource a in
    let parts := Split "/" source in
    if (length parts <? 2)%nat || bool_decide (hd "" parts = "")
       || negb (bool_decide (Clean source = source)) || HasPrefix source "/" then
      Err (EStatus InvalidArgument "invalid native dataset source")
    else Ok (hd "" parts +:+ "/" +:+ List.last parts "").

(** ** Error mapping of server_import.go and server_volume.go *)

Definition insufficientCapacityStatus (err : go_error) : option go_error :=
  match err with
  | EInsufficientCapacity m => Some (EStatus ResourceExhausted m)
  | _ => None
  end.

Definition importVolumeError (err : go_error) : go_error :=
  match err with
  | EImportRefused m => EStatus FailedPrecondition m
  | ELayoutMismatch m => EStatus FailedPrecondition m
  | _ =>
      match insufficientCapacityStatus err with
      | Some e => e
      | None => if is_status err then err else EStatus Internal "ImportVolume"
      end
  end.

Definition createVolumeError (err : go_error) : go_error :=
  match err with
  | EConflict m => EStatus AlreadyExists m
  | ELayoutMismatch m => EStatus FailedPrecondition m
  | _ =>
      match insufficientCapacityStatus err with
      | Some e => e
      | None => if is_status err then err else EStatus Internal "CreateVolume"
      end
  end.
