(* ===== verification/Fencing.v ===== *)
(** * The fenced critical sections (internal/agent/fencing.go)

    [fencedChecked], [fenced], [fencedImport], [retireFence] and
    [recheckFence]: read the mark, admit the token, check, make the next mark
    durable, mutate.  Each runs under the per-volume fencing lock, so it is
    one computation here; what happens between two of them, crashes and
    operations on any volume included, is a sequence of [disk_steps].

    The filesystem-owner guard the sections call (filesystem_legacy.go,
    filesystem_legacy_owner.go) comes first. *)
From stdpp Require Import base numbers list strings gmap relations.
From S2P Require Import Prelude GoStd FencingMark FencingStore Backend.
Open Scope Z_scope.

(** ** Operations *)
Section Ops.
Context {B P : Type} (s : Server B P).

(** [activeZFSFilesystemOwnerMark] on one file of the generations directory. *)
Definition activeZFSFilesystemOwnerMark (filename : string) (contents : file) : Agent B bool :=
  f ← syscall;
  if f : bool then throw (EStatus Internal "read filesystem owner mark")
  else
    match contents with
    | FGarbage => throw (EStatus Internal "invalid filesystem owner mark")
    | FMark mark =>
        if decide (VolumeUID mark = "") then throw (EStatus Internal "invalid filesystem owner mark")
        else
          match Filesystem mark with
          | None => mret false
          | Some a =>
              if Ended mark || negb (bool_decide (fa_Kind a = filesystemAdoptionKindZFSDataset))
              then mret false
              else
                match filesystemFenceKey a with
                | Err _ => throw (EStatus Internal "filesystem owner mark has inconsistent native identity")
                | Ok key =>
                    if bool_decide (fencingFilename key = filename) then mret true
                    else throw (EStatus Internal "filesystem owner mark has inconsistent native identity")
                end
          end
    end.

Definition ownerMarkPrefix : string := TrimSuffix (fencingFilename "filesystem/") fencingSuffix.

(** The directory loop of [hasActiveZFSFilesystemOwner]; a failed system
    call before an entry is a done context. *)
Fixpoint scanOwners (entries : list (string * file)) : Agent B bool :=
  match entries with
  | [] => mret false
  | (name, contents) :: entries =>
      ctxErr ← syscall;
      if ctxErr : bool then throw (EStatus Canceled "context done")
      else if negb (HasPrefix name ownerMarkPrefix) || negb (HasSuffix name fencingSuffix) then
        scanOwners entries
      else
        activeOwner ← activeZFSFilesystemOwnerMark name contents;
        if activeOwner : bool then mret true else scanOwners entries
  end.

Definition hasActiveZFSFilesystemOwner : Agent B bool :=
  f ← syscall;
  d ← reads w_disk;
  if negb (dk_stateDir d) then mret false
  else if f : bool then throw (EStatus Internal "open filesystem owner state")
  else
    r ← try (
      openFails ← syscall;
      if openFails : bool then throw (EStatus Internal "open filesystem owner marks")
      else
        readFails ← syscall;
        closeFails ← syscall;
        if orb readFails closeFails then throw (EStatus Internal "read filesystem owner marks")
        else scanOwners (map_to_list (dk_live d)));
    closeFails ← syscall;
    if closeFails : bool then throw (EStatus Internal "close filesystem owner state") else lift r.

Definition checkLegacyFilesystemOwner (a : FilesystemAdoption) : Agent B unit :=
  volumeID ← lift (legacyFilesystemVolumeID a);
  if decide (volumeID = "") then mret tt
  else
    m ← readFencingMark volumeID;
    let '(mark, exists_) := m in
    if exists_ && negb (Ended mark) && bool_decide (Filesystem mark = None)
       && negb (LegacyRevokeOnly mark) then
      throw (EStatus FailedPrecondition "existing filesystem is owned by a managed dataset lifecycle")
    else mret tt.

(** The refusal of [guardLegacyFilesystem] once the backend type calls for
    it: the native identity of the volume must have no active adopted owner. *)
Definition refuseAdoptedOwner (b : VolumeBackend B P) (volumeID : string) : Agent B unit :=
  match be_ExistingFilesystemIdentity b with
  | None => throw (EStatus Unimplemented "managed filesystem backend cannot resolve existing native identity")
  | Some inspect =>
      r ← try (backend_op (query (λ st, inspect st volumeID)));
      match r with
      | Err e => throw (importVolumeError e)
      | Ok None => mret tt
      | Ok (Some identity) =>
          key ← lift (filesystemFenceKey identity);
          m ← readFencingMark key;
          let '(mark, exists_) := m in
          if exists_ && negb (Ended mark) && bool_decide (Filesystem mark ≠ None) then
            throw (EStatus FailedPrecondition "managed dataset operation conflicts with an active adopted native owner")
          else mret tt
      end
  end.

Definition guardLegacyFilesystem (b : option (VolumeBackend B P)) (volumeID : string) : Agent B unit :=
  match b with
  | None => mret tt
  | Some b =>
      match be_Type b with
      | BACKEND_TYPE_ZFS_DATASET => refuseAdoptedOwner b volumeID
      | BACKEND_TYPE_ZFS_ZVOL =>
          active ← hasActiveZFSFilesystemOwner;
          if active : bool then refuseAdoptedOwner b volumeID else mret tt
      | _ => mret tt
      end
  end.

Definition prepareFencingMark (b : option (VolumeBackend B P)) (volumeID : string)
    (token : option FencingToken) (op : fenceOp) (stored : fencingMark) (exists_ : bool)
    (adm : fenceAdmission) : Agent B fencingMark :=
  (if decide (op ≠ fenceRevoke) then guardLegacyFilesystem b volumeID else mret tt) ;;
  let next := adm_next adm in
  mret
    (match b with
     | Some b =>
         if bool_decide (be_Type b = BACKEND_TYPE_ZFS_DATASET) then
           if bool_decide (op ≠ fenceRevoke) then set_LegacyRevokeOnly next false
           else if negb exists_ || Ended stored
                   || negb (bool_decide (VolumeUID stored = GetVolumeUid token))
           then set_LegacyRevokeOnly next true
           else next
         else next
     | None => next
     end).

Definition checkFencePreconditions (volumeID : string) (op : fenceOp)
    (check : option (fencingMark → B → GoResult unit)) (stored : fencingMark) : Agent B unit :=
  (match check with Some check => backend_op (query (check stored)) | None => mret tt end) ;;
  if decide (op = fenceRevoke) then mret tt
  else backend_op (query (verifyPinnedSource s volumeID stored)).

(** [runFencedMutation].  [A] is what the closure [mutate] assigns in its
    caller; [zero] is its value when the closure does not run. *)
Definition runFencedMutation {A} (volumeID : string) (op : fenceOp) (next : fencingMark)
    (zero : A) (mutate : option (M B go_error A)) : Agent B A :=
  a ← (match mutate with Some mutate => backend_op mutate | None => mret zero end);
  if bool_decide (op = fenceDestroy) && negb (Ended next) then
    writeFencingMark volumeID (set_Ended next) ;; mret a
  else mret a.

Definition fencedChecked {A} (volumeID : string) (token : option FencingToken) (op : fenceOp)
    (b : option (VolumeBackend B P)) (check : option (fencingMark → B → GoResult unit))
    (zero : A) (mutate : option (M B go_error A)) : Agent B A :=
  m ← readFencingMark volumeID;
  let '(stored, exists_) := m in
  let '(adm, err) := admitFencingToken token op stored exists_ in
  match err with
  | Some e => throw e
  | None =>
      if bool_decide (adm_decision adm = FenceAdmitTerminalRetry)
         && bool_decide (op = fenceDestroy) && bool_decide (LVMSource stored ≠ None) then
        persistFencingMark volumeID stored false ;; mret zero
      else
        (if decide (adm_decision adm ≠ FenceAdmitTerminalRetry)
         then checkFencePreconditions volumeID op check stored else mret tt) ;;
        next ← prepareFencingMark b volumeID token op stored exists_ adm;
        persistFencingMark volumeID next
          (adm_changed adm || negb (Bool.eqb (LegacyRevokeOnly next) (LegacyRevokeOnly stored))) ;;
        runFencedMutation volumeID op next zero mutate
  end.

Definition fenced {A} (volumeID : string) (token : option FencingToken) (op : fenceOp)
    (zero : A) (mutate : M B go_error A) : Agent B A :=
  fencedChecked volumeID token op None None zero (Some mutate).

Definition fencedLegacyFilesystem {A} (volumeID : string) (token : option FencingToken)
    (op : fenceOp) (zero : A) (mutate : M B go_error A) : Agent B A :=
  b ← lift (backendForType s volumeID BACKEND_TYPE_ZFS_DATASET);
  fencedChecked volumeID token op (Some b) None zero (Some mutate).

Definition fencedImport {A} (volumeID : string) (token : option FencingToken)
    (src : option markLVMSource) (preserve : bool) (mutate : M B go_error A) : Agent B A :=
  m ← readFencingMark volumeID;
  let '(stored, exists_) := m in
  let '(adm, err) := admitFencingToken token fenceGrant stored exists_ in
  match err with
  | Some e => throw e
  | None =>
      next ← lift (pinImportSource (adm_next adm) stored src preserve);
      a ← backend_op mutate;
      let changed := negb exists_ || negb (equalMarks next stored) in
      persistFencingMark volumeID next changed ;; mret a
  end.

(** [retireFence] returns [owned] together with its error. *)
Definition retireFence (volumeID : string) (token : option FencingToken) (unexported : bool)
    (check : option (fencingMark → B → GoResult unit)) : Agent B bool :=
  m ← readFencingMark volumeID;
  let '(stored, exists_) := m in
  let uid := GetVolumeUid token in
  if decide (uid = "") then
    match (admitFencingToken token fenceDestroy stored exists_).2 with
    | Some e => throw e
    | None => mret false
    end
  else if negb exists_ then
    writeFencingMark volumeID (mark_of uid (GetGeneration token) true [uid] None false) ;;
    mret false
  else if containsb (EndedUIDs stored) uid then mret false
  else if decide (uid ≠ VolumeUID stored) then
    writeFencingMark volumeID (set_EndedUIDs stored (EndedUIDs stored ++ [uid])) ;;
    mret false
  else
    let '(adm, err) := admitFencingToken token fenceRevoke stored exists_ in
    match err with
    | Some e => throw e
    | None =>
        if negb unexported then mret true
        else
          (match check with Some check => backend_op (query (check stored)) | None => mret tt end) ;;
          writeFencingMark volumeID
            (set_EndedUIDs (set_Ended (adm_next adm)) (EndedUIDs stored ++ [uid])) ;;
          mret false
    end.

Definition recheckFence {A} (volumeID : string) (token : option FencingToken) (op : fenceOp)
    (mutate : M B go_error A) : Agent B A :=
  m ← readFencingMark volumeID;
  let '(stored, exists_) := m in
  let '(adm, err) := admitFencingToken token op stored exists_ in
  match err with
  | Some e => throw e
  | None =>
      if adm_changed adm then throw (EStatus FailedPrecondition "fencing mark changed since the operation was admitted")
      else
        (if decide (op ≠ fenceRevoke) then
           if decide (adm_decision adm ≠ FenceAdmitTerminalRetry)
           then backend_op (query (verifyPinnedSource s volumeID stored)) else mret tt
         else mret tt) ;;
        backend_op mutate
  end.
End Ops.
