(* ===== verification/FencingCorrect.v ===== *)
(** * Correctness of the fenced critical sections

    Every critical section of Fencing is characterised by its outcome: which
    marks were replaced, whether the mutation ran, and on which durable mark.
    FencingTheorems combines these outcomes with the order on marks. *)
From stdpp Require Import base numbers list strings gmap relations.
From S2P Require Import Prelude GoStd FencingMark FencingStore Backend Fencing.
Open Scope Z_scope.

(** ** Read-only code *)
Section ReadOnly.
Context {B : Type}.
Implicit Types w : world B.

(** [quiet w w']: nothing but failure outcomes was consumed. *)
Definition quiet w w' : Prop := w_disk w' = w_disk w ∧ w_backend w' = w_backend w.

#[export] Instance quiet_preorder : PreOrder quiet.
Proof. split; [by intros w|]. intros w1 w2 w3 [??] [??]. split; congruence. Qed.

Lemma quiet_frame w w' : quiet w w' → frame w w'.
Proof. intros [??]. by apply frame_same. Qed.

(** Computations that only read. *)
Definition ro {A} (m : Agent B A) : Prop := ∀ w, wp m (λ _ w', quiet w w') w.

Lemma ro_ret {A} (a : A) : ro (mret a).
Proof. by intros w; apply wp_ret. Qed.
Lemma ro_throw {A} e : ro (throw e : Agent B A).
Proof. by intros w; apply wp_throw. Qed.
Lemma ro_lift {A} (r : GoResult A) : ro (lift r).
Proof. by intros w; apply wp_lift. Qed.
Lemma ro_reads {A} (f : world B → A) : ro (reads f).
Proof. by intros w; apply wp_reads. Qed.
Lemma ro_syscall : ro syscall.
Proof. intros w. apply wp_syscall. intros f w' Hf ?. split; [done|apply Hf]. Qed.
Lemma ro_query {A} (q : B → GoResult A) : ro (backend_op (query q)).
Proof. by intros w. Qed.
Lemma ro_bind {A C} (m : Agent B A) (f : A → Agent B C) : ro m → (∀ a, ro (f a)) → ro (m ≫= f).
Proof.
  intros Hm Hf w. eapply wp_call; [apply Hm| |by intros].
  intros a w1 H1. eapply wp_mono; [apply Hf|]. intros r w2 H2. exact (transitivity H1 H2).
Qed.
Lemma ro_try {A} (m : Agent B A) : ro m → ro (try m).
Proof. intros Hm w. apply wp_try, Hm. Qed.
Lemma ro_readFencingMark v : ro (readFencingMark v).
Proof.
  apply ro_bind; [apply ro_syscall|]. intros []; [apply ro_throw|].
  apply ro_bind; [apply ro_reads|]. intros d. destruct (negb _); [apply ro_ret|].
  apply ro_bind; [apply ro_syscall|]. intros []; [apply ro_throw|].
  destruct (_ !! _) as [[m|]|]; [|apply ro_throw|apply ro_ret].
  case_decide; [apply ro_throw|apply ro_ret].
Qed.
End ReadOnly.

Create HintDb ro.
#[export] Hint Resolve ro_ret ro_throw ro_lift ro_reads ro_syscall ro_query ro_readFencingMark : ro.

(** Decide that a computation only reads by following its control flow. *)
Ltac ro_solve :=
  repeat (intros; cbn beta iota zeta;
    lazymatch goal with
    | |- ro (mbind _ _) => apply ro_bind
    | |- ro (try _) => apply ro_try
    | |- ro (if ?b then _ else _) => destruct b
    | |- ro (match ?x with _ => _ end) => destruct x
    | |- ro _ => solve [auto with ro]
    end).

Section Guard.
Context {B P : Type}.

Lemma ro_activeZFSFilesystemOwnerMark n c : ro (B := B) (activeZFSFilesystemOwnerMark n c).
Proof. unfold activeZFSFilesystemOwnerMark. ro_solve. Qed.
#[local] Hint Resolve ro_activeZFSFilesystemOwnerMark : ro.

Lemma ro_scanOwners l : ro (B := B) (scanOwners l).
Proof. induction l as [|[n c] l IH]; cbn [scanOwners]; ro_solve; done. Qed.
#[local] Hint Resolve ro_scanOwners : ro.

Lemma ro_hasActiveZFSFilesystemOwner : ro (B := B) hasActiveZFSFilesystemOwner.
Proof. unfold hasActiveZFSFilesystemOwner. ro_solve. Qed.
#[local] Hint Resolve ro_hasActiveZFSFilesystemOwner : ro.

Lemma ro_refuseAdoptedOwner (b : VolumeBackend B P) v : ro (refuseAdoptedOwner b v).
Proof. unfold refuseAdoptedOwner. ro_solve. Qed.
#[local] Hint Resolve ro_refuseAdoptedOwner : ro.

Lemma ro_guardLegacyFilesystem (b : option (VolumeBackend B P)) v : ro (guardLegacyFilesystem b v).
Proof. unfold guardLegacyFilesystem. ro_solve. Qed.

Lemma ro_checkLegacyFilesystemOwner a : ro (B := B) (checkLegacyFilesystemOwner a).
Proof. unfold checkLegacyFilesystemOwner. ro_solve. Qed.
End Guard.
#[export] Hint Resolve ro_hasActiveZFSFilesystemOwner ro_guardLegacyFilesystem
  ro_checkLegacyFilesystemOwner : ro.

(** ** Marks *)

(** The mark a volume has on the running agent. *)
Definition live_mark (d : disk) (v : string) : option fencingMark :=
  match live_file d v with Some (FMark m) => Some m | _ => None end.

(** [next] is the mark a token admitted against [m] makes durable. *)
Record admitted_next (token : option FencingToken) (op : fenceOp) (m : option fencingMark)
    (next : fencingMark) : Prop := {
  an_admitted : is_ok (admits token op m) = true;
  an_nonempty : GetVolumeUid token ≠ "";
  an_uid : VolumeUID next = GetVolumeUid token;
  an_gen : Generation next = GetGeneration token;
  an_fresh m0 : m = Some m0 → GetVolumeUid token ∉ EndedUIDs m0;
  an_grant : op = fenceGrant → Ended next = false;
  an_owner m0 : m = Some m0 → Ended m0 = false → VolumeUID m0 = GetVolumeUid token;
  an_wf : mark_wf next;
  an_succ m0 : m = Some m0 → mark_succ m0 next;
}.

Lemma admitted_mark_next token op m next :
  GetVolumeUid token ≠ "" →
  admitted_mark (GetVolumeUid token) (GetGeneration token) op m next →
  (∀ m0, m = Some m0 → mark_wf m0) → admitted_next token op m next.
Proof.
  intros Hu Ha Hw.
  assert (is_ok (admits token op m) = true) as Hok
    by (by destruct (admits_complete token op m next Hu Ha) as (adm & -> & _)).
  assert (mark_wf next) by eauto with fence.
  assert (∀ m0, m = Some m0 → mark_succ m0 next) by (intros m0 ->; eauto with fence).
  destruct m as [m|]; cbn in Ha; [|subst next; by split].
  destruct Ha as (Hni & [(Ho & He & ? & ->)|[(Ho & He & ? & Hg & ->)|(Hne & He & r & -> & _)]]);
    split; cbn; try done; intros; simplify_eq; try congruence; try naive_solver.
Qed.

Lemma admitted_next_revokeOnly token op m next b :
  admitted_next token op m next → admitted_next token op m (set_LegacyRevokeOnly next b).
Proof. intros []. split; cbn; auto with fence. Qed.

Lemma admitted_next_replace token op d v next :
  admitted_next token op (live_mark d v) next → live_file d v ≠ Some FGarbage →
  may_replace (live_file d v) next.
Proof.
  intros Ha Hg. split; [apply Ha|]. pose proof (an_succ _ _ _ _ Ha) as Hs. unfold live_mark in Hs.
  destruct (live_file d v) as [[m|]|]; auto.
Qed.

(** The decision of an admission matches the mark it leaves. *)
Lemma admits_terminal token op m adm :
  admits token op m = Ok adm →
  adm_decision adm = FenceAdmitTerminalRetry ↔ Ended (adm_next adm) = true.
Proof.
  unfold admits, admitFencingToken. case_decide; [done|]. destruct m as [m|]; cbn.
  2:{ by intros [= <-]. }
  destruct (containsb _ _); [done|]. case_decide; destruct (Ended m) eqn:Ee; cbn.
  - by intros [= <-].
  - done.
  - destruct (_ || _); [done|]. by intros [= <-].
  - destruct (_ <? _); [done|]. destruct (_ =? _); intros [= <-]; cbn; by rewrite Ee.
Qed.

Lemma admits_terminal_stored token op m adm :
  admits token op m = Ok adm → adm_decision adm = FenceAdmitTerminalRetry →
  m = Some (adm_next adm).
Proof.
  unfold admits, admitFencingToken. case_decide; [done|]. destruct m as [m|]; cbn.
  2:{ by intros [= <-]. }
  destruct (containsb _ _); [done|]. case_decide; destruct (Ended m) eqn:Ee; cbn.
  - by intros [= <-].
  - done.
  - destruct (_ || _); [done|]. by intros [= <-].
  - destruct (_ <? _); [done|]. destruct (_ =? _); by intros [= <-].
Qed.

(** Rejections are FailedPrecondition; so are pin refusals, and a pinned
    source that cannot be verified is FailedPrecondition or Internal. *)
Lemma admits_Err_code token op m e : admits token op m = Err e → status_code e = FailedPrecondition.
Proof.
  unfold admits, admitFencingToken. repeat (case_match || case_decide); intros; by simplify_eq/=.
Qed.

Lemma pinImportSource_Err_code next m src preserve e :
  pinImportSource next m src preserve = Err e → status_code e = FailedPrecondition.
Proof. unfold pinImportSource. repeat case_match; intros; by simplify_eq/=. Qed.

Lemma verifyPinnedSource_Err_code {B P} (s : Server B P) v m b e :
  verifyPinnedSource s v m b = Err e →
  status_code e = FailedPrecondition ∨ status_code e = Internal.
Proof. unfold verifyPinnedSource. repeat case_match; intros; simplify_eq/=; auto. Qed.

(** ** Outcomes *)
Section Outcomes.
Context {B P : Type} (s : Server B P).
Implicit Types (w : world B) (v : string).

(** The read and the admission every critical section starts with. *)
Lemma read_spec v w :
  disk_inv (w_disk w) →
  wp (readFencingMark v) (λ r w', quiet w w' ∧
    match r with
    | Ok (stored, ex) =>
        live_file (w_disk w) v ≠ Some FGarbage ∧
        stored = default zeroMark (live_mark (w_disk w) v) ∧
        ex = bool_decide (is_Some (live_mark (w_disk w) v)) ∧
        (∀ m, live_mark (w_disk w) v = Some m → mark_wf m)
    | Err e => status_code e = Internal
    end) w.
Proof.
  intros Hi. eapply wp_mono; [by apply readFencingMark_spec|]. cbn.
  intros r w' (Hf & Hd & Hr). split; [split; [done|apply Hf]|].
  unfold live_mark. destruct r as [[m []]|]; [| |done].
  - destruct Hr as [-> ?]. split_and!; [done..|]. intros; by simplify_eq.
  - destruct Hr as [-> ->]. by split_and!.
Qed.

(** The precondition checks passed in backend state [b]. *)
Definition passed (v : string) (op : fenceOp) (check : option (fencingMark → B → GoResult unit))
    (stored : fencingMark) (b : B) : Prop :=
  (∀ c, check = Some c → c stored b = Ok tt) ∧
  (op ≠ fenceRevoke → verifyPinnedSource s v stored b = Ok tt).

Lemma checkFencePreconditions_spec v op check stored w :
  wp (checkFencePreconditions s v op check stored) (λ r w', quiet w w' ∧
    (r = Ok tt → passed v op check stored (w_backend w))) w.
Proof.
  unfold checkFencePreconditions.
  assert (ro (match check with Some c => backend_op (query (c stored)) | None => mret tt end)) as Hro
    by ro_solve.
  eapply (wp_call _ _ (λ r w', quiet w w' ∧ (r = Ok tt → ∀ c, check = Some c → c stored (w_backend w) = Ok tt))).
  - destruct check as [c|]; [|by apply wp_ret].
    apply wp_of_run. unfold backend_op, query. intros r w' [= <- <-]. split; [done|].
    intros. by simplify_eq.
  - intros [] w1 [Hq Hc]. specialize (Hc eq_refl). case_decide as Hop; [by apply wp_ret|].
    apply wp_of_run. unfold backend_op, query. intros r w' [= <- <-]. split; [done|].
    destruct Hq as [_ ->]. by split.
  - by intros e w1 [? _].
Qed.

Lemma prepareFencingMark_spec b v token op stored ex adm w :
  wp (prepareFencingMark (P := P) b v token op stored ex adm) (λ r w', quiet w w' ∧
    ∀ next, r = Ok next → next = adm_next adm ∨ ∃ f, next = set_LegacyRevokeOnly (adm_next adm) f) w.
Proof.
  unfold prepareFencingMark.
  assert (ro (if decide (op ≠ fenceRevoke) then guardLegacyFilesystem b v else mret tt)) as Hro by ro_solve.
  eapply wp_call; [apply Hro| |by intros]. intros [] w1 Hq. apply wp_ret. split; [done|].
  intros next [= <-]. destruct b as [b|]; [|by left].
  destruct (bool_decide (_ = BACKEND_TYPE_ZFS_DATASET)); [|by left].
  destruct (bool_decide (op ≠ _)); [by eauto|]. destruct (_ || _); eauto.
Qed.

(** What a mutation that ran left. *)
Definition ran {A} v op next (zero : A) (mutate : option (M B go_error A)) w1
    (r : GoResult A) w' : Prop :=
  let res := match mutate with Some f => f (w_backend w1) | None => (Ok zero, w_backend w1) end in
  w_backend w' = res.2 ∧ disk_steps (w_disk w1) (w_disk w') ∧
  match res.1 with
  | Err e => r = Err e ∧ w_disk w' = w_disk w1
  | Ok a =>
      if bool_decide (op = fenceDestroy) && negb (Ended next) then
        (r = Ok a ∧ durable_file (w_disk w') v = Some (FMark (set_Ended next))) ∨ ∃ e, r = Err e
      else r = Ok a ∧ w_disk w' = w_disk w1
  end.

Lemma runFencedMutation_spec {A} v op next (zero : A) mutate w :
  live_file (w_disk w) v = Some (FMark next) → mark_wf next →
  wp (runFencedMutation v op next zero mutate) (ran v op next zero mutate w) w.
Proof.
  intros Hl Hw. unfold runFencedMutation, ran.
  set (res := match mutate with Some f => f (w_backend w) | None => (Ok zero, w_backend w) end).
  eapply (wp_call _ _ (λ r w', r = res.1 ∧ w_disk w' = w_disk w ∧ w_backend w' = res.2)).
  - subst res. destruct mutate as [f|]; [|by apply wp_ret]. apply wp_of_run.
    unfold backend_op. destruct (f (w_backend w)) as [r0 b0]. by intros r w' [= <- <-].
  - intros a w1 (<- & Hd & Hb). destruct (_ && _).
    + eapply wp_call; [apply writeFencingMark_spec| |].
      * unfold live_file in *. rewrite Hd, Hl. split; auto with fence.
      * intros [] w2 [Hr Hdur]. apply wp_ret. rewrite <-Hb, <-(rp_backend _ _ _ _ Hr), <-Hd.
        split_and!; [done|apply Hr|by left].
      * intros e w2 [Hr|Hr]; rewrite <-Hb, <-Hd; (split_and!; [by destruct Hr|by destruct Hr|right; eauto]).
    + apply wp_ret. rewrite Hd. by split_and!.
  - intros e w1 (<- & Hd & Hb). rewrite Hd. by split_and!.
Qed.

Inductive fenced_outcome {A} v token op check (zero : A) mutate w : GoResult A → world B → Prop :=
| fo_unreadable e w' :
    quiet w w' → status_code e = Internal →
    fenced_outcome v token op check zero mutate w (Err e) w'
| fo_rejected e w' :
    quiet w w' → admits token op (live_mark (w_disk w) v) = Err e →
    fenced_outcome v token op check zero mutate w (Err e) w'
| fo_refused e w' :
    quiet w w' → is_ok (admits token op (live_mark (w_disk w) v)) = true →
    fenced_outcome v token op check zero mutate w (Err e) w'
| fo_replayed m r w' :
    is_ok (admits token op (live_mark (w_disk w) v)) = true →
    live_mark (w_disk w) v = Some m → VolumeUID m = GetVolumeUid token →
    Generation m = GetGeneration token → Ended m = true → LVMSource m ≠ None → op = fenceDestroy →
    w_backend w' = w_backend w → replaced v m w w' ∨ frame w w' →
    (r = Ok zero ∧ durable_file (w_disk w') v = Some (FMark m)) ∨ (∃ e, r = Err e) →
    fenced_outcome v token op check zero mutate w r w'
| fo_unpersisted next e w' :
    admitted_next token op (live_mark (w_disk w) v) next →
    replaced v next w w' ∨ frame w w' →
    fenced_outcome v token op check zero mutate w (Err e) w'
| fo_ran next w1 r w' :
    admitted_next token op (live_mark (w_disk w) v) next →
    (Ended next = false → passed v op check (default zeroMark (live_mark (w_disk w) v)) (w_backend w)) →
    (Ended next = true → op = fenceDestroy → LVMSource next = None) →
    replaced v next w w1 → durable_file (w_disk w1) v = Some (FMark next) →
    ran v op next zero mutate w1 r w' →
    fenced_outcome v token op check zero mutate w r w'.

Lemma set_LegacyRevokeOnly_same m : set_LegacyRevokeOnly m (LegacyRevokeOnly m) = m.
Proof. by destruct m. Qed.

(** The admission code of a critical section is [admits] of the live mark. *)
Lemma admit_eq token op m :
  admitFencingToken token op (default zeroMark m) (bool_decide (is_Some m)) =
  match admits token op m with
  | Ok adm => (adm, None)
  | Err e => ((admitFencingToken token op (default zeroMark m) (bool_decide (is_Some m))).1, Some e)
  end.
Proof. unfold admits. by destruct (admitFencingToken _ _ _ _) as [adm [e|]]. Qed.

Lemma persist_next v token op adm next w :
  admits token op (live_mark (w_disk w) v) = Ok adm →
  (∀ m, live_mark (w_disk w) v = Some m → mark_wf m) → live_file (w_disk w) v ≠ Some FGarbage →
  next = adm_next adm ∨ (∃ f, next = set_LegacyRevokeOnly (adm_next adm) f) →
  let stored := default zeroMark (live_mark (w_disk w) v) in
  let changed := adm_changed adm || negb (Bool.eqb (LegacyRevokeOnly next) (LegacyRevokeOnly stored)) in
  admitted_next token op (live_mark (w_disk w) v) next ∧
  if changed then may_replace (live_file (w_disk w) v) next
  else live_file (w_disk w) v = Some (FMark next).
Proof.
  intros Ha Hw Hg Hn stored changed. destruct (admits_sound _ _ _ _ Ha) as (Hu & Hm & Hc).
  assert (admitted_next token op (live_mark (w_disk w) v) next) as Hnext.
  { pose proof (admitted_mark_next _ _ _ _ Hu Hm Hw).
    destruct Hn as [->|[f ->]]; auto using admitted_next_revokeOnly. }
  split; [done|]. subst changed. destruct (adm_changed adm); cbn; [by eapply admitted_next_replace|].
  specialize (Hc eq_refl). subst stored. rewrite Hc. cbn.
  destruct (Bool.eqb _ _) eqn:Ee; cbn; [|by eapply admitted_next_replace].
  assert (next = adm_next adm) as ->.
  { destruct Hn as [?|[f ->]]; [done|]. cbn in Ee. apply Bool.eqb_prop in Ee as ->.
    apply set_LegacyRevokeOnly_same. }
  unfold live_mark in Hc. by destruct (live_file (w_disk w) v) as [[m|]|]; simplify_eq.
Qed.

Lemma quiet_live w w' : quiet w w' → live_mark (w_disk w') = live_mark (w_disk w).
Proof. by intros [-> _]. Qed.

(** After an admission that is not a pinned terminal retry. *)
Lemma fencedChecked_admitted {A} v token op b check (zero : A) mutate adm w0 w :
  quiet w0 w → admits token op (live_mark (w_disk w0) v) = Ok adm →
  live_file (w_disk w0) v ≠ Some FGarbage →
  (∀ m, live_mark (w_disk w0) v = Some m → mark_wf m) →
  (adm_decision adm = FenceAdmitTerminalRetry → op = fenceDestroy →
   LVMSource (default zeroMark (live_mark (w_disk w0) v)) = None) →
  let stored := default zeroMark (live_mark (w_disk w0) v) in
  let ex := bool_decide (is_Some (live_mark (w_disk w0) v)) in
  wp ((if decide (adm_decision adm ≠ FenceAdmitTerminalRetry)
       then checkFencePreconditions s v op check stored else mret tt) ;;
      next ← prepareFencingMark (P := P) b v token op stored ex adm;
      persistFencingMark v next
        (adm_changed adm || negb (Bool.eqb (LegacyRevokeOnly next) (LegacyRevokeOnly stored))) ;;
      runFencedMutation v op next zero mutate)
    (fenced_outcome v token op check zero mutate w0) w.
Proof.
  intros Hq Ha Hg Hw Hpin stored ex.
  assert (is_ok (admits token op (live_mark (w_disk w0) v)) = true) as Hok by (by rewrite Ha).
  eapply (wp_call _ _ (λ r w', quiet w w' ∧ (r = Ok tt → adm_decision adm ≠ FenceAdmitTerminalRetry →
    passed v op check stored (w_backend w0)))).
  { case_decide; [|by apply wp_ret]. eapply wp_mono; [apply checkFencePreconditions_spec|].
    cbn. intros r w' [? Hp]. split; [done|]. intros. destruct Hq as [_ <-]. auto. }
  2:{ intros e w1 [Hq1 _]. apply fo_refused; [by etrans|done]. }
  intros [] w1 [Hq1 Hp]. specialize (Hp eq_refl).
  assert (quiet w0 w1) as Hq01 by (by etrans).
  eapply wp_call; [apply prepareFencingMark_spec| |].
  2:{ intros e w2 [Hq2 _]. apply fo_refused; [by etrans|done]. }
  intros next w2 [Hq2 Hn]. specialize (Hn _ eq_refl). assert (quiet w0 w2) as Hq02 by (by etrans).
  destruct (persist_next v token op adm next w0 Ha Hw Hg Hn) as [Hnext Hpre].
  assert (frame w0 w2) as Hf2 by (by apply quiet_frame).
  eapply wp_call; [apply persistFencingMark_spec|..].
  { destruct Hq02 as [-> _]. exact Hpre. }
  - intros [] w3 [Hr Hd]. assert (replaced v next w0 w3) as Hr0 by (by eapply replaced_frame).
    eapply wp_mono; [apply runFencedMutation_spec; [apply Hr|apply Hnext]|].
    intros r w4 Hran. eapply fo_ran; [done|..|done|done|done].
    + intros He. apply Hp. rewrite (admits_terminal _ _ _ _ Ha).
      destruct Hn as [->|[f ->]]; cbn in He; by rewrite He.
    + intros He Hop. destruct (decide (adm_decision adm = FenceAdmitTerminalRetry)) as [Ht|Ht].
      * pose proof (Hpin Ht Hop) as Hl. rewrite (admits_terminal_stored _ _ _ _ Ha Ht) in Hl.
        destruct Hn as [->|[f ->]]; done.
      * rewrite (admits_terminal _ _ _ _ Ha) in Ht. destruct Hn as [->|[f ->]]; done.
  - intros e w3 [Hr|Hr]; eapply fo_unpersisted; try done;
      [left; by eapply replaced_frame|right; by etrans].
Qed.

Lemma fencedChecked_spec {A} v token op b check (zero : A) mutate w :
  disk_inv (w_disk w) →
  wp (fencedChecked s v token op b check zero mutate)
     (fenced_outcome v token op check zero mutate w) w.
Proof.
  intros Hi. unfold fencedChecked. eapply wp_call; [by apply read_spec| |].
  2:{ intros e w1 [??]. by apply fo_unreadable. }
  intros [stored ex] w1 (Hq & Hg & -> & -> & Hw). cbn beta iota.
  rewrite admit_eq. destruct (admits token op (live_mark (w_disk w) v)) as [adm|e] eqn:Ha.
  2:{ by apply wp_throw, fo_rejected. }
  destruct (bool_decide (adm_decision adm = _)) eqn:Et;
    [apply bool_decide_eq_true in Et|apply bool_decide_eq_false in Et];
    [|apply fencedChecked_admitted; auto; naive_solver].
  destruct (bool_decide (op = fenceDestroy)) eqn:Eo;
    [apply bool_decide_eq_true in Eo|apply bool_decide_eq_false in Eo];
    [|apply fencedChecked_admitted; auto; naive_solver].
  destruct (bool_decide (LVMSource _ ≠ None)) eqn:El;
    [apply bool_decide_eq_true in El|apply bool_decide_eq_false in El; apply dec_stable in El];
    [|apply fencedChecked_admitted; auto; naive_solver].
  cbn [andb]. pose proof (admits_terminal_stored _ _ _ _ Ha Et) as Hs. rewrite Hs in *.
  change (default zeroMark (Some (adm_next adm))) with (adm_next adm) in *.
  destruct (admits_sound _ _ _ _ Ha) as (Hu & Hm & _).
  pose proof (admitted_mark_next _ _ _ _ Hu Hm Hw) as Hn.
  apply (admits_terminal _ _ _ _ Ha) in Et.
  assert (live_file (w_disk w) v = Some (FMark (adm_next adm))) as Hl.
  { unfold live_mark in Hs. by destruct (live_file (w_disk w) v) as [[m|]|]; simplify_eq. }
  apply quiet_frame in Hq as Hf.
  eapply wp_call; [apply persistFencingMark_spec|..]; [by rewrite <-Hl; apply Hf|..].
  - intros [] w2 [Hr Hd]. apply wp_ret. pose proof (replaced_frame _ _ _ _ _ Hf Hr).
    eapply fo_replayed; try done; [by rewrite Hs; apply Hn|apply Hn|apply Hn|etrans; [apply Hr|apply Hf]|by left|by left].
  - intros e w2 Hr. eapply fo_replayed; try done; [by rewrite Hs; apply Hn|apply Hn|apply Hn|..|by right; eauto].
    + destruct Hq as [_ <-]. by destruct Hr as [[]|[]].
    + destruct Hr; [left; by eapply replaced_frame|right; by etrans].
Qed.

(** *** Imports *)

(** The mark a successful import leaves: admitted, and pinned. *)
Definition import_next token (m : option fencingMark) src preserve next : Prop :=
  admitted_next token fenceGrant m next ∧
  let stored := default zeroMark m in
  LVMSource next = match LVMSource stored with Some p => Some p | None => src end ∧
  (∀ p, LVMSource stored = Some p → src = Some p) ∧
  (LVMSource stored ≠ None → PreserveOriginal stored = true → preserve = true) ∧
  PreserveOriginal next = PreserveOriginal stored || (bool_decide (src ≠ None) && preserve).

Lemma admitted_next_pin token m next src preserve pinned :
  admitted_next token fenceGrant m next →
  pinImportSource next (default zeroMark m) src preserve = Ok pinned →
  import_next token m src preserve pinned.
Proof.
  intros Ha Hp. pose proof Ha as []. destruct (pinImportSource_Ok _ _ _ _ _ Hp) as [-> Hs].
  split; [split; cbn; try done|cbn; naive_solver].
  - eapply pinImportSource_wf, Hp. done.
  - intros m0 ->. eapply pinImportSource_succ; [|exact Hp]. auto.
Qed.

Lemma equalMarks_pin m src preserve :
  equalMarks (set_pin m src preserve) m = true → set_pin m src preserve = m.
Proof.
  unfold equalMarks. cbn. rewrite !andb_true_iff. intros [[[_ Hs] Hp] _].
  apply equalLVMSource_eq in Hs. apply Bool.eqb_prop in Hp. destruct m. cbn in *. by subst.
Qed.

Lemma import_persist v token src preserve adm next w :
  admits token fenceGrant (live_mark (w_disk w) v) = Ok adm →
  (∀ m, live_mark (w_disk w) v = Some m → mark_wf m) → live_file (w_disk w) v ≠ Some FGarbage →
  pinImportSource (adm_next adm) (default zeroMark (live_mark (w_disk w) v)) src preserve = Ok next →
  let changed := negb (bool_decide (is_Some (live_mark (w_disk w) v)))
                 || negb (equalMarks next (default zeroMark (live_mark (w_disk w) v))) in
  import_next token (live_mark (w_disk w) v) src preserve next ∧
  if changed then may_replace (live_file (w_disk w) v) next
  else live_file (w_disk w) v = Some (FMark next).
Proof.
  intros Ha Hw Hg Hp changed. destruct (admits_sound _ _ _ _ Ha) as (Hu & Hm & _).
  assert (import_next token (live_mark (w_disk w) v) src preserve next) as Hi.
  { eapply admitted_next_pin, Hp. by apply admitted_mark_next. }
  split; [done|]. destruct changed eqn:Ec; [eapply admitted_next_replace; [apply Hi|done]|].
  subst changed. apply orb_false_iff in Ec as [E1 E2].
  apply negb_false_iff in E1, E2. apply bool_decide_eq_true in E1 as [m E1].
  rewrite E1 in *. cbn in E2, Hp, Hm. destruct (pinImportSource_Ok _ _ _ _ _ Hp) as [-> _].
  assert (adm_next adm = m) as Hn.
  { unfold equalMarks in E2. rewrite !andb_true_iff in E2.
    destruct E2 as [[[[[[Eu Eg] Ee] _] _] _] _]. cbn in Eu, Eg, Ee.
    apply bool_decide_eq_true in Eu. apply Z.eqb_eq in Eg. apply Bool.eqb_prop in Ee.
    destruct Hm as (_ & [(_ & _ & _ & E)|[(_ & _ & ? & _)|(? & _ & r & E & _)]]); [|done|by rewrite E in Eu; cbn in Eu].
    rewrite E in Eg. cbn in Eg. rewrite E, Eg. apply set_Generation_same. }
  rewrite Hn in *. apply equalMarks_pin in E2 as ->.
  unfold live_mark in E1. by destruct (live_file (w_disk w) v) as [[m'|]|]; simplify_eq.
Qed.

Inductive import_outcome {A} v token src preserve (mutate : M B go_error A) w
    : GoResult A → world B → Prop :=
| io_refused e w' :
    w_disk w' = w_disk w → w_backend w' = w_backend w →
    status_code e = FailedPrecondition ∨ status_code e = Internal →
    import_outcome v token src preserve mutate w (Err e) w'
| io_failed e w' :
    w_disk w' = w_disk w → mutate (w_backend w) = (Err e, w_backend w') →
    is_ok (admits token fenceGrant (live_mark (w_disk w) v)) = true →
    import_outcome v token src preserve mutate w (Err e) w'
| io_unpersisted a next e w' :
    mutate (w_backend w) = (Ok a, w_backend w') →
    import_next token (live_mark (w_disk w) v) src preserve next →
    disk_steps (w_disk w) (w_disk w') →
    (live_file (w_disk w') v = Some (FMark next) ∨ live_file (w_disk w') v = live_file (w_disk w) v) →
    (∀ v', v' ≠ v → live_file (w_disk w') v' = live_file (w_disk w) v') →
    import_outcome v token src preserve mutate w (Err e) w'
| io_adopted a next w' :
    mutate (w_backend w) = (Ok a, w_backend w') →
    import_next token (live_mark (w_disk w) v) src preserve next →
    disk_steps (w_disk w) (w_disk w') →
    live_file (w_disk w') v = Some (FMark next) →
    (∀ v', v' ≠ v → live_file (w_disk w') v' = live_file (w_disk w) v') →
    durable_file (w_disk w') v = Some (FMark next) →
    import_outcome v token src preserve mutate w (Ok a) w'.

Lemma fencedImport_spec {A} v token src preserve (mutate : M B go_error A) w :
  disk_inv (w_disk w) →
  wp (fencedImport v token src preserve mutate)
     (import_outcome v token src preserve mutate w) w.
Proof.
  intros Hi. unfold fencedImport. eapply wp_call; [by apply read_spec| |].
  2:{ intros e w1 [[??] ?]. by apply io_refused; auto. }
  intros [stored ex] w1 ([Hd Hb] & Hg & -> & -> & Hw). cbn beta iota.
  rewrite admit_eq. destruct (admits token fenceGrant (live_mark (w_disk w) v)) as [adm|e] eqn:Ha.
  2:{ apply wp_throw, io_refused; [done..|]. left. by eapply admits_Err_code. }
  apply wp_bind, wp_lift. destruct (pinImportSource _ _ _ _) as [next|e] eqn:Hp.
  2:{ apply io_refused; [done..|]. left. by eapply pinImportSource_Err_code. }
  destruct (import_persist v token src preserve adm next w Ha Hw Hg Hp) as [Hn Hpre].
  apply wp_bind. apply wp_of_run. unfold backend_op. rewrite Hb.
  destruct (mutate (w_backend w)) as [[a|e] b] eqn:Em; intros r w2 [= <- <-].
  2:{ apply io_failed; [done..|by rewrite Ha]. }
  eapply wp_call; [apply persistFencingMark_spec|..]; [by cbn; rewrite Hd|..]; cbn.
  - intros [] w2 [[Hs Hl Ho Hbk _] Hdur]. cbn in *. rewrite Hd in *.
    apply wp_ret. eapply io_adopted; try done. by rewrite Hbk.
  - intros e w2 [[Hs Hl Ho Hbk _]|[Hs Hl Hbk _]]; cbn in *; rewrite Hd in *;
      (eapply io_unpersisted; [by rewrite Hbk|done..|eauto|eauto]).
Qed.

(** *** Retirement *)

Lemma retired_owner_wf m uid :
  mark_wf m → uid ∉ EndedUIDs m → mark_wf (set_EndedUIDs (set_Ended m) (EndedUIDs m ++ [uid])).
Proof.
  intros [? Hnd ?] Hni. split; cbn; [done| |done].
  apply NoDup_app. split_and!; [done|set_solver|apply NoDup_singleton].
Qed.

Lemma retired_other_wf m uid :
  mark_wf m → uid ∉ EndedUIDs m → uid ≠ VolumeUID m →
  mark_wf (set_EndedUIDs m (EndedUIDs m ++ [uid])).
Proof.
  intros [? Hnd Ho] Hni Hne. split; cbn; [done| |].
  - apply NoDup_app. split_and!; [done|set_solver|apply NoDup_singleton].
  - intros He. specialize (Ho He). set_solver.
Qed.

Lemma retired_other_succ m uid : mark_succ m (set_EndedUIDs m (EndedUIDs m ++ [uid])).
Proof. split; cbn; auto; [left; split_and!; auto with lia|set_solver]. Qed.

Lemma retired_owner_succ m m' uid :
  mark_succ m m' → VolumeUID m' = VolumeUID m → EndedUIDs m' = EndedUIDs m →
  mark_succ m (set_EndedUIDs (set_Ended m') (EndedUIDs m ++ [uid])).
Proof.
  intros [Ho ? ? ?] Hu He. split; cbn; auto; [|set_solver].
  left. destruct Ho as [(_ & ? & _)|(? & _)]; [by split_and!|done].
Qed.

(** [retireFence] writes at most the retirement of the token's lifecycle. *)
Inductive retire_outcome v token unexported (check : option (fencingMark → B → GoResult unit)) w
    : GoResult bool → world B → Prop :=
| ro_refused e w' :
    quiet w w' → retire_outcome v token unexported check w (Err e) w'
| ro_owned m w' :
    quiet w w' → unexported = false → live_mark (w_disk w) v = Some m →
    VolumeUID m = GetVolumeUid token →
    retire_outcome v token unexported check w (Ok true) w'
| ro_already m w' :
    quiet w w' → live_mark (w_disk w) v = Some m → GetVolumeUid token ∈ EndedUIDs m →
    retire_outcome v token unexported check w (Ok false) w'
| ro_unpersisted next e w' :
    may_replace (live_file (w_disk w) v) next → GetVolumeUid token ∈ EndedUIDs next →
    replaced v next w w' ∨ frame w w' →
    retire_outcome v token unexported check w (Err e) w'
| ro_retired next w' :
    may_replace (live_file (w_disk w) v) next → GetVolumeUid token ∈ EndedUIDs next →
    (∀ m c, live_mark (w_disk w) v = Some m → VolumeUID m = GetVolumeUid token →
       unexported = true ∧ (check = Some c → c m (w_backend w) = Ok tt)) →
    (∀ m, live_mark (w_disk w) v = Some m →
       VolumeUID next = VolumeUID m ∧ (VolumeUID m ≠ GetVolumeUid token → Ended next = Ended m)) →
    replaced v next w w' → durable_file (w_disk w') v = Some (FMark next) →
    retire_outcome v token unexported check w (Ok false) w'.

Lemma retire_write v token unexported check next w0 w :
  quiet w0 w → may_replace (live_file (w_disk w0) v) next → GetVolumeUid token ∈ EndedUIDs next →
  (∀ m c, live_mark (w_disk w0) v = Some m → VolumeUID m = GetVolumeUid token →
       unexported = true ∧ (check = Some c → c m (w_backend w0) = Ok tt)) →
  (∀ m, live_mark (w_disk w0) v = Some m →
       VolumeUID next = VolumeUID m ∧ (VolumeUID m ≠ GetVolumeUid token → Ended next = Ended m)) →
  wp (writeFencingMark v next ;; mret false) (retire_outcome v token unexported check w0) w.
Proof.
  intros Hq Hm Hin Hc Ho. apply quiet_frame in Hq as Hf.
  eapply wp_call; [apply writeFencingMark_spec|..].
  { by destruct Hq as [-> _]. }
  - intros [] w1 [Hr Hd]. apply wp_ret. eapply ro_retired; try done. by eapply replaced_frame.
  - intros e w1 Hr. eapply ro_unpersisted; try done.
    destruct Hr; [left; by eapply replaced_frame|right; by etrans].
Qed.

Lemma retireFence_spec v token unexported check w :
  disk_inv (w_disk w) →
  wp (retireFence v token unexported check) (retire_outcome v token unexported check w) w.
Proof.
  intros Hi. unfold retireFence. eapply wp_call; [by apply read_spec| |].
  2:{ intros e w1 [? _]. by apply ro_refused. }
  intros [stored ex] w1 (Hq & Hg & -> & -> & Hw). cbn beta iota zeta.
  case_decide as Hu.
  { unfold admitFencingToken. rewrite decide_True by done. by apply wp_throw, ro_refused. }
  unfold live_mark in *. destruct (live_file (w_disk w) v) as [[m|]|] eqn:El; [|done|]; cbn -[admitFencingToken].
  2:{ apply retire_write; rewrite ?El; unfold live_mark; rewrite ?El; try done; [|by left].
      split; [|done]. split; cbn; [done|apply NoDup_singleton|done]. }
  specialize (Hw m eq_refl).
  assert (live_mark (w_disk w) v = Some m) as Hlm by (unfold live_mark; by rewrite El).
  destruct (containsb _ _) eqn:Ec; [apply containsb_true in Ec; by apply wp_ret; eapply ro_already|].
  apply containsb_false in Ec. case_decide as Ho.
  { apply retire_write; rewrite ?El, ?Hlm; try done; [|cbn; set_solver|naive_solver|naive_solver].
    split; [by apply retired_other_wf|apply retired_other_succ]. }
  pose proof (admit_eq token fenceRevoke (Some m)) as Ha.
  cbn -[admitFencingToken] in Ha. rewrite Ha. clear Ha.
  destruct (admits token fenceRevoke (Some m)) as [adm|e] eqn:Ha; [|by apply wp_throw, ro_refused].
  destruct unexported; cbn [negb]; [|by apply wp_ret; eapply ro_owned].
  destruct (admits_sound _ _ _ _ Ha) as (_ & Hm & _).
  pose proof (admitted_mark_next _ _ _ (adm_next adm) Hu Hm ltac:(naive_solver)) as Hn.
  assert (EndedUIDs (adm_next adm) = EndedUIDs m) as He.
  { destruct Hm as (_ & [(_ & _ & _ & ->)|[(_ & _ & _ & _ & ->)|(? & _)]]); naive_solver. }
  eapply (wp_call _ _ (λ r w', quiet w w' ∧ (r = Ok tt → ∀ c, check = Some c → c m (w_backend w) = Ok tt))).
  - destruct check as [c|]; [|by apply wp_ret]. apply wp_of_run. unfold backend_op, query.
    intros r w' [= <- <-]. split; [done|]. destruct Hq as [_ ->]. naive_solver.
  - intros [] w2 [Hq2 Hc]. specialize (Hc eq_refl).
    apply retire_write; rewrite ?El, ?Hlm; try done; [|cbn; set_solver|naive_solver|].
    + pose proof (an_uid _ _ _ _ Hn). split; [|apply retired_owner_succ; [by apply Hn|congruence|done]].
      rewrite <-He. apply retired_owner_wf; [apply Hn|by rewrite He].
    + intros m' [= <-]. cbn. rewrite (an_uid _ _ _ _ Hn). naive_solver.
  - intros e w2 [? _]. by apply ro_refused.
Qed.

(** *** Rechecks *)

Lemma recheckFence_spec {A} v token op (mutate : M B go_error A) w :
  disk_inv (w_disk w) →
  wp (recheckFence s v token op mutate) (λ r w', w_disk w' = w_disk w ∧
    ((∃ e, r = Err e ∧ w_backend w' = w_backend w ∧
           (status_code e = FailedPrecondition ∨ status_code e = Internal)) ∨
     (∃ m, live_mark (w_disk w) v = Some m ∧ admitted_next token op (Some m) m ∧
           (op ≠ fenceRevoke → Ended m = false → verifyPinnedSource s v m (w_backend w) = Ok tt) ∧
           mutate (w_backend w) = (r, w_backend w')))) w.
Proof.
  intros Hi. unfold recheckFence. eapply wp_call; [by apply read_spec| |].
  2:{ intros e w1 [[??] ?]. split; eauto 10. }
  intros [stored ex] w1 ([Hd Hb] & Hg & -> & -> & Hw). cbn beta iota zeta.
  rewrite admit_eq. destruct (admits token op (live_mark (w_disk w) v)) as [adm|e] eqn:Ha.
  2:{ apply wp_throw. apply admits_Err_code in Ha. split; eauto 10. }
  destruct (admits_sound _ _ _ _ Ha) as (Hu & Hm & Hc).
  destruct (adm_changed adm); [apply wp_throw; split; eauto 10|]. specialize (Hc eq_refl).
  pose proof (admitted_mark_next _ _ _ _ Hu Hm Hw) as Hn. rewrite Hc in *.
  change (default zeroMark (Some (adm_next adm))) with (adm_next adm).
  eapply (wp_call _ _ (λ r w', w_disk w' = w_disk w ∧ w_backend w' = w_backend w ∧
    (r = Ok tt → op ≠ fenceRevoke → Ended (adm_next adm) = false →
     verifyPinnedSource s v (adm_next adm) (w_backend w) = Ok tt) ∧
    (∀ e, r = Err e → status_code e = FailedPrecondition ∨ status_code e = Internal))).
  - pose proof (admits_terminal _ _ _ _ Ha) as Ht.
    case_decide; [|by apply wp_ret]. case_decide as Hterm.
    + apply wp_of_run. unfold backend_op, query. intros r w' [= <- <-]. rewrite Hb.
      split_and!; [done..|]. by intros e ?%verifyPinnedSource_Err_code.
    + apply wp_ret. apply Ht in Hterm. rewrite Hterm. by split_and!.
  - intros [] w2 (Hd2 & Hb2 & Hv & _). specialize (Hv eq_refl). apply wp_of_run. unfold backend_op.
    rewrite Hb2. destruct (mutate (w_backend w)) as [r0 b0] eqn:Em. intros r w' [= <- <-].
    split; [done|]. right. exists (adm_next adm). by split_and!.
  - intros e w2 (? & ? & _ & He). split; eauto 10.
Qed.
End Outcomes.
