(* ===== verification/AgentServer.v ===== *)
(** * The agent's volume RPCs

    server_volume.go, server_import.go, server_release.go and target_id.go:
    CreateVolume, DeleteVolume, ExpandVolume, ImportVolume and ReleaseVolume
    on top of the fenced critical sections, with their policy checks and
    error mapping.  Requests that name an adopted filesystem take the path of
    server_filesystem.go, an interface here ([FilesystemService]). *)
From stdpp Require Import base numbers list strings gmap relations.
From Stdlib Require Import Ascii.
From S2P Require Import Prelude GoStd FencingMark FencingStore Backend Fencing.
Open Scope Z_scope.

(** ** Requests and responses *)

Record CreateVolumeRequest (P : Type) := {
  cr_VolumeId : string;
  cr_CapacityBytes : Z;
  cr_BackendType : BackendType;
  cr_BackendParams : P;
  cr_Fence : option FencingToken;
}.
Arguments cr_VolumeId {P}.
Arguments cr_CapacityBytes {P}.
Arguments cr_BackendType {P}.
Arguments cr_BackendParams {P}.
Arguments cr_Fence {P}.

Record DeleteVolumeRequest := {
  dr_VolumeId : string;
  dr_BackendType : BackendType;
  dr_Fence : option FencingToken;
  dr_FilesystemAdoption : option FilesystemAdoption;
}.

Record ExpandVolumeRequest := {
  er_VolumeId : string;
  er_RequestedBytes : Z;
  er_BackendType : BackendType;
  er_Fence : option FencingToken;
}.

Record ImportVolumeRequest (P : Type) := {
  ir_VolumeId : string;
  ir_CapacityBytes : Z;
  ir_BackendType : BackendType;
  ir_Fence : option FencingToken;
  ir_ExpectedDataset : string;
  ir_ExpectedLvmSource : option LVMIdentity;
  ir_PreserveOriginal : option bool;
  ir_FilesystemAdoption : option FilesystemAdoption;
  ir_BackendParams : P;
}.
Arguments ir_VolumeId {P}.
Arguments ir_CapacityBytes {P}.
Arguments ir_BackendType {P}.
Arguments ir_Fence {P}.
Arguments ir_ExpectedDataset {P}.
Arguments ir_ExpectedLvmSource {P}.
Arguments ir_PreserveOriginal {P}.
Arguments ir_FilesystemAdoption {P}.
Arguments ir_BackendParams {P}.

Record ReleaseVolumeRequest := {
  rr_VolumeId : string;
  rr_ProtocolType : ProtocolType;
  rr_Fence : option FencingToken;
  rr_FilesystemAdoption : option FilesystemAdoption;
}.

(** The operations of server_filesystem.go the handlers hand over to. *)
Record FilesystemService (B P : Type) := {
  releaseFilesystem : string → FilesystemAdoption → option FencingToken → bool → Agent B unit;
  importFilesystem : ImportVolumeRequest P → Agent B (string * Z);
}.
Arguments releaseFilesystem {B P}.
Arguments importFilesystem {B P}.

(** ** Target identifiers *)

Definition nqnPrefix : string := "nqn.2026-01.com.bhyoo.pillar-csi:".
Definition OwnedIQNPrefix : string := "iqn.2026-01.com.bhyoo.pillar-csi:".
Definition MaxIQNLength : nat := 223.
Definition TPGName : string := "tpgt_1".
Definition DefaultConfigfsRoot : string := "/sys/kernel/config".

Definition volumeTargetID (protocol : ProtocolType) (volumeID : string) : GoResult string :=
  match protocol with
  | PROTOCOL_TYPE_NVMEOF_TCP => Ok (nqnPrefix +:+ ReplaceAll "/" "." volumeID)
  | PROTOCOL_TYPE_ISCSI =>
      let iqn := OwnedIQNPrefix +:+ ReplaceAll "/" "." volumeID in
      if (MaxIQNLength <? String.length iqn)%nat
      then Err (EStatus InvalidArgument "target IQN longer than the iSCSI limit")
      else Ok iqn
  | PROTOCOL_TYPE_UNSPECIFIED => Err (EStatus InvalidArgument "volumeTargetID: protocol_type is required")
  | _ => Err (EStatus Unimplemented "volumeTargetID: target ID derivation is not implemented")
  end.

(** [ownTargetIDs] of server_inspect.go *)
Definition ownTargetIDs (volumeID : string) : list string :=
  omap (λ p, match volumeTargetID p volumeID with Ok id => Some id | Err _ => None end)
       [PROTOCOL_TYPE_NVMEOF_TCP; PROTOCOL_TYPE_ISCSI].

(** ** Checks *)

Definition refusePinnedCreate {B} (stored : fencingMark) (_ : B) : GoResult unit :=
  match LVMSource stored with
  | None => Ok tt
  | Some _ => Err (EStatus FailedPrecondition "the volume ID is pinned to an adopted LV; it is never provisioned")
  end.

Definition refusePreserved {B} (stored : fencingMark) (_ : B) : GoResult unit :=
  if negb (PreserveOriginal stored) then Ok tt
  else Err (EStatus FailedPrecondition "the adopted LV is pinned PreserveOriginal").

Definition checkBackendType (requested configured : BackendType) : GoResult unit :=
  match requested with
  | BACKEND_TYPE_ZFS_ZVOL | BACKEND_TYPE_ZFS_DATASET | BACKEND_TYPE_LVM | BACKEND_TYPE_DIRECTORY =>
      if decide (requested ≠ configured)
      then Err (EStatus InvalidArgument "backend_type does not match the pool's configured backend")
      else Ok tt
  | BACKEND_TYPE_UNSPECIFIED => Err (EStatus InvalidArgument "backend_type is required")
  | BACKEND_TYPE_BLOCK_DEVICE => Err (EStatus Unimplemented "unsupported backend type")
  end.

Definition protocolRPCError (err : go_error) : go_error :=
  if is_status err then err else EPlain "protocol handler".

(** Run [m] with its error mapped by [f]. *)
Definition map_err {W A} (f : go_error → go_error) (m : M W go_error A) : M W go_error A :=
  r ← try m;
  match r with Ok a => mret a | Err e => throw (f e) end.

(** ** Handlers *)
Section Handlers.
Context {B P : Type} (s : Server B P) (fs : FilesystemService B P).

Definition CreateVolume (req : CreateVolumeRequest P) : Agent B (string * Z) :=
  b ← lift (backendForType s (cr_VolumeId req) (cr_BackendType req));
  _ ← lift (checkBackendType (cr_BackendType req) (be_Type b));
  fencedChecked s (cr_VolumeId req) (cr_Fence req) fenceGrant (Some b) (Some refusePinnedCreate)
    (""%string, 0)
    (Some (map_err createVolumeError
             (be_Create b (cr_VolumeId req) (cr_CapacityBytes req) (cr_BackendParams req)))).

Definition DeleteVolume (req : DeleteVolumeRequest) : Agent B unit :=
  match dr_FilesystemAdoption req with
  | Some a =>
      if decide (dr_BackendType req ≠ filesystemBackendType a)
      then throw (EStatus InvalidArgument "filesystem delete backend type mismatch")
      else releaseFilesystem fs (dr_VolumeId req) a (dr_Fence req) true
  | None =>
      b ← lift (backendForType s (dr_VolumeId req) (dr_BackendType req));
      _ ← lift (checkBackendType (dr_BackendType req) (be_Type b));
      (if decide (be_Type b = BACKEND_TYPE_ZFS_DATASET) then
         if negb (nfsManager s) then throw (EStatus Unavailable "NFS protocol is unavailable on this agent")
         else
           h ← map_err protocolRPCError (lift (handlerForProtocol s PROTOCOL_TYPE_NFS));
           map_err protocolRPCError (Unexport h (dr_VolumeId req) (dr_Fence req))
       else mret tt) ;;
      fencedChecked s (dr_VolumeId req) (dr_Fence req) fenceDestroy (Some b) (Some refusePreserved) tt
        (Some (map_err (λ _, EStatus Internal "DeleteVolume") (be_Delete b (dr_VolumeId req))))
  end.

(** [revalidateNamespace] resizes the volume's NVMe namespace. *)
Definition revalidateNamespace (volumeID : string) : M B go_error unit :=
  nqn ← map_err (λ _, EStatus Internal "derive target NQN")
          (lift (volumeTargetID PROTOCOL_TYPE_NVMEOF_TCP volumeID));
  map_err (λ _, EStatus Internal "revalidate NVMe namespace") (ResizeNamespace s nqn).

Definition expandVolumeError (err : go_error) : go_error :=
  match insufficientCapacityStatus err with
  | Some e => e
  | None => EStatus Internal "ExpandVolume"
  end.

Definition ExpandVolume (req : ExpandVolumeRequest) : Agent B Z :=
  b ← lift (backendForType s (er_VolumeId req) (er_BackendType req));
  _ ← lift (checkBackendType (er_BackendType req) (be_Type b));
  fencedChecked s (er_VolumeId req) (er_Fence req) fenceGrant (Some b) (Some refusePreserved) 0
    (Some (allocated ← map_err expandVolumeError (be_Expand b (er_VolumeId req) (er_RequestedBytes req));
           if decide (be_Type b = BACKEND_TYPE_ZFS_DATASET) then mret allocated
           else revalidateNamespace (er_VolumeId req) ;; mret allocated)).

Definition completeIdentity (i : LVMIdentity) : bool :=
  negb (bool_decide (li_VolumeGroup i = "") || bool_decide (li_LogicalVolume i = "")
        || bool_decide (li_VolumeGroupUUID i = "") || bool_decide (li_LogicalVolumeUUID i = "")).

Definition importLV (req : ImportVolumeRequest P) (b : VolumeBackend B P) : Agent B (string * Z) :=
  match ir_ExpectedLvmSource req with
  | None => throw (EStatus InvalidArgument "expected_lvm_source is required for BACKEND_TYPE_LVM")
  | Some expected =>
      if negb (completeIdentity expected) then
        throw (EStatus InvalidArgument "expected_lvm_source is incomplete")
      else if decide (ir_ExpectedDataset req ≠ "") then
        throw (EStatus InvalidArgument "expected_dataset is not valid for BACKEND_TYPE_LVM")
      else
        match be_ImportLV b with
        | None => throw (EStatus Unimplemented "backend cannot adopt existing LVs")
        | Some import =>
            let src := markLVMSourceFromProto (Some expected) in
            let preserve := match ir_PreserveOriginal req with None => true | Some p => p end in
            fencedImport (ir_VolumeId req) (ir_Fence req) src preserve
              (map_err importVolumeError
                 (query (λ st, import st (ir_VolumeId req) (ir_CapacityBytes req)
                                 (from_option identity expected src))))
        end
  end.

Definition ImportVolume (req : ImportVolumeRequest P) : Agent B (string * Z) :=
  match ir_FilesystemAdoption req with
  | Some _ =>
      if bool_decide (ir_ExpectedLvmSource req ≠ None) then
        throw (EStatus InvalidArgument "expected_lvm_source is only valid for BACKEND_TYPE_LVM")
      else importFilesystem fs req
  | None =>
      b ← lift (backendForType s (ir_VolumeId req) (ir_BackendType req));
      _ ← lift (checkBackendType (ir_BackendType req) (be_Type b));
      if decide (be_Type b = BACKEND_TYPE_LVM) then importLV req b
      else if bool_decide (ir_ExpectedLvmSource req ≠ None) then
        throw (EStatus InvalidArgument "expected_lvm_source is only valid for BACKEND_TYPE_LVM")
      else
        match be_Import b with
        | None => throw (EStatus Unimplemented "backend cannot adopt existing volumes")
        | Some import =>
            fencedImport (ir_VolumeId req) (ir_Fence req) None false
              (map_err importVolumeError
                 (query (λ st, import st (ir_VolumeId req) (ir_CapacityBytes req) (ir_ExpectedDataset req))))
        end
  end.

(** *** Release *)

Definition refuseIdle (reason : string) : GoResult unit :=
  Err (EStatus FailedPrecondition ("preserved LV is not proven idle: " +:+ reason)).

Definition verifyPreservedIdle (volumeID : string) (pin : markLVMSource) (st : B) : GoResult unit :=
  match backendForType s volumeID BACKEND_TYPE_LVM with
  | Err _ => refuseIdle "no LVM backend serves the volume"
  | Ok b =>
      match be_InspectLV b with
      | None => refuseIdle "backend cannot observe LV consumers"
      | Some inspectLV =>
          match inspectLV st volumeID with
          | Err _ => refuseIdle "consumer probe failed"
          | Ok obs =>
              if decide (obs_Identity obs ≠ identity pin) then refuseIdle "observed identity differs"
              else if negb (obs_Active obs) then refuseIdle "the LV is inactive"
              else if decide (obs_ExclusiveClaim obs ≠ ExclusiveClaimFree) then refuseIdle "exclusive claim"
              else if (0 <? length (obs_Consumers obs))%nat then refuseIdle "local consumers"
              else if (0 <? length (obs_Exports obs))%nat then refuseIdle "configured exports"
              else Ok tt
          end
      end
  end.

Definition verifyPinnedRelease (volumeID : string) (stored : fencingMark) (st : B) : GoResult unit :=
  match LVMSource stored with
  | None => Ok tt
  | Some pin =>
      verifyPinnedSource s volumeID stored st ≫= λ _,
      if negb (PreserveOriginal stored) then Ok tt else verifyPreservedIdle volumeID pin st
  end.

(** The loop of [ReleaseVolume]; [None] when [fuel] rounds were not enough. *)
Fixpoint releaseLoop (fuel : nat) (volumeID : string) (fence : option FencingToken)
    (protocol : ProtocolType) (unexported : bool) : Agent B (option unit) :=
  match fuel with
  | O => mret None
  | S fuel =>
      owned ← retireFence volumeID fence unexported (Some (verifyPinnedRelease volumeID));
      if negb owned then mret (Some tt)
      else
        h ← map_err protocolRPCError (lift (handlerForProtocol s protocol));
        map_err protocolRPCError (Unexport h volumeID fence) ;;
        releaseLoop fuel volumeID fence protocol true
  end.

Definition ReleaseVolume (fuel : nat) (req : ReleaseVolumeRequest) : Agent B (option unit) :=
  match rr_FilesystemAdoption req with
  | Some a =>
      releaseFilesystem fs (rr_VolumeId req) a (rr_Fence req) false ;; mret (Some tt)
  | None => releaseLoop fuel (rr_VolumeId req) (rr_Fence req) (rr_ProtocolType req) false
  end.

(** *** The iSCSI handler's Unexport

    [remove] is [lio.Target.Remove] of the target with the given IQN. *)
Definition ErrTargetNotFound : go_error := EPlain "iSCSI target not found".
Definition ErrDeviceHeld : go_error := EPlain "backend device is held exclusively on the storage node".

Definition iscsiStatus (err : go_error) : go_error :=
  if decide (err = ErrTargetNotFound) then EStatus NotFound "volume is not exported"
  else if decide (err = ErrDeviceHeld) then EStatus FailedPrecondition "device is held"
  else EStatus Internal "iSCSI".

Definition targetForVolume (volumeID : string) : GoResult string :=
  _ ← poolFromVolumeID volumeID;
  volumeTargetID PROTOCOL_TYPE_ISCSI volumeID.

Definition iscsiUnexport (remove : string → M B go_error unit) (volumeID : string)
    (fence : option FencingToken) : Agent B unit :=
  iqn ← lift (targetForVolume volumeID);
  fenced s volumeID fence fenceRevoke tt (map_err iscsiStatus (remove iqn)).
End Handlers.
