(* ===== verification/RecoveryAuth.v ===== *)
(** * Signed recovery payloads (internal/recoveryauth)

    The snapshot an agent signs, the authorization an operator signs, and
    their verification: required fields, time windows, signatures and the
    binding of an authorization to one snapshot.

    [Lib] holds what the package takes from elsewhere: the deterministic
    protobuf encoding, the validity test of protobuf timestamps, and RSA and
    ECDSA signature verification.  Times are nanoseconds. *)
From stdpp Require Import base numbers list strings.
From S2P Require Import Prelude GoStd FencingMark Backend.
Open Scope Z_scope.

(** ** Payloads *)

Record Timestamp := { ts_Seconds : Z; ts_Nanos : Z }.
#[export] Instance Timestamp_eq_dec : EqDecision Timestamp.
Proof. solve_decision. Defined.

(** [Timestamp.AsTime], in nanoseconds since the epoch. *)
Definition AsTime (t : Timestamp) : Z := ts_Seconds t * 1000000000 + ts_Nanos t.

Record ExportObservation := {
  eo_TargetId : string;
  eo_NamespaceEnabled : bool;
  eo_AclEnabled : bool;
  eo_AllowedHosts : list string;
}.
#[export] Instance ExportObservation_eq_dec : EqDecision ExportObservation.
Proof. solve_decision. Defined.

Record FenceObservation := {
  fo_Exists : bool;
  fo_VolumeUid : string;
  fo_Generation : Z;
  fo_Ended : bool;
  fo_EndedUids : list string;
  fo_PreserveOriginal : bool;
  fo_LvmSource : option LVMIdentity;
  fo_Transfer : markTransfer;
}.
#[export] Instance FenceObservation_eq_dec : EqDecision FenceObservation.
Proof. solve_decision. Defined.

Record RecoverySnapshot := {
  sn_VolumeId : string;
  sn_BackendType : BackendType;
  sn_LvmSource : option LVMIdentity;
  sn_OldVolumeUid : string;
  sn_OldGeneration : Z;
  sn_PreserveOriginal : bool;
  sn_ExclusiveClaim : string;
  sn_Consumers : list DeviceConsumer;
  sn_Exports : list ExportObservation;
  sn_Fence : option FenceObservation;
  sn_AgentIdentity : string;
  sn_IssuedAt : option Timestamp;
  sn_Signature : bytes;
}.

Record RecoveryAuthorization := {
  au_SnapshotDigest : bytes;
  au_VolumeId : string;
  au_BackendType : BackendType;
  au_LvmSource : option LVMIdentity;
  au_OldVolumeUid : string;
  au_OldGeneration : Z;
  au_NewVolumeUid : string;
  au_NewGeneration : Z;
  au_PreserveOriginal : option bool;
  au_IssuedAt : option Timestamp;
  au_ExpiresAt : option Timestamp;
  au_Signature : bytes;
}.

Definition GetPreserveOriginal (a : RecoveryAuthorization) : bool := default false (au_PreserveOriginal a).

(** A copy with another signature. *)
Definition set_sn_Signature (s : RecoverySnapshot) (sig : bytes) : RecoverySnapshot := {|
  sn_VolumeId := sn_VolumeId s; sn_BackendType := sn_BackendType s; sn_LvmSource := sn_LvmSource s;
  sn_OldVolumeUid := sn_OldVolumeUid s; sn_OldGeneration := sn_OldGeneration s;
  sn_PreserveOriginal := sn_PreserveOriginal s; sn_ExclusiveClaim := sn_ExclusiveClaim s;
  sn_Consumers := sn_Consumers s; sn_Exports := sn_Exports s; sn_Fence := sn_Fence s;
  sn_AgentIdentity := sn_AgentIdentity s; sn_IssuedAt := sn_IssuedAt s; sn_Signature := sig |}.
Definition set_au_Signature (a : RecoveryAuthorization) (sig : bytes) : RecoveryAuthorization := {|
  au_SnapshotDigest := au_SnapshotDigest a; au_VolumeId := au_VolumeId a; au_BackendType := au_BackendType a;
  au_LvmSource := au_LvmSource a; au_OldVolumeUid := au_OldVolumeUid a; au_OldGeneration := au_OldGeneration a;
  au_NewVolumeUid := au_NewVolumeUid a; au_NewGeneration := au_NewGeneration a;
  au_PreserveOriginal := au_PreserveOriginal a; au_IssuedAt := au_IssuedAt a; au_ExpiresAt := au_ExpiresAt a;
  au_Signature := sig |}.

(** ** Errors, keys and certificates *)

Inductive recError :=
| ErrUnsupportedKeyType | ErrInvalidSignature | ErrExpired | ErrNotYetValid
| ErrValidityWindowTooLong | ErrMissingField | ErrDigestMismatch
| ErrIdentityMismatch | ErrKeyMismatch | ErrMalformed | ErrSign.
#[export] Instance recError_eq_dec : EqDecision recError.
Proof. solve_decision. Defined.

Abbreviation RecResult := (result recError).

(** A public key: RSA or ECDSA by its encoding, or of another type. *)
Inductive PublicKey := RSAKey (k : bytes) | ECDSAKey (k : bytes) | OtherKey.
#[export] Instance PublicKey_eq_dec : EqDecision PublicKey.
Proof. solve_decision. Defined.

Record Certificate := {
  crt_CommonName : string;
  crt_DNSNames : list string;
  crt_PublicKey : PublicKey;
}.

(** [crypto.Signer] *)
Record Signer := { sg_Public : PublicKey; sg_Sign : bytes → option bytes }.

Record Lib := {
  marshalSnapshot : RecoverySnapshot → option bytes;
  marshalAuthorization : RecoveryAuthorization → option bytes;
  timestampValid : Timestamp → bool;
  verifyRSA : bytes → bytes → bytes → bool;
  verifyECDSA : bytes → bytes → bytes → bool;
}.

(** ** Constants *)
Definition second : Z := 1000000000.
Definition ClockSkew : Z := 2 * 60 * second.
Definition MaxSnapshotAge : Z := 15 * 60 * second.
Definition MaxAuthorizationLifetime : Z := 24 * 3600 * second.
Definition DigestSize : nat := 32.

(** [Time.Sub] saturates at the 64-bit range. *)
Definition time_Sub (a b : Z) : Z := Z.max (- 2 ^ 63) (Z.min (2 ^ 63 - 1) (a - b)).

(** ** Verification *)
Section Auth.
Context (lib : Lib).

Definition digestOf (canonical : bytes) : bytes := sha256 canonical.

Definition checkKeySupported (pub : PublicKey) : RecResult unit :=
  match pub with OtherKey => Err ErrUnsupportedKeyType | _ => Ok tt end.

Definition verifySignature (pub : PublicKey) (digest sig : bytes) : RecResult unit :=
  checkKeySupported pub ;;
  if decide (sig = []) then Err ErrMissingField
  else
    match pub with
    | RSAKey k => if verifyRSA lib k digest sig then Ok tt else Err ErrInvalidSignature
    | ECDSAKey k => if verifyECDSA lib k digest sig then Ok tt else Err ErrInvalidSignature
    | OtherKey => Ok tt
    end.

Definition equalDigest (a b : bytes) : bool :=
  if decide (length b ≠ DigestSize) then false else bool_decide (a = b).

Definition CanonicalSnapshotBytes (snap : option RecoverySnapshot) : RecResult bytes :=
  match snap with
  | None => Err ErrMissingField
  | Some s => match marshalSnapshot lib (set_sn_Signature s []) with
              | Some b => Ok b | None => Err ErrMalformed end
  end.

Definition SnapshotDigest (snap : option RecoverySnapshot) : RecResult bytes :=
  b ← CanonicalSnapshotBytes snap; Ok (digestOf b).

Definition SignSnapshot (snap : RecoverySnapshot) (signer : Signer) : RecResult RecoverySnapshot :=
  checkKeySupported (sg_Public signer) ;;
  payload ← CanonicalSnapshotBytes (Some snap);
  match sg_Sign signer (digestOf payload) with
  | None => Err ErrSign
  | Some sig => Ok (set_sn_Signature snap sig)
  end.

Definition verifySnapshotFields (s : RecoverySnapshot) : RecResult unit :=
  if decide (sn_VolumeId s = "") then Err ErrMissingField
  else if decide (sn_BackendType s ≠ BACKEND_TYPE_LVM) then Err ErrMalformed
  else if bool_decide (sn_LvmSource s = None) then Err ErrMissingField
  else if decide (sn_OldVolumeUid s = "") then Err ErrMissingField
  else if decide (sn_AgentIdentity s = "") then Err ErrMissingField
  else
    match sn_IssuedAt s with
    | None => Err ErrMissingField
    | Some issued =>
        if negb (timestampValid lib issued) then Err ErrMalformed
        else
          match sn_Fence s with
          | Some f =>
              if fo_Exists f then
                if decide (sn_OldVolumeUid s ≠ fo_VolumeUid f) then Err ErrMalformed
                else if negb (sn_OldGeneration s =? fo_Generation f) then Err ErrMalformed
                else Ok tt
              else Ok tt
          | None => Ok tt
          end
    end.

Definition checkIssuedAt (issued now : Z) : RecResult unit :=
  if now + ClockSkew <? issued then Err ErrNotYetValid
  else if issued <? now + (- MaxSnapshotAge - ClockSkew) then Err ErrExpired
  else Ok tt.

(** [AsTime] of a possibly absent timestamp. *)
Definition GetTime (t : option Timestamp) : Z := match t with Some t => AsTime t | None => 0 end.

Definition VerifySnapshot (snap : option RecoverySnapshot) (pub : PublicKey) (now : Z) : RecResult unit :=
  checkKeySupported pub ;;
  match snap with
  | None => Err ErrMissingField
  | Some s =>
      verifySnapshotFields s ;;
      checkIssuedAt (GetTime (sn_IssuedAt s)) now ;;
      payload ← CanonicalSnapshotBytes snap;
      verifySignature pub (digestOf payload) (sn_Signature s)
  end.

Definition VerifySnapshotWithCertificate (snap : option RecoverySnapshot) (cert : option Certificate)
    (now : Z) : RecResult unit :=
  match cert with
  | None => Err ErrMissingField
  | Some cert =>
      (match snap with
       | None => Ok tt
       | Some s =>
           let want := if decide (crt_CommonName cert = "") then hd "" (crt_DNSNames cert)
                       else crt_CommonName cert in
           if decide (want = "") then Err ErrMalformed
           else if decide (sn_AgentIdentity s ≠ want) then Err ErrIdentityMismatch
           else Ok tt
       end) ;;
      VerifySnapshot snap (crt_PublicKey cert) now
  end.

Definition CanonicalAuthorizationBytes (auth : option RecoveryAuthorization) : RecResult bytes :=
  match auth with
  | None => Err ErrMissingField
  | Some a => match marshalAuthorization lib (set_au_Signature a []) with
              | Some b => Ok b | None => Err ErrMalformed end
  end.

Definition AuthorizationDigest (auth : option RecoveryAuthorization) : RecResult bytes :=
  b ← CanonicalAuthorizationBytes auth; Ok (digestOf b).

Definition SignAuthorization (auth : RecoveryAuthorization) (signer : Signer) : RecResult RecoveryAuthorization :=
  checkKeySupported (sg_Public signer) ;;
  payload ← CanonicalAuthorizationBytes (Some auth);
  match sg_Sign signer (digestOf payload) with
  | None => Err ErrSign
  | Some sig => Ok (set_au_Signature auth sig)
  end.

Definition verifyAuthorizationFields (a : RecoveryAuthorization) : RecResult unit :=
  if decide (length (au_SnapshotDigest a) ≠ DigestSize) then Err ErrMalformed
  else if decide (au_VolumeId a = "") then Err ErrMissingField
  else if decide (au_BackendType a ≠ BACKEND_TYPE_LVM) then Err ErrMalformed
  else if bool_decide (au_LvmSource a = None) then Err ErrMissingField
  else if decide (au_OldVolumeUid a = "") then Err ErrMissingField
  else if decide (au_NewVolumeUid a = "") then Err ErrMissingField
  else if decide (au_NewVolumeUid a = au_OldVolumeUid a) then Err ErrMalformed
  else if bool_decide (au_PreserveOriginal a = None) then Err ErrMissingField
  else
    match au_IssuedAt a, au_ExpiresAt a with
    | None, _ => Err ErrMissingField
    | _, None => Err ErrMissingField
    | Some issued, Some expires =>
        if negb (timestampValid lib issued) then Err ErrMalformed
        else if negb (timestampValid lib expires) then Err ErrMalformed
        else Ok tt
    end.

(** The loop over the trust anchors, from its last error [lastErr]. *)
Fixpoint verifyAnchors (keys : list PublicKey) (digest sig : bytes) (lastErr : option recError)
    : RecResult unit :=
  match keys with
  | [] => Err (default ErrInvalidSignature lastErr)
  | pub :: keys =>
      match checkKeySupported pub with
      | Err e => verifyAnchors keys digest sig (Some e)
      | Ok _ =>
          match verifySignature pub digest sig with
          | Ok _ => Ok tt
          | Err e => verifyAnchors keys digest sig (Some e)
          end
      end
  end.

Definition VerifyAuthorization (auth : option RecoveryAuthorization) (keys : list PublicKey) (now : Z)
    : RecResult unit :=
  if decide (keys = []) then Err ErrMissingField
  else
    match auth with
    | None => Err ErrMissingField
    | Some a =>
        verifyAuthorizationFields a ;;
        let issued := GetTime (au_IssuedAt a) in
        let expires := GetTime (au_ExpiresAt a) in
        if negb (issued <? expires) then Err ErrMalformed
        else if MaxAuthorizationLifetime + ClockSkew <? time_Sub expires issued then Err ErrValidityWindowTooLong
        else if now + ClockSkew <? issued then Err ErrNotYetValid
        else if negb (now + - ClockSkew <? expires) then Err ErrExpired
        else
          payload ← CanonicalAuthorizationBytes auth;
          verifyAnchors keys (digestOf payload) (au_Signature a) None
    end.

Definition lvmSourceEqual (a b : option LVMIdentity) : bool := bool_decide (a = b).

Definition CheckAuthorizationMatchesSnapshot (auth : option RecoveryAuthorization)
    (snap : option RecoverySnapshot) : RecResult unit :=
  match auth, snap with
  | Some a, Some s =>
      d ← SnapshotDigest snap;
      if negb (equalDigest d (au_SnapshotDigest a)) then Err ErrDigestMismatch
      else if negb (bool_decide (au_VolumeId a = sn_VolumeId s))
              || negb (bool_decide (au_BackendType a = sn_BackendType s))
              || negb (bool_decide (au_OldVolumeUid a = sn_OldVolumeUid s))
              || negb (au_OldGeneration a =? sn_OldGeneration s)
              || negb (lvmSourceEqual (au_LvmSource a) (sn_LvmSource s))
      then Err ErrMalformed
      else Ok tt
  | _, _ => Err ErrMissingField
  end.
End Auth.

Definition DigestHex (d : bytes) : string := hex_encode d.

Definition ParseDigestHex (s : string) : RecResult bytes :=
  match hex_decode s with
  | None => Err ErrMalformed
  | Some b => if decide (length b ≠ DigestSize) then Err ErrMalformed else Ok b
  end.

(** ** What verification means *)
Section AuthSpec.
Context (lib : Lib).

(** [sig] is a signature of [pub] over [digest]. *)
Definition signed_by (pub : PublicKey) (digest sig : bytes) : Prop :=
  sig ≠ [] ∧
  match pub with
  | RSAKey k => verifyRSA lib k digest sig = true
  | ECDSAKey k => verifyECDSA lib k digest sig = true
  | OtherKey => False
  end.

Lemma verifySignature_Ok pub digest sig :
  verifySignature lib pub digest sig = Ok tt ↔
  signed_by pub digest sig.
Proof.
  unfold verifySignature, signed_by. destruct pub; cbn; try case_decide; try case_match; naive_solver.
Qed.

Lemma verifyAnchors_Ok keys digest sig err :
  verifyAnchors lib keys digest sig err = Ok tt ↔
  ∃ k, k ∈ keys ∧ verifySignature lib k digest sig = Ok tt.
Proof.
  revert err. induction keys as [|k keys IH]; intros err; cbn [verifyAnchors].
  { split; [done|]. by intros (k & ?%elem_of_nil & _). }
  destruct (checkKeySupported k) as [[]|e] eqn:Ek.
  - destruct (verifySignature lib k digest sig) as [[]|e] eqn:Ev.
    + split; [|done]. intros _. exists k. split; [left|done].
    + rewrite IH. split; intros (k' & Hk & H); exists k'; (split; [|done]); [by right|].
      apply elem_of_cons in Hk as [->|?]; [congruence|done].
  - rewrite IH. split; intros (k' & Hk & H); exists k'; (split; [|done]); [by right|].
    apply elem_of_cons in Hk as [->|?]; [|done]. by destruct k.
Qed.

Definition minutes (n : Z) : Z := n * 60 * 1000000000.
Definition hours (n : Z) : Z := n * minutes 60.

(** An authorization in force at [now]: it names a volume, an LV and two
    different lifecycles, commits to a snapshot and to a policy, is valid for
    at most a day, now, and carries the signature of a trust anchor; two
    minutes of clock skew are tolerated on every bound. *)
Record in_force (a : RecoveryAuthorization) (keys : list PublicKey) (now : Z) : Prop := {
  if_digest : length (au_SnapshotDigest a) = 32%nat;
  if_volume : au_VolumeId a ≠ "";
  if_backend : au_BackendType a = BACKEND_TYPE_LVM;
  if_source : au_LvmSource a ≠ None;
  if_old : au_OldVolumeUid a ≠ "";
  if_new : au_NewVolumeUid a ≠ "";
  if_apart : au_NewVolumeUid a ≠ au_OldVolumeUid a;
  if_policy : au_PreserveOriginal a ≠ None;
  if_times : ∃ issued expires,
    au_IssuedAt a = Some issued ∧ au_ExpiresAt a = Some expires ∧
    timestampValid lib issued = true ∧ timestampValid lib expires = true ∧
    AsTime issued < AsTime expires ≤ AsTime issued + hours 24 + minutes 2 ∧
    AsTime issued ≤ now + minutes 2 ∧ now - minutes 2 < AsTime expires;
  if_signed : ∃ k payload, k ∈ keys ∧ marshalAuthorization lib (set_au_Signature a []) = Some payload ∧
    signed_by k (sha256 payload) (au_Signature a);
}.

(** A snapshot of this agent that is fresh at [now]: complete, consistent
    with the mark it shows, named and signed by the holder of [cert], and at
    most 15 minutes old. *)
Record attested (s : RecoverySnapshot) (cert : Certificate) (now : Z) : Prop := {
  at_volume : sn_VolumeId s ≠ "";
  at_backend : sn_BackendType s = BACKEND_TYPE_LVM;
  at_source : sn_LvmSource s ≠ None;
  at_old : sn_OldVolumeUid s ≠ "";
  at_agent : sn_AgentIdentity s ≠ "" ∧
    (crt_CommonName cert = sn_AgentIdentity s ∨
     crt_CommonName cert = "" ∧ ∃ l, crt_DNSNames cert = sn_AgentIdentity s :: l);
  at_fence f : sn_Fence s = Some f → fo_Exists f = true → fo_VolumeUid f = sn_OldVolumeUid s ∧ fo_Generation f = sn_OldGeneration s;
  at_issued : ∃ issued, sn_IssuedAt s = Some issued ∧ timestampValid lib issued = true ∧
    now - minutes 15 - minutes 2 ≤ AsTime issued ≤ now + minutes 2;
  at_signed : ∃ payload, marshalSnapshot lib (set_sn_Signature s []) = Some payload ∧
    signed_by (crt_PublicKey cert) (sha256 payload) (sn_Signature s);
}.

(** The authorization commits to the snapshot: to its digest and to its
    volume, backend, LV and lifecycle. *)
Record commits_to (a : RecoveryAuthorization) (s : RecoverySnapshot) : Prop := {
  ct_digest : ∃ payload, marshalSnapshot lib (set_sn_Signature s []) = Some payload ∧ au_SnapshotDigest a = sha256 payload;
  ct_volume : au_VolumeId a = sn_VolumeId s;
  ct_backend : au_BackendType a = sn_BackendType s;
  ct_source : au_LvmSource a = sn_LvmSource s;
  ct_old : au_OldVolumeUid a = sn_OldVolumeUid s;
  ct_generation : au_OldGeneration a = sn_OldGeneration s;
}.

Lemma time_Sub_le a b c : c < 2 ^ 63 - 1 → - 2 ^ 63 ≤ c → (c <? time_Sub a b) = (c <? a - b).
Proof. unfold time_Sub. intros. destruct (Z.ltb_spec c (a - b)); [apply Z.ltb_lt|apply Z.ltb_ge]; lia. Qed.

Lemma verifyAuthorizationFields_Ok a : verifyAuthorizationFields lib a = Ok tt ↔
  length (au_SnapshotDigest a) = 32%nat ∧ au_VolumeId a ≠ "" ∧ au_BackendType a = BACKEND_TYPE_LVM ∧ au_LvmSource a ≠ None ∧
  au_OldVolumeUid a ≠ "" ∧ au_NewVolumeUid a ≠ "" ∧ au_NewVolumeUid a ≠ au_OldVolumeUid a ∧ au_PreserveOriginal a ≠ None ∧
  ∃ issued expires, au_IssuedAt a = Some issued ∧ au_ExpiresAt a = Some expires ∧
    timestampValid lib issued = true ∧ timestampValid lib expires = true.
Proof.
  unfold verifyAuthorizationFields. change DigestSize with 32%nat.
  repeat case_decide; repeat case_bool_decide; try (split; [done|]; tauto).
  destruct (au_IssuedAt a) as [i|], (au_ExpiresAt a) as [x|]; try (split; [done|]; intros (_&_&_&_&_&_&_&_&?&?&?&?&_); congruence).
  destruct (timestampValid lib i) eqn:Ei; [|split; [done|]; intros (_&_&_&_&_&_&_&_&?&?&?&?&?&?); congruence].
  destruct (timestampValid lib x) eqn:Ex; [|split; [done|]; intros (_&_&_&_&_&_&_&_&?&?&?&?&?&?); congruence].
  split; [|done]. intros _. split_and!; try done. by exists i, x.
Qed.

(** The test of the validity window. *)
Lemma window_Ok (issued expires now : Z) (m : RecResult unit) :
  (if negb (issued <? expires) then Err ErrMalformed
   else if MaxAuthorizationLifetime + ClockSkew <? time_Sub expires issued then Err ErrValidityWindowTooLong
   else if now + ClockSkew <? issued then Err ErrNotYetValid
   else if negb (now + - ClockSkew <? expires) then Err ErrExpired
   else m) = Ok tt ↔
  (issued < expires ≤ issued + hours 24 + minutes 2 ∧ issued ≤ now + minutes 2 ∧ now - minutes 2 < expires) ∧ m = Ok tt.
Proof.
  rewrite time_Sub_le by done. unfold MaxAuthorizationLifetime, ClockSkew, hours, minutes, second.
  repeat match goal with |- context [?a <? ?b] => destruct (Z.ltb_spec a b); cbn [negb]; try (split; [done|]; lia) end.
  split; [|tauto]. intros ->. split; [lia|done].
Qed.

Lemma VerifyAuthorization_iff auth keys now :
  VerifyAuthorization lib auth keys now = Ok tt ↔ ∃ a, auth = Some a ∧ in_force a keys now.
Proof.
  unfold VerifyAuthorization. destruct auth as [a|].
  2:{ case_decide; split; [done| |done|]; by intros (? & ? & _). }
  assert (keys = [] → ¬ in_force a keys now) as Hno.
  { intros -> []. destruct if_signed0 as (k & _ & []%elem_of_nil & _). }
  case_decide as Hk; [split; [done|]; intros (a' & [= <-] & ?); by apply Hno in Hk|].
  split.
  - intros ([] & Hf & Hw)%result_bind_Ok. apply window_Ok in Hw as [Hw (payload & Hp & (k & Hk' & Hv)%verifyAnchors_Ok)%result_bind_Ok].
    apply verifyAuthorizationFields_Ok in Hf as (?&?&?&?&?&?&?&?&i&x&Ei&Ex&?&?). rewrite Ei, Ex in Hw. cbn in Hw, Hp.
    destruct (marshalAuthorization lib _) as [b|] eqn:Em; [|done]. injection Hp as <-. apply verifySignature_Ok in Hv.
    exists a. split; [done|]. split; try done; [by exists i, x; tauto|by exists k, b].
  - intros (a' & [= <-] & [? ? ? ? ? ? ? ? (i & x & Ei & Ex & ? & ? & Hw) (k & b & Hk' & Em & Hv)]).
    rewrite (proj2 (verifyAuthorizationFields_Ok a)) by (split_and!; try done; by exists i, x). cbn [mbind result_bind].
    apply window_Ok. rewrite Ei, Ex. split; [exact Hw|]. cbn. rewrite Em. cbn. apply verifyAnchors_Ok. exists k. split; [done|].
    by apply verifySignature_Ok.
Qed.
Lemma accepted_in_force auth keys now :
  VerifyAuthorization lib auth keys now = Ok tt → ∃ a, auth = Some a ∧ in_force a keys now.
Proof. apply VerifyAuthorization_iff. Qed.

Lemma verifySnapshotFields_Ok s : verifySnapshotFields lib s = Ok tt ↔
  sn_VolumeId s ≠ "" ∧ sn_BackendType s = BACKEND_TYPE_LVM ∧ sn_LvmSource s ≠ None ∧ sn_OldVolumeUid s ≠ "" ∧ sn_AgentIdentity s ≠ "" ∧
  (∃ issued, sn_IssuedAt s = Some issued ∧ timestampValid lib issued = true) ∧
  ∀ f, sn_Fence s = Some f → fo_Exists f = true → fo_VolumeUid f = sn_OldVolumeUid s ∧ fo_Generation f = sn_OldGeneration s.
Proof.
  unfold verifySnapshotFields. repeat case_decide; repeat case_bool_decide; try (split; [done|]; tauto).
  destruct (sn_IssuedAt s) as [i|]; [|split; [done|]; intros (_&_&_&_&_&(?&?&_)&_); congruence].
  destruct (timestampValid lib i) eqn:Ei; [|split; [done|]; intros (_&_&_&_&_&(?&?&?)&_); congruence]. cbn [negb].
  destruct (sn_Fence s) as [f|]; [|split; [|done]; intros _; split_and!; try done; by exists i].
  destruct (fo_Exists f) eqn:Ex; [|split; [|done]; intros _; split_and!; try done; [by exists i|intros ? [= <-]; congruence]].
  case_decide as Hu; [split; [done|]; intros (_&_&_&_&_&_&Hf); destruct (Hf f eq_refl Ex); congruence|].
  destruct (Z.eqb_spec (sn_OldGeneration s) (fo_Generation f)) as [Hg|Hg]; cbn [negb].
  - split; [|done]. intros _. split_and!; try done; [by exists i|]. intros ? [= <-] _. by split; [symmetry|].
  - split; [done|]. intros (_&_&_&_&_&_&Hf). destruct (Hf f eq_refl Ex). congruence.
Qed.

Lemma VerifySnapshotWithCertificate_iff s cert now :
  VerifySnapshotWithCertificate lib (Some s) (Some cert) now = Ok tt ↔ attested s cert now.
Proof.
  unfold VerifySnapshotWithCertificate, VerifySnapshot. set (want := if decide (crt_CommonName cert = "") then _ else _).
  assert (want ≠ "" ∧ sn_AgentIdentity s = want ↔ sn_AgentIdentity s ≠ "" ∧
    (crt_CommonName cert = sn_AgentIdentity s ∨ crt_CommonName cert = "" ∧ ∃ l, crt_DNSNames cert = sn_AgentIdentity s :: l)) as Hw.
  { unfold want. case_decide as Hc.
    - destruct (crt_DNSNames cert) as [|d l]; cbn; split.
      + by intros [].
      + intros [Hn [E|[_ [l E]]]]; congruence.
      + intros [Hd ->]. split; [done|]. right. split; [done|]. by exists l.
      + intros [Hn [E|[_ [l' E]]]]; [congruence|]. injection E as -> _. done.
    - split; [intros [Hd ->]; by split; [|left]|]. intros [Hn [E|[E _]]]; [|done]. split; congruence. }
  split.
  - intros ([] & H1 & ([] & Hk & ([] & Hf & ([] & Ht & (b & Hb & Hv)%result_bind_Ok)%result_bind_Ok)%result_bind_Ok)%result_bind_Ok)%result_bind_Ok.
    case_decide; [done|]. case_decide as Hi; [done|].
    apply verifySnapshotFields_Ok in Hf as (?&?&?&?&?&(i&Ei&?)&?). rewrite Ei in Ht. cbn in Hb, Ht.
    destruct (marshalSnapshot lib _) as [c|] eqn:Em; [|done]. injection Hb as <-. apply verifySignature_Ok in Hv.
    unfold checkIssuedAt in Ht. destruct (Z.ltb_spec (now + ClockSkew) (AsTime i)); [done|].
    destruct (Z.ltb_spec (AsTime i) (now + (- MaxSnapshotAge - ClockSkew))); [done|].
    split; try done; [tauto| |by exists c]. exists i. unfold MaxSnapshotAge, ClockSkew, minutes, second in *. split_and!; [done|done|lia|lia].
  - intros [? ? ? ? Ha ? (i & Ei & ? & Ht) (c & Em & Hv)]. apply Hw in Ha as Hw'. destruct Hw' as [Hw1 Hw2].
    rewrite decide_False, decide_False by (done || tauto). cbn [mbind result_bind].
    assert (checkKeySupported (crt_PublicKey cert) = Ok tt) as -> by (destruct (crt_PublicKey cert); [done..|]; by destruct Hv).
    cbn [mbind result_bind]. rewrite (proj2 (verifySnapshotFields_Ok s)) by (split_and!; try done; [apply Ha|by exists i]). cbn [mbind result_bind].
    rewrite Ei. cbn [GetTime]. unfold checkIssuedAt, MaxSnapshotAge, ClockSkew, minutes, second in *.
    rewrite !(proj2 (Z.ltb_ge _ _)) by lia. cbn. rewrite Em. cbn. by apply verifySignature_Ok.
Qed.

Lemma CheckAuthorizationMatchesSnapshot_iff a s :
  CheckAuthorizationMatchesSnapshot lib (Some a) (Some s) = Ok tt ↔ length (au_SnapshotDigest a) = 32%nat ∧ commits_to a s.
Proof.
  unfold CheckAuthorizationMatchesSnapshot, SnapshotDigest, equalDigest, lvmSourceEqual, digestOf. change DigestSize with 32%nat. cbn.
  destruct (marshalSnapshot lib _) as [b|] eqn:Em; cbn; [|split; [done|]; intros (_ & [(c & Hc & _) _ _ _ _ _]); congruence].
  case_decide as Hl; cbn; [split; [done|]; tauto|].
  destruct (Z.eqb_spec (au_OldGeneration a) (sn_OldGeneration s)); repeat case_bool_decide; cbn;
    try (split; [done|]; intros (_ & [(c & Hc & Hd) ? ? ? ? ?]); congruence).
  split; [|done]. intros _. split; [done|]. split; try done. by exists b.
Qed.

(** C36: The two payloads of a transfer are accepted exactly when the snapshot
    is a fresh one of this agent, the authorization is in force, and the
    authorization commits to that snapshot; the conditions are written out
    field by field, apart from the code's checks and their order. *)
Theorem recovery_payloads_spec a s cert keys now :
  VerifySnapshotWithCertificate lib (Some s) (Some cert) now = Ok tt ∧
  VerifyAuthorization lib (Some a) keys now = Ok tt ∧
  CheckAuthorizationMatchesSnapshot lib (Some a) (Some s) = Ok tt ↔
  attested s cert now ∧ in_force a keys now ∧ commits_to a s.
Proof.
  rewrite VerifySnapshotWithCertificate_iff, VerifyAuthorization_iff, CheckAuthorizationMatchesSnapshot_iff. split.
  - intros (? & (a' & [= <-] & ?) & _ & ?). done.
  - intros (? & Hf & ?). split_and!; [done|by exists a|apply Hf|done].
Qed.

(** No authorization is accepted over a span longer than 24 hours plus
    three clock skews, however its timestamps are chosen. *)
Theorem authorization_lifetime_bounded auth keys now1 now2 :
  VerifyAuthorization lib auth keys now1 = Ok tt → VerifyAuthorization lib auth keys now2 = Ok tt →
  now2 - now1 < MaxAuthorizationLifetime + 3 * ClockSkew.
Proof.
  intros (a & -> & H1)%accepted_in_force (a' & [= <-] & H2)%accepted_in_force.
  destruct (if_times _ _ _ H1) as (i&x&Ei&Ex&_&_&?&?&?), (if_times _ _ _ H2) as (i'&x'&Ei'&Ex'&_&_&?&?&?).
  rewrite Ei in Ei'. rewrite Ex in Ex'. simplify_eq. unfold MaxAuthorizationLifetime, ClockSkew, hours, minutes, second in *. lia.
Qed.

(** An authorization accepted together with a snapshot commits to it: to
    its digest and to its volume, source and lifecycle. *)
Theorem match_binds_snapshot a s :
  CheckAuthorizationMatchesSnapshot lib (Some a) (Some s) = Ok tt →
  SnapshotDigest lib (Some s) = Ok (au_SnapshotDigest a) ∧
  au_VolumeId a = sn_VolumeId s ∧ au_LvmSource a = sn_LvmSource s ∧
  au_OldVolumeUid a = sn_OldVolumeUid s ∧ au_OldGeneration a = sn_OldGeneration s.
Proof.
  unfold CheckAuthorizationMatchesSnapshot, equalDigest, lvmSourceEqual.
  intros (d & Hd & H)%result_bind_Ok. rewrite Hd. case_decide; [done|].
  destruct (au_OldGeneration a =? sn_OldGeneration s) eqn:Eg; [apply Z.eqb_eq in Eg|];
    repeat case_bool_decide; cbn in H; try done; by subst.
Qed.

(** A signed snapshot verifies under the signer's key for as long as it is
    fresh. *)
Lemma sign_verify_snapshot snap signer signed now :
  SignSnapshot lib snap signer = Ok signed →
  verifySnapshotFields lib snap = Ok tt → checkIssuedAt (GetTime (sn_IssuedAt snap)) now = Ok tt →
  (∀ d sig, sg_Sign signer d = Some sig → verifySignature lib (sg_Public signer) d sig = Ok tt) →
  VerifySnapshot lib (Some signed) (sg_Public signer) now = Ok tt.
Proof.
  unfold SignSnapshot, VerifySnapshot. destruct (checkKeySupported _) as [[]|]; [|done]. cbn.
  destruct (marshalSnapshot _ _) as [b|] eqn:Em; [|done]. cbn.
  destruct (sg_Sign _ _) as [sig|] eqn:Es; [|done]. intros [= <-] Hf Hi Hv.
  replace (verifySnapshotFields lib (set_sn_Signature snap sig)) with (verifySnapshotFields lib snap) by done.
  rewrite Hf. cbn. rewrite Hi. cbn.
  replace (set_sn_Signature (set_sn_Signature snap sig) []) with (set_sn_Signature snap []) by done.
  rewrite Em. cbn. by apply Hv.
Qed.
End AuthSpec.

(** The hex form of a 32-byte digest reads back as that digest. *)
Theorem ParseDigestHex_roundtrip d :
  length d = DigestSize → ParseDigestHex (DigestHex d) = Ok d.
Proof.
  intros H. unfold ParseDigestHex, DigestHex. rewrite hex_decode_encode. by rewrite decide_False by auto.
Qed.

(** ** A concrete authorization *)
Definition ex_lib : Lib := {|
  marshalSnapshot := λ s, Some (bytes_of_string (sn_VolumeId s));
  marshalAuthorization := λ a, Some (bytes_of_string (au_VolumeId a));
  timestampValid := λ t, (0 <=? ts_Nanos t) && (ts_Nanos t <? 1000000000);
  verifyRSA := λ _ _ _, false;
  verifyECDSA := λ k _ sig, bool_decide (k = sig) |}.

Definition ex_source : LVMIdentity := {|
  li_VolumeGroup := "vg"; li_LogicalVolume := "data";
  li_VolumeGroupUUID := "vg-1"; li_LogicalVolumeUUID := "lv-1" |}.

Definition ex_snapshot : RecoverySnapshot := {|
  sn_VolumeId := "vg/data"; sn_BackendType := BACKEND_TYPE_LVM; sn_LvmSource := Some ex_source;
  sn_OldVolumeUid := "u1"; sn_OldGeneration := 1; sn_PreserveOriginal := true;
  sn_ExclusiveClaim := "free"; sn_Consumers := []; sn_Exports := []; sn_Fence := None;
  sn_AgentIdentity := "agent"; sn_IssuedAt := Some {| ts_Seconds := 1000; ts_Nanos := 0 |};
  sn_Signature := bytes_of_string "agent-key" |}.

Definition ex_authorization : RecoveryAuthorization := {|
  au_SnapshotDigest := digestOf (bytes_of_string "vg/data"); au_VolumeId := "vg/data";
  au_BackendType := BACKEND_TYPE_LVM; au_LvmSource := Some ex_source; au_OldVolumeUid := "u1";
  au_OldGeneration := 1; au_NewVolumeUid := "u2"; au_NewGeneration := 1; au_PreserveOriginal := Some true;
  au_IssuedAt := Some {| ts_Seconds := 1000; ts_Nanos := 0 |};
  au_ExpiresAt := Some {| ts_Seconds := 5000; ts_Nanos := 0 |};
  au_Signature := bytes_of_string "operator-key" |}.

Definition ex_anchors : list PublicKey := [OtherKey; ECDSAKey (bytes_of_string "operator-key")].

Definition ex_certificate : Certificate := {|
  crt_CommonName := ""; crt_DNSNames := ["agent"; "agent.local"]; crt_PublicKey := ECDSAKey (bytes_of_string "agent-key") |}.
Lemma recovery_payloads_spec_witness :
  attested ex_lib ex_snapshot ex_certificate (1500 * second) ∧ in_force ex_lib ex_authorization ex_anchors (1500 * second) ∧
  commits_to ex_lib ex_authorization ex_snapshot ∧ ¬ attested ex_lib ex_snapshot ex_certificate (2021 * second).
Proof.
  destruct (proj1 (recovery_payloads_spec ex_lib ex_authorization ex_snapshot ex_certificate ex_anchors (1500 * second))) as (? & ? & ?).
  { split_and!; vm_compute; reflexivity. }
  split_and!; [done..|]. intros [_ _ _ _ _ _ (i & [= <-] & _ & Ht) _]. vm_compute in Ht. destruct Ht as [Ht _]. by apply Ht.
Defined.

Lemma authorization_lifetime_bounded_witness :
  2000 * second - 1000 * second < MaxAuthorizationLifetime + 3 * ClockSkew.
Proof.
  apply (authorization_lifetime_bounded ex_lib (Some ex_authorization) ex_anchors);
    vm_compute; reflexivity.
Defined.

Lemma match_binds_snapshot_witness :
  SnapshotDigest ex_lib (Some ex_snapshot) = Ok (au_SnapshotDigest ex_authorization).
Proof.
  apply (match_binds_snapshot ex_lib ex_authorization ex_snapshot). vm_compute. reflexivity.
Defined.

Lemma ParseDigestHex_roundtrip_witness :
  ParseDigestHex (DigestHex (au_SnapshotDigest ex_authorization)) = Ok (au_SnapshotDigest ex_authorization).
Proof. apply ParseDigestHex_roundtrip. vm_compute. reflexivity. Defined.
