(* ===== verification/Recovery.v ===== *)
(** * Inspection and ownership recovery (server_inspect.go, server_recovery.go)

    [InspectVolume] observes an LV, its exports and its mark, and attests the
    observation with a signed snapshot; [TransferVolumeOwnership] moves a
    mark between lifecycles on the strength of that snapshot and an operator
    authorization.  The peer's transport authentication and the clock are
    inputs. *)
From stdpp Require Import base numbers list strings gmap relations.
From S2P Require Import Prelude GoStd FencingMark FencingStore Backend Fencing FencingCorrect AgentServer RecoveryAuth.
Open Scope Z_scope.

(** ** The agent's exports in configfs *)

Definition dirExists (node : cfs_node) : GoResult bool :=
  match node with
  | CfsAbsent => Ok false
  | CfsUnreadable => Err (EPlain "stat")
  | CfsDir _ => Ok true
  | CfsAttr _ => Ok false
  end.

Definition readOptionalAttr (node : cfs_node) : GoResult string :=
  match node with
  | CfsAbsent => Ok ""
  | CfsAttr text => Ok (TrimSpace text)
  | _ => Err (EPlain "read")
  end.

Definition listDir (node : cfs_node) : GoResult (list string) :=
  match node with
  | CfsAbsent => Ok []
  | CfsDir names => Ok names
  | _ => Err (EPlain "read dir")
  end.

Section Exports.
Context (cfs : string → cfs_node).

(** Whether any of the [namespaces] below [dir] is enabled. *)
Fixpoint anyEnabled (dir : string) (namespaces : list string) (enabled : bool) : GoResult bool :=
  match namespaces with
  | [] => Ok enabled
  | ns :: rest =>
      value ← readOptionalAttr (cfs (PathJoin [dir; "namespaces"; ns; "enable"]));
      anyEnabled dir rest (enabled || bool_decide (value = "1"))
  end.

Definition inspectNVMeExport (dir nqn : string) : GoResult (option ExportObservation) :=
  present ← dirExists (cfs dir);
  if negb present then Ok None
  else
    allowAny ← readOptionalAttr (cfs (PathJoin [dir; "attr_allow_any_host"]));
    namespaces ← listDir (cfs (PathJoin [dir; "namespaces"]));
    enabled ← anyEnabled dir namespaces false;
    hosts ← listDir (cfs (PathJoin [dir; "allowed_hosts"]));
    Ok (Some {| eo_TargetId := nqn; eo_NamespaceEnabled := enabled;
                eo_AclEnabled := bool_decide (allowAny = "0"); eo_AllowedHosts := hosts |}).

Definition inspectISCSIExport (dir iqn : string) : GoResult (option ExportObservation) :=
  present ← dirExists (cfs dir);
  if negb present then Ok None
  else
    enable ← readOptionalAttr (cfs (PathJoin [dir; "enable"]));
    generate ← readOptionalAttr (cfs (PathJoin [dir; "attrib"; "generate_node_acls"]));
    hosts ← listDir (cfs (PathJoin [dir; "acls"]));
    Ok (Some {| eo_TargetId := iqn; eo_NamespaceEnabled := bool_decide (enable = "1");
                eo_AclEnabled := bool_decide (generate = "0"); eo_AllowedHosts := hosts |}).
End Exports.


Definition internalErr {A} (r : GoResult A) : GoResult A :=
  match r with Ok a => Ok a | Err _ => Err (EStatus Internal "InspectVolume") end.

Definition option_list {A} (o : option A) : list A := match o with Some a => [a] | None => [] end.

Section Inspect.
Context {B P : Type} (s : Server B P).

Definition inspectOwnExports (volumeID : string) (st : B) : GoResult (list ExportObservation) :=
  let root := if decide (configfsRoot s = "") then DefaultConfigfsRoot else configfsRoot s in
  nqn ← internalErr (volumeTargetID PROTOCOL_TYPE_NVMEOF_TCP volumeID);
  nvme ← internalErr (inspectNVMeExport (configfs s st) (PathJoin [root; "nvmet"; "subsystems"; nqn]) nqn);
  match volumeTargetID PROTOCOL_TYPE_ISCSI volumeID with
  | Err _ => Ok (option_list nvme)
  | Ok iqn =>
      iscsi ← internalErr (inspectISCSIExport (configfs s st)
                (PathJoin [root; "target"; "iscsi"; iqn; TPGName]) iqn);
      Ok (option_list nvme ++ option_list iscsi)
  end.

Definition consumerKindForeignExport : string := "foreign_export".

Definition inspectConsumers (volumeID : string) (obs : LVObservation) : list DeviceConsumer :=
  let ownIDs := ownTargetIDs volumeID in
  obs_Consumers obs ++
  omap (λ e, if containsb ownIDs (dc_Detail e) then None
             else Some {| dc_Kind := consumerKindForeignExport; dc_Detail := dc_Detail e |})
       (obs_Exports obs).

Definition noTransfer : markTransfer := {|
  mt_AuthorizationDigest := ""; mt_FromUID := ""; mt_FromGeneration := 0; mt_ToUID := ""; mt_ToGeneration := 0 |}.

Definition fenceObservation (stored : fencingMark) (exists_ : bool) : FenceObservation :=
  if negb exists_ then
    {| fo_Exists := false; fo_VolumeUid := ""; fo_Generation := 0; fo_Ended := false; fo_EndedUids := [];
       fo_PreserveOriginal := false; fo_LvmSource := None; fo_Transfer := noTransfer |}
  else
    {| fo_Exists := true; fo_VolumeUid := VolumeUID stored; fo_Generation := Generation stored;
       fo_Ended := Ended stored; fo_EndedUids := EndedUIDs stored;
       fo_PreserveOriginal := PreserveOriginal stored; fo_LvmSource := identity <$> LVMSource stored;
       fo_Transfer := default noTransfer (Transfer stored) |}.

(** ** Recovery *)

Record RecoveryConfig := {
  recoverySigner : option Signer;
  recoveryCert : option Certificate;
  recoveryAnchors : list PublicKey;
}.

Context (lib : Lib) (rc : RecoveryConfig).

Definition recoveryConfigured : bool :=
  bool_decide (is_Some (recoverySigner rc)) && bool_decide (is_Some (recoveryCert rc))
  && (0 <? length (recoveryAnchors rc))%nat.

Definition RecoveryAgentIdentity (cert : option Certificate) : string :=
  match cert with
  | None => ""
  | Some c => if decide (crt_CommonName c ≠ "") then crt_CommonName c else hd "" (crt_DNSNames c)
  end.

Definition recoveryIdentity : string := RecoveryAgentIdentity (recoveryCert rc).

Definition recoveryStatus (err : recError) : go_error :=
  match err with
  | ErrInvalidSignature | ErrUnsupportedKeyType | ErrIdentityMismatch | ErrKeyMismatch =>
      EStatus Unauthenticated "TransferVolumeOwnership"
  | ErrMalformed | ErrMissingField | ErrDigestMismatch =>
      EStatus InvalidArgument "TransferVolumeOwnership"
  | _ => EStatus FailedPrecondition "TransferVolumeOwnership"
  end.

(** [recoverySnapshot]; [now] is the signing time. *)
Definition recoverySnapshot (peerVerified : bool) (now : Timestamp) (volumeID : string)
    (stored : fencingMark) (exists_ : bool) (obs : LVObservation)
    (consumers : list DeviceConsumer) (exports : list ExportObservation) : option RecoverySnapshot :=
  match recoverySigner rc, LVMSource stored with
  | Some signer, Some pin =>
      if negb recoveryConfigured || negb peerVerified || negb exists_ || Ended stored then None
      else if decide (recoveryIdentity = "") then None
      else if decide (obs_Identity obs ≠ identity pin) then None
      else
        match SignSnapshot lib
                {| sn_VolumeId := volumeID; sn_BackendType := BACKEND_TYPE_LVM;
                   sn_LvmSource := Some (identity pin); sn_OldVolumeUid := VolumeUID stored;
                   sn_OldGeneration := Generation stored; sn_PreserveOriginal := PreserveOriginal stored;
                   sn_ExclusiveClaim := obs_ExclusiveClaim obs; sn_Consumers := consumers;
                   sn_Exports := exports; sn_Fence := Some (fenceObservation stored exists_);
                   sn_AgentIdentity := recoveryIdentity; sn_IssuedAt := Some now; sn_Signature := [] |}
                signer with
        | Ok snap => Some snap
        | Err _ => None
        end
  | _, _ => None
  end.

(** The response of [InspectVolume]; the LV fields are the observation. *)
Record InspectVolumeResponse := {
  iv_Lvm : LVObservation;
  iv_Consumers : list DeviceConsumer;
  iv_Fence : FenceObservation;
  iv_Exports : list ExportObservation;
  iv_Snapshot : option RecoverySnapshot;
}.

Definition InspectVolume (peerVerified : bool) (now : Timestamp) (volumeID : string)
    (backendType : BackendType) : Agent B InspectVolumeResponse :=
  if decide (backendType ≠ BACKEND_TYPE_LVM) then
    throw (EStatus Unimplemented "InspectVolume: only BACKEND_TYPE_LVM")
  else
    b ← lift (backendForType s volumeID backendType);
    _ ← lift (checkBackendType backendType (be_Type b));
    match be_InspectLV b with
    | None => throw (EStatus Unimplemented "InspectVolume: backend cannot inspect LVs")
    | Some inspectLV =>
        m ← readFencingMark volumeID;
        let '(stored, exists_) := m in
        r ← try (backend_op (query (λ st, inspectLV st volumeID)));
        match r with
        | Err (EImportRefused _) => throw (EStatus FailedPrecondition "InspectVolume")
        | Err _ => throw (EStatus Internal "InspectVolume")
        | Ok obs =>
            exports ← backend_op (query (inspectOwnExports volumeID));
            let consumers := inspectConsumers volumeID obs in
            mret {| iv_Lvm := obs; iv_Consumers := consumers;
                    iv_Fence := fenceObservation stored exists_; iv_Exports := exports;
                    iv_Snapshot := recoverySnapshot peerVerified now volumeID stored exists_ obs
                                     consumers exports |}
        end
    end.

(** *** Transfer *)

Inductive TransferOutcome := OutcomeCommitted | OutcomeAlreadyCommitted | OutcomeUnknown.

Record TransferRequest := {
  tq_Snapshot : option RecoverySnapshot;
  tq_Authorization : option RecoveryAuthorization;
}.

Definition checkTransferRequest (peerVerified : bool) (req : TransferRequest)
    : GoResult (RecoverySnapshot * RecoveryAuthorization) :=
  if negb peerVerified then Err (EStatus Unauthenticated "requires a verified mTLS client")
  else if negb recoveryConfigured || bool_decide (recoveryIdentity = "") then
    Err (EStatus Unavailable "this agent has no recovery authority")
  else
    match tq_Snapshot req, tq_Authorization req with
    | Some snap, Some auth =>
        if bool_decide (sn_VolumeId snap = "") || negb (bool_decide (sn_VolumeId snap = au_VolumeId auth))
        then Err (EStatus InvalidArgument "requires a snapshot and an authorization naming the same volume_id")
        else Ok (snap, auth)
    | _, _ => Err (EStatus InvalidArgument "requires a snapshot and an authorization naming the same volume_id")
    end.

Definition checkCommittedTransferRetry (tr : option markTransfer) (auth : RecoveryAuthorization)
    (authDigestHex : string) : GoResult unit :=
  match tr with
  | None => Err (EStatus FailedPrecondition "did not gain the volume by a transfer")
  | Some tr =>
      if decide (mt_AuthorizationDigest tr ≠ authDigestHex) then
        Err (EStatus FailedPrecondition "a different authorization already committed the transfer")
      else if negb (bool_decide (mt_ToUID tr = au_NewVolumeUid auth))
              || negb (mt_ToGeneration tr =? au_NewGeneration auth)
              || negb (bool_decide (mt_FromUID tr = au_OldVolumeUid auth))
              || negb (mt_FromGeneration tr =? au_OldGeneration auth) then
        Err (EStatus FailedPrecondition "the recorded transfer names different endpoints")
      else Ok tt
  end.

Definition verifyTransferSignatures (snap : RecoverySnapshot) (auth : RecoveryAuthorization) (now : Z)
    : GoResult unit :=
  let status (r : RecResult unit) := match r with Ok _ => Ok tt | Err e => Err (recoveryStatus e) end in
  status (VerifySnapshotWithCertificate lib (Some snap) (recoveryCert rc) now) ;;
  status (VerifyAuthorization lib (Some auth) (recoveryAnchors rc) now) ;;
  status (CheckAuthorizationMatchesSnapshot lib (Some auth) (Some snap)).

Definition exportAdmitsInitiators (e : ExportObservation) : bool :=
  eo_NamespaceEnabled e && (negb (eo_AclEnabled e) || (0 <? length (eo_AllowedHosts e))%nat).

Definition refuseStopped (reason : string) : GoResult unit :=
  Err (EStatus FailedPrecondition ("the old lifecycle is not proven stopped: " +:+ reason)).

Definition verifyTransferEvidence (volumeID : string) (pin : markLVMSource) (st : B) : GoResult unit :=
  match backendForType s volumeID BACKEND_TYPE_LVM with
  | Err _ => refuseStopped "no LVM backend serves the volume"
  | Ok b =>
      match be_InspectLV b with
      | None => refuseStopped "backend cannot observe LV consumers"
      | Some inspectLV =>
          match inspectLV st volumeID with
          | Err _ => refuseStopped "consumer probe failed"
          | Ok obs =>
              let ownIDs := ownTargetIDs volumeID in
              if negb (forallb (λ e, containsb ownIDs (dc_Detail e)) (obs_Exports obs)) then
                refuseStopped "foreign configured export"
              else if decide (obs_Identity obs ≠ identity pin) then refuseStopped "observed identity differs"
              else if negb (obs_Active obs) then refuseStopped "the LV is inactive"
              else if decide (obs_ExclusiveClaim obs ≠ ExclusiveClaimFree) then refuseStopped "exclusive claim"
              else if (0 <? length (obs_Consumers obs))%nat then refuseStopped "local consumers"
              else
                match inspectOwnExports volumeID st with
                | Err _ => refuseStopped "cannot observe configured exports"
                | Ok exports =>
                    if existsb exportAdmitsInitiators exports
                    then refuseStopped "export still admits initiators" else Ok tt
                end
          end
      end
  end.

Definition transferAdmittedMark (volumeID : string) (stored : fencingMark) (snap : RecoverySnapshot)
    (auth : RecoveryAuthorization) (st : B) : GoResult fencingMark :=
  let refuse reason := Err (EStatus FailedPrecondition reason) in
  if Ended stored then refuse "a transfer cannot move an ended mark"
  else if decide (VolumeUID stored ≠ au_OldVolumeUid auth) then refuse "not the authorized old lifecycle"
  else if negb (Generation stored =? au_OldGeneration auth) then refuse "not the authorized generation"
  else if containsb (EndedUIDs stored) (au_NewVolumeUid auth) then refuse "destination was already retired"
  else
    match LVMSource stored with
    | None => refuse "the volume ID pins no adopted LV"
    | Some pin =>
        if negb (equalLVMSource (LVMSource stored) (markLVMSourceFromProto (au_LvmSource auth))) then
          refuse "the authorized source differs from the pinned LV"
        else if negb (bool_decide (sn_OldVolumeUid snap = VolumeUID stored))
                || negb (sn_OldGeneration snap =? Generation stored) then
          refuse "the snapshot's claimed lifecycle is not the mark's"
        else if PreserveOriginal stored && negb (GetPreserveOriginal auth) then
          refuse "the pinned PreserveOriginal policy cannot be downgraded"
        else if negb (Bool.eqb (sn_PreserveOriginal snap) (PreserveOriginal stored)) then
          refuse "the snapshot's observed preserve policy differs"
        else
          verifyTransferEvidence volumeID pin st ≫= λ _,
          let retired := if containsb (EndedUIDs stored) (VolumeUID stored) then EndedUIDs stored
                         else EndedUIDs stored ++ [VolumeUID stored] in
          Ok (mark_of (au_NewVolumeUid auth) (au_NewGeneration auth) false retired (LVMSource stored)
                (PreserveOriginal stored || GetPreserveOriginal auth))
    end.

Definition TransferVolumeOwnership (peerVerified : bool) (now : Z) (req : TransferRequest)
    : Agent B TransferOutcome :=
  p ← lift (checkTransferRequest peerVerified req);
  let '(snap, auth) := p in
  let volumeID := sn_VolumeId snap in
  authDigest ← lift (match AuthorizationDigest lib (Some auth) with
                     | Ok d => Ok d | Err _ => Err (EStatus Internal "digest authorization") end);
  let authDigestHex := DigestHex authDigest in
  m ← readFencingMark volumeID;
  let '(stored, exists_) := m in
  if negb exists_ then throw (EStatus FailedPrecondition "no fencing mark records a lifecycle to transfer")
  else if decide (VolumeUID stored = au_NewVolumeUid auth) then
    lift (checkCommittedTransferRetry (Transfer stored) auth authDigestHex) ;;
    o ← writeFencingMarkOutcome volumeID stored;
    mret (match o.2 with Some _ => OutcomeUnknown | None => OutcomeAlreadyCommitted end)
  else
    lift (verifyTransferSignatures snap auth now) ;;
    newMark ← backend_op (query (transferAdmittedMark volumeID stored snap auth));
    let newMark := set_Transfer newMark (Some {|
      mt_AuthorizationDigest := authDigestHex; mt_FromUID := VolumeUID stored;
      mt_FromGeneration := Generation stored; mt_ToUID := au_NewVolumeUid auth;
      mt_ToGeneration := au_NewGeneration auth |}) in
    o ← writeFencingMarkOutcome volumeID newMark;
    match o with
    | (_, None) => mret OutcomeCommitted
    | (true, Some _) => mret OutcomeUnknown
    | (false, Some e) => throw e
    end.
End Inspect.

(** ** What a transfer does *)
Section Transfer.
Context {B P : Type} (s : Server B P) (lib : Lib) (rc : RecoveryConfig).
Implicit Types (w : world B) (v : string) (m : fencingMark).

(** What was observed while the mark was locked: the pinned LV and nothing
    else is there, active, open to an exclusive claim, without a mount or
    holder, exported at most by the volume's own targets, and neither of them
    lets an initiator in. *)
Definition proven_stopped v (pin : markLVMSource) (st : B) : Prop :=
  ∃ b inspect obs exports,
    backendForType s v BACKEND_TYPE_LVM = Ok b ∧ be_InspectLV b = Some inspect ∧ inspect st v = Ok obs ∧
    obs_Identity obs = identity pin ∧ obs_Active obs = true ∧ obs_ExclusiveClaim obs = ExclusiveClaimFree ∧ obs_Consumers obs = [] ∧
    (∀ c, c ∈ obs_Exports obs → ∃ proto, proto ∈ [PROTOCOL_TYPE_NVMEOF_TCP; PROTOCOL_TYPE_ISCSI] ∧ volumeTargetID proto v = Ok (dc_Detail c)) ∧
    inspectOwnExports s v st = Ok exports ∧
    ∀ e, e ∈ exports → eo_NamespaceEnabled e = true → eo_AclEnabled e = true ∧ eo_AllowedHosts e = [].

Lemma ownTargetIDs_in v id : id ∈ ownTargetIDs v → ∃ proto, proto ∈ [PROTOCOL_TYPE_NVMEOF_TCP; PROTOCOL_TYPE_ISCSI] ∧ volumeTargetID proto v = Ok id.
Proof.
  unfold ownTargetIDs. intros (proto & Hp & Hid)%list_elem_of_omap. exists proto. split; [done|].
  destruct (volumeTargetID proto v); [|done]. by injection Hid as ->.
Qed.
Lemma verifyTransferEvidence_Ok v pin st : verifyTransferEvidence s v pin st = Ok tt → proven_stopped v pin st.
Proof.
  unfold verifyTransferEvidence. destruct (backendForType _ _ _) as [b|] eqn:Eb; [|done]. destruct (be_InspectLV b) as [inspect|] eqn:Ei; [|done].
  destruct (inspect st v) as [obs|] eqn:Eo; [|done]. destruct (forallb _ _) eqn:Ef; [|done]. cbn [negb].
  case_decide as Hid; [done|]. destruct (obs_Active obs) eqn:Ea; [|done]. cbn [negb]. case_decide as Hc; [done|].
  destruct (obs_Consumers obs) as [|] eqn:Ec; [|done]. cbn [length Nat.ltb]. destruct (inspectOwnExports _ _ _) as [exports|] eqn:Ee; [|done].
  destruct (existsb _ _) eqn:Ex; [done|]. intros _. exists b, inspect, obs, exports. split_and!; try done.
  - intros c Hin. apply ownTargetIDs_in. rewrite forallb_forall in Ef. apply list_elem_of_In in Hin. by apply containsb_true, Ef.
  - intros e Hin Hen. apply not_true_iff_false in Ex. destruct (eo_AclEnabled e) eqn:El, (eo_AllowedHosts e) as [|h l] eqn:Eh; try done;
      destruct Ex; apply existsb_exists; exists e; (split; [by apply list_elem_of_In|]); unfold exportAdmitsInitiators; by rewrite Hen, El, ?Eh.
Qed.

(** The mark [m] may move to the lifecycle [auth] names. *)
Record may_move v m (snap : RecoverySnapshot) (auth : RecoveryAuthorization) (st : B) (n : fencingMark) : Prop := {
  mv_live : Ended m = false;
  mv_owner : VolumeUID m = au_OldVolumeUid auth;
  mv_gen : Generation m = au_OldGeneration auth;
  mv_fresh : au_NewVolumeUid auth ∉ EndedUIDs m;
  mv_pin : ∃ p, LVMSource m = Some p ∧ au_LvmSource auth = Some (identity p) ∧
             verifyTransferEvidence s v p st = Ok tt;
  mv_snapshot : sn_OldVolumeUid snap = VolumeUID m ∧ sn_OldGeneration snap = Generation m ∧
                sn_PreserveOriginal snap = PreserveOriginal m;
  mv_preserve : PreserveOriginal m = true → GetPreserveOriginal auth = true;
  mv_new : ∃ retired, n = mark_of (au_NewVolumeUid auth) (au_NewGeneration auth) false retired (LVMSource m)
             (PreserveOriginal m || GetPreserveOriginal auth) ∧
             (∀ u, u ∈ retired ↔ u ∈ EndedUIDs m ∨ u = VolumeUID m) ∧
             (NoDup (EndedUIDs m) → NoDup retired);
}.

Lemma fromProto_identity src p : markLVMSourceFromProto src = Some p → src = Some (identity p).
Proof. destruct src as [[]|]; cbn; intros; by simplify_eq. Qed.

Lemma transferAdmittedMark_Ok v m snap auth st n :
  transferAdmittedMark s v m snap auth st = Ok n → may_move v m snap auth st n.
Proof.
  unfold transferAdmittedMark. destruct (Ended m) eqn:Ee; [done|]. case_decide as Eo; [done|].
  destruct (Generation m =? au_OldGeneration auth) eqn:Eg; [|done]. apply Z.eqb_eq in Eg.
  destruct (containsb _ (au_NewVolumeUid auth)) eqn:Ec; [done|]. apply containsb_false in Ec.
  destruct (LVMSource m) as [p|] eqn:El; [|done].
  destruct (equalLVMSource _ _) eqn:Es; [|done]. apply equalLVMSource_eq in Es.
  case_bool_decide as Eu; [|done]. destruct (sn_OldGeneration snap =? Generation m) eqn:Esg; [|done].
  apply Z.eqb_eq in Esg. cbn [negb orb].
  destruct (PreserveOriginal m && negb (GetPreserveOriginal auth)) eqn:Ep; [done|].
  destruct (Bool.eqb _ _) eqn:Epp; [|done]. apply Bool.eqb_prop in Epp. cbn [negb].
  intros ([] & Hev & [= <-])%result_bind_Ok. split; try done.
  - exists p. split_and!; [done|by apply fromProto_identity|done].
  - intros E. rewrite E in Ep. by destruct (GetPreserveOriginal auth).
  - eexists. rewrite El. split; [done|].
    destruct (containsb _ (VolumeUID m)) eqn:E; [apply containsb_true in E|apply containsb_false in E].
    + split; [|done]. intros u. naive_solver.
    + split; [set_solver|]. intros. apply NoDup_app. split_and!; [done|set_solver|apply NoDup_singleton].
Qed.

Lemma may_move_replace v m snap auth st n tr :
  may_move v m snap auth st n → mark_wf m → au_NewVolumeUid auth ≠ "" → VolumeUID m ≠ au_NewVolumeUid auth →
  may_replace (Some (FMark m)) (set_Transfer n tr).
Proof.
  intros Hm [_ Hnd _] Hu Hne. destruct (mv_new _ _ _ _ _ _ Hm) as (r & -> & Hr & Hd).
  pose proof (mv_fresh _ _ _ _ _ _ Hm) as Hf. split; [split; cbn|split; cbn]; auto.
  - intros _ Hin. apply Hr in Hin as [?|?]; naive_solver.
  - right. split_and!; [done|done|]. apply Hr. by right.
  - intros u ?. apply Hr. by left.
  - by intros ->.
Qed.

Lemma verifyTransferSignatures_accepts snap auth now :
  verifyTransferSignatures lib rc snap auth now = Ok tt →
  ∃ cert, recoveryCert rc = Some cert ∧ attested lib snap cert now ∧ in_force lib auth (recoveryAnchors rc) now ∧ commits_to lib auth snap.
Proof.
  unfold verifyTransferSignatures. destruct (recoveryCert rc) as [cert|]; [|done].
  destruct (VerifySnapshotWithCertificate _ _ _ _) as [[]|] eqn:Es; [|done].
  destruct (VerifyAuthorization _ _ _ _) as [[]|] eqn:Ev; [|done].
  destruct (CheckAuthorizationMatchesSnapshot _ _ _) as [[]|] eqn:Ec; [|done]. intros _. exists cert. split; [done|].
  apply VerifySnapshotWithCertificate_iff in Es. apply VerifyAuthorization_iff in Ev as (? & [= <-] & ?).
  apply CheckAuthorizationMatchesSnapshot_iff in Ec as [_ ?]. done.
Qed.
Lemma verifyTransferSignatures_new snap auth now :
  verifyTransferSignatures lib rc snap auth now = Ok tt → au_NewVolumeUid auth ≠ "".
Proof. intros (cert & _ & _ & Hf & _)%verifyTransferSignatures_accepts. apply Hf. Qed.

(** The transfer record a committed move stores. *)
Definition transfer_record m (auth : RecoveryAuthorization) (digest : bytes) : markTransfer := {|
  mt_AuthorizationDigest := DigestHex digest; mt_FromUID := VolumeUID m; mt_FromGeneration := Generation m;
  mt_ToUID := au_NewVolumeUid auth; mt_ToGeneration := au_NewGeneration auth |}.

Inductive transfer_outcome (peer : bool) (now : Z) (req : TransferRequest) w
    : GoResult TransferOutcome → world B → Prop :=
| to_refused e w' :
    frame w w' → transfer_outcome peer now req w (Err e) w'
| to_retried snap auth digest m o w' :
    req = {| tq_Snapshot := Some snap; tq_Authorization := Some auth |} →
    AuthorizationDigest lib (Some auth) = Ok digest →
    live_mark (w_disk w) (sn_VolumeId snap) = Some m → VolumeUID m = au_NewVolumeUid auth →
    checkCommittedTransferRetry (Transfer m) auth (DigestHex digest) = Ok tt →
    disk_steps (w_disk w) (w_disk w') → w_backend w' = w_backend w →
    (∀ v, live_file (w_disk w') v = live_file (w_disk w) v) →
    o = OutcomeUnknown ∨ (o = OutcomeAlreadyCommitted ∧
      durable_file (w_disk w') (sn_VolumeId snap) = Some (FMark m)) →
    transfer_outcome peer now req w (Ok o) w'
| to_moved snap auth digest m n o w' :
    req = {| tq_Snapshot := Some snap; tq_Authorization := Some auth |} →
    peer = true → recoveryConfigured rc = true →
    AuthorizationDigest lib (Some auth) = Ok digest →
    live_mark (w_disk w) (sn_VolumeId snap) = Some m → VolumeUID m ≠ au_NewVolumeUid auth →
    verifyTransferSignatures lib rc snap auth now = Ok tt →
    may_move (sn_VolumeId snap) m snap auth (w_backend w) n →
    replaced (sn_VolumeId snap) (set_Transfer n (Some (transfer_record m auth digest))) w w' →
    o = OutcomeUnknown ∨ (o = OutcomeCommitted ∧
      durable_file (w_disk w') (sn_VolumeId snap)
        = Some (FMark (set_Transfer n (Some (transfer_record m auth digest))))) →
    transfer_outcome peer now req w (Ok o) w'.

Lemma checkTransferRequest_Ok peer req snap auth :
  checkTransferRequest rc peer req = Ok (snap, auth) →
  req = {| tq_Snapshot := Some snap; tq_Authorization := Some auth |} ∧
  peer = true ∧ recoveryConfigured rc = true.
Proof.
  unfold checkTransferRequest. destruct peer; [|done]. cbn [negb].
  destruct (recoveryConfigured rc); [|done]. cbn [negb orb]. case_bool_decide; [done|].
  destruct req as [[sn|] [au|]]; cbn; try done. destruct (_ || _); [done|]. intros [= <- <-]. done.
Qed.

Lemma TransferVolumeOwnership_spec peer now req w :
  disk_inv (w_disk w) →
  wp (TransferVolumeOwnership s lib rc peer now req) (transfer_outcome peer now req w) w.
Proof.
  intros Hi. unfold TransferVolumeOwnership. apply wp_bind, wp_lift.
  destruct (checkTransferRequest rc peer req) as [[snap auth]|e] eqn:Eq; [|by apply to_refused].
  apply checkTransferRequest_Ok in Eq as (-> & Hpeer & Hcfg).
  apply wp_bind, wp_lift. destruct (AuthorizationDigest lib (Some auth)) as [digest|e] eqn:Ed; [|by apply to_refused].
  cbn zeta beta iota. set (v := sn_VolumeId snap).
  eapply wp_call; [by apply read_spec| |intros e w1 [? _]; apply to_refused; by apply quiet_frame].
  intros [stored ex] w1 (Hq & Hg & -> & -> & Hw). apply quiet_frame in Hq as Hf. cbn beta iota.
  destruct (live_mark (w_disk w) v) as [m|] eqn:El; [|by apply wp_throw, to_refused].
  change (bool_decide (is_Some (Some m))) with true. change (default zeroMark (Some m)) with m. cbn [negb].
  specialize (Hw m eq_refl).
  assert (live_file (w_disk w) v = Some (FMark m)) as Hlf.
  { unfold live_mark in El. by destruct (live_file (w_disk w) v) as [[]|]; simplify_eq. }
  assert (live_file (w_disk w1) v = Some (FMark m)) as Hlf1 by (by rewrite (fr_live _ _ Hf)).
  case_decide as Hn.
  - apply wp_bind, wp_lift.
    destruct (checkCommittedTransferRetry _ _ _) as [[]|e] eqn:Er; [|by apply to_refused].
    eapply wp_call; [apply writeFencingMarkOutcome_spec; rewrite Hlf1; split; auto with fence| |naive_solver].
    intros o w2 (renamed & err & [= ->] & H2). apply wp_ret.
    destruct renamed.
    + destruct H2 as [Hr Hd]. eapply replaced_frame in Hr; [|exact Hf].
      eapply to_retried; try done; [apply Hr|apply Hr| |destruct err; cbn; [by left|right; auto]].
      intros v'. destruct (decide (v' = v)) as [->|Hv]; [by rewrite (rp_live _ _ _ _ Hr)|by apply Hr].
    + destruct H2 as [He Hf2]. assert (frame w w2) as Hfw by (by etrans).
      eapply to_retried; try done; [apply Hfw|apply Hfw|apply Hfw|]. cbn. destruct err; [by left|done].
  - apply wp_bind, wp_lift.
    destruct (verifyTransferSignatures _ _ _ _ _) as [[]|e] eqn:Ev; [|by apply to_refused].
    apply wp_bind. apply wp_of_run. unfold backend_op, query. intros r w2 [= <- <-].
    destruct (transferAdmittedMark _ _ _ _ _ _) as [n|e] eqn:Et.
    2:{ apply to_refused. destruct Hf. by split. }
    apply transferAdmittedMark_Ok in Et. destruct Hq as [Hqd Hqb]. rewrite Hqb in Et.
    set (nm := set_Transfer n _). set (w2 := World _ _ _).
    assert (frame w w2) as Hf2 by (by apply frame_same).
    eapply wp_call; [apply (writeFencingMarkOutcome_spec v nm)| |naive_solver].
    { change (w_disk w2) with (w_disk w1). rewrite Hlf1.
      eapply may_move_replace; try done. by eapply verifyTransferSignatures_new. }
    intros [renamed err] w3 (? & ? & [= <- <-] & H3). destruct renamed.
    + destruct H3 as [Hr Hd]. eapply replaced_frame in Hr; [|exact Hf2].
      destruct err; apply wp_ret; eapply to_moved; try done; [by left|right; auto].
    + destruct H3 as [He Hf3]. destruct err; [|done]. apply wp_throw, to_refused. by etrans.
Qed.

Lemma transfer_steps peer now req w r w' :
  TransferVolumeOwnership s lib rc peer now req w = (r, w') → disk_inv (w_disk w) →
  disk_steps (w_disk w) (w_disk w').
Proof.
  intros Hr Hi. eapply wp_run in Hr; [|by apply TransferVolumeOwnership_spec].
  destruct Hr as [e w' Hf|snap auth dg m o w' _ _ _ _ _ ? _ _ _|snap auth dg m n o w' _ _ _ _ _ _ _ _ Hr _];
    [apply Hf|done|apply Hr].
Qed.
End Transfer.

Section InspectSpec.
Context {B P : Type} (s : Server B P) (lib : Lib) (rc : RecoveryConfig).

Lemma ro_InspectVolume peer now v t : ro (InspectVolume s lib rc peer now v t).
Proof. unfold InspectVolume. ro_solve. Qed.
End InspectSpec.
