(* ===== verification/FencingTheorems.v ===== *)
(** * What fencing guarantees

    The critical sections of Fencing, seen as one relation [fenced_run], and
    the guarantees clients of the agent rely on: what a mutation can rely on
    when it runs, and which requests can never run again, whatever other
    operations, I/O failures and crashes come in between.  "Later" is
    [disk_steps]: C1 shows that every operation of the agent is a sequence of
    such steps. *)
From stdpp Require Import base numbers list strings gmap relations.
From S2P Require Import Prelude GoStd FencingMark FencingStore Backend Fencing FencingCorrect RecoveryAuth Recovery.
Open Scope Z_scope.

(** ** One relation for all fenced operations *)
Section Runs.
Context {B P : Type} (s : Server B P).
Implicit Types (w : world B) (v : string) (m : fencingMark).

(** [fenced_run v token op w err w']: a critical section of volume [v] run
    for [token] as operation class [op] took the agent from [w] to [w'] and
    returned the error [err]. *)
Inductive fenced_run v token : fenceOp → world B → option go_error → world B → Prop :=
| run_checked {A} op b check (zero : A) mutate w r w' :
    fencedChecked s v token op b check zero mutate w = (r, w') →
    fenced_run v token op w (err_of r) w'
| run_import {A} src preserve (mutate : M B go_error A) w r w' :
    fencedImport v token src preserve mutate w = (r, w') →
    fenced_run v token fenceGrant w (err_of r) w'
| run_recheck {A} op (mutate : M B go_error A) w r w' :
    recheckFence s v token op mutate w = (r, w') →
    fenced_run v token op w (err_of r) w'.

(** Any operation of the agent on any volume, or a crash; the backends may
    change on their own at any time. *)
Inductive agent_step w w' : Prop :=
| as_fenced v token op err : fenced_run v token op w err w' → agent_step w w'
| as_retire v token unexported check r :
    retireFence v token unexported check w = (r, w') → agent_step w w'
| as_transfer lib rc peer now req r :
    TransferVolumeOwnership s lib rc peer now req w = (r, w') → agent_step w w'
| as_crash l :
    (∀ f, l !! f = dk_live (w_disk w) !! f ∨ l !! f = dk_durable (w_disk w) !! f) →
    w_disk w' = Disk (dk_stateDir (w_disk w)) l l true → agent_step w w'
| as_backend : w_disk w' = w_disk w → agent_step w w'.

Lemma outcome_steps {A} v token op check (zero : A) mutate w r w' :
  fenced_outcome s v token op check zero mutate w r w' → disk_steps (w_disk w) (w_disk w').
Proof.
  destruct 1 as [e w' [-> _] _|e w' [-> _] _|e w' [-> _] _|m r w' _ _ _ _ _ _ _ _ Hr _
    |next e w' _ Hr|next w1 r w' _ _ _ Hr _ (_ & ? & _)]; try done;
    [by destruct Hr as [[]|[]]..|]. etrans; [apply Hr|done].
Qed.

Lemma fenced_run_steps v token op w err w' :
  fenced_run v token op w err w' → disk_inv (w_disk w) → disk_steps (w_disk w) (w_disk w').
Proof.
  intros Hr Hi. destruct Hr as [A op b check zero mutate w r w' Hr
                               |A src preserve mutate w r w' Hr|A op mutate w r w' Hr].
  - eapply outcome_steps, wp_run, Hr. by apply fencedChecked_spec.
  - eapply wp_run in Hr; [|by apply fencedImport_spec].
    destruct Hr as [e w' -> _|e w' -> _ _|a next e w' _ _ ? _ _|a next w' _ _ ? _ _ _]; done.
  - eapply wp_run in Hr; [|by apply recheckFence_spec]. by destruct Hr as [-> _].
Qed.

Lemma retire_steps v token unexported check w r w' :
  retireFence v token unexported check w = (r, w') → disk_inv (w_disk w) →
  disk_steps (w_disk w) (w_disk w').
Proof.
  intros Hr Hi. eapply wp_run in Hr; [|by apply retireFence_spec].
  destruct Hr as [e w' [-> _]|m w' [-> _] _ _ _|m w' [-> _] _ _|next e w' _ _ Hr|next w' _ _ _ _ Hr _];
    try done; [by destruct Hr as [[]|[]]|apply Hr].
Qed.

Lemma agent_step_steps w w' :
  agent_step w w' → disk_inv (w_disk w) → disk_steps (w_disk w) (w_disk w').
Proof.
  destruct 1 as [v token op err Hr|v token u c r Hr|lib rc peer now req r Hr|l Hs ->| ->]; intros Hi;
    [by eapply fenced_run_steps|by eapply retire_steps|by eapply transfer_steps|by apply rtc_once, ds_crash|done].
Qed.

(** ** Durable marks bound every later mark *)

Lemma later_mark d d' v m :
  disk_inv d → durable_file d v = Some (FMark m) → disk_steps d d' →
  ∃ m', live_mark d' v = Some m' ∧ rtc mark_succ m m'.
Proof.
  intros Hi Hd Hs. destruct (durable_le_steps d d' v Hs Hi) as [Hl _].
  rewrite Hd in Hl. unfold live_mark, file_le in *. destruct (live_file d' v) as [[m'|]|]; eauto; done.
Qed.

(** The request had no effect at all. *)
Definition refused (err : option go_error) w w' : Prop :=
  w_disk w' = w_disk w ∧ w_backend w' = w_backend w ∧
  ∃ e, err = Some e ∧ (status_code e = FailedPrecondition ∨ status_code e = Internal).

Lemma run_rejected v token op w err w' m e0 :
  fenced_run v token op w err w' → disk_inv (w_disk w) → live_mark (w_disk w) v = Some m →
  admits token op (Some m) = Err e0 → refused err w w'.
Proof.
  intros Hr Hi Hl Ha.
  assert (is_ok (admits token op (live_mark (w_disk w) v)) ≠ true) as Hno by (by rewrite Hl, Ha).
  destruct Hr as [A op b check zero mutate w r w' Hr
                 |A src preserve mutate w r w' Hr|A op mutate w r w' Hr].
  - eapply wp_run in Hr; [|by apply fencedChecked_spec].
    destruct Hr as [e w' [??] ?|e w' [??] He|e w' _ ?| |next e w' [] _|next w1 r w' []]; try done.
    + split_and!; eauto.
    + split_and!; [done..|]. eauto using admits_Err_code.
  - eapply wp_run in Hr; [|by apply fencedImport_spec].
    destruct Hr as [e w' ? ? ?|e w' _ _ ?|a next e w' _ [[] _]|a next w' _ [[] _]]; try done.
    split_and!; eauto.
  - eapply wp_run in Hr; [|by apply recheckFence_spec].
    destruct Hr as [? [(e & -> & ? & ?)|(m' & Hl' & [] & _)]]; [split_and!; eauto|].
    by rewrite Hl' in Hno.
Qed.

(** A run that would be rejected now, and after everything that can follow. *)
Lemma later_rejected v token op d w err w' m :
  disk_inv d → durable_file d v = Some (FMark m) → disk_steps d (w_disk w) →
  (∀ m', rtc mark_succ m m' → ∃ e, admits token op (Some m') = Err e) →
  fenced_run v token op w err w' → refused err w w'.
Proof.
  intros Hi Hd Hs Hrej Hr. destruct (later_mark d (w_disk w) v m Hi Hd Hs) as (m' & Hl & Hm).
  destruct (Hrej m' Hm) as [e He]. eapply run_rejected; try done. by eapply disk_steps_inv.
Qed.

Lemma dominated_later_rejected v token op d w err w' m :
  disk_inv d → durable_file d v = Some (FMark m) → disk_steps d (w_disk w) →
  dominated (GetVolumeUid token) (GetGeneration token) m →
  fenced_run v token op w err w' → refused err w w'.
Proof.
  intros Hi Hd Hs Hdom. eapply later_rejected; try done. intros m' Hm.
  destruct (dominated_rejected token op m') as [msg ?]; [by eapply dominated_rtc|eauto].
Qed.

(** [finished u m]: the lifecycle [u] was destroyed or retired. *)
Definition finished (u : string) (m : fencingMark) : Prop :=
  u ∈ EndedUIDs m ∨ (VolumeUID m = u ∧ Ended m = true).

Lemma finished_rtc u m m' : rtc mark_succ m m' → finished u m → finished u m'.
Proof.
  intros Hr [Hin|[<- He]]; [left; by eapply rtc_succ_retired|].
  destruct (rtc_succ_owner _ _ Hr) as [(? & _ & ?)|(_ & ?)]; [right; auto|by left].
Qed.

Lemma finished_rejected token m :
  finished (GetVolumeUid token) m → ∃ e, admits token fenceGrant (Some m) = Err e.
Proof.
  unfold admits, admitFencingToken. cbn. intros H. case_decide; [eauto|].
  destruct (containsb (EndedUIDs m) (GetVolumeUid token)) eqn:Ec; [eauto|].
  apply containsb_false in Ec. destruct H as [?|[Hu He]]; [done|].
  rewrite decide_False by (rewrite Hu; tauto). rewrite He. cbn. eauto.
Qed.

(** A successful checked operation is on record. *)
Lemma checked_ok_durable {A} v token op b check (zero : A) mutate w a w' :
  fencedChecked s v token op b check zero mutate w = (Ok a, w') → disk_inv (w_disk w) →
  ∃ m, durable_file (w_disk w') v = Some (FMark m) ∧ VolumeUID m = GetVolumeUid token ∧
       Generation m = GetGeneration token ∧ (op = fenceDestroy → Ended m = true).
Proof.
  intros Hr Hi. eapply wp_run in Hr; [|by apply fencedChecked_spec].
  inversion Hr as [| | |m r' ? _ _ Hu Hg He _ _ _ _ Hd| |next w1 r' ? Hn _ _ Hrep Hd Hran]; simplify_eq/=.
  - destruct Hd as [[_ Hd]|[? ?]]; [|done]. by exists m.
  - destruct Hran as (_ & _ & Hran). destruct (match mutate with Some _ => _ | None => _ end).1; [|naive_solver].
    destruct (bool_decide (op = fenceDestroy)) eqn:Eo; cbn in Hran; [destruct (Ended next) eqn:En; cbn in Hran|];
      [| |apply bool_decide_eq_false in Eo].
    + destruct Hran as [_ ->]. exists next. split_and!; [done|apply Hn|apply Hn|done].
    + destruct Hran as [[_ Hd']|[? ?]]; [|done]. exists (set_Ended next). split_and!; [done|apply Hn|apply Hn|done].
    + destruct Hran as [_ ->]. exists next. split_and!; [done|apply Hn|apply Hn|done].
Qed.

Lemma agent_steps_steps w w' :
  rtc agent_step w w' → disk_inv (w_disk w) →
  disk_inv (w_disk w') ∧ disk_steps (w_disk w) (w_disk w').
Proof.
  induction 1 as [w|w w1 w' Hs _ IH]; [done|]. intros Hi. pose proof (agent_step_steps _ _ Hs Hi) as H1.
  destruct IH as [? H2]; [by eapply disk_steps_inv|]. split; [done|by etrans].
Qed.
End Runs.

(** ** Guarantees *)
Section Guarantees.
Context {B P : Type} (s : Server B P).
Implicit Types (w : world B) (v : string).

(** C1: whatever operations the agent runs and wherever it crashes, the state
    directory only moves by the atomic steps of [disk_step]: marks are
    replaced by successors only, readers never see a torn mark, and the
    directory invariant holds. *)
Theorem agent_refines_disk w w' :
  rtc (agent_step s) w w' → disk_inv (w_disk w) →
  disk_steps (w_disk w) (w_disk w') ∧ disk_inv (w_disk w').
Proof. intros Hs Hi. by destruct (agent_steps_steps s w w' Hs Hi). Qed.

(** C3: if a fenced operation changed the backend, its mutation ran once, on
    the backend state it found, after a mark with exactly the request's
    lifecycle and generation had become durable; a grant never ran on an
    ended lifecycle, and unless it is the retry of a finished destroy the
    policy check and (for all but revokes) the pinned-source verification had
    passed on the mark it found. *)
Theorem mutation_after_durable_mark {A} v token op b check (zero : A) mutate w r w' :
  fencedChecked s v token op b check zero (Some mutate) w = (r, w') →
  disk_inv (w_disk w) → w_backend w' ≠ w_backend w →
  ∃ d next,
    disk_steps (w_disk w) d ∧ disk_steps d (w_disk w') ∧
    durable_file d v = Some (FMark next) ∧
    VolumeUID next = GetVolumeUid token ∧ Generation next = GetGeneration token ∧
    (op = fenceGrant → Ended next = false) ∧
    (Ended next = false →
       passed s v op check (default zeroMark (live_mark (w_disk w) v)) (w_backend w)) ∧
    w_backend w' = (mutate (w_backend w)).2.
Proof.
  intros Hr Hi Hb. eapply wp_run in Hr; [|by apply fencedChecked_spec].
  destruct Hr as [e w' [??] _|e w' [??] _|e w' [??] _|m r w' _ _ _ _ _ _ _ Hbk _ _
    |next e w' _ Hr|next w1 r w' Hn Hp _ Hrep Hd Hran]; try done.
  { by destruct Hr as [[]|[]]. }
  destruct Hran as (Hbk & Hs & _). rewrite (rp_backend _ _ _ _ Hrep) in Hbk.
  exists (w_disk w1), next. split_and!; try done; apply Hn || apply Hrep.
Qed.

(** Once an operation of lifecycle [uid] at generation [g1] succeeded, no
    operation of [uid] at a smaller generation ever has an effect again, on
    any later state of the agent: it is refused and changes neither a mark
    nor the backend. *)
Theorem superseded_never_runs {A} v uid g1 g2 op1 op2 b check (zero : A) mutate w1 a w1' w2 err w2' :
  fencedChecked s v (Some {| VolumeUid := uid; TokenGeneration := g1 |}) op1 b check zero mutate w1
    = (Ok a, w1') →
  disk_inv (w_disk w1) → g2 < g1 →
  rtc (agent_step s) w1' w2 →
  fenced_run s v (Some {| VolumeUid := uid; TokenGeneration := g2 |}) op2 w2 err w2' →
  refused err w2 w2'.
Proof.
  intros H1 Hi Hg Hs H2.
  destruct (checked_ok_durable s _ _ _ _ _ _ _ _ _ _ H1 Hi) as (m & Hd & Hu & Hgen & _).
  assert (disk_steps (w_disk w1) (w_disk w1')) as Hs1 by (eapply fenced_run_steps; [by eapply run_checked|done]).
  assert (disk_inv (w_disk w1')) as Hi1 by (by eapply disk_steps_inv).
  destruct (agent_steps_steps s _ _ Hs Hi1) as [_ Hs2].
  eapply (dominated_later_rejected s _ _ _ (w_disk w1')); try done. right. cbn in *. split; [done|lia].
Qed.

(** C34: once the destroy of lifecycle [uid] succeeded, nothing is ever created
    or granted for [uid] again: every later grant or import with a token of
    [uid], at any generation, is refused without effect. *)
Theorem destroyed_never_granted {A} v uid g1 g2 b check (zero : A) mutate w1 a w1' w2 err w2' :
  fencedChecked s v (Some {| VolumeUid := uid; TokenGeneration := g1 |}) fenceDestroy b check zero mutate w1
    = (Ok a, w1') →
  disk_inv (w_disk w1) →
  rtc (agent_step s) w1' w2 →
  fenced_run s v (Some {| VolumeUid := uid; TokenGeneration := g2 |}) fenceGrant w2 err w2' →
  refused err w2 w2'.
Proof.
  intros H1 Hi Hs H2.
  destruct (checked_ok_durable s _ _ _ _ _ _ _ _ _ _ H1 Hi) as (m & Hd & Hu & _ & He).
  assert (disk_steps (w_disk w1) (w_disk w1')) as Hs1 by (eapply fenced_run_steps; [by eapply run_checked|done]).
  assert (disk_inv (w_disk w1')) as Hi1 by (by eapply disk_steps_inv).
  destruct (agent_steps_steps s _ _ Hs Hi1) as [_ Hs2].
  eapply (later_rejected s _ _ _ (w_disk w1')); try done. intros m' Hm. apply finished_rejected.
  eapply finished_rtc; [done|]. right. auto.
Qed.

(** A volume ID passes from one lifecycle to another only once: after an
    operation of [u1] succeeded and later one of [u2], no operation of [u1]
    of any class or generation has an effect again. *)
Theorem former_owner_locked_out {A1 A2} v u1 g1 op1 b1 c1 (z1 : A1) f1 w1 a1 w1'
    u2 g2 op2 b2 c2 (z2 : A2) f2 w2 a2 w2' g3 op3 w3 err w3' :
  fencedChecked s v (Some {| VolumeUid := u1; TokenGeneration := g1 |}) op1 b1 c1 z1 f1 w1 = (Ok a1, w1') →
  disk_inv (w_disk w1) → u1 ≠ u2 →
  rtc (agent_step s) w1' w2 →
  fencedChecked s v (Some {| VolumeUid := u2; TokenGeneration := g2 |}) op2 b2 c2 z2 f2 w2 = (Ok a2, w2') →
  rtc (agent_step s) w2' w3 →
  fenced_run s v (Some {| VolumeUid := u1; TokenGeneration := g3 |}) op3 w3 err w3' →
  refused err w3 w3'.
Proof.
  intros H1 Hi Hne Hs1 H2 Hs2 H3.
  destruct (checked_ok_durable s _ _ _ _ _ _ _ _ _ _ H1 Hi) as (m1 & Hd1 & Hu1 & _).
  assert (disk_inv (w_disk w1')) as Hi1.
  { eapply disk_steps_inv, Hi. eapply fenced_run_steps; [by eapply run_checked|done]. }
  destruct (agent_steps_steps s _ _ Hs1 Hi1) as [Hi2 Hst1].
  assert (disk_steps (w_disk w2) (w_disk w2')) as Hst2 by (eapply fenced_run_steps; [by eapply run_checked|done]).
  assert (disk_inv (w_disk w2')) as Hi2' by (by eapply disk_steps_inv).
  destruct (checked_ok_durable s _ _ _ _ _ _ _ _ _ _ H2 Hi2) as (m2 & Hd2 & Hu2 & _).
  destruct (agent_steps_steps s _ _ Hs2 Hi2') as [Hi3 Hst3].
  destruct (durable_le_steps (w_disk w1') (w_disk w2') v) as [_ Hle]; [by etrans|done|].
  rewrite Hd1, Hd2 in Hle. change (rtc mark_succ m1 m2) in Hle.
  eapply (dominated_later_rejected s _ _ _ (w_disk w2')); try done. left. cbn in *.
  destruct (rtc_succ_owner _ _ Hle) as [(? & _)|[_ ?]]; [congruence|by rewrite <-Hu1].
Qed.

(** While a lifecycle owns a volume and has not ended, every operation of
    another lifecycle on it is refused without effect. *)
Theorem owner_is_exclusive v token op w err w' m :
  fenced_run s v token op w err w' → disk_inv (w_disk w) →
  live_mark (w_disk w) v = Some m → Ended m = false → VolumeUID m ≠ GetVolumeUid token →
  refused err w w'.
Proof.
  intros Hr Hi Hl He Hne. destruct (admits token op (Some m)) as [adm|e] eqn:Ha.
  - destruct (admits_sound _ _ _ _ Ha) as (_ & (_ & [(? & _)|[(? & _)|(_ & ? & _)]]) & _); congruence.
  - by eapply run_rejected.
Qed.

(** A lifecycle whose release succeeded never acts on the volume again, in
    any class or generation, provided no mark change of the volume was left
    unsynced before the release. *)
Theorem released_never_runs v uid g1 g2 unexported check w1 w1' op w2 err w2' :
  retireFence v (Some {| VolumeUid := uid; TokenGeneration := g1 |}) unexported check w1 = (Ok false, w1') →
  disk_inv (w_disk w1) → durable_file (w_disk w1) v = live_file (w_disk w1) v →
  rtc (agent_step s) w1' w2 →
  fenced_run s v (Some {| VolumeUid := uid; TokenGeneration := g2 |}) op w2 err w2' →
  refused err w2 w2'.
Proof.
  intros H1 Hi Hsync Hs H2. pose proof (retire_steps _ _ _ _ _ _ _ H1 Hi) as Hs1.
  assert (disk_inv (w_disk w1')) as Hi1 by (by eapply disk_steps_inv).
  destruct (agent_steps_steps s _ _ Hs Hi1) as [_ Hs2].
  eapply wp_run in H1; [|by apply retireFence_spec].
  assert (∃ m, durable_file (w_disk w1') v = Some (FMark m) ∧ uid ∈ EndedUIDs m) as (m & Hd & Hin).
  { inversion H1 as [| |m w' [Hq _] Hl Hin| |next w' _ Hin _ _ _ Hd]; simplify_eq/=; [|by eauto].
    exists m. split; [|done]. rewrite Hq, Hsync. unfold live_mark in Hl.
    by destruct (live_file (w_disk w1) v) as [[]|]; simplify_eq. }
  eapply (dominated_later_rejected s _ _ _ (w_disk w1')); try done. by left.
Qed.

(** An import that is refused, by the fence, by the pinned source or by
    the backend, leaves no trace in the state directory; one that succeeds
    leaves a durable mark of the importing lifecycle that keeps the pin the
    volume ID already had, or records the imported source. *)
Theorem import_binds_or_leaves_no_trace {A} v token src preserve (mutate : M B go_error A) w r w' :
  fencedImport v token src preserve mutate w = (r, w') → disk_inv (w_disk w) →
  match r with
  | Ok a =>
      mutate (w_backend w) = (Ok a, w_backend w') ∧
      ∃ next, durable_file (w_disk w') v = Some (FMark next) ∧
              import_next token (live_mark (w_disk w) v) src preserve next
  | Err _ =>
      (is_ok (mutate (w_backend w)).1 = false ∨
       is_ok (admits token fenceGrant (live_mark (w_disk w) v)) = false) →
      w_disk w' = w_disk w
  end.
Proof.
  intros Hr Hi. eapply wp_run in Hr; [|by apply fencedImport_spec].
  destruct Hr as [e w' Hd _ _|e w' Hd _ _|a next e w' Hm [Hn _]|a next w' Hm Hn _ _ _ Hd];
    [done|done| |eauto].
  rewrite Hm, (an_admitted _ _ _ _ Hn). by intros [|].
Qed.

(** A recheck runs its mutation only while the live mark still carries
    exactly the caller's token, and never touches the state directory. *)
Theorem recheck_runs_only_current {A} v token op (mutate : M B go_error A) w r w' :
  recheckFence s v token op mutate w = (r, w') → disk_inv (w_disk w) →
  w_disk w' = w_disk w ∧
  (w_backend w' = w_backend w ∨
   ∃ m, live_mark (w_disk w) v = Some m ∧ VolumeUID m = GetVolumeUid token ∧
        Generation m = GetGeneration token ∧ (op = fenceGrant → Ended m = false) ∧
        (op ≠ fenceRevoke → Ended m = false → verifyPinnedSource s v m (w_backend w) = Ok tt) ∧
        mutate (w_backend w) = (r, w_backend w')).
Proof.
  intros Hr Hi. eapply wp_run in Hr; [|by apply recheckFence_spec].
  destruct Hr as [? [(e & _ & ? & _)|(m & ? & [] & ? & ?)]]; split; auto.
  right. exists m. by split_and!.
Qed.
End Guarantees.

(** ** Concrete runs

    A server without backends, whose "backend" counts the mutations run. *)
Definition ex_server : Server nat unit := {|
  backends := ∅; backendVariants := ∅; nfsManager := false;
  handlerForProtocol := λ _, Err (EStatus Unimplemented "no protocol");
  ResizeNamespace := λ _, mret tt; configfsRoot := ""; configfs := λ _ _, CfsAbsent |}.

Definition ex_disk : disk := Disk false ∅ ∅ false.
Definition ex_world : world nat := World ex_disk [] 0%nat.
Definition ex_token (u : string) (g : Z) : option FencingToken :=
  Some {| VolumeUid := u; TokenGeneration := g |}.
Definition ex_mutate : M nat go_error unit := λ n, (Ok tt, S n).

Definition ex_fenced (u : string) (g : Z) (op : fenceOp) (w : world nat) : GoResult unit * world nat :=
  fencedChecked ex_server "tank/pvc-1" (ex_token u g) op None None tt (Some ex_mutate) w.

Lemma ex_disk_inv : disk_inv ex_disk.
Proof. split; [done|by intros v|by intros v]. Qed.

(** The state after a grant of ["u1"] at generation 2, and after its destroy. *)
Definition ex_granted : world nat := (ex_fenced "u1" 2 fenceGrant ex_world).2.
Definition ex_destroyed : world nat := (ex_fenced "u1" 3 fenceDestroy ex_granted).2.
Definition ex_reused : world nat := (ex_fenced "u2" 1 fenceGrant ex_destroyed).2.

Lemma ex_granted_eq : ex_fenced "u1" 2 fenceGrant ex_world = (Ok tt, ex_granted).
Proof. vm_compute. reflexivity. Qed.
Lemma ex_destroyed_eq : ex_fenced "u1" 3 fenceDestroy ex_granted = (Ok tt, ex_destroyed).
Proof. vm_compute. reflexivity. Qed.
Lemma ex_reused_eq : ex_fenced "u2" 1 fenceGrant ex_destroyed = (Ok tt, ex_reused).
Proof. vm_compute. reflexivity. Qed.

Lemma ex_run u g op w r w' :
  ex_fenced u g op w = (r, w') →
  fenced_run ex_server "tank/pvc-1" (ex_token u g) op w (err_of r) w'.
Proof. apply run_checked. Qed.

Lemma ex_granted_inv : disk_inv (w_disk ex_granted).
Proof.
  eapply (disk_steps_inv (w_disk ex_world)); [|exact ex_disk_inv].
  eapply fenced_run_steps; [apply ex_run, ex_granted_eq|exact ex_disk_inv].
Qed.

Lemma agent_refines_disk_witness : disk_steps ex_disk (w_disk ex_granted) ∧ disk_inv (w_disk ex_granted).
Proof.
  apply (agent_refines_disk ex_server ex_world ex_granted); [|exact ex_disk_inv].
  apply rtc_once. eapply as_fenced, ex_run, ex_granted_eq.
Defined.

Lemma mutation_after_durable_mark_witness :
  ∃ d next, disk_steps ex_disk d ∧ disk_steps d (w_disk ex_granted) ∧
    durable_file d "tank/pvc-1" = Some (FMark next) ∧ VolumeUID next = "u1" ∧ Generation next = 2.
Proof.
  destruct (mutation_after_durable_mark ex_server "tank/pvc-1" (ex_token "u1" 2) fenceGrant None None tt
              ex_mutate ex_world (Ok tt) ex_granted ex_granted_eq ex_disk_inv)
    as (d & next & ? & ? & ? & ? & ? & _); [by vm_compute|].
  exists d, next. auto.
Defined.

Lemma superseded_never_runs_witness :
  refused (err_of (ex_fenced "u1" 1 fenceGrant ex_granted).1) ex_granted
          (ex_fenced "u1" 1 fenceGrant ex_granted).2.
Proof.
  apply (superseded_never_runs ex_server "tank/pvc-1" "u1" 2 1 fenceGrant fenceGrant None None tt
           (Some ex_mutate) ex_world tt ex_granted); [exact ex_granted_eq|exact ex_disk_inv|lia|apply rtc_refl|].
  apply ex_run. destruct (ex_fenced _ _ _ _); reflexivity.
Defined.

Lemma destroyed_never_granted_witness :
  refused (err_of (ex_fenced "u1" 9 fenceGrant ex_destroyed).1) ex_destroyed
          (ex_fenced "u1" 9 fenceGrant ex_destroyed).2.
Proof.
  apply (destroyed_never_granted ex_server "tank/pvc-1" "u1" 3 9 None None tt
           (Some ex_mutate) ex_granted tt ex_destroyed); [exact ex_destroyed_eq|exact ex_granted_inv|apply rtc_refl|].
  apply ex_run. destruct (ex_fenced _ _ _ _); reflexivity.
Defined.

Lemma former_owner_locked_out_witness :
  refused (err_of (ex_fenced "u1" 9 fenceRevoke ex_reused).1) ex_reused
          (ex_fenced "u1" 9 fenceRevoke ex_reused).2.
Proof.
  apply (former_owner_locked_out ex_server "tank/pvc-1" "u1" 2 fenceGrant None None tt (Some ex_mutate)
           ex_world tt ex_granted "u2" 1 fenceGrant None None tt (Some ex_mutate) ex_destroyed tt ex_reused
           9 fenceRevoke); [exact ex_granted_eq|exact ex_disk_inv|done| |exact ex_reused_eq|apply rtc_refl|].
  - apply rtc_once. eapply as_fenced, ex_run, ex_destroyed_eq.
  - apply ex_run. destruct (ex_fenced _ _ _ _); reflexivity.
Defined.

Lemma owner_is_exclusive_witness :
  refused (err_of (ex_fenced "u2" 7 fenceDestroy ex_granted).1) ex_granted
          (ex_fenced "u2" 7 fenceDestroy ex_granted).2.
Proof.
  apply (owner_is_exclusive ex_server "tank/pvc-1" (ex_token "u2" 7) fenceDestroy _ _ _
           (mark_of "u1" 2 false [] None false)).
  - apply ex_run. destruct (ex_fenced _ _ _ _); reflexivity.
  - exact ex_granted_inv.
  - vm_compute. reflexivity.
  - reflexivity.
  - done.
Defined.

Definition ex_released : world nat := (retireFence "tank/pvc-1" (ex_token "u1" 2) true None ex_granted).2.

Lemma released_never_runs_witness :
  refused (err_of (ex_fenced "u1" 8 fenceGrant ex_released).1) ex_released
          (ex_fenced "u1" 8 fenceGrant ex_released).2.
Proof.
  apply (released_never_runs ex_server "tank/pvc-1" "u1" 2 8 true None ex_granted ex_released fenceGrant).
  - vm_compute. reflexivity.
  - exact ex_granted_inv.
  - vm_compute. reflexivity.
  - apply rtc_refl.
  - apply ex_run. destruct (ex_fenced _ _ _ _); reflexivity.
Defined.

Definition ex_imported : GoResult nat * world nat :=
  fencedImport "tank/pvc-1" (ex_token "u1" 1) None false (λ n, (Ok n, n)) ex_world.

Lemma import_binds_or_leaves_no_trace_witness :
  ∃ next, durable_file (w_disk ex_imported.2) "tank/pvc-1" = Some (FMark next) ∧ VolumeUID next = "u1".
Proof.
  destruct (import_binds_or_leaves_no_trace "tank/pvc-1" (ex_token "u1" 1) None false (λ n, (Ok n, n))
              ex_world (Ok 0%nat) ex_imported.2) as (_ & next & Hd & [Hn _]).
  - vm_compute. reflexivity.
  - exact ex_disk_inv.
  - exists next. split; [exact Hd|apply (an_uid _ _ _ _ Hn)].
Defined.

Lemma recheck_runs_only_current_witness :
  w_disk (recheckFence ex_server "tank/pvc-1" (ex_token "u1" 2) fenceGrant ex_mutate ex_granted).2
  = w_disk ex_granted.
Proof.
  apply (recheck_runs_only_current ex_server "tank/pvc-1" (ex_token "u1" 2) fenceGrant ex_mutate ex_granted
           (recheckFence ex_server "tank/pvc-1" (ex_token "u1" 2) fenceGrant ex_mutate ex_granted).1).
  - destruct (recheckFence _ _ _ _ _ _); reflexivity.
  - exact ex_granted_inv.
Defined.

(** *** A release that does not survive a crash

    Outcomes of the system calls of a retirement whose final fsync fails:
    two to read the mark, three to open the directories, four to write the
    temporary file, one to rename it, one to open the directory, then the
    fsync itself. *)
Definition ex_fsyncFails : list bool := repeat false 11 ++ [true].
Definition ex_release1 : GoResult bool * world nat :=
  retireFence "tank/pvc-1" (ex_token "u1" 2) true None
    (World (w_disk ex_granted) ex_fsyncFails (w_backend ex_granted)).
Definition ex_release2 : GoResult bool * world nat :=
  retireFence "tank/pvc-1" (ex_token "u1" 2) true None ex_release1.2.
(** What a crash leaves when the unsynced rename is lost. *)
Definition ex_crashed : world nat :=
  World (Disk true (dk_durable (w_disk ex_release2.2)) (dk_durable (w_disk ex_release2.2)) true) []
        (w_backend ex_release2.2).

(** C37: [retireFence] answers success for an already retired lifecycle without
    syncing the mark, so a release retried after a failed fsync can be lost:
    here the retry succeeds, the agent crashes, and the released lifecycle's
    grant runs. *)
Theorem release_retry_not_durable :
  is_ok ex_release1.1 = false ∧
  ex_release2.1 = Ok false ∧
  agent_step ex_server ex_release2.2 ex_crashed ∧
  ex_fenced "u1" 3 fenceGrant ex_crashed = (Ok tt, (ex_fenced "u1" 3 fenceGrant ex_crashed).2) ∧
  w_backend (ex_fenced "u1" 3 fenceGrant ex_crashed).2 = S (w_backend ex_crashed).
Proof.
  split_and!; [by vm_compute|by vm_compute| |by vm_compute|by vm_compute].
  eapply (as_crash _ _ _ (dk_durable (w_disk ex_release2.2))); [by right|reflexivity].
Qed.
