(* ===== verification/AgentServerCorrect.v ===== *)
(** * Correctness of the agent's volume RPCs

    Every RPC is a sequence of [agent_step]s, so the guarantees of
    FencingTheorems apply to it; on top of them, what the policy checks of
    the RPCs promise about adopted (pinned) volumes, and that ReleaseVolume
    ends. *)
From stdpp Require Import base numbers list strings gmap relations.
From Stdlib Require Import Ascii.
From S2P Require Import Prelude GoStd FencingMark FencingStore Backend Fencing FencingCorrect FencingTheorems.
From S2P Require Import AgentServer.
Open Scope Z_scope.

(** The contract of [AgentProtocolHandler]: a handler mutates target state
    only inside the fenced section of the volume it is called for. *)
Class FencedHandler {B P} (s : Server B P) (h : AgentProtocolHandler B P) : Prop :=
  unexport_fenced v token w r w' :
    Unexport h v token w = (r, w') →
    w' = w ∧ is_ok r = false ∨ fenced_run s v token fenceRevoke w (err_of r) w'.

(** A handler with the iSCSI handler's Unexport keeps the contract. *)
Lemma iscsiUnexport_fenced {B P} (s : Server B P) (h : AgentProtocolHandler B P) remove :
  Unexport h = iscsiUnexport s remove → FencedHandler s h.
Proof.
  intros Hh v token w r w' H. rewrite Hh in H. unfold iscsiUnexport, lift, mbind, M_bind in H.
  destruct (targetForVolume v) as [iqn|e]; [right; by eapply run_checked|left; by simplify_eq].
Qed.

Section Correct.
Context {B P : Type} (s : Server B P) (fs : FilesystemService B P).
Implicit Types (w : world B) (v : string).

Lemma run_lift {A C} (r : GoResult A) (f : A → Agent B C) w :
  (lift r ≫= f) w = match r with Ok a => f a w | Err e => (Err e, w) end.
Proof. by destruct r. Qed.

Lemma map_err_run {W A} f (m : M W go_error A) (x : W) :
  map_err f m x = (match (m x).1 with Ok a => Ok a | Err e => Err (f e) end, (m x).2).
Proof. unfold map_err, try, mbind, M_bind. destruct (m x) as [[a|e] w']; done. Qed.

Lemma CreateVolume_run (req : CreateVolumeRequest P) w r w' :
  CreateVolume s req w = (r, w') →
  w' = w ∨ ∃ b, backendForType s (cr_VolumeId req) (cr_BackendType req) = Ok b ∧
    fencedChecked s (cr_VolumeId req) (cr_Fence req) fenceGrant (Some b) (Some refusePinnedCreate)
      (""%string, 0) (Some (map_err createVolumeError
        (be_Create b (cr_VolumeId req) (cr_CapacityBytes req) (cr_BackendParams req)))) w = (r, w').
Proof.
  unfold CreateVolume. rewrite run_lift. destruct (backendForType _ _ _) as [b|] eqn:Eb; [|intros [= <- <-]; by left].
  rewrite run_lift. destruct (checkBackendType _ _) as [[]|]; [|intros [= <- <-]; by left].
  intros H. right. eauto.
Qed.

Lemma ExpandVolume_run req w r w' :
  ExpandVolume s req w = (r, w') →
  w' = w ∨ ∃ b mutate, backendForType s (er_VolumeId req) (er_BackendType req) = Ok b ∧
    fencedChecked s (er_VolumeId req) (er_Fence req) fenceGrant (Some b) (Some refusePreserved) 0
      (Some mutate) w = (r, w').
Proof.
  unfold ExpandVolume. rewrite run_lift. destruct (backendForType _ _ _) as [b|]; [|intros [= <- <-]; by left].
  rewrite run_lift. destruct (checkBackendType _ _) as [[]|]; [|intros [= <- <-]; by left].
  intros H. right. eauto.
Qed.

Lemma checkBackendType_Ok requested configured :
  checkBackendType requested configured = Ok tt → requested = configured.
Proof. unfold checkBackendType. destruct requested; try done; case_decide; try done; intros _; by apply dec_stable. Qed.

(** A delete of a block volume is its fenced section. *)
Lemma DeleteVolume_run req w r w' :
  DeleteVolume s fs req w = (r, w') → dr_FilesystemAdoption req = None →
  dr_BackendType req ≠ BACKEND_TYPE_ZFS_DATASET →
  w' = w ∨ ∃ b, backendForType s (dr_VolumeId req) (dr_BackendType req) = Ok b ∧
    fencedChecked s (dr_VolumeId req) (dr_Fence req) fenceDestroy (Some b) (Some refusePreserved) tt
      (Some (map_err (λ _, EStatus Internal "DeleteVolume") (be_Delete b (dr_VolumeId req)))) w = (r, w').
Proof.
  unfold DeleteVolume. intros H Hf Ht. rewrite Hf in H. rewrite run_lift in H.
  destruct (backendForType _ _ _) as [b|]; [|by simplify_eq; left].
  rewrite run_lift in H. destruct (checkBackendType _ _) as [[]|] eqn:Ec; [|by simplify_eq; left].
  apply checkBackendType_Ok in Ec. rewrite decide_False in H by congruence.
  right. exists b. by split.
Qed.

Lemma ImportVolume_run (req : ImportVolumeRequest P) w r w' :
  ImportVolume s fs req w = (r, w') → ir_FilesystemAdoption req = None →
  w' = w ∧ is_ok r = false ∨ ∃ src preserve q,
    fencedImport (ir_VolumeId req) (ir_Fence req) src preserve
      (map_err importVolumeError (query q)) w = (r, w') ∧
    (ir_BackendType req = BACKEND_TYPE_LVM →
       src = markLVMSourceFromProto (ir_ExpectedLvmSource req) ∧ ir_ExpectedLvmSource req ≠ None ∧
       preserve = default true (ir_PreserveOriginal req)).
Proof.
  unfold ImportVolume. intros H Hf. rewrite Hf in H. rewrite run_lift in H.
  destruct (backendForType _ _ _) as [b|]; [|by simplify_eq; left].
  rewrite run_lift in H. destruct (checkBackendType _ _) as [[]|] eqn:Ec; [|by simplify_eq; left].
  apply checkBackendType_Ok in Ec. case_decide as Ht.
  - unfold importLV in H. destruct (ir_ExpectedLvmSource req) as [x|] eqn:Ex; [|unfold throw in H; simplify_eq; by left].
    destruct (negb _); [unfold throw in H; simplify_eq; by left|].
    case_decide; [unfold throw in H; simplify_eq; by left|].
    destruct (be_ImportLV b); [|unfold throw in H; simplify_eq; by left].
    right. do 3 eexists. split; [exact H|]. intros _. split_and!; [done..|].
    by destruct (ir_PreserveOriginal req).
  - destruct (bool_decide _); [unfold throw in H; simplify_eq; by left|].
    destruct (be_Import b); [|unfold throw in H; simplify_eq; by left].
    right. do 3 eexists. split; [exact H|]. intros E. by rewrite E in Ec.
Qed.

(** ** Pins are for ever *)

Lemma rtc_succ_pin m m' p : rtc mark_succ m m' → LVMSource m = Some p → LVMSource m' = Some p.
Proof. induction 1 as [|m m1 m' Hs _ IH]; [done|]. intros. by apply IH, Hs. Qed.
Lemma rtc_succ_preserve m m' :
  rtc mark_succ m m' → PreserveOriginal m = true → PreserveOriginal m' = true.
Proof. induction 1 as [|m m1 m' Hs _ IH]; [done|]. intros. by apply IH, Hs. Qed.

(** A fenced section whose check refuses the live mark does not mutate. *)
Lemma checked_refuses {A} v token op b (c : fencingMark → B → GoResult unit) (zero : A) mutate w r w' m :
  fencedChecked s v token op b (Some c) zero mutate w = (r, w') → disk_inv (w_disk w) →
  live_mark (w_disk w) v = Some m → is_ok (c m (w_backend w)) = false → LVMSource m ≠ None →
  op ≠ fenceRevoke → w_backend w' = w_backend w.
Proof.
  intros Hr Hi Hl Hc Hpin Hop. eapply wp_run in Hr; [|by apply fencedChecked_spec].
  destruct Hr as [e w' [??] _|e w' [??] _|e w' [??] _|m' r w' _ _ _ _ _ _ _ Hbk _ _
    |next e w' _ Hr|next w1 r w' Hn Hp Ht _ _ _]; try done.
  { by destruct Hr as [[]|[]]. }
  rewrite Hl in *. destruct (Ended next) eqn:En.
  - destruct (LVMSource m) as [p|] eqn:El; [|done].
    pose proof (succ_pin _ _ (an_succ _ _ _ _ Hn m eq_refl) p El) as Hpn.
    destruct op; [by rewrite (an_grant _ _ _ _ Hn eq_refl) in En|done|]. rewrite Ht in Hpn; done.
  - destruct (Hp eq_refl) as [Hp' _]. cbn in Hp'. by rewrite (Hp' c eq_refl) in Hc.
Qed.

(** C8: once an LVM import without an explicit opt-out succeeded, the adopted
    LV is never provisioned over, deleted or resized through its volume ID:
    on every later state CreateVolume, DeleteVolume and ExpandVolume leave
    the backend as it is, for every token. *)
Theorem preserved_never_destroyed (ireq : ImportVolumeRequest P) x w0 w1 w :
  ImportVolume s fs ireq w0 = (Ok x, w1) → disk_inv (w_disk w0) →
  ir_FilesystemAdoption ireq = None → ir_BackendType ireq = BACKEND_TYPE_LVM →
  ir_PreserveOriginal ireq ≠ Some false →
  rtc (agent_step s) w1 w →
  (∀ (req : CreateVolumeRequest P) r w', cr_VolumeId req = ir_VolumeId ireq →
     CreateVolume s req w = (r, w') → w_backend w' = w_backend w) ∧
  (∀ req r w', dr_VolumeId req = ir_VolumeId ireq → dr_FilesystemAdoption req = None →
     dr_BackendType req ≠ BACKEND_TYPE_ZFS_DATASET →
     DeleteVolume s fs req w = (r, w') → w_backend w' = w_backend w) ∧
  (∀ req r w', er_VolumeId req = ir_VolumeId ireq →
     ExpandVolume s req w = (r, w') → w_backend w' = w_backend w).
Proof.
  intros Hi0 Hinv Hf Ht Hpres Hs.
  destruct (ImportVolume_run _ _ _ _ Hi0 Hf) as [[_ ?]|(src & preserve & q & Hrun & Hl)]; [done|].
  destruct (Hl Ht) as (-> & Hx & ->).
  pose proof (fenced_run_steps s _ _ _ _ _ _ (run_import s _ _ _ _ _ _ _ _ Hrun) Hinv) as Hst.
  assert (disk_inv (w_disk w1)) as Hinv1 by (by eapply disk_steps_inv).
  destruct (agent_steps_steps s _ _ Hs Hinv1) as [Hinvw Hsw].
  eapply wp_run in Hrun; [|by apply fencedImport_spec].
  inversion Hrun as [| | |a next w' _ [Hn (Hsrc & _ & _ & Hpo)] _ _ _ Hd]; simplify_eq.
  destruct (ir_ExpectedLvmSource ireq) as [i|]; [|done]. cbn in Hsrc, Hpo.
  assert (∃ p, LVMSource next = Some p) as [p Hp] by (destruct (LVMSource (default _ _)); eauto).
  assert (PreserveOriginal next = true) as Hpr.
  { rewrite Hpo. destruct (ir_PreserveOriginal ireq) as [[]|]; [by rewrite orb_true_r|done|by rewrite orb_true_r]. }
  destruct (later_mark _ _ _ _ Hinv1 Hd Hsw) as (m & Hlm & Hrtc).
  pose proof (rtc_succ_pin _ _ _ Hrtc Hp) as Hpm. pose proof (rtc_succ_preserve _ _ Hrtc Hpr) as Hprm.
  split_and!.
  - intros req r w' Hv H. destruct (CreateVolume_run _ _ _ _ H) as [->|(b & _ & Hc)]; [done|].
    rewrite Hv in Hc. eapply checked_refuses; try done; [by unfold refusePinnedCreate; rewrite Hpm|by rewrite Hpm].
  - intros req r w' Hv Hfa Hty H. destruct (DeleteVolume_run _ _ _ _ H Hfa Hty) as [->|(b & _ & Hc)]; [done|].
    rewrite Hv in Hc. eapply checked_refuses; try done; [by unfold refusePreserved; rewrite Hprm|by rewrite Hpm].
  - intros req r w' Hv H. destruct (ExpandVolume_run _ _ _ _ H) as [->|(b & f & _ & Hc)]; [done|].
    rewrite Hv in Hc. eapply checked_refuses; try done; [by unfold refusePreserved; rewrite Hprm|by rewrite Hpm].
Qed.

(** DeleteVolume deletes the storage of a volume pinned to an adopted LV
    only in a backend state in which the volume ID still resolves to exactly
    that LV. *)
Theorem delete_pinned_verified req w r w' m p :
  DeleteVolume s fs req w = (r, w') → disk_inv (w_disk w) →
  dr_FilesystemAdoption req = None → dr_BackendType req ≠ BACKEND_TYPE_ZFS_DATASET →
  live_mark (w_disk w) (dr_VolumeId req) = Some m → LVMSource m = Some p →
  w_backend w' ≠ w_backend w →
  PreserveOriginal m = false ∧
  ∃ b verifyLV, backendForType s (dr_VolumeId req) BACKEND_TYPE_LVM = Ok b ∧
    be_VerifyLV b = Some verifyLV ∧
    verifyLV (w_backend w) (dr_VolumeId req) (identity p) = Ok tt.
Proof.
  intros H Hi Hf Ht Hl Hp Hb.
  destruct (DeleteVolume_run _ _ _ _ H Hf Ht) as [->|(b & _ & Hr)]; [done|].
  eapply wp_run in Hr; [|by apply fencedChecked_spec].
  destruct Hr as [e w' [??] _|e w' [??] _|e w' [??] _|m' r w' _ _ _ _ _ _ _ Hbk _ _
    |next e w' _ Hr|next w1 r w' Hn Hpass Hterm _ _ _]; try done.
  { by destruct Hr as [[]|[]]. }
  rewrite Hl in *. destruct (Ended next) eqn:En.
  { pose proof (succ_pin _ _ (an_succ _ _ _ _ Hn m eq_refl) p Hp) as Hpn. by rewrite Hterm in Hpn. }
  destruct (Hpass eq_refl) as [Hchk Hver]. cbn in Hchk, Hver.
  specialize (Hchk _ eq_refl). specialize (Hver ltac:(done)). unfold refusePreserved in Hchk.
  split; [by destruct (PreserveOriginal m)|].
  unfold verifyPinnedSource in Hver. rewrite Hp in Hver.
  destruct (backendForType _ _ BACKEND_TYPE_LVM) as [bl|]; [|done].
  destruct (be_VerifyLV bl) as [vf|] eqn:Ev; [|done]. exists bl, vf. split_and!; [done..|].
  destruct (vf (w_backend w) _ _) as [[]|[]]; done.
Qed.

(** *** Release *)

Context (handlers : ∀ p h, handlerForProtocol s p = Ok h → FencedHandler s h).

Lemma map_err_unexport h v token w r w' :
  FencedHandler s h → map_err protocolRPCError (Unexport h v token) w = (r, w') → disk_inv (w_disk w) →
  disk_inv (w_disk w').
Proof.
  intros Hh H Hi. rewrite map_err_run in H. destruct (Unexport h v token w) as [r0 w0] eqn:E.
  simplify_eq/=. destruct (unexport_fenced _ _ _ _ _ E) as [[-> _]|Hr]; [done|].
  eapply disk_steps_inv, Hi. by eapply fenced_run_steps.
Qed.

Lemma retire_unexported v token check w w' :
  disk_inv (w_disk w) → retireFence v token true check w ≠ (Ok true, w').
Proof.
  intros Hi H. eapply wp_run in H; [|by apply retireFence_spec].
  by inversion H.
Qed.

(** What a finished release loop leaves on the volume. *)
Lemma releaseLoop_spec fuel v token p unexported w r w' :
  releaseLoop s fuel v token p unexported w = (r, w') → disk_inv (w_disk w) →
  (unexported = true ∧ 1 ≤ fuel ∨ 2 ≤ fuel)%nat →
  r ≠ Ok None ∧
  (r = Ok (Some tt) → ∃ m, live_mark (w_disk w') v = Some m ∧ GetVolumeUid token ∈ EndedUIDs m).
Proof.
  revert unexported w. induction fuel as [|fuel IH]; intros unexported w H Hi Hf; [lia|].
  cbn [releaseLoop] in H. apply M_bind_inv in H as [(owned & w1 & Hret & H)|(e & _ & ->)]; [|done].
  pose proof (retire_steps _ _ _ _ _ _ _ Hret Hi) as Hst.
  assert (disk_inv (w_disk w1)) as Hi1 by (by eapply disk_steps_inv).
  destruct owned; cbn [negb] in H.
  - destruct unexported; [by apply retire_unexported in Hret|].
    apply M_bind_inv in H as [(h & w2 & Hh & H)|(e & _ & ->)]; [|done].
    rewrite map_err_run in Hh. unfold lift in Hh. cbn in Hh.
    destruct (handlerForProtocol s p) as [h'|] eqn:Eh; [|done]. simplify_eq.
    apply M_bind_inv in H as [([] & w3 & Hu & H)|(e & _ & ->)]; [|done].
    eapply IH; [exact H|eapply map_err_unexport; [by eapply handlers|done|done]|]. lia.
  - unfold mret, M_ret in H. simplify_eq. split; [done|]. intros _.
    eapply wp_run in Hret; [|by apply retireFence_spec].
    inversion Hret as [| |m ? [Hq _] Hl Hin| |next ? _ Hin _ _ Hrep _]; simplify_eq.
    + rewrite Hq. eauto.
    + exists next. split; [|done]. unfold live_mark. by rewrite (rp_live _ _ _ _ Hrep).
Qed.

(** C35: two rounds of its loop are enough for ReleaseVolume on every state of
    the agent, and a successful release leaves the lifecycle retired in the
    volume's mark. *)
Theorem ReleaseVolume_terminates req w r w' :
  ReleaseVolume s fs 2 req w = (r, w') → disk_inv (w_disk w) → rr_FilesystemAdoption req = None →
  r ≠ Ok None ∧
  (r = Ok (Some tt) →
   ∃ m, live_mark (w_disk w') (rr_VolumeId req) = Some m ∧ GetVolumeUid (rr_Fence req) ∈ EndedUIDs m).
Proof.
  unfold ReleaseVolume. intros H Hi Hf. rewrite Hf in H. eapply releaseLoop_spec; [exact H|done|lia].
Qed.
End Correct.

(** A lifecycle that owns a PreserveOriginal LV is retired by ReleaseVolume's
    fenced section only in a backend state in which the pinned LV was
    observed active, exclusively claimable, and without consumers or
    exports. *)
Theorem preserved_release_needs_idle {B P} (s : Server B P) v token unexported (w : world B) w' m p :
  retireFence v token unexported (Some (verifyPinnedRelease s v)) w = (Ok false, w') →
  disk_inv (w_disk w) → live_mark (w_disk w) v = Some m → VolumeUID m = GetVolumeUid token →
  GetVolumeUid token ∉ EndedUIDs m → LVMSource m = Some p → PreserveOriginal m = true →
  unexported = true ∧
  ∃ b inspectLV obs, backendForType s v BACKEND_TYPE_LVM = Ok b ∧ be_InspectLV b = Some inspectLV ∧
    inspectLV (w_backend w) v = Ok obs ∧ obs_Identity obs = identity p ∧ obs_Active obs = true ∧
    obs_ExclusiveClaim obs = ExclusiveClaimFree ∧ obs_Consumers obs = [] ∧ obs_Exports obs = [].
Proof.
  intros H Hi Hl Hu Hni Hp Hpr. eapply wp_run in H; [|by apply retireFence_spec].
  remember (Ok false) as r eqn:Er.
  destruct H as [| |m' w' _ Hl' Hin| |next w' _ _ Hc _ _ _]; [done|done|by simplify_eq|done|]. clear Er.
  destruct (Hc m (verifyPinnedRelease s v) Hl Hu) as [-> Hchk]. specialize (Hchk eq_refl).
  split; [done|]. unfold verifyPinnedRelease in Hchk. rewrite Hp, Hpr in Hchk.
  apply result_bind_Ok in Hchk as ([] & _ & Hchk). cbn in Hchk. unfold verifyPreservedIdle in Hchk.
  destruct (backendForType s v _) as [b|]; [|done]. destruct (be_InspectLV b) as [ins|] eqn:Ei; [|done].
  destruct (ins (w_backend w) v) as [obs|] eqn:Eo; [|done]. exists b, ins, obs.
  case_decide as E1; [done|]. destruct (obs_Active obs); [|done]. cbn in Hchk.
  case_decide as E2; [done|]. destruct (obs_Consumers obs), (obs_Exports obs); try done.
Qed.

(** ** Target identifiers *)

(** [c] does not occur in [s]. *)
Fixpoint no_char (c : ascii) (s : string) : bool :=
  match s with
  | EmptyString => true
  | String d s => negb (Ascii.eqb d c) && no_char c s
  end.

Lemma ReplaceAll_app o n a b : ReplaceAll o n (a +:+ b) = ReplaceAll o n a +:+ ReplaceAll o n b.
Proof. induction a as [|c a IH]; [done|]. exact (f_equal (String _) IH). Qed.

Lemma ReplaceAll_none o n s : no_char o s = true → ReplaceAll o n s = s.
Proof.
  induction s as [|c s IH]; [done|]. cbn. intros [Hc Hs]%andb_true_iff.
  destruct (Ascii.eqb c o); [done|]. by rewrite IH.
Qed.

Lemma Cut_app sep a b : no_char sep a = true → Cut sep (a +:+ String sep b) = (a, b, true).
Proof.
  induction a as [|c a IH]; intros H.
  - change (Cut sep (String sep b) = ("", b, true)). cbn. by rewrite Ascii.eqb_refl.
  - change (Cut sep (String c (a +:+ String sep b)) = (String c a, b, true)). cbn in *.
    apply andb_true_iff in H as [Hc Hs]. destruct (Ascii.eqb c sep); [done|]. by rewrite IH.
Qed.

Lemma string_app_inj_l (p a b : string) : p +:+ a = p +:+ b → a = b.
Proof. induction p as [|c p IH]; [done|]. intros H. injection H as H. auto. Qed.

Lemma targetSuffix_inj pool1 name1 pool2 name2 :
  no_char "." pool1 = true → no_char "." pool2 = true →
  no_char "/" pool1 = true → no_char "/" pool2 = true →
  no_char "/" name1 = true → no_char "/" name2 = true →
  ReplaceAll "/" "." (pool1 +:+ String "/" name1) = ReplaceAll "/" "." (pool2 +:+ String "/" name2) →
  pool1 = pool2 ∧ name1 = name2.
Proof.
  intros Hd1 Hd2 Hp1 Hp2 Hn1 Hn2. rewrite !ReplaceAll_app. cbn [ReplaceAll].
  rewrite !ReplaceAll_none by done. intros H. apply (f_equal (Cut ".")) in H.
  change (Ascii.eqb "/" "/") with true in H. cbn match in H. rewrite !Cut_app in H by done. by simplify_eq.
Qed.

(** Volumes of pools without a dot in their name never share a target: the
    NQN or IQN determines the pool and the volume name, and an IQN is at most
    223 bytes. *)
Theorem volumeTargetID_inj protocol pool1 name1 pool2 name2 id :
  no_char "." pool1 = true → no_char "." pool2 = true →
  no_char "/" pool1 = true → no_char "/" pool2 = true →
  no_char "/" name1 = true → no_char "/" name2 = true →
  volumeTargetID protocol (pool1 +:+ String "/" name1) = Ok id →
  volumeTargetID protocol (pool2 +:+ String "/" name2) = Ok id →
  pool1 = pool2 ∧ name1 = name2 ∧ (protocol = PROTOCOL_TYPE_ISCSI → (String.length id ≤ MaxIQNLength)%nat).
Proof.
  intros Hd1 Hd2 Hp1 Hp2 Hn1 Hn2 H1 H2.
  enough ((pool1 = pool2 ∧ name1 = name2) ∧
    (protocol = PROTOCOL_TYPE_ISCSI → (String.length id ≤ MaxIQNLength)%nat)) by tauto.
  unfold volumeTargetID in *. destruct protocol; try done.
  - injection H1 as <-. injection H2 as H2. apply string_app_inj_l in H2. split; [|done].
    apply targetSuffix_inj; auto.
  - destruct (MaxIQNLength <? _)%nat eqn:E1; [done|]. destruct (MaxIQNLength <? String.length (_ +:+ ReplaceAll _ _ (pool2 +:+ _)))%nat; [done|].
    apply Nat.ltb_ge in E1. injection H1 as <-. injection H2 as H2. apply string_app_inj_l in H2.
    split; [apply targetSuffix_inj; auto|by intros _].
Qed.

Lemma volumeTargetID_inj_witness :
  ("tank" = "tank" ∧ "pvc.1" = "pvc.1" ∧ (PROTOCOL_TYPE_ISCSI = PROTOCOL_TYPE_ISCSI →
     (String.length "iqn.2026-01.com.bhyoo.pillar-csi:tank.pvc.1" ≤ MaxIQNLength)%nat))%string.
Proof. apply (volumeTargetID_inj PROTOCOL_TYPE_ISCSI); reflexivity. Defined.

(** A dot in a pool name defeats it: the volumes "tank/fast.x" and
    "tank.fast/x" of two pools have the same NQN and the same IQN. *)
Theorem volumeTargetID_collision :
  volumeTargetID PROTOCOL_TYPE_NVMEOF_TCP "tank/fast.x" = volumeTargetID PROTOCOL_TYPE_NVMEOF_TCP "tank.fast/x" ∧
  volumeTargetID PROTOCOL_TYPE_ISCSI "tank/fast.x" = volumeTargetID PROTOCOL_TYPE_ISCSI "tank.fast/x".
Proof. by split. Qed.

(** ** Concrete runs *)

Definition ex_lv : LVMIdentity := {|
  li_VolumeGroup := "vg"; li_LogicalVolume := "data";
  li_VolumeGroupUUID := "vg-1"; li_LogicalVolumeUUID := "lv-1" |}.

(** An LVM backend holding one idle LV; its state counts the mutations. *)
Definition ex_lvm : VolumeBackend nat unit := {|
  be_Type := BACKEND_TYPE_LVM;
  be_Layout := {| ly_ParentDataset := ""; ly_ThinPool := ""; ly_HostRoot := "" |};
  be_DevicePath := λ _, "/dev/vg/data";
  be_Create := λ _ size _ n, (Ok ("/dev/vg/data", size), S n);
  be_Delete := λ _ n, (Ok tt, S n);
  be_Expand := λ _ size n, (Ok size, S n);
  be_Import := None;
  be_ImportLV := Some (λ _ _ size want,
    if decide (want = ex_lv) then Ok ("/dev/vg/data", size) else Err (EImportRefused "identity"));
  be_VerifyLV := Some (λ _ _ want, if decide (want = ex_lv) then Ok tt else Err (EImportRefused "identity"));
  be_InspectLV := Some (λ _ _, Ok {|
    obs_Identity := ex_lv; obs_Attr := "-wi-a-----"; obs_Segtype := "linear"; obs_PoolLV := ""; obs_Origin := "";
    obs_DevicePath := "/dev/vg/data"; obs_DevMajorMinor := "253:0"; obs_FSType := ""; obs_FSUUID := "";
    obs_FSProbe := "unknown"; obs_FSProbeError := "no signature"; obs_SizeBytes := 4096; obs_Active := true;
    obs_ExclusiveClaim := ExclusiveClaimFree; obs_Consumers := []; obs_Exports := [] |});
  be_ExistingFilesystemIdentity := None |}.

Definition ex_lvm_bare : Server nat unit := {|
  backends := {[ "vg" := ex_lvm ]}; backendVariants := ∅; nfsManager := false;
  handlerForProtocol := λ _, Err (EStatus Unimplemented "no protocol");
  ResizeNamespace := λ _, mret tt; configfsRoot := ""; configfs := λ _ _, CfsAbsent |}.
(** The same server with the iSCSI handler for every protocol. *)
Definition ex_lvm_server : Server nat unit := {|
  backends := {[ "vg" := ex_lvm ]}; backendVariants := ∅; nfsManager := false;
  handlerForProtocol := λ _, Ok {|
    Export_ := λ _, throw (EStatus Unimplemented "export");
    Unexport := iscsiUnexport ex_lvm_bare (λ _, mret tt);
    AllowInitiator := λ _ _ _ _, throw (EStatus Unimplemented "grant");
    DenyInitiator := λ _ _ _, throw (EStatus Unimplemented "revoke");
    SetLocalAttach := λ _ _ _, throw (EStatus Unimplemented "local attach");
    Reconcile := λ _, mret [] |};
  ResizeNamespace := λ _, mret tt; configfsRoot := ""; configfs := λ _ _, CfsAbsent |}.
Definition ex_fs : FilesystemService nat unit := {|
  releaseFilesystem := λ _ _ _ _, throw (EStatus Unimplemented "filesystem");
  importFilesystem := λ _, throw (EStatus Unimplemented "filesystem") |}.

Lemma ex_handlers p h : handlerForProtocol ex_lvm_server p = Ok h → FencedHandler ex_lvm_server h.
Proof.
  intros [= <-] v token w r w' H. cbn in H. unfold iscsiUnexport, lift, mbind, M_bind in H.
  destruct (targetForVolume v) as [iqn|e]; [right|left; by simplify_eq].
  exact (run_checked ex_lvm_server v token fenceRevoke None None tt _ w r w' H).
Qed.

Definition ex_import (preserve : option bool) : ImportVolumeRequest unit := {|
  ir_VolumeId := "vg/data"; ir_CapacityBytes := 4096; ir_BackendType := BACKEND_TYPE_LVM;
  ir_Fence := ex_token "u1" 1; ir_ExpectedDataset := ""; ir_ExpectedLvmSource := Some ex_lv;
  ir_PreserveOriginal := preserve; ir_FilesystemAdoption := None; ir_BackendParams := tt |}.
Definition ex_delete : DeleteVolumeRequest := {|
  dr_VolumeId := "vg/data"; dr_BackendType := BACKEND_TYPE_LVM; dr_Fence := ex_token "u1" 2;
  dr_FilesystemAdoption := None |}.
Definition ex_release : ReleaseVolumeRequest := {|
  rr_VolumeId := "vg/data"; rr_ProtocolType := PROTOCOL_TYPE_ISCSI; rr_Fence := ex_token "u1" 2;
  rr_FilesystemAdoption := None |}.

Definition ex_adopted (preserve : option bool) : world nat :=
  (ImportVolume ex_lvm_server ex_fs (ex_import preserve) ex_world).2.

Lemma ex_adopted_inv preserve : disk_inv (w_disk (ex_adopted preserve)).
Proof.
  unfold ex_adopted. destruct (ImportVolume _ _ _ _) as [r w'] eqn:E.
  destruct (ImportVolume_run _ _ _ _ _ _ E eq_refl) as [[-> _]|(src & p & q & H & _)]; [exact ex_disk_inv|].
  eapply (disk_steps_inv (w_disk ex_world)); [|exact ex_disk_inv].
  eapply (fenced_run_steps ex_lvm_server); [by eapply run_import|exact ex_disk_inv].
Qed.

Lemma preserved_never_destroyed_witness :
  w_backend (DeleteVolume ex_lvm_server ex_fs ex_delete (ex_adopted None)).2 = 0%nat.
Proof.
  destruct (preserved_never_destroyed ex_lvm_server ex_fs (ex_import None) ("/dev/vg/data", 4096)%string
              ex_world (ex_adopted None) (ex_adopted None)) as (_ & Hdel & _).
  - vm_compute. reflexivity.
  - exact ex_disk_inv.
  - reflexivity.
  - reflexivity.
  - done.
  - apply rtc_refl.
  - rewrite (Hdel ex_delete (DeleteVolume ex_lvm_server ex_fs ex_delete (ex_adopted None)).1
               (DeleteVolume ex_lvm_server ex_fs ex_delete (ex_adopted None)).2 eq_refl eq_refl);
      [vm_compute; reflexivity|done|destruct (DeleteVolume _ _ _ _); reflexivity].
Defined.

Definition ex_managed_mark : fencingMark :=
  mark_of "u1" 1 false [] (markLVMSourceFromProto (Some ex_lv)) false.

Lemma delete_pinned_verified_witness :
  ∃ b verifyLV, backendForType ex_lvm_server "vg/data" BACKEND_TYPE_LVM = Ok b ∧
    be_VerifyLV b = Some verifyLV ∧ verifyLV 0%nat "vg/data" ex_lv = Ok tt.
Proof.
  refine (proj2 (delete_pinned_verified ex_lvm_server ex_fs ex_delete (ex_adopted (Some false))
    (DeleteVolume ex_lvm_server ex_fs ex_delete (ex_adopted (Some false))).1
    (DeleteVolume ex_lvm_server ex_fs ex_delete (ex_adopted (Some false))).2 ex_managed_mark
    {| ls_VolumeGroup := "vg"; ls_LogicalVolume := "data"; ls_VolumeGroupUUID := "vg-1";
       ls_LogicalVolumeUUID := "lv-1" |} _ (ex_adopted_inv _) eq_refl _ _ eq_refl _)).
  - destruct (DeleteVolume _ _ _ _); reflexivity.
  - done.
  - vm_compute. reflexivity.
  - vm_compute. done.
Defined.

Lemma ReleaseVolume_terminates_witness :
  (ReleaseVolume ex_lvm_server ex_fs 2 ex_release (ex_adopted None)).1 ≠ Ok None.
Proof.
  apply (ReleaseVolume_terminates ex_lvm_server ex_fs ex_handlers ex_release (ex_adopted None) _
           (ReleaseVolume ex_lvm_server ex_fs 2 ex_release (ex_adopted None)).2).
  - destruct (ReleaseVolume _ _ _ _ _); reflexivity.
  - apply ex_adopted_inv.
  - reflexivity.
Defined.

Lemma preserved_release_needs_idle_witness :
  ∃ b inspectLV obs, backendForType ex_lvm_server "vg/data" BACKEND_TYPE_LVM = Ok b ∧
    be_InspectLV b = Some inspectLV ∧ inspectLV 0%nat "vg/data" = Ok obs ∧ obs_Consumers obs = [].
Proof.
  destruct (preserved_release_needs_idle ex_lvm_server "vg/data" (ex_token "u1" 2) true (ex_adopted None)
    (retireFence "vg/data" (ex_token "u1" 2) true (Some (verifyPinnedRelease ex_lvm_server "vg/data"))
       (ex_adopted None)).2
    (set_pin ex_managed_mark (markLVMSourceFromProto (Some ex_lv)) true)
    {| ls_VolumeGroup := "vg"; ls_LogicalVolume := "data"; ls_VolumeGroupUUID := "vg-1";
       ls_LogicalVolumeUUID := "lv-1" |}) as (_ & b & i & obs & ? & ? & ? & _ & _ & _ & ? & _).
  - vm_compute. reflexivity.
  - apply ex_adopted_inv.
  - vm_compute. reflexivity.
  - reflexivity.
  - cbn. set_solver.
  - reflexivity.
  - reflexivity.
  - exists b, i, obs. auto.
Defined.
