(* ===== verification/RecoveryCorrect.v ===== *)
(** * Correctness of ownership recovery

    What moves a mark between lifecycles, what each answer of
    TransferVolumeOwnership promises, that a committed transfer locks the old
    lifecycle out for good and can be retried, and that signed snapshots
    state what the agent observed. *)
From stdpp Require Import base numbers list strings gmap relations.
From S2P Require Import Prelude GoStd FencingMark FencingStore Backend Fencing FencingCorrect AgentServer RecoveryAuth.
From S2P Require Import Recovery FencingTheorems AgentServerCorrect.
Open Scope Z_scope.

Section RecoveryCorrect.
Context {B P : Type} (s : Server B P) (lib : Lib) (rc : RecoveryConfig).
Implicit Types (w : world B) (v : string) (m : fencingMark).

(** C7: A mark moves to another lifecycle only for a verified peer, on a fresh
    snapshot of this agent and an authorization in force that commits to it,
    both naming the recorded owner and generation and the authorization the
    recorded pin, while the pinned LV is observed unused; then the old owner
    is retired, the pin stays, and no other volume's mark changes. *)
Theorem transfer_requires_authorization peer now req w r w' :
  TransferVolumeOwnership s lib rc peer now req w = (r, w') → disk_inv (w_disk w) →
  (∀ v, live_file (w_disk w') v = live_file (w_disk w) v) ∨
  ∃ snap auth cert pin m m', let v := sn_VolumeId snap in
    req = {| tq_Snapshot := Some snap; tq_Authorization := Some auth |} ∧ peer = true ∧
    recoveryCert rc = Some cert ∧ attested lib snap cert now ∧ in_force lib auth (recoveryAnchors rc) now ∧ commits_to lib auth snap ∧
    live_mark (w_disk w) v = Some m ∧ Ended m = false ∧
    VolumeUID m = au_OldVolumeUid auth ∧ Generation m = au_OldGeneration auth ∧ sn_PreserveOriginal snap = PreserveOriginal m ∧
    LVMSource m = Some pin ∧ au_LvmSource auth = Some (identity pin) ∧ proven_stopped s v pin (w_backend w) ∧
    live_mark (w_disk w') v = Some m' ∧
    VolumeUID m' = au_NewVolumeUid auth ∧ Generation m' = au_NewGeneration auth ∧
    VolumeUID m ∈ EndedUIDs m' ∧ LVMSource m' = LVMSource m ∧
    (PreserveOriginal m = true → au_PreserveOriginal auth = Some true ∧ PreserveOriginal m' = true) ∧
    (∀ v', v' ≠ v → live_file (w_disk w') v' = live_file (w_disk w) v').
Proof.
  intros Hr Hi. eapply wp_run in Hr; [|by apply TransferVolumeOwnership_spec].
  destruct Hr as [e w' Hf|snap auth dg m o w' _ _ _ _ _ _ _ ? _
                 |snap auth dg m n o w' -> -> _ _ Hl _ Hv Hm Hr _]; [left; apply Hf|by left|right].
  destruct (mv_new _ _ _ _ _ _ _ Hm) as (r & Hn & Hret & _).
  destruct (mv_pin _ _ _ _ _ _ _ Hm) as (p & Hp & Hap & Hev). pose proof (mv_preserve _ _ _ _ _ _ _ Hm) as Hpres.
  apply verifyTransferSignatures_accepts in Hv as (cert & Hc & Hat & Hfo & Hco).
  exists snap, auth, cert, p, m, (set_Transfer n (Some (transfer_record m auth dg))). cbn zeta.
  assert (live_mark (w_disk w') (sn_VolumeId snap) = Some (set_Transfer n (Some (transfer_record m auth dg)))) as Hl'
    by (unfold live_mark; by rewrite (rp_live _ _ _ _ Hr)).
  destruct (mv_snapshot _ _ _ _ _ _ _ Hm) as (_ & _ & Hsp). subst n.
  split_and!; cbn; try done; try apply Hm.
  - by apply verifyTransferEvidence_Ok.
  - apply Hret. by right.
  - intros E. specialize (Hpres E). unfold GetPreserveOriginal in Hpres. rewrite E. split; [|done].
    destruct (au_PreserveOriginal auth) as [[]|]; done.
  - apply Hr.
Qed.

(** The answers of TransferVolumeOwnership are true: COMMITTED and
    ALREADY_COMMITTED mean the new lifecycle's mark is durable, UNKNOWN that
    it is in place but perhaps not durable, an error that no mark changed. *)
Theorem transfer_outcome_truthful peer now req w r w' :
  TransferVolumeOwnership s lib rc peer now req w = (r, w') → disk_inv (w_disk w) →
  match r with
  | Err _ => ∀ v, live_file (w_disk w') v = live_file (w_disk w) v
  | Ok o => ∃ snap auth m,
      req = {| tq_Snapshot := Some snap; tq_Authorization := Some auth |} ∧
      live_mark (w_disk w') (sn_VolumeId snap) = Some m ∧ VolumeUID m = au_NewVolumeUid auth ∧
      match o with
      | OutcomeUnknown => True
      | _ => durable_file (w_disk w') (sn_VolumeId snap) = Some (FMark m)
      end
  end.
Proof.
  intros Hr Hi. eapply wp_run in Hr; [|by apply TransferVolumeOwnership_spec].
  destruct Hr as [e w' Hf|snap auth dg m o w' -> _ Hl Hu _ _ _ Hsame Ho
                 |snap auth dg m n o w' -> _ _ _ _ _ _ Hm Hr Ho]; [apply Hf|..].
  - exists snap, auth, m. split_and!; [done| |done|by destruct Ho as [->|[-> ?]]].
    unfold live_mark in *. by rewrite Hsame.
  - destruct (mv_new _ _ _ _ _ _ _ Hm) as (rt & -> & _).
    eexists snap, auth, _. split_and!; [done| | |destruct Ho as [->|[-> Hd]]; [done|exact Hd]].
    + unfold live_mark. by rewrite (rp_live _ _ _ _ Hr).
    + done.
Qed.

(** After a committed transfer the old lifecycle never acts on the volume
    again, in any class or generation, whatever happens later. *)
Theorem transferred_owner_locked_out peer now snap auth w1 w1' g op w2 err w2' :
  TransferVolumeOwnership s lib rc peer now
    {| tq_Snapshot := Some snap; tq_Authorization := Some auth |} w1 = (Ok OutcomeCommitted, w1') →
  disk_inv (w_disk w1) →
  rtc (agent_step s) w1' w2 →
  fenced_run s (sn_VolumeId snap) (Some {| VolumeUid := au_OldVolumeUid auth; TokenGeneration := g |})
    op w2 err w2' →
  refused err w2 w2'.
Proof.
  intros H1 Hi Hs H2. pose proof (transfer_steps _ _ _ _ _ _ _ _ _ H1 Hi) as Hs1.
  assert (disk_inv (w_disk w1')) as Hi1 by (by eapply disk_steps_inv).
  destruct (agent_steps_steps s _ _ Hs Hi1) as [_ Hs2].
  eapply wp_run in H1; [|by apply TransferVolumeOwnership_spec].
  remember (Ok OutcomeCommitted) as r eqn:Er. remember {| tq_Snapshot := _ |} as req eqn:Eq.
  destruct H1 as [e w' _|sn au dg m o w' _ _ _ _ _ _ _ _ Ho
                 |sn au dg m n o w' Eq' _ _ _ _ _ _ Hm _ Ho]; [done|by destruct Ho as [->|[-> _]]|].
  rewrite Eq in Eq'. simplify_eq. destruct Ho as [?|[_ Hd]]; [done|].
  destruct (mv_new _ _ _ _ _ _ _ Hm) as (rt & Hn & Hret & _).
  eapply (dominated_later_rejected s _ _ _ (w_disk w')); try done.
  left. cbn. rewrite Hn. cbn. apply Hret. right. symmetry. apply Hm.
Qed.

(** A mark that records the transfer [auth] authorized. *)
Definition records_transfer v (auth : RecoveryAuthorization) (d : disk) : Prop :=
  ∃ m dg, live_mark d v = Some m ∧ VolumeUID m = au_NewVolumeUid auth ∧
    AuthorizationDigest lib (Some auth) = Ok dg ∧
    checkCommittedTransferRetry (Transfer m) auth (DigestHex dg) = Ok tt.

Lemma transfer_records peer now req w o w' :
  TransferVolumeOwnership s lib rc peer now req w = (Ok o, w') → disk_inv (w_disk w) →
  ∃ snap auth, checkTransferRequest rc peer req = Ok (snap, auth) ∧
    records_transfer (sn_VolumeId snap) auth (w_disk w').
Proof.
  intros Hr Hi. pose proof Hr as Hc. unfold TransferVolumeOwnership in Hc.
  apply M_bind_inv in Hc as [([snap auth] & w0 & Hc & _)|(? & _ & ?)]; [|done].
  unfold lift in Hc. injection Hc as Eq _.
  exists snap, auth. split; [done|]. apply checkTransferRequest_Ok in Eq as (-> & _ & _).
  eapply wp_run in Hr; [|by apply TransferVolumeOwnership_spec].
  remember (Ok o) as r eqn:Er. remember {| tq_Snapshot := _ |} as req eqn:Eq.
  destruct Hr as [e w' _|sn au dg m o' w' Eq' Hd Hl Hu Hc _ _ Hsame _
                 |sn au dg m n o' w' Eq' _ _ Hd _ _ _ Hm Hr _]; [done|..];
    rewrite Eq in Eq'; simplify_eq.
  - exists m, dg. split_and!; [|done..]. unfold live_mark in *. by rewrite Hsame.
  - eexists _, dg. split_and!; [unfold live_mark; by rewrite (rp_live _ _ _ _ Hr)| |done|];
      destruct (mv_new _ _ _ _ _ _ _ Hm) as (rt & -> & _); cbn; [done|].
    rewrite decide_False by auto. rewrite !bool_decide_eq_true_2 by (done || apply Hm).
    rewrite (mv_gen _ _ _ _ _ _ _ Hm), !Z.eqb_refl. done.
Qed.

(** A retry of an answered transfer is decided from the mark alone: at any
    later time, so also after the authorization expired, it fails only on
    I/O errors and changes no mark. *)
Theorem committed_transfer_retry peer now now' req w r w1 w2 r' w' :
  TransferVolumeOwnership s lib rc peer now req w = (Ok r, w1) → disk_inv (w_disk w) →
  disk_inv (w_disk w2) → (∀ v, live_file (w_disk w2) v = live_file (w_disk w1) v) →
  TransferVolumeOwnership s lib rc peer now' req w2 = (r', w') →
  (∀ v, live_file (w_disk w') v = live_file (w_disk w2) v) ∧
  match r' with
  | Ok o => o = OutcomeAlreadyCommitted ∨ o = OutcomeUnknown
  | Err e => status_code e = Internal
  end.
Proof.
  intros H1 Hi Hi2 Hsame H2.
  destruct (transfer_records _ _ _ _ _ _ H1 Hi) as (snap & auth & Hq & m & dg & Hl & Hu & Hd & Hc).
  eapply (wp_run _ (λ r' w', (∀ v, live_file (w_disk w') v = live_file (w_disk w2) v) ∧
    match r' with
    | Ok o => o = OutcomeAlreadyCommitted ∨ o = OutcomeUnknown
    | Err e => status_code e = Internal
    end)); [|exact H2]. unfold TransferVolumeOwnership. apply wp_bind, wp_lift. rewrite Hq.
  apply wp_bind, wp_lift. rewrite Hd. cbn zeta beta iota.
  set (v := sn_VolumeId snap) in *.
  assert (live_mark (w_disk w2) v = Some m) as Hl2 by (unfold live_mark in *; by rewrite Hsame).
  eapply wp_call; [by apply read_spec| |by intros e w3 [[Hqd _] ?]; split; [rewrite Hqd|]].
  intros [stored ex] w3 ([Hqd Hqb] & Hg & -> & -> & Hw). cbn beta iota. rewrite Hl2 in *.
  change (bool_decide (is_Some (Some m))) with true. change (default zeroMark (Some m)) with m. cbn [negb].
  rewrite decide_True by done. apply wp_bind, wp_lift. rewrite Hc.
  assert (live_file (w_disk w2) v = Some (FMark m)) as Hlf.
  { unfold live_mark in Hl2. by destruct (live_file (w_disk w2) v) as [[]|]; simplify_eq. }
  eapply wp_call; [apply writeFencingMarkOutcome_spec; rewrite Hqd, Hlf; split; auto with fence| |naive_solver].
  intros o w4 (renamed & err & [= ->] & H4). apply wp_ret. split; [|destruct err; auto].
  destruct renamed; [destruct H4 as [Hr _]|destruct H4 as [_ [_ Hf _ _]]; by rewrite Hqd in Hf].
  intros v'. destruct (decide (v' = v)) as [->|Hv]; [by rewrite (rp_live _ _ _ _ Hr)|].
  by rewrite (rp_other _ _ _ _ Hr), Hqd.
Qed.

(** A signed snapshot states what the agent saw: the live owner, its
    generation, pin and policy as the mark records them, for an LV observed
    to be the pinned one, and inspection changes nothing. *)
Theorem snapshot_truthful peer now v t w resp w' snap :
  InspectVolume s lib rc peer now v t w = (Ok resp, w') → disk_inv (w_disk w) →
  iv_Snapshot resp = Some snap →
  quiet w w' ∧ peer = true ∧
  ∃ m p, live_mark (w_disk w) v = Some m ∧ Ended m = false ∧ LVMSource m = Some p ∧
    sn_VolumeId snap = v ∧ sn_OldVolumeUid snap = VolumeUID m ∧ sn_OldGeneration snap = Generation m ∧
    sn_PreserveOriginal snap = PreserveOriginal m ∧ sn_LvmSource snap = Some (identity p) ∧
    obs_Identity (iv_Lvm resp) = identity p ∧
    sn_Consumers snap = iv_Consumers resp ∧ sn_Exports snap = iv_Exports resp.
Proof.
  intros H Hi Hs. split; [by eapply (wp_run _ _ _ _ _ (ro_InspectVolume s lib rc peer now v t w)) in H|].
  unfold InspectVolume in H. case_decide; [done|].
  apply M_bind_inv in H as [(b & w0 & [= _ <-] & H)|(? & _ & ?)]; [|done].
  apply M_bind_inv in H as [(u & w0 & [= _ <-] & H)|(? & _ & ?)]; [|done].
  destruct (be_InspectLV b) as [ins|]; [|done].
  apply M_bind_inv in H as [([stored ex] & w1 & Hread & H)|(? & _ & ?)]; [|done].
  eapply wp_run in Hread; [|by apply read_spec]. destruct Hread as (Hq & _ & -> & -> & _).
  apply M_bind_inv in H as [(r & w2 & _ & H)|(? & _ & ?)]; [|done].
  destruct r as [obs|[]]; try done.
  apply M_bind_inv in H as [(exports & w3 & _ & H)|(? & _ & ?)]; [|done].
  unfold mret, M_ret in H. simplify_eq. cbn in Hs. unfold recoverySnapshot in Hs.
  destruct (recoverySigner rc) as [sg|]; [|done]. destruct (live_mark (w_disk w) v) as [m|]; [|done].
  cbn -[SignSnapshot] in Hs. destruct (LVMSource m) as [p|] eqn:Ep; [|done].
  destruct (recoveryConfigured rc), peer, (Ended m) eqn:Ee; try done. cbn -[SignSnapshot] in Hs.
  case_decide; [done|]. case_decide as Hid; [done|].
  destruct (SignSnapshot _ _ _) as [sn|] eqn:Es; [|done]. injection Hs as <-.
  split; [done|]. exists m, p. unfold SignSnapshot in Es.
  apply result_bind_Ok in Es as ([] & _ & Es). apply result_bind_Ok in Es as (pl & _ & Es).
  destruct (sg_Sign sg _); [|done]. simplify_eq. by split_and!.
Qed.
End RecoveryCorrect.

(** ** A concrete recovery *)
Definition ex_config : RecoveryConfig := {|
  recoverySigner := Some {| sg_Public := ECDSAKey (bytes_of_string "agent-key");
                            sg_Sign := λ _, Some (bytes_of_string "agent-key") |};
  recoveryCert := Some {| crt_CommonName := "agent"; crt_DNSNames := [];
                          crt_PublicKey := ECDSAKey (bytes_of_string "agent-key") |};
  recoveryAnchors := ex_anchors |}.
Definition ex_transfer : TransferRequest :=
  {| tq_Snapshot := Some ex_snapshot; tq_Authorization := Some ex_authorization |}.
Definition ex_transferred : GoResult TransferOutcome * world nat :=
  TransferVolumeOwnership ex_lvm_server ex_lib ex_config true (1500 * second) ex_transfer (ex_adopted None).

Lemma ex_transferred_eq :
  TransferVolumeOwnership ex_lvm_server ex_lib ex_config true (1500 * second) ex_transfer (ex_adopted None)
  = (Ok OutcomeCommitted, ex_transferred.2).
Proof. vm_compute. reflexivity. Qed.

Lemma transfer_requires_authorization_witness :
  in_force ex_lib ex_authorization ex_anchors (1500 * second) ∧ commits_to ex_lib ex_authorization ex_snapshot ∧
  ∃ pin, au_LvmSource ex_authorization = Some (identity pin) ∧ proven_stopped ex_lvm_server "vg/data" pin (w_backend (ex_adopted None)).
Proof.
  destruct (transfer_requires_authorization ex_lvm_server ex_lib ex_config true (1500 * second) ex_transfer
              (ex_adopted None) (Ok OutcomeCommitted) ex_transferred.2 ex_transferred_eq (ex_adopted_inv None))
    as [Hsame|(snap & auth & cert & pin & m & m' & Hq & _ & _ & _ & Ha & Hc & _ & _ & _ & _ & _ & _ & Hpin & Hs & _)].
  - exfalso. specialize (Hsame "vg/data"). vm_compute in Hsame. discriminate Hsame.
  - injection Hq as <- <-. split; [exact Ha|]. split; [exact Hc|]. exists pin. split; [exact Hpin|exact Hs].
Defined.

Lemma transfer_outcome_truthful_witness :
  ∃ snap auth m, ex_transfer = {| tq_Snapshot := Some snap; tq_Authorization := Some auth |} ∧
    live_mark (w_disk ex_transferred.2) (sn_VolumeId snap) = Some m ∧ VolumeUID m = au_NewVolumeUid auth ∧
    durable_file (w_disk ex_transferred.2) (sn_VolumeId snap) = Some (FMark m).
Proof.
  exact (transfer_outcome_truthful ex_lvm_server ex_lib ex_config true (1500 * second) ex_transfer
           (ex_adopted None) (Ok OutcomeCommitted) ex_transferred.2 ex_transferred_eq (ex_adopted_inv None)).
Defined.

Definition ex_old_run : GoResult unit * world nat :=
  fencedChecked ex_lvm_server "vg/data" (ex_token "u1" 9) fenceRevoke None None tt (Some ex_mutate)
    ex_transferred.2.

Lemma transferred_owner_locked_out_witness : refused (err_of ex_old_run.1) ex_transferred.2 ex_old_run.2.
Proof.
  apply (transferred_owner_locked_out ex_lvm_server ex_lib ex_config true (1500 * second) ex_snapshot
           ex_authorization (ex_adopted None) ex_transferred.2 9 fenceRevoke).
  - exact ex_transferred_eq.
  - apply ex_adopted_inv.
  - apply rtc_refl.
  - eapply (run_checked ex_lvm_server _ _ _ None None tt (Some ex_mutate)).
    unfold ex_old_run. destruct (fencedChecked _ _ _ _ _ _ _ _ _); reflexivity.
Defined.

Definition ex_retried : GoResult TransferOutcome * world nat :=
  TransferVolumeOwnership ex_lvm_server ex_lib ex_config true (10000 * second) ex_transfer ex_transferred.2.

Lemma ex_retried_eq :
  TransferVolumeOwnership ex_lvm_server ex_lib ex_config true (10000 * second) ex_transfer ex_transferred.2
  = (ex_retried.1, ex_retried.2).
Proof. apply surjective_pairing. Qed.

Lemma ex_transferred_inv : disk_inv (w_disk ex_transferred.2).
Proof.
  eapply (disk_steps_inv (w_disk (ex_adopted None))); [|exact (ex_adopted_inv None)].
  eapply transfer_steps; [exact ex_transferred_eq|exact (ex_adopted_inv None)].
Qed.

Lemma committed_transfer_retry_witness :
  live_file (w_disk ex_retried.2) "vg/data" = live_file (w_disk ex_transferred.2) "vg/data".
Proof.
  pose proof (committed_transfer_retry ex_lvm_server ex_lib ex_config true (1500 * second)
    (10000 * second) ex_transfer (ex_adopted None) OutcomeCommitted ex_transferred.2 ex_transferred.2
    ex_retried.1 ex_retried.2 ex_transferred_eq (ex_adopted_inv None) ex_transferred_inv
    (λ v, eq_refl (live_file (w_disk ex_transferred.2) v)) ex_retried_eq) as [H _].
  exact (H "vg/data").
Defined.

Definition ex_inspected : GoResult InspectVolumeResponse * world nat :=
  InspectVolume ex_lvm_server ex_lib ex_config true {| ts_Seconds := 1000; ts_Nanos := 0 |} "vg/data"
    BACKEND_TYPE_LVM (ex_adopted None).

Lemma snapshot_truthful_witness : ∃ resp snap,
  ex_inspected.1 = Ok resp ∧ iv_Snapshot resp = Some snap ∧ sn_VolumeId snap = "vg/data".
Proof.
  destruct ex_inspected.1 as [resp|e] eqn:E; [|exfalso; vm_compute in E; discriminate].
  destruct (iv_Snapshot resp) as [snap|] eqn:Es.
  2:{ exfalso. apply (f_equal (λ r, match r with Ok x => iv_Snapshot x | Err _ => None end)) in E.
      rewrite Es in E. vm_compute in E. discriminate. }
  exists resp, snap. split; [done|]. split; [exact Es|].
  destruct (snapshot_truthful ex_lvm_server ex_lib ex_config true {| ts_Seconds := 1000; ts_Nanos := 0 |}
              "vg/data" BACKEND_TYPE_LVM (ex_adopted None) resp ex_inspected.2 snap)
    as (_ & _ & m & p & _ & _ & _ & Hv & _); [|apply ex_adopted_inv|exact Es|exact Hv].
  rewrite <-E. unfold ex_inspected. destruct (InspectVolume _ _ _ _ _ _ _ _); reflexivity.
Defined.
