(* ===== verification/PillarVolumeState.v ===== *)
(** * The durable volume record (api/v1alpha1, PillarVolumeState)

    The custom resource the CSI controller keeps per volume, the lifecycle
    handles of adopted filesystems, and the pure helpers of the controller
    that read it. *)
From stdpp Require Import base numbers list strings gmap.
From Stdlib Require Import Ascii.
From S2P Require Import Prelude GoStd FencingMark.
Open Scope Z_scope.

(** ** Spec *)

(** [v1alpha1.FilesystemAdoption]; the inode is kept as its decimal text. *)
Record FilesystemAdoptionSpec := {
  fs_Kind : string;
  fs_CanonicalSource : string;
  fs_ResourceID : string;
  fs_HostPath : string;
  fs_FilesystemType : string;
  fs_FilesystemID : string;
  fs_Inode : string;
  fs_ProjectID : Z;
}.

Record LVMSourceRef := {
  lr_VolumeGroup : string;
  lr_LogicalVolume : string;
  lr_VolumeGroupUUID : string;
  lr_LogicalVolumeUUID : string;
  lr_PreserveOriginal : bool;
}.

(** [ResolvedVolumeConfig]; the backend part is only compared. *)
Record ResolvedVolumeConfig := { rs_Backend : string; rs_LocalAttach : bool }.

Record VolumeRecoveryIntent := {
  vr_OldVolumeUID : string;
  vr_OldGeneration : Z;
  vr_Source : option LVMSourceRef;
  vr_NewVolumeUID : string;
  vr_NewGeneration : Z;
  vr_Authorization : bytes;
  vr_AuthorizationDigest : string;
}.

Record VolumeClaimRef := { cr_UID : string; cr_Namespace : string; cr_Name : string }.

Record PillarVolumeStateSpec := {
  VolumeID : string;
  AgentVolumeID : string;
  AgentRef : string;
  SpecBackendType : string;
  SpecProtocolType : string;
  CapacityBytes : Z;
  ClaimRef : option VolumeClaimRef;
  ImportedFrom : string;
  SpecFilesystemAdoption : option FilesystemAdoptionSpec;
  SpecLVMSource : option LVMSourceRef;
  Resolved : option ResolvedVolumeConfig;
  SpecRecovery : option VolumeRecoveryIntent;
}.

(** ** Status

    The printed conditions are not part of the model: no operation here reads
    or writes them. *)

Inductive PillarVolumeStatePhase :=
| PhaseNone | PhaseProvisioning | PhaseCreatePartial | PhaseReady | PhaseControllerPublished
| PhaseNodeStagePartial | PhaseNodeStaged | PhaseNodePublished | PhaseRecoveryPending.

Record PartialFailureInfo := {
  pf_FailedOperation : string;
  pf_FailedAt : Z;
  pf_Reason : string;
  pf_Message : string;
  pf_BackendCreated : bool;
  pf_ExportCreated : bool;
}.

Record VolumeExportInfo := { xi_TargetID : string; xi_Address : string; xi_Port : Z; xi_VolumeRef : string }.

Record NFSExportSpec := { nx_Version : string; nx_Squash : string; nx_Readonly : bool }.

Record VolumeExportSpec := {
  xs_BindAddress : string;
  xs_Port : Z;
  xs_ACLEnabled : bool;
  xs_InCapsuleDataSize : option Z;
  xs_MaxDataTransferSize : option Z;
  xs_NFS : option NFSExportSpec;
}.

Record VolumePublication := {
  NodeID : string;
  InitiatorID : string;
  AccessMode : string;
  Readonly : bool;
  Revoking : bool;
  Local : bool;
}.

Record PillarVolumeStateStatus := {
  Phase : PillarVolumeStatePhase;
  PartialFailure : option PartialFailureInfo;
  BackendDevicePath : string;
  ImportAcquired : bool;
  ExportInfo : option VolumeExportInfo;
  PublishedNodes : list VolumePublication;
  ExportSpec : option VolumeExportSpec;
  LocalAttachNode : string;
  PublicationGeneration : Z;
  Deleting : bool;
}.

(** The object with its name, its UID and its resource version. *)
Record PillarVolumeState := {
  pvs_Name : string;
  pvs_UID : string;
  pvs_ResourceVersion : Z;
  Spec : PillarVolumeStateSpec;
  Status : PillarVolumeStateStatus;
}.

#[export] Instance FilesystemAdoptionSpec_eq_dec : EqDecision FilesystemAdoptionSpec.
Proof. solve_decision. Defined.
#[export] Instance LVMSourceRef_eq_dec : EqDecision LVMSourceRef.
Proof. solve_decision. Defined.
#[export] Instance ResolvedVolumeConfig_eq_dec : EqDecision ResolvedVolumeConfig.
Proof. solve_decision. Defined.
#[export] Instance PillarVolumeStatePhase_eq_dec : EqDecision PillarVolumeStatePhase.
Proof. solve_decision. Defined.
#[export] Instance VolumePublication_eq_dec : EqDecision VolumePublication.
Proof. solve_decision. Defined.

(** A new object's status. *)
Definition emptyStatus : PillarVolumeStateStatus := {|
  Phase := PhaseNone; PartialFailure := None; BackendDevicePath := ""; ImportAcquired := false;
  ExportInfo := None; PublishedNodes := []; ExportSpec := None; LocalAttachNode := "";
  PublicationGeneration := 0; Deleting := false |}.

(** Field assignments. *)
Definition set_Status (p : PillarVolumeState) (st : PillarVolumeStateStatus) : PillarVolumeState :=
  {| pvs_Name := pvs_Name p; pvs_UID := pvs_UID p; pvs_ResourceVersion := pvs_ResourceVersion p;
     Spec := Spec p; Status := st |}.
Definition set_publication (st : PillarVolumeStateStatus) (nodes : list VolumePublication)
    (localNode : string) (gen : Z) (deleting : bool) : PillarVolumeStateStatus := {|
  Phase := Phase st; PartialFailure := PartialFailure st; BackendDevicePath := BackendDevicePath st;
  ImportAcquired := ImportAcquired st; ExportInfo := ExportInfo st; PublishedNodes := nodes;
  ExportSpec := ExportSpec st; LocalAttachNode := localNode; PublicationGeneration := gen;
  Deleting := deleting |}.
Definition set_provision (st : PillarVolumeStateStatus) (phase : PillarVolumeStatePhase)
    (pf : option PartialFailureInfo) (dev : string) (acquired : bool) (info : option VolumeExportInfo)
    (xspec : option VolumeExportSpec) : PillarVolumeStateStatus := {|
  Phase := phase; PartialFailure := pf; BackendDevicePath := dev; ImportAcquired := acquired;
  ExportInfo := info; PublishedNodes := PublishedNodes st; ExportSpec := xspec;
  LocalAttachNode := LocalAttachNode st; PublicationGeneration := PublicationGeneration st;
  Deleting := Deleting st |}.

Definition set_PublishedNodes (p : PillarVolumeState) (l : list VolumePublication) :=
  set_Status p (set_publication (Status p) l (LocalAttachNode (Status p)) (PublicationGeneration (Status p)) (Deleting (Status p))).
Definition set_LocalAttachNode (p : PillarVolumeState) (n : string) :=
  set_Status p (set_publication (Status p) (PublishedNodes (Status p)) n (PublicationGeneration (Status p)) (Deleting (Status p))).
Definition set_PublicationGeneration (p : PillarVolumeState) (g : Z) :=
  set_Status p (set_publication (Status p) (PublishedNodes (Status p)) (LocalAttachNode (Status p)) g (Deleting (Status p))).
Definition set_Deleting (p : PillarVolumeState) :=
  set_Status p (set_publication (Status p) (PublishedNodes (Status p)) (LocalAttachNode (Status p)) (PublicationGeneration (Status p)) true).
Definition set_Phase (p : PillarVolumeState) (ph : PillarVolumeStatePhase) :=
  set_Status p (set_provision (Status p) ph (PartialFailure (Status p)) (BackendDevicePath (Status p))
    (ImportAcquired (Status p)) (ExportInfo (Status p)) (ExportSpec (Status p))).
Definition set_Revoking (p : VolumePublication) : VolumePublication := {|
  NodeID := NodeID p; InitiatorID := InitiatorID p; AccessMode := AccessMode p; Readonly := Readonly p;
  Revoking := true; Local := Local p |}.
Definition set_CapacityBytes (p : PillarVolumeState) (c : Z) : PillarVolumeState := {|
  pvs_Name := pvs_Name p; pvs_UID := pvs_UID p; pvs_ResourceVersion := pvs_ResourceVersion p;
  Spec := {| VolumeID := VolumeID (Spec p); AgentVolumeID := AgentVolumeID (Spec p);
    AgentRef := AgentRef (Spec p); SpecBackendType := SpecBackendType (Spec p);
    SpecProtocolType := SpecProtocolType (Spec p); CapacityBytes := c;
    ClaimRef := ClaimRef (Spec p); ImportedFrom := ImportedFrom (Spec p);
    SpecFilesystemAdoption := SpecFilesystemAdoption (Spec p); SpecLVMSource := SpecLVMSource (Spec p);
    Resolved := Resolved (Spec p); SpecRecovery := SpecRecovery (Spec p) |};
  Status := Status p |}.
Definition set_VolumeID (s : PillarVolumeStateSpec) (id : string) : PillarVolumeStateSpec := {|
  VolumeID := id; AgentVolumeID := AgentVolumeID s; AgentRef := AgentRef s;
  SpecBackendType := SpecBackendType s; SpecProtocolType := SpecProtocolType s;
  CapacityBytes := CapacityBytes s; ClaimRef := ClaimRef s; ImportedFrom := ImportedFrom s;
  SpecFilesystemAdoption := SpecFilesystemAdoption s; SpecLVMSource := SpecLVMSource s;
  Resolved := Resolved s; SpecRecovery := SpecRecovery s |}.

(** ** Driver scope (import_filesystem.go) *)

Definition DefaultCSIDriver : string := "pillar-csi.bhyoo.com".
Definition FileCSIDriver : string := "files.pillar-csi.bhyoo.com".

Definition effectiveDriverName (driverName : string) : string :=
  if decide (driverName = "") then DefaultCSIDriver else driverName.

Definition scopedDriverForSpec (spec : PillarVolumeStateSpec) : string :=
  match SpecFilesystemAdoption spec with Some _ => FileCSIDriver | None => DefaultCSIDriver end.

Definition validateVolumeDriver (driverName : string) (spec : PillarVolumeStateSpec) : GoResult unit :=
  if decide (scopedDriverForSpec spec ≠ effectiveDriverName driverName)
  then Err (EStatus NotFound "volume belongs to another CSI driver") else Ok tt.

(** ** Filesystem lifecycle handles (controller_filesystem.go) *)

Definition localOnlyFilesystem (spec : PillarVolumeStateSpec) : bool :=
  match SpecFilesystemAdoption spec, Resolved spec with
  | Some _, Some r => rs_LocalAttach r
  | _, _ => false
  end.

Definition filesystemVolumeIDBase (spec : PillarVolumeStateSpec) : string :=
  Join "/" [AgentRef spec; SpecProtocolType spec; SpecBackendType spec; AgentVolumeID spec].

(** [newFilesystemVolumeID] with the 16 random bytes it drew. *)
Definition newFilesystemVolumeID (base : string) (nonce : bytes) : string :=
  base +:+ "." +:+ hex_encode nonce.

Fixpoint nonceChars (s : string) : bool :=
  match s with
  | EmptyString => true
  | String c s =>
      let n := N_of_ascii c in
      (((48 <=? n) && (n <=? 57)) || ((97 <=? n) && (n <=? 102)))%N && nonceChars s
  end.

Definition validFilesystemLifecycleNonce (nonce : string) : bool :=
  (String.length nonce =? 32)%nat && nonceChars nonce.

Definition isFilesystemVolumeID (spec : PillarVolumeStateSpec) : bool :=
  match SpecFilesystemAdoption spec with
  | None => false
  | Some _ =>
      if bool_decide (AgentRef spec = "") || bool_decide (SpecProtocolType spec = "")
         || bool_decide (SpecBackendType spec = "") || bool_decide (AgentVolumeID spec = "") then false
      else
        match CutPrefix (VolumeID spec) (filesystemVolumeIDBase spec) with
        | None => false
        | Some suffix =>
            if negb (String.length suffix =? 33)%nat then false
            else
              match suffix with
              | String c rest => if Ascii.eqb c "." then validFilesystemLifecycleNonce rest else false
              | EmptyString => false
              end
        end
  end.

(** ** Publications (controller.go) *)

Definition MULTI_NODE_READER_ONLY : string := "MULTI_NODE_READER_ONLY".
Definition MULTI_NODE_SINGLE_WRITER : string := "MULTI_NODE_SINGLE_WRITER".
Definition MULTI_NODE_MULTI_WRITER : string := "MULTI_NODE_MULTI_WRITER".

Definition canSharePublication (a b : VolumePublication) : bool :=
  if decide (AccessMode a ≠ AccessMode b) then false
  else if bool_decide (AccessMode a = MULTI_NODE_READER_ONLY)
          || bool_decide (AccessMode a = MULTI_NODE_MULTI_WRITER) then true
  else if bool_decide (AccessMode a = MULTI_NODE_SINGLE_WRITER) then Readonly a || Readonly b
  else false.

(** ** Recovery records (recovery.go) *)

Definition recoveryPending (p : PillarVolumeState) : bool :=
  bool_decide (is_Some (SpecRecovery (Spec p))) && negb (bool_decide (is_Some (ExportInfo (Status p)))).

Definition refuseRecoveryPending (p : PillarVolumeState) : GoResult unit :=
  if negb (recoveryPending p) then Ok tt
  else Err (EStatus FailedPrecondition "volume is a recovery record awaiting an authorized ownership transfer").

Definition recoveryPreservesOriginal (p : PillarVolumeState) : bool :=
  match SpecRecovery (Spec p) with
  | Some r => match vr_Source r with Some src => lr_PreserveOriginal src | None => false end
  | None => false
  end.
