(* ===== verification/Resolve.v ===== *)
(** * Resolution of a volume's configuration

    CreateVolume resolves the configuration of a new volume from layers: the
    PillarStore and PillarProtocol, the class (a PillarStorageClass or a
    hand-written StorageClass), and the annotations of the claim
    (src/internal/csi/resolve.go, pvc_annotations.go).  The objects of the
    cluster are read through [cluster]; the documents are those of
    [ConfigDocs].  The theorems state the layering as a rule per field, and
    that a retry keeps what the first attempt recorded. *)
From stdpp Require Import base numbers list strings gmap.
From S2P Require Import Prelude GoStd GoNet GoJson ConfigTypes ConfigDocs FsParams PillarVolumeState.
Open Scope Z_scope.

Definition paramBinding : string := "pillar-csi.bhyoo.com/storage-class".
Definition paramStoreRef : string := "pillar-csi.bhyoo.com/store-ref".
Definition paramProtocolRef : string := "pillar-csi.bhyoo.com/protocol-ref".
Definition paramFSTypeSC : string := "csi.storage.k8s.io/fstype".
Definition paramLocalAttach : string := "pillar-csi.bhyoo.com/local-attach".
Definition paramPVCNameMeta : string := "csi.storage.k8s.io/pvc/name".
Definition paramPVCNamespaceMeta : string := "csi.storage.k8s.io/pvc/namespace".
Definition pillarAnnotationDomain : string := "pillar-csi.bhyoo.com/".
Definition AnnotationImportZvol : string := "pillar-csi.bhyoo.com/import-zvol".
Definition AnnotationImportDirectory : string := "pillar-csi.bhyoo.com/import-directory".
Definition AnnotationImportZFSDataset : string := "pillar-csi.bhyoo.com/import-zfs-dataset".
Definition AnnotationImportLV : string := "pillar-csi.bhyoo.com/import-lv".
Definition AnnotationImportLVPolicy : string := "pillar-csi.bhyoo.com/import-lv-policy".

Definition paramNVMeOFMaxQueueSize : string := "pillar-csi.bhyoo.com/nvmeof-max-queue-size".
Definition paramNVMeOFCtrlLossTmo : string := "pillar-csi.bhyoo.com/nvmeof-ctrl-loss-tmo".
Definition paramNVMeOFReconnectDelay : string := "pillar-csi.bhyoo.com/nvmeof-reconnect-delay".
Definition paramNVMeOFMaxDataTransferSize : string := "pillar-csi.bhyoo.com/nvmeof-max-data-transfer-size".
Definition paramNFSVersion : string := "pillar-csi.bhyoo.com/nfs-version".
Definition VolumeContextKeyISCSIAuthMethod : string := "pillar-csi.bhyoo.com/iscsi-auth-method".
Definition VolumeContextKeyISCSILoginTimeout : string := "pillar-csi.bhyoo.com/iscsi-login-timeout".
Definition VolumeContextKeyISCSIReplacementTimeout : string := "pillar-csi.bhyoo.com/iscsi-replacement-timeout".
Definition VolumeContextKeyISCSINoopOutInterval : string := "pillar-csi.bhyoo.com/iscsi-noop-out-interval".
Definition VolumeContextKeyISCSINoopOutTimeout : string := "pillar-csi.bhyoo.com/iscsi-noop-out-timeout".

Definition generatedClassParams : list string := [paramBinding].
Definition handWrittenClassParams : list string :=
  [paramStoreRef; paramProtocolRef; BackendDocKey; ProtocolDocKey; FilesystemDocKey; paramLocalAttach].

Definition invalidConfig {A} (what : string) : GoResult A := Err (EStatus InvalidArgument what).
(** An error of a document, reported as InvalidArgument. *)
Definition asInvalid {A} (r : GoResult A) : GoResult A :=
  match r with Ok a => Ok a | Err _ => invalidConfig "invalid configuration" end.

(** ** Objects of the cluster *)

Inductive get_result (A : Type) := Found (a : A) | NotFoundObject | GetFailed.
Arguments Found {A}.
Arguments NotFoundObject {A}.
Arguments GetFailed {A}.
Record cluster := {
  cl_class : string → get_result PillarStorageClass;
  cl_protocol : string → get_result ProtocolSpec;
  cl_store : string → get_result PillarStore;
  cl_claim : string → string → get_result (gmap string string);
}.
Definition getCR {A} (r : get_result A) : GoResult A :=
  match r with
  | Found a => Ok a
  | NotFoundObject => Err (EStatus FailedPrecondition "not found")
  | GetFailed => Err (EStatus Internal "get")
  end.

Record classLayer := {
  cy_store : option PillarStore;
  cy_protocol : ProtocolSpec;
  cy_backend : option BackendOverrides;
  cy_protocolOv : option ProtocolOverrides;
  cy_filesystem : option FilesystemConfig;
  cy_localAttach : bool;
  cy_driverName : string;
  cy_storeName : string;
}.
Record pvcDocs := {
  pd_Backend : option BackendOverrides;
  pd_Protocol : option ProtocolOverrides;
  pd_Filesystem : option FilesystemConfig;
  pd_ImportZvol : string;
  pd_ImportDirectory : string;
  pd_ImportZFSDataset : string;
  pd_ImportLV : string;
  pd_ImportLVPolicy : string;
}.
Definition noDocs : pvcDocs := {|
  pd_Backend := None; pd_Protocol := None; pd_Filesystem := None; pd_ImportZvol := ""; pd_ImportDirectory := "";
  pd_ImportZFSDataset := ""; pd_ImportLV := ""; pd_ImportLVPolicy := "" |}.
Record resolution := {
  rn_resolved : ResolvedConfig;
  rn_agentRef : string;
  rn_pvcFS : option FilesystemConfig;
  rn_storeName : string;
  rn_importDataset : string;
  rn_importDirectory : string;
  rn_importZFSDataset : string;
  rn_importLV : string;
  rn_importLVPolicy : string;
}.

(** ** Annotations *)

Definition rejectUnknownPillarKeys (m : gmap string string) (allowed : list string) : GoResult unit :=
  if forallb (λ '(k, _), negb (HasPrefix k pillarAnnotationDomain) || containsb allowed k) (map_to_list m) then Ok tt
  else Err (EPlain "unsupported key").

Definition annotationKeys : list string :=
  [BackendDocKey; ProtocolDocKey; FilesystemDocKey; AnnotationImportZvol; AnnotationImportDirectory;
   AnnotationImportZFSDataset; AnnotationImportLV; AnnotationImportLVPolicy].

(** A selector annotation: absent, or the trimmed name of a source. *)
Definition importSelector (annotations : gmap string string) (key : string) : GoResult (option string) :=
  match annotations !! key with
  | None => Ok None
  | Some raw => if decide (TrimSpace raw = "") then Err (EPlain "value must name a source") else Ok (Some (TrimSpace raw))
  end.
Definition count_some {A} (l : list (option A)) : nat := length (base.filter (λ o, is_Some o) l).

Definition decodeImportLV (annotations : gmap string string) (docs : pvcDocs) : GoResult pvcDocs :=
  let present := annotations !! AnnotationImportLV in
  let policy := annotations !! AnnotationImportLVPolicy in
  let lv := TrimSpace (default "" present) in
  let lvPolicy := TrimSpace (default "" policy) in
  if bool_decide (present ≠ None) && bool_decide (lv = "") then Err (EPlain "import-lv: got empty")
  else if bool_decide (policy ≠ None) && bool_decide (lvPolicy = "") then Err (EPlain "import-lv-policy: got empty")
  else if bool_decide (policy ≠ None) && bool_decide (present = None) then Err (EPlain "import-lv-policy without import-lv")
  else if bool_decide (present ≠ None) &&
          (negb (bool_decide (pd_ImportZvol docs = "")) || negb (bool_decide (pd_ImportDirectory docs = ""))
           || negb (bool_decide (pd_ImportZFSDataset docs = ""))) then Err (EPlain "mutually exclusive")
  else Ok {| pd_Backend := pd_Backend docs; pd_Protocol := pd_Protocol docs; pd_Filesystem := pd_Filesystem docs;
             pd_ImportZvol := pd_ImportZvol docs; pd_ImportDirectory := pd_ImportDirectory docs;
             pd_ImportZFSDataset := pd_ImportZFSDataset docs; pd_ImportLV := lv; pd_ImportLVPolicy := lvPolicy |}.

(** ** Overrides *)

Definition applyBackendOverride (backend : BackendSpec) (ov : option BackendOverrides) : GoResult BackendSpec :=
  match ov with
  | None => Ok backend
  | Some ov =>
      match bo_ZFS ov, bo_LVM ov, bo_Directory ov with
      | Some z, _, _ =>
          match be_ZFS backend with
          | None => Err (EPlain "zfs overrides do not apply")
          | Some b =>
              Ok {| be_ZFS := Some {| zc_VolumeType := zc_VolumeType b; zc_Pool := zc_Pool b; zc_ParentDataset := zc_ParentDataset b;
                                      zc_Properties := zo_Properties z ∪ zc_Properties b |};
                    be_LVM := be_LVM backend; be_Directory := be_Directory backend |}
          end
      | None, Some l, _ =>
          match be_LVM backend with
          | None => Err (EPlain "lvm overrides do not apply")
          | Some b =>
              Ok {| be_ZFS := be_ZFS backend;
                    be_LVM := Some {| lc_VolumeGroup := lc_VolumeGroup b; lc_ThinPool := lc_ThinPool b;
                                      lc_ProvisioningMode := if decide (lo_ProvisioningMode l = "") then lc_ProvisioningMode b
                                                             else lo_ProvisioningMode l |};
                    be_Directory := be_Directory backend |}
          end
      | None, None, Some _ =>
          match be_Directory backend with None => Err (EPlain "directory overrides do not apply") | Some _ => Ok backend end
      | None, None, None => Ok backend
      end
  end.

(** A tunable with its override: a nil source leaves it unchanged. *)
Definition int32Override (dst src : option Z) : option Z := match src with Some v => Some v | None => dst end.

Definition applyProtocolOverride (protocol : ProtocolSpec) (ov : option ProtocolOverrides) : GoResult ProtocolSpec :=
  match ov with
  | None => Ok protocol
  | Some ov =>
      match po_NVMeOFTCP ov, po_ISCSI ov, po_NFS ov with
      | Some src, _, _ =>
          match ps_NVMeOFTCP protocol with
          | None => Err (EPlain "nvmeofTcp overrides do not apply")
          | Some dst =>
              Ok {| ps_NVMeOFTCP := Some {|
                      nc_Port := nc_Port dst; nc_ACL := nc_ACL dst;
                      nc_MaxQueueSize := int32Override (nc_MaxQueueSize dst) (no_MaxQueueSize src);
                      nc_InCapsuleDataSize := int32Override (nc_InCapsuleDataSize dst) (no_InCapsuleDataSize src);
                      nc_MaxDataTransferSize := int32Override (nc_MaxDataTransferSize dst) (no_MaxDataTransferSize src);
                      nc_CtrlLossTmo := int32Override (nc_CtrlLossTmo dst) (no_CtrlLossTmo src);
                      nc_ReconnectDelay := int32Override (nc_ReconnectDelay dst) (no_ReconnectDelay src);
                      nc_HdrDigest := nc_HdrDigest dst; nc_DataDigest := nc_DataDigest dst |};
                    ps_ISCSI := ps_ISCSI protocol; ps_NFS := ps_NFS protocol |}
          end
      | None, Some src, _ =>
          match ps_ISCSI protocol with
          | None => Err (EPlain "iscsi overrides do not apply")
          | Some dst =>
              Ok {| ps_NVMeOFTCP := ps_NVMeOFTCP protocol;
                    ps_ISCSI := Some {|
                      ic_Port := ic_Port dst; ic_ACL := ic_ACL dst;
                      ic_LoginTimeout := int32Override (ic_LoginTimeout dst) (io_LoginTimeout src);
                      ic_ReplacementTimeout := int32Override (ic_ReplacementTimeout dst) (io_ReplacementTimeout src);
                      ic_NoopOutInterval := int32Override (ic_NoopOutInterval dst) (io_NoopOutInterval src);
                      ic_NoopOutTimeout := int32Override (ic_NoopOutTimeout dst) (io_NoopOutTimeout src);
                      ic_Auth := ic_Auth dst |};
                    ps_NFS := ps_NFS protocol |}
          end
      | None, None, Some _ =>
          match ps_NFS protocol with None => Err (EPlain "nfs overrides do not apply") | Some _ => Ok protocol end
      | None, None, None => Ok protocol
      end
  end.

(** The record keeps a data transfer limit, and no digests. *)
Definition settleProtocol (protocol : ProtocolSpec) : ProtocolSpec :=
  match ps_NVMeOFTCP protocol with
  | None => protocol
  | Some n =>
      {| ps_NVMeOFTCP := Some {|
           nc_Port := nc_Port n; nc_ACL := nc_ACL n; nc_MaxQueueSize := nc_MaxQueueSize n; nc_InCapsuleDataSize := nc_InCapsuleDataSize n;
           nc_MaxDataTransferSize := match nc_MaxDataTransferSize n with Some v => Some v | None => Some DefaultMaxDataTransferSize end;
           nc_CtrlLossTmo := nc_CtrlLossTmo n; nc_ReconnectDelay := nc_ReconnectDelay n; nc_HdrDigest := false; nc_DataDigest := false |};
         ps_ISCSI := ps_ISCSI protocol; ps_NFS := ps_NFS protocol |}
  end.
Definition resolveProtocol (class : classLayer) (pvc : pvcDocs) : GoResult ProtocolSpec :=
  protocol ← asInvalid (applyProtocolOverride (cy_protocol class) (cy_protocolOv class));
  protocol ← asInvalid (applyProtocolOverride protocol (pd_Protocol pvc));
  Ok (settleProtocol protocol).

(** ** Filesystem *)

Fixpoint capabilityFSType (caps : list VolumeCapability) (fsType : string) : GoResult string :=
  match caps with
  | [] => Ok fsType
  | c :: caps =>
      let v := capFsType c in
      if bool_decide (v = "") || bool_decide (v = fsType) then capabilityFSType caps fsType
      else if negb (bool_decide (fsType = "")) then invalidConfig "conflicting fsTypes"
      else capabilityFSType caps v
  end.

Definition classFilesystemBase (scParams : volume_context) (capFSType : string) (classFS : option FilesystemConfig) : GoResult FilesystemConfig :=
  if negb (bool_decide (getKey scParams paramBinding = "")) then
    Ok {| fs_FSType := defaultFsType; fs_MkfsOptions := None; fs_MountOptions := Some []; fs_PeriodicTrim := None |}
  else
    let fs t := {| fs_FSType := t; fs_MkfsOptions := None; fs_MountOptions := None; fs_PeriodicTrim := None |} in
    let scFSType := getKey scParams paramFSTypeSC in
    if negb (bool_decide (scFSType = "")) && negb (bool_decide (capFSType = "")) && negb (bool_decide (scFSType = capFSType)) then
      invalidConfig "conflicts with the volume capability fsType"
    else
      let scFSType := if decide (scFSType = "") then capFSType else scFSType in
      if decide (scFSType = "") then Ok (fs defaultFsType)
      else if negb (bool_decide (scFSType = defaultFsType)) && negb (bool_decide (scFSType = xfsFsType))
              && negb (bool_decide (scFSType = ProtocolIDNFS)) then
        invalidConfig "unsupported StorageClass parameter"
      else
        match classFS with
        | Some c => if negb (bool_decide (fs_FSType c = "")) && negb (bool_decide (fs_FSType c = scFSType))
                    then invalidConfig "fsType conflicts" else Ok (fs scFSType)
        | None => Ok (fs scFSType)
        end.

Definition filesystemLayer (fs : FilesystemConfig) (layer : option FilesystemConfig) : FilesystemConfig :=
  match layer with
  | None => fs
  | Some l =>
      {| fs_FSType := if decide (fs_FSType l = "") then fs_FSType fs else fs_FSType l;
         fs_MkfsOptions := match fs_MkfsOptions l with Some o => Some o | None => fs_MkfsOptions fs end;
         fs_MountOptions := match fs_MountOptions l with Some o => Some o | None => fs_MountOptions fs end;
         fs_PeriodicTrim := match fs_PeriodicTrim l with Some o => Some o | None => fs_PeriodicTrim fs end |}
  end.
Definition resolveFilesystem (scParams : volume_context) (caps : list VolumeCapability)
    (classFS pvcFS : option FilesystemConfig) : GoResult FilesystemConfig :=
  capFSType ← capabilityFSType caps "";
  fs ← classFilesystemBase scParams capFSType classFS;
  Ok (filesystemLayer (filesystemLayer fs classFS) pvcFS).

Definition nfsDocument (fs : option FilesystemConfig) : bool :=
  match fs with
  | None => true
  | Some fs =>
      (bool_decide (fs_FSType fs = "") || bool_decide (fs_FSType fs = "nfs")) &&
      bool_decide (derefList (fs_MkfsOptions fs) = []) &&
      negb (bool_decide (fs_PeriodicTrim fs = Some true))
  end.
Definition validateNFSFilesystem (scParams : volume_context) (caps : list VolumeCapability)
    (classFS pvcFS : option FilesystemConfig) : GoResult unit :=
  let scType := getKey scParams paramFSTypeSC in
  if negb (bool_decide (scType = "")) && negb (bool_decide (scType = ProtocolNFS)) then Err (EPlain "fsType is not supported for NFS volumes")
  else if negb (forallb (λ c, bool_decide (capFsType c = "") || bool_decide (capFsType c = ProtocolNFS)) caps) then
    Err (EPlain "capability fsType is not supported for NFS volumes")
  else if nfsDocument classFS && nfsDocument pvcFS then Ok tt
  else Err (EPlain "filesystem document is not supported for NFS volumes").

Definition set_FSType (fs : FilesystemConfig) (t : string) : FilesystemConfig :=
  {| fs_FSType := t; fs_MkfsOptions := fs_MkfsOptions fs; fs_MountOptions := fs_MountOptions fs; fs_PeriodicTrim := fs_PeriodicTrim fs |}.
Definition resolveProtocolFilesystem (scParams : volume_context) (caps : list VolumeCapability) (class : classLayer)
    (pvcFS : option FilesystemConfig) (protocol : string) : GoResult FilesystemConfig :=
  fs ← resolveFilesystem scParams caps (cy_filesystem class) pvcFS;
  if negb (bool_decide (protocol = ProtocolIDNFS)) then Ok fs
  else
    _ ← asInvalid (validateNFSFilesystem scParams caps (cy_filesystem class) pvcFS);
    if cy_localAttach class && negb (bool_decide (cy_driverName class = FileCSIDriver)) then
      invalidConfig "localAttach is not supported for protocol nfs"
    else Ok (set_FSType fs ProtocolNFS).

Definition parseLocalAttachParam (scParams : volume_context) : GoResult bool :=
  match scParams !! paramLocalAttach with
  | None => Ok false
  | Some raw => if decide (raw = "true") then Ok true else if decide (raw = "false") then Ok false else invalidConfig "must be true or false"
  end.

Section Resolve.
Context {float : Type} (float_int64 : float → option Z) (UnmarshalYAML : string → GoResult (yaml float)).
Context (driverName : string).

Definition decodePVCAnnotations (annotations : gmap string string) : GoResult pvcDocs :=
  _ ← rejectUnknownPillarKeys annotations annotationKeys;
  backend ← DecodeBackendOverride UnmarshalYAML (getKey annotations BackendDocKey);
  protocol ← DecodeProtocolOverride float_int64 UnmarshalYAML (getKey annotations ProtocolDocKey);
  filesystem ← DecodeFilesystemDoc UnmarshalYAML (getKey annotations FilesystemDocKey);
  zvol ← importSelector annotations AnnotationImportZvol;
  directory ← importSelector annotations AnnotationImportDirectory;
  dataset ← importSelector annotations AnnotationImportZFSDataset;
  if (1 <? count_some [zvol; directory; dataset])%nat then Err (EPlain "import selectors are mutually exclusive")
  else decodeImportLV annotations {|
    pd_Backend := backend; pd_Protocol := protocol; pd_Filesystem := filesystem;
    pd_ImportZvol := default "" zvol; pd_ImportDirectory := default "" directory; pd_ImportZFSDataset := default "" dataset;
    pd_ImportLV := ""; pd_ImportLVPolicy := "" |}.

Definition claimDocs (k : cluster) (scParams : volume_context) (allowAbsent : bool) : GoResult pvcDocs :=
  let pvcName := getKey scParams paramPVCNameMeta in
  let pvcNamespace := getKey scParams paramPVCNamespaceMeta in
  if bool_decide (pvcName = "") || bool_decide (pvcNamespace = "") then Ok noDocs
  else
    match cl_claim k pvcNamespace pvcName with
    | NotFoundObject => if allowAbsent then Ok noDocs else Err (EStatus FailedPrecondition "PersistentVolumeClaim not found")
    | GetFailed => Err (EStatus Internal "get PersistentVolumeClaim")
    | Found annotations => asInvalid (decodePVCAnnotations annotations)
    end.

Definition loadStoreAndProtocol (k : cluster) (class : classLayer) (storeName protocolName : string) (withStore : bool) : GoResult classLayer :=
  protocol ← getCR (cl_protocol k protocolName);
  if decide (ProtocolKind protocol = "") then invalidConfig "spec.protocol sets no protocol member"
  else
    let layer store := {| cy_store := store; cy_protocol := protocol; cy_backend := cy_backend class; cy_protocolOv := cy_protocolOv class;
                          cy_filesystem := cy_filesystem class; cy_localAttach := cy_localAttach class;
                          cy_driverName := cy_driverName class; cy_storeName := storeName |} in
    if negb withStore then Ok (layer None)
    else
      store ← getCR (cl_store k storeName);
      if decide (BackendKind (st_Backend store) = "") then invalidConfig "spec.backend sets no backend member"
      else if bool_decide (be_Directory (st_Backend store) ≠ None) && negb (bool_decide (effectiveDriverName driverName = FileCSIDriver)) then
        invalidConfig "directory backend requires the file CSI driver"
      else if negb (Compatible (st_Backend store) protocol) then invalidConfig "incompatible"
      else Ok (layer (Some store)).

Definition emptyLayer : classLayer := {|
  cy_store := None; cy_protocol := {| ps_NVMeOFTCP := None; ps_ISCSI := None; ps_NFS := None |}; cy_backend := None; cy_protocolOv := None;
  cy_filesystem := None; cy_localAttach := false; cy_driverName := effectiveDriverName driverName; cy_storeName := "" |}.
Definition documentLayer (backend : option BackendOverrides) (protocol : option ProtocolOverrides) (filesystem : option FilesystemConfig)
    (localAttach : bool) : classLayer := {|
  cy_store := None; cy_protocol := cy_protocol emptyLayer; cy_backend := backend; cy_protocolOv := protocol; cy_filesystem := filesystem;
  cy_localAttach := localAttach; cy_driverName := effectiveDriverName driverName; cy_storeName := "" |}.

(** [PillarStorageClassSpec.EffectiveCSIDriver] *)
Definition EffectiveCSIDriver (c : PillarStorageClass) : string :=
  if decide (sc_CSIDriver c = "") then DefaultCSIDriver else sc_CSIDriver c.

Definition resolveClassLayer (k : cluster) (scParams : volume_context) (withStore : bool) : GoResult classLayer :=
  let bindingName := getKey scParams paramBinding in
  if negb (bool_decide (bindingName = "")) then
    _ ← asInvalid (rejectUnknownPillarKeys scParams generatedClassParams);
    binding ← getCR (cl_class k bindingName);
    if negb (bool_decide (EffectiveCSIDriver binding = effectiveDriverName driverName)) then invalidConfig "selects another CSI driver"
    else
      loadStoreAndProtocol k
        (documentLayer (sc_Overrides binding ≫= so_Backend) (sc_Overrides binding ≫= so_Protocol) (sc_Filesystem binding) (sc_LocalAttach binding))
        (sc_StoreRef binding) (sc_ProtocolRef binding) withStore
  else
    _ ← asInvalid (rejectUnknownPillarKeys scParams handWrittenClassParams);
    let storeName := getKey scParams paramStoreRef in
    let protocolName := getKey scParams paramProtocolRef in
    if bool_decide (storeName = "") || bool_decide (protocolName = "") then invalidConfig "must name the configuration"
    else
      backendDoc ← asInvalid (DecodeBackendOverride UnmarshalYAML (getKey scParams BackendDocKey));
      protocolDoc ← asInvalid (DecodeProtocolOverride float_int64 UnmarshalYAML (getKey scParams ProtocolDocKey));
      filesystemDoc ← asInvalid (DecodeFilesystemDoc UnmarshalYAML (getKey scParams FilesystemDocKey));
      localAttach ← parseLocalAttachParam scParams;
      loadStoreAndProtocol k (documentLayer backendDoc protocolDoc filesystemDoc localAttach) storeName protocolName withStore.

(** The live protocol with the recorded authentication. *)
Definition keepAuth (protocol recorded : ProtocolSpec) : ProtocolSpec :=
  match ps_ISCSI protocol, ps_ISCSI recorded with
  | Some i, Some r =>
      {| ps_NVMeOFTCP := ps_NVMeOFTCP protocol;
         ps_ISCSI := Some {| ic_Port := ic_Port i; ic_ACL := ic_ACL i; ic_LoginTimeout := ic_LoginTimeout i;
                             ic_ReplacementTimeout := ic_ReplacementTimeout i; ic_NoopOutInterval := ic_NoopOutInterval i;
                             ic_NoopOutTimeout := ic_NoopOutTimeout i; ic_Auth := ic_Auth r |};
         ps_NFS := ps_NFS protocol |}
  | _, _ => protocol
  end.
Definition replayResolution (class : classLayer) (pvc : pvcDocs) (protocol : ProtocolSpec) (recorded : ResolvedConfig) : GoResult resolution :=
  if negb (bool_decide (ProtocolKind protocol = ProtocolKind (rv_Protocol recorded))) then
    Err (EStatus FailedPrecondition "the volume was provisioned over another protocol")
  else
    Ok {| rn_resolved := {| rv_Backend := rv_Backend recorded; rv_Protocol := keepAuth protocol (rv_Protocol recorded); rv_Filesystem := rv_Filesystem recorded;
                            rv_LocalAttach := rv_LocalAttach recorded |};
          rn_agentRef := ""; rn_pvcFS := pd_Filesystem pvc; rn_storeName := cy_storeName class;
          rn_importDataset := pd_ImportZvol pvc; rn_importDirectory := pd_ImportDirectory pvc;
          rn_importZFSDataset := pd_ImportZFSDataset pvc; rn_importLV := pd_ImportLV pvc; rn_importLVPolicy := pd_ImportLVPolicy pvc |}.

(** The LVM default, and the check of a thin pool. *)
Definition settleBackend (backend : BackendSpec) : GoResult BackendSpec :=
  match be_LVM backend with
  | None => Ok backend
  | Some l =>
      let mode := if decide (lc_ProvisioningMode l = "") then LVMProvisioningModeLinear else lc_ProvisioningMode l in
      if bool_decide (mode = LVMProvisioningModeThin) && bool_decide (lc_ThinPool l = "") then invalidConfig "thin requires lvm.thinPool"
      else Ok {| be_ZFS := be_ZFS backend;
                 be_LVM := Some {| lc_VolumeGroup := lc_VolumeGroup l; lc_ThinPool := lc_ThinPool l; lc_ProvisioningMode := mode |};
                 be_Directory := be_Directory backend |}
  end.

Definition resolveVolumeConfig (k : cluster) (scParams : volume_context) (caps : list VolumeCapability)
    (recorded : option ResolvedConfig) : GoResult resolution :=
  class ← resolveClassLayer k scParams (bool_decide (recorded = None));
  pvc ← claimDocs k scParams false;
  protocol ← resolveProtocol class pvc;
  match recorded, cy_store class with
  | Some recorded, _ => replayResolution class pvc protocol recorded
  | None, None => Err (EPlain "nil store")
  | None, Some store =>
      backend ← asInvalid (applyBackendOverride (st_Backend store) (cy_backend class));
      backend ← asInvalid (applyBackendOverride backend (pd_Backend pvc));
      backend ← settleBackend backend;
      fs ← resolveProtocolFilesystem scParams caps class (pd_Filesystem pvc) (ProtocolKind protocol);
      Ok {| rn_resolved := {| rv_Backend := backend; rv_Protocol := protocol; rv_Filesystem := Some fs; rv_LocalAttach := cy_localAttach class |};
            rn_agentRef := st_AgentRef store; rn_pvcFS := pd_Filesystem pvc; rn_storeName := cy_storeName class;
            rn_importDataset := pd_ImportZvol pvc; rn_importDirectory := pd_ImportDirectory pvc;
            rn_importZFSDataset := pd_ImportZFSDataset pvc; rn_importLV := pd_ImportLV pvc; rn_importLVPolicy := pd_ImportLVPolicy pvc |}
  end.
End Resolve.

(** ** The VolumeContext of the node *)

Definition insertTuning (volCtx : volume_context) (e : string * option Z) : volume_context :=
  match e with (key, Some v) => <[key := Itoa v]> volCtx | (_, None) => volCtx end.
Definition nodeVolumeContext (resolved : option ResolvedConfig) (volCtx : volume_context) : volume_context :=
  match resolved with
  | None => volCtx
  | Some resolved =>
      let p := rv_Protocol resolved in
      let '(tuning, volCtx) :=
        match ps_NVMeOFTCP p, ps_ISCSI p, ps_NFS p with
        | Some n, _, _ =>
            ([(paramNVMeOFCtrlLossTmo, nc_CtrlLossTmo n); (paramNVMeOFReconnectDelay, nc_ReconnectDelay n);
              (paramNVMeOFMaxQueueSize, nc_MaxQueueSize n); (paramNVMeOFMaxDataTransferSize, nc_MaxDataTransferSize n)], volCtx)
        | None, Some i, _ =>
            ([(VolumeContextKeyISCSILoginTimeout, ic_LoginTimeout i); (VolumeContextKeyISCSIReplacementTimeout, ic_ReplacementTimeout i);
              (VolumeContextKeyISCSINoopOutInterval, ic_NoopOutInterval i); (VolumeContextKeyISCSINoopOutTimeout, ic_NoopOutTimeout i)],
             if decide (EffectiveMethod (ic_Auth i) = ISCSIAuthMethodNone) then volCtx
             else <[VolumeContextKeyISCSIAuthMethod := EffectiveMethod (ic_Auth i)]> volCtx)
        | None, None, Some f => ([], <[paramNFSVersion := if decide (fc_Version f = "") then "4.2" else fc_Version f]> volCtx)
        | None, None, None => ([], volCtx)
        end in
      filesystemVolumeContext (rv_Filesystem resolved) (foldl insertTuning volCtx tuning)
  end.
