(* ===== verification/ResolveCorrect.v ===== *)
(** * The layering of a volume's configuration

    The reference is a rule per field: the claim's document, else the
    class's, else the object named by the class, else the default.  The
    resolution of [Resolve] is shown to compute it; a retry keeps what was
    recorded; every value stays in its domain; an adoption annotation is
    never lost; and every error has its status code. *)
From stdpp Require Import base numbers list strings gmap.
From S2P Require Import Prelude GoStd GoNet GoJson ConfigTypes ConfigDocs FsParams PillarVolumeState Resolve.
Open Scope Z_scope.

(** A string setting: empty is unset. *)
Definition set_string (s : string) : option string := if decide (s = "") then None else Some s.

(** The member a document overrides. *)
Definition nvme_member (o : option ProtocolOverrides) : option NVMeOFTCPOverrides := o ≫= po_NVMeOFTCP.
Definition iscsi_member (o : option ProtocolOverrides) : option ISCSIOverrides :=
  match nvme_member o with Some _ => None | None => o ≫= po_ISCSI end.
Definition nfs_member (o : option ProtocolOverrides) : option unit :=
  match nvme_member o, iscsi_member o with None, None => o ≫= po_NFS | _, _ => None end.
Definition zfs_member (o : option BackendOverrides) : option ZFSBackendOverrides := o ≫= bo_ZFS.
Definition lvm_member (o : option BackendOverrides) : option LVMBackendOverrides :=
  match zfs_member o with Some _ => None | None => o ≫= bo_LVM end.
Definition directory_member (o : option BackendOverrides) : option unit :=
  match zfs_member o, lvm_member o with None, None => o ≫= bo_Directory | _, _ => None end.

(** A document fits an object when the object has the member. *)
Definition set_in {A B} (a : option A) (b : option B) : bool := match a, b with Some _, None => false | _, _ => true end.
Definition fits_protocol (base : ProtocolSpec) (o : option ProtocolOverrides) : bool :=
  set_in (nvme_member o) (ps_NVMeOFTCP base) && set_in (iscsi_member o) (ps_ISCSI base) && set_in (nfs_member o) (ps_NFS base).
Definition fits_backend (base : BackendSpec) (o : option BackendOverrides) : bool :=
  set_in (zfs_member o) (be_ZFS base) && set_in (lvm_member o) (be_LVM base) && set_in (directory_member o) (be_Directory base).

(** ** Reference *)

Definition effective_nvme (claim class : option NVMeOFTCPOverrides) (b : NVMeOFTCPConfig) : NVMeOFTCPConfig :=
  let layered f v := (claim ≫= f) ∪ (class ≫= f) ∪ v in {|
  nc_Port := nc_Port b;
  nc_ACL := nc_ACL b;
  nc_MaxQueueSize := layered no_MaxQueueSize (nc_MaxQueueSize b);
  nc_InCapsuleDataSize := layered no_InCapsuleDataSize (nc_InCapsuleDataSize b);
  nc_MaxDataTransferSize := layered no_MaxDataTransferSize (nc_MaxDataTransferSize b) ∪ Some DefaultMaxDataTransferSize;
  nc_CtrlLossTmo := layered no_CtrlLossTmo (nc_CtrlLossTmo b);
  nc_ReconnectDelay := layered no_ReconnectDelay (nc_ReconnectDelay b);
  nc_HdrDigest := false;
  nc_DataDigest := false |}.
Definition effective_iscsi (claim class : option ISCSIOverrides) (b : ISCSIConfig) : ISCSIConfig :=
  let layered f v := (claim ≫= f) ∪ (class ≫= f) ∪ v in {|
  ic_Port := ic_Port b;
  ic_ACL := ic_ACL b;
  ic_LoginTimeout := layered io_LoginTimeout (ic_LoginTimeout b);
  ic_ReplacementTimeout := layered io_ReplacementTimeout (ic_ReplacementTimeout b);
  ic_NoopOutInterval := layered io_NoopOutInterval (ic_NoopOutInterval b);
  ic_NoopOutTimeout := layered io_NoopOutTimeout (ic_NoopOutTimeout b);
  ic_Auth := ic_Auth b |}.
Definition effective_protocol (base : ProtocolSpec) (class claim : option ProtocolOverrides) : ProtocolSpec := {|
  ps_NVMeOFTCP := effective_nvme (nvme_member claim) (nvme_member class) <$> ps_NVMeOFTCP base;
  ps_ISCSI := effective_iscsi (iscsi_member claim) (iscsi_member class) <$> ps_ISCSI base;
  ps_NFS := ps_NFS base |}.

Definition properties (o : option ZFSBackendOverrides) : gmap string string := from_option zo_Properties ∅ o.
Definition effective_backend (base : BackendSpec) (class claim : option BackendOverrides) : BackendSpec := {|
  be_ZFS := (λ b, {| zc_VolumeType := zc_VolumeType b; zc_Pool := zc_Pool b; zc_ParentDataset := zc_ParentDataset b;
                     zc_Properties := properties (zfs_member claim) ∪ properties (zfs_member class) ∪ zc_Properties b |}) <$> be_ZFS base;
  be_LVM := (λ b, {| lc_VolumeGroup := lc_VolumeGroup b; lc_ThinPool := lc_ThinPool b;
                     lc_ProvisioningMode := default LVMProvisioningModeLinear
                       ((lvm_member claim ≫= λ l, set_string (lo_ProvisioningMode l)) ∪
                        (lvm_member class ≫= λ l, set_string (lo_ProvisioningMode l)) ∪ set_string (lc_ProvisioningMode b)) |}) <$> be_LVM base;
  be_Directory := be_Directory base |}.

(** The fsType of the request: the first one a capability names. *)
Definition requested_type (caps : list VolumeCapability) : option string := head (omap (λ c, set_string (capFsType c)) caps).
Definition effective_filesystem (scParams : volume_context) (caps : list VolumeCapability) (class claim : option FilesystemConfig)
    (nfs : bool) : FilesystemConfig :=
  let generated := negb (bool_decide (getKey scParams paramBinding = "")) in {|
  fs_FSType :=
    if nfs then ProtocolNFS
    else default defaultFsType ((claim ≫= λ l, set_string (fs_FSType l)) ∪ (class ≫= λ l, set_string (fs_FSType l)) ∪
      (if generated then None else set_string (getKey scParams paramFSTypeSC) ∪ requested_type caps));
  fs_MkfsOptions := (claim ≫= fs_MkfsOptions) ∪ (class ≫= fs_MkfsOptions);
  fs_MountOptions := (claim ≫= fs_MountOptions) ∪ (class ≫= fs_MountOptions) ∪ (if generated then Some [] else None);
  fs_PeriodicTrim := (claim ≫= fs_PeriodicTrim) ∪ (class ≫= fs_PeriodicTrim) |}.

(** ** The overrides compute it *)

Lemma asInvalid_Ok {A} (r : GoResult A) a : asInvalid r = Ok a ↔ r = Ok a.
Proof. destruct r; [done|]. split; done. Qed.

Lemma union_None_l {A} (o : option A) : None ∪ o = o.
Proof. by destruct o. Qed.
Lemma union_None_r {A} (o : option A) : o ∪ None = o.
Proof. by destruct o. Qed.
Lemma union_bind {A} (o d : option A) : o ∪ d = match o with Some v => Some v | None => d end.
Proof. by destruct o, d. Qed.
Lemma layered_int32 (claim class b : option Z) : int32Override (int32Override b class) claim = claim ∪ class ∪ b.
Proof. by destruct claim, class, b. Qed.

(** A document on top of a protocol. *)
Definition overlay_protocol (base : ProtocolSpec) (o : option ProtocolOverrides) : ProtocolSpec :=
  match applyProtocolOverride base o with Ok p => p | Err _ => base end.
Lemma applyProtocolOverride_spec base o :
  asInvalid (applyProtocolOverride base o) =
    if fits_protocol base o then Ok (overlay_protocol base o) else invalidConfig "invalid configuration".
Proof. destruct base as [[] [] []], o as [[[] [] []]|]; reflexivity. Qed.
Lemma fits_overlay_protocol base c o : fits_protocol base c = true → fits_protocol (overlay_protocol base c) o = fits_protocol base o.
Proof. destruct base as [[] [] []], c as [[[] [] []]|]; reflexivity. Qed.

(** The members of an overlaid protocol. *)
Definition overlay_nvme (src : option NVMeOFTCPOverrides) (dst : NVMeOFTCPConfig) : NVMeOFTCPConfig := {|
  nc_Port := nc_Port dst; nc_ACL := nc_ACL dst;
  nc_MaxQueueSize := int32Override (nc_MaxQueueSize dst) (src ≫= no_MaxQueueSize);
  nc_InCapsuleDataSize := int32Override (nc_InCapsuleDataSize dst) (src ≫= no_InCapsuleDataSize);
  nc_MaxDataTransferSize := int32Override (nc_MaxDataTransferSize dst) (src ≫= no_MaxDataTransferSize);
  nc_CtrlLossTmo := int32Override (nc_CtrlLossTmo dst) (src ≫= no_CtrlLossTmo);
  nc_ReconnectDelay := int32Override (nc_ReconnectDelay dst) (src ≫= no_ReconnectDelay);
  nc_HdrDigest := nc_HdrDigest dst; nc_DataDigest := nc_DataDigest dst |}.
Definition overlay_iscsi (src : option ISCSIOverrides) (dst : ISCSIConfig) : ISCSIConfig := {|
  ic_Port := ic_Port dst; ic_ACL := ic_ACL dst;
  ic_LoginTimeout := int32Override (ic_LoginTimeout dst) (src ≫= io_LoginTimeout);
  ic_ReplacementTimeout := int32Override (ic_ReplacementTimeout dst) (src ≫= io_ReplacementTimeout);
  ic_NoopOutInterval := int32Override (ic_NoopOutInterval dst) (src ≫= io_NoopOutInterval);
  ic_NoopOutTimeout := int32Override (ic_NoopOutTimeout dst) (src ≫= io_NoopOutTimeout);
  ic_Auth := ic_Auth dst |}.
Lemma overlay_members base o : fits_protocol base o = true →
  overlay_protocol base o = {| ps_NVMeOFTCP := overlay_nvme (nvme_member o) <$> ps_NVMeOFTCP base;
    ps_ISCSI := overlay_iscsi (iscsi_member o) <$> ps_ISCSI base; ps_NFS := ps_NFS base |}.
Proof. destruct base as [[[]|] [[]|] []], o as [[[[]|] [[]|] []]|]; first [discriminate|reflexivity]. Qed.

Lemma settle_overlay base c p : fits_protocol base c = true → fits_protocol base p = true →
  settleProtocol (overlay_protocol (overlay_protocol base c) p) = effective_protocol base c p.
Proof.
  intros Hc Hp. rewrite overlay_members by (by rewrite fits_overlay_protocol). rewrite overlay_members by done.
  destruct base as [n i f]. unfold settleProtocol, effective_protocol. cbn [ps_NVMeOFTCP ps_ISCSI ps_NFS].
  destruct n as [n|], i as [i|]; cbn -[union]; unfold overlay_iscsi, effective_nvme, effective_iscsi;
    cbn -[union]; rewrite ?layered_int32, <- ?union_bind; reflexivity.
Qed.
Lemma resolveProtocol_spec class pvc :
  resolveProtocol class pvc =
    if fits_protocol (cy_protocol class) (cy_protocolOv class) && fits_protocol (cy_protocol class) (pd_Protocol pvc)
    then Ok (effective_protocol (cy_protocol class) (cy_protocolOv class) (pd_Protocol pvc))
    else invalidConfig "invalid configuration".
Proof.
  unfold resolveProtocol. rewrite applyProtocolOverride_spec. destruct (fits_protocol _ (cy_protocolOv class)) eqn:Ec; [|done].
  cbn [mbind result_bind]. rewrite applyProtocolOverride_spec, fits_overlay_protocol by done.
  destruct (fits_protocol _ (pd_Protocol pvc)) eqn:Ep; [|done]. cbn. by rewrite settle_overlay.
Qed.

(** ** Backend *)

Definition overlay_zfs (src : option ZFSBackendOverrides) (b : ZFSBackendConfig) : ZFSBackendConfig := {|
  zc_VolumeType := zc_VolumeType b; zc_Pool := zc_Pool b; zc_ParentDataset := zc_ParentDataset b;
  zc_Properties := properties src ∪ zc_Properties b |}.
Definition lvm_mode (src : option LVMBackendOverrides) : option string := src ≫= λ l, set_string (lo_ProvisioningMode l).
Definition overlay_lvm (src : option LVMBackendOverrides) (b : LVMBackendConfig) : LVMBackendConfig := {|
  lc_VolumeGroup := lc_VolumeGroup b; lc_ThinPool := lc_ThinPool b;
  lc_ProvisioningMode := default (lc_ProvisioningMode b) (lvm_mode src) |}.
Definition overlay_backend (base : BackendSpec) (o : option BackendOverrides) : BackendSpec := {|
  be_ZFS := overlay_zfs (zfs_member o) <$> be_ZFS base; be_LVM := overlay_lvm (lvm_member o) <$> be_LVM base;
  be_Directory := be_Directory base |}.

Lemma overlay_zfs_None b : overlay_zfs None b = b.
Proof. destruct b. unfold overlay_zfs. cbn. by rewrite map_empty_union. Qed.
Lemma overlay_lvm_None b : overlay_lvm None b = b.
Proof. by destruct b. Qed.
Lemma overlay_lvm_Some l b : overlay_lvm (Some l) b = {| lc_VolumeGroup := lc_VolumeGroup b; lc_ThinPool := lc_ThinPool b;
  lc_ProvisioningMode := if decide (lo_ProvisioningMode l = "") then lc_ProvisioningMode b else lo_ProvisioningMode l |}.
Proof. unfold overlay_lvm, lvm_mode, set_string. cbn. by case_decide. Qed.
Lemma applyBackendOverride_spec base o :
  asInvalid (applyBackendOverride base o) =
    if fits_backend base o then Ok (overlay_backend base o) else invalidConfig "invalid configuration".
Proof.
  destruct base as [[] [] []], o as [[[] [] []]|]; unfold overlay_backend; cbn;
    rewrite ?overlay_zfs_None, ?overlay_lvm_None, ?overlay_lvm_Some; reflexivity.
Qed.
Lemma fits_overlay_backend base c o : fits_backend (overlay_backend base c) o = fits_backend base o.
Proof. unfold fits_backend. by destruct base as [[] [] []]. Qed.

Definition thin_without_pool (b : BackendSpec) : bool :=
  match be_LVM b with
  | Some l => bool_decide (lc_ProvisioningMode l = LVMProvisioningModeThin) && bool_decide (lc_ThinPool l = "")
  | None => false
  end.
Lemma default_mode (claim class : option string) m d : default d (claim ∪ class ∪ set_string m) =
  if decide (default (default m class) claim = "") then (if decide (claim = Some "" ∨ claim = None ∧ class = Some "") then "" else d)
  else default (default m class) claim.
Proof. destruct claim as [s|], class as [s'|]; unfold set_string; cbn; repeat case_decide; naive_solver. Qed.
Lemma lvm_mode_set src : lvm_mode src ≠ Some "".
Proof. destruct src as [l|]; [|done]. unfold lvm_mode, set_string. cbn. case_decide; [done|]. congruence. Qed.
Lemma settleBackend_spec base c p :
  settleBackend (overlay_backend (overlay_backend base c) p) =
    if thin_without_pool (effective_backend base c p) then invalidConfig "thin requires lvm.thinPool" else Ok (effective_backend base c p).
Proof.
  unfold settleBackend, effective_backend, thin_without_pool, overlay_backend. destruct base as [z l d]. cbn.
  assert ((overlay_zfs (zfs_member p) <$> (overlay_zfs (zfs_member c) <$> z)) = (λ b, {| zc_VolumeType := zc_VolumeType b; zc_Pool := zc_Pool b;
    zc_ParentDataset := zc_ParentDataset b; zc_Properties := properties (zfs_member p) ∪ properties (zfs_member c) ∪ zc_Properties b |}) <$> z) as ->.
  { destruct z; [|done]. unfold overlay_zfs. cbn. by rewrite (assoc_L (∪)). }
  destruct l as [l|]; [|done]. cbn.
  change (lvm_member p ≫= _) with (lvm_mode (lvm_member p)). change (lvm_member c ≫= _) with (lvm_mode (lvm_member c)).
  rewrite default_mode. pose proof (lvm_mode_set (lvm_member p)). pose proof (lvm_mode_set (lvm_member c)).
  rewrite (decide_False (P := _ ∨ _)) by naive_solver. done.
Qed.

(** ** Filesystem *)

Lemma capabilityFSType_spec caps t t' : capabilityFSType caps t = Ok t' →
  t' = default (default "" (requested_type caps)) (set_string t) ∧ Forall (λ c, capFsType c = "" ∨ capFsType c = t') caps.
Proof.
  revert t. induction caps as [|c caps IH]; intros t; cbn [capabilityFSType].
  { intros [= <-]. split; [|done]. unfold set_string. by case_decide. }
  unfold requested_type, set_string in *. cbn.
  destruct (decide (capFsType c = "")) as [E|E]; cbn.
  { rewrite bool_decide_eq_true_2 by done. cbn. intros [-> Hf]%IH. split; [done|]. constructor; auto. }
  rewrite bool_decide_eq_false_2 by done. cbn. case_bool_decide as Et; cbn.
  { intros [-> Hf]%IH. rewrite decide_False in Hf |- * by congruence. split; [done|]. constructor; auto. }
  case_bool_decide as E0; cbn; [|done]. intros [-> Hf]%IH. rewrite decide_False in Hf |- * by done. subst t. cbn in *.
  split; [done|]. constructor; auto.
Qed.

Lemma filesystemLayer_spec fs layer : filesystemLayer fs layer = {|
  fs_FSType := default (fs_FSType fs) (layer ≫= λ l, set_string (fs_FSType l));
  fs_MkfsOptions := (layer ≫= fs_MkfsOptions) ∪ fs_MkfsOptions fs;
  fs_MountOptions := (layer ≫= fs_MountOptions) ∪ fs_MountOptions fs;
  fs_PeriodicTrim := (layer ≫= fs_PeriodicTrim) ∪ fs_PeriodicTrim fs |}.
Proof.
  destruct layer as [l|]; cbn -[union]; [|by destruct fs; cbn -[union]; rewrite !union_None_l].
  rewrite !union_bind. unfold set_string. by case_decide.
Qed.

Lemma set_string_idemp s x : set_string s = Some x → Some x = set_string x.
Proof. unfold set_string. case_decide; [done|]. intros [= ->]. by rewrite decide_False. Qed.
(** The document below the class: its type, and the mount options. *)
Lemma classFilesystemBase_spec scParams caps t classFS fs :
  capabilityFSType caps "" = Ok t → classFilesystemBase scParams t classFS = Ok fs →
  let generated := negb (bool_decide (getKey scParams paramBinding = "")) in
  fs = {| fs_FSType := default defaultFsType (if generated then None else set_string (getKey scParams paramFSTypeSC) ∪ requested_type caps);
          fs_MkfsOptions := None; fs_MountOptions := if generated then Some [] else None; fs_PeriodicTrim := None |}.
Proof.
  intros [Ht _]%capabilityFSType_spec H. unfold classFilesystemBase in H. destruct (negb _); [by injection H as <-|].
  cbn in Ht. destruct (_ && _ && _) eqn:Ec; [done|].
  assert (requested_type caps = set_string t) as ->.
  { subst t. unfold requested_type. destruct (head _) as [x|] eqn:Ex; cbn; [|done].
    apply head_Some_elem_of in Ex. apply list_elem_of_omap in Ex as (c&_&Hc). by eapply set_string_idemp. }
  clear Ht Ec. unfold set_string. destruct (decide (getKey scParams paramFSTypeSC = "")) as [E1|E1].
  - rewrite union_None_l. destruct (decide (t = "")) as [E2|E2]; [by injection H as <-|]. destruct (_ && _); [done|].
    destruct classFS; [destruct (_ && _); [done|]|]; by injection H as <-.
  - rewrite (decide_False (P := getKey _ _ = "")) in H by done. destruct (_ && _); [done|]. rewrite union_bind.
    destruct classFS; [destruct (_ && _); [done|]|]; by injection H as <-.
Qed.

Lemma option_union_assoc {A} (a b c : option A) : a ∪ (b ∪ c) = a ∪ b ∪ c.
Proof. by destruct a, b, c. Qed.
Lemma default_union {A} (d : A) o o' : default d (o ∪ o') = default (default d o') o.
Proof. by destruct o, o'. Qed.
Lemma resolveFilesystem_spec scParams caps classFS pvcFS fs :
  resolveFilesystem scParams caps classFS pvcFS = Ok fs → fs = effective_filesystem scParams caps classFS pvcFS false.
Proof.
  unfold resolveFilesystem. intros (t&Ht&H)%result_bind_Ok. apply result_bind_Ok in H as (b&Hb&[= <-]).
  rewrite (classFilesystemBase_spec _ _ _ _ _ Ht Hb), !filesystemLayer_spec. cbn -[union]. unfold effective_filesystem.
  rewrite !default_union, ?union_None_r. by rewrite option_union_assoc.
Qed.
Lemma resolveProtocolFilesystem_spec scParams caps class pvcFS protocol fs :
  resolveProtocolFilesystem scParams caps class pvcFS protocol = Ok fs →
  fs = effective_filesystem scParams caps (cy_filesystem class) pvcFS (bool_decide (protocol = ProtocolIDNFS)) ∧
  (protocol = ProtocolIDNFS → nfsDocument (cy_filesystem class) = true ∧ nfsDocument pvcFS = true ∧
    (cy_localAttach class = true → cy_driverName class = FileCSIDriver)).
Proof.
  unfold resolveProtocolFilesystem. intros (f&->%resolveFilesystem_spec&H)%result_bind_Ok.
  case_bool_decide as Ep; cbn [negb] in H; [|by injection H as <-].
  apply result_bind_Ok in H as ([]&Hv&H). rewrite asInvalid_Ok in Hv. unfold validateNFSFilesystem in Hv.
  destruct (_ && _); [done|]. destruct (negb _); [done|]. destruct (nfsDocument _) eqn:E1, (nfsDocument pvcFS) eqn:E2; try done.
  destruct (cy_localAttach class && _) eqn:El; [done|]. injection H as <-. split; [done|]. intros _. split_and!; [done..|].
  intros Hl. rewrite Hl in El. cbn in El. by case_bool_decide.
Qed.

Section Correct.
Context {float : Type} (float_int64 : float → option Z) (parse : string → GoResult (yaml float)) (driverName : string).
#[local] Abbreviation resolveClassLayer := (resolveClassLayer float_int64 parse driverName).
#[local] Abbreviation claimDocs := (claimDocs float_int64 parse).
#[local] Abbreviation resolveVolumeConfig := (resolveVolumeConfig float_int64 parse driverName).

(** ** The class layer *)

(** What the class layer promises of the objects it read. *)
Record class_read (k : cluster) (withStore : bool) (class : classLayer) : Prop := {
  cr_protocol : ∃ name, cl_protocol k name = Found (cy_protocol class);
  cr_kind : ProtocolKind (cy_protocol class) ≠ "";
  cr_driver : cy_driverName class = effectiveDriverName driverName;
  cr_store : if withStore then ∃ store, cy_store class = Some store ∧ cl_store k (cy_storeName class) = Found store ∧
      Compatible (st_Backend store) (cy_protocol class) = true ∧
      (be_Directory (st_Backend store) ≠ None → effectiveDriverName driverName = FileCSIDriver)
    else cy_store class = None;
}.
Lemma getCR_Ok {A} (r : get_result A) a : getCR r = Ok a → r = Found a.
Proof. destruct r; [|done..]. by intros [= ->]. Qed.
Lemma loadStoreAndProtocol_spec k class0 storeName protocolName withStore class :
  cy_driverName class0 = effectiveDriverName driverName →
  loadStoreAndProtocol driverName k class0 storeName protocolName withStore = Ok class →
  class_read k withStore class ∧ cy_storeName class = storeName ∧ cy_backend class = cy_backend class0 ∧
  cy_protocolOv class = cy_protocolOv class0 ∧ cl_protocol k protocolName = Found (cy_protocol class).
Proof.
  intros Hd. unfold loadStoreAndProtocol. intros (p&Hp%getCR_Ok&H)%result_bind_Ok. case_decide; [done|].
  destruct withStore; cbn [negb] in H; [|injection H as <-; split; [split; [by eexists|done..]|done]].
  apply result_bind_Ok in H as (s&Hs%getCR_Ok&H). case_decide; [done|]. destruct (_ && _) eqn:Ed; [done|].
  destruct (Compatible _ _) eqn:Ec; [|done]. injection H as <-. split; [split; [by eexists|done..| ]|done].
  exists s. split_and!; [done..|]. intros Hn. rewrite bool_decide_eq_true_2 in Ed by done. cbn in Ed. by case_bool_decide.
Qed.
Lemma resolveClassLayer_spec k scParams withStore class :
  resolveClassLayer k scParams withStore = Ok class → class_read k withStore class.
Proof.
  unfold Resolve.resolveClassLayer. destruct (negb _).
  - intros (?&_&H)%result_bind_Ok. apply result_bind_Ok in H as (b&_&H). destruct (negb _); [done|].
    by apply loadStoreAndProtocol_spec in H as [? _].
  - intros (?&_&H)%result_bind_Ok. destruct (_ || _); [done|]. do 4 apply result_bind_Ok in H as (?&_&H).
    by apply loadStoreAndProtocol_spec in H as [? _].
Qed.

(** ** The two attempts *)

(** The layers of an attempt. *)
Definition layers k scParams withStore class pvc : Prop :=
  resolveClassLayer k scParams withStore = Ok class ∧ claimDocs k scParams false = Ok pvc.

Lemma resolve_first k scParams caps r : resolveVolumeConfig k scParams caps None = Ok r →
  ∃ class pvc store, layers k scParams true class pvc ∧ cy_store class = Some store ∧
    fits_protocol (cy_protocol class) (cy_protocolOv class) && fits_protocol (cy_protocol class) (pd_Protocol pvc) = true ∧
    fits_backend (st_Backend store) (cy_backend class) && fits_backend (st_Backend store) (pd_Backend pvc) = true ∧
    let protocol := effective_protocol (cy_protocol class) (cy_protocolOv class) (pd_Protocol pvc) in
    let backend := effective_backend (st_Backend store) (cy_backend class) (pd_Backend pvc) in
    thin_without_pool backend = false ∧
    ∃ fs, resolveProtocolFilesystem scParams caps class (pd_Filesystem pvc) (ProtocolKind protocol) = Ok fs ∧
    r = {| rn_resolved := {| rv_Backend := backend; rv_Protocol := protocol; rv_Filesystem := Some fs; rv_LocalAttach := cy_localAttach class |};
           rn_agentRef := st_AgentRef store; rn_pvcFS := pd_Filesystem pvc; rn_storeName := cy_storeName class;
           rn_importDataset := pd_ImportZvol pvc; rn_importDirectory := pd_ImportDirectory pvc;
           rn_importZFSDataset := pd_ImportZFSDataset pvc; rn_importLV := pd_ImportLV pvc; rn_importLVPolicy := pd_ImportLVPolicy pvc |}.
Proof.
  unfold Resolve.resolveVolumeConfig. intros (class&Hc&H)%result_bind_Ok. apply result_bind_Ok in H as (pvc&Hp&H).
  rewrite resolveProtocol_spec in H. destruct (fits_protocol _ _ && _) eqn:Ef; [|done]. cbn [mbind result_bind] in H.
  destruct (cy_store class) as [store|] eqn:Es; [|done]. rewrite applyBackendOverride_spec in H.
  destruct (fits_backend _ (cy_backend class)) eqn:Eb; [|done]. cbn [mbind result_bind] in H.
  rewrite applyBackendOverride_spec, fits_overlay_backend in H. destruct (fits_backend _ (pd_Backend pvc)) eqn:Eb2; [|done].
  cbn [mbind result_bind] in H. rewrite settleBackend_spec in H. destruct (thin_without_pool _) eqn:Et; [done|].
  cbn [mbind result_bind] in H. apply result_bind_Ok in H as (fs&Hfs&[= <-]).
  exists class, pvc, store. rewrite Eb, Eb2. split_and!; [done..|]. by exists fs.
Qed.

Lemma resolve_retry k scParams caps recorded r : resolveVolumeConfig k scParams caps (Some recorded) = Ok r →
  ∃ class pvc, layers k scParams false class pvc ∧
    fits_protocol (cy_protocol class) (cy_protocolOv class) && fits_protocol (cy_protocol class) (pd_Protocol pvc) = true ∧
    replayResolution class pvc (effective_protocol (cy_protocol class) (cy_protocolOv class) (pd_Protocol pvc)) recorded = Ok r.
Proof.
  unfold Resolve.resolveVolumeConfig. intros (class&Hc&H)%result_bind_Ok. apply result_bind_Ok in H as (pvc&Hp&H).
  rewrite resolveProtocol_spec in H. destruct (fits_protocol _ _ && _) eqn:Ef; [|done]. cbn [mbind result_bind] in H.
  by exists class, pvc.
Qed.
(** ** Precedence *)

(** C13: The first attempt computes the reference: every setting is the claim's,
    else the class's, else that of the store and protocol the class names;
    what no document may override is the store's or the protocol's. *)
Theorem resolve_precedence k scParams caps r : resolveVolumeConfig k scParams caps None = Ok r →
  ∃ class pvc store, layers k scParams true class pvc ∧ cl_store k (cy_storeName class) = Found store ∧
    let protocol := effective_protocol (cy_protocol class) (cy_protocolOv class) (pd_Protocol pvc) in
    rn_resolved r = {|
      rv_Backend := effective_backend (st_Backend store) (cy_backend class) (pd_Backend pvc);
      rv_Protocol := protocol;
      rv_Filesystem := Some (effective_filesystem scParams caps (cy_filesystem class) (pd_Filesystem pvc)
        (bool_decide (ProtocolKind protocol = ProtocolIDNFS)));
      rv_LocalAttach := cy_localAttach class |} ∧
    rn_agentRef r = st_AgentRef store ∧ rn_storeName r = cy_storeName class.
Proof.
  intros (class&pvc&store&Hl&Hs&_&_&_&fs&Hfs&->)%resolve_first. exists class, pvc, store.
  destruct (cr_store _ _ _ (resolveClassLayer_spec _ _ _ _ (proj1 Hl))) as (s&Hs'&Hst&_).
  rewrite Hs in Hs'. injection Hs' as <-. apply resolveProtocolFilesystem_spec in Hfs as [-> _]. done.
Qed.

(** ** Well-formed configurations *)

Record resolved_wf (c : ResolvedConfig) : Prop := {
  rw_compatible : Compatible (rv_Backend c) (rv_Protocol c) = true;
  rw_lvm l : be_LVM (rv_Backend c) = Some l → lc_ProvisioningMode l ≠ "" ∧ (lc_ProvisioningMode l = LVMProvisioningModeThin → lc_ThinPool l ≠ "");
  rw_directory : be_Directory (rv_Backend c) ≠ None → effectiveDriverName driverName = FileCSIDriver;
  rw_nvme n : ps_NVMeOFTCP (rv_Protocol c) = Some n → is_Some (nc_MaxDataTransferSize n) ∧ nc_HdrDigest n = false ∧ nc_DataDigest n = false;
  rw_nfs : ProtocolKind (rv_Protocol c) = ProtocolIDNFS → ∃ fs, rv_Filesystem c = Some fs ∧ fs_FSType fs = ProtocolNFS ∧
    derefList (fs_MkfsOptions fs) = [] ∧ fs_PeriodicTrim fs ≠ Some true ∧ (rv_LocalAttach c = true → effectiveDriverName driverName = FileCSIDriver);
}.
Lemma effective_kinds bb bp bc bo pc po : Compatible (effective_backend bb bc bo) (effective_protocol bp pc po) = Compatible bb bp.
Proof. by destruct bb as [[] [] []], bp as [[] [] []]. Qed.
Lemma effective_protocol_kind bp pc po : ProtocolKind (effective_protocol bp pc po) = ProtocolKind bp.
Proof. by destruct bp as [[] [] []]. Qed.
Lemma effective_nvme_settled p c b : let n := effective_nvme p c b in
  is_Some (nc_MaxDataTransferSize n) ∧ nc_HdrDigest n = false ∧ nc_DataDigest n = false.
Proof. cbn -[union]. rewrite union_bind. destruct (_ ∪ _ ∪ _); eauto. Qed.
Lemma effective_protocol_nvme bp pc po n : ps_NVMeOFTCP (effective_protocol bp pc po) = Some n →
  is_Some (nc_MaxDataTransferSize n) ∧ nc_HdrDigest n = false ∧ nc_DataDigest n = false.
Proof. intros (b&_&->)%fmap_Some. apply effective_nvme_settled. Qed.
Lemma set_string_nonempty s : set_string s ≠ Some "".
Proof. unfold set_string. case_decide; congruence. Qed.
Lemma effective_mode bb bc bo l : be_LVM (effective_backend bb bc bo) = Some l → lc_ProvisioningMode l ≠ "".
Proof.
  intros (b&_&->)%fmap_Some. cbn -[union]. change (_ ≫= _) with (lvm_mode (lvm_member bo)) at 1.
  change (lvm_member bc ≫= _) with (lvm_mode (lvm_member bc)).
  pose proof (lvm_mode_set (lvm_member bo)). pose proof (lvm_mode_set (lvm_member bc)). pose proof (set_string_nonempty (lc_ProvisioningMode b)).
  rewrite !union_bind. destruct (lvm_mode (lvm_member bo)), (lvm_mode (lvm_member bc)), (set_string _); cbn; first [congruence|done].
Qed.
Lemma nfsDocument_filesystem scParams caps class claim : nfsDocument class = true → nfsDocument claim = true →
  let fs := effective_filesystem scParams caps class claim true in
  fs_FSType fs = ProtocolNFS ∧ derefList (fs_MkfsOptions fs) = [] ∧ fs_PeriodicTrim fs ≠ Some true.
Proof.
  assert (∀ d, nfsDocument d = true → derefList (d ≫= fs_MkfsOptions) = [] ∧ (d ≫= fs_PeriodicTrim) ≠ Some true) as Hd.
  { intros [d|]; [|done]. cbn. rewrite !andb_true_iff, negb_true_iff, bool_decide_eq_true, bool_decide_eq_false. tauto. }
  intros [Hm1 Ht1]%Hd [Hm2 Ht2]%Hd. cbn -[union]. rewrite !union_bind. revert Hm2 Ht2.
  destruct (claim ≫= fs_MkfsOptions), (claim ≫= fs_PeriodicTrim); done.
Qed.

Lemma keepAuth_members p q : ProtocolKind (keepAuth p q) = ProtocolKind p ∧ ps_NVMeOFTCP (keepAuth p q) = ps_NVMeOFTCP p.
Proof. by destruct p as [[] [] []], q as [? [] ?]. Qed.

(** Every configuration a volume gets is well-formed, on its first attempt and
    on every retry. *)
Theorem resolve_wellformed k scParams caps recorded r :
  (∀ c, recorded = Some c → resolved_wf c) → resolveVolumeConfig k scParams caps recorded = Ok r → resolved_wf (rn_resolved r).
Proof.
  intros Hrec. destruct recorded as [c|].
  - intros (class&pvc&_&_&H)%resolve_retry. unfold replayResolution in H. case_bool_decide as Hk; [|done]. injection H as <-.
    destruct (Hrec c eq_refl) as [W1 W2 W3 _ W5].
    set (p := effective_protocol _ _ _) in *. destruct (keepAuth_members p (rv_Protocol c)) as [Ek En].
    split; cbn; [|done..| |]; unfold Compatible; rewrite ?Ek, ?En, ?Hk; [done|apply effective_protocol_nvme|done].
  - intros (class&pvc&store&Hl&Hs&_&_&Ht&fs&Hfs&->)%resolve_first.
    destruct (resolveClassLayer_spec _ _ _ _ (proj1 Hl)) as [_ _ Hd (s&Hs'&_&Hc&Hdir)]. rewrite Hs in Hs'. injection Hs' as <-.
    apply resolveProtocolFilesystem_spec in Hfs as [-> Hn]. split; cbn [rn_resolved rv_Backend rv_Protocol rv_Filesystem rv_LocalAttach].
    + by rewrite effective_kinds.
    + intros l El. split; [by eapply effective_mode|]. intros Em Ep. unfold thin_without_pool in Ht. rewrite El, Em, Ep in Ht. done.
    + done.
    + apply effective_protocol_nvme.
    + intros Ek. destruct (Hn Ek) as (H1&H2&H3). rewrite bool_decide_eq_true_2 by done. eexists. split; [done|].
      destruct (nfsDocument_filesystem scParams caps _ _ H1 H2) as (?&?&?). rewrite <- Hd. auto.
Qed.
(** ** Retries *)

(** What a retry reads of a class, and of the cluster: neither the store nor
    the backend, filesystem and local attach settings of the class. *)
Definition export_part (c : PillarStorageClass) : string * string * string * option ProtocolOverrides :=
  (EffectiveCSIDriver c, sc_StoreRef c, sc_ProtocolRef c, sc_Overrides c ≫= so_Protocol).
Definition export_read (r : get_result PillarStorageClass) : get_result (string * string * string * option ProtocolOverrides) :=
  match r with Found c => Found (export_part c) | NotFoundObject => NotFoundObject | GetFailed => GetFailed end.
Record same_exports (k k' : cluster) : Prop := {
  se_class n : export_read (cl_class k n) = export_read (cl_class k' n);
  se_protocol n : cl_protocol k n = cl_protocol k' n;
  se_claim ns n : cl_claim k ns n = cl_claim k' ns n;
}.
Definition export_layer (c : classLayer) : ProtocolSpec * option ProtocolOverrides * string :=
  (cy_protocol c, cy_protocolOv c, cy_storeName c).

Lemma loadProtocol_exports k k' class class' storeName protocolName : same_exports k k' → cy_protocolOv class = cy_protocolOv class' →
  export_layer <$> loadStoreAndProtocol driverName k class storeName protocolName false =
  export_layer <$> loadStoreAndProtocol driverName k' class' storeName protocolName false.
Proof.
  intros Hk Ho. unfold loadStoreAndProtocol. rewrite (se_protocol _ _ Hk). destruct (getCR (cl_protocol _ _)) as [p|]; [|done]. cbn.
  case_decide; [done|]. cbn. unfold export_layer. cbn. by rewrite Ho.
Qed.
Lemma resolveClassLayer_exports k k' scParams : same_exports k k' →
  export_layer <$> resolveClassLayer k scParams false = export_layer <$> resolveClassLayer k' scParams false.
Proof.
  intros Hk. unfold Resolve.resolveClassLayer. destruct (negb _).
  - destruct (asInvalid _); [|done]. cbn [mbind result_bind]. pose proof (se_class _ _ Hk (getKey scParams paramBinding)) as Hc.
    destruct (cl_class k _) as [c| |], (cl_class k' _) as [c'| |]; try done. injection Hc as Hd Hs Hp Ho. cbn [getCR mbind result_bind].
    rewrite Hd, Hs, Hp. destruct (negb _); [done|]. by apply loadProtocol_exports.
  - destruct (asInvalid (rejectUnknownPillarKeys _ _)); [|done]. cbn [mbind result_bind]. destruct (_ || _); [done|].
    do 3 (destruct (asInvalid _); [|done]; cbn [mbind result_bind]). destruct (parseLocalAttachParam _); [|done].
    by apply loadProtocol_exports.
Qed.
Lemma claimDocs_exports k k' scParams allow : same_exports k k' → claimDocs k scParams allow = claimDocs k' scParams allow.
Proof. intros Hk. unfold Resolve.claimDocs. by rewrite (se_claim _ _ Hk). Qed.

(** C18: Whatever became of the cluster and of the request, a retry that
    succeeds keeps the recorded backend, filesystem, attachment, protocol kind
    and authentication.  Its answer, error or not, depends on nothing but the
    export settings, which are read anew: the class's driver, references and
    protocol overrides, the protocol object and the claim.  No change of a
    store, of the class's backend overrides, filesystem or local attach
    setting, or of the capabilities can block or alter it. *)
Theorem retry_stable k k' scParams caps caps' recorded : same_exports k k' →
  resolveVolumeConfig k scParams caps (Some recorded) = resolveVolumeConfig k' scParams caps' (Some recorded) ∧
  (∀ r, resolveVolumeConfig k scParams caps (Some recorded) = Ok r →
    let c := rn_resolved r in
    rv_Backend c = rv_Backend recorded ∧ rv_Filesystem c = rv_Filesystem recorded ∧ rv_LocalAttach c = rv_LocalAttach recorded ∧
    ProtocolKind (rv_Protocol c) = ProtocolKind (rv_Protocol recorded) ∧
    ∀ i old, ps_ISCSI (rv_Protocol c) = Some i → ps_ISCSI (rv_Protocol recorded) = Some old → ic_Auth i = ic_Auth old).
Proof.
  intros Hk. split.
  - unfold Resolve.resolveVolumeConfig. pose proof (resolveClassLayer_exports k k' scParams Hk) as Hc.
    cbn [bool_decide decide option_eq_None_dec]. rewrite <- (claimDocs_exports _ _ _ _ Hk).
    destruct (resolveClassLayer k scParams _) as [c|e], (resolveClassLayer k' scParams _) as [c'|e']; try done; [|by injection Hc as ->].
    cbn [mbind result_bind]. destruct (claimDocs k scParams false) as [pvc|]; [|done]. cbn [mbind result_bind].
    injection Hc as Hp Ho Hn. rewrite !resolveProtocol_spec, Hp, Ho. destruct (_ && _); [|done]. cbn. unfold replayResolution. by rewrite Hn.
  - intros r (class&pvc&_&_&H)%resolve_retry. unfold replayResolution in H. case_bool_decide as Ek; [|done]. injection H as <-. cbn.
    split_and!; [done..| |].
    + by rewrite (proj1 (keepAuth_members _ _)).
    + intros i old Hi Ho. unfold keepAuth in Hi. rewrite Ho in Hi. destruct (ps_ISCSI (effective_protocol _ _ _)) eqn:Ei; [by injection Hi as <-|].
      by rewrite Ei in Hi.
Qed.

(** ** Bounds *)

Definition protocol_ok (p : ProtocolSpec) : Prop :=
  (∀ n, ps_NVMeOFTCP p = Some n →
    nvme_tunables (nc_MaxQueueSize n) (nc_InCapsuleDataSize n) (nc_MaxDataTransferSize n) (nc_CtrlLossTmo n) (nc_ReconnectDelay n)) ∧
  (∀ i, ps_ISCSI p = Some i →
    iscsi_tunables (ic_LoginTimeout i) (ic_ReplacementTimeout i) (ic_NoopOutInterval i) (ic_NoopOutTimeout i)).
Definition overrides_ok (o : option ProtocolOverrides) : Prop := ∀ d, o = Some d → override_ok d.

Lemma union_ind {A} (P : A → Prop) (a b : option A) : (∀ z, a = Some z → P z) → (∀ z, b = Some z → P z) → ∀ z, a ∪ b = Some z → P z.
Proof. intros Ha Hb z. rewrite union_bind. destruct a; auto. Qed.
Lemma member_nvme_ok o n : overrides_ok o → nvme_member o = Some n →
  nvme_tunables (no_MaxQueueSize n) (no_InCapsuleDataSize n) (no_MaxDataTransferSize n) (no_CtrlLossTmo n) (no_ReconnectDelay n).
Proof. destruct o as [d|]; [|done]. intros Ho Hn. by apply (Ho d). Qed.
Lemma member_iscsi_ok o n : overrides_ok o → iscsi_member o = Some n →
  iscsi_tunables (io_LoginTimeout n) (io_ReplacementTimeout n) (io_NoopOutInterval n) (io_NoopOutTimeout n).
Proof. unfold iscsi_member. destruct (nvme_member o); [done|]. destruct o as [d|]; [|done]. intros Ho Hn. by apply (Ho d). Qed.
Lemma effective_protocol_ok base c p : protocol_ok base → overrides_ok c → overrides_ok p → protocol_ok (effective_protocol base c p).
Proof.
  intros [Hn Hi] Hc Hp. split.
  - intros n (b&Hb&->)%fmap_Some. specialize (Hn b Hb). pose proof (λ n, member_nvme_ok c n Hc) as Hc'. pose proof (λ n, member_nvme_ok p n Hp) as Hp'.
    destruct Hn. split; unfold within; cbn -[union]; repeat apply union_ind; try done;
      try (intros z (m&Hm&Hz)%bind_Some; first [destruct (Hp' m Hm)|destruct (Hc' m Hm)]; auto; fail).
    intros z [= <-]. reflexivity.
  - intros n (b&Hb&->)%fmap_Some. specialize (Hi b Hb). pose proof (λ n, member_iscsi_ok c n Hc) as Hc'. pose proof (λ n, member_iscsi_ok p n Hp) as Hp'.
    destruct Hi. split; unfold within; cbn -[union]; repeat apply union_ind; try done;
      (intros z (m&Hm&Hz)%bind_Some; first [destruct (Hp' m Hm)|destruct (Hc' m Hm)]; auto).
Qed.
Lemma claimDocs_overrides k scParams allow pvc : claimDocs k scParams allow = Ok pvc → overrides_ok (pd_Protocol pvc).
Proof.
  unfold Resolve.claimDocs. destruct (_ || _); [by intros [= <-]|]. destruct (cl_claim _ _ _) as [a| |]; [|destruct allow; [by intros [= <-]|done]|done].
  rewrite asInvalid_Ok. unfold decodePVCAnnotations. intros (?&_&H)%result_bind_Ok. apply result_bind_Ok in H as (b&_&H).
  apply result_bind_Ok in H as (p&Hp&H). do 4 apply result_bind_Ok in H as (?&_&H). destruct (_ <? _)%nat; [done|].
  unfold decodeImportLV in H. cbv zeta in H. repeat (destruct (_ && _); [done|]). injection H as <-. cbn.
  intros d ->. by eapply DecodeProtocolOverride_ok.
Qed.
Lemma resolveClassLayer_overrides k scParams w class :
  (∀ name c o, cl_class k name = Found c → sc_Overrides c ≫= so_Protocol = Some o → override_ok o) →
  resolveClassLayer k scParams w = Ok class → overrides_ok (cy_protocolOv class).
Proof.
  intros Hk. unfold Resolve.resolveClassLayer. destruct (negb _).
  - intros (?&_&H)%result_bind_Ok. apply result_bind_Ok in H as (b&Hb%getCR_Ok&H). destruct (negb _); [done|].
    apply loadStoreAndProtocol_spec in H as (_&_&_&->&_); [|done]. intros d. by apply (Hk _ b d Hb).
  - intros (?&_&H)%result_bind_Ok. destruct (_ || _); [done|]. apply result_bind_Ok in H as (?&_&H).
    apply result_bind_Ok in H as (p&Hp&H). rewrite asInvalid_Ok in Hp. do 2 apply result_bind_Ok in H as (?&_&H).
    apply loadStoreAndProtocol_spec in H as (_&_&_&->&_); [|done]. intros d Hd. cbn in Hd. subst p. exact (DecodeProtocolOverride_ok _ _ _ _ Hp).
Qed.

(** C30: Whatever the documents say, a volume's tunables stay in the domains the
    API declares: a claim or a hand-written class cannot push one out. *)
Theorem resolve_in_bounds k scParams caps recorded r :
  (∀ name p, cl_protocol k name = Found p → protocol_ok p) →
  (∀ name c o, cl_class k name = Found c → sc_Overrides c ≫= so_Protocol = Some o → override_ok o) →
  resolveVolumeConfig k scParams caps recorded = Ok r → protocol_ok (rv_Protocol (rn_resolved r)).
Proof.
  intros Hp Hc H.
  assert (∃ class pvc w, layers k scParams w class pvc ∧
    ∃ q, rv_Protocol (rn_resolved r) = keepAuth (effective_protocol (cy_protocol class) (cy_protocolOv class) (pd_Protocol pvc)) q) as (class&pvc&w&[Hl1 Hl2]&q&->).
  { destruct recorded as [c|].
    - apply resolve_retry in H as (class&pvc&Hl&_&H). unfold replayResolution in H. destruct (negb _); [done|]. injection H as <-. eauto 10.
    - apply resolve_first in H as (class&pvc&store&Hl&_&_&_&_&fs&_&->). exists class, pvc, true. split; [done|].
      exists {| ps_NVMeOFTCP := None; ps_ISCSI := None; ps_NFS := None |}. unfold keepAuth. cbn. by destruct (_ <$> _). }
  assert (protocol_ok (effective_protocol (cy_protocol class) (cy_protocolOv class) (pd_Protocol pvc))) as [Hn Hi].
  { apply effective_protocol_ok; [|by eapply resolveClassLayer_overrides|by eapply claimDocs_overrides].
    destruct (cr_protocol _ _ _ (resolveClassLayer_spec _ _ _ _ Hl1)) as [name Hname]. by eapply Hp. }
  split; [by rewrite (proj2 (keepAuth_members _ _))|]. unfold keepAuth. destruct (ps_ISCSI (effective_protocol _ _ _)) as [i|] eqn:Ei; [|by rewrite Ei].
  destruct (ps_ISCSI q); [|by rewrite Ei]. intros j [= <-]. exact (Hi i eq_refl).
Qed.
(** ** Adoption annotations *)

Definition selectors : list string := [AnnotationImportZvol; AnnotationImportDirectory; AnnotationImportZFSDataset; AnnotationImportLV].
Definition selected (a : gmap string string) (key : string) : string := TrimSpace (getKey a key).

Lemma importSelector_spec a key o : importSelector a key = Ok o →
  default "" o = selected a key ∧ (a !! key ≠ None → selected a key ≠ "") ∧ (o = None ↔ a !! key = None).
Proof.
  unfold importSelector, selected, getKey. destruct (a !! key) as [raw|]; [|by intros [= <-]]. case_decide; [done|]. by intros [= <-].
Qed.
Record intent_kept (a : gmap string string) (r : pvcDocs) : Prop := {
  ik_zvol : pd_ImportZvol r = selected a AnnotationImportZvol;
  ik_directory : pd_ImportDirectory r = selected a AnnotationImportDirectory;
  ik_dataset : pd_ImportZFSDataset r = selected a AnnotationImportZFSDataset;
  ik_lv : pd_ImportLV r = selected a AnnotationImportLV;
  ik_policy : pd_ImportLVPolicy r = selected a AnnotationImportLVPolicy;
  ik_named key : key ∈ selectors → a !! key ≠ None → selected a key ≠ "";
  ik_one key key' : key ∈ selectors → key' ∈ selectors → a !! key ≠ None → a !! key' ≠ None → key = key';
  ik_with_policy : a !! AnnotationImportLVPolicy ≠ None → a !! AnnotationImportLV ≠ None;
  ik_known key : HasPrefix key pillarAnnotationDomain = true → a !! key ≠ None → key ∈ annotationKeys;
}.
Lemma rejectUnknownPillarKeys_spec m allowed key : rejectUnknownPillarKeys m allowed = Ok tt →
  HasPrefix key pillarAnnotationDomain = true → m !! key ≠ None → key ∈ allowed.
Proof.
  unfold rejectUnknownPillarKeys. destruct (forallb _ _) eqn:Ef; [|done]. intros _ Hp Hm. destruct (m !! key) as [v|] eqn:Ek; [|done].
  rewrite forallb_forall in Ef. specialize (Ef (key, v)). rewrite <- list_elem_of_In, elem_of_map_to_list in Ef.
  specialize (Ef Ek). cbn in Ef. rewrite Hp in Ef. by apply containsb_true.
Qed.
Lemma decodePVCAnnotations_intent a docs : decodePVCAnnotations float_int64 parse a = Ok docs → intent_kept a docs.
Proof.
  unfold decodePVCAnnotations. intros ([]&Hu&H)%result_bind_Ok. do 3 apply result_bind_Ok in H as (?&_&H).
  apply result_bind_Ok in H as (z&(Z1&Z2&Z3)%importSelector_spec&H). apply result_bind_Ok in H as (d&(D1&D2&D3)%importSelector_spec&H).
  apply result_bind_Ok in H as (f&(F1&F2&F3)%importSelector_spec&H). destruct (_ <? _)%nat eqn:Ec; [done|].
  unfold decodeImportLV in H. cbn [pd_ImportZvol pd_ImportDirectory pd_ImportZFSDataset pd_Backend pd_Protocol pd_Filesystem] in H.
  change (TrimSpace (default "" (a !! ?k))) with (selected a k) in H. rewrite Z1, D1, F1 in H.
  destruct (bool_decide (a !! AnnotationImportLV ≠ None) && bool_decide _) eqn:E1; [done|].
  destruct (bool_decide (a !! AnnotationImportLVPolicy ≠ None) && bool_decide (selected _ _ = "")) eqn:E2; [done|].
  destruct (bool_decide (a !! AnnotationImportLVPolicy ≠ None) && bool_decide (_ = None)) eqn:E3; [done|].
  destruct (bool_decide (a !! AnnotationImportLV ≠ None) && (_ || _ || _)) eqn:E4; [done|]. injection H as <-.
  assert (a !! AnnotationImportLV ≠ None → selected a AnnotationImportLV ≠ "") as L2.
  { intros Hl He. rewrite !bool_decide_eq_true_2 in E1 by done. done. }
  assert (a !! AnnotationImportLV ≠ None → z = None ∧ d = None ∧ f = None) as L4.
  { intros Hl. rewrite bool_decide_eq_true_2 in E4 by done. cbn in E4. rewrite !orb_false_iff, !negb_false_iff, !bool_decide_eq_true in E4.
    rewrite Z3, D3, F3. destruct E4 as [[Ez Ed] Ef]. split_and!; apply dec_stable; intros Hn; [by apply Z2|by apply D2|by apply F2]. }
  split; cbn; try done.
  - intros key Hk. unfold selectors in Hk. rewrite !elem_of_cons in Hk. destruct Hk as [->|[->|[->|[->|[]%not_elem_of_nil]]]]; assumption.
  - intros key key' Hk Hk' Hp Hp'. unfold selectors in Hk, Hk'. rewrite !elem_of_cons in Hk, Hk'.
    assert (count_some [z; d; f] ≤ 1)%nat as Hc by (by apply Nat.ltb_ge in Ec). unfold count_some in Hc.
    assert (z = None ∨ d = None) as P1 by (destruct z, d, f; vm_compute in Hc; first [lia|auto]).
    assert (z = None ∨ f = None) as P2 by (destruct z, d, f; vm_compute in Hc; first [lia|auto]).
    assert (d = None ∨ f = None) as P3 by (destruct z, d, f; vm_compute in Hc; first [lia|auto]).
    rewrite Z3, D3 in P1. rewrite Z3, F3 in P2. rewrite D3, F3 in P3. rewrite Z3, D3, F3 in L4. clear - P1 P2 P3 L4 Hk Hk' Hp Hp'.
    destruct Hk as [->|[->|[->|[->|[]%not_elem_of_nil]]]], Hk' as [->|[->|[->|[->|[]%not_elem_of_nil]]]]; first [reflexivity|tauto].
  - intros Hl Hn. rewrite !bool_decide_eq_true_2 in E3 by done. done.
  - intros key. by apply rejectUnknownPillarKeys_spec.
Qed.
Definition claim_of (scParams : volume_context) : string * string := (getKey scParams paramPVCNamespaceMeta, getKey scParams paramPVCNameMeta).
Definition docs_of (r : resolution) : pvcDocs := {|
  pd_Backend := None; pd_Protocol := None; pd_Filesystem := rn_pvcFS r; pd_ImportZvol := rn_importDataset r;
  pd_ImportDirectory := rn_importDirectory r; pd_ImportZFSDataset := rn_importZFSDataset r;
  pd_ImportLV := rn_importLV r; pd_ImportLVPolicy := rn_importLVPolicy r |}.
Lemma intent_docs a pvc pvc' : intent_kept a pvc →
  pd_ImportZvol pvc' = pd_ImportZvol pvc → pd_ImportDirectory pvc' = pd_ImportDirectory pvc → pd_ImportZFSDataset pvc' = pd_ImportZFSDataset pvc →
  pd_ImportLV pvc' = pd_ImportLV pvc → pd_ImportLVPolicy pvc' = pd_ImportLVPolicy pvc → intent_kept a pvc'.
Proof. intros [] E1 E2 E3 E4 E5. split; rewrite ?E1, ?E2, ?E3, ?E4, ?E5; assumption. Qed.

(** C26: An adoption the claim asks for is never lost: each selector reaches the
    resolution as written, names a source, and is the only one; a misspelt
    annotation fails instead of provisioning an empty volume. *)
Theorem import_intent_kept k scParams caps recorded r a :
  getKey scParams paramPVCNameMeta ≠ "" → getKey scParams paramPVCNamespaceMeta ≠ "" →
  uncurry (cl_claim k) (claim_of scParams) = Found a →
  resolveVolumeConfig k scParams caps recorded = Ok r → intent_kept a (docs_of r).
Proof.
  intros Hn Hns Hc H.
  assert (∃ pvc, claimDocs k scParams false = Ok pvc ∧ pd_ImportZvol pvc = rn_importDataset r ∧ pd_ImportDirectory pvc = rn_importDirectory r ∧
    pd_ImportZFSDataset pvc = rn_importZFSDataset r ∧ pd_ImportLV pvc = rn_importLV r ∧ pd_ImportLVPolicy pvc = rn_importLVPolicy r)
    as (pvc&Hp&E1&E2&E3&E4&E5).
  { destruct recorded as [c|].
    - apply resolve_retry in H as (class&pvc&[_ Hl]&_&H). unfold replayResolution in H. destruct (negb _); [done|]. injection H as <-. eauto 10.
    - apply resolve_first in H as (class&pvc&store&[_ Hl]&_&_&_&_&fs&_&->). eauto 10. }
  unfold Resolve.claimDocs in Hp. rewrite (bool_decide_eq_false_2 _ Hn), (bool_decide_eq_false_2 _ Hns) in Hp. cbn [orb] in Hp.
  cbn in Hc. rewrite Hc, asInvalid_Ok in Hp. apply decodePVCAnnotations_intent in Hp. by eapply intent_docs.
Qed.

(** ** Errors *)

Inductive outcome := Present | Missing | Unreadable.
Definition outcome_of {A} (r : get_result A) : outcome :=
  match r with Found _ => Present | NotFoundObject => Missing | GetFailed => Unreadable end.
(** The outcomes of reading the objects a request names: the claim; the class
    of a generated StorageClass; and the protocol and store. *)
Definition references (k : cluster) (scParams : volume_context) : option (string * string) :=
  let b := getKey scParams paramBinding in
  if decide (b = "") then Some (getKey scParams paramStoreRef, getKey scParams paramProtocolRef)
  else match cl_class k b with Found c => Some (sc_StoreRef c, sc_ProtocolRef c) | _ => None end.
Definition claim_named (scParams : volume_context) : bool :=
  negb (bool_decide (getKey scParams paramPVCNameMeta = "") || bool_decide (getKey scParams paramPVCNamespaceMeta = "")).
Definition class_outcomes (k : cluster) (scParams : volume_context) (withStore : bool) : list outcome :=
  (if decide (getKey scParams paramBinding = "") then [] else [outcome_of (cl_class k (getKey scParams paramBinding))]) ++
  match references k scParams with
  | Some (s, p) => outcome_of (cl_protocol k p) :: if withStore then [outcome_of (cl_store k s)] else []
  | None => []
  end.
Definition outcomes (k : cluster) (scParams : volume_context) (withStore : bool) : list outcome :=
  class_outcomes k scParams withStore ++
  if claim_named scParams then [outcome_of (uncurry (cl_claim k) (claim_of scParams))] else [].

(** What an answer says of the reads: success that all objects were there,
    FailedPrecondition that one is missing, Internal that one could not be
    read.  No other error leaves the resolution but InvalidArgument. *)
Definition classified {A} (os : list outcome) (m : GoResult A) : Prop :=
  match m with
  | Ok _ => Forall (eq Present) os
  | Err (EStatus InvalidArgument _) => True
  | Err (EStatus FailedPrecondition _) => Missing ∈ os
  | Err (EStatus Internal _) => Unreadable ∈ os
  | Err _ => False
  end.
Lemma classified_bind {A B} (m : GoResult A) (f : A → GoResult B) os os' :
  classified os m → (∀ a, m = Ok a → classified os' (f a)) → classified (os ++ os') (m ≫= f).
Proof.
  unfold classified. intros Hm Hf. destruct m as [a|[[] ?| | | | |]]; cbn; try done; [|set_solver..].
  specialize (Hf a eq_refl). destruct (f a) as [b|[[] ?| | | | |]]; try done; [|set_solver..]. by apply Forall_app.
Qed.
Lemma classified_getCR {A} (r : get_result A) : classified [outcome_of r] (getCR r).
Proof. destruct r; cbn; [by constructor|set_solver..]. Qed.
Lemma classified_asInvalid {A} (r : GoResult A) : classified [] (asInvalid r).
Proof. destruct r; cbn; [by constructor|done]. Qed.

(** [k'] has the objects found in [k]. *)
Definition extends_get {A} (r r' : get_result A) : Prop := ∀ a, r = Found a → r' = Found a.
Record extends (k k' : cluster) : Prop := {
  ext_class n : extends_get (cl_class k n) (cl_class k' n);
  ext_protocol n : extends_get (cl_protocol k n) (cl_protocol k' n);
  ext_store n : extends_get (cl_store k n) (cl_store k' n);
  ext_claim ns n : extends_get (cl_claim k ns n) (cl_claim k' ns n);
}.
(** Success and InvalidArgument are final. *)
Definition final {A} (m m' : GoResult A) : Prop :=
  match m with Ok _ | Err (EStatus InvalidArgument _) => m' = m | _ => True end.
Lemma final_refl {A} (m : GoResult A) : final m m.
Proof. by destruct m as [|[[] ?| | | | |]]. Qed.
Lemma final_bind {A B} (m m' : GoResult A) (f f' : A → GoResult B) : final m m' → (∀ a, m = Ok a → final (f a) (f' a)) → final (m ≫= f) (m' ≫= f').
Proof.
  intros Hm Hf. destruct m as [a|[[] ?| | | | |]]; cbn in *; try done; subst m'; cbn; [by apply Hf|done].
Qed.
Lemma final_getCR {A} (r r' : get_result A) : extends_get r r' → final (getCR r) (getCR r').
Proof. intros H. destruct r as [a| |]; cbn; [|done..]. by rewrite (H a eq_refl). Qed.
Lemma loadStoreAndProtocol_classified k class s p (w : bool) :
  classified (outcome_of (cl_protocol k p) :: if w then [outcome_of (cl_store k s)] else []) (loadStoreAndProtocol driverName k class s p w).
Proof.
  unfold loadStoreAndProtocol. apply (classified_bind _ _ [_]); [apply classified_getCR|]. intros q _.
  case_decide; [done|]. destruct w; cbn [negb]; [|by constructor].
  apply (classified_bind _ _ [_] []); [apply classified_getCR|]. intros st _.
  case_decide; [done|]. destruct (_ && _); [done|]. destruct (negb _); by try constructor.
Qed.
Lemma resolveClassLayer_classified k scParams w : classified (class_outcomes k scParams w) (resolveClassLayer k scParams w).
Proof.
  unfold Resolve.resolveClassLayer, class_outcomes, references. case_bool_decide as Hb; cbn [negb].
  - rewrite !decide_True by done. apply (classified_bind _ _ []); [apply classified_asInvalid|]. intros [] _.
    destruct (_ || _); [done|]. do 3 (apply (classified_bind _ _ []); [apply classified_asInvalid|]; intros ? _).
    apply (classified_bind _ _ []); [|intros; apply loadStoreAndProtocol_classified].
    unfold parseLocalAttachParam. destruct (_ !! _); [repeat case_decide|]; by try constructor.
  - rewrite !decide_False by done. apply (classified_bind _ _ []); [apply classified_asInvalid|]. intros [] _.
    cbv beta. apply (classified_bind (getCR (cl_class k _)) _ [_]); [apply classified_getCR|]. intros c ->%getCR_Ok. destruct (negb _); [done|].
    apply loadStoreAndProtocol_classified.
Qed.
Lemma claimDocs_classified k scParams :
  classified (if claim_named scParams then [outcome_of (uncurry (cl_claim k) (claim_of scParams))] else []) (claimDocs k scParams false).
Proof.
  unfold Resolve.claimDocs, claim_named. destruct (_ || _); [by constructor|]. cbn.
  destruct (cl_claim _ _ _); [destruct (decodePVCAnnotations _ _ _); by repeat constructor|cbn; set_solver..].
Qed.
Lemma resolveProtocolFilesystem_classified scParams caps class pvcFS q : classified [] (resolveProtocolFilesystem scParams caps class pvcFS q).
Proof.
  unfold resolveProtocolFilesystem, resolveFilesystem. apply (classified_bind _ _ [] []); [apply (classified_bind _ _ [] [])|].
  - generalize "". induction caps as [|c caps IH]; intros t; cbn; [by constructor|].
    destruct (_ || _); [apply IH|]. destruct (negb _); [done|apply IH].
  - intros t _. apply (classified_bind _ _ [] []); [|by constructor]. unfold classFilesystemBase. destruct (negb _); [by constructor|].
    destruct (_ && _ && _); [done|]. case_decide; [by constructor|]. destruct (_ && _ && _); [done|].
    destruct (cy_filesystem class); [destruct (_ && _)|]; by try constructor.
  - intros fs _. destruct (negb _); [by constructor|]. apply (classified_bind _ _ [] []); [apply classified_asInvalid|]. intros [] _.
    destruct (_ && _); by try constructor.
Qed.

Lemma resolveClassLayer_final k k' scParams w : extends k k' → final (resolveClassLayer k scParams w) (resolveClassLayer k' scParams w).
Proof.
  intros He. assert (∀ class s p, final (loadStoreAndProtocol driverName k class s p w) (loadStoreAndProtocol driverName k' class s p w)) as Hl.
  { intros class s p. apply final_bind; [apply final_getCR, (ext_protocol _ _ He)|]. intros q _. case_decide; [apply final_refl|].
    destruct (negb w); [apply final_refl|]. apply final_bind; [apply final_getCR, (ext_store _ _ He)|]. intros; apply final_refl. }
  unfold Resolve.resolveClassLayer. destruct (negb _).
  - apply final_bind; [apply final_refl|]. intros [] _. apply final_bind; [apply final_getCR, (ext_class _ _ He)|]. intros c _.
    destruct (negb _); [apply final_refl|apply Hl].
  - apply final_bind; [apply final_refl|]. intros [] _. destruct (_ || _); [apply final_refl|].
    do 4 (apply final_bind; [apply final_refl|]; intros ? _). apply Hl.
Qed.
Lemma claimDocs_final k k' scParams : extends k k' → final (claimDocs k scParams false) (claimDocs k' scParams false).
Proof.
  intros He. unfold Resolve.claimDocs. destruct (_ || _); [apply final_refl|].
  destruct (cl_claim k _ _) as [a| |] eqn:E; [|done..]. rewrite (ext_claim _ _ He _ _ _ E). apply final_refl.
Qed.
Lemma resolve_final k k' scParams caps recorded : extends k k' →
  final (resolveVolumeConfig k scParams caps recorded) (resolveVolumeConfig k' scParams caps recorded).
Proof.
  intros He. apply final_bind; [by apply resolveClassLayer_final|]. intros class _.
  apply final_bind; [by apply claimDocs_final|]. intros pvc _. apply final_refl.
Qed.

(** The protocol the request names now is of another kind than the recorded one. *)
Definition kind_changed (k : cluster) (scParams : volume_context) (recorded : option ResolvedConfig) : Prop :=
  ∃ c s p q, recorded = Some c ∧ references k scParams = Some (s, p) ∧ cl_protocol k p = Found q ∧
    ProtocolKind q ≠ ProtocolKind (rv_Protocol c).
Lemma resolveClassLayer_protocol k scParams w class : resolveClassLayer k scParams w = Ok class →
  ∃ s p, references k scParams = Some (s, p) ∧ cl_protocol k p = Found (cy_protocol class).
Proof.
  unfold Resolve.resolveClassLayer, references. case_bool_decide as Hb; cbn [negb].
  - rewrite decide_True by done. intros ([]&_&H)%result_bind_Ok. destruct (_ || _); [done|].
    do 4 (apply result_bind_Ok in H as (?&_&H)). apply loadStoreAndProtocol_spec in H as (_&_&_&_&?); [eauto|done].
  - rewrite decide_False by done. intros ([]&_&H)%result_bind_Ok. apply result_bind_Ok in H as (c&->%getCR_Ok&H).
    destruct (negb _); [done|]. apply loadStoreAndProtocol_spec in H as (_&_&_&_&?); [eauto|done].
Qed.

(** C32: The code of an answer tells what is wrong.  FailedPrecondition: an object
    the request names does not exist, or on a retry its protocol is of
    another kind than the recorded one.  Internal: the API server could not
    be read.  InvalidArgument: none of these, the request and the objects
    found are at fault, so the answer is the same whatever the missing and
    unreadable objects turn out to be.  Success: every named object was read,
    and the answer is as final.  There is no other error. *)
Theorem resolve_errors k scParams caps recorded :
  let answer k := resolveVolumeConfig k scParams caps recorded in
  (classified (outcomes k scParams (bool_decide (recorded = None))) (answer k) ∨
   (∃ m, answer k = Err (EStatus FailedPrecondition m)) ∧ kind_changed k scParams recorded) ∧
  ∀ k', extends k k' → final (answer k) (answer k').
Proof.
  cbv zeta. split; [|intros; by apply resolve_final]. unfold Resolve.resolveVolumeConfig, outcomes.
  pose proof (resolveClassLayer_classified k scParams (bool_decide (recorded = None))) as Hv.
  destruct (resolveClassLayer _ _ _) as [class|e] eqn:Hc.
  2:{ left. by apply (classified_bind (Err e : GoResult classLayer) (λ _, Err e)). }
  cbn [mbind result_bind]. pose proof (claimDocs_classified k scParams) as Hd.
  destruct (claimDocs k scParams false) as [pvc|e] eqn:Hp.
  2:{ left. by apply (classified_bind (Ok class : GoResult classLayer) (λ _, Err e)). }
  cbn [mbind result_bind]. assert (Forall (eq Present) (outcomes k scParams (bool_decide (recorded = None)))) as Hall by by apply Forall_app.
  rewrite resolveProtocol_spec. destruct (_ && _); [|by left]. cbn [mbind result_bind].
  assert (∀ m : GoResult resolution, classified [] m → classified (outcomes k scParams (bool_decide (recorded = None))) m) as Hpure.
  { intros m Hm. rewrite <- (app_nil_r (outcomes _ _ _)). by apply (classified_bind (Ok tt) (λ _, m)). }
  destruct recorded as [c|].
  - unfold replayResolution. destruct (bool_decide (ProtocolKind _ = _)) eqn:Hk; [by left|]. apply bool_decide_eq_false in Hk.
    right. split; [by eexists|].
    destruct (resolveClassLayer_protocol _ _ _ _ Hc) as (s&p&?&?). rewrite effective_protocol_kind in Hk. by exists c, s, p, (cy_protocol class).
  - left. apply Hpure. destruct (cr_store _ _ _ (resolveClassLayer_spec _ _ _ _ Hc)) as (store&->&_).
    do 2 (apply (classified_bind _ _ [] []); [apply classified_asInvalid|]; intros ? _).
    apply (classified_bind _ _ [] []).
    + unfold settleBackend. destruct (be_LVM _); [destruct (_ && _)|]; by try constructor.
    + intros. apply (classified_bind _ _ [] []); [apply resolveProtocolFilesystem_classified|by constructor].
Qed.
End Correct.

(** ** A cluster with one of each *)
Module ResolveDemo.
Definition demo_protocol : ProtocolSpec := {|
  ps_NVMeOFTCP := Some {| nc_Port := 4421; nc_ACL := true; nc_MaxQueueSize := Some 128; nc_InCapsuleDataSize := None;
    nc_MaxDataTransferSize := None; nc_CtrlLossTmo := Some 600; nc_ReconnectDelay := None; nc_HdrDigest := true; nc_DataDigest := false |};
  ps_ISCSI := None; ps_NFS := None |}.
Definition demo_store : PillarStore := {| st_AgentRef := "storage-1"; st_Backend := {|
  be_ZFS := None; be_LVM := Some {| lc_VolumeGroup := "vg0"; lc_ThinPool := "pool"; lc_ProvisioningMode := "" |}; be_Directory := None |} |}.
Definition demo_nvme_override : ProtocolOverrides := {| po_NVMeOFTCP := Some {| no_MaxQueueSize := Some 256; no_InCapsuleDataSize := None;
  no_MaxDataTransferSize := None; no_CtrlLossTmo := Some 60; no_ReconnectDelay := None |}; po_ISCSI := None; po_NFS := None |}.
Definition demo_class : PillarStorageClass := {|
  sc_CSIDriver := ""; sc_StoreRef := "fast"; sc_ProtocolRef := "tcp";
  sc_Filesystem := Some {| fs_FSType := "xfs"; fs_MkfsOptions := Some ["-f"]; fs_MountOptions := None; fs_PeriodicTrim := None |};
  sc_Overrides := Some {| so_Backend := None; so_Protocol := Some demo_nvme_override |};
  sc_LocalAttach := true |}.
Definition demo_annotations : gmap string string :=
  {[ ProtocolDocKey := "nvmeofTcp: {maxQueueSize: 512}"; BackendDocKey := "lvm: {provisioningMode: thin}"; AnnotationImportLV := " vg0/data:u:v " ]}.
Definition demo_parse (raw : string) : GoResult (yaml Z) :=
  if decide (raw = "nvmeofTcp: {maxQueueSize: 512}") then Ok (YMap [("nvmeofTcp", YMap [("maxQueueSize", YInt 512)])])
  else if decide (raw = "lvm: {provisioningMode: thin}") then Ok (YMap [("lvm", YMap [("provisioningMode", YString "thin")])])
  else Err (EPlain "not YAML").
Definition only {A} (name : string) (a : A) (n : string) : get_result A := if decide (n = name) then Found a else NotFoundObject.
Definition demo_cluster : cluster := {|
  cl_class := only "gold" demo_class; cl_protocol := only "tcp" demo_protocol; cl_store := only "fast" demo_store;
  cl_claim ns := if decide (ns = "apps") then only "data" demo_annotations else λ _, NotFoundObject |}.
Definition demo_params : volume_context :=
  {[ paramBinding := "gold"; paramPVCNameMeta := "data"; paramPVCNamespaceMeta := "apps" ]}.

#[local] Abbreviation demo_resolve k caps := (resolveVolumeConfig Some demo_parse "" k demo_params caps).
Definition nothing : resolution := {|
  rn_resolved := {| rv_Backend := st_Backend demo_store; rv_Protocol := demo_protocol; rv_Filesystem := None; rv_LocalAttach := false |};
  rn_agentRef := ""; rn_pvcFS := None; rn_storeName := ""; rn_importDataset := ""; rn_importDirectory := ""; rn_importZFSDataset := "";
  rn_importLV := ""; rn_importLVPolicy := "" |}.
Definition ok_or {A} (a : A) (r : GoResult A) : A := match r with Ok a => a | Err _ => a end.
Definition demo_resolution : resolution := ok_or nothing (demo_resolve demo_cluster [] None).
(** The claim's queue size and provisioning mode, the class's timeout and
    filesystem, the protocol's port, the default transfer size. *)
Lemma demo_resolved : rn_resolved demo_resolution = {|
  rv_Backend := {| be_ZFS := None; be_LVM := Some {| lc_VolumeGroup := "vg0"; lc_ThinPool := "pool"; lc_ProvisioningMode := "thin" |}; be_Directory := None |};
  rv_Protocol := {| ps_NVMeOFTCP := Some {| nc_Port := 4421; nc_ACL := true; nc_MaxQueueSize := Some 512; nc_InCapsuleDataSize := None;
      nc_MaxDataTransferSize := Some 4194304; nc_CtrlLossTmo := Some 60; nc_ReconnectDelay := None; nc_HdrDigest := false; nc_DataDigest := false |};
    ps_ISCSI := None; ps_NFS := None |};
  rv_Filesystem := Some {| fs_FSType := "xfs"; fs_MkfsOptions := Some ["-f"]; fs_MountOptions := Some []; fs_PeriodicTrim := None |};
  rv_LocalAttach := true |}.
Proof. vm_compute. reflexivity. Qed.

Lemma resolve_precedence_witness : ∃ class pvc store, layers Some demo_parse "" demo_cluster demo_params true class pvc ∧
  cl_store demo_cluster (cy_storeName class) = Found store ∧
    let protocol := effective_protocol (cy_protocol class) (cy_protocolOv class) (pd_Protocol pvc) in
    rn_resolved demo_resolution = {|
      rv_Backend := effective_backend (st_Backend store) (cy_backend class) (pd_Backend pvc);
      rv_Protocol := protocol;
      rv_Filesystem := Some (effective_filesystem demo_params [] (cy_filesystem class) (pd_Filesystem pvc)
        (bool_decide (ProtocolKind protocol = ProtocolIDNFS)));
      rv_LocalAttach := cy_localAttach class |} ∧
    rn_agentRef demo_resolution = st_AgentRef store ∧ rn_storeName demo_resolution = cy_storeName class.
Proof. refine (resolve_precedence Some demo_parse "" demo_cluster demo_params [] demo_resolution _). vm_compute. reflexivity. Defined.
Lemma resolve_wellformed_witness : resolved_wf "" (rn_resolved demo_resolution).
Proof.
  refine (resolve_wellformed Some demo_parse "" demo_cluster demo_params [] None demo_resolution _ _); [discriminate|]. vm_compute. reflexivity.
Defined.

(** The cluster after its store is gone and its class was edited. *)
Definition edited_class : PillarStorageClass := {|
  sc_CSIDriver := ""; sc_StoreRef := "fast"; sc_ProtocolRef := "tcp"; sc_Filesystem := None;
  sc_Overrides := sc_Overrides demo_class; sc_LocalAttach := false |}.
Definition later_cluster : cluster := {|
  cl_class := only "gold" edited_class; cl_protocol := cl_protocol demo_cluster; cl_store := λ _, NotFoundObject; cl_claim := cl_claim demo_cluster |}.
Lemma demo_same_exports : same_exports demo_cluster later_cluster.
Proof. split; [|done..]. intros n. cbn. unfold only. by case_decide. Qed.
Definition demo_cap : VolumeCapability := {| vc_Mount := Some {| mv_FsType := "btrfs"; mv_MountFlags := [] |} |}.
Lemma retry_stable_witness :
  demo_resolve demo_cluster [] (Some (rn_resolved demo_resolution)) = demo_resolve later_cluster [demo_cap] (Some (rn_resolved demo_resolution)) ∧
  is_ok (demo_resolve demo_cluster [] (Some (rn_resolved demo_resolution))) = true.
Proof.
  split; [|vm_compute; reflexivity].
  exact (proj1 (retry_stable Some demo_parse "" demo_cluster later_cluster demo_params [] [demo_cap] (rn_resolved demo_resolution) demo_same_exports)).
Defined.

Lemma within_None lo hi : within lo hi None.
Proof. done. Qed.
Lemma within_Some lo hi z : lo <= z <= hi → within lo hi (Some z).
Proof. by intros ? ? [= <-]. Qed.
Lemma demo_protocols_ok name p : cl_protocol demo_cluster name = Found p → protocol_ok p.
Proof.
  cbn. unfold only. case_decide; [|done]. intros [= <-]. split; [|done]. intros n [= <-].
  split; cbn; try apply within_None; try (apply within_Some; unfold MaxInt32; lia). done.
Qed.
Lemma demo_overrides_ok name c o : cl_class demo_cluster name = Found c → sc_Overrides c ≫= so_Protocol = Some o → override_ok o.
Proof.
  cbn. unfold only. case_decide; [|done]. intros [= <-] [= <-]. split; [|done]. intros n [= <-].
  split; cbn; try apply within_None; try (apply within_Some; unfold MaxInt32; lia). done.
Qed.
Lemma resolve_in_bounds_witness : protocol_ok (rv_Protocol (rn_resolved demo_resolution)).
Proof.
  refine (resolve_in_bounds Some demo_parse "" demo_cluster demo_params [] None demo_resolution demo_protocols_ok demo_overrides_ok _).
  vm_compute. reflexivity.
Defined.
Lemma import_intent_kept_witness : intent_kept demo_annotations (docs_of demo_resolution) ∧ rn_importLV demo_resolution = "vg0/data:u:v".
Proof.
  split; [|vm_compute; reflexivity].
  refine (import_intent_kept Some demo_parse "" demo_cluster demo_params [] None demo_resolution demo_annotations _ _ _ _);
    [discriminate..|vm_compute; reflexivity|vm_compute; reflexivity].
Defined.
(** A first attempt without its store: FailedPrecondition, which is not final. *)
Lemma later_extends : extends later_cluster {| cl_class := cl_class later_cluster; cl_protocol := cl_protocol demo_cluster;
  cl_store := cl_store demo_cluster; cl_claim := cl_claim demo_cluster |}.
Proof. split; intros; intros a; (done || discriminate). Qed.
Lemma resolve_errors_witness :
  classified [Present; Present; Missing; Present] (demo_resolve later_cluster [] None) ∧
  (∃ m, demo_resolve later_cluster [] None = Err (EStatus FailedPrecondition m)) ∧
  final (demo_resolve later_cluster [] None) (demo_resolve {| cl_class := cl_class later_cluster; cl_protocol := cl_protocol demo_cluster;
    cl_store := cl_store demo_cluster; cl_claim := cl_claim demo_cluster |} [] None).
Proof.
  destruct (resolve_errors Some demo_parse "" later_cluster demo_params [] None) as [[H|[_ (?&?&?&?&Hn&_)]] Hf]; [|discriminate Hn].
  split_and!; [exact H|eexists; vm_compute; reflexivity|exact (Hf _ later_extends)].
Defined.

(** What a retry does read: the class's protocol overrides change its tuning. *)
Definition retuned_class : PillarStorageClass := {|
  sc_CSIDriver := ""; sc_StoreRef := "fast"; sc_ProtocolRef := "tcp"; sc_Filesystem := None; sc_Overrides := None; sc_LocalAttach := false |}.
Definition retuned_cluster : cluster := {|
  cl_class := only "gold" retuned_class; cl_protocol := cl_protocol demo_cluster; cl_store := cl_store demo_cluster; cl_claim := cl_claim demo_cluster |}.
Definition ctrl_loss (r : GoResult resolution) : option (option Z) :=
  match r with Ok r => nc_CtrlLossTmo <$> ps_NVMeOFTCP (rv_Protocol (rn_resolved r)) | Err _ => None end.
Lemma retry_reads_class :
  ctrl_loss (demo_resolve demo_cluster [] (Some (rn_resolved demo_resolution))) = Some (Some 60) ∧
  ctrl_loss (demo_resolve retuned_cluster [] (Some (rn_resolved demo_resolution))) = Some (Some 600).
Proof. split; vm_compute; reflexivity. Qed.
End ResolveDemo.
