(* ===== verification/VolumeFencing.v ===== *)
(** * The controller's volume record operations (internal/csi/volume_fencing.go)

    Every operation is a compare-and-swap on the PillarVolumeState of one
    volume, through a Kubernetes API server other clients write to at the
    same time.  [kube] is that server: its store, its revision counter, the
    commits this controller made, and a script of what happens around each
    API call ([k_calls]): the writes other clients commit just before it, and
    whether the call reaches the server and its answer comes back. *)
From stdpp Require Import base numbers list strings gmap.
From S2P Require Import Prelude GoStd FencingMark PillarVolumeState.
Open Scope Z_scope.

(** ** The API server *)

(** A write of another client: the object under a name, none if there is
    none, becomes another one or is removed. *)
Record env_write := {
  ew_name : string;
  ew_write : option PillarVolumeState → option PillarVolumeState;
}.

Inductive call_outcome :=
| CallOk      (* the call is served and answered *)
| CallFails   (* the call never reaches the server *)
| CallLost.   (* the call is served, its answer is lost *)

Record api_call := { ac_before : list env_write; ac_outcome : call_outcome }.

(** A commit of this controller: the object before and after. *)
Inductive commit :=
| CUpdate (old new : PillarVolumeState)
| CCreate (new : PillarVolumeState)
| CDelete (old : PillarVolumeState).

Record kube := {
  k_store : gmap string PillarVolumeState;
  k_revision : Z;
  k_log : list commit;
  k_calls : list api_call;
}.

Definition Controller := M kube go_error.

Definition set_meta (p : PillarVolumeState) (name uid : string) (rv : Z) : PillarVolumeState := {|
  pvs_Name := name; pvs_UID := uid; pvs_ResourceVersion := rv; Spec := Spec p; Status := Status p |}.

(** A write moves the store to its next revision. *)
Definition next_revision (k : kube) (store : gmap string PillarVolumeState) (log : list commit) : kube := {|
  k_store := store; k_revision := k_revision k + 1; k_log := k_log k ++ log; k_calls := k_calls k |}.

(** Kubernetes API errors the code tells apart. *)
Definition apiConflict : go_error := EConflict "Conflict".
Definition apiNotFound : go_error := EPlain "NotFound".
Definition apiAlreadyExists : go_error := EPlain "AlreadyExists".
Definition apiUnreachable : go_error := EPlain "server unreachable".

Definition api_answer {A} (o : call_outcome) (a : A) : Controller A :=
  match o with CallLost => throw apiUnreachable | _ => mret a end.

Section Api.
(** The UID the server gives to the object created at a revision. *)
Context (newUID : Z → string).

(** Whatever another client submits, the server keeps the UID of an existing
    object and assigns a new one otherwise. *)
Definition env_apply (k : kube) (e : env_write) : kube :=
  let name := ew_name e in
  match k_store k !! name, ew_write e (k_store k !! name) with
  | None, None => k
  | Some _, None => next_revision k (delete name (k_store k)) []
  | cur, Some p =>
      let uid := match cur with Some cur => pvs_UID cur | None => newUID (k_revision k + 1) end in
      next_revision k (<[name := set_meta p name uid (k_revision k + 1)]> (k_store k)) []
  end.

(** The start of an API call: the interference before it, and its outcome. *)
Definition api_begin : Controller call_outcome := λ k,
  match k_calls k with
  | [] => (Ok CallOk, k)
  | c :: cs =>
      (Ok (ac_outcome c),
       foldl env_apply {| k_store := k_store k; k_revision := k_revision k; k_log := k_log k; k_calls := cs |}
             (ac_before c))
  end.

(** [apiReader.Get] *)
Definition apiGet (name : string) : Controller (option PillarVolumeState) :=
  o ← api_begin;
  match o with
  | CallOk => reads (λ k, k_store k !! name)
  | _ => throw apiUnreachable
  end.

(** An update is refused with Conflict unless it carries the stored resource
    version; [merge] takes the part the call writes from the submitted object
    and the rest from the stored one. *)
Definition apiUpdateWith (merge : PillarVolumeState → PillarVolumeState → PillarVolumeState)
    (p : PillarVolumeState) : Controller PillarVolumeState :=
  o ← api_begin;
  match o with
  | CallFails => throw apiUnreachable
  | _ =>
      k ← reads id;
      match k_store k !! pvs_Name p with
      | None => throw apiNotFound
      | Some cur =>
          if negb (pvs_ResourceVersion cur =? pvs_ResourceVersion p) then throw apiConflict
          else
            let new := set_meta (merge cur p) (pvs_Name p) (pvs_UID cur) (k_revision k + 1) in
            modify (λ k, next_revision k (<[pvs_Name p := new]> (k_store k)) [CUpdate cur new]) ;;
            api_answer o new
      end
  end.

(** [Status().Update] writes the status, [Update] the spec. *)
Definition merge_status (cur p : PillarVolumeState) : PillarVolumeState := set_Status cur (Status p).
Definition merge_spec (cur p : PillarVolumeState) : PillarVolumeState := set_Status p (Status cur).
Definition apiStatusUpdate := apiUpdateWith merge_status.
Definition apiUpdate := apiUpdateWith merge_spec.

Definition apiCreate (name : string) (spec : PillarVolumeStateSpec) : Controller unit :=
  o ← api_begin;
  match o with
  | CallFails => throw apiUnreachable
  | _ =>
      k ← reads id;
      match k_store k !! name with
      | Some _ => throw apiAlreadyExists
      | None =>
          let new := {| pvs_Name := name; pvs_UID := newUID (k_revision k + 1);
                        pvs_ResourceVersion := k_revision k + 1; Spec := spec; Status := emptyStatus |} in
          modify (λ k, next_revision k (<[name := new]> (k_store k)) [CCreate new]) ;;
          api_answer o tt
      end
  end.

(** [Delete] with a UID precondition. *)
Definition apiDelete (name uid : string) : Controller unit :=
  o ← api_begin;
  match o with
  | CallFails => throw apiUnreachable
  | _ =>
      k ← reads id;
      match k_store k !! name with
      | None => throw apiNotFound
      | Some cur =>
          if decide (pvs_UID cur ≠ uid) then throw apiConflict
          else modify (λ k, next_revision k (delete name (k_store k)) [CDelete cur]) ;; api_answer o tt
      end
  end.
End Api.

(** [retry.RetryOnConflict]: run [f] again while it ends in Conflict, at most
    [steps] times in all. *)
Fixpoint RetryOnConflict {W A} (steps : nat) (f : M W go_error A) : M W go_error A :=
  match steps with
  | O | 1%nat => f
  | S steps =>
      r ← try f;
      match r with
      | Ok a => mret a
      | Err (EConflict _) => RetryOnConflict steps f
      | Err e => throw e
      end
  end.
Definition DefaultRetrySteps : nat := 5.

(** ** Reading and updating a record *)

(** A [mutate] callback: it changed the object, found nothing to write
    ([errNoStatusChange]), or failed; [x] is what it assigned to the variable
    of its caller that it captures. *)
Inductive mutation (X : Type) :=
| Change (p : PillarVolumeState) (x : X)
| NoChange (p : PillarVolumeState) (x : X)
| Refuse (e : go_error).
Arguments Change {X}.
Arguments NoChange {X}.
Arguments Refuse {X}.

(** Code that runs with such a captured variable in scope: its value
    survives from one attempt of a retry loop to the next. *)
Definition Closure (X : Type) := M (kube * X) go_error.
Definition on_api {X A} (m : Controller A) : Closure X A := λ '(k, x),
  let '(r, k') := m k in (r, (k', x)).
Definition assign {X} (x : X) : Closure X unit := modify (λ '(k, _), (k, x)).
(** Declare the variable with value [x0], run [m], and read it afterwards. *)
Definition with_var {X A} (x0 : X) (m : Closure X A) : Controller (A * X) := λ k,
  match m (k, x0) with
  | (Ok a, (k', x)) => (Ok (a, x), k')
  | (Err e, (k', _)) => (Err e, k')
  end.

(** [int64] increment. *)
Definition int64_succ (g : Z) : Z := if g =? 2 ^ 63 - 1 then - 2 ^ 63 else g + 1.
Definition bumpGeneration (p : PillarVolumeState) : PillarVolumeState :=
  set_PublicationGeneration p (int64_succ (PublicationGeneration (Status p))).

(** [publicationRecordError] *)
Definition publicationRecordError (e : go_error) : go_error :=
  if is_status e then e else EStatus Internal "PillarVolumeState".
Definition record_errors {A} (m : Controller A) : Controller A :=
  r ← try m; match r with Ok a => mret a | Err e => throw (publicationRecordError e) end.

Section Ops.
Context (newUID : Z → string) (driverName : string).

Definition readVolumeState (pvName : string) : Controller (option PillarVolumeState) :=
  apiGet newUID pvName.

(** Reads whose failure the callers report as Internal. *)
Definition internal_read (pvName : string) : Controller (option PillarVolumeState) :=
  r ← try (readVolumeState pvName);
  match r with Ok o => mret o | Err _ => throw (EStatus Internal "get PillarVolumeState") end.


Definition validateVolumeStateForUpdate (pvs : PillarVolumeState) : GoResult unit :=
  validateVolumeDriver driverName (Spec pvs) ;;
  if bool_decide (is_Some (SpecFilesystemAdoption (Spec pvs))) && negb (isFilesystemVolumeID (Spec pvs))
  then Err (EStatus FailedPrecondition "volume has no valid filesystem lifecycle handle") else Ok tt.

Definition handleMissingVolumeState (uid : string) : GoResult (option PillarVolumeState) :=
  if decide (uid = "") then Ok None
  else Err (EStatus Aborted "PillarVolumeState no longer exists; the volume was deleted or re-created").

Definition updateVolumeStateAttempt {X} (pvName uid : string) (bump : bool)
    (mutate : PillarVolumeState → mutation X) : Closure X (option PillarVolumeState) :=
  o ← on_api (internal_read pvName);
  match o with
  | None => lift (handleMissingVolumeState uid)
  | Some pvs =>
      if bool_decide (uid ≠ "") && negb (bool_decide (pvs_UID pvs = uid))
      then lift (handleMissingVolumeState uid)
      else
        lift (validateVolumeStateForUpdate pvs) ;;
        match mutate pvs with
        | NoChange p x => assign x ;; mret (Some p)
        | Refuse e => throw e
        | Change p x =>
            assign x ;;
            new ← on_api (apiStatusUpdate newUID (if bump then bumpGeneration p else p));
            mret (Some new)
        end
  end.

(** [updateVolumeState] returns the object, none when it does not exist and
    [uid] is empty, and the final value of the variable [mutate] captures,
    which starts as [x0]. *)
Definition updateVolumeState {X} (pvName uid : string) (bump : bool) (x0 : X)
    (mutate : PillarVolumeState → mutation X) : Controller (option PillarVolumeState * X) :=
  record_errors (with_var x0
    (RetryOnConflict DefaultRetrySteps (updateVolumeStateAttempt pvName uid bump mutate))).

(** The fencing token of a committed record; dereferencing the absent object
    panics. *)
Definition fenceToken (pvs : option PillarVolumeState) : GoResult FencingToken :=
  match pvs with
  | None => Err (EPlain "panic: nil PillarVolumeState")
  | Some pvs =>
      let gen := PublicationGeneration (Status pvs) in
      if bool_decide (pvs_UID pvs = "") || (gen <? 0) then
        Err (EStatus Internal "PillarVolumeState has no usable fencing identity")
      else Ok {| VolumeUid := pvs_UID pvs; TokenGeneration := gen |}
  end.

Definition committedToken {X} (pvName uid : string) (x0 : X) (mutate : PillarVolumeState → mutation X)
    : Controller (FencingToken * X) :=
  o ← updateVolumeState pvName uid true x0 mutate;
  token ← lift (fenceToken o.1);
  mret (token, o.2).

(** ** Creating a record *)

Definition validateFilesystemRetryIdentity (pvs : PillarVolumeState) (spec : PillarVolumeStateSpec)
    (adoption : FilesystemAdoptionSpec) : GoResult unit :=
  if negb (isFilesystemVolumeID (Spec pvs)) then
    Err (EStatus FailedPrecondition "volume has no valid filesystem lifecycle handle")
  else if negb (bool_decide (VolumeID spec = filesystemVolumeIDBase spec)) && negb (isFilesystemVolumeID spec) then
    Err (EStatus FailedPrecondition "volume requested an invalid filesystem lifecycle handle")
  else if negb (bool_decide (SpecFilesystemAdoption spec = Some adoption))
          || negb (bool_decide (AgentVolumeID (Spec pvs) = AgentVolumeID spec))
          || negb (bool_decide (AgentRef (Spec pvs) = AgentRef spec))
          || negb (bool_decide (SpecBackendType (Spec pvs) = SpecBackendType spec))
          || negb (bool_decide (SpecProtocolType (Spec pvs) = SpecProtocolType spec))
          || negb (bool_decide (ImportedFrom (Spec pvs) = ImportedFrom spec)) then
    Err (EStatus FailedPrecondition "filesystem adoption identity and routing cannot change")
  else Ok tt.

Definition validateFilesystemRetryLayout (pvs : PillarVolumeState) (spec : PillarVolumeStateSpec) : GoResult unit :=
  let refuse := Err (EStatus FailedPrecondition "adopted filesystem layout and access scope cannot change") in
  match Resolved (Spec pvs), Resolved spec with
  | None, None => Ok tt
  | Some a, Some b =>
      if negb (Bool.eqb (rs_LocalAttach a) (rs_LocalAttach b)) || negb (bool_decide (rs_Backend a = rs_Backend b))
      then refuse else Ok tt
  | _, _ => refuse
  end.

Definition validateFilesystemRetrySpec (pvs : PillarVolumeState) (spec : PillarVolumeStateSpec) : GoResult unit :=
  match SpecFilesystemAdoption (Spec pvs) with
  | None => Ok tt
  | Some adoption =>
      validateFilesystemRetryIdentity pvs spec adoption ;;
      if negb (CapacityBytes (Spec pvs) =? CapacityBytes spec) then
        Err (EStatus AlreadyExists "adopted filesystem capacity is fixed")
      else validateFilesystemRetryLayout pvs spec
  end.

Definition ensureExistingVolumeState (pvs : PillarVolumeState) (spec : PillarVolumeStateSpec)
    : GoResult PillarVolumeState :=
  validateVolumeDriver driverName (Spec pvs) ;;
  validateFilesystemRetrySpec pvs spec ;;
  Ok pvs.

(** The spec a new record is created with; [nonce] are the random bytes of a
    filesystem handle, none when the random source fails. *)
Definition initialSpec (spec : PillarVolumeStateSpec) (nonce : option bytes) : GoResult PillarVolumeStateSpec :=
  match SpecFilesystemAdoption spec, nonce with
  | None, _ => Ok spec
  | Some _, Some nonce => Ok (set_VolumeID spec (newFilesystemVolumeID (filesystemVolumeIDBase spec) nonce))
  | Some _, None => Err (EStatus Internal "create filesystem lifecycle handle")
  end.

Definition provisioning_mutation (spec : PillarVolumeStateSpec) (pvs : PillarVolumeState) : mutation unit :=
  match validateFilesystemRetrySpec pvs spec with
  | Err e => Refuse e
  | Ok _ =>
      if decide (Phase (Status pvs) ≠ PhaseNone) then NoChange pvs tt
      else Change (set_Phase pvs PhaseProvisioning) tt
  end.

Definition createVolumeState (pvName : string) (spec0 : PillarVolumeStateSpec) (nonce : option bytes)
    : Controller (option PillarVolumeState) :=
  spec ← lift (initialSpec spec0 nonce);
  r ← try (apiCreate newUID pvName spec);
  if match r with Ok _ => true | Err e => bool_decide (e = apiAlreadyExists) end then
    o ← internal_read pvName;
    match o with
    | None => throw (EStatus Aborted "PillarVolumeState was deleted while it was being created")
    | Some pvs =>
        lift (ensureExistingVolumeState pvs spec) ;;
        if decide (Phase (Status pvs) ≠ PhaseNone) then mret (Some pvs)
        else
          o ← updateVolumeState pvName (pvs_UID pvs) false tt (provisioning_mutation spec);
          mret o.1
    end
  else throw (EStatus Internal "create PillarVolumeState").

Definition ensureVolumeState (pvName : string) (spec : PillarVolumeStateSpec) (nonce : option bytes)
    : Controller (option PillarVolumeState) :=
  lift (validateVolumeDriver driverName spec) ;;
  o ← internal_read pvName;
  match o with
  | Some pvs => pvs ← lift (ensureExistingVolumeState pvs spec); mret (Some pvs)
  | None => createVolumeState pvName spec nonce
  end.

(** ** Operations *)

Definition refuseDeleting (pvs : PillarVolumeState) : option go_error :=
  if Deleting (Status pvs) then Some (EStatus FailedPrecondition "volume is being deleted") else None.

Definition claim_mutation (pvs : PillarVolumeState) : mutation unit :=
  match refuseDeleting pvs with Some e => Refuse e | None => Change pvs tt end.

Definition claimOperation (pvName uid : string) : Controller FencingToken :=
  r ← committedToken pvName uid tt claim_mutation; mret r.1.

Definition currentToken (pvName : string) : Controller FencingToken :=
  o ← internal_read pvName;
  match o with
  | None => throw (EStatus NotFound "volume not found")
  | Some pvs =>
      lift (validateVolumeDriver driverName (Spec pvs)) ;;
      match refuseDeleting pvs with
      | Some e => throw e
      | None => lift (fenceToken (Some pvs))
      end
  end.

Definition checkPublicationConflict (cur pub : VolumePublication) : option go_error :=
  if decide (NodeID cur ≠ NodeID pub) then
    if canSharePublication cur pub then None
    else Some (EStatus FailedPrecondition "volume is published to another node")
  else if Revoking cur then Some (EStatus Aborted "volume is being unpublished from the node; retry")
  else if decide (cur = pub) then None
  else if negb (Bool.eqb (Local cur) (Local pub)) then
    Some (EStatus FailedPrecondition "volume is published to the node with another local attach")
  else if decide (InitiatorID cur ≠ InitiatorID pub) then
    Some (EStatus FailedPrecondition "the node now reports another initiator")
  else Some (EStatus AlreadyExists "volume is already published to the node with another capability").

(** The loop over the recorded publications: a conflict, an identical
    record, or neither. *)
Fixpoint scanPublications (pub : VolumePublication) (l : list VolumePublication) : GoResult bool :=
  match l with
  | [] => Ok false
  | cur :: l =>
      match checkPublicationConflict cur pub with
      | Some e => Err e
      | None => if decide (cur = pub) then Ok true else scanPublications pub l
      end
  end.

Definition reserve_mutation (pub : VolumePublication) (pvs : PillarVolumeState) : mutation bool :=
  match refuseDeleting pvs with
  | Some e => Refuse e
  | None =>
      let pvs := if Local pub && bool_decide (SpecFilesystemAdoption (Spec pvs) = None)
                 then set_LocalAttachNode pvs (NodeID pub) else pvs in
      match scanPublications pub (PublishedNodes (Status pvs)) with
      | Err e => Refuse e
      | Ok true => Change pvs false
      | Ok false => Change (set_PublishedNodes pvs (PublishedNodes (Status pvs) ++ [pub])) true
      end
  end.

Definition reservePublicationState (pvName uid : string) (pub : VolumePublication)
    : Controller (FencingToken * bool) :=
  committedToken pvName uid false (reserve_mutation pub).

Definition reservePublication (pvName uid : string) (pub : VolumePublication) : Controller FencingToken :=
  r ← reservePublicationState pvName uid pub; mret r.1.

Definition clear_mutation (node : string) (pvs : PillarVolumeState) : mutation unit :=
  if decide (LocalAttachNode (Status pvs) ≠ node) then NoChange pvs tt
  else if existsb Local (PublishedNodes (Status pvs)) then
    Refuse (EStatus Aborted "still records a local publication; retry")
  else Change (set_LocalAttachNode pvs "") tt.

Definition clearLocalAttachNode (pvName uid node : string) : Controller FencingToken :=
  record_errors (r ← committedToken pvName uid tt (clear_mutation node); mret r.1).

(** Mark the first record equal to [expected] revoking. *)
Fixpoint revokeFirst (expected : VolumePublication) (l : list VolumePublication)
    : list VolumePublication * bool :=
  match l with
  | [] => ([], false)
  | p :: l =>
      if decide (p = expected) then (set_Revoking p :: l, true)
      else let '(l', found) := revokeFirst expected l in (p :: l', found)
  end.

Definition fence_one_mutation (expected : VolumePublication) (pvs : PillarVolumeState) : mutation bool :=
  let '(l, found) := revokeFirst expected (PublishedNodes (Status pvs)) in
  Change (set_PublishedNodes pvs l) found.

Definition fencePublication (pvName uid : string) (expected : VolumePublication)
    : Controller (FencingToken * bool) :=
  committedToken pvName uid false (fence_one_mutation expected).

Definition selects (nodeID : string) (p : VolumePublication) : bool :=
  bool_decide (nodeID = "") || bool_decide (NodeID p = nodeID).

Definition fence_mutation (nodeID : string) (pvs : PillarVolumeState) : mutation (list VolumePublication) :=
  let nodes := map (λ p, if selects nodeID p then set_Revoking p else p) (PublishedNodes (Status pvs)) in
  let revoke := List.filter (selects nodeID) nodes in
  if (length revoke =? 0)%nat then NoChange pvs revoke
  else Change (set_PublishedNodes pvs nodes) revoke.

Definition fencePublications (pvName uid nodeID : string)
    : Controller (option (FencingToken * list VolumePublication)) :=
  o ← updateVolumeState pvName uid true [] (fence_mutation nodeID);
  if (length o.2 =? 0)%nat then mret None
  else token ← lift (fenceToken o.1); mret (Some (token, o.2)).

Definition release_mutation (nodeIDs : list string) (fence : option FencingToken)
    (pvs : PillarVolumeState) : mutation unit :=
  let continue :=
    let kept := List.filter (λ p, negb (containsb nodeIDs (NodeID p))) (PublishedNodes (Status pvs)) in
    if (length kept =? length (PublishedNodes (Status pvs)))%nat then NoChange pvs tt
    else Change (set_PublishedNodes pvs kept) tt in
  match fence with
  | None => continue
  | Some fence =>
      match fenceToken (Some pvs) with
      | Err e => Refuse e
      | Ok current =>
          if negb (TokenGeneration current =? TokenGeneration fence) then
            Refuse (EStatus Aborted "publication state changed during unpublish; retry")
          else continue
      end
  end.

Definition releasePublication (pvName uid : string) (nodeIDs : list string) (fence : option FencingToken)
    : Controller nat :=
  record_errors (
    o ← updateVolumeState pvName uid true tt (release_mutation nodeIDs fence);
    mret (match o.1 with None => 0%nat | Some pvs => length (PublishedNodes (Status pvs)) end)).

(** *** Deletion *)

(** A handle from another lifecycle of the name owns nothing here. *)
Definition foreignHandle (pvs : PillarVolumeState) (volumeID : string) : bool :=
  (bool_decide (is_Some (SpecFilesystemAdoption (Spec pvs))) || negb (bool_decide (VolumeID (Spec pvs) = "")))
  && negb (bool_decide (VolumeID (Spec pvs) = volumeID)).

Definition markVolumeDeletingMutation (volumeID : string) (admission : option (PillarVolumeState → GoResult unit))
    (pvs : PillarVolumeState) : mutation unit :=
  if foreignHandle pvs volumeID then
    Refuse (EStatus Aborted "volume no longer belongs to the PillarVolumeState")
  else
    match refuseRecoveryPending pvs with
    | Err e => Refuse e
    | Ok _ =>
        if Deleting (Status pvs) then NoChange pvs tt
        else if (0 <? length (PublishedNodes (Status pvs)))%nat then
          Refuse (EStatus FailedPrecondition "volume is still published; unpublish it before deleting")
        else
          match (match admission with Some admission => admission pvs | None => Ok tt end) with
          | Err e => Refuse e
          | Ok _ => Change (set_Deleting pvs) tt
          end
    end.

Definition markVolumeDeleting (pvName volumeID : string) (admission : option (PillarVolumeState → GoResult unit))
    : Controller (option (PillarVolumeState * FencingToken)) :=
  o ← internal_read pvName;
  match o with
  | None => mret None
  | Some current =>
      if foreignHandle current volumeID then mret None
      else
        o ← updateVolumeState pvName (pvs_UID current) true tt (markVolumeDeletingMutation volumeID admission);
        match o.1 with
        | None => mret None
        | Some pvs => token ← lift (fenceToken (Some pvs)); mret (Some (pvs, token))
        end
  end.

Definition deleteVolumeState (pvName uid : string) : Controller unit :=
  r ← try (apiDelete newUID pvName uid);
  match r with
  | Ok _ => mret tt
  | Err e =>
      if decide (e = apiNotFound) then mret tt
      else match e with
           | EConflict _ => mret tt
           | _ => throw (EStatus Internal "delete PillarVolumeState")
           end
  end.

(** *** Provisioning progress *)

Definition recordAllocatedCapacity (pvName uid : string) (capacity : Z) : Controller unit :=
  record_errors (RetryOnConflict DefaultRetrySteps (
    o ← internal_read pvName;
    match o with
    | None => throw (EStatus Aborted "PillarVolumeState no longer exists")
    | Some pvs =>
        if decide (pvs_UID pvs ≠ uid) then throw (EStatus Aborted "PillarVolumeState no longer exists")
        else
          lift (validateVolumeDriver driverName (Spec pvs)) ;;
          if CapacityBytes (Spec pvs) =? capacity then mret tt
          else if bool_decide (is_Some (SpecFilesystemAdoption (Spec pvs))) then
            throw (EStatus FailedPrecondition "adopted filesystem capacity is fixed")
          else apiUpdate newUID (set_CapacityBytes pvs capacity) ;; mret tt
    end)).

(** [persistCreatePartial] at time [now]. *)
Definition partial_mutation (devicePath : string) (exportSpec : option VolumeExportSpec) (now : Z)
    (pvs : PillarVolumeState) : mutation unit :=
  let st := Status pvs in
  let acquired := ImportAcquired st
    || negb (bool_decide (ImportedFrom (Spec pvs) = "")) || bool_decide (is_Some (SpecLVMSource (Spec pvs)))
    || bool_decide (is_Some (SpecFilesystemAdoption (Spec pvs))) in
  Change (set_Status pvs (set_provision st PhaseCreatePartial
    (Some {| pf_FailedOperation := "ExportVolume"; pf_FailedAt := now; pf_Reason := "ExportPending";
             pf_Message := "Backend storage resource created successfully; ExportVolume has not yet succeeded.  Retry CreateVolume to re-attempt the export step.";
             pf_BackendCreated := true; pf_ExportCreated := false |})
    devicePath acquired (ExportInfo st) exportSpec)) tt.

Definition persistCreatePartial (pvName uid devicePath : string) (exportSpec : option VolumeExportSpec)
    (now : Z) : Controller unit :=
  updateVolumeState pvName uid false tt (partial_mutation devicePath exportSpec now) ;; mret tt.

Definition ready_mutation (info : option VolumeExportInfo) (pvs : PillarVolumeState) : mutation unit :=
  let st := Status pvs in
  if Deleting st then Refuse (EStatus FailedPrecondition "volume is being deleted")
  else
    match info with
    | None =>
        if negb (localOnlyFilesystem (Spec pvs)) || negb (ImportAcquired st) then
          Refuse (EStatus FailedPrecondition "volume has no acquired local filesystem")
        else Change (set_Status pvs (set_provision st PhaseReady None "" (ImportAcquired st) None None)) tt
    | Some i =>
        Change (set_Status pvs (set_provision st PhaseReady None "" (ImportAcquired st) (Some i) (ExportSpec st))) tt
    end.

Definition persistVolumeReady (pvName uid : string) (info : option VolumeExportInfo) : Controller unit :=
  updateVolumeState pvName uid false tt (ready_mutation info) ;; mret tt.
End Ops.
