(* ===== verification/KubeCorrect.v ===== *)
(** * Commits of the volume record under interference

    The specification of [updateVolumeState] against an API server other
    clients write to: an update commits at most once, on exactly the object
    that is stored at that moment. *)
From stdpp Require Import base numbers list strings gmap.
From S2P Require Import Prelude GoStd FencingMark PillarVolumeState VolumeFencing.
Open Scope Z_scope.

Section Kube.
Context (newUID : Z → string).

(** Every stored object carries its key as its name, and a resource version
    that was assigned already. *)
Definition kube_wf (k : kube) : Prop :=
  ∀ n p, k_store k !! n = Some p → pvs_Name p = n ∧ pvs_ResourceVersion p ≤ k_revision k.

Definition set_calls (k : kube) (cs : list api_call) : kube := {|
  k_store := k_store k; k_revision := k_revision k; k_log := k_log k; k_calls := cs |}.

(** The server moves from one call to the next: other clients write. *)
Inductive kenv (k : kube) : kube → Prop :=
| kenv_next c cs :
    k_calls k = c :: cs →
    kenv k (foldl (env_apply newUID) (set_calls k cs) (ac_before c)).

Definition quiet : relation kube := rtc kenv.

(** [k'] keeps what [k] stored, up to objects written since. *)
Record later (k k' : kube) : Prop := {
  later_revision : k_revision k ≤ k_revision k';
  later_store n p : k_store k' !! n = Some p →
    k_store k !! n = Some p ∨ k_revision k < pvs_ResourceVersion p;
}.

#[export] Instance later_preorder : PreOrder later.
Proof.
  split.
  - intros k. split; [lia|]. auto.
  - intros k1 k2 k3 [H12 S12] [H23 S23]. split; [lia|].
    intros n p Hp. destruct (S23 n p Hp) as [H|H]; [|right; lia].
    destruct (S12 n p H); auto.
Qed.

Lemma env_apply_facts k e :
  kube_wf k →
  kube_wf (env_apply newUID k e) ∧ later k (env_apply newUID k e) ∧
  k_log (env_apply newUID k e) = k_log k ∧ k_calls (env_apply newUID k e) = k_calls k.
Proof.
  intros Hwf. unfold env_apply.
  assert (∀ name uid p, let k' := next_revision k (<[name := set_meta p name uid (k_revision k + 1)]> (k_store k)) [] in
    kube_wf k' ∧ later k k' ∧ k_log k' = k_log k ∧ k_calls k' = k_calls k) as Hput.
  { intros name uid p k'. split_and!; [| |by cbn; rewrite app_nil_r|done].
    - intros n q. cbn. rewrite lookup_insert_Some. intros [[<- <-]|[? Hq]]; cbn; [split; [done|lia]|].
      destruct (Hwf _ _ Hq). split; [done|lia].
    - split; cbn; [lia|]. intros n q. rewrite lookup_insert_Some.
      intros [[<- <-]|[? Hq]]; cbn; [right; lia|by left]. }
  destruct (k_store k !! ew_name e) eqn:Ecur; destruct (ew_write e _); [apply Hput| |apply Hput|].
  - split_and!; [| |by cbn; rewrite app_nil_r|done].
    + intros n q. cbn. rewrite lookup_delete_Some. intros [? Hq]. destruct (Hwf _ _ Hq). split; [done|lia].
    + split; cbn; [lia|]. intros n q. rewrite lookup_delete_Some. intros [? Hq]. by left.
  - split_and!; try done.
Qed.

Lemma kenv_facts k k' :
  kube_wf k → kenv k k' → kube_wf k' ∧ later k k' ∧ k_log k' = k_log k.
Proof.
  intros Hwf [c cs Hc]. clear Hc.
  assert (kube_wf (set_calls k cs)) as Hwf' by exact Hwf.
  assert (later k (set_calls k cs) ∧ k_log (set_calls k cs) = k_log k) as [Hl Hlog] by (split; [split; cbn; [lia|auto]|done]).
  revert Hwf' Hl Hlog. generalize (set_calls k cs).
  induction (ac_before c) as [|e es IH]; intros k1 Hwf1 Hl Hlog; cbn; [done|].
  destruct (env_apply_facts k1 e Hwf1) as (H1&H2&H3&_). apply IH; [done|by etrans|congruence].
Qed.

Lemma quiet_facts k k' :
  kube_wf k → quiet k k' → kube_wf k' ∧ later k k' ∧ k_log k' = k_log k.
Proof.
  intros Hwf H. induction H as [|k1 k2 k3 H12 _ IH]; [by split_and!|].
  destruct (kenv_facts k1 k2 Hwf H12) as (H1&H2&H3).
  destruct (IH H1) as (H4&H5&H6). split_and!; [done|by etrans|congruence].
Qed.

(** A resource version still stored names the object it was read with. *)
Lemma compare_and_swap k k' n p q :
  kube_wf k → quiet k k' → k_store k !! n = Some p → k_store k' !! n = Some q →
  pvs_ResourceVersion q = pvs_ResourceVersion p → q = p.
Proof.
  intros Hwf Hq Hp Hq' Hrv. destruct (quiet_facts _ _ Hwf Hq) as (_&Hl&_).
  destruct (later_store _ _ Hl n q Hq') as [H|H]; [congruence|].
  destruct (Hwf _ _ Hp). lia.
Qed.

Lemma api_begin_quiet k : ∃ o k1, api_begin newUID k = (Ok o, k1) ∧ quiet k k1.
Proof.
  unfold api_begin. destruct (k_calls k) as [|c cs] eqn:E; eexists _, _; split; try done.
  apply rtc_once. econstructor. exact E.
Qed.

(** ** The operations of the API *)

Lemma apiGet_spec name k :
  wp (apiGet newUID name) (λ r k', quiet k k' ∧
    match r with Ok o => k_store k' !! name = o | Err e => e = apiUnreachable end) k.
Proof.
  apply wp_of_run. unfold apiGet. intros r k' Hrun.
  destruct (api_begin_quiet k) as (o&k1&Hb&Hq). rewrite (M_bind_Ok _ _ _ _ _ Hb) in Hrun.
  unfold reads, throw in Hrun. destruct o; simplify_eq/=; by split.
Qed.

(** The object an update commits over [cur]. *)
Definition committed (merge : PillarVolumeState → PillarVolumeState → PillarVolumeState)
    (cur p : PillarVolumeState) (k : kube) : PillarVolumeState :=
  set_meta (merge cur p) (pvs_Name p) (pvs_UID cur) (k_revision k + 1).

Definition commit_update (k : kube) (name : string) (cur new : PillarVolumeState) : kube :=
  next_revision k (<[name := new]> (k_store k)) [CUpdate cur new].

Lemma apiUpdateWith_spec merge p k :
  wp (apiUpdateWith newUID merge p) (λ r k',
    (quiet k k' ∧ ∃ e, r = Err e) ∨
    (∃ k1 cur, quiet k k1 ∧ k_store k1 !! pvs_Name p = Some cur ∧
       pvs_ResourceVersion cur = pvs_ResourceVersion p ∧
       k' = commit_update k1 (pvs_Name p) cur (committed merge cur p k1) ∧
       (r = Ok (committed merge cur p k1) ∨ r = Err apiUnreachable))) k.
Proof.
  apply wp_of_run. unfold apiUpdateWith. intros r k' Hrun.
  destruct (api_begin_quiet k) as (o&k1&Hb&Hq). rewrite (M_bind_Ok _ _ _ _ _ Hb) in Hrun.
  assert (o = CallFails ∧ r = Err apiUnreachable ∧ k' = k1 ∨ o ≠ CallFails) as [(->&->&->)|Ho]
    by (destruct o; [by right|left; by unfold throw in Hrun; simplify_eq|by right]).
  { left. eauto. }
  assert ((k2 ← reads id;
      match k_store k2 !! pvs_Name p with
      | None => throw apiNotFound
      | Some cur =>
          if negb (pvs_ResourceVersion cur =? pvs_ResourceVersion p) then throw apiConflict
          else modify (λ k, commit_update k (pvs_Name p) cur (committed merge cur p k2)) ;;
               api_answer o (committed merge cur p k2)
      end) k1 = (r, k')) as Hrun' by (destruct o; [exact Hrun|done|exact Hrun]).
  clear Hrun. rewrite (M_bind_Ok _ _ _ k1 k1) in Hrun' by done.
  destruct (k_store k1 !! pvs_Name p) as [cur|] eqn:Ecur; [|unfold throw in Hrun'; simplify_eq; left; eauto].
  destruct (pvs_ResourceVersion cur =? pvs_ResourceVersion p) eqn:Erv;
    [|unfold throw in Hrun'; simplify_eq/=; left; eauto].
  apply Z.eqb_eq in Erv. right. exists k1, cur.
  cbn in Hrun'. unfold mbind, M_bind, modify, api_answer in Hrun'. cbv beta iota in Hrun'.
  unfold mret, M_ret, throw in Hrun'. destruct o; [|done|]; simplify_eq; split_and!; auto.
Qed.

(** ** The update loop *)

Context (driverName : string).

(** [mutate] changes nothing but the status. *)
Class StatusMutation {X} (mutate : PillarVolumeState → mutation X) : Prop :=
  status_mutation cur p x : mutate cur = Change p x → p = set_Status cur (Status p).

(** What an update accepts to work on: the pinned lifecycle, of this
    driver. *)
Definition pinned (uid : string) (p : PillarVolumeState) : Prop :=
  (uid = "" ∨ pvs_UID p = uid) ∧ validateVolumeStateForUpdate driverName p = Ok tt.

Definition bumped (bump : bool) (p : PillarVolumeState) : PillarVolumeState :=
  if bump then bumpGeneration p else p.

(** The object an update of status commits over [cur]. *)
Definition status_commit (bump : bool) (cur p : PillarVolumeState) (k : kube) : PillarVolumeState :=
  set_meta (set_Status cur (Status (bumped bump p))) (pvs_Name cur) (pvs_UID cur) (k_revision k + 1).

Section Update.
Context {X : Type} (pvName uid : string) (bump : bool) (mutate : PillarVolumeState → mutation X).

(** How an update ends: without a commit, with an error, without the object,
    or on an object [mutate] leaves alone; or with one commit, over the object
    stored at that moment, whose answer may be lost. *)
Inductive update_outcome (k : kube) : GoResult (option PillarVolumeState * X) → kube → Prop :=
| uo_error e k' : quiet k k' → update_outcome k (Err e) k'
| uo_missing x k' : quiet k k' → uid = "" → update_outcome k (Ok (None, x)) k'
| uo_unchanged cur p x k' :
    quiet k k' → k_store k' !! pvName = Some cur → pinned uid cur → mutate cur = NoChange p x →
    update_outcome k (Ok (Some p, x)) k'
| uo_committed cur p x k1 r :
    quiet k k1 → k_store k1 !! pvName = Some cur → pinned uid cur → mutate cur = Change p x →
    (r = Ok (Some (status_commit bump cur p k1), x) ∨ ∃ e, r = Err e ∧ ∀ msg, e ≠ EConflict msg) →
    update_outcome k r (commit_update k1 pvName cur (status_commit bump cur p k1)).

(** The result of code run with the captured variable. *)
Definition with_result {A} (r : GoResult A) (x : X) : GoResult (A * X) :=
  match r with Ok a => Ok (a, x) | Err e => Err e end.

Lemma update_outcome_trans k k1 r k' :
  quiet k k1 → update_outcome k1 r k' → update_outcome k r k'.
Proof.
  intros Hq [e k2 H|x k2 H|cur p x k2 H|cur p x k2 r' H]; econstructor; eauto; by etrans.
Qed.

Lemma status_commit_committed `{!StatusMutation mutate} cur p x k :
  mutate cur = Change p x →
  committed merge_status cur (bumped bump p) k = status_commit bump cur p k ∧
  pvs_Name (bumped bump p) = pvs_Name cur ∧
  pvs_ResourceVersion (bumped bump p) = pvs_ResourceVersion cur.
Proof. intros ->%status_mutation. by destruct bump. Qed.

Lemma on_api_run {A} (m : Controller A) k (x : X) :
  on_api m (k, x) = ((m k).1, ((m k).2, x)).
Proof. unfold on_api. by destruct (m k). Qed.

Lemma internal_read_spec k :
  wp (internal_read newUID pvName) (λ r k', quiet k k' ∧
    match r with Ok o => k_store k' !! pvName = o | Err e => ∃ c s, e = EStatus c s end) k.
Proof.
  unfold internal_read. apply wp_bind, wp_try. eapply wp_mono; [apply apiGet_spec|].
  intros [o|e] k' [Hq H]; [by apply wp_ret|apply wp_throw; eauto].
Qed.

Lemma updateVolumeStateAttempt_spec `{!StatusMutation mutate} k x0 :
  kube_wf k →
  wp (updateVolumeStateAttempt newUID driverName pvName uid bump mutate)
     (λ r kx, update_outcome k (with_result r kx.2) kx.1) (k, x0).
Proof.
  intros Hwf. apply wp_of_run. unfold updateVolumeStateAttempt. intros r [k' x'] Hrun. cbn.
  pose proof (internal_read_spec k) as Hr. unfold wp in Hr. unfold mbind at 1, M_bind at 1 in Hrun.
  rewrite on_api_run in Hrun. destruct (internal_read newUID pvName k) as [[o|e] k1].
  2: { cbn in Hrun. simplify_eq. cbn. constructor. apply Hr. }
  cbn [fst snd] in Hr, Hrun. destruct Hr as [Hq Ho].
  assert (∀ x, lift (handleMissingVolumeState uid) (k1, x) = (r, (k', x')) →
    update_outcome k (with_result r x') k') as Hmiss.
  { intros x. unfold handleMissingVolumeState, lift. case_decide; intros; simplify_eq; by constructor. }
  destruct o as [pvs|]; [|by apply (Hmiss x0)].
  destruct (bool_decide (uid ≠ "") && negb (bool_decide (pvs_UID pvs = uid))) eqn:Epin;
    [by apply (Hmiss x0)|].
  assert (uid = "" ∨ pvs_UID pvs = uid) as Hpin.
  { apply andb_false_iff in Epin as [E|E]; [left|right].
    - apply bool_decide_eq_false in E. by apply dec_stable.
    - apply negb_false_iff in E. by apply bool_decide_eq_true in E. }
  unfold mbind at 1, M_bind at 1, lift in Hrun.
  destruct (validateVolumeStateForUpdate driverName pvs) as [[]|e] eqn:Eval;
    [|simplify_eq; by constructor].
  destruct (mutate pvs) as [p x|p x|e] eqn:Em.
  - unfold mbind, M_bind, assign, modify, mret, M_ret in Hrun. rewrite on_api_run in Hrun.
    pose proof (apiUpdateWith_spec merge_status (bumped bump p) k1) as Hu.
    unfold wp in Hu. fold (bumped bump p) in Hrun. unfold apiStatusUpdate in Hrun.
    destruct (apiUpdateWith newUID merge_status (bumped bump p) k1) as [ru k2]. cbn [fst snd] in Hu, Hrun.
    destruct Hu as [[Hq2 [e ->]]|(k3&cur&Hq3&Hcur&Hrv&->&Hres)].
    { simplify_eq/=. constructor. by etrans. }
    destruct (status_commit_committed pvs p x k3 Em) as (Hc&Hn&Hv).
    destruct (quiet_facts k k1 Hwf Hq) as (Hwf1&_&_). destruct (Hwf1 _ _ Ho) as [Hname _].
    rewrite Hn, Hname in Hcur. rewrite Hv in Hrv. rewrite Hn, Hname in Hrun.
    assert (cur = pvs) as -> by eauto using compare_and_swap.
    rewrite Hc in Hrun, Hres.
    destruct Hres as [-> | ->]; cbn in Hrun; simplify_eq; cbn;
      (eapply uo_committed; [by etrans|done|by split|done|]); [by left|right; by eexists].
  - unfold mbind, M_bind, assign, modify, mret, M_ret in Hrun. simplify_eq. cbn.
    eapply uo_unchanged; eauto. by split.
  - unfold throw in Hrun. simplify_eq. by constructor.
Qed.

Lemma RetryOnConflict_spec `{!StatusMutation mutate} steps k x0 :
  kube_wf k →
  wp (RetryOnConflict steps (updateVolumeStateAttempt newUID driverName pvName uid bump mutate))
     (λ r kx, update_outcome k (with_result r kx.2) kx.1) (k, x0).
Proof.
  revert k x0. induction steps as [|[|steps] IH]; intros k x0 Hwf;
    [by apply updateVolumeStateAttempt_spec|by apply updateVolumeStateAttempt_spec|].
  change (wp (r ← try (updateVolumeStateAttempt newUID driverName pvName uid bump mutate);
    match r with
    | Ok a => mret a
    | Err (EConflict _) => RetryOnConflict (S steps) (updateVolumeStateAttempt newUID driverName pvName uid bump mutate)
    | Err e => throw e
    end) (λ r kx, update_outcome k (with_result r kx.2) kx.1) (k, x0)).
  apply wp_bind, wp_try.
  eapply wp_mono; [by apply updateVolumeStateAttempt_spec|].
  intros [o|e] [k' x'] H; [by apply wp_ret|].
  cbn in H. destruct e; try (by apply wp_throw).
  inversion H as [e k2 Hq| | |cur p x k2 r Hq Hcur Hp Hm [?|(e&He&Hne)]]; simplify_eq; [|by destruct (Hne msg)].
  eapply wp_mono; [apply IH, (quiet_facts k k' Hwf Hq)|].
  intros r [k3 x3] H3. by eapply update_outcome_trans.
Qed.

Lemma updateVolumeState_spec `{!StatusMutation mutate} k x0 :
  kube_wf k →
  wp (updateVolumeState newUID driverName pvName uid bump x0 mutate) (update_outcome k) k.
Proof.
  intros Hwf. apply wp_of_run. intros r k' Hrun.
  pose proof (RetryOnConflict_spec DefaultRetrySteps k x0 Hwf) as H. unfold wp in H.
  unfold updateVolumeState, record_errors, with_var, try, mbind, M_bind, mret, M_ret, throw in Hrun.
  destruct (RetryOnConflict _ _ (k, x0)) as [[o|e] [k1 x1]]; cbn in H, Hrun; simplify_eq; [done|].
  inversion H; simplify_eq; [by constructor|].
  eapply uo_committed; eauto. right. eexists. split; [done|].
  unfold publicationRecordError. destruct e; cbn; done.
Qed.

End Update.
End Kube.
