(* ===== verification/Lifecycle.v ===== *)
(** * The publication protocol of the volume record

    What every write of the controller keeps: the invariant of a record
    ([record_ok]), the step a write may take ([lifecycle_step]), and that the
    whole store, written by this controller and by others that follow the same
    protocol, moves by such steps only ([kstep]). *)
From stdpp Require Import base numbers list strings gmap.
From S2P Require Import Prelude GoStd FencingMark PillarVolumeState VolumeFencing KubeCorrect.
Open Scope Z_scope.

Abbreviation gen p := (PublicationGeneration (Status p)).
Abbreviation nodes p := (PublishedNodes (Status p)).

(** A publication in a SINGLE_NODE_* mode shares the volume with nobody. *)
Definition exclusive (a : VolumePublication) : Prop :=
  AccessMode a ≠ MULTI_NODE_READER_ONLY ∧ AccessMode a ≠ MULTI_NODE_SINGLE_WRITER ∧
  AccessMode a ≠ MULTI_NODE_MULTI_WRITER.

Record record_ok (p : PillarVolumeState) : Prop := {
  ok_nodup : NoDup (NodeID <$> nodes p);
  ok_share a b : a ∈ nodes p → b ∈ nodes p → NodeID a ≠ NodeID b → canSharePublication a b = true;
  ok_deleting : Deleting (Status p) = true → nodes p = [];
  ok_local a : a ∈ nodes p → Local a = true → SpecFilesystemAdoption (Spec p) = None → exclusive a →
    LocalAttachNode (Status p) = NodeID a;
}.

(** The part of the status agents are told about. *)
Definition publicationPart (p : PillarVolumeState) : list VolumePublication * string * bool :=
  (nodes p, LocalAttachNode (Status p), Deleting (Status p)).

Record lifecycle_step (cur new : PillarVolumeState) : Prop := {
  ls_gen : (gen new = gen cur ∧ publicationPart new = publicationPart cur) ∨ gen new = int64_succ (gen cur);
  ls_deleting : Deleting (Status cur) = true → Deleting (Status new) = true;
  ls_ok : record_ok cur → record_ok new;
}.

Lemma lifecycle_step_meta cur new name uid rv :
  lifecycle_step cur new → lifecycle_step cur (set_meta new name uid rv).
Proof. intros [H1 H2 H3]. split; [exact H1|exact H2|]. intros Hok. destruct (H3 Hok) as [???]; split; assumption. Qed.

Lemma exclusive_canShare a b : exclusive a → canSharePublication a b = false.
Proof.
  intros (H1&H2&H3). unfold canSharePublication. case_decide; [done|].
  rewrite !bool_decide_eq_false_2 by done. done.
Qed.

Lemma canSharePublication_sym a b : canSharePublication a b = canSharePublication b a.
Proof.
  unfold canSharePublication. destruct (decide (AccessMode a = AccessMode b)) as [E|E].
  - rewrite E, !decide_False by auto. rewrite orb_comm with (b1 := Readonly a). done.
  - rewrite !decide_True by auto. done.
Qed.

(** ** Steps of the store *)
Section Steps.
Context (newUID : Z → string).

(** Other writers follow the protocol. *)
Definition env_ok (e : env_write) : Prop := ∀ cur,
  match cur, ew_write e cur with
  | Some c, Some p => lifecycle_step c p
  | None, Some p => Status p = emptyStatus
  | _, None => True
  end.
Definition rely (k : kube) : Prop := Forall (λ c, Forall env_ok (ac_before c)) (k_calls k).

Inductive kstep (k : kube) : kube → Prop :=
| ks_served cs : cs `suffix_of` k_calls k → kstep k (set_calls k cs)
| ks_env e : env_ok e → kstep k (env_apply newUID k e)
| ks_update n cur new :
    k_store k !! n = Some cur → pvs_Name new = n → pvs_UID new = pvs_UID cur →
    pvs_ResourceVersion new = k_revision k + 1 → lifecycle_step cur new →
    kstep k (commit_update k n cur new)
| ks_create n new :
    k_store k !! n = None → pvs_Name new = n → pvs_UID new = newUID (k_revision k + 1) →
    pvs_ResourceVersion new = k_revision k + 1 → Status new = emptyStatus →
    kstep k (next_revision k (<[n := new]> (k_store k)) [CCreate new])
| ks_delete n cur :
    k_store k !! n = Some cur →
    kstep k (next_revision k (delete n (k_store k)) [CDelete cur]).

Definition ksteps : relation kube := rtc kstep.

(** What a step does to the objects: nothing, or one object is removed,
    updated or created, at the next revision. *)
Inductive object_step (rev : Z) : option PillarVolumeState → option PillarVolumeState → Prop :=
| os_removed cur : object_step rev cur None
| os_updated cur new :
    pvs_Name new = pvs_Name cur → pvs_UID new = pvs_UID cur → pvs_ResourceVersion new = rev →
    lifecycle_step cur new → object_step rev (Some cur) (Some new)
| os_created new :
    pvs_UID new = newUID rev → pvs_ResourceVersion new = rev → Status new = emptyStatus →
    object_step rev None (Some new).

Lemma kstep_object k k' :
  kube_wf k → kstep k k' →
  (k_revision k' = k_revision k ∧ k_store k' = k_store k) ∨
  (k_revision k' = k_revision k + 1 ∧ ∃ m,
     object_step (k_revision k + 1) (k_store k !! m) (k_store k' !! m) ∧
     (∀ p, k_store k' !! m = Some p → pvs_Name p = m) ∧
     ∀ n, n ≠ m → k_store k' !! n = k_store k !! n).
Proof.
  intros Hwf [cs Hcs|e He|n cur new Hcur Hn Hu Hrv Hst|n new Hnone Hn Hu Hrv Hst|n cur Hcur]; [by left| | | |].
  - unfold env_apply. specialize (He (k_store k !! ew_name e)).
    destruct (k_store k !! ew_name e) as [c|] eqn:Ec; destruct (ew_write e _) as [p|] eqn:Ep; [| | |by left];
      right; (split; [done|]); exists (ew_name e); cbn;
      [rewrite lookup_insert_eq|rewrite lookup_delete_eq|rewrite lookup_insert_eq];
      (split_and!; [|naive_solver|intros; by simplify_map_eq]).
    + rewrite Ec. constructor; cbn; [by symmetry; apply Hwf|done..|by apply lifecycle_step_meta].
    + constructor.
    + rewrite Ec. by constructor.
  - right. split; [done|]. exists n. cbn. rewrite lookup_insert_eq.
    split_and!; [rewrite Hcur; constructor; try done; rewrite Hn; by symmetry; apply Hwf|naive_solver|intros; by simplify_map_eq].
  - right. split; [done|]. exists n. cbn. rewrite lookup_insert_eq.
    split_and!; [rewrite Hnone; by constructor|naive_solver|intros; by simplify_map_eq].
  - right. split; [done|]. exists n. cbn. rewrite lookup_delete_eq.
    split_and!; [constructor|done|intros; by simplify_map_eq].
Qed.

Lemma kstep_wf k k' : kube_wf k → kstep k k' → kube_wf k'.
Proof.
  intros Hwf Hs. destruct (kstep_object k k' Hwf Hs) as [[Hr Hs']|(Hr&m&Ho&Hm&Hoth)]; intros n p Hp.
  - rewrite Hr. rewrite Hs' in Hp. by apply Hwf.
  - rewrite Hr. destruct (decide (n = m)) as [->|Hne].
    + split; [by apply Hm|]. rewrite Hp in Ho. inversion Ho; subst; lia.
    + rewrite Hoth in Hp by done. destruct (Hwf _ _ Hp). split; [done|lia].
Qed.

Lemma env_apply_calls k e : k_calls (env_apply newUID k e) = k_calls k.
Proof. unfold env_apply. by destruct (k_store k !! ew_name e); destruct (ew_write e _). Qed.

Lemma kstep_rely k k' : rely k → kstep k k' → rely k'.
Proof.
  intros Hr [cs [l Hcs]|e He| | |]; try exact Hr.
  - unfold rely in *. rewrite Hcs in Hr. by apply Forall_app in Hr as [_ Hr].
  - unfold rely. by rewrite env_apply_calls.
Qed.

Lemma ksteps_keep k k' : kube_wf k → rely k → ksteps k k' → kube_wf k' ∧ rely k'.
Proof. intros Hwf Hr H. induction H; eauto using kstep_wf, kstep_rely. Qed.

Lemma quiet_ksteps k k' : rely k → quiet newUID k k' → ksteps k k'.
Proof.
  intros Hr H. induction H as [|k1 k2 k3 [c cs Hc] _ IH]; [done|].
  unfold rely in Hr. rewrite Hc in Hr. apply Forall_cons in Hr as [Hc' Hcs].
  assert (ksteps k1 (foldl (env_apply newUID) (set_calls k1 cs) (ac_before c)) ∧
    k_calls (foldl (env_apply newUID) (set_calls k1 cs) (ac_before c)) = cs) as [H1 H2].
  { assert (ksteps k1 (set_calls k1 cs)) as H1.
    { apply rtc_once, ks_served. rewrite Hc. by exists [c]. }
    assert (k_calls (set_calls k1 cs) = cs) as H2 by done.
    clear IH. revert H1 H2. generalize (set_calls k1 cs). induction Hc' as [|e es He _ IHe]; intros k H1 H2; [done|].
    apply (IHe (env_apply newUID k e)); [|by rewrite env_apply_calls].
    etrans; [exact H1|]. by apply rtc_once, ks_env. }
  etrans; [exact H1|]. apply IH. unfold rely. by rewrite H2.
Qed.

(** ** The invariant of the store

    Generations stay below the resource versions, which bounds them as long as
    the revision counter of the server itself does not overflow. *)
Record object_ok (p : PillarVolumeState) : Prop := {
  obj_record : record_ok p;
  obj_gen : 0 ≤ gen p ≤ pvs_ResourceVersion p;
  obj_uid : ∃ r, r ≤ pvs_ResourceVersion p ∧ pvs_UID p = newUID r;
}.

Record kube_inv (k : kube) : Prop := {
  inv_wf : kube_wf k;
  inv_rely : rely k;
  inv_revision : 0 ≤ k_revision k;
  inv_objects n p : k_store k !! n = Some p → object_ok p;
}.

Definition maxRevision : Z := 2 ^ 63 - 1.

Lemma record_ok_empty p : Status p = emptyStatus → record_ok p.
Proof. intros E. split; rewrite E; cbn; [constructor|intros ??[]%elem_of_nil|done|intros ?[]%elem_of_nil]. Qed.

Lemma int64_succ_small g : 0 ≤ g < maxRevision → int64_succ g = g + 1.
Proof. unfold int64_succ, maxRevision. intros. destruct (Z.eqb_spec g (2 ^ 63 - 1)); lia. Qed.

Lemma object_step_ok rev cur new :
  object_step rev cur (Some new) → 0 ≤ rev ≤ maxRevision →
  (∀ c, cur = Some c → object_ok c ∧ pvs_ResourceVersion c < rev) → object_ok new.
Proof.
  intros Hs Hrev Hcur. inversion Hs as [|c ? Hn Hu Hrv Hl|? Hu Hrv Hst]; subst.
  - destruct (Hcur c eq_refl) as [[Hrec Hg (r&Hr&Hur)] Hlt]. destruct Hl as [Hgen _ Hok].
    split; [by apply Hok| |exists r; split; [lia|congruence]].
    destruct Hgen as [[-> _]| ->]; [lia|]. rewrite int64_succ_small; lia.
  - split; [by apply record_ok_empty|rewrite Hst; cbn; lia|eexists; split; [|exact Hu]; lia].
Qed.

Lemma kstep_revision k k' : kube_wf k → kstep k k' → k_revision k ≤ k_revision k'.
Proof. intros Hwf Hs. destruct (kstep_object k k' Hwf Hs) as [[? _]|[? _]]; lia. Qed.

Lemma ksteps_revision k k' : kube_wf k → ksteps k k' → k_revision k ≤ k_revision k'.
Proof.
  intros Hwf H. induction H as [|k1 k2 k3 H12 _ IH]; [lia|].
  pose proof (kstep_revision _ _ Hwf H12). specialize (IH (kstep_wf _ _ Hwf H12)). lia.
Qed.

Lemma kstep_inv k k' : kube_inv k → kstep k k' → k_revision k' ≤ maxRevision → kube_inv k'.
Proof.
  intros [Hwf Hr Hrev Hobj] Hs Hmax.
  split; [by eapply kstep_wf|by eapply kstep_rely|pose proof (kstep_revision _ _ Hwf Hs); lia|].
  destruct (kstep_object k k' Hwf Hs) as [[_ Hst]|(Hr'&m&Ho&_&Hoth)]; intros n p Hp.
  - rewrite Hst in Hp. eauto.
  - destruct (decide (n = m)) as [->|Hne]; [|rewrite Hoth in Hp by done; eauto].
    rewrite Hp in Ho. eapply object_step_ok; [exact Ho|lia|].
    intros c Hc. split; [eauto|]. destruct (Hwf _ _ Hc). lia.
Qed.

Lemma ksteps_inv k k' : kube_inv k → ksteps k k' → k_revision k' ≤ maxRevision → kube_inv k'.
Proof.
  intros Hinv H Hmax. induction H as [|k1 k2 k3 H12 H23 IH]; [done|].
  apply IH; [|done]. eapply kstep_inv; [done..|].
  pose proof (ksteps_revision k2 k3 (kstep_wf _ _ (inv_wf _ Hinv) H12) H23). lia.
Qed.

(** ** One lifecycle over time *)

(** A later state of the lifecycle: the generation never decreases, and while
    it stands still the publications, the local attach and the deletion mark
    do not change. *)
Record life_le (c p : PillarVolumeState) : Prop := {
  ll_gen : gen c ≤ gen p;
  ll_same : gen c = gen p → publicationPart p = publicationPart c;
  ll_deleting : Deleting (Status c) = true → Deleting (Status p) = true;
}.

#[export] Instance life_le_preorder : PreOrder life_le.
Proof.
  split; [done|]. intros a b c [H1 H2 H3] [H4 H5 H6]. split; [lia| |auto].
  intros E. rewrite H5, H2 by lia. done.
Qed.

Lemma lifecycle_step_le c p :
  lifecycle_step c p → 0 ≤ gen c < maxRevision → life_le c p.
Proof.
  intros [[[Hg Hp]|Hg] Hd _] Hb; [by split; [lia|auto|auto]|].
  rewrite int64_succ_small in Hg by done. split; [lia|lia|done].
Qed.

(** Of two states of the store, objects of one name and UID are two states of
    one lifecycle: UIDs are never reused. *)
Lemma ksteps_life `{!Inj eq eq newUID} k k' n c p :
  kube_inv k → ksteps k k' → k_revision k' ≤ maxRevision →
  k_store k !! n = Some c → k_store k' !! n = Some p → pvs_UID p = pvs_UID c → life_le c p.
Proof.
  intros Hinv Hk Hmax Hc.
  destruct (obj_uid _ (inv_objects _ Hinv _ _ Hc)) as (r0&Hr0&Hu0). destruct (inv_wf _ Hinv _ _ Hc) as [_ Hrv].
  revert Hmax p. revert k' Hk.
  refine (rtc_ind_r (λ k', k_revision k' ≤ maxRevision → ∀ p, _ → _ → _) k _ _);
    [intros _ p Hp Hu; by simplify_eq|intros k1 k2 H01 H12 IH Hmax p Hp Hu].
  pose proof (ksteps_keep k k1 (inv_wf _ Hinv) (inv_rely _ Hinv) H01) as [Hwf1 _].
  pose proof (kstep_revision _ _ Hwf1 H12). pose proof (ksteps_revision k k1 (inv_wf _ Hinv) H01).
  assert (kube_inv k1) as Hinv1 by (eapply ksteps_inv; eauto; lia).
  destruct (kstep_object k1 k2 Hwf1 H12) as [[_ Hst]|(Hr'&m&Ho&_&Hoth)].
  { rewrite Hst in Hp. apply IH; [lia|done..]. }
  destruct (decide (n = m)) as [->|Hne]; [|rewrite Hoth in Hp by done; apply IH; [lia|done..]].
  rewrite Hp in Ho. inversion Ho as [|cur ? Hn Hu1 Hrv1 Hl Hcur|? Hu1 Hrv1 Hst Hcur]; subst.
  - symmetry in Hcur. assert (life_le c cur) by (apply IH; [lia|done|congruence]).
    assert (life_le cur p); [|by etrans]. apply lifecycle_step_le; [done|].
    destruct (inv_objects _ Hinv1 _ _ Hcur) as [_ Hg _]. destruct (Hwf1 _ _ Hcur). lia.
  - rewrite Hu, Hu0 in Hu1. apply (inj newUID) in Hu1. lia.
Qed.
End Steps.
