(* ===== verification/VolumeFencingCorrect.v ===== *)
(** * The volume record operations follow the publication protocol

    Each [mutate] callback takes a [lifecycle_step], so every operation of
    volume_fencing.go moves the store by [kstep]s; the theorems at the end
    follow from the protocol. *)
From stdpp Require Import base numbers list strings gmap.
From S2P Require Import Prelude GoStd FencingMark PillarVolumeState VolumeFencing KubeCorrect Lifecycle.
Open Scope Z_scope.

(** A callback that changes the status only, by a step of the protocol. *)
Class ProtocolMutation {X} (bump : bool) (mutate : PillarVolumeState → mutation X) : Prop := {
  pm_status :: StatusMutation mutate;
  pm_step cur p x : mutate cur = Change p x → lifecycle_step cur (bumped bump p);
}.

(** *** Steps *)

Lemma step_bump cur new :
  (Deleting (Status cur) = true → Deleting (Status new) = true) →
  gen new = gen cur → (record_ok cur → record_ok new) → lifecycle_step cur (bumped true new).
Proof.
  intros Hd Hg Hok. split; cbn; [right; by rewrite Hg|done|].
  intros H. destruct (Hok H) as [???]. split; assumption.
Qed.

(** A status change outside the publication part needs no new generation. *)
Lemma step_provision cur st :
  PublishedNodes st = nodes cur → LocalAttachNode st = LocalAttachNode (Status cur) →
  PublicationGeneration st = gen cur → Deleting st = Deleting (Status cur) →
  lifecycle_step cur (set_Status cur st).
Proof.
  intros H1 H2 H3 H4. split; cbn; [left; split; [done|]|congruence|].
  - unfold publicationPart. cbn. congruence.
  - intros [K1 K2 K3 K4]. split; cbn; rewrite ?H1, ?H2, ?H4; assumption.
Qed.

(** Records shrink, and records are marked revoking. *)
Definition same_grant (a b : VolumePublication) : Prop :=
  NodeID a = NodeID b ∧ AccessMode a = AccessMode b ∧ Readonly a = Readonly b ∧ Local a = Local b.

Lemma record_ok_sub cur l :
  record_ok cur → NoDup (NodeID <$> l) →
  (∀ a, a ∈ l → ∃ b, b ∈ nodes cur ∧ same_grant a b) →
  record_ok (set_PublishedNodes cur l).
Proof.
  intros [H1 H2 H3 H4] Hnd Hsub. split; cbn.
  - done.
  - intros a b Ha Hb Hne. destruct (Hsub a Ha) as (a'&Ha'&Ea1&Ea2&Ea3&_), (Hsub b Hb) as (b'&Hb'&Eb1&Eb2&Eb3&_).
    specialize (H2 a' b' Ha' Hb'). unfold canSharePublication in *.
    rewrite Ea2, Eb2, Ea3, Eb3. apply H2. congruence.
  - intros Hd. rewrite (H3 Hd) in Hsub. destruct l as [|a l]; [done|].
    destruct (Hsub a (list_elem_of_here _ _)) as (b&[]%elem_of_nil&_).
  - intros a Ha Hl Hfs Hex. destruct (Hsub a Ha) as (a'&Ha'&E1&E2&_&E4).
    rewrite E1. apply (H4 a' Ha'); [congruence|done|]. unfold exclusive in *. by rewrite <- E2.
Qed.

Lemma same_grant_refl a : same_grant a a.
Proof. done. Qed.
Lemma same_grant_revoking a : same_grant (set_Revoking a) a.
Proof. done. Qed.

(** *** The callbacks *)

Ltac pm_split :=
  let cur := fresh "cur" in let p := fresh "p" in let x := fresh "x" in let H := fresh "H" in
  split; [intros cur p x H|intros cur p x H].

#[export] Instance claim_pm : ProtocolMutation true claim_mutation.
Proof.
  pm_split; unfold claim_mutation, refuseDeleting in H; destruct (Deleting _) eqn:E; simplify_eq.
  - by destruct p.
  - by apply step_bump.
Qed.

Lemma scanPublications_false pub l :
  scanPublications pub l = Ok false →
  ∀ cur, cur ∈ l → NodeID cur ≠ NodeID pub ∧ canSharePublication cur pub = true.
Proof.
  induction l as [|q l IH]; cbn; intros H cur; [by intros []%elem_of_nil|].
  destruct (checkPublicationConflict q pub) eqn:E; [done|]. case_decide as Eq; [done|].
  intros [->|Hin]%elem_of_cons; [|by apply IH].
  unfold checkPublicationConflict in E. case_decide as En.
  - destruct (canSharePublication q pub) eqn:Es; [done|done].
  - destruct (Revoking q); [done|]. rewrite decide_False in E by done.
    destruct (negb _); [done|]. by case_decide.
Qed.

Lemma scanPublications_true pub l :
  scanPublications pub l = Ok true →
  pub ∈ l ∧ Revoking pub = false.
Proof.
  induction l as [|q l IH]; cbn; intros H; [done|].
  destruct (checkPublicationConflict q pub) eqn:E; [done|]. case_decide as Eq.
  - subst q. split; [apply list_elem_of_here|].
    unfold checkPublicationConflict in E. rewrite decide_False in E by auto. by destruct (Revoking pub).
  - destruct (IH H). split; [by apply list_elem_of_further|done].
Qed.

Lemma same_node p a b :
  record_ok p → a ∈ nodes p → b ∈ nodes p → NodeID a = NodeID b → a = b.
Proof.
  intros Hok Ha Hb E. apply list_elem_of_lookup in Ha as [i Hi], Hb as [j Hj].
  assert (i = j) as ->; [|congruence].
  eapply NoDup_lookup; [apply (ok_nodup _ Hok)|rewrite list_lookup_fmap, Hi; done|].
  rewrite list_lookup_fmap, Hj. cbn. by rewrite E.
Qed.

(** The exclusive publications of a record are alone. *)
Lemma exclusive_alone p a b :
  record_ok p → a ∈ nodes p → b ∈ nodes p → exclusive a → a = b.
Proof.
  intros Hok Ha Hb Hex. destruct (decide (NodeID a = NodeID b)) as [E|E].
  - by apply (same_node p).
  - pose proof (ok_share _ Hok a b Ha Hb E) as Hs. by rewrite exclusive_canShare in Hs.
Qed.

Lemma record_ok_local cur pub :
  record_ok cur → pub ∈ nodes cur → Local pub = true → SpecFilesystemAdoption (Spec cur) = None →
  record_ok (set_LocalAttachNode cur (NodeID pub)).
Proof.
  intros Hok Hin Hl Hfs. pose proof Hok as [H1 H2 H3 H4]. split; cbn; try done.
  intros a Ha _ _ Hex. by rewrite (exclusive_alone cur a pub).
Qed.

Lemma record_ok_append cur pub node :
  record_ok cur → Deleting (Status cur) = false →
  (∀ q, q ∈ nodes cur → NodeID q ≠ NodeID pub ∧ canSharePublication q pub = true) →
  node = (if Local pub && bool_decide (SpecFilesystemAdoption (Spec cur) = None)
          then NodeID pub else LocalAttachNode (Status cur)) →
  record_ok (set_PublishedNodes (set_LocalAttachNode cur node) (nodes cur ++ [pub])).
Proof.
  intros [H1 H2 H3 H4] Hd Hc ->. split; cbn.
  - rewrite fmap_app. apply NoDup_app. split_and!; [done| |apply NoDup_singleton].
    intros n (q&->&Hq)%list_elem_of_fmap Hs%list_elem_of_singleton. by destruct (Hc q Hq).
  - intros a b Ha Hb Hne. apply elem_of_app in Ha as [Ha|Ha], Hb as [Hb|Hb]; rewrite ?list_elem_of_singleton in *;
      subst; [by apply H2|..].
    + by apply Hc.
    + rewrite canSharePublication_sym. by apply Hc.
    + done.
  - rewrite Hd. done.
  - intros a Ha Hl Hfs Hex. apply elem_of_app in Ha as [Ha|Ha]; rewrite ?list_elem_of_singleton in *; subst.
    + destruct (Hc a Ha) as [_ Hs]. by rewrite exclusive_canShare in Hs.
    + rewrite Hl, bool_decide_eq_true_2 by done. done.
Qed.

#[export] Instance reserve_pm pub : ProtocolMutation true (reserve_mutation pub).
Proof.
  assert (∀ cur p x, reserve_mutation pub cur = Change p x →
    Deleting (Status cur) = false ∧ p = set_Status cur (Status p) ∧ gen p = gen cur ∧
    Deleting (Status p) = Deleting (Status cur) ∧ (record_ok cur → record_ok p)) as Hres.
  { intros cur p x. unfold reserve_mutation, refuseDeleting. destruct (Deleting _) eqn:Ed; [done|].
    set (lc := Local pub && _). intros H.
    assert (nodes (if lc then set_LocalAttachNode cur (NodeID pub) else cur) = nodes cur) as Hn by by destruct lc.
    rewrite Hn in H. destruct (scanPublications pub (nodes cur)) as [[]|e] eqn:Es; simplify_eq.
    - apply scanPublications_true in Es as [Hin _]. split_and!; try by destruct lc; destruct cur.
      intros Hok. destruct lc eqn:Elc; [|done]. apply andb_true_iff in Elc as [Hl Hfs%bool_decide_eq_true].
      by apply record_ok_local.
    - pose proof (scanPublications_false _ _ Es) as Hc. split_and!; try by destruct lc; destruct cur.
      intros Hok. pose proof (record_ok_append cur pub _ Hok Ed Hc eq_refl) as Hr.
      fold lc in Hr. destruct lc; destruct cur as [???? []]; exact Hr. }
  pm_split; apply Hres in H as (Hd&Hp&Hg&Hd'&Hok); [done|apply step_bump; [congruence|done|done]].
Qed.

#[export] Instance clear_pm node : ProtocolMutation true (clear_mutation node).
Proof.
  pm_split; unfold clear_mutation in H; case_decide; try done; destruct (existsb Local (nodes cur)) eqn:El; simplify_eq.
  - done.
  - apply step_bump; [done|done|]. intros [H1 H2 H3 H4]. split; cbn; try done.
    intros a Ha Hl _ _. exfalso. assert (existsb Local (nodes cur) = true) as E; [|congruence].
    apply existsb_exists. exists a. by rewrite <- list_elem_of_In.
Qed.

Lemma revokeFirst_spec expected l :
  NodeID <$> (revokeFirst expected l).1 = NodeID <$> l ∧
  ∀ a, a ∈ (revokeFirst expected l).1 → ∃ b, b ∈ l ∧ same_grant a b.
Proof.
  induction l as [|q l [IH1 IH2]]; cbn; [split; [done|by intros ?[]%elem_of_nil]|].
  case_decide.
  - cbn. split; [done|]. intros a [->|Ha]%elem_of_cons.
    + exists q. split; [apply list_elem_of_here|apply same_grant_revoking].
    + exists a. split; [by apply list_elem_of_further|done].
  - destruct (revokeFirst expected l) as [l' f]. cbn in *. split; [by rewrite IH1|].
    intros a [->|Ha]%elem_of_cons; [exists q; split; [apply list_elem_of_here|done]|].
    destruct (IH2 a Ha) as (b&Hb&Hg). exists b. split; [by apply list_elem_of_further|done].
Qed.

#[export] Instance fence_one_pm expected : ProtocolMutation true (fence_one_mutation expected).
Proof.
  pm_split; unfold fence_one_mutation in H; destruct (revokeFirst_spec expected (nodes cur)) as [Hn Hs];
    destruct (revokeFirst expected (nodes cur)) as [l f]; simplify_eq/=; [done|].
  apply step_bump; [done|done|]. intros Hok. apply record_ok_sub; [done| |done].
  rewrite Hn. apply Hok.
Qed.

(** What [fencePublications] writes. *)
Definition revokeSelected (nodeID : string) (l : list VolumePublication) : list VolumePublication :=
  map (λ p, if selects nodeID p then set_Revoking p else p) l.

#[export] Instance fence_pm nodeID : ProtocolMutation true (fence_mutation nodeID).
Proof.
  pm_split; unfold fence_mutation in H; fold (revokeSelected nodeID (nodes cur)) in H;
    destruct (_ =? 0)%nat; simplify_eq; [done|].
  apply step_bump; [done|done|]. intros Hok. apply record_ok_sub; [done| |].
  - assert (NodeID <$> revokeSelected nodeID (nodes cur) = NodeID <$> nodes cur) as ->; [|apply Hok].
    unfold revokeSelected. induction (nodes cur) as [|q l IH]; [done|]. cbn. rewrite IH. by destruct (selects nodeID q).
  - intros a Ha. apply list_elem_of_In, in_map_iff in Ha as (b&<-&Hb). exists b. rewrite list_elem_of_In.
    by destruct (selects nodeID b).
Qed.

#[export] Instance release_pm ids fence : ProtocolMutation true (release_mutation ids fence).
Proof.
  assert (∀ cur p x, release_mutation ids fence cur = Change p x →
    p = set_PublishedNodes cur (List.filter (λ p, negb (containsb ids (NodeID p))) (nodes cur))) as Hr.
  { intros cur p x. unfold release_mutation.
    destruct fence as [f|]; [destruct (fenceToken (Some cur)); [destruct (negb _)|]|];
      try done; destruct (_ =? _)%nat; intros; by simplify_eq. }
  pm_split; apply Hr in H as ->; [done|]. apply step_bump; [done|done|]. intros Hok.
  apply record_ok_sub; [done| |].
  - pose proof (ok_nodup _ Hok) as Hnd. induction (nodes cur) as [|q l IH]; [done|]. cbn in *.
    apply NoDup_cons in Hnd as [Hq Hnd]. destruct (negb _); [|by apply IH]. cbn. apply NoDup_cons.
    split; [|by apply IH]. intros (b&Eb&Hb)%list_elem_of_fmap. apply Hq. apply list_elem_of_fmap. exists b. split; [done|].
    apply list_elem_of_In. apply list_elem_of_In, filter_In in Hb. tauto.
  - intros a Ha. exists a. split; [|done]. apply list_elem_of_In. apply list_elem_of_In, filter_In in Ha. tauto.
Qed.

#[export] Instance deleting_pm volumeID admission : ProtocolMutation true (markVolumeDeletingMutation volumeID admission).
Proof.
  assert (∀ cur p x, markVolumeDeletingMutation volumeID admission cur = Change p x →
    p = set_Deleting cur ∧ nodes cur = []) as Hr.
  { intros cur p x. unfold markVolumeDeletingMutation.
    destruct (foreignHandle cur volumeID); [done|]. destruct (refuseRecoveryPending cur); [|done].
    destruct (Deleting _); [done|]. destruct (nodes cur); [|done]. cbn.
    destruct (match admission with Some _ => _ | None => _ end); intros; by simplify_eq. }
  pm_split; apply Hr in H as [-> Hn]; [done|]. apply step_bump; [done|done|].
  intros [H1 H2 H3 H4]. by split.
Qed.

#[export] Instance provisioning_pm spec : ProtocolMutation false (provisioning_mutation spec).
Proof.
  pm_split; unfold provisioning_mutation in H; destruct (validateFilesystemRetrySpec _ _); try done;
    case_decide; simplify_eq; [done|]. by apply step_provision.
Qed.

#[export] Instance partial_pm dev xspec now : ProtocolMutation false (partial_mutation dev xspec now).
Proof. pm_split; unfold partial_mutation in H; simplify_eq; [done|by apply step_provision]. Qed.

#[export] Instance ready_pm info : ProtocolMutation false (ready_mutation info).
Proof.
  pm_split; unfold ready_mutation in H; destruct (Deleting _); try done; destruct info;
    [|destruct (_ || _); [done|]| |destruct (_ || _); [done|]]; simplify_eq; try done; by apply step_provision.
Qed.

(** ** Every operation follows the protocol *)
Section Follows.
Context (newUID : Z → string) (driverName : string).

(** However it ends, [m] moves the store by steps of the protocol. *)
Definition follows {A} (m : Controller A) : Prop :=
  ∀ k, kube_wf k → rely k → ksteps newUID k (m k).2.

Lemma follows_ret {A} (a : A) : follows (mret a).
Proof. by intros k _ _. Qed.
Lemma follows_throw {A} e : follows (throw (A := A) e).
Proof. by intros k _ _. Qed.
Lemma follows_lift {A} (r : GoResult A) : follows (lift r).
Proof. by intros k _ _. Qed.
Lemma follows_bind {A B} (m : Controller A) (f : A → Controller B) :
  follows m → (∀ a, follows (f a)) → follows (m ≫= f).
Proof.
  intros Hm Hf k Hwf Hr. specialize (Hm k Hwf Hr). unfold mbind, M_bind.
  destruct (m k) as [[a|e] k1]; [|exact Hm]. cbn in Hm.
  destruct (ksteps_keep newUID k k1 Hwf Hr Hm). etrans; [exact Hm|by apply Hf].
Qed.
Lemma follows_try {A} (m : Controller A) : follows m → follows (try m).
Proof. intros Hm k Hwf Hr. specialize (Hm k Hwf Hr). unfold try. by destruct (m k). Qed.
Lemma follows_retry {A} steps (f : Controller A) : follows f → follows (RetryOnConflict steps f).
Proof.
  intros Hf. induction steps as [|[|steps] IH]; [done..|].
  apply follows_bind; [by apply follows_try|].
  intros [a|[]]; first [apply follows_ret|apply follows_throw|exact IH].
Qed.

Lemma follows_read name : follows (internal_read newUID name).
Proof.
  intros k Hwf Hr. apply quiet_ksteps; [done|].
  pose proof (internal_read_spec newUID name k) as H. unfold wp in H. by destruct H.
Qed.

Lemma commit_update_step k n cur new :
  kube_wf k → k_store k !! n = Some cur → lifecycle_step cur new →
  pvs_Name new = pvs_Name cur → pvs_UID new = pvs_UID cur → pvs_ResourceVersion new = k_revision k + 1 →
  kstep newUID k (commit_update k n cur new).
Proof. intros Hwf Hcur Hl Hn Hu Hrv. destruct (Hwf _ _ Hcur). constructor; congruence || done. Qed.

Lemma status_commit_step {X} bump (mutate : PillarVolumeState → mutation X) `{!ProtocolMutation bump mutate} k cur p x :
  mutate cur = Change p x → lifecycle_step cur (status_commit bump cur p k).
Proof.
  intros Hm. pose proof (pm_step cur p x Hm) as Hs. apply (status_mutation cur p x) in Hm.
  unfold status_commit. apply lifecycle_step_meta.
  replace (set_Status cur (Status (bumped bump p))) with (bumped bump p); [done|].
  rewrite Hm. by destruct bump.
Qed.

Lemma update_ksteps {X} pvName uid bump (mutate : PillarVolumeState → mutation X) `{!ProtocolMutation bump mutate} k r k' :
  kube_wf k → rely k → update_outcome newUID driverName pvName uid bump mutate k r k' → ksteps newUID k k'.
Proof.
  intros Hwf Hr [e k1 Hq|x k1 Hq|cur p x k1 Hq|cur p x k1 r' Hq Hcur Hpin Hm _]; [by apply quiet_ksteps..|].
  etrans; [by apply quiet_ksteps|]. destruct (quiet_facts newUID _ _ Hwf Hq) as (Hwf1&_&_).
  apply rtc_once, commit_update_step; [done|done| |done..]. by eapply status_commit_step.
Qed.

Lemma follows_update {X} pvName uid bump (x0 : X) mutate `{!ProtocolMutation bump mutate} :
  follows (updateVolumeState newUID driverName pvName uid bump x0 mutate).
Proof.
  intros k Hwf Hr. eapply (update_ksteps pvName uid bump mutate k _ _ Hwf Hr).
  exact (updateVolumeState_spec newUID driverName pvName uid bump mutate k x0 Hwf).
Qed.

Lemma api_begin_follows : follows (api_begin newUID).
Proof.
  intros k Hwf Hr. destruct (api_begin_quiet newUID k) as (o&k1&->&Hq). by apply quiet_ksteps.
Qed.

Lemma follows_create name spec : follows (apiCreate newUID name spec).
Proof.
  apply follows_bind; [apply api_begin_follows|]. intros o k Hwf Hr.
  destruct o; [|done|]; unfold mbind, M_bind, reads; cbn -[lookup insert];
    (destruct (k_store k !! name) eqn:E; [done|]); by apply rtc_once, ks_create.
Qed.

Lemma follows_delete name uid : follows (apiDelete newUID name uid).
Proof.
  apply follows_bind; [apply api_begin_follows|]. intros o k Hwf Hr.
  destruct o; [|done|]; unfold mbind, M_bind, reads; cbn -[lookup delete];
    (destruct (k_store k !! name) eqn:E; [|done]); case_decide; try done; by apply rtc_once, ks_delete.
Qed.

(** The allocated capacity is outside the publication part. *)
Lemma follows_capacity p capacity k :
  kube_wf k → rely k → k_store k !! pvs_Name p = Some p →
  ksteps newUID k (apiUpdate newUID (set_CapacityBytes p capacity) k).2.
Proof.
  intros Hwf Hr Hp. pose proof (apiUpdateWith_spec newUID merge_spec (set_CapacityBytes p capacity) k) as H.
  unfold wp in H. fold (apiUpdate newUID) in H.
  destruct H as [[Hq _]|(k1&cur&Hq&Hcur&Hrv&->&_)]; [by apply quiet_ksteps|].
  cbn in Hcur, Hrv. assert (cur = p) as -> by eauto using compare_and_swap.
  destruct (quiet_facts newUID _ _ Hwf Hq) as (Hwf1&_&_).
  etrans; [by apply quiet_ksteps|]. apply rtc_once, commit_update_step; [done|done| |done..].
  apply lifecycle_step_meta. split; [left; done|done|]. intros [H1 H2 H3 H4]. by split.
Qed.
End Follows.

Create HintDb follows.
#[export] Hint Resolve follows_ret follows_throw follows_lift follows_read follows_create follows_delete : follows.
#[export] Hint Resolve follows_try follows_retry : follows.
#[export] Hint Extern 5 (follows _ (updateVolumeState _ _ _ _ _ _ _)) => (apply follows_update; apply _) : follows.

(** Walk through an operation: sequence, branch, and call. *)
Ltac follows :=
  lazymatch goal with
  | |- follows _ (mbind _ _) => apply follows_bind; [follows|intros ?; follows]
  | |- follows _ (match ?x with _ => _ end) => destruct x; follows
  | |- follows _ (if ?x then _ else _) => destruct x; follows
  | |- _ => eauto with follows
  end.

Section Operations.
Context (newUID : Z → string) (driverName : string).

Lemma follows_committedToken {X} pvName uid (x0 : X) mutate `{!ProtocolMutation true mutate} :
  follows newUID (committedToken newUID driverName pvName uid x0 mutate).
Proof. unfold committedToken. follows. Qed.
Hint Extern 5 (follows _ (committedToken _ _ _ _ _ _)) => (apply follows_committedToken; apply _) : follows.

Lemma follows_createVolumeState pvName spec nonce :
  follows newUID (createVolumeState newUID driverName pvName spec nonce).
Proof. unfold createVolumeState. follows. Qed.
Hint Resolve follows_createVolumeState : follows.

Lemma follows_ensureVolumeState pvName spec nonce :
  follows newUID (ensureVolumeState newUID driverName pvName spec nonce).
Proof. unfold ensureVolumeState. follows. Qed.

Lemma follows_recordAllocatedCapacity pvName uid capacity :
  follows newUID (recordAllocatedCapacity newUID driverName pvName uid capacity).
Proof.
  unfold recordAllocatedCapacity, record_errors. follows.
  apply follows_try, follows_retry. intros k Hwf Hr.
  unfold mbind at 1, M_bind at 1. pose proof (internal_read_spec newUID pvName k) as H. unfold wp in H.
  pose proof (follows_read newUID pvName k Hwf Hr) as Hs.
  destruct (internal_read newUID pvName k) as [[[p|]|e] k1]; cbn [fst snd] in *; [|exact Hs|exact Hs].
  destruct H as [Hq Hp]. destruct (ksteps_keep newUID k k1 Hwf Hr Hs) as [Hwf1 Hr1].
  case_decide; [exact Hs|]. unfold mbind, M_bind, lift.
  destruct (validateVolumeDriver driverName (Spec p)) as [[]|]; [|exact Hs].
  destruct (_ =? _); [exact Hs|]. destruct (bool_decide _); [exact Hs|].
  pose proof (follows_capacity newUID p capacity k1 Hwf1 Hr1) as Hc.
  destruct (Hwf1 _ _ Hp) as [Hn _]. rewrite Hn in Hc. specialize (Hc Hp).
  destruct (apiUpdate newUID (set_CapacityBytes p capacity) k1) as [[?|?] k2]; cbn [snd] in *; by etrans.
Qed.
End Operations.
