(* ===== verification/IdentityTheorems.v ===== *)
(** * The identity of a volume record

    CreateVolume returns the record of the volume it was asked for, and
    deletion removes the record of its own lifecycle only. *)
From stdpp Require Import base numbers list strings gmap pretty.
From Stdlib Require Import Ascii.
From S2P Require Import Prelude GoStd FencingMark PillarVolumeState VolumeFencing KubeCorrect Lifecycle.
From S2P Require Import VolumeFencingCorrect.
Open Scope Z_scope.

Section Identity.
Context (newUID : Z → string) (driverName : string).

(** *** Identity *)

(** What a retry of CreateVolume may not change of an adopted filesystem. *)
Definition pinned_identity (p : PillarVolumeState) (spec : PillarVolumeStateSpec) : Prop :=
  SpecFilesystemAdoption (Spec p) = SpecFilesystemAdoption spec ∧
  (is_Some (SpecFilesystemAdoption spec) →
   isFilesystemVolumeID (Spec p) = true ∧
   AgentVolumeID (Spec p) = AgentVolumeID spec ∧ AgentRef (Spec p) = AgentRef spec ∧
   SpecBackendType (Spec p) = SpecBackendType spec ∧ SpecProtocolType (Spec p) = SpecProtocolType spec ∧
   ImportedFrom (Spec p) = ImportedFrom spec ∧ CapacityBytes (Spec p) = CapacityBytes spec ∧
   rs_Backend <$> Resolved (Spec p) = rs_Backend <$> Resolved spec ∧
   rs_LocalAttach <$> Resolved (Spec p) = rs_LocalAttach <$> Resolved spec).

Lemma retry_identity p spec :
  scopedDriverForSpec (Spec p) = scopedDriverForSpec spec →
  validateFilesystemRetrySpec p spec = Ok tt → pinned_identity p spec.
Proof.
  intros Hsc. unfold validateFilesystemRetrySpec, scopedDriverForSpec in *.
  destruct (SpecFilesystemAdoption (Spec p)) as [a|] eqn:Ea.
  2: { destruct (SpecFilesystemAdoption spec) eqn:Es; [done|]. intros _. split; [congruence|]. rewrite Es. by intros [??]. }
  unfold validateFilesystemRetryIdentity.
  destruct (isFilesystemVolumeID (Spec p)) eqn:Eid; [|done]. destruct (_ && negb (isFilesystemVolumeID spec)); [done|].
  cbn [negb].
  repeat lazymatch goal with |- context [bool_decide ?P] => destruct (bool_decide_reflect P); [|done] end. cbn.
  destruct (CapacityBytes (Spec p) =? CapacityBytes spec) eqn:Ec; [|done]. apply Z.eqb_eq in Ec.
  unfold validateFilesystemRetryLayout. destruct (Resolved (Spec p)) as [ra|] eqn:Era, (Resolved spec) as [rb|] eqn:Erb; cbn; try done.
  - destruct (Bool.eqb _ _) eqn:El; [|done]. apply Bool.eqb_prop in El.
    destruct (bool_decide_reflect (rs_Backend ra = rs_Backend rb)); [|done]. intros _.
    split; [congruence|]. intros _. rewrite Era, Erb. split_and!; cbn; congruence.
  - intros _. split; [congruence|]. intros _. rewrite Era, Erb. by split_and!.
Qed.

Lemma ensureExisting_identity p spec q :
  scopedDriverForSpec spec = effectiveDriverName driverName →
  ensureExistingVolumeState driverName p spec = Ok q →
  q = p ∧ scopedDriverForSpec (Spec p) = scopedDriverForSpec spec ∧ pinned_identity p spec.
Proof.
  intros Hs. unfold ensureExistingVolumeState, validateVolumeDriver. case_decide as Hd; [done|]. cbn.
  destruct (validateFilesystemRetrySpec p spec) as [[]|] eqn:Er; cbn; intros; simplify_eq.
  split_and!; [done|congruence|]. apply retry_identity; [congruence|done].
Qed.

Lemma pinned_identity_VolumeID p spec id :
  pinned_identity p (set_VolumeID spec id) ↔ pinned_identity p spec.
Proof. done. Qed.

(** The record a provisioning step returns is stored, and is the one asked for. *)
Definition provisioned (n : string) (spec : PillarVolumeStateSpec)
    (r : GoResult (option PillarVolumeState)) (k' : kube) : Prop :=
  ∀ p, r = Ok (Some p) → k_store k' !! n = Some p ∧ pinned_identity p spec.

Lemma provisioning_spec n uid spec k :
  kube_wf k → scopedDriverForSpec spec = effectiveDriverName driverName →
  wp (updateVolumeState newUID driverName n uid false tt (provisioning_mutation spec))
     (λ r k', provisioned n spec (fst <$> r) k') k.
Proof.
  intros Hwf Hsc. eapply wp_mono; [by apply updateVolumeState_spec; [apply provisioning_pm|]|].
  assert (∀ cur, validateVolumeStateForUpdate driverName cur = Ok tt →
    match provisioning_mutation spec cur with
    | Change q _ => ∀ k1, pinned_identity (status_commit false cur q k1) spec
    | NoChange q _ => q = cur ∧ pinned_identity q spec
    | Refuse _ => True end) as Hmut.
  { intros cur Hv. unfold validateVolumeStateForUpdate, validateVolumeDriver in Hv.
    destruct (decide (scopedDriverForSpec (Spec cur) ≠ effectiveDriverName driverName)) as [|Hd]; [done|].
    apply dec_stable in Hd. unfold provisioning_mutation.
    destruct (validateFilesystemRetrySpec cur spec) as [[]|] eqn:Er; [|done].
    apply retry_identity in Er; [|congruence]. by case_decide. }
  intros r k' [e k1 Hq|x k1 Hq|cur p x k1 Hq Hcur [_ Hp] Hm|cur p x k1 r' Hq Hcur [_ Hp] Hm Hr'] q Hq'; simplify_eq/=;
    specialize (Hmut cur Hp); rewrite Hm in Hmut.
  - by destruct Hmut as [-> ?].
  - destruct Hr' as [->|(e&->&_)]; simplify_eq/=. by rewrite lookup_insert_eq.
Qed.

Lemma initialSpec_scope spec nonce spec' :
  initialSpec spec nonce = Ok spec' → scopedDriverForSpec spec' = scopedDriverForSpec spec.
Proof.
  unfold initialSpec, scopedDriverForSpec. destruct (SpecFilesystemAdoption spec) eqn:E; [destruct nonce|]; intros; simplify_eq; cbn;
    by rewrite E.
Qed.

Lemma initialSpec_pins spec nonce spec' q :
  initialSpec spec nonce = Ok spec' → pinned_identity q spec' → pinned_identity q spec.
Proof.
  unfold initialSpec. destruct (SpecFilesystemAdoption spec) eqn:E; [destruct nonce|]; intros; by simplify_eq.
Qed.

Lemma createVolumeState_spec n spec nonce k :
  kube_wf k → rely k → scopedDriverForSpec spec = effectiveDriverName driverName →
  wp (createVolumeState newUID driverName n spec nonce) (provisioned n spec) k.
Proof.
  intros Hwf Hrl Hsc. unfold createVolumeState. apply wp_bind, wp_lift.
  destruct (initialSpec spec nonce) as [spec'|] eqn:Ei; [|done].
  assert (scopedDriverForSpec spec' = scopedDriverForSpec spec) as Hsc' by (by eapply initialSpec_scope).
  assert (∀ r k', provisioned n spec' r k' → provisioned n spec r k') as Hw.
  { intros r k' H q Hq. destruct (H q Hq). split; [done|]. by eapply initialSpec_pins. }
  apply wp_bind, wp_try. apply wp_of_run. intros rc k1 Hc.
  pose proof (follows_create newUID n spec' k Hwf Hrl) as Hk. rewrite Hc in Hk. cbn in Hk.
  destruct (ksteps_keep newUID _ _ Hwf Hrl Hk) as [Hwf1 _].
  destruct (match rc with Ok _ => true | Err e => _ end); [|done].
  apply wp_call with (1 := internal_read_spec newUID n k1); [|done].
  intros [p|] k2 [Hq Hp]; [|done]. apply wp_bind, wp_lift.
  destruct (ensureExistingVolumeState driverName p spec') eqn:Ee; [|done].
  apply ensureExisting_identity in Ee as (->&Hs&Hid); [|congruence].
  case_decide; [apply wp_ret, Hw; by intros q [= <-]|].
  apply wp_bind. destruct (quiet_facts _ _ _ Hwf1 Hq) as (Hwf2&_).
  eapply wp_mono; [apply provisioning_spec; [exact Hwf2|congruence]|].
  intros [[o x]|e] k3 Hx; [|done]. apply wp_ret, Hw. exact Hx.
Qed.

(** CreateVolume works on the record of the volume it was asked for.  A
    record [ensureVolumeState] returns is the one stored under the name; it
    adopts a filesystem exactly when the request does, and then adopts the same
    source with the same agent, backend, protocol, quota and access scope,
    under a valid lifecycle handle, also when another writer created the record
    first or changes it meanwhile. *)
Theorem ensure_pins_identity n spec nonce k p k' :
  kube_wf k → rely k →
  ensureVolumeState newUID driverName n spec nonce k = (Ok (Some p), k') →
  k_store k' !! n = Some p ∧ pinned_identity p spec.
Proof.
  intros Hwf Hr Hrun. assert (wp (ensureVolumeState newUID driverName n spec nonce) (provisioned n spec) k) as H.
  { unfold ensureVolumeState, validateVolumeDriver. apply wp_bind, wp_lift. case_decide as Hd; [done|].
    apply wp_call with (1 := internal_read_spec newUID n k); [|done].
    intros [q|] k1 [Hq Hp].
    - apply wp_bind, wp_lift. destruct (ensureExistingVolumeState driverName q spec) eqn:Ee; [|done].
      apply ensureExisting_identity in Ee as (->&_&Hid); [|done]. apply wp_ret. by intros q' [= <-].
    - pose proof (quiet_ksteps _ _ _ Hr Hq) as Hk. destruct (ksteps_keep newUID _ _ Hwf Hr Hk).
      by apply createVolumeState_spec. }
  eapply wp_run in H; [|exact Hrun]. by apply H.
Qed.

Lemma apiDelete_spec n uid k :
  wp (apiDelete newUID n uid) (λ r k', ∃ k1, quiet newUID k k1 ∧
    ((k' = k1 ∧ ((r = Err apiNotFound ∧ k_store k1 !! n = None) ∨
                 (∃ cur, r = Err apiConflict ∧ k_store k1 !! n = Some cur ∧ pvs_UID cur ≠ uid) ∨
                 r = Err apiUnreachable)) ∨
     (∃ cur, k_store k1 !! n = Some cur ∧ pvs_UID cur = uid ∧
        k' = next_revision k1 (delete n (k_store k1)) [CDelete cur] ∧
        (r = Ok tt ∨ r = Err apiUnreachable)))) k.
Proof.
  apply wp_of_run. unfold apiDelete. intros r k' Hrun.
  destruct (api_begin_quiet newUID k) as (o&k1&Hb&Hq). rewrite (M_bind_Ok _ _ _ _ _ Hb) in Hrun.
  exists k1. split; [done|].
  destruct o; unfold mbind, M_bind, reads, id, modify, throw, api_answer, mret, M_ret in Hrun; [|simplify_eq; by auto|];
    (destruct (k_store k1 !! n) as [cur|] eqn:E; [case_decide as Hu|]); unfold throw in Hrun; simplify_eq/=;
    first [left; split; [done|]; by eauto 6|right; exists cur; by eauto 6].
Qed.

(** Deletion removes the record of its own lifecycle only, and success
    means it is gone: [deleteVolumeState] commits at most the removal of an
    object with the given UID, leaves every other record alone, and when it
    returns success no record of that UID is stored under the name. *)
Theorem delete_only_own_lifecycle n uid k r k' :
  kube_wf k → deleteVolumeState newUID n uid k = (r, k') →
  (k_log k' = k_log k ∨ ∃ old, pvs_Name old = n ∧ pvs_UID old = uid ∧ k_log k' = k_log k ++ [CDelete old]) ∧
  (∃ k1, quiet newUID k k1 ∧ ∀ m, m ≠ n → k_store k' !! m = k_store k1 !! m) ∧
  (r = Ok tt → ∀ p, k_store k' !! n = Some p → pvs_UID p ≠ uid).
Proof.
  intros Hwf Hrun. pose proof (apiDelete_spec n uid k) as Hd. unfold wp in Hd.
  unfold deleteVolumeState, try, mbind, M_bind, mret, M_ret, throw in Hrun.
  destruct (apiDelete newUID n uid k) as [rd kd]. cbn [fst snd] in Hd.
  destruct Hd as (k1&Hq&Hd). destruct (quiet_facts _ _ _ Hwf Hq) as (Hwf1&_&Hlog).
  destruct Hd as [[-> Hd]|(cur&Hcur&Hu&->&Hr)].
  - assert (k' = k1) as -> by (destruct rd as [[]|e]; [|case_decide; [|destruct e]]; by simplify_eq).
    split_and!; [by left|by exists k1|].
    destruct Hd as [[-> Hn]|[(cur&->&Hc&Hu)| ->]]; [naive_solver|naive_solver|]. rewrite decide_False in Hrun by done. by simplify_eq/=.
  - assert (k' = next_revision k1 (delete n (k_store k1)) [CDelete cur]) as ->.
    { destruct Hr as [-> | ->]; [|rewrite decide_False in Hrun by done]; cbn in Hrun; by simplify_eq. }
    split_and!.
    + right. exists cur. cbn. rewrite Hlog. destruct (Hwf1 _ _ Hcur). done.
    + exists k1. split; [done|]. intros m Hm. cbn. by rewrite lookup_delete_ne.
    + intros _ p. cbn. by rewrite lookup_delete_eq.
Qed.
End Identity.

(** ** Filesystem lifecycle handles *)

Lemma hex_nonce b : nonceChars (hex_encode b) = true ∧ String.length (hex_encode b) = (2 * length b)%nat.
Proof.
  induction b as [|c b [IH1 IH2]]; [done|]. split.
  - cbn [hex_encode nonceChars]. rewrite IH1. clear IH1 IH2.
    destruct c as [[] [] [] [] [] [] [] []]; vm_compute; reflexivity.
  - cbn [hex_encode String.length length]. rewrite IH2. lia.
Qed.

(** A handle made for an adopted filesystem is accepted as one, and handles
    tell lifecycles apart: the handle built from 16 random bytes is a valid
    lifecycle handle of its record, and two of them are equal only if their
    random bytes are. *)
Theorem lifecycle_handle_valid spec nonce nonce' :
  is_Some (SpecFilesystemAdoption spec) → AgentRef spec ≠ "" → SpecProtocolType spec ≠ "" →
  SpecBackendType spec ≠ "" → AgentVolumeID spec ≠ "" → length nonce = 16%nat →
  let id := newFilesystemVolumeID (filesystemVolumeIDBase spec) in
  isFilesystemVolumeID (set_VolumeID spec (id nonce)) = true ∧ (id nonce = id nonce' → nonce = nonce').
Proof.
  intros [a Ha] H1 H2 H3 H4 Hl id. split.
  - unfold isFilesystemVolumeID. cbn [SpecFilesystemAdoption set_VolumeID]. rewrite Ha.
    cbn [AgentRef SpecProtocolType SpecBackendType AgentVolumeID VolumeID set_VolumeID].
    rewrite !bool_decide_eq_false_2 by done. cbn [orb]. change (filesystemVolumeIDBase (set_VolumeID spec (id nonce))) with (filesystemVolumeIDBase spec).
    unfold id, newFilesystemVolumeID. rewrite CutPrefix_app. destruct (hex_nonce nonce) as [Hc Hn].
    change ("." +:+ hex_encode nonce) with (String "." (hex_encode nonce)). cbn [String.length].
    unfold validFilesystemLifecycleNonce. by rewrite Hn, Hl, Hc.
  - unfold id, newFilesystemVolumeID. intros E.
    assert (hex_encode nonce = hex_encode nonce') as E'.
    { apply (f_equal (drop_string (String.length (filesystemVolumeIDBase spec)))) in E.
      rewrite !drop_string_app in E. by injection E. }
    apply (f_equal hex_decode) in E'. rewrite !hex_decode_encode in E'. by injection E'.
Qed.

(** ** Concrete runs *)

Definition ex_newUID (r : Z) : string := "uid-" +:+ pretty r.
#[export] Instance ex_newUID_inj : Inj eq eq ex_newUID.
Proof. intros a b H%(f_equal (drop_string 4)). change (pretty a = pretty b) in H. by apply (inj pretty) in H. Qed.

Definition ex_block_spec : PillarVolumeStateSpec := {|
  VolumeID := "agent/iscsi/lvm/vg/data"; AgentVolumeID := "vg/data"; AgentRef := "agent";
  SpecBackendType := "lvm"; SpecProtocolType := "iscsi"; CapacityBytes := 1024; ClaimRef := None;
  ImportedFrom := ""; SpecFilesystemAdoption := None; SpecLVMSource := None; Resolved := None;
  SpecRecovery := None |}.

Definition ex_fs_spec : PillarVolumeStateSpec := {|
  VolumeID := "agent/nfs/dir/share"; AgentVolumeID := "share"; AgentRef := "agent";
  SpecBackendType := "dir"; SpecProtocolType := "nfs"; CapacityBytes := 1024; ClaimRef := None;
  ImportedFrom := "/srv/share";
  SpecFilesystemAdoption := Some {| fs_Kind := "Directory"; fs_CanonicalSource := "/srv/share";
    fs_ResourceID := "uuid:12"; fs_HostPath := ""; fs_FilesystemType := "xfs"; fs_FilesystemID := "uuid";
    fs_Inode := "12"; fs_ProjectID := 7 |};
  SpecLVMSource := None; Resolved := None; SpecRecovery := None |}.

Definition ex_nonce : bytes := bytes_of_string "0123456789abcdef".
Definition ex_kube : kube := {| k_store := ∅; k_revision := 0; k_log := []; k_calls := [] |}.

Lemma ex_kube_wf : kube_wf ex_kube.
Proof. intros n q H. change (k_store ex_kube) with (∅ : gmap string PillarVolumeState) in H. by rewrite lookup_empty in H. Qed.

Lemma lifecycle_handle_valid_witness :
  isFilesystemVolumeID (set_VolumeID ex_fs_spec (newFilesystemVolumeID (filesystemVolumeIDBase ex_fs_spec) ex_nonce)) = true.
Proof.
  apply (lifecycle_handle_valid ex_fs_spec ex_nonce ex_nonce); [by eexists|done|done|done|done|reflexivity].
Defined.

Definition ex_ensured : GoResult (option PillarVolumeState) * kube :=
  ensureVolumeState ex_newUID FileCSIDriver "pv-1" ex_fs_spec (Some ex_nonce) ex_kube.

Lemma ensure_pins_identity_witness : ∃ p, ex_ensured.1 = Ok (Some p) ∧ pinned_identity p ex_fs_spec.
Proof.
  destruct ex_ensured as [[[p|]|] k'] eqn:E; [|vm_compute in E; discriminate|vm_compute in E; discriminate].
  exists p. split; [done|].
  apply (ensure_pins_identity ex_newUID FileCSIDriver "pv-1" ex_fs_spec (Some ex_nonce) ex_kube p k');
    [exact ex_kube_wf|constructor|exact E].
Defined.

Definition ex_deleted : GoResult unit * kube := deleteVolumeState ex_newUID "pv-1" "uid-1" ex_ensured.2.

Lemma ex_ensured_wf : kube_wf ex_ensured.2.
Proof.
  apply (ksteps_keep ex_newUID ex_kube); [exact ex_kube_wf|constructor|].
  apply (follows_ensureVolumeState ex_newUID FileCSIDriver "pv-1" ex_fs_spec (Some ex_nonce) ex_kube ex_kube_wf). constructor.
Qed.

Lemma delete_only_own_lifecycle_witness :
  ex_deleted.1 = Ok tt ∧ ∀ p, k_store ex_deleted.2 !! "pv-1" = Some p → pvs_UID p ≠ "uid-1".
Proof.
  split; [vm_compute; reflexivity|].
  apply (delete_only_own_lifecycle ex_newUID "pv-1" "uid-1" ex_ensured.2 ex_deleted.1 ex_deleted.2).
  - exact ex_ensured_wf.
  - apply surjective_pairing.
  - vm_compute; reflexivity.
Defined.
