(* ===== verification/ControllerTheorems.v ===== *)
(** * Theorems about the volume record

    Exclusive publications, ordered fencing tokens, releases that remove only
    what was revoked, final deletion, and identities that are pinned, for any
    history of the operations of volume_fencing.go interleaved with other
    writers that follow the protocol. *)
From stdpp Require Import base numbers list strings gmap pretty.
From S2P Require Import Prelude GoStd FencingMark PillarVolumeState VolumeFencing KubeCorrect Lifecycle.
From S2P Require Import VolumeFencingCorrect IdentityTheorems.
Open Scope Z_scope.

#[local] Arguments fenceToken : simpl never.

(** ** Histories *)

(** A call of one of the operations. *)
Inductive op :=
| OpEnsure (spec : PillarVolumeStateSpec) (nonce : option bytes)
| OpClaim (uid : string)
| OpCurrent
| OpReserve (uid : string) (pub : VolumePublication)
| OpClearLocal (uid node : string)
| OpFenceOne (uid : string) (expected : VolumePublication)
| OpFence (uid nodeID : string)
| OpRelease (uid : string) (nodeIDs : list string) (fence : option FencingToken)
| OpMarkDeleting (volumeID : string) (admission : option (PillarVolumeState → GoResult unit))
| OpDelete (uid : string)
| OpCapacity (uid : string) (capacity : Z)
| OpPartial (uid devicePath : string) (exportSpec : option VolumeExportSpec) (now : Z)
| OpReady (uid : string) (info : option VolumeExportInfo).

Section History.
Context (newUID : Z → string) (driverName : string).

(** Run it, and return the token it issues. *)
Definition run_op (n : string) (o : op) : Controller (option FencingToken) :=
  match o with
  | OpEnsure spec nonce => ensureVolumeState newUID driverName n spec nonce ;; mret None
  | OpClaim uid => t ← claimOperation newUID driverName n uid; mret (Some t)
  | OpCurrent => t ← currentToken newUID driverName n; mret (Some t)
  | OpReserve uid pub => t ← reservePublication newUID driverName n uid pub; mret (Some t)
  | OpClearLocal uid node => t ← clearLocalAttachNode newUID driverName n uid node; mret (Some t)
  | OpFenceOne uid expected => r ← fencePublication newUID driverName n uid expected; mret (Some r.1)
  | OpFence uid nodeID => r ← fencePublications newUID driverName n uid nodeID; mret (fst <$> r)
  | OpRelease uid ids fence => releasePublication newUID driverName n uid ids fence ;; mret None
  | OpMarkDeleting volumeID admission =>
      r ← markVolumeDeleting newUID driverName n volumeID admission; mret (snd <$> r)
  | OpDelete uid => deleteVolumeState newUID n uid ;; mret None
  | OpCapacity uid capacity => recordAllocatedCapacity newUID driverName n uid capacity ;; mret None
  | OpPartial uid dev xspec now => persistCreatePartial newUID driverName n uid dev xspec now ;; mret None
  | OpReady uid info => persistVolumeReady newUID driverName n uid info ;; mret None
  end.

Definition run_ops (ops : list (string * op)) (k : kube) : kube :=
  foldl (λ k o, (run_op o.1 o.2 k).2) k ops.

Hint Extern 5 (follows _ (committedToken _ _ _ _ _ _)) => (apply follows_committedToken; apply _) : follows.
Hint Resolve follows_createVolumeState follows_recordAllocatedCapacity : follows.

Lemma follows_run_op n o : follows newUID (run_op n o).
Proof.
  destruct o; cbn; unfold ensureVolumeState, claimOperation, currentToken, reservePublication,
    reservePublicationState, clearLocalAttachNode, fencePublication, fencePublications, releasePublication,
    markVolumeDeleting, deleteVolumeState, persistCreatePartial, persistVolumeReady, record_errors; follows;
    apply follows_try; follows.
Qed.

Lemma run_ops_ksteps ops k : kube_wf k → rely k → ksteps newUID k (run_ops ops k).
Proof.
  revert k. induction ops as [|o ops IH]; intros k Hwf Hr; [done|]. cbn.
  pose proof (follows_run_op o.1 o.2 k Hwf Hr) as H.
  destruct (ksteps_keep newUID _ _ Hwf Hr H). etrans; [exact H|by apply IH].
Qed.

Lemma run_ops_inv ops k :
  kube_inv newUID k → k_revision (run_ops ops k) ≤ maxRevision → kube_inv newUID (run_ops ops k).
Proof. intros Hi Hm. eapply ksteps_inv; [exact Hi|apply run_ops_ksteps; apply Hi|done]. Qed.

(** ** Tokens name the record they were committed with *)

(** A token of a stored object. *)
Definition token_of (t : FencingToken) (p : PillarVolumeState) : Prop :=
  VolumeUid t = pvs_UID p ∧ TokenGeneration t = gen p ∧ VolumeUid t ≠ "" ∧ 0 ≤ TokenGeneration t.

Lemma fenceToken_spec p t : fenceToken (Some p) = Ok t → token_of t p.
Proof.
  unfold fenceToken. destruct (bool_decide (pvs_UID p = "")) eqn:E; [done|].
  destruct (gen p <? 0) eqn:Eg; [done|]. intros; simplify_eq/=.
  apply bool_decide_eq_false in E. apply Z.ltb_ge in Eg. by unfold token_of.
Qed.

(** [m] commits a change of the record [n] with a new generation and returns
    its token. *)
Definition issues (n : string) (k : kube) (t : FencingToken) (k' : kube) : Prop :=
  ∃ k1 cur new, quiet newUID k k1 ∧ k_store k1 !! n = Some cur ∧ k' = commit_update k1 n cur new ∧
    gen new = int64_succ (gen cur) ∧ pvs_UID new = pvs_UID cur ∧ token_of t new.

(** [m] reports the current generation. *)
Definition reports (n : string) (k : kube) (t : FencingToken) (k' : kube) : Prop :=
  ∃ p, quiet newUID k k' ∧ k_store k' !! n = Some p ∧ token_of t p.

(** A callback leaves the generation to the update loop, and returns the
    object it read when it has nothing to write. *)
Class OrderedMutation {X} (mutate : PillarVolumeState → mutation X) : Prop := {
  om_gen cur p x : mutate cur = Change p x → gen p = gen cur;
  om_same cur p x : mutate cur = NoChange p x → p = cur;
}.

Lemma update_token {X} n uid (mutate : PillarVolumeState → mutation X) `{!OrderedMutation mutate} k p x k' t :
  update_outcome newUID driverName n uid true mutate k (Ok (Some p, x)) k' →
  fenceToken (Some p) = Ok t →
  issues n k t k' ∨ (reports n k t k' ∧ ∃ cur, mutate cur = NoChange p x).
Proof.
  intros Ho Ht%fenceToken_spec.
  inversion Ho as [| |cur p' x' k1 Hq Hcur Hpin Hm|cur p' x' k1 r Hq Hcur Hpin Hm [E|(e&He&_)]]; simplify_eq.
  - right. split; [|eauto]. apply om_same in Hm as Hp. subst. by exists cur.
  - left. exists k1, cur, (status_commit true cur p' k1). split_and!; try done.
    cbn. by rewrite (om_gen cur p' _ Hm).
Qed.

Lemma committedToken_token {X} n uid (x0 : X) mutate `{!StatusMutation mutate, !OrderedMutation mutate} k t x k' :
  kube_wf k → committedToken newUID driverName n uid x0 mutate k = (Ok (t, x), k') →
  issues n k t k' ∨ (reports n k t k' ∧ ∃ cur p, mutate cur = NoChange p x).
Proof.
  intros Hwf Hrun. unfold committedToken in Hrun.
  apply M_bind_inv in Hrun as [([o x1]&k1&Hu&Hrun)|(?&_&?)]; [|done].
  pose proof (updateVolumeState_spec newUID driverName n uid true mutate k x0 Hwf) as Ho.
  eapply wp_run in Ho; [|exact Hu]. unfold lift, mbind, M_bind, mret, M_ret in Hrun. cbn in Hrun.
  destruct o as [p|]; [|done].
  destruct (fenceToken (Some p)) as [t'|] eqn:Et; simplify_eq.
  edestruct (update_token n uid mutate) as [?|[? [cur ?]]]; [done|done|by left|right; eauto].
Qed.
End History.

#[export] Instance claim_om : OrderedMutation claim_mutation.
Proof. split; intros cur p x; unfold claim_mutation; destruct (refuseDeleting cur); intros; by simplify_eq. Qed.
#[export] Instance reserve_om pub : OrderedMutation (reserve_mutation pub).
Proof.
  split; intros cur p x; unfold reserve_mutation; destruct (refuseDeleting cur); try done;
    set (b := Local pub && _); destruct (scanPublications _ _) as [[]|]; intros; simplify_eq; by destruct b.
Qed.
#[export] Instance clear_om node : OrderedMutation (clear_mutation node).
Proof. split; intros cur p x; unfold clear_mutation; case_decide; try destruct (existsb _ _); intros; by simplify_eq. Qed.
#[export] Instance fence_one_om e : OrderedMutation (fence_one_mutation e).
Proof. split; intros cur p x; unfold fence_one_mutation; destruct (revokeFirst _ _); intros; by simplify_eq. Qed.
#[export] Instance fence_om node : OrderedMutation (fence_mutation node).
Proof. split; intros cur p x; unfold fence_mutation; destruct (_ =? _)%nat; intros; by simplify_eq. Qed.
#[export] Instance deleting_om volumeID admission : OrderedMutation (markVolumeDeletingMutation volumeID admission).
Proof.
  split; intros cur p x; unfold markVolumeDeletingMutation; destruct (foreignHandle _ _), (refuseRecoveryPending cur); try done;
    destruct (Deleting _); try (intros; by simplify_eq); destruct (_ <? _)%nat; try done;
    destruct (match admission with Some _ => _ | None => _ end); intros; by simplify_eq.
Qed.

Section Tokens.
Context (newUID : Z → string) (driverName : string).

(** The operations whose token always carries a generation of its own. *)
Definition orders (o : op) : bool :=
  match o with OpClaim _ | OpReserve _ _ | OpFenceOne _ _ | OpFence _ _ => true | _ => false end.

Lemma record_errors_Ok {A} (m : Controller A) k a k' :
  record_errors m k = (Ok a, k') ↔ m k = (Ok a, k').
Proof.
  unfold record_errors, try, mbind, M_bind, mret, M_ret, throw.
  destruct (m k) as [[]]; naive_solver.
Qed.

Lemma fencePublications_token n uid nodeID k t revoke k' :
  kube_wf k → fencePublications newUID driverName n uid nodeID k = (Ok (Some (t, revoke)), k') →
  ∃ k1 cur, quiet newUID k k1 ∧ k_store k1 !! n = Some cur ∧
    let new := status_commit true cur (set_PublishedNodes cur (revokeSelected nodeID (nodes cur))) k1 in
    k' = commit_update k1 n cur new ∧ token_of t new ∧
    revoke = List.filter (selects nodeID) (nodes new).
Proof.
  intros Hwf Hrun. unfold fencePublications in Hrun.
  apply M_bind_inv in Hrun as [([o x1]&k1&Hu&Hrun)|(?&_&?)]; [|done].
  pose proof (updateVolumeState_spec newUID driverName n uid true (fence_mutation nodeID) k [] Hwf) as Ho.
  eapply wp_run in Ho; [|exact Hu]. cbn [fst snd] in Hrun.
  destruct (length x1 =? 0)%nat eqn:Ex; [done|].
  unfold lift, mbind, M_bind, mret, M_ret in Hrun. destruct o as [p|]; [|done].
  destruct (fenceToken (Some p)) as [t'|] eqn:Et; simplify_eq. apply fenceToken_spec in Et.
  inversion Ho as [| |cur p' x' k2 Hq Hcur Hpin Hm|cur p' x' k2 r Hq Hcur Hpin Hm [E|(e&He&_)]]; simplify_eq;
    unfold fence_mutation in Hm; fold (revokeSelected nodeID (nodes cur)) in Hm;
    destruct (length _ =? 0)%nat eqn:El in Hm; simplify_eq; [congruence|].
  eexists _, cur. split_and!; try done.
Qed.

Lemma run_op_token n o k t k' :
  kube_wf k → run_op newUID driverName n o k = (Ok (Some t), k') →
  issues newUID n k t k' ∨ (reports newUID n k t k' ∧ orders o = false).
Proof.
  intros Hwf Hrun. destruct o; cbn [run_op] in Hrun; apply M_bind_inv in Hrun as [(a&k1&Hm&Hrun)|(?&_&?)];
    try done; unfold mret, M_ret in Hrun; simplify_eq; cbn [orders].
  - unfold claimOperation in Hm. apply M_bind_inv in Hm as [([t1 x]&k1&Hm&Hr)|(?&_&?)]; [|done].
    unfold mret, M_ret in Hr. simplify_eq/=.
    destruct (committedToken_token _ _ _ _ _ _ _ _ _ _ Hwf Hm) as [?|[? (cur&p&Hc)]]; [by left|].
    unfold claim_mutation in Hc. by destruct (refuseDeleting cur).
  - right. split; [|done]. unfold currentToken in Hm. apply M_bind_inv in Hm as [(o&k1&Hr&Hm)|(?&_&?)]; [|done].
    pose proof (internal_read_spec newUID n k) as Hs. eapply wp_run in Hs; [|exact Hr]. destruct Hs as [Hq Hs].
    destruct o as [p|]; [|done]. unfold lift, mbind, M_bind in Hm.
    destruct (validateVolumeDriver _ _); [|done]. destruct (refuseDeleting p); [done|].
    destruct (fenceToken (Some p)) eqn:Et; simplify_eq. exists p. split_and!; [done|done|by apply fenceToken_spec].
  - unfold reservePublication, reservePublicationState in Hm.
    apply M_bind_inv in Hm as [([t1 x]&k1&Hm&Hr)|(?&_&?)]; [|done]. unfold mret, M_ret in Hr. simplify_eq/=.
    destruct (committedToken_token _ _ _ _ _ _ _ _ _ _ Hwf Hm) as [?|[? (cur&p&Hc)]]; [by left|].
    unfold reserve_mutation in Hc. destruct (refuseDeleting cur); [done|]. by destruct (scanPublications _ _) as [[]|].
  - unfold clearLocalAttachNode in Hm. rewrite record_errors_Ok in Hm. apply M_bind_inv in Hm as [([t1 x]&k1&Hm&Hr)|(?&_&?)]; [|done].
    unfold mret, M_ret in Hr. simplify_eq/=.
    destruct (committedToken_token _ _ _ _ _ _ _ _ _ _ Hwf Hm) as [?|[? _]]; [by left|by right].
  - destruct a as [t1 found]. destruct (committedToken_token _ _ _ _ _ _ _ _ _ _ Hwf Hm) as [?|[? (cur&p&Hc)]]; [by left|].
    unfold fence_one_mutation in Hc. by destruct (revokeFirst _ _).
  - destruct a as [[t1 revoke]|]; simplify_eq/=.
    apply fencePublications_token in Hm as (k1&cur&Hq&Hcur&->&Ht&_); [|done].
    left. by eexists _, cur, _.
  - unfold markVolumeDeleting in Hm. apply M_bind_inv in Hm as [(o&k1&Hr&Hm)|(?&_&?)]; [|done].
    pose proof (internal_read_spec newUID n k) as Hs. eapply wp_run in Hs; [|exact Hr]. destruct Hs as [Hq Hs].
    destruct a as [[p t1]|]; [|done]. destruct o as [cur|]; [|done]. destruct (foreignHandle cur volumeID); [done|].
    simplify_eq/=.
    apply M_bind_inv in Hm as [([[p1|] x]&k2&Hu&Hm)|(?&_&?)]; [|done|done].
    unfold lift, mbind, M_bind, mret, M_ret in Hm. cbn [fst snd] in Hm.
    destruct (fenceToken (Some p1)) eqn:Et; simplify_eq/=.
    destruct (quiet_facts newUID k k1 Hwf Hq) as (Hwf1&_).
    pose proof (updateVolumeState_spec newUID driverName n (pvs_UID cur) true (markVolumeDeletingMutation volumeID admission) k1 tt Hwf1) as Ho.
    eapply wp_run in Ho; [|exact Hu].
    destruct (update_token _ _ _ _ _ _ _ _ _ _ Ho Et) as [(k3&c&new&Hq2&H2)|[(q&Hq2&H2) _]].
    + left. exists k3, c, new. split; [by etrans|done].
    + right. split; [|done]. exists q. split; [by etrans|done].
Qed.
End Tokens.

(** What a release with the selected nodes removes from the fenced record. *)
Lemma release_selected nodeID curf cur revoke new a :
  record_ok cur → nodes cur = revokeSelected nodeID (nodes curf) →
  revoke = List.filter (selects nodeID) (nodes cur) →
  nodes new = List.filter (λ p, negb (containsb (map NodeID revoke) (NodeID p))) (nodes cur) →
  a ∈ nodes cur →
  (a ∉ nodes new ↔ selects nodeID a = true) ∧ (a ∉ nodes new → a ∈ revoke ∧ Revoking a = true).
Proof.
  intros Hok Hsame -> Hnew Ha.
  assert (containsb (map NodeID (List.filter (selects nodeID) (nodes cur))) (NodeID a) = selects nodeID a) as Hsel.
  { apply eq_true_iff_eq. rewrite containsb_true, list_elem_of_In, in_map_iff. split.
    - intros (b&E&[Hb Hs]%filter_In). apply list_elem_of_In in Hb. by rewrite <- (same_node cur b a).
    - intros Hs. exists a. split; [done|]. apply filter_In. by rewrite <- list_elem_of_In. }
  assert (a ∈ nodes new ↔ selects nodeID a = false) as Hin.
  { rewrite Hnew, list_elem_of_In, filter_In, Hsel, <- list_elem_of_In, negb_true_iff. naive_solver. }
  split; [rewrite Hin; by destruct (selects nodeID a)|]. rewrite Hin. intros Hs. apply not_false_iff_true in Hs.
  split; [apply list_elem_of_In, filter_In; by rewrite <- list_elem_of_In|].
  rewrite Hsame in Ha. apply list_elem_of_In, in_map_iff in Ha as (b&<-&_).
  destruct (selects nodeID b) eqn:Eb; [done|congruence].
Qed.

(** A token operation that returns the pair or the token of [m] fails as [m]. *)
Lemma run_refused {A} (m : Controller (FencingToken * A)) k r k' (P : Prop) :
  (t ← (x ← m; mret x.1); mret (Some t)) k = (r, k') →
  (∀ r1, m k = (r1, k') → (∃ e, r1 = Err e) ∧ P) → (∃ e, r = Err e) ∧ P.
Proof.
  unfold mbind, M_bind, mret, M_ret. destruct (m k) as [[[t a]|e] k1]; intros Hr H; simplify_eq;
    destruct (H _ eq_refl) as [[e' He] HP]; simplify_eq; eauto.
Qed.

(** ** The theorems *)
Section Theorems.
Context (newUID : Z → string) `{!Inj eq eq newUID} (driverName : string).

Lemma run_op_run n o k r k' :
  kube_inv newUID k → run_op newUID driverName n o k = (r, k') → ksteps newUID k k'.
Proof. intros Hi Hrun. pose proof (follows_run_op newUID driverName n o k (inv_wf _ _ Hi) (inv_rely _ _ Hi)) as H. by rewrite Hrun in H. Qed.

(** The state at the commit of a step, and the bound there. *)
Lemma commit_before k k1 n cur new k' :
  kube_inv newUID k → quiet newUID k k1 → k_store k1 !! n = Some cur → k' = commit_update k1 n cur new →
  k_revision k' ≤ maxRevision →
  ksteps newUID k k1 ∧ kube_inv newUID k1 ∧ k_store k' !! n = Some new ∧ int64_succ (gen cur) = gen cur + 1.
Proof.
  intros Hi Hq Hcur -> Hmax. cbn in Hmax. pose proof (quiet_ksteps _ _ _ (inv_rely _ _ Hi) Hq) as Hk.
  assert (kube_inv newUID k1) as Hi1 by (eapply ksteps_inv; [done..|lia]).
  split_and!; [done|done|cbn; by rewrite lookup_insert_eq|].
  destruct (inv_objects _ _ Hi1 _ _ Hcur) as [_ Hg _]. destruct (inv_wf _ _ Hi1 _ _ Hcur).
  apply int64_succ_small. lia.
Qed.

Lemma issues_stored n k t k' :
  issues newUID n k t k' ∨ reports newUID n k t k' → ∃ p, k_store k' !! n = Some p ∧ token_of t p.
Proof.
  intros [(k1&cur&new&Hq&Hcur&->&_&_&Ht)|(p&_&Hp&Ht)]; [|by exists p].
  exists new. split; [cbn; by rewrite lookup_insert_eq|done].
Qed.

Lemma later_issue n k t k' p :
  kube_inv newUID k → issues newUID n k t k' → k_revision k' ≤ maxRevision →
  k_store k !! n = Some p → VolumeUid t = pvs_UID p → gen p < TokenGeneration t.
Proof.
  intros Hi (k1&cur&new&Hq&Hcur&Hk'&Hg&Hu&Ht1&Ht2&_) Hmax Hp Hut.
  destruct (commit_before k k1 n cur new k' Hi Hq Hcur Hk' Hmax) as (Hk1&Hi1&_&Hs).
  assert (k_revision k1 ≤ maxRevision) by (subst k'; cbn in Hmax; lia).
  assert (life_le p cur) as Hl by (eapply (ksteps_life newUID k k1); eauto; congruence).
  pose proof (ll_gen _ _ Hl). lia.
Qed.

(** Tokens of one lifecycle, in the order they are issued. *)
Lemma token_order k0 n o1 t1 k1 ops o2 t2 k2 :
  kube_inv newUID k0 →
  run_op newUID driverName n o1 k0 = (Ok (Some t1), k1) →
  run_op newUID driverName n o2 (run_ops newUID driverName ops k1) = (Ok (Some t2), k2) →
  k_revision k2 ≤ maxRevision →
  VolumeUid t1 = VolumeUid t2 →
  TokenGeneration t1 ≤ TokenGeneration t2 ∧
  (orders o2 = true → TokenGeneration t1 < TokenGeneration t2).
Proof.
  intros Hi0 H1 H2 Hmax Hu. pose proof (run_op_run _ _ _ _ _ Hi0 H1) as Hk01.
  destruct (ksteps_keep newUID _ _ (inv_wf _ _ Hi0) (inv_rely _ _ Hi0) Hk01) as [Hwf1 Hr1].
  pose proof (run_ops_ksteps newUID driverName ops k1 Hwf1 Hr1) as Hk1m. set (km := run_ops newUID driverName ops k1) in *.
  destruct (ksteps_keep newUID _ _ Hwf1 Hr1 Hk1m) as [Hwfm Hrm].
  pose proof (follows_run_op newUID driverName n o2 km Hwfm Hrm) as Hkm2. rewrite H2 in Hkm2. cbn in Hkm2.
  pose proof (ksteps_revision _ _ _ Hwfm Hkm2). pose proof (ksteps_revision _ _ _ Hwf1 Hk1m).
  assert (kube_inv newUID k1) as Hi1 by (eapply ksteps_inv; eauto; lia).
  assert (kube_inv newUID km) as Him by (eapply ksteps_inv; eauto; lia).
  destruct (issues_stored n k0 t1 k1) as (p1&Hp1&Hu1&Hg1&_).
  { destruct (run_op_token _ _ _ _ _ _ _ (inv_wf _ _ Hi0) H1) as [?|[? _]]; auto. }
  destruct (run_op_token _ _ _ _ _ _ _ Hwfm H2) as [(k3&cur&new&Hq&Hcur&Hk'&Hg&Hun&Ht)|[(p2&Hq&Hp2&Ht) Ho]].
  - destruct (commit_before km k3 n cur new k2 Him Hq Hcur Hk' Hmax) as (Hk3&Hi3&_&Hs).
    assert (k_revision k3 ≤ maxRevision) by (subst k2; cbn in Hmax; lia).
    destruct Ht as (Ht1&Ht2&_). assert (life_le p1 cur) as Hl.
    { eapply (ksteps_life newUID k1 k3); eauto; [by etrans|congruence]. }
    pose proof (ll_gen _ _ Hl). split; lia.
  - destruct Ht as (Ht1&Ht2&_). assert (life_le p1 p2) as Hl.
    { eapply (ksteps_life newUID k1 k2); eauto; [by etrans|congruence]. }
    pose proof (ll_gen _ _ Hl). rewrite Ho. split; [lia|done].
Qed.

(** C6: Fencing tokens of one volume lifecycle are issued in order.  A token an
    operation returns is never older than a token an earlier operation
    returned, whatever this controller and other writers did in between; and
    the token of a claim, a publication or a revoke is strictly newer, so no
    two of them ever carry the same generation. *)
Theorem tokens_ordered k0 n o1 t1 k1 ops o2 t2 k2 :
  kube_inv newUID k0 →
  run_op newUID driverName n o1 k0 = (Ok (Some t1), k1) →
  run_op newUID driverName n o2 (run_ops newUID driverName ops k1) = (Ok (Some t2), k2) →
  k_revision k2 ≤ maxRevision →
  VolumeUid t1 = VolumeUid t2 →
  TokenGeneration t1 ≤ TokenGeneration t2 ∧
  (orders o2 = true → TokenGeneration t1 < TokenGeneration t2).
Proof. apply token_order. Qed.

(** C4: The recorded publications of a volume are exclusive in every reachable
    state, whatever operations ran and whatever other writers did in between:
    a node holds at most one publication; a SINGLE_NODE publication is the only
    one; at most one MULTI_NODE_SINGLE_WRITER publication is writable; and a
    volume under deletion has none. *)
Theorem publications_exclusive ops k n p a b :
  kube_inv newUID k → k_revision (run_ops newUID driverName ops k) ≤ maxRevision →
  k_store (run_ops newUID driverName ops k) !! n = Some p →
  a ∈ nodes p → b ∈ nodes p →
  (NodeID a = NodeID b ∨ exclusive a ∨
   (AccessMode a = MULTI_NODE_SINGLE_WRITER ∧ Readonly a = false ∧ Readonly b = false) → a = b) ∧
  Deleting (Status p) = false.
Proof.
  intros Hi Hmax Hp Ha Hb. pose proof (run_ops_inv newUID driverName ops k Hi Hmax) as Hi'.
  destruct (inv_objects _ _ Hi' n p Hp) as [Hok _ _]. split.
  - assert (NodeID a = NodeID b → a = b) as Hsame by (by apply (same_node p)).
    intros [E|[Hex|(Hm&Hra&Hrb)]]; [by apply Hsame|by eapply exclusive_alone|].
    destruct (decide (NodeID a = NodeID b)) as [E|E]; [by apply Hsame|].
    pose proof (ok_share _ Hok a b Ha Hb E) as Hs. unfold canSharePublication in Hs.
    rewrite Hm, Hra, Hrb in Hs. by case_decide.
  - destruct (Deleting (Status p)) eqn:Ed; [|done].
    rewrite (ok_deleting _ Hok Ed) in Ha. by apply elem_of_nil in Ha.
Qed.

Lemma release_commit n uid ids fence k r k' :
  kube_wf k → releasePublication newUID driverName n uid ids (Some fence) k = (r, k') → k_log k' ≠ k_log k →
  ∃ k1 cur new, quiet newUID k k1 ∧ k_store k1 !! n = Some cur ∧ (uid = "" ∨ pvs_UID cur = uid) ∧
    gen cur = TokenGeneration fence ∧ k' = commit_update k1 n cur new ∧
    nodes new = List.filter (λ p, negb (containsb ids (NodeID p))) (nodes cur).
Proof.
  intros Hwf Hrun Hlog. unfold releasePublication, record_errors, try, mbind, M_bind, mret, M_ret, throw in Hrun.
  pose proof (updateVolumeState_spec newUID driverName n uid true (release_mutation ids (Some fence)) k tt Hwf) as Ho.
  unfold wp in Ho.
  assert (k' = (updateVolumeState newUID driverName n uid true () (release_mutation ids (Some fence)) k).2) as ->.
  { destruct (updateVolumeState _ _ _ _ _ _ _ k) as [[]]; by simplify_eq/=. }
  inversion Ho as [e k2 Hq|x k2 Hq|cur p x k2 Hq|cur p x k1 r' Hq Hcur [Hpin _] Hm]; subst.
  1-3: by destruct (quiet_facts _ _ _ Hwf Hq) as (_&_&?).
  exists k1, cur, (status_commit true cur p k1). unfold release_mutation in Hm.
  destruct (fenceToken (Some cur)) as [t|] eqn:Et; [|done]. apply fenceToken_spec in Et as (_&Hg&_).
  destruct (TokenGeneration t =? TokenGeneration fence) eqn:Eg; [|done]. apply Z.eqb_eq in Eg. cbn [negb] in Hm.
  destruct (_ =? _)%nat; simplify_eq. split_and!; [done|done|done|lia|done|done].
Qed.

(** Unpublishing removes only what it revoked.  When [releasePublication]
    with the token of an earlier [fencePublications] changes the record, then
    every publication it removes is one that call selected and marked
    revoking, and every other publication stays, however many operations and
    foreign writes happened between the two. *)
Theorem release_removes_only_revoked k0 n uid nodeID t revoke k1 ops r k3 :
  kube_inv newUID k0 →
  fencePublications newUID driverName n uid nodeID k0 = (Ok (Some (t, revoke)), k1) →
  let k2 := run_ops newUID driverName ops k1 in
  releasePublication newUID driverName n (VolumeUid t) (map NodeID revoke) (Some t) k2 = (r, k3) →
  k_revision k3 ≤ maxRevision →
  k_log k3 ≠ k_log k2 →
  ∃ cur new, k_log k3 = k_log k2 ++ [CUpdate cur new] ∧
    pvs_UID cur = VolumeUid t ∧ gen cur = TokenGeneration t ∧
    ∀ a, a ∈ nodes cur →
      (a ∉ nodes new ↔ selects nodeID a = true) ∧ (a ∉ nodes new → a ∈ revoke ∧ Revoking a = true).
Proof.
  intros Hi0 Hf k2 Hrel Hmax Hlog. assert (ksteps newUID k0 k1) as Hk01.
  { pose proof (run_op_run n (OpFence uid nodeID) k0 (Ok (Some t)) k1 Hi0) as H. apply H. cbn. by rewrite (M_bind_Ok _ _ _ _ _ Hf). }
  destruct (fencePublications_token _ _ _ _ _ _ _ _ _ (inv_wf _ _ Hi0) Hf) as (kf&curf&Hqf&Hcurf&Hk1&Htok&Hrev).
  destruct (ksteps_keep newUID _ _ (inv_wf _ _ Hi0) (inv_rely _ _ Hi0) Hk01) as [Hwf1 Hr1].
  pose proof (run_ops_ksteps newUID driverName ops k1 Hwf1 Hr1) as Hk12. fold k2 in Hk12.
  destruct (ksteps_keep newUID _ _ Hwf1 Hr1 Hk12) as [Hwf2 Hr2].
  destruct (release_commit _ _ _ _ _ _ _ Hwf2 Hrel Hlog) as (kr&cur&new&Hq&Hcur&Hpin&Hg&->&Hnodes).
  set (pf := status_commit true curf _ kf) in *.
  assert (k_store k1 !! n = Some pf) as Hpf by (rewrite Hk1; cbn; by rewrite lookup_insert_eq).
  destruct Htok as (Hu&Hgt&Hne&_). assert (pvs_UID cur = VolumeUid t) as Huc by (destruct Hpin as [E|E]; [by destruct Hne|done]).
  pose proof (quiet_ksteps _ _ _ Hr2 Hq) as Hk2r. assert (ksteps newUID k1 kr) as Hk1r by by etrans.
  cbn in Hmax. pose proof (ksteps_revision _ _ _ Hwf1 Hk1r).
  assert (kube_inv newUID k1) as Hi1 by (eapply ksteps_inv; eauto; lia).
  assert (kube_inv newUID kr) as Hir by (eapply ksteps_inv; eauto; lia).
  assert (life_le pf cur) as Hl by (eapply (ksteps_life newUID k1 kr); eauto; [lia|congruence]).
  assert (nodes cur = nodes pf) as Hsame.
  { assert (publicationPart cur = publicationPart pf) as E by (apply (ll_same _ _ Hl); lia). by injection E. }
  destruct (quiet_facts _ _ _ Hwf2 Hq) as (_&_&Hlogq).
  exists cur, new. split_and!; [cbn; by rewrite Hlogq|done|done|]. intros a Ha.
  pose proof (obj_record _ _ (inv_objects _ _ Hir _ _ Hcur)) as Hok.
  apply (release_selected nodeID curf cur); [exact Hok|exact Hsame|by rewrite Hsame|done|done].
Qed.

(** *** Deletion *)

Lemma markVolumeDeleting_spec n volumeID admission k p t k' :
  kube_wf k → markVolumeDeleting newUID driverName n volumeID admission k = (Ok (Some (p, t)), k') →
  k_store k' !! n = Some p ∧ token_of t p ∧ Deleting (Status p) = true.
Proof.
  intros Hwf Hm. unfold markVolumeDeleting in Hm. apply M_bind_inv in Hm as [(o&k1&Hr&Hm)|(?&_&?)]; [|done].
  pose proof (internal_read_spec newUID n k) as Hs. eapply wp_run in Hs; [|exact Hr]. destruct Hs as [Hq Hs].
  destruct o as [cur|]; [|done]. destruct (foreignHandle cur volumeID); [done|].
  apply M_bind_inv in Hm as [([[p1|] x]&k2&Hu&Hm)|(?&_&?)]; [|done|done].
  unfold lift, mbind, M_bind, mret, M_ret in Hm. cbn [fst snd] in Hm.
  destruct (fenceToken (Some p1)) eqn:Et; simplify_eq/=. apply fenceToken_spec in Et.
  destruct (quiet_facts newUID k k1 Hwf Hq) as (Hwf1&_).
  pose proof (updateVolumeState_spec newUID driverName n (pvs_UID cur) true (markVolumeDeletingMutation volumeID admission) k1 tt Hwf1) as Ho.
  eapply wp_run in Ho; [|exact Hu].
  assert (∀ c, match markVolumeDeletingMutation volumeID admission c with
    | Change q _ => Deleting (Status q) = true | NoChange q _ => q = c ∧ Deleting (Status q) = true | Refuse _ => True end) as Hdel.
  { intros c. unfold markVolumeDeletingMutation. destruct (foreignHandle c volumeID), (refuseRecoveryPending c); try done.
    destruct (Deleting (Status c)) eqn:E; [done|]. destruct (_ <? _)%nat; [done|].
    by destruct (match admission with Some _ => _ | None => _ end). }
  inversion Ho as [| |c q x' k3 Hq3 Hc Hp Hmut|c q x' k3 r Hq3 Hc Hp Hmut [E|(e&He&_)]]; simplify_eq;
    specialize (Hdel c); rewrite Hmut in Hdel.
  - by destruct Hdel as [-> ?].
  - split_and!; [cbn; by rewrite lookup_insert_eq|done|exact Hdel].
Qed.

(** An update every callback run of which is refused commits nothing. *)
Lemma refused_update {X} n uid bump (mutate : PillarVolumeState → mutation X) k r k' :
  uid ≠ "" → update_outcome newUID driverName n uid bump mutate k r k' →
  (∀ k1 cur, quiet newUID k k1 → k_revision k1 ≤ k_revision k' → k_store k1 !! n = Some cur → pvs_UID cur = uid →
     ∃ e, mutate cur = Refuse e) →
  (∃ e, r = Err e) ∧ quiet newUID k k'.
Proof.
  intros Hne Ho Href.
  destruct Ho as [e k2 Hq|x k2 Hq ?|cur p x k2 Hq Hcur [Hp _] Hm|cur p x k2 r' Hq Hcur [Hp _] Hm _]; [eauto|done|exfalso..];
    destruct Hp as [?|Hp]; try done; edestruct (Href k2 cur Hq) as [e He]; try done; cbn; congruence || lia.
Qed.

Lemma committedToken_refused {X} n uid (x0 : X) mutate `{!StatusMutation mutate} k r k' :
  kube_wf k → uid ≠ "" → committedToken newUID driverName n uid x0 mutate k = (r, k') →
  (∀ k1 cur, quiet newUID k k1 → k_revision k1 ≤ k_revision k' → k_store k1 !! n = Some cur → pvs_UID cur = uid →
     ∃ e, mutate cur = Refuse e) →
  (∃ e, r = Err e) ∧ quiet newUID k k'.
Proof.
  intros Hwf Hne Hrun Href. pose proof (updateVolumeState_spec newUID driverName n uid true mutate k x0 Hwf) as Ho.
  unfold wp in Ho. unfold committedToken in Hrun.
  assert (k' = (updateVolumeState newUID driverName n uid true x0 mutate k).2) as Hk'.
  { unfold mbind, M_bind, lift, mret, M_ret in Hrun. destruct (updateVolumeState _ _ _ _ _ _ _ k) as [[o|] ?];
      [destruct (fenceToken o.1)|]; by simplify_eq/=. }
  rewrite <- Hk' in Ho. destruct (refused_update _ _ _ _ _ _ _ Hne Ho Href) as [[e He] Hq]. split; [|done].
  unfold mbind, M_bind in Hrun. destruct (updateVolumeState _ _ _ _ _ _ _ k) as [[]]; simplify_eq/=. by eexists.
Qed.

(** Deletion is final.  Once [markVolumeDeleting] returned the record of a
    lifecycle, that record has no publication, and no later reservation or
    claim on the lifecycle succeeds or writes anything, whatever operations and
    foreign writes happened in between. *)
Theorem deletion_is_final k0 n volumeID admission p t k1 ops o pub r k3 :
  kube_inv newUID k0 →
  markVolumeDeleting newUID driverName n volumeID admission k0 = (Ok (Some (p, t)), k1) →
  o = OpReserve (VolumeUid t) pub ∨ o = OpClaim (VolumeUid t) →
  run_op newUID driverName n o (run_ops newUID driverName ops k1) = (r, k3) →
  k_revision k3 ≤ maxRevision →
  nodes p = [] ∧ (∃ e, r = Err e) ∧ k_log k3 = k_log (run_ops newUID driverName ops k1).
Proof.
  intros Hi0 Hm Ho Hrun Hmax. assert (ksteps newUID k0 k1) as Hk01.
  { apply (run_op_run n (OpMarkDeleting volumeID admission) k0 (Ok (Some t)) k1 Hi0). cbn. by rewrite (M_bind_Ok _ _ _ _ _ Hm). }
  destruct (markVolumeDeleting_spec _ _ _ _ _ _ _ (inv_wf _ _ Hi0) Hm) as (Hp&(Hu&_&Hne&_)&Hd).
  destruct (ksteps_keep newUID _ _ (inv_wf _ _ Hi0) (inv_rely _ _ Hi0) Hk01) as [Hwf1 Hr1].
  pose proof (run_ops_ksteps newUID driverName ops k1 Hwf1 Hr1) as Hk12. set (k2 := run_ops newUID driverName ops k1) in *.
  destruct (ksteps_keep newUID _ _ Hwf1 Hr1 Hk12) as [Hwf2 Hr2].
  pose proof (follows_run_op newUID driverName n o k2 Hwf2 Hr2) as Hk23. rewrite Hrun in Hk23. cbn in Hk23.
  pose proof (ksteps_revision _ _ _ Hwf2 Hk23). pose proof (ksteps_revision _ _ _ Hwf1 Hk12).
  assert (kube_inv newUID k1) as Hi1 by (eapply ksteps_inv; eauto; lia).
  assert (∀ kq cur, quiet newUID k2 kq → k_revision kq ≤ k_revision k3 → k_store kq !! n = Some cur →
    pvs_UID cur = VolumeUid t → refuseDeleting cur = Some (EStatus FailedPrecondition "volume is being deleted")) as Hdel.
  { intros kq cur Hq Hrev Hcur Huc. pose proof (quiet_ksteps _ _ _ Hr2 Hq) as Hk2q.
    assert (life_le p cur) as Hl by (eapply (ksteps_life newUID k1 kq); eauto; [by etrans|lia|congruence]).
    unfold refuseDeleting. by rewrite (ll_deleting _ _ Hl Hd). }
  assert ((∃ e, r = Err e) ∧ quiet newUID k2 k3) as [He Hq].
  { destruct Ho as [-> | ->]; cbn [run_op] in Hrun.
    - unfold reservePublication, reservePublicationState in Hrun. eapply run_refused; [exact Hrun|].
      intros r1 Hc. eapply (committedToken_refused _ _ _ _ _ _ _ Hwf2 Hne Hc).
      intros kq cur Hq Hrev Hcur Huc. unfold reserve_mutation. rewrite (Hdel kq cur) by done. eauto.
    - unfold claimOperation in Hrun. eapply run_refused; [exact Hrun|].
      intros r1 Hc. eapply (committedToken_refused _ _ _ _ _ _ _ Hwf2 Hne Hc).
      intros kq cur Hq Hrev Hcur Huc. unfold claim_mutation. rewrite (Hdel kq cur) by done. eauto. }
  split_and!; [|done|by destruct (quiet_facts _ _ _ Hwf2 Hq) as (_&_&?)].
  apply (ok_deleting p); [apply (obj_record newUID p), (inv_objects _ _ Hi1 _ _ Hp)|done].
Qed.
End Theorems.

(** ** Concrete runs

    The controller creates a volume and publishes it to a node, while another
    replica publishes it to a second node between its read and its write. *)

(** A reservation another replica commits. *)
Definition replica_reserve (n : string) (pub : VolumePublication) : env_write := {|
  ew_name := n;
  ew_write := λ cur,
    match cur with
    | Some c => match reserve_mutation pub c with Change p _ => Some (bumped true p) | _ => Some c end
    | None => None
    end |}.

Lemma replica_reserve_ok n pub : env_ok (replica_reserve n pub).
Proof.
  intros [c|]; cbn; [|done]. assert (lifecycle_step c c) by by split; [left|..].
  destruct (reserve_mutation pub c) eqn:E; [|done..].
  exact (@pm_step _ true (reserve_mutation pub) _ c p x E).
Qed.

Definition ex_pub (node mode : string) : VolumePublication := {|
  NodeID := node; InitiatorID := "iqn." +:+ node; AccessMode := mode; Readonly := false;
  Revoking := false; Local := false |}.
Definition ex_pubA : VolumePublication := ex_pub "node-a" MULTI_NODE_MULTI_WRITER.
Definition ex_pubB : VolumePublication := ex_pub "node-b" MULTI_NODE_MULTI_WRITER.

Definition ex_quiet_call : api_call := {| ac_before := []; ac_outcome := CallOk |}.
Definition ex_start (before : list env_write) : kube := {|
  k_store := ∅; k_revision := 0; k_log := [];
  k_calls := replicate 6 ex_quiet_call ++ [{| ac_before := before; ac_outcome := CallOk |}] |}.
Definition ex_created (before : list env_write) : kube :=
  run_ops ex_newUID "" [("pv-1", OpEnsure ex_block_spec None)] (ex_start before).
Definition ex_race : kube := ex_created [replica_reserve "pv-1" ex_pubB].
Definition ex_alone : kube := ex_created [].

Lemma ex_start_inv before : Forall env_ok before → kube_inv ex_newUID (ex_start before).
Proof.
  intros Hb. split; [intros n p H| |done|intros n p H].
  - change (k_store (ex_start before)) with (∅ : gmap string PillarVolumeState) in H. by rewrite lookup_empty in H.
  - unfold rely. cbn. repeat constructor. exact Hb.
  - change (k_store (ex_start before)) with (∅ : gmap string PillarVolumeState) in H. by rewrite lookup_empty in H.
Qed.

Lemma ex_race_inv : kube_inv ex_newUID ex_race.
Proof.
  apply run_ops_inv; [apply ex_start_inv; repeat constructor; apply replica_reserve_ok|].
  vm_compute. discriminate.
Qed.
Lemma ex_alone_inv : kube_inv ex_newUID ex_alone.
Proof. apply run_ops_inv; [apply ex_start_inv; constructor|vm_compute; discriminate]. Qed.

Lemma run_eq {A} (m : Controller A) k a : (m k).1 = a → m k = (a, (m k).2).
Proof. intros <-. apply surjective_pairing. Qed.

Definition ex_first : GoResult (option FencingToken) * kube :=
  run_op ex_newUID "" "pv-1" (OpReserve "uid-1" ex_pubA) ex_race.
Definition ex_second : GoResult (option FencingToken) * kube :=
  run_op ex_newUID "" "pv-1" (OpFence "uid-1" "node-a")
    (run_ops ex_newUID "" [("pv-1", OpClaim "uid-1")] ex_first.2).
Definition ex_t1 : FencingToken := {| VolumeUid := "uid-1"; TokenGeneration := 2 |}.
Definition ex_t2 : FencingToken := {| VolumeUid := "uid-1"; TokenGeneration := 4 |}.

Lemma ex_first_eq : run_op ex_newUID "" "pv-1" (OpReserve "uid-1" ex_pubA) ex_race = (Ok (Some ex_t1), ex_first.2).
Proof. apply run_eq. vm_compute. reflexivity. Qed.
Lemma ex_second_eq :
  run_op ex_newUID "" "pv-1" (OpFence "uid-1" "node-a")
    (run_ops ex_newUID "" [("pv-1", OpClaim "uid-1")] ex_first.2) = (Ok (Some ex_t2), ex_second.2).
Proof. apply run_eq. vm_compute. reflexivity. Qed.

Lemma tokens_ordered_witness : TokenGeneration ex_t1 < TokenGeneration ex_t2.
Proof.
  apply (tokens_ordered ex_newUID "" ex_race "pv-1" (OpReserve "uid-1" ex_pubA) ex_t1 ex_first.2
           [("pv-1", OpClaim "uid-1")] (OpFence "uid-1" "node-a") ex_t2 ex_second.2);
    [exact ex_race_inv|exact ex_first_eq|exact ex_second_eq|vm_compute; discriminate|reflexivity|reflexivity].
Defined.

Lemma publications_exclusive_witness : ∃ p,
  k_store (run_ops ex_newUID "" [("pv-1", OpReserve "uid-1" ex_pubA)] ex_race) !! "pv-1" = Some p ∧
  nodes p = [ex_pubB; ex_pubA] ∧ Deleting (Status p) = false.
Proof.
  destruct (k_store (run_ops ex_newUID "" [("pv-1", OpReserve "uid-1" ex_pubA)] ex_race) !! "pv-1") as [p|] eqn:E;
    [|vm_compute in E; discriminate].
  assert (nodes p = [ex_pubB; ex_pubA]) as Hn by (vm_compute in E; by simplify_eq).
  exists p. split; [done|]. split; [done|].
  destruct (publications_exclusive ex_newUID "" [("pv-1", OpReserve "uid-1" ex_pubA)] ex_race "pv-1" p ex_pubA ex_pubB)
    as [_ Hd];
    [exact ex_race_inv|vm_compute; discriminate|exact E|rewrite Hn; right; left|rewrite Hn; left|exact Hd].
Defined.

(** Unpublish: the volume is published to two nodes, one is revoked and
    released while the record's phase is written in between. *)
Definition ex_published : kube :=
  run_ops ex_newUID "" [("pv-1", OpReserve "uid-1" ex_pubA)] ex_race.
Definition ex_revoking : VolumePublication := set_Revoking ex_pubA.
Definition ex_fenced : GoResult (option (FencingToken * list VolumePublication)) * kube :=
  fencePublications ex_newUID "" "pv-1" "uid-1" "node-a" ex_published.
Definition ex_fence : FencingToken := {| VolumeUid := "uid-1"; TokenGeneration := 3 |}.
Definition ex_between : list (string * op) := [("pv-1", OpPartial "uid-1" "/dev/vg/data" None 0)].
Definition ex_released : GoResult nat * kube :=
  releasePublication ex_newUID "" "pv-1" (VolumeUid ex_fence) (map NodeID [ex_revoking]) (Some ex_fence)
    (run_ops ex_newUID "" ex_between ex_fenced.2).

Lemma ex_published_inv : kube_inv ex_newUID ex_published.
Proof. apply run_ops_inv; [exact ex_race_inv|vm_compute; discriminate]. Qed.
Lemma ex_fenced_eq :
  fencePublications ex_newUID "" "pv-1" "uid-1" "node-a" ex_published
  = (Ok (Some (ex_fence, [ex_revoking])), ex_fenced.2).
Proof. apply run_eq. vm_compute. reflexivity. Qed.

Lemma release_removes_only_revoked_witness : ∃ cur new,
  k_log ex_released.2 = k_log (run_ops ex_newUID "" ex_between ex_fenced.2) ++ [CUpdate cur new] ∧
  pvs_UID cur = "uid-1".
Proof.
  destruct (release_removes_only_revoked ex_newUID "" ex_published "pv-1" "uid-1" "node-a" ex_fence [ex_revoking]
              ex_fenced.2 ex_between ex_released.1 ex_released.2) as (cur & new & Hl & Hu & _);
    [exact ex_published_inv|exact ex_fenced_eq|apply surjective_pairing|vm_compute; discriminate| |].
  - intros H. apply (f_equal (@length commit)) in H. vm_compute in H. discriminate.
  - exists cur, new. split; [exact Hl|exact Hu].
Defined.

(** Deletion of an unpublished volume. *)
Definition ex_marked : GoResult (option (PillarVolumeState * FencingToken)) * kube :=
  markVolumeDeleting ex_newUID "" "pv-1" "agent/iscsi/lvm/vg/data" None ex_alone.
Definition ex_late : GoResult (option FencingToken) * kube :=
  run_op ex_newUID "" "pv-1" (OpReserve "uid-1" ex_pubA) (run_ops ex_newUID "" [("pv-1", OpReserve "uid-1" ex_pubB)] ex_marked.2).

Lemma deletion_is_final_witness : ∃ p t,
  ex_marked.1 = Ok (Some (p, t)) ∧ VolumeUid t = "uid-1" ∧ nodes p = [] ∧ ∃ e, ex_late.1 = Err e.
Proof.
  destruct ex_marked.1 as [[[p t]|]|] eqn:E; [|exfalso; vm_compute in E; discriminate..].
  assert (VolumeUid t = "uid-1") as Hu.
  { apply (f_equal (λ r, match r with Ok (Some (_, t)) => VolumeUid t | _ => "" end)) in E. symmetry. exact E. }
  exists p, t. split; [done|]. split; [done|].
  destruct (deletion_is_final ex_newUID "" ex_alone "pv-1" "agent/iscsi/lvm/vg/data" None p t ex_marked.2
              [("pv-1", OpReserve "uid-1" ex_pubB)] (OpReserve "uid-1" ex_pubA) ex_pubA ex_late.1 ex_late.2)
    as (Hn & He & _);
    [exact ex_alone_inv|rewrite <- E; apply surjective_pairing|left; by rewrite Hu|apply surjective_pairing|vm_compute; discriminate|].
  split; [exact Hn|exact He].
Defined.
