(* ===== verification/EndToEnd.v ===== *)
(** * Controller and agent together

    The controller orders its requests by the tokens it commits; the agent
    enforces that order on the storage node.  Requests travel between the two
    unreliably: a request may be delayed arbitrarily, and arrive after the
    requests that were meant to follow it. *)
From stdpp Require Import base numbers list strings gmap relations pretty.
From S2P Require Import Prelude GoStd FencingMark FencingStore Backend Fencing FencingCorrect RecoveryAuth Recovery.
From S2P Require Import FencingTheorems PillarVolumeState VolumeFencing KubeCorrect Lifecycle VolumeFencingCorrect.
From S2P Require Import IdentityTheorems ControllerTheorems.
Open Scope Z_scope.

Section EndToEnd.
Context (newUID : Z → string) `{!Inj eq eq newUID} (driverName : string).
Context {B P : Type} (s : Server B P).

(** C2: A delayed request never overtakes a newer one.  The controller issues a
    token with one operation (say, a publication) and later, after any history
    of its own operations and foreign writes, a token of the same lifecycle
    with a claim, a publication or a revoke.  Once the agent carried out a
    request with the second token, every request with the first one is refused
    without effect, whatever the agent did and however often it crashed in
    between. *)
Theorem delayed_request_refused {A} k0 n o1 t1 k1 ops o2 t2 k2
    v cls1 cls2 b check (zero : A) mutate (w1 : world B) a w1' w2 err w2' :
  kube_inv newUID k0 →
  run_op newUID driverName n o1 k0 = (Ok (Some t1), k1) →
  orders o2 = true →
  run_op newUID driverName n o2 (run_ops newUID driverName ops k1) = (Ok (Some t2), k2) →
  k_revision k2 ≤ maxRevision →
  VolumeUid t1 = VolumeUid t2 →
  disk_inv (w_disk w1) →
  fencedChecked s v (Some t2) cls2 b check zero mutate w1 = (Ok a, w1') →
  rtc (agent_step s) w1' w2 →
  fenced_run s v (Some t1) cls1 w2 err w2' →
  refused err w2 w2'.
Proof.
  intros Hi H1 Ho H2 Hmax Hu Hd Hf Hs Hr.
  destruct (token_order newUID driverName _ _ _ _ _ _ _ _ _ Hi H1 H2 Hmax Hu) as [_ Hlt]. specialize (Hlt Ho).
  destruct (checked_ok_durable s _ _ _ _ _ _ _ _ _ _ Hf Hd) as (m & Hdm & Hum & Hgm & _).
  assert (disk_steps (w_disk w1) (w_disk w1')) as Hs1 by (eapply fenced_run_steps; [by eapply run_checked|done]).
  assert (disk_inv (w_disk w1')) as Hi1 by (by eapply disk_steps_inv).
  destruct (agent_steps_steps s _ _ Hs Hi1) as [_ Hs2].
  eapply (dominated_later_rejected s _ _ _ (w_disk w1')); try done. right. cbn in *. split; [congruence|lia].
Qed.
End EndToEnd.

(** The publication of a node (token [ex_t1]) is delayed until after the agent
    carried out its revoke (token [ex_t2]). *)
Definition ex_revoked : GoResult unit * world nat :=
  fencedChecked ex_server "tank/pvc-1" (Some ex_t2) fenceRevoke None None tt (Some ex_mutate) ex_world.
Definition ex_delayed : GoResult unit * world nat :=
  fencedChecked ex_server "tank/pvc-1" (Some ex_t1) fenceGrant None None tt (Some ex_mutate) ex_revoked.2.

Lemma ex_revoked_eq :
  fencedChecked ex_server "tank/pvc-1" (Some ex_t2) fenceRevoke None None tt (Some ex_mutate) ex_world
  = (Ok tt, ex_revoked.2).
Proof. by vm_compute. Qed.

Lemma delayed_request_refused_witness : refused (err_of ex_delayed.1) ex_revoked.2 ex_delayed.2.
Proof.
  apply (delayed_request_refused ex_newUID "" ex_server ex_race "pv-1" (OpReserve "uid-1" ex_pubA) ex_t1 ex_first.2
           [("pv-1", OpClaim "uid-1")] (OpFence "uid-1" "node-a") ex_t2 ex_second.2
           "tank/pvc-1" fenceGrant fenceRevoke None None tt (Some ex_mutate) ex_world tt ex_revoked.2 ex_revoked.2
           (err_of ex_delayed.1) ex_delayed.2);
    [exact ex_race_inv|exact ex_first_eq|reflexivity|exact ex_second_eq|vm_compute; discriminate|reflexivity
    |exact ex_disk_inv|exact ex_revoked_eq|apply rtc_refl|].
  apply (run_checked ex_server "tank/pvc-1" (Some ex_t1) fenceGrant None None tt (Some ex_mutate) ex_revoked.2).
  apply surjective_pairing.
Defined.
