(* ===== verification/LioFs.v ===== *)
(** * The configfs view of the LIO target (internal/agent/lio/configfs.go)

    [FS] is the package's file-system interface: the system calls on the
    configfs mount, on a kernel state [K].  The [configfs] helpers are
    translated on top of it.

    A path is the list of its components below "/", so [Join] and [Clean]
    act on components; [joinp] is filepath.Join with one more element.

    [FSLaws] (LioLaws) is what the package relies on of configfs, stated on a [view] of
    the kernel state as a tree: reads tell the truth, mkdir only adds, rmdir
    removes one subtree, a symlink or an attribute write changes one entry
    (and attributes the kernel derives from it).  What a write stores is left
    open except for "enable" switches: the code reads back what matters. *)
From stdpp Require Import base numbers list strings gmap.
From Stdlib Require Import Ascii.
From S2P Require Import Prelude GoStd.

(** ** Paths *)

Definition path : Type := list string.

(** [filepath.Join(p, e)] of a clean absolute path [p]. *)
Definition joinp (p : path) (e : string) : path :=
  rev (foldl (clean_step true) (rev p) (Split "/" e)).
Definition joins (p : path) (es : list string) : path := foldl joinp p es.
(** [filepath.Dir] *)
Definition dirp (p : path) : path := removelast p.

(** A name [joinp] appends as it is. *)
Definition plain_name (e : string) : bool :=
  negb (bool_decide (e = "")) && negb (bool_decide (e = ".")) && negb (bool_decide (e = ".."))
  && forallb (λ c, negb (Ascii.eqb c "/")) (bytes_of_string e).

Lemma Split_no_sep sep s :
  forallb (λ c, negb (Ascii.eqb c sep)) (bytes_of_string s) = true → Split sep s = [s].
Proof.
  induction s as [|c s IH]; [done|]. cbn. rewrite andb_true_iff. intros [Hc Hs].
  apply negb_true_iff in Hc. rewrite Hc. fold (bytes_of_string s) in Hs. by rewrite (IH Hs).
Qed.

Lemma joinp_plain p e : plain_name e = true → joinp p e = p ++ [e].
Proof.
  unfold plain_name, joinp. rewrite !andb_true_iff, !negb_true_iff. intros [[[H1 H2] H3] H4].
  rewrite (Split_no_sep _ _ H4). cbn. unfold clean_step. rewrite H1, H2, H3. cbn. by rewrite rev_involutive.
Qed.

Lemma joins_plain p es : forallb plain_name es = true → joins p es = p ++ es.
Proof.
  revert p. induction es as [|e es IH]; intros p; cbn [forallb joins foldl]; [by rewrite app_nil_r|].
  rewrite andb_true_iff. intros [He Hes]. unfold joins in IH. rewrite (IH _ Hes), joinp_plain by done.
  by rewrite <- app_assoc.
Qed.
#[global] Arguments joinp : simpl never.
#[global] Arguments joins : simpl never.

(** ** System calls *)

Inductive errno := EEXIST | ENOTEMPTY | ENOENT | EBUSY | ENOSYS | EOTHER (name : string).
#[export] Instance errno_eq_dec : EqDecision errno.
Proof. solve_decision. Defined.

(** [errors.Is(err, fs.ErrExist)] and [fs.ErrNotExist] of an errno. *)
Definition IsExist (e : errno) : bool := match e with EEXIST | ENOTEMPTY => true | _ => false end.
Definition IsNotExist (e : errno) : bool := match e with ENOENT => true | _ => false end.

Inductive entry_kind := KDir | KFile | KLink.
#[export] Instance entry_kind_eq_dec : EqDecision entry_kind.
Proof. solve_decision. Defined.

Class FS (K : Type) := {
  Mkdir : path → M K errno unit;
  Rmdir : path → M K errno unit;
  WriteFile : path → string → M K errno unit;
  ReadFile : path → M K errno string;
  Symlink : path → path → M K errno unit;
  Readlink : path → M K errno string;
  Unlink : path → M K errno unit;
  Lstat : path → M K errno entry_kind;
  ReadDir : path → M K errno (list (string * entry_kind));
}.

(** [err := call()]: the error is a value the code branches on. *)
Definition sys {K A} (m : M K errno A) : M K go_error (result errno A) := λ k,
  let '(r, k') := m k in (Ok r, k').

(** [for _, x := range l] with a body that may return early with an error. *)
Fixpoint for_each {W E A} (f : A → M W E unit) (l : list A) : M W E unit :=
  match l with
  | [] => mret tt
  | x :: l => f x ;; for_each f l
  end.

(** ** Attribute text *)

Definition NULb : ascii := Ascii.Ascii false false false false false false false false.
Fixpoint trimLeftNUL (s : string) : string :=
  match s with
  | String c s' => if Ascii.eqb c NULb then trimLeftNUL s' else s
  | EmptyString => ""
  end.
(** [strings.TrimRight(s, "\x00")] *)
Definition trimRightNUL (s : string) : string := rev_string (trimLeftNUL (rev_string s)).
Definition attr_text (data : string) : string := TrimSpace (trimRightNUL data).
Definition newline : string := String (Ascii.Ascii false true false true false false false false) "".
Definition secret_text (data : string) : string := TrimSuffix (trimRightNUL data) newline.

#[global] Arguments attr_text : simpl never.
#[global] Arguments secret_text : simpl never.

Definition eio (what : string) : go_error := EPlain ("configfs " +:+ what).

(** [resolvedLinkTarget] *)
Definition resolvedLinkTarget (linkPath : path) (target : string) : path :=
  if IsAbs target then joinp [] target else joinp (dirp linkPath) target.

Section Configfs.
Context {K : Type} `{FS K}.
Abbreviation Lio := (M K go_error).

Definition exists_ (p : path) : Lio bool :=
  r ← sys (Lstat p);
  match r with
  | Ok _ => mret true
  | Err e => if IsNotExist e then mret false else throw (eio "stat")
  end.

Definition ensureDir (p : path) : Lio unit :=
  r ← sys (Mkdir p);
  match r with
  | Ok _ => mret tt
  | Err e =>
      if negb (IsExist e) then throw (eio "mkdir")
      else
        fi ← sys (Lstat p);
        match fi with
        | Err _ => throw (eio "stat after EEXIST")
        | Ok k => if decide (k ≠ KDir) then throw (eio "mkdir: exists and is not a directory") else mret tt
        end
  end.

Definition readAttr (p : path) : Lio string :=
  r ← sys (ReadFile p);
  match r with
  | Ok data => mret (attr_text data)
  | Err e => if IsNotExist e then mret ""%string else throw (eio "read")
  end.

Definition writeAttr (p : path) (value : string) : Lio unit :=
  r ← sys (WriteFile p value);
  match r with
  | Err _ => throw (eio "write")
  | Ok _ =>
      got ← readAttr p;
      if decide (got ≠ value) then throw (eio "verify") else mret tt
  end.

Definition ensureAttr (p : path) (value : string) : Lio unit :=
  got ← readAttr p;
  if decide (got = value) then mret tt else writeAttr p value.

Definition readSecretAttr (p : path) : Lio string :=
  r ← sys (ReadFile p);
  match r with Ok data => mret (secret_text data) | Err _ => throw (eio "read") end.

Definition chapUnset : string := "NULL".

Definition ensureSecretAttr (p : path) (value : string) : Lio unit :=
  got ← readSecretAttr p;
  if bool_decide (got = value) || (bool_decide (value = chapUnset) && bool_decide (got = "")) then mret tt
  else
    r ← sys (WriteFile p value);
    match r with
    | Err _ => throw (eio "write")
    | Ok _ =>
        got ← readSecretAttr p;
        if decide (got ≠ value) then throw (eio "verify") else mret tt
    end.

Definition ensureSymlink (oldname newname : path) : Lio unit :=
  r ← sys (Readlink newname);
  match r with
  | Ok existing =>
      if decide (resolvedLinkTarget newname existing = oldname) then mret tt
      else throw (eio "symlink: already points elsewhere")
  | Err e =>
      if IsNotExist e then
        r ← sys (Symlink oldname newname);
        match r with Ok _ => mret tt | Err _ => throw (eio "symlink") end
      else throw (eio "readlink")
  end.

Fixpoint read_links (dir : path) (entries : list (string * entry_kind)) : Lio (list (string * path)) :=
  match entries with
  | [] => mret []
  | (name, k) :: entries =>
      if decide (k ≠ KLink) then read_links dir entries
      else
        let p := joinp dir name in
        r ← sys (Readlink p);
        match r with
        | Err _ => throw (eio "readlink")
        | Ok target => rest ← read_links dir entries; mret ((name, resolvedLinkTarget p target) :: rest)
        end
  end.

(** The links of a directory; the order of the listing stands for Go's
    unspecified map order. *)
Definition symlinks (dir : path) : Lio (list (string * path)) :=
  r ← sys (ReadDir dir);
  match r with
  | Err e => if IsNotExist e then mret [] else throw (eio "readdir")
  | Ok entries => read_links dir entries
  end.

Definition subdirs (dir : path) : Lio (list string) :=
  r ← sys (ReadDir dir);
  match r with
  | Err e => if IsNotExist e then mret [] else throw (eio "readdir")
  | Ok entries => mret (map fst (List.filter (λ e, bool_decide (e.2 = KDir)) entries))
  end.

Definition unlink_one (dir : path) (link : string * path) : Lio unit :=
  r ← sys (Unlink (joinp dir link.1));
  match r with
  | Ok _ => mret tt
  | Err e => if IsNotExist e then mret tt else throw (eio "unlink")
  end.

Definition removeSymlinks (dir : path) : Lio unit :=
  links ← symlinks dir;
  for_each (unlink_one dir) links.

Definition removeDir (p : path) : Lio unit :=
  r ← sys (Rmdir p);
  let verify :=
    ok ← exists_ p;
    if ok : bool then throw (eio "verify rmdir: still present after removal") else mret tt in
  match r with
  | Ok _ => verify
  | Err e => if IsNotExist e then verify else throw (eio "rmdir")
  end.
End Configfs.
