(* ===== verification/LioTarget.v ===== *)
(** * iSCSI targets in LIO's configfs (internal/agent/lio/target.go, chap.go, exports.go)

    [Target] is the export of one volume; each method is a computation on the
    kernel state.  Errors keep the two values callers test for
    ([ErrTargetNotFound], [ErrDeviceHeld]); the messages around them are
    dropped.  DiscardUnsupported only logs.  The unit serial is a name-based
    UUID of the IQN computed by a library ([DeriveUnitSerial]), and the device
    claimer is the caller's ([DeviceClaimer]). *)
From stdpp Require Import base numbers list strings gmap pretty.
From Stdlib Require Import Ascii.
From S2P Require Import Prelude GoStd GoNet FencingMark FencingStore Backend Fencing AgentServer LioFs.
Open Scope Z_scope.

(** ** Names *)

Definition LioDefaultPort : Z := 3260.
Definition HBAIndex : Z := 3260.
Definition LUNName : string := "lun_0".
Definition lunLinkName : string := "backstore".
Definition mappedLUNLinkName : string := "lun".
Definition unitSerialPrefix : string := "T10 VPD Unit Serial Number:".
Definition aclAuthInherited : string := "-1".
Definition MaxCHAPValueLength : nat := 255.

(** ** CHAP credentials of node ACLs *)

Record CHAP := {
  chap_Username : string;
  chap_Password : string;
  chap_MutualUsername : string;
  chap_MutualPassword : string;
}.

Definition chap_Mutual (c : CHAP) : bool :=
  negb (bool_decide (chap_MutualUsername c = "")) || negb (bool_decide (chap_MutualPassword c = "")).

Definition validateCHAPValue (v : string) : GoResult unit :=
  if bool_decide (v = "") then Err (EPlain "is required")
  else if (MaxCHAPValueLength <? String.length v)%nat then Err (EPlain "is too long")
  else if existsb (λ c, Ascii.eqb c NULb || Ascii.eqb c (byte_of_Z 10)) (bytes_of_string v) then
    Err (EPlain "must not contain NUL or newline")
  else if HasPrefix v chapUnset then Err (EPlain "must not start with NULL")
  else Ok tt.

Fixpoint validateCHAPValues (vs : list string) : GoResult unit :=
  match vs with
  | [] => Ok tt
  | v :: vs => _ ← validateCHAPValue v; validateCHAPValues vs
  end.

Definition chap_Validate (c : CHAP) : GoResult unit :=
  validateCHAPValues ([chap_Username c; chap_Password c]
    ++ if chap_Mutual c then [chap_MutualUsername c; chap_MutualPassword c] else []).

(** [ValidateIQN] *)
Definition ValidateIQN (name : string) : GoResult unit :=
  if bool_decide (name = "") then Err (EPlain "iSCSI name is empty")
  else if (MaxIQNLength <? String.length name)%nat then Err (EPlain "iSCSI name is too long")
  else if existsb (λ c, Ascii.eqb c "/" || Ascii.eqb c NULb) (bytes_of_string name)
          || bool_decide (name = ".") || bool_decide (name = "..") then
    Err (EPlain "iSCSI name is not a valid configfs directory name")
  else Ok tt.

Fixpoint ValidateIQNs (names : list string) : GoResult unit :=
  match names with
  | [] => Ok tt
  | n :: names => _ ← ValidateIQN n; ValidateIQNs names
  end.

(** [FormatPortal]: net.JoinHostPort brackets a host with a colon. *)
Definition FormatPortal (addr : string) (port : Z) : string :=
  if containsByte ":" addr then "[" +:+ addr +:+ "]:" +:+ Itoa port else addr +:+ ":" +:+ Itoa port.

(** [ParsePortal] *)
Definition ParsePortal (name : string) : GoResult (string * Z) :=
  match SplitHostPort name with
  | None => Err (EPlain "parse iSCSI portal")
  | Some (host, portText) =>
      match Atoi portText with
      | Some p => if (p <? 1) || (65535 <? p) then Err (EPlain "parse iSCSI portal: invalid port") else Ok (host, p)
      | None => Err (EPlain "parse iSCSI portal: invalid port")
      end
  end.

(** ** Targets *)

Record Target := {
  ConfigfsRoot : string;
  IQN : string;
  DevicePath : string;
  BindAddress : string;
  TPort : Z;
  ACLEnabled : bool;
  AllowedInitiators : list string;
  UnitSerial : string;
  LocalAttach : bool;
  TargetCHAP : option CHAP;
}.

Definition rootPath (t : Target) : path :=
  joinp [] (if bool_decide (ConfigfsRoot t = "") then DefaultConfigfsRoot else ConfigfsRoot t).
Definition cfsTargetDir (t : Target) : path := joinp (rootPath t) "target".
Definition iscsiDir (t : Target) : path := joinp (cfsTargetDir t) "iscsi".
Definition hbaDir (t : Target) : path :=
  joinp (joinp (cfsTargetDir t) "core") ("iblock_" +:+ pretty HBAIndex).
Definition targetDir (t : Target) : path := joinp (iscsiDir t) (IQN t).
Definition tpgDir (t : Target) : path := joinp (targetDir t) TPGName.
Definition lunDir (t : Target) : path := joinp (joinp (tpgDir t) "lun") LUNName.
Definition aclsDir (t : Target) : path := joinp (tpgDir t) "acls".
Definition npDir (t : Target) : path := joinp (tpgDir t) "np".
Definition attribDir (t : Target) : path := joinp (tpgDir t) "attrib".
Definition tpgEnable (t : Target) : path := joinp (tpgDir t) "enable".
Definition aclDir (t : Target) (iqn : string) : path := joinp (aclsDir t) iqn.
Definition aclAuthDir (t : Target) (iqn : string) : path := joinp (aclDir t iqn) "auth".
Definition BackstoreNameForIQN (iqn : string) : string := TrimPrefix iqn OwnedIQNPrefix.
Definition BackstoreDir (t : Target) : path := joinp (hbaDir t) (BackstoreNameForIQN (IQN t)).

(** [Portal]; [ip.To4() != nil] is an address [ParseIP] reads as IPv4 or
    IPv4-mapped. *)
Definition Target_Portal (t : Target) : GoResult string :=
  match ParseIP (BindAddress t) with
  | None => Err (EPlain "invalid bind address")
  | Some ip =>
      if (TPort t <? 1) || (65535 <? TPort t) then Err (EPlain "invalid port")
      else if bool_decide (take 12 ip = v4InV6Prefix) then Ok (FormatPortal "0.0.0.0" (TPort t))
      else Ok (FormatPortal "::" (TPort t))
  end.

Definition Target_validate (t : Target) : GoResult unit :=
  _ ← ValidateIQN (IQN t);
  _ ← (if negb (LocalAttach t) && bool_decide (DevicePath t = "")
       then Err (EPlain "device path is required") else Ok tt);
  _ ← ValidateIQNs (AllowedInitiators t);
  _ ← (match TargetCHAP t with
       | None => Ok tt
       | Some c =>
           if negb (ACLEnabled t) then Err (EPlain "CHAP requires explicit node ACLs") else chap_Validate c
       end);
  _ ← Target_Portal t; Ok tt.

(** [strings.Fields] on ASCII text, first field only. *)
Fixpoint field_prefix (s : string) : string :=
  match s with
  | String c s => if isSpace c then "" else String c (field_prefix s)
  | EmptyString => ""
  end.
(** The text after the first occurrence of [sep]. *)
Fixpoint after (sep s : string) : option string :=
  if HasPrefix s sep then Some (drop_string (String.length sep) s)
  else match s with EmptyString => None | String _ s => after sep s end.

Definition infoUdevPath (info : string) : string :=
  match after "UDEV PATH: " info with
  | None => ""
  | Some rest => field_prefix (TrimLeft rest)
  end.

Section Operations.
Context {K C : Type} `{FS K} (DeviceClaimer : string → M K go_error C) (release : C → M K go_error unit)
  (DeriveUnitSerial : string → string).
Abbreviation Lio := (M K go_error).

Definition ensureISCSIFabric (t : Target) : Lio unit :=
  ok ← exists_ (cfsTargetDir t);
  if negb ok then throw (eio "target: is target_core_mod loaded?") else ensureDir (iscsiDir t).

(** [Exists] *)
Definition Target_Exists (t : Target) : Lio bool := exists_ (tpgDir t).

Definition requireTPG (t : Target) : Lio unit :=
  ok ← Target_Exists t;
  if negb ok then throw ErrTargetNotFound else mret tt.

Definition disableTPG (t : Target) : Lio unit := ensureAttr (tpgEnable t) "0".

Definition backstoreDevice (dir : path) : Lio string :=
  info ← readAttr (joinp dir "info"); mret (infoUdevPath info).

Definition ensureThinProvisioning (dir : path) : Lio unit :=
  let p := joins dir ["attrib"; "emulate_tpu"] in
  got ← readAttr p;
  if decide (got = "1") then mret tt
  else
    r ← sys (WriteFile p "1");
    match r with
    | Err ENOSYS => mret tt
    | Err _ => throw (eio "write emulate_tpu")
    | Ok _ =>
        got ← readAttr p;
        if decide (got ≠ "1") then throw (eio "verify emulate_tpu") else mret tt
    end.

Definition lunBound (t : Target) : Lio bool :=
  links ← symlinks (lunDir t);
  mret (existsb (λ l, bool_decide (l.2 = BackstoreDir t)) links).

Definition readUnitSerial (t : Target) : Lio string :=
  raw ← readAttr (joins (BackstoreDir t) ["wwn"; "vpd_unit_serial"]);
  mret (TrimSpace (TrimPrefix raw unitSerialPrefix)).

Definition ensureUnitSerial (t : Target) : Lio unit :=
  let want := if bool_decide (UnitSerial t = "") then DeriveUnitSerial (IQN t) else UnitSerial t in
  got ← readUnitSerial t;
  if decide (got = want) then mret tt
  else
    bound ← lunBound t;
    if bound : bool then throw (EPlain "unit serial cannot change while exported")
    else
      r ← sys (WriteFile (joins (BackstoreDir t) ["wwn"; "vpd_unit_serial"]) want);
      match r with
      | Err _ => throw (eio "write vpd_unit_serial")
      | Ok _ =>
          got ← readUnitSerial t;
          if decide (got ≠ want) then throw (eio "verify vpd_unit_serial") else mret tt
      end.

Definition configureBackstore (t : Target) (dir : path) : Lio unit :=
  claim ← DeviceClaimer (DevicePath t);
  release claim ;;
  r ← sys (WriteFile (joinp dir "control") ("udev_path=" +:+ DevicePath t));
  match r with
  | Err _ => throw (eio "write control")
  | Ok _ =>
      info ← readAttr (joinp dir "info");
      if decide (infoUdevPath info ≠ DevicePath t) then throw (eio "verify control")
      else
        writeAttr (joinp dir "udev_path") (DevicePath t) ;;
        r ← sys (WriteFile (joinp dir "enable") "1");
        match r with
        | Err EBUSY => throw ErrDeviceHeld
        | Err _ => throw (eio "write enable")
        | Ok _ =>
            got ← readAttr (joinp dir "enable");
            if decide (got ≠ "1") then throw (eio "verify enable") else ensureThinProvisioning dir
        end
  end.

Definition ensureBackstore (t : Target) : Lio unit :=
  let dir := BackstoreDir t in
  for_each ensureDir [dirp (hbaDir t); hbaDir t] ;;
  existed ← exists_ dir;
  ensureDir dir ;;
  enabled ← readAttr (joinp dir "enable");
  if decide (enabled = "1") then
    udevPath ← backstoreDevice dir;
    if decide (udevPath ≠ DevicePath t) then throw (EPlain "backstore is configured for another device")
    else ensureThinProvisioning dir ;; ensureUnitSerial t
  else
    r ← try (configureBackstore t dir);
    match r with
    | Err e => (if negb existed then (_ ← try (removeDir dir); mret tt) else mret tt) ;; throw e
    | Ok _ => ensureUnitSerial t
    end.

Definition ensureLUN (t : Target) : Lio unit :=
  for_each ensureDir [dirp (lunDir t); lunDir t] ;;
  links ← symlinks (lunDir t);
  match links with
  | (_, target) :: _ =>
      if decide (target ≠ BackstoreDir t) then throw (EPlain "LUN is bound to another backstore") else mret tt
  | [] => ensureSymlink (BackstoreDir t) (joinp (lunDir t) lunLinkName)
  end.

Definition ensureMappedLUN (t : Target) (iqn : string) : Lio unit :=
  let mapped := joinp (aclDir t iqn) LUNName in
  ensureDir mapped ;;
  ensureSymlink (lunDir t) (joinp mapped mappedLUNLinkName).

Definition attachLUN (t : Target) : Lio unit :=
  ensureBackstore t ;;
  ensureLUN t ;;
  acls ← subdirs (aclsDir t);
  for_each (ensureMappedLUN t) acls.

Definition removeLUNDir (dir : path) : Lio unit := removeSymlinks dir ;; removeDir dir.

Definition removeMappedLUNs (acl : path) : Lio unit :=
  dirs ← subdirs acl;
  for_each (λ name, if HasPrefix name "lun_" then removeLUNDir (joinp acl name) else mret tt) dirs.

Definition removeLUNs (t : Target) : Lio unit :=
  let lunRoot := dirp (lunDir t) in
  luns ← subdirs lunRoot;
  for_each (λ name, removeLUNDir (joinp lunRoot name)) luns.

Definition detachLUN (t : Target) : Lio string :=
  ok ← exists_ (tpgDir t);
  (if ok : bool then
     disableTPG t ;;
     acls ← subdirs (aclsDir t);
     for_each (λ iqn, removeMappedLUNs (aclDir t iqn)) acls ;;
     removeLUNs t
   else mret tt) ;;
  let dir := BackstoreDir t in
  ok ← exists_ dir;
  if negb ok then mret ""%string
  else
    devicePath ← backstoreDevice dir;
    removeDir dir ;;
    mret devicePath.

Definition ensureTPGAttribs (t : Target) : Lio unit :=
  let authentication : string := match TargetCHAP t with Some _ => "1" | None => "0" end in
  let attrs := ("authentication", authentication) ::
    if ACLEnabled t then [("generate_node_acls", "0")]
    else [("generate_node_acls", "1"); ("cache_dynamic_acls", "1"); ("demo_mode_write_protect", "0")] in
  for_each (λ kv, ensureAttr (joinp (attribDir t) kv.1) kv.2) attrs.

Definition ensureACLAuth (t : Target) (iqn : string) : Lio unit :=
  ensureAttr (joins (aclDir t iqn) ["attrib"; "authentication"]) aclAuthInherited ;;
  match TargetCHAP t with
  | None => mret tt
  | Some c =>
      let '(mutualUser, mutualPassword) :=
        if chap_Mutual c then (chap_MutualUsername c, chap_MutualPassword c) else (chapUnset, chapUnset) in
      for_each (λ kv, ensureSecretAttr (joinp (aclAuthDir t iqn) kv.1) kv.2)
        [("userid", chap_Username c); ("password", chap_Password c);
         ("userid_mutual", mutualUser); ("password_mutual", mutualPassword)]
  end.

(** [allowInitiator], the body of [AllowInitiator]. *)
Definition allowInitiator (t : Target) (iqn : string) : Lio unit :=
  for_each ensureDir [aclsDir t; aclDir t iqn] ;;
  ensureACLAuth t iqn ;;
  ok ← exists_ (lunDir t);
  if negb ok then mret tt else ensureMappedLUN t iqn.

Definition Initiators (t : Target) : Lio (list string) :=
  acls ← subdirs (aclsDir t); mret (Sort acls).

Definition Prepare (t : Target) : Lio unit :=
  lift (Target_validate t) ;;
  ensureISCSIFabric t ;;
  for_each ensureDir [targetDir t; tpgDir t] ;;
  (if LocalAttach t then (_ ← detachLUN t; mret tt) else attachLUN t) ;;
  ensureTPGAttribs t ;;
  for_each (allowInitiator t) (AllowedInitiators t) ;;
  acls ← Initiators t;
  for_each (ensureACLAuth t) acls.

Definition removeOtherPortal (t : Target) (portal other : string) : Lio unit :=
  if decide (other = portal) then mret tt else removeDir (joinp (npDir t) other).

Definition Activate (t : Target) : Lio unit :=
  portal ← lift (Target_Portal t);
  requireTPG t ;;
  ensureDir (npDir t) ;;
  ensureDir (joinp (npDir t) portal) ;;
  portals ← subdirs (npDir t);
  for_each (removeOtherPortal t portal) portals ;;
  if LocalAttach t then disableTPG t
  else
    bound ← lunBound t;
    if negb bound then throw (EPlain "LUN is not bound to the backstore")
    else ensureAttr (tpgEnable t) "1".

Definition Apply (t : Target) : Lio unit := Prepare t ;; Activate t.

Definition EnterLocalAttach (t : Target) : Lio string :=
  requireTPG t ;;
  removedDevice ← detachLUN t;
  if decide (removedDevice = "") then mret (DevicePath t)
  else
    claim ← DeviceClaimer removedDevice;
    release claim ;;
    mret removedDevice.

Definition LeaveLocalAttach (t : Target) : Lio unit :=
  requireTPG t ;;
  if decide (DevicePath t = "") then throw (EPlain "device path is required")
  else
    attachLUN t ;;
    ensureAttr (tpgEnable t) "1".

Definition removeACL (t : Target) (iqn : string) : Lio unit :=
  removeMappedLUNs (aclDir t iqn) ;;
  removeDir (aclDir t iqn).

Definition removeTPG (t : Target) : Lio unit :=
  disableTPG t ;;
  acls ← subdirs (aclsDir t);
  for_each (removeACL t) acls ;;
  portals ← subdirs (npDir t);
  for_each (λ portal, removeDir (joinp (npDir t) portal)) portals ;;
  removeLUNs t ;;
  removeDir (tpgDir t).

Definition Remove (t : Target) : Lio unit :=
  lift (ValidateIQN (IQN t)) ;;
  ok ← exists_ (tpgDir t);
  (if ok : bool then removeTPG t else mret tt) ;;
  removeDir (targetDir t) ;;
  removeDir (BackstoreDir t).

(** [AllowInitiator] *)
Definition Target_AllowInitiator (t : Target) (iqn : string) : Lio unit :=
  lift (ValidateIQN iqn) ;;
  (match TargetCHAP t with None => mret tt | Some c => lift (chap_Validate c) end) ;;
  requireTPG t ;;
  allowInitiator t iqn.

(** [DenyInitiator] *)
Definition Target_DenyInitiator (t : Target) (iqn : string) : Lio unit :=
  lift (ValidateIQN iqn) ;;
  removeACL t iqn.

Definition RevokeInitiatorsExcept (t : Target) (keep : list string) : Lio unit :=
  acls ← Initiators t;
  for_each (λ iqn, if containsb keep iqn then mret tt else removeACL t iqn) acls.

(** ** Listing exports (exports.go) *)

Record ExportedTarget := { et_IQN : string; et_Portals : list string; et_DevicePath : string }.

Definition bare_target (root iqn : string) : Target := {|
  ConfigfsRoot := root; IQN := iqn; DevicePath := ""; BindAddress := ""; TPort := 0; ACLEnabled := false;
  AllowedInitiators := []; UnitSerial := ""; LocalAttach := false; TargetCHAP := None |}.

Definition boundDevicePath (t : Target) : Lio string :=
  links ← symlinks (lunDir t);
  match links with
  | (_, backstore) :: _ => backstoreDevice backstore
  | [] => mret ""%string
  end.

Fixpoint list_targets (root : string) (names : list string) : Lio (list ExportedTarget) :=
  match names with
  | [] => mret []
  | iqn :: names =>
      if negb (HasPrefix iqn OwnedIQNPrefix) then list_targets root names
      else
        let t := bare_target root iqn in
        portals ← subdirs (npDir t);
        devicePath ← boundDevicePath t;
        rest ← list_targets root names;
        mret ({| et_IQN := iqn; et_Portals := Sort portals; et_DevicePath := devicePath |} :: rest)
  end.

Definition ListTargets (root : string) : Lio (list ExportedTarget) :=
  names ← subdirs (iscsiDir (bare_target root ""));
  list_targets root (Sort names).
End Operations.
