(* ===== verification/LioLaws.v ===== *)
(** * What the LIO code relies on of configfs

    [FSLaws] states the documented behaviour of configfs on a [view] of the
    kernel state as a tree of directories, attributes and links.  A [scope] bounds what a
    computation may do: where it may create entries, which entries it may
    change or remove, and which "enable" switches it may turn on.  [does S m]
    says that [m] stays in the scope, however it ends; the database [does]
    proves it along the code. *)
From stdpp Require Import base numbers list strings gmap.
From Stdlib Require Import Ascii.
From S2P Require Import Prelude GoStd LioFs.

Inductive node := NDir | NAttr (text : string) | NLink (target : string).
#[export] Instance node_eq_dec : EqDecision node.
Proof. solve_decision. Defined.

Definition kind_of (n : node) : entry_kind :=
  match n with NDir => KDir | NAttr _ => KFile | NLink _ => KLink end.

(** Attributes the kernel computes from a sibling that is written. *)
Definition derives : list (string * string) :=
  [("control", "info"); ("udev_path", "info"); ("enable", "info"); ("generate_node_acls", "cache_dynamic_acls");
   ("userid", "authenticate_target"); ("password", "authenticate_target");
   ("userid_mutual", "authenticate_target"); ("password_mutual", "authenticate_target")].
Definition derived (p q : path) : Prop :=
  ∃ dir a b, p = dir ++ [a] ∧ q = dir ++ [b] ∧ (a, b) ∈ derives.
Definition derived_names : list string := map snd derives.

Lemma derived_snoc d a q : derived (d ++ [a]) q → ∃ b, q = d ++ [b] ∧ (a, b) ∈ derives.
Proof. intros (d'&a'&b&Hp&->&Hin). apply app_inj_tail in Hp as [-> ->]. by exists b. Qed.
Lemma derived_name a b : (a, b) ∈ derives → b ∈ derived_names.
Proof. intros Hin. apply list_elem_of_fmap. by exists (a, b). Qed.

(** An attribute that is not switched on. *)
Definition off (view : path → option node) (p : path) : Prop :=
  ∀ s, view p = Some (NAttr s) → attr_text s ≠ "1".

Definition is_enable (p : path) : Prop := ∃ dir, p = dir ++ ["enable"].

(** Linking the first subsystem to an nvmet port opens the port, which settles
    the limits it was left to choose. *)
Definition port_settles : list string := ["param_inline_data_size"; "param_max_queue_size"].
Definition link_sets (p q : path) : Prop := ∃ d n a, a ∈ port_settles ∧ p = d ++ ["subsystems"; n] ∧ q = d ++ [a].

Lemma no_link_sets d x n q : x ≠ "subsystems" → ¬ link_sets (d ++ [x; n]) q.
Proof.
  intros Hx (d'&n'&a&_&Hp&_). change ([x; n]) with ([x] ++ [n]) in Hp. change (["subsystems"; n']) with (["subsystems"] ++ [n']) in Hp.
  rewrite !app_assoc in Hp. apply app_inj_tail in Hp as [Hp _]. by apply app_inj_tail in Hp as [_ ?].
Qed.
Lemma link_sets_enable p q : link_sets p q → ¬ is_enable q.
Proof. intros (d&n&a&Ha&_&->) [d' Hd]. apply app_inj_tail in Hd as [_ ->]. cbv in Ha. set_solver. Qed.

Class FSLaws (K : Type) `{FS K} := {
  view : K → path → option node;
  fs_inv : K → Prop;
  (** Entries live in directories. *)
  law_tree k p x : fs_inv k → view k (p ++ [x]) ≠ None → view k p = Some NDir;
  (** Reads change nothing and report what is there. *)
  law_Lstat p k : fs_inv k → wp (Lstat p) (λ r k', fs_inv k' ∧ view k' = view k ∧
    match r with
    | Ok kd => kind_of <$> view k p = Some kd
    | Err e => IsNotExist e = true → view k p = None
    end) k;
  law_ReadFile p k : fs_inv k → wp (ReadFile p) (λ r k', fs_inv k' ∧ view k' = view k ∧
    match r with
    | Ok s => view k p = Some (NAttr s)
    | Err e => IsNotExist e = true → view k p = None
    end) k;
  law_Readlink p k : fs_inv k → wp (Readlink p) (λ r k', fs_inv k' ∧ view k' = view k ∧
    match r with
    | Ok s => view k p = Some (NLink s)
    | Err e => IsNotExist e = true → view k p = None
    end) k;
  law_ReadDir p k : fs_inv k → wp (ReadDir p) (λ r k', fs_inv k' ∧ view k' = view k ∧
    match r with
    | Ok es =>
        view k p = Some NDir ∧
        (∀ name kd, (name, kd) ∈ es ↔ plain_name name = true ∧ kind_of <$> view k (p ++ [name]) = Some kd)
    | Err e => IsNotExist e = true → view k p = None
    end) k;
  (** mkdir adds the item with its default groups, switched off. *)
  law_Mkdir p k : fs_inv k → wp (Mkdir p) (λ r k', fs_inv k' ∧
    match r with
    | Ok _ =>
        view k p = None ∧ view k' p = Some NDir ∧
        (∀ q, view k q ≠ None → view k' q = view k q) ∧
        (∀ q, view k q = None → view k' q ≠ None → p `prefix_of` q ∧ (is_enable q → off (view k') q))
    | Err _ => view k' = view k
    end) k;
  (** rmdir removes the item with everything below it. *)
  law_Rmdir p k : fs_inv k → wp (Rmdir p) (λ r k', fs_inv k' ∧
    match r with
    | Ok _ => (∀ q, p `prefix_of` q → view k' q = None) ∧ (∀ q, ¬ p `prefix_of` q → view k' q = view k q)
    | Err _ => view k' = view k
    end) k;
  (** A write changes the attribute and those derived from it, never the
      tree; what it stores is open, except that a switch is set as asked or
      stays. *)
  law_WriteFile p v k : fs_inv k → wp (WriteFile p v) (λ _ k', fs_inv k' ∧
    (∀ q, q ≠ p → ¬ derived p q → view k' q = view k q) ∧
    (∀ q, kind_of <$> view k' q = kind_of <$> view k q) ∧
    (is_enable p → view k' p = view k p ∨ ∃ s, view k' p = Some (NAttr s) ∧ attr_text s = TrimSpace v)) k;
  law_Symlink old new k : fs_inv k → wp (Symlink old new) (λ r k', fs_inv k' ∧
    match r with
    | Ok _ =>
        view k new = None ∧ (∃ s, view k' new = Some (NLink s) ∧ resolvedLinkTarget new s = old) ∧
        (∀ q, q ≠ new → kind_of <$> view k' q = kind_of <$> view k q) ∧
        (∀ q, q ≠ new →
          (link_sets new q → (∃ x, view k (removelast new ++ [x]) ≠ None) ∨ ∀ s, view k q = Some (NAttr s) → TrimSpace s ≠ "-1") →
          view k' q = view k q)
    | Err _ => view k' = view k
    end) k;
  law_Unlink p k : fs_inv k → wp (Unlink p) (λ r k', fs_inv k' ∧
    match r with
    | Ok _ => view k' p = None ∧ ∀ q, q ≠ p → view k' q = view k q
    | Err _ => view k' = view k
    end) k;
}.

(** ** Effects *)

Record scope := { s_new : path → Prop; s_mod : path → Prop; s_on : path → Prop }.

Definition sub_scope (S S' : scope) : Prop :=
  (∀ q, s_new S q → s_new S' q) ∧ (∀ q, s_mod S q → s_mod S' q) ∧ (∀ q, s_on S q → s_on S' q).

Section Effects.
Context {K : Type} `{FSLaws K}.
Implicit Types (S : scope) (k : K) (p q : path).

(** Nothing on the way to [q] can be created. *)
Definition stable S k q : Prop := ∀ p, s_new S p → p `prefix_of` q → view k p ≠ None ∧ ¬ s_mod S p.

Record effect S k k' : Prop := {
  eff_inv : fs_inv k';
  eff_from q n' : stable S k q → view k' q = Some n' → ∃ n, view k q = Some n ∧ kind_of n = kind_of n';
  eff_frame q : ¬ s_mod S q → view k q ≠ None → view k' q = view k q;
  eff_off q : is_enable q → ¬ s_on S q → off (view k) q → off (view k') q;
}.

Lemma effect_same S k k' : fs_inv k' → view k' = view k → effect S k k'.
Proof. intros ? Hv. split; rewrite ?Hv; eauto. Qed.
Lemma effect_refl S k : fs_inv k → effect S k k.
Proof. intros. by apply effect_same. Qed.

Lemma effect_trans S k k1 k2 : effect S k k1 → effect S k1 k2 → effect S k k2.
Proof.
  intros [I1 N1 F1 O1] [I2 N2 F2 O2]. split; [done| | |eauto].
  - intros q n2 Hq H2. assert (stable S k1 q) as Hq1.
    { intros p Hp Hpq. destruct (Hq p Hp Hpq) as [Hv Hm]. by rewrite F1. }
    destruct (N2 q n2 Hq1 H2) as (n1&Hn1&Hk1). destruct (N1 q n1 Hq Hn1) as (n&Hn&Hk). exists n. split; congruence.
  - intros q Hq Hv. rewrite <- (F1 q Hq Hv). apply F2; [done|]. by rewrite (F1 q Hq Hv).
Qed.

Lemma effect_mono S S' k k' : sub_scope S S' → effect S k k' → effect S' k k'.
Proof. intros (HN&HP&HE) [I N F O]. split; [done| |eauto|eauto]. intros q n' Hq. apply N.
  intros p Hp Hpq. destruct (Hq p (HN p Hp) Hpq) as [Hv Hm]. split; [done|]. by intros ?%HP.
Qed.

(** However it ends, [m] has at most the effect. *)
Definition does {X A} S (m : M K X A) : Prop :=
  ∀ k, fs_inv k → wp m (λ _ k', effect S k k') k.

Lemma does_run {X A} S (m : M K X A) k r k' : does S m → fs_inv k → m k = (r, k') → effect S k k'.
Proof. intros Hm Hi Hr. exact (wp_run _ _ _ _ _ (Hm k Hi) Hr). Qed.

Lemma does_mono {X A} S S' (m : M K X A) : sub_scope S S' → does S m → does S' m.
Proof. intros HS Hm k Hi. eapply wp_mono; [by apply Hm|]. intros. by eapply effect_mono. Qed.

Lemma does_ret {X A} S (a : A) : does (X := X) S (mret a).
Proof. intros k Hi. by apply wp_ret, effect_refl. Qed.
Lemma does_throw {X A} S (e : X) : does (A := A) S (throw e).
Proof. intros k Hi. by apply wp_throw, effect_refl. Qed.
Lemma does_lift {X A} S (r : result X A) : does S (lift r).
Proof. intros k Hi. by apply wp_lift, effect_refl. Qed.

Lemma does_bind {X A B} S (m : M K X A) (f : A → M K X B) :
  does S m → (∀ a, does S (f a)) → does S (m ≫= f).
Proof.
  intros Hm Hf k Hi. eapply wp_call; [by apply Hm| |done].
  intros a k1 H1. eapply wp_mono; [apply Hf, H1|]. intros r k2 H2. cbn in H2. exact (effect_trans _ _ _ _ H1 H2).
Qed.

Lemma does_try {X A} S (m : M K X A) : does S m → does S (try m).
Proof. intros Hm k Hi. apply wp_try. by apply Hm. Qed.

Lemma does_sys {A} S (m : M K errno A) : does S m → does S (sys m).
Proof.
  intros Hm k Hi. specialize (Hm k Hi). unfold wp, sys in *. by destruct (m k).
Qed.

Lemma does_for_each {X A} S (f : A → M K X unit) l : (∀ a, a ∈ l → does S (f a)) → does S (for_each f l).
Proof.
  induction l as [|a l IH]; intros Hf; cbn; [apply does_ret|].
  apply does_bind; [apply Hf; by left|]. intros _. apply IH. intros. apply Hf. by right.
Qed.

(** *** System calls *)

Lemma does_Lstat S p : does S (Lstat p).
Proof. intros k Hi. eapply wp_mono; [by apply law_Lstat|]. intros r k' (?&?&_). by apply effect_same. Qed.
Lemma does_ReadFile S p : does S (ReadFile p).
Proof. intros k Hi. eapply wp_mono; [by apply law_ReadFile|]. intros r k' (?&?&_). by apply effect_same. Qed.
Lemma does_Readlink S p : does S (Readlink p).
Proof. intros k Hi. eapply wp_mono; [by apply law_Readlink|]. intros r k' (?&?&_). by apply effect_same. Qed.
Lemma does_ReadDir S p : does S (ReadDir p).
Proof. intros k Hi. eapply wp_mono; [by apply law_ReadDir|]. intros r k' (?&?&_). by apply effect_same. Qed.

Lemma does_Mkdir S p : s_new S p → does S (Mkdir p).
Proof.
  intros HN k Hi. eapply wp_mono; [by apply law_Mkdir|]. intros [[]|e] k' [Hi' Hr]; [|by apply effect_same].
  destruct Hr as (Hno&_&Hold&Hnew). split; [done| |auto|].
  { intros q n' Hq Hn'. destruct (view k q) as [n|] eqn:Ek.
    - exists n. rewrite Hold in Hn' by (by rewrite Ek). split; congruence.
    - exfalso. destruct (Hnew q Ek) as [Hpq _]; [by rewrite Hn'|]. by destruct (Hq p HN Hpq). }
  intros q Hq _ Hoff. destruct (view k q) as [n|] eqn:Ek.
  - intros s. rewrite Hold by (by rewrite Ek). apply Hoff.
  - destruct (view k' q) eqn:Ek'; [|by intros s; rewrite Ek'].
    apply (Hnew q Ek); [by rewrite Ek'|done].
Qed.

Lemma does_Rmdir S p : (∀ q, p `prefix_of` q → s_mod S q) → does S (Rmdir p).
Proof.
  intros HP k Hi. eapply wp_mono; [by apply law_Rmdir|]. intros [[]|e] k' [Hi' Hr]; [|by apply effect_same].
  destruct Hr as [Hin Hout]. split; [done| | |].
  - intros q n' _ Hn'. destruct (decide (p `prefix_of` q)); [by rewrite Hin in Hn'|]. rewrite Hout in Hn' by done. eauto.
  - intros q Hq _. apply Hout. auto.
  - intros q _ _ Hoff s. destruct (decide (p `prefix_of` q)) as [Hp|Hp]; [by rewrite Hin|].
    rewrite Hout by done. apply Hoff.
Qed.

Lemma does_WriteFile S p v :
  (∀ q, q = p ∨ derived p q → s_mod S q) → (TrimSpace v = "1" → is_enable p → s_on S p) → does S (WriteFile p v).
Proof.
  intros HP HE k Hi. eapply wp_mono; [by apply law_WriteFile|]. intros r k' (Hi'&Hout&Hkind&Hen).
  split; [done| | |].
  - intros q n' _ Hn'. specialize (Hkind q). rewrite Hn' in Hkind.
    destruct (view k q) as [n|]; [|done]. exists n. split; [done|]. by injection Hkind.
  - intros q Hq _. apply Hout; intros ?; apply Hq, HP; auto.
  - intros q [dir Hq] HnE Hoff s Hs. destruct (decide (q = p)) as [->|Hne].
    + destruct Hen as [He|(s'&He&Ht)]; [by exists dir|rewrite He in Hs; by apply Hoff|].
      rewrite Hs in He. injection He as <-. rewrite Ht. intros Hv. apply HnE, HE; [done|by exists dir].
    + rewrite Hout in Hs; [by apply Hoff|done|]. intros (d&a&b&_&Hd&Hin%derived_name). rewrite Hq in Hd.
      apply app_inj_tail in Hd as [_ <-]. cbv in Hin. set_solver.
Qed.

Lemma does_Symlink S old new : s_new S new → (∀ q, link_sets new q → s_mod S q) → does S (Symlink old new).
Proof.
  intros HN HL k Hi. eapply wp_mono; [by apply law_Symlink|]. intros [[]|e] k' [Hi' Hr]; [|by apply effect_same].
  destruct Hr as (Hnone&(s&Hs&_)&Hkind&Hout). split; [done| | |].
  - intros q n' Hq Hn'. destruct (decide (q = new)) as [->|Hne]; [by destruct (Hq new HN)|].
    specialize (Hkind q Hne). rewrite Hn' in Hkind. destruct (view k q) as [n|]; [|done]. exists n. split; [done|]. by injection Hkind.
  - intros q Hq Hv. apply Hout; [by intros ->|]. intros ?%HL. done.
  - intros q He _ Hoff s'. destruct (decide (q = new)) as [->|]; [by rewrite Hs|]. rewrite Hout; [apply Hoff|done|].
    by intros ?%link_sets_enable.
Qed.

Lemma does_Unlink S p : s_mod S p → does S (Unlink p).
Proof.
  intros HP k Hi. eapply wp_mono; [by apply law_Unlink|]. intros [[]|e] k' [Hi' Hr]; [|by apply effect_same].
  destruct Hr as [Hnone Hout]. split; [done| | |].
  - intros q n' _ Hn'. destruct (decide (q = p)) as [->|]; [congruence|]. rewrite Hout in Hn' by done. eauto.
  - intros q Hq _. apply Hout. by intros ->.
  - intros q _ _ Hoff s'. destruct (decide (q = p)) as [->|]; [by rewrite Hnone|]. rewrite Hout by done. apply Hoff.
Qed.

(** An effect with a fact about the value returned. *)
Definition does_with {X A} S (Q : A → Prop) (m : M K X A) : Prop :=
  ∀ k, fs_inv k → wp m (λ r k', effect S k k' ∧ ∀ a, r = Ok a → Q a) k.

Lemma does_with_does {X A} S Q (m : M K X A) : does_with S Q m → does S m.
Proof. intros Hm k Hi. eapply wp_mono; [by apply Hm|]. by intros ? ? []. Qed.

Lemma does_bind_with {X A B} S Q (m : M K X A) (f : A → M K X B) :
  does_with S Q m → (∀ a, Q a → does S (f a)) → does S (m ≫= f).
Proof.
  intros Hm Hf k Hi. eapply wp_call; [by apply Hm| |by intros ? ? []].
  intros a k1 [H1 HQ]. eapply wp_mono; [apply Hf; [by apply HQ|apply H1]|].
  intros r k2 H2. cbn in H2. exact (effect_trans _ _ _ _ H1 H2).
Qed.
End Effects.

Create HintDb does.
#[export] Hint Resolve does_ret does_throw does_lift does_try does_sys does_Lstat does_ReadFile does_Readlink
  does_ReadDir : does.
(** Walk a computation to its system calls and helpers. *)
Ltac does_step :=
  first [ solve [auto with does]
        | apply does_sys | apply does_try
        | apply does_bind; [|intro]
        | progress cbv zeta
        | match goal with
          | |- does _ (if ?b then _ else _) => destruct b
          | |- does _ (match ?x with _ => _ end) => destruct x
          | |- does _ (match ?x with _ => _ end _) => destruct x
          end ].
Ltac does_walk := repeat does_step.

Section Helpers.
Context {K : Type} `{FSLaws K}.
Implicit Types (S : scope) (k : K) (p q : path).

Lemma does_exists S p : does S (exists_ p).
Proof. unfold exists_. does_walk. Qed.
Lemma does_ensureDir S p : s_new S p → does S (ensureDir p).
Proof. intros HN. pose proof (does_Mkdir S p HN). unfold ensureDir. does_walk. Qed.
Lemma does_readAttr S p : does S (readAttr p).
Proof. unfold readAttr. does_walk. Qed.
Lemma does_readSecretAttr S p : does S (readSecretAttr p).
Proof. unfold readSecretAttr. does_walk. Qed.
Lemma does_ensureSymlink S p q : s_new S q → (∀ q', link_sets q q' → s_mod S q') → does S (ensureSymlink p q).
Proof. intros HN HL. pose proof (does_Symlink S p q HN HL). unfold ensureSymlink. does_walk. Qed.
Hint Resolve does_exists does_readAttr does_readSecretAttr : does.

(** Where a write of [v] to [p] may go. *)
Record writable S p (v : string) : Prop := {
  wr_in q : q = p ∨ derived p q → s_mod S q;
  wr_on : TrimSpace v = "1" → is_enable p → s_on S p;
}.

Lemma does_write S p v : writable S p v → does S (WriteFile p v).
Proof. intros []. by apply does_WriteFile. Qed.
Hint Resolve does_write : does.

Lemma does_writeAttr S p v : writable S p v → does S (writeAttr p v).
Proof. intros. unfold writeAttr. does_walk. Qed.
Hint Resolve does_writeAttr : does.
Lemma does_ensureAttr S p v : writable S p v → does S (ensureAttr p v).
Proof. intros. unfold ensureAttr. does_walk. Qed.
Lemma does_ensureSecretAttr S p v : writable S p v → does S (ensureSecretAttr p v).
Proof. intros. unfold ensureSecretAttr. does_walk. Qed.

Lemma does_removeDir S p : (∀ q, p `prefix_of` q → s_mod S q) → does S (removeDir p).
Proof. intros HP. pose proof (does_Rmdir S p HP). unfold removeDir. does_walk. Qed.

Lemma ReadDir_plain S dir :
  does_with S (λ r, ∀ es, r = Ok es → Forall (λ e, plain_name e.1 = true) es) (sys (ReadDir dir)).
Proof.
  intros k Hi. pose proof (law_ReadDir dir k Hi) as HL. unfold wp, sys in *. destruct (ReadDir dir k) as [r k'].
  destruct HL as (?&?&HL). split; [by apply effect_same|]. intros a [= <-] es ->. destruct HL as [_ HL].
  apply Forall_forall. intros [name kd] Hin. by apply HL in Hin as [].
Qed.

Lemma subdirs_plain S dir : does_with S (Forall (λ n, plain_name n = true)) (subdirs dir).
Proof.
  intros k Hi. unfold subdirs. eapply wp_call; [by apply (ReadDir_plain S)| |by intros ? ? []].
  intros [es|e] k1 [H1 HQ]; cbn.
  - apply wp_ret. split; [done|]. intros a [= <-]. specialize (HQ _ eq_refl es eq_refl).
    apply Forall_map, Forall_forall. intros e He. apply list_elem_of_In, filter_In in He as [He _].
    rewrite Forall_forall in HQ. by apply HQ, list_elem_of_In.
  - destruct (IsNotExist e); [apply wp_ret|apply wp_throw]; (split; [done|]); intros ? [=]; by subst.
Qed.

Lemma read_links_plain S dir es :
  Forall (λ e, plain_name e.1 = true) es →
  does_with S (Forall (λ l, plain_name l.1 = true)) (read_links dir es).
Proof.
  induction 1 as [|[name kd] es Hn Hes IH]; intros k Hi; cbn [read_links].
  { apply wp_ret. split; [by apply effect_refl|]. intros a [= <-]. constructor. }
  case_decide as Hkd; [by apply IH|]. eapply wp_call; [exact (does_sys S _ (does_Readlink S _) k Hi)| |done].
  intros [target|e] k1 H1; [|by apply wp_throw]. eapply wp_call; [apply IH, H1| |].
  - intros rest k2 [H2 HQ]. apply wp_ret. split; [by eapply effect_trans|]. intros a [= <-].
    constructor; [done|by apply HQ].
  - intros e k2 [H2 _]. split; [by eapply effect_trans|done].
Qed.

Lemma symlinks_plain S dir : does_with S (Forall (λ l, plain_name l.1 = true)) (symlinks dir).
Proof.
  intros k Hi. unfold symlinks. eapply wp_call; [by apply (ReadDir_plain S)| |by intros ? ? []].
  intros [es|e] k1 [H1 HQ]; cbn.
  - eapply wp_mono; [apply (read_links_plain S), H1; by apply (HQ _ eq_refl)|].
    intros r k2 [H2 ?]. split; [by eapply effect_trans|done].
  - destruct (IsNotExist e); [apply wp_ret|apply wp_throw]; (split; [done|]); intros ? [=]; by subst.
Qed.

Lemma does_subdirs S dir : does S (subdirs dir).
Proof. eapply does_with_does, subdirs_plain. Qed.
Lemma does_symlinks S dir : does S (symlinks dir).
Proof. eapply does_with_does, symlinks_plain. Qed.

Lemma does_removeSymlinks S dir : (∀ q, dir `prefix_of` q → s_mod S q) → does S (removeSymlinks dir).
Proof.
  intros HP. unfold removeSymlinks. eapply does_bind_with; [apply symlinks_plain|]. intros links Hl.
  apply does_for_each. intros l Hin. rewrite Forall_forall in Hl. specialize (Hl l Hin).
  assert (does S (Unlink (joinp dir l.1))).
  { apply does_Unlink, HP. rewrite joinp_plain by done. by apply prefix_app_r. }
  unfold unlink_one. does_walk.
Qed.
End Helpers.
#[export] Hint Resolve does_exists does_ensureDir does_readAttr does_readSecretAttr does_ensureSymlink does_write
  does_writeAttr does_ensureAttr does_ensureSecretAttr does_removeDir does_subdirs does_symlinks
  does_removeSymlinks : does.

(** ** What the helpers establish *)
Section Posts.
Context {K : Type} `{FSLaws K}.
Implicit Types (k : K) (p q dir : path).

(** The attribute at [p] reads [v]. *)
Definition attr k p (v : string) : Prop := ∃ s, view k p = Some (NAttr s) ∧ attr_text s = v.
Definition secret k p (v : string) : Prop := ∃ s, view k p = Some (NAttr s) ∧ secret_text s = v.
(** [p] is a link to [target]. *)
Definition link k p (target : path) : Prop := ∃ s, view k p = Some (NLink s) ∧ resolvedLinkTarget p s = target.

Lemma sys_inv {A} (m : M K errno A) k r k' : sys m k = (r, k') → ∃ x, r = Ok x ∧ m k = (x, k').
Proof. unfold sys. destruct (m k). intros; simplify_eq. eauto. Qed.

Lemma view_below k p q : fs_inv k → view k p = None → p `prefix_of` q → view k q = None.
Proof.
  intros Hi Hp [s ->]. induction s as [|x s IH] using rev_ind; [by rewrite app_nil_r|].
  destruct (view k (p ++ s ++ [x])) eqn:E; [|done]. rewrite app_assoc in E.
  rewrite (law_tree k (p ++ s) x) in IH; [done|done|by rewrite E].
Qed.

Lemma readFile_run p k r k' : fs_inv k → ReadFile p k = (r, k') →
  fs_inv k' ∧ view k' = view k ∧
  match r with Ok s => view k p = Some (NAttr s) | Err e => IsNotExist e = true → view k p = None end.
Proof. intros Hi Hr. exact (wp_run _ _ _ _ _ (law_ReadFile p k Hi) Hr). Qed.

Lemma readAttr_Ok p v k k' : fs_inv k → readAttr p k = (Ok v, k') →
  fs_inv k' ∧ view k' = view k ∧ (attr k p v ∨ v = "" ∧ view k p = None).
Proof.
  intros Hi Hr. unfold readAttr in Hr. minv. apply sys_inv in H1 as (r&?&Hf). simplify_eq.
  destruct (readFile_run _ _ _ _ Hi Hf) as (?&?&Hv). destruct r as [data|e].
  - minv. split_and!; [done|done|left]. by exists data.
  - destruct (IsNotExist e); minv. split_and!; [done|done|right]. auto.
Qed.

Lemma ensureAttr_Ok p v k k' : fs_inv k → v ≠ "" → ensureAttr p v k = (Ok tt, k') → attr k' p v.
Proof.
  intros Hi Hv Hr. unfold ensureAttr in Hr. minv.
  destruct (readAttr_Ok _ _ _ _ Hi H1) as (Hi1&Hv1&Hat). case_decide as Hd.
  - minv. destruct Hat as [(s&Hs&Ht)|[-> _]]; [|done]. exists s. by rewrite Hv1.
  - unfold writeAttr in Hr. minv. apply sys_inv in H2 as (r&?&Hw). simplify_eq. destruct r; minv.
    pose proof (wp_run _ _ _ _ _ (law_WriteFile p v _ Hi1) Hw) as (Hi2&_). case_decide as Hg; minv.
    destruct (readAttr_Ok _ _ _ _ Hi2 H2) as (_&Hv2&[(s&Hs&Ht)|[-> _]]); [|done]. exists s. by rewrite Hv2.
Qed.

Lemma readSecretAttr_Ok p v k k' : fs_inv k → readSecretAttr p k = (Ok v, k') →
  fs_inv k' ∧ view k' = view k ∧ secret k p v.
Proof.
  intros Hi Hr. unfold readSecretAttr in Hr. minv. apply sys_inv in H1 as (r&?&Hf). simplify_eq.
  destruct (readFile_run _ _ _ _ Hi Hf) as (?&?&Hv). destruct r as [data|e]; minv.
  split_and!; [done|done|]. by exists data.
Qed.

Lemma ensureSecretAttr_Ok p v k k' : fs_inv k → ensureSecretAttr p v k = (Ok tt, k') →
  secret k' p v ∨ v = chapUnset ∧ secret k' p "".
Proof.
  intros Hi Hr. unfold ensureSecretAttr in Hr.
  apply M_bind_inv in Hr as [(got & k1 & H1 & Hr)|(e & _ & [=])].
  destruct (readSecretAttr_Ok _ _ _ _ Hi H1) as (Hi1&Hv1&(s&Hs&Ht)).
  destruct (bool_decide _ || _) eqn:Ed.
  - injection Hr as <-. apply orb_true_iff in Ed as [Ed|Ed].
    + apply bool_decide_eq_true in Ed. left. exists s. rewrite Hv1. by rewrite <- Ed.
    + apply andb_true_iff in Ed as [->%bool_decide_eq_true Ed%bool_decide_eq_true]. right. split; [done|].
      exists s. rewrite Hv1. by rewrite <- Ed.
  - clear Ed. minv. apply sys_inv in H2 as (r&?&Hw). simplify_eq. destruct r; minv.
    pose proof (wp_run _ _ _ _ _ (law_WriteFile p v _ Hi1) Hw) as (Hi2&_). case_decide as Hg; minv.
    destruct (readSecretAttr_Ok _ _ _ _ Hi2 H2) as (_&Hv2&(s'&Hs'&Ht')). left. exists s'. by rewrite Hv2.
Qed.

Lemma exists_Ok p b k k' : fs_inv k → exists_ p k = (Ok b, k') →
  fs_inv k' ∧ view k' = view k ∧ (if b then view k p ≠ None else view k p = None).
Proof.
  intros Hi Hr. unfold exists_ in Hr. minv. apply sys_inv in H1 as (r&?&Hf). simplify_eq.
  destruct (wp_run _ _ _ _ _ (law_Lstat p k Hi) Hf) as (?&?&Hv). destruct r as [kd|e].
  - minv. split_and!; [done|done|]. by destruct (view k p).
  - destruct (IsNotExist e); minv. split_and!; auto.
Qed.

Lemma ensureDir_Ok p k k' : fs_inv k → ensureDir p k = (Ok tt, k') → view k' p = Some NDir.
Proof.
  intros Hi Hr. unfold ensureDir in Hr. minv. apply sys_inv in H1 as (r&?&Hf). simplify_eq.
  destruct (wp_run _ _ _ _ _ (law_Mkdir p k Hi) Hf) as [Hi1 Hm]. destruct r as [[]|e].
  { minv. apply Hm. }
  destruct (negb _); minv. apply sys_inv in H1 as (r&?&Hl). simplify_eq.
  destruct (wp_run _ _ _ _ _ (law_Lstat p _ Hi1) Hl) as (?&Hv&Hk). destruct r as [kd|]; [|minv].
  case_decide as Hd; minv. rewrite Hv. by destruct (view _ p) as [[]|].
Qed.

Lemma removeDir_Ok p k k' : fs_inv k → removeDir p k = (Ok tt, k') → ∀ q, p `prefix_of` q → view k' q = None.
Proof.
  intros Hi Hr. unfold removeDir in Hr. minv. apply sys_inv in H1 as (r&?&Hf). simplify_eq.
  destruct (wp_run _ _ _ _ _ (law_Rmdir p k Hi) Hf) as [Hi1 _].
  assert ((ok ← exists_ p; if ok : bool then throw (eio "verify rmdir: still present after removal") else mret tt)
            x0 = (Ok tt, k')) as Hv by (destruct r as [|e]; [done|by destruct (IsNotExist e); [|minv]]).
  clear Hr. minv. destruct (exists_Ok _ _ _ _ Hi1 H1) as (Hi2&Hv2&Hn). destruct x; minv.
  intros q Hq. apply (view_below _ p); [done|by rewrite Hv2|done].
Qed.

Lemma readDir_run dir k r k' : fs_inv k → ReadDir dir k = (r, k') →
  fs_inv k' ∧ view k' = view k ∧
  match r with
  | Ok es =>
      view k dir = Some NDir ∧
      ∀ name kd, (name, kd) ∈ es ↔ plain_name name = true ∧ kind_of <$> view k (dir ++ [name]) = Some kd
  | Err e => IsNotExist e = true → view k dir = None
  end.
Proof. intros Hi Hr. exact (wp_run _ _ _ _ _ (law_ReadDir dir k Hi) Hr). Qed.

(** The listing of a directory that is not there is empty. *)
Lemma absent_entries k dir name : fs_inv k → view k dir = None → view k (dir ++ [name]) = None.
Proof. intros Hi Hd. apply (view_below k dir); [done|done|]. by apply prefix_app_r. Qed.

Lemma subdirs_Ok dir names k k' : fs_inv k → subdirs dir k = (Ok names, k') →
  fs_inv k' ∧ view k' = view k ∧
  ∀ n, n ∈ names ↔ plain_name n = true ∧ view k (dir ++ [n]) = Some NDir.
Proof.
  intros Hi Hr. unfold subdirs in Hr. minv. apply sys_inv in H1 as (r&?&Hf). simplify_eq.
  destruct (readDir_run _ _ _ _ Hi Hf) as (?&?&Hv).
  destruct r as [es|e].
  - minv. split_and!; [done|done|]. destruct Hv as [_ Hes]. intros n. rewrite list_elem_of_In, in_map_iff. split.
    + intros ([name kd]&<-&Hin). apply filter_In in Hin as [Hin Hk%bool_decide_eq_true]. cbn in *. subst.
      apply list_elem_of_In, Hes in Hin as [Hp Hk]. split; [done|]. by destruct (view k _) as [[]|].
    + intros [Hp Hd]. exists (n, KDir). split; [done|]. apply filter_In. split; [|done].
      apply list_elem_of_In, Hes. by rewrite Hd.
  - destruct (IsNotExist e) eqn:Ee; minv. split_and!; [done|done|]. intros n. split; [by intros ?%elem_of_nil|].
    intros [_ Hd]. rewrite absent_entries in Hd; [done|done|auto].
Qed.

Lemma readLink_run p k r k' : fs_inv k → Readlink p k = (r, k') →
  fs_inv k' ∧ view k' = view k ∧
  match r with Ok s => view k p = Some (NLink s) | Err e => IsNotExist e = true → view k p = None end.
Proof. intros Hi Hr. exact (wp_run _ _ _ _ _ (law_Readlink p k Hi) Hr). Qed.

Lemma read_links_Ok dir es links k k' : fs_inv k →
  Forall (λ e, plain_name e.1 = true) es → read_links dir es k = (Ok links, k') →
  fs_inv k' ∧ view k' = view k ∧
  (∀ name target, (name, target) ∈ links → (name, KLink) ∈ es ∧ link k (dir ++ [name]) target) ∧
  (∀ name, (name, KLink) ∈ es → ∃ target, (name, target) ∈ links).
Proof.
  intros Hi Hes. revert k links Hi. induction Hes as [|[name kd] es Hn Hes IH]; intros k links Hi Hr; cbn in Hr.
  { minv. split_and!; [done|done|by intros ? ? ?%elem_of_nil|by intros ? ?%elem_of_nil]. }
  case_decide as Hk.
  - destruct (IH _ _ Hi Hr) as (?&?&Ho&Hb). split_and!; [done|done| |].
    + intros n tg Hin. destruct (Ho n tg Hin). split; [by right|done].
    + intros n [[= <- <-]|Hin]%elem_of_cons; [done|by apply Hb].
  - minv. apply sys_inv in H1 as (r&?&Hl). simplify_eq. destruct (readLink_run _ _ _ _ Hi Hl) as (Hi1&Hv1&Hr1).
    destruct r as [tg|]; minv. destruct (IH _ _ Hi1 H1) as (Hi2&Hv2&Ho&Hb).
    rewrite joinp_plain in Hr1 by done. split_and!; [done|congruence| |].
    + intros n tg' [[= -> ->]|Hin]%elem_of_cons.
      * split; [by left|]. exists tg. split; [done|]. by rewrite joinp_plain.
      * destruct (Ho _ _ Hin) as [? (s&Hs&?)]. split; [by right|]. exists s. by rewrite <- Hv1.
    + intros n [[= <-]|Hin]%elem_of_cons; [eexists; by left|]. destruct (Hb _ Hin) as [tg' ?]. exists tg'. by right.
Qed.

Lemma symlinks_Ok dir links k k' : fs_inv k → symlinks dir k = (Ok links, k') →
  fs_inv k' ∧ view k' = view k ∧
  (∀ name target, (name, target) ∈ links → plain_name name = true ∧ link k (dir ++ [name]) target) ∧
  (∀ name s, plain_name name = true → view k (dir ++ [name]) = Some (NLink s) → ∃ target, (name, target) ∈ links).
Proof.
  intros Hi Hr. unfold symlinks in Hr. minv. apply sys_inv in H1 as (r&?&Hf). simplify_eq.
  destruct (readDir_run _ _ _ _ Hi Hf) as (Hi1&Hv1&Hv). destruct r as [es|e].
  - destruct Hv as [_ Hes]. assert (Forall (λ e, plain_name e.1 = true) es) as Hp.
    { apply Forall_forall. intros [n kd] Hin. by apply Hes in Hin as []. }
    destruct (read_links_Ok _ _ _ _ _ Hi1 Hp Hr) as (?&?&Ho&Hb). split_and!; [done|congruence| |].
    + intros n tg Hin. destruct (Ho _ _ Hin) as [Hin' (s&Hs&?)]. split; [by apply Hes in Hin' as []|].
      exists s. by rewrite <- Hv1.
    + intros n s Hpn Hs. apply (Hb n), Hes. by rewrite Hs.
  - destruct (IsNotExist e) eqn:Ee; minv. split_and!; [done|done|by intros ? ? ?%elem_of_nil|].
    intros n s _ Hs. rewrite absent_entries in Hs; [done|done|auto].
Qed.

Lemma ensureSymlink_Ok old new k k' : fs_inv k → ensureSymlink old new k = (Ok tt, k') → link k' new old.
Proof.
  intros Hi Hr. unfold ensureSymlink in Hr. minv. apply sys_inv in H1 as (r&?&Hl). simplify_eq.
  destruct (readLink_run _ _ _ _ Hi Hl) as (Hi1&Hv1&Hr1). destruct r as [s|e].
  - case_decide; minv. exists s. by rewrite Hv1.
  - destruct (IsNotExist e); minv. apply sys_inv in H1 as (r&?&Hs). simplify_eq. destruct r; minv.
    by destruct (wp_run _ _ _ _ _ (law_Symlink old new _ Hi1) Hs) as (_&_&Hl'&_).
Qed.
End Posts.
