(* ===== verification/ConfigfsEffects.v ===== *)
(** * Effects on configfs, carried across computations

    The scopes of [LioLaws] by directory, what a computation leaves as it
    was, and loops that establish a fact for each of their elements; shared
    by the LIO and nvmet targets. *)
From stdpp Require Import base numbers list strings gmap.
From Stdlib Require Import Ascii Sorted.
From S2P Require Import Prelude GoStd LioFs LioLaws.

(** ** Scopes *)

(** Everything below [d] may be changed, or created. *)
Definition mods (S : scope) (d : path) : Prop := ∀ q, d `prefix_of` q → s_mod S q.
Definition news (S : scope) (d : path) : Prop := ∀ q, d `prefix_of` q → s_new S q.

Lemma mods_below S d s : mods S d → mods S (d ++ s).
Proof. intros Hd q Hq. apply Hd. etrans; [|exact Hq]. by apply prefix_app_r. Qed.
Lemma news_below S d s : news S d → news S (d ++ s).
Proof. intros Hd q Hq. apply Hd. etrans; [|exact Hq]. by apply prefix_app_r. Qed.
Lemma news_at S d s : news S d → s_new S (d ++ s).
Proof. intros Hd. by apply Hd, prefix_app_r. Qed.
Lemma news_self S d : news S d → s_new S d.
Proof. intros Hd. by apply Hd. Qed.

Lemma is_enable_last p : is_enable p → last p = Some "enable".
Proof. intros [dir ->]. by rewrite last_snoc. Qed.

Lemma mods_writable S d s v :
  mods S d → s ≠ [] → (TrimSpace v = "1" → last s = Some "enable" → s_on S (d ++ s)) → writable S (d ++ s) v.
Proof.
  intros Hd Hs HE. destruct s as [|x s _] using rev_ind; [done|]. split.
  - intros q [->|Hq]; [by apply Hd, prefix_app_r|]. rewrite app_assoc in Hq. apply derived_snoc in Hq as (b&->&_).
    rewrite <- app_assoc. by apply Hd, prefix_app_r.
  - intros Hv He%is_enable_last. apply HE; [done|]. rewrite app_assoc, last_snoc in He. by rewrite last_snoc.
Qed.

(** A write that is not to a switch. *)
Lemma mods_plain_writable S d s v : mods S d → s ≠ [] → last s ≠ Some "enable" → writable S (d ++ s) v.
Proof. intros. by apply mods_writable. Qed.

(** ** Facts carried across a computation *)
Section Carry.
Context {K : Type} `{FSLaws K}.
Implicit Types (S : scope) (k : K) (p q : path).

Lemma effect_keeps S k k' p n : effect S k k' → ¬ s_mod S p → view k p = Some n → view k' p = Some n.
Proof. intros He Hm Hv. by rewrite (eff_frame _ _ _ He) by (by rewrite ?Hv). Qed.

Lemma attr_keeps S k k' p v : effect S k k' → ¬ s_mod S p → attr k p v → attr k' p v.
Proof. intros He Hm (s&Hs&Ht). exists s. split; [by eapply effect_keeps|done]. Qed.
Lemma secret_keeps S k k' p v : effect S k k' → ¬ s_mod S p → secret k p v → secret k' p v.
Proof. intros He Hm (s&Hs&Ht). exists s. split; [by eapply effect_keeps|done]. Qed.
Lemma link_keeps S k k' p q : effect S k k' → ¬ s_mod S p → link k p q → link k' p q.
Proof. intros He Hm (s&Hs&Ht). exists s. split; [by eapply effect_keeps|done]. Qed.

(** What is not created stays absent, and keeps its kind. *)
Lemma effect_absent S k k' p : effect S k k' → stable S k p → view k p = None → view k' p = None.
Proof.
  intros He Hn Hv. destruct (view k' p) as [n'|] eqn:E; [|done].
  destruct (eff_from _ _ _ He p n' Hn E) as (n&Hn'&_). congruence.
Qed.
Lemma effect_dir S k k' p : effect S k k' → stable S k p → view k' p = Some NDir → view k p = Some NDir.
Proof.
  intros He Hn Hv. destruct (eff_from _ _ _ He p NDir Hn Hv) as ([]&Hn'&?); done.
Qed.
Lemma effect_untouched S k k' p : effect S k k' → ¬ s_mod S p → stable S k p → view k' p = view k p.
Proof.
  intros He Hm Hn. destruct (view k p) as [n|] eqn:E; [by eapply effect_keeps|by eapply effect_absent].
Qed.
Lemma stable_off S k q : (∀ p, s_new S p → p `prefix_of` q → False) → stable S k q.
Proof. intros Hq p Hp Hpq. by destruct (Hq p Hp Hpq). Qed.

(** A loop that ran to its end has established its postcondition for every
    element. *)
Lemma for_each_Ok {A} (f : A → M K go_error unit) (P : A → K → Prop) S l k k' :
  (∀ a, a ∈ l → does S (f a)) →
  (∀ a b k k', a ∈ l → b ∈ l → fs_inv k → a = b ∨ P b k → f a k = (Ok tt, k') → P b k') →
  fs_inv k → for_each f l k = (Ok tt, k') → ∀ b, b ∈ l → P b k'.
Proof.
  intros Hd Hs Hi Hr.
  assert (∀ l1, (∀ b, b ∈ l1 → b ∈ l) → ∀ k, fs_inv k → for_each f l1 k = (Ok tt, k') →
    ∀ b, b ∈ l → b ∈ l1 ∨ P b k → P b k') as Hgen.
  { clear k Hi Hr. induction l1 as [|a l1 IH]; intros Hl1 k Hi Hr b Hb HP; cbn in Hr; minv.
    { by destruct HP as [?%elem_of_nil|]. }
    destruct x. assert (a ∈ l) as Ha by (apply Hl1; by left).
    pose proof (eff_inv _ _ _ (does_run _ _ _ _ _ (Hd a Ha) Hi H1)) as Hi1.
    apply (IH (λ c Hc, Hl1 c (list_elem_of_further _ _ _ Hc)) _ Hi1 Hr b Hb).
    destruct HP as [[->|Hin]%elem_of_cons|HP].
    - right. by eapply Hs; [..|left|exact H1].
    - by left.
    - right. by eapply Hs; [..|right|exact H1]. }
  intros b Hb. eapply Hgen; eauto.
Qed.

(** A computation that only looks at the tree. *)
Definition looks {X A} (m : M K X A) : Prop := ∀ k, fs_inv k → wp m (λ _ k', fs_inv k' ∧ view k' = view k) k.
Lemma does_looks {X A} S (m : M K X A) : looks m → does S m.
Proof. intros Hm k Hi. eapply wp_mono; [by apply Hm|]. intros ? ? []. by apply effect_same. Qed.

Definition nothing : path → Prop := λ _, False.
(** Writing one attribute. *)
Definition write_scope p (on : path → Prop) : scope :=
  {| s_new := nothing; s_mod := λ q, q = p ∨ derived p q; s_on := on |}.

Lemma does_ensureAttr_at p v (on : path → Prop) : (TrimSpace v = "1" → is_enable p → on p) → does (write_scope p on) (ensureAttr p v).
Proof. intros Hv. apply does_ensureAttr. split; [done|exact Hv]. Qed.

(** Creating entries, changing none. *)
Definition adds : scope := {| s_new := λ _, True; s_mod := nothing; s_on := nothing |}.
Lemma adds_news d : news adds d.
Proof. by intros q. Qed.
Lemma adds_keeps k k' q n : effect adds k k' → view k q = Some n → view k' q = Some n.
Proof. intros He. apply effect_keeps with (1 := He). by intros []. Qed.

(** Only below one directory. *)
Definition below_scope (new mod_ : path) : scope :=
  {| s_new := λ q, new `prefix_of` q; s_mod := λ q, mod_ `prefix_of` q; s_on := nothing |}.
Definition mods_scope (mod_ : path) : scope :=
  {| s_new := nothing; s_mod := λ q, mod_ `prefix_of` q; s_on := nothing |}.

Lemma mods_scope_mods d : mods (mods_scope d) d.
Proof. by intros q. Qed.

Lemma does_removeDir_at p : does (mods_scope p) (removeDir p).
Proof. apply does_removeDir, mods_scope_mods. Qed.
Lemma removeDir_at p k r k' : fs_inv k → removeDir p k = (r, k') → effect (mods_scope p) k k'.
Proof. intros Hi Hr. by eapply does_run; [apply does_removeDir_at|..]. Qed.
End Carry.

(** Paths below a target are told apart by their components. *)
Lemma prefix_app_head (d a b : path) : d ++ a `prefix_of` d ++ b → a `prefix_of` b.
Proof. intros [s Hs]. rewrite <- app_assoc in Hs. apply app_inv_head in Hs. by exists s. Qed.

Ltac path_split :=
  repeat match goal with
  | H : _ ++ _ `prefix_of` _ ++ _ |- _ => apply prefix_app_head in H
  | H : _ :: _ `prefix_of` _ :: _ |- _ =>
      let E := fresh "E" in
      pose proof (prefix_cons_inv_1 _ _ _ _ H) as E; apply prefix_cons_inv_2 in H; simplify_eq
  | H : _ :: _ `prefix_of` [] |- _ => by apply prefix_nil_inv in H
  end.

Lemma prefix_snoc_eq (d : path) a b q : d ++ [a] `prefix_of` q → d ++ [b] `prefix_of` q → a = b.
Proof.
  intros [s1 ->] [s2 Hs]. rewrite <- !app_assoc in Hs. apply app_inv_head in Hs. by injection Hs.
Qed.

(** Nothing below [d] is created or changed. *)
Definition still {K} `{FSLaws K} (S : scope) (k : K) (d : path) : Prop :=
  ∀ q, d `prefix_of` q → ¬ s_mod S q ∧ stable S k q.

(** Paths that differ at some component. *)
Lemma diverge (d : path) a b s1 s2 q : d ++ a :: s1 `prefix_of` q → d ++ b :: s2 `prefix_of` q → a = b.
Proof. intros [r1 ->] [r2 Hr]. rewrite <- !app_assoc in Hr. apply app_inv_head in Hr. by injection Hr. Qed.
Lemma diverge2 (d : path) c a b s1 s2 q :
  d ++ c :: a :: s1 `prefix_of` q → d ++ c :: b :: s2 `prefix_of` q → a = b.
Proof. intros [r1 ->] [r2 Hr]. rewrite <- !app_assoc in Hr. apply app_inv_head in Hr. by injection Hr. Qed.

Section Steps.
Context {K : Type} `{FSLaws K}.
Implicit Types (S : scope) (k : K).

(** One more step: it ends there, or goes on. *)
Lemma effect_bind {A B} S k k1 (m : M K go_error A) (f : A → M K go_error B) r k' :
  (m ≫= f) k1 = (r, k') → effect S k k1 → does S m →
  effect S k k' ∧ (∃ e, r = Err e) ∨ ∃ a k2, m k1 = (Ok a, k2) ∧ effect S k k2 ∧ f a k2 = (r, k').
Proof.
  intros Hr He Hd. apply M_bind_inv in Hr as [(a&k2&H1&Hr)|(e&H1&->)].
  - right. exists a, k2. split_and!; [done| |done]. eapply effect_trans; [exact He|]. eapply does_run; [done|apply He|done].
  - left. split; [|eauto]. eapply effect_trans; [exact He|]. eapply does_run; [done|apply He|done].
Qed.

(** A loop whose later steps keep what the earlier ones established. *)
Lemma for_each_sorted {A} (R : A → A → Prop) (f : A → M K go_error unit) (P : A → K → Prop) (S : A → scope) l k k' :
  StronglySorted R l → (∀ a, a ∈ l → does (S a) (f a)) →
  (∀ a k k', a ∈ l → fs_inv k → f a k = (Ok tt, k') → P a k') →
  (∀ a b k k', a ∈ l → R b a → fs_inv k → P b k → f a k = (Ok tt, k') → P b k') →
  fs_inv k → for_each f l k = (Ok tt, k') → ∀ b, (b ∈ l ∨ P b k ∧ Forall (R b) l) → P b k'.
Proof.
  intros Hl. revert k. induction Hl as [|a l Hl IH Ha]; intros k Hd He Hk Hi Hr b Hb; cbn in Hr; minv.
  { by destruct Hb as [?%elem_of_nil|[]]. }
  destruct x. assert (a ∈ a :: l) as Hin by by left.
  pose proof (eff_inv _ _ _ (does_run _ _ _ _ _ (Hd a Hin) Hi H1)) as Hi1.
  assert (∀ c, c ∈ l → c ∈ a :: l) as Hsub by (intros; by right).
  apply (IH x0); eauto.
  destruct Hb as [[->|Hb]%elem_of_cons|[HP HR]]; [right; by eauto|by left|].
  inversion HR; subst. right; eauto.
Qed.

End Steps.
