(* ===== verification/LioCorrect.v ===== *)
(** * Correctness of the LIO target operations

    Against any configfs that satisfies [FSLaws] and any device claimer that
    only looks: what each operation may touch, what it guarantees when it
    succeeds, and that a target never becomes reachable before its access
    policy is in place. *)
From stdpp Require Import base numbers list strings gmap pretty.
From Stdlib Require Import Ascii.
From S2P Require Import Prelude GoStd GoNet FencingMark FencingStore Backend Fencing AgentServer.
From S2P Require Import LioFs LioTarget LioLaws ConfigfsEffects.
Open Scope Z_scope.

(** ** Paths of a target *)

Class wf_target (t : Target) : Prop := {
  wf_IQN : plain_name (IQN t) = true;
  wf_backstore : plain_name (BackstoreNameForIQN (IQN t)) = true;
}.

Section Paths.
Context (t : Target) `{!wf_target t}.

Lemma targetDir_eq : targetDir t = iscsiDir t ++ [IQN t].
Proof. apply joinp_plain, wf_IQN. Qed.
Lemma BackstoreDir_eq : BackstoreDir t = hbaDir t ++ [BackstoreNameForIQN (IQN t)].
Proof. apply joinp_plain, wf_backstore. Qed.
Lemma tpgDir_eq : tpgDir t = targetDir t ++ [TPGName].
Proof. by apply joinp_plain. Qed.
Lemma lunDir_eq : lunDir t = targetDir t ++ [TPGName; "lun"; LUNName].
Proof. unfold lunDir. rewrite !joinp_plain, tpgDir_eq by done. by rewrite <- !app_assoc. Qed.
Lemma lunRoot_eq : dirp (lunDir t) = targetDir t ++ [TPGName; "lun"].
Proof.
  rewrite lunDir_eq. change [TPGName; "lun"; LUNName] with ([TPGName; "lun"] ++ [LUNName]).
  rewrite app_assoc. apply removelast_last.
Qed.
Lemma aclsDir_eq : aclsDir t = targetDir t ++ [TPGName; "acls"].
Proof. unfold aclsDir. rewrite joinp_plain, tpgDir_eq by done. by rewrite <- app_assoc. Qed.
Lemma npDir_eq : npDir t = targetDir t ++ [TPGName; "np"].
Proof. unfold npDir. rewrite joinp_plain, tpgDir_eq by done. by rewrite <- app_assoc. Qed.
Lemma attribDir_eq : attribDir t = targetDir t ++ [TPGName; "attrib"].
Proof. unfold attribDir. rewrite joinp_plain, tpgDir_eq by done. by rewrite <- app_assoc. Qed.
Lemma tpgEnable_eq : tpgEnable t = targetDir t ++ [TPGName; "enable"].
Proof. unfold tpgEnable. rewrite joinp_plain, tpgDir_eq by done. by rewrite <- app_assoc. Qed.
Lemma aclDir_eq iqn : plain_name iqn = true → aclDir t iqn = targetDir t ++ [TPGName; "acls"; iqn].
Proof. intros. unfold aclDir. rewrite joinp_plain, aclsDir_eq by done. by rewrite <- app_assoc. Qed.
Lemma aclAuthDir_eq iqn : plain_name iqn = true → aclAuthDir t iqn = targetDir t ++ [TPGName; "acls"; iqn; "auth"].
Proof. intros. unfold aclAuthDir. rewrite joinp_plain, aclDir_eq by done. by rewrite <- app_assoc. Qed.

(** The directories of the target and of its backstore, with all below. *)
Definition own (q : path) : Prop := targetDir t `prefix_of` q ∨ BackstoreDir t `prefix_of` q.

Lemma own_target s : own (targetDir t ++ s).
Proof. left. by apply prefix_app_r. Qed.
Lemma own_backstore s : own (BackstoreDir t ++ s).
Proof. right. by apply prefix_app_r. Qed.
Lemma own_below p q : own p → p `prefix_of` q → own q.
Proof. intros [Hp|Hp] Hq; [left|right]; by etrans. Qed.

End Paths.

(** The attributes of a node ACL's credentials. *)
Definition acl_secrets (c : CHAP) : list (string * string) :=
  let '(mu, mp) := if chap_Mutual c then (chap_MutualUsername c, chap_MutualPassword c) else (chapUnset, chapUnset) in
  [("userid", chap_Username c); ("password", chap_Password c); ("userid_mutual", mu); ("password_mutual", mp)].

Lemma acl_secrets_plain c : Forall (λ kv, plain_name kv.1 = true ∧ kv.1 ≠ "enable" ∧ kv.1 ∉ derived_names) (acl_secrets c).
Proof. unfold acl_secrets. destruct (chap_Mutual c); repeat constructor; try done; cbv; set_solver. Qed.

(** ** What the operations may touch *)
Section Footprint.
Context {K C : Type} `{FSLaws K} (DeviceClaimer : string → M K go_error C) (release : C → M K go_error unit)
  (DeriveUnitSerial : string → string).
(** The claimer opens the device exclusively and closes it again: it changes
    no configfs entry. *)
Context (claimer_looks : ∀ d k, fs_inv k → wp (DeviceClaimer d) (λ _ k', fs_inv k' ∧ view k' = view k) k)
  (release_looks : ∀ c k, fs_inv k → wp (release c) (λ _ k', fs_inv k' ∧ view k' = view k) k).
Context (t : Target) `{!wf_target t}.
Implicit Types S : scope.

Lemma does_claim S d : does S (DeviceClaimer d).
Proof. apply does_looks. intros k. apply claimer_looks. Qed.
Lemma does_release S c : does S (release c).
Proof. apply does_looks. intros k. apply release_looks. Qed.
Hint Resolve does_claim does_release mods_below news_below news_at news_self mods_plain_writable : does.

(** Normalise the paths of the target. *)
Ltac paths := rewrite ?lunDir_eq, ?lunRoot_eq, ?aclsDir_eq, ?npDir_eq, ?attribDir_eq, ?tpgEnable_eq, ?tpgDir_eq by done.

Lemma does_disableTPG S : writable S (tpgEnable t) "0" → does S (disableTPG t).
Proof. apply does_ensureAttr. Qed.
Lemma does_requireTPG S : does S (requireTPG t).
Proof. unfold requireTPG, Target_Exists. does_walk. Qed.
Lemma does_ensureISCSIFabric S : s_new S (iscsiDir t) → does S (ensureISCSIFabric t).
Proof. intros. unfold ensureISCSIFabric. does_walk. Qed.
Lemma does_backstoreDevice S dir : does S (backstoreDevice dir).
Proof. unfold backstoreDevice. does_walk. Qed.
Lemma does_lunBound S : does S (lunBound t).
Proof. unfold lunBound. does_walk. Qed.
Lemma does_readUnitSerial S : does S (readUnitSerial t).
Proof. unfold readUnitSerial. does_walk. Qed.
Hint Resolve does_disableTPG does_requireTPG does_ensureISCSIFabric does_backstoreDevice does_lunBound
  does_readUnitSerial : does.

(** *** Backstore and LUN *)

Lemma does_ensureThinProvisioning S : mods S (BackstoreDir t) → does S (ensureThinProvisioning (BackstoreDir t)).
Proof.
  intros HM. unfold ensureThinProvisioning. cbv zeta. rewrite joins_plain by done.
  assert (writable S (BackstoreDir t ++ ["attrib"; "emulate_tpu"]) "1") by by apply mods_plain_writable.
  does_walk.
Qed.

Lemma does_ensureUnitSerial S : mods S (BackstoreDir t) → does S (ensureUnitSerial DeriveUnitSerial t).
Proof.
  intros HM. unfold ensureUnitSerial. cbv zeta. set (want := if bool_decide _ then _ else _).
  rewrite joins_plain by done.
  assert (writable S (BackstoreDir t ++ ["wwn"; "vpd_unit_serial"]) want) by by apply mods_plain_writable.
  does_walk.
Qed.
Hint Resolve does_ensureThinProvisioning does_ensureUnitSerial : does.

(** The switch of the backstore. *)
Definition backstoreEnable : path := BackstoreDir t ++ ["enable"].

Lemma does_configureBackstore S :
  mods S (BackstoreDir t) → s_on S backstoreEnable →
  does S (configureBackstore DeviceClaimer release t (BackstoreDir t)).
Proof.
  intros HM HE. unfold configureBackstore. rewrite !joinp_plain by done.
  assert (∀ v, writable S (BackstoreDir t ++ ["control"]) v) by (intros; by apply mods_plain_writable).
  assert (∀ v, writable S (BackstoreDir t ++ ["udev_path"]) v) by (intros; by apply mods_plain_writable).
  assert (writable S (BackstoreDir t ++ ["enable"]) "1") by (apply mods_writable; [done|done|intros; exact HE]).
  does_walk.
Qed.
Hint Resolve does_configureBackstore : does.

Lemma does_ensureDirs S l : (∀ d, d ∈ l → s_new S d) → does S (for_each ensureDir l).
Proof. intros Hl. apply does_for_each. intros d Hd. by apply does_ensureDir, Hl. Qed.

(** What configuring the backstore takes. *)
Record serves_backstore S : Prop := {
  sb_new_core : s_new S (dirp (hbaDir t));
  sb_new_hba : s_new S (hbaDir t);
  sb_news_backstore : news S (BackstoreDir t);
  sb_mods_backstore : mods S (BackstoreDir t);
  sb_on_backstore : s_on S backstoreEnable;
}.

(** The scope of everything the agent does for a target: it creates the
    fabric and HBA directories, and creates and changes below the target and
    its backstore. *)
Record serves S : Prop := {
  sv_new_fabric : s_new S (iscsiDir t);
  sv_news_target : news S (targetDir t);
  sv_mods_target : mods S (targetDir t);
  sv_backstore : serves_backstore S;
}.

Lemma hbaDir_eq : hbaDir t = dirp (hbaDir t) ++ ["iblock_" +:+ pretty HBAIndex].
Proof. unfold hbaDir. rewrite (joinp_plain _ ("iblock_" +:+ pretty HBAIndex)) by done. unfold dirp. by rewrite removelast_last. Qed.

Lemma does_ensureBackstore S : serves_backstore S → does S (ensureBackstore DeviceClaimer release DeriveUnitSerial t).
Proof.
  intros [HNc HNh HNb HMb HE]. unfold ensureBackstore. cbv zeta.
  apply does_bind; [apply does_ensureDirs; set_solver|]. intros _. does_walk.
Qed.

Lemma lun_link_sets q : ¬ link_sets (joinp (lunDir t) lunLinkName) q.
Proof using Type.
  rewrite joinp_plain, lunDir_eq by done. change [TPGName; "lun"; LUNName] with ([TPGName; "lun"] ++ [LUNName]).
  rewrite app_assoc, <- app_assoc. by apply no_link_sets.
Qed.
Lemma does_ensureLUN S : news S (dirp (lunDir t)) → does S (ensureLUN t).
Proof using Type.
  rewrite lunRoot_eq. intros HN. assert (news S (lunDir t)) as HL.
  { rewrite lunDir_eq. pose proof (news_below S (targetDir t ++ [TPGName; "lun"]) [LUNName] HN) as HL.
    by rewrite <- app_assoc in HL. }
  unfold ensureLUN. rewrite lunRoot_eq. apply does_bind; [apply does_ensureDirs; intros d [->|[->|[]%elem_of_nil]%elem_of_cons]%elem_of_cons; by apply news_self|]. intros _.
  assert (s_new S (joinp (lunDir t) lunLinkName)) by (rewrite joinp_plain by done; by apply news_at).
  assert (∀ q, link_sets (joinp (lunDir t) lunLinkName) q → s_mod S q) by by intros q ?%lun_link_sets.
  does_walk.
Qed.

Lemma does_ensureMappedLUN S iqn :
  plain_name iqn = true → news S (aclDir t iqn ++ [LUNName]) → does S (ensureMappedLUN t iqn).
Proof.
  intros Hp HN. pose proof (news_self _ _ HN). unfold ensureMappedLUN. cbv zeta. rewrite !joinp_plain by done.
  assert (s_new S ((aclDir t iqn ++ [LUNName]) ++ [mappedLUNLinkName])) by by apply news_at.
  assert (∀ q, link_sets ((aclDir t iqn ++ [LUNName]) ++ [mappedLUNLinkName]) q → s_mod S q).
  { intros q. rewrite <- app_assoc. by intros ?%no_link_sets. }
  does_walk.
Qed.
Hint Resolve does_ensureBackstore does_ensureLUN does_ensureMappedLUN : does.

(** A loop over the listed node ACLs. *)
Lemma does_acls {X} S (f : list string → M K go_error X) :
  (∀ l, Forall (λ n, plain_name n = true) l → does S (f l)) → does S (subdirs (aclsDir t) ≫= f).
Proof. intros Hf. eapply does_bind_with; [apply subdirs_plain|]. exact Hf. Qed.

Lemma news_acl S iqn : plain_name iqn = true → news S (targetDir t) → news S (aclDir t iqn).
Proof. intros Hp HN. rewrite aclDir_eq by done. by apply news_below. Qed.

Lemma does_attach S :
  serves_backstore S → news S (dirp (lunDir t)) → (∀ n, plain_name n = true → news S (aclDir t n ++ [LUNName])) →
  does S (attachLUN DeviceClaimer release DeriveUnitSerial t).
Proof.
  intros HS HL HA. unfold attachLUN. apply does_bind; [by apply does_ensureBackstore|]. intros _.
  apply does_bind; [by apply does_ensureLUN|]. intros _.
  apply does_acls. intros l Hl. apply does_for_each. intros n Hn. rewrite Forall_forall in Hl.
  apply does_ensureMappedLUN; auto.
Qed.

Lemma does_attachLUN S : serves S → does S (attachLUN DeviceClaimer release DeriveUnitSerial t).
Proof.
  intros HS. apply does_attach; [apply HS|..]; destruct HS.
  - rewrite lunRoot_eq. by apply news_below.
  - intros n Hn. by apply news_below, news_acl.
Qed.

Lemma does_removeLUNDir S d : mods S d → does S (removeLUNDir d).
Proof.
  intros HM. unfold removeLUNDir. apply does_bind; [by apply does_removeSymlinks|]. intros _. by apply does_removeDir.
Qed.

Lemma does_removeMappedLUNs S iqn : mods S (aclDir t iqn) → does S (removeMappedLUNs (aclDir t iqn)).
Proof.
  intros HM. unfold removeMappedLUNs.
  eapply does_bind_with; [apply subdirs_plain|]. intros names Hn. apply does_for_each. intros n Hin.
  rewrite Forall_forall in Hn. rewrite joinp_plain by auto. destruct (HasPrefix n "lun_"); [|apply does_ret].
  by apply does_removeLUNDir, mods_below.
Qed.

Lemma does_removeLUNs S : mods S (dirp (lunDir t)) → does S (removeLUNs t).
Proof.
  intros HM. unfold removeLUNs. cbv zeta. eapply does_bind_with; [apply subdirs_plain|].
  intros names Hn. apply does_for_each. intros n Hin. rewrite Forall_forall in Hn.
  rewrite joinp_plain by auto. by apply does_removeLUNDir, mods_below.
Qed.

Lemma disable_writable S : mods S (targetDir t) → writable S (tpgEnable t) "0".
Proof. intros HM. rewrite tpgEnable_eq. by apply mods_writable. Qed.

Lemma mods_acl S iqn : plain_name iqn = true → mods S (targetDir t) → mods S (aclDir t iqn).
Proof. intros Hp HM. rewrite aclDir_eq by done. by apply mods_below. Qed.

Lemma does_detachLUN S : mods S (targetDir t) → mods S (BackstoreDir t) → does S (detachLUN t).
Proof.
  intros HM HB. unfold detachLUN. apply does_bind; [apply does_exists|]. intros ok. apply does_bind.
  - destruct ok; [|apply does_ret]. apply does_bind; [by apply does_disableTPG, disable_writable|]. intros _.
    apply does_acls. intros l Hl. apply does_bind.
    + apply does_for_each. intros n Hin. rewrite Forall_forall in Hl. apply does_removeMappedLUNs, mods_acl; auto.
    + intros _. apply does_removeLUNs. rewrite lunRoot_eq. by apply mods_below.
  - intros _. cbv zeta. does_walk.
Qed.
Hint Resolve does_attachLUN does_detachLUN does_removeLUNs : does.

(** *** Policy and grants *)

Definition tpg_attrs : list (string * string) :=
  ("authentication", match TargetCHAP t with Some _ => "1" | None => "0" end) ::
  if ACLEnabled t then [("generate_node_acls", "0")]
  else [("generate_node_acls", "1"); ("cache_dynamic_acls", "1"); ("demo_mode_write_protect", "0")].

Lemma tpg_attrs_plain : Forall (λ kv, plain_name kv.1 = true ∧ kv.1 ≠ "enable") tpg_attrs.
Proof. unfold tpg_attrs. destruct (ACLEnabled t); repeat constructor; done. Qed.

Lemma does_ensureTPGAttribs S : mods S (attribDir t) → does S (ensureTPGAttribs t).
Proof using wf_target0.
  intros HM. change (ensureTPGAttribs t) with (for_each (λ kv, ensureAttr (joinp (attribDir t) kv.1) kv.2) tpg_attrs).
  apply does_for_each. intros kv Hin. apply does_ensureAttr.
  pose proof tpg_attrs_plain as Hp. rewrite Forall_forall in Hp. destruct (Hp kv Hin) as [Hp1 Hp2].
  rewrite joinp_plain by done. apply mods_plain_writable; [done|done|]. cbn. intros Hl. apply Hp2. by injection Hl.
Qed.

Lemma ensureACLAuth_eq iqn : plain_name iqn = true →
  ensureACLAuth (K := K) t iqn =
  (ensureAttr (aclDir t iqn ++ ["attrib"; "authentication"]) aclAuthInherited ;;
   match TargetCHAP t with
   | None => mret tt
   | Some c => for_each (λ kv, ensureSecretAttr (joinp (aclDir t iqn ++ ["auth"]) kv.1) kv.2) (acl_secrets c)
   end).
Proof.
  intros Hp. unfold ensureACLAuth, aclAuthDir, acl_secrets. rewrite joins_plain, joinp_plain by done.
  destruct (TargetCHAP t) as [c|]; [|done]. by destruct (chap_Mutual c).
Qed.

(** The writable attributes of a node ACL. *)
Definition mods_auth S iqn : Prop := mods S (aclDir t iqn ++ ["attrib"]) ∧ mods S (aclDir t iqn ++ ["auth"]).

Lemma mods_auth_all S iqn : mods S (aclDir t iqn) → mods_auth S iqn.
Proof. by split; apply mods_below. Qed.

Lemma does_ensureACLAuth S iqn : plain_name iqn = true → mods_auth S iqn → does S (ensureACLAuth t iqn).
Proof using wf_target0.
  intros Hp [HM1 HM2]. rewrite ensureACLAuth_eq by done.
  apply does_bind; [apply does_ensureAttr|intros _].
  { change ["attrib"; "authentication"] with (["attrib"] ++ ["authentication"]). rewrite app_assoc.
    by apply mods_plain_writable. }
  destruct (TargetCHAP t) as [c|]; [|apply does_ret].
  apply does_for_each. intros kv Hin. apply does_ensureSecretAttr.
  pose proof (acl_secrets_plain c) as Hs. rewrite Forall_forall in Hs. destruct (Hs kv Hin) as (H1&H2&_).
  rewrite joinp_plain by done. apply mods_plain_writable; [done|done|]. cbn. intros Hl. apply H2. by injection Hl.
Qed.

Lemma does_allowInitiator S iqn :
  plain_name iqn = true → news S (aclsDir t) → mods_auth S iqn → does S (allowInitiator t iqn).
Proof using wf_target0.
  intros Hp HN HM. assert (news S (aclDir t iqn)) as HA by (unfold aclDir; rewrite joinp_plain by done; by apply news_below).
  unfold allowInitiator. apply does_bind; [apply does_ensureDirs; intros d [->|[->|[]%elem_of_nil]%elem_of_cons]%elem_of_cons; by apply news_self|].
  intros _. apply does_bind; [by apply does_ensureACLAuth|]. intros _. does_walk.
Qed.

Lemma ValidateIQN_plain n : ValidateIQN n = Ok tt → plain_name n = true.
Proof.
  unfold ValidateIQN, plain_name. destruct (bool_decide (n = "")); [done|]. destruct (_ <? _)%nat; [done|].
  destruct (existsb _ _) eqn:Ex; [done|]. destruct (bool_decide (n = ".")); [done|].
  destruct (bool_decide (n = "..")); [done|]. cbn. intros _. apply forallb_forall. intros c Hc.
  apply negb_true_iff. destruct (Ascii.eqb c "/") eqn:Ec; [|done].
  rewrite <- Ex. symmetry. apply existsb_exists. exists c. by rewrite Ec.
Qed.

Lemma ValidateIQNs_plain l : ValidateIQNs l = Ok tt → ∀ n, n ∈ l → plain_name n = true.
Proof.
  induction l as [|x l IH]; cbn; [by intros _ n ?%elem_of_nil|]. destruct (ValidateIQN x) as [[]|] eqn:E; [|done].
  cbn. intros Hl n [->|Hn]%elem_of_cons; [by apply ValidateIQN_plain|by apply IH].
Qed.

Lemma validate_initiators : Target_validate t = Ok tt → ∀ n, n ∈ AllowedInitiators t → plain_name n = true.
Proof.
  unfold Target_validate. destruct (ValidateIQN (IQN t)); [|done]. cbn.
  destruct (_ && _); [done|]. cbn. destruct (ValidateIQNs _) as [[]|] eqn:E; [|done]. intros _.
  by apply ValidateIQNs_plain.
Qed.

(** A validation in front. *)
Lemma does_validated {X} S (r : GoResult unit) (m : M K go_error X) :
  (r = Ok tt → does S m) → does S (lift r ;; m).
Proof.
  intros Hm k Hi. apply wp_bind, wp_lift. destruct r as [[]|e]; [by apply Hm|by apply effect_refl].
Qed.

Lemma Initiators_plain S : does_with S (Forall (λ n, plain_name n = true)) (Initiators t).
Proof.
  intros k Hi. unfold Initiators. eapply wp_call; [by apply (subdirs_plain S)| |by intros e k' [? _]].
  intros l k1 [H1 Hl]. apply wp_ret. split; [done|]. intros a [= <-]. rewrite Sort_perm. by apply Hl.
Qed.

(** *** The exported operations *)

Lemma does_Prepare S : serves S → does S (Prepare DeviceClaimer release DeriveUnitSerial t).
Proof.
  intros HS. pose proof HS as [HNf HNt HMt HB]. pose proof HB as [_ _ _ HMb _]. unfold Prepare.
  apply does_validated. intros Hv. apply does_bind; [by apply does_ensureISCSIFabric|intros _].
  apply does_bind; [|intros _].
  { apply does_ensureDirs. intros d [->|[->|[]%elem_of_nil]%elem_of_cons]%elem_of_cons; [by apply news_self|].
    rewrite tpgDir_eq. by apply news_at. }
  apply does_bind; [|intros _].
  { destruct (LocalAttach t); [|by apply does_attachLUN]. apply does_bind; [by apply does_detachLUN|]. auto with does. }
  apply does_bind; [apply does_ensureTPGAttribs; rewrite attribDir_eq; by apply mods_below|intros _].
  apply does_bind; [|intros _].
  - apply does_for_each. intros n Hn. pose proof (validate_initiators Hv n Hn).
    apply does_allowInitiator; [done|rewrite aclsDir_eq; by apply news_below|by apply mods_auth_all, mods_acl].
  - eapply does_bind_with; [apply Initiators_plain|]. intros l Hl. apply does_for_each. intros n Hn.
    rewrite Forall_forall in Hl. apply does_ensureACLAuth; [auto|]. apply mods_auth_all, mods_acl; auto.
Qed.

Lemma enable_writable S : mods S (targetDir t) → s_on S (tpgEnable t) → writable S (tpgEnable t) "1".
Proof. rewrite tpgEnable_eq. intros HM HE. by apply mods_writable. Qed.

Lemma does_removeOtherPortals S portal l :
  mods S (npDir t) → Forall (λ n, plain_name n = true) l → does S (for_each (removeOtherPortal t portal) l).
Proof.
  intros HM Hl. apply does_for_each. intros n Hn. unfold removeOtherPortal. case_decide; [apply does_ret|].
  rewrite Forall_forall in Hl. rewrite joinp_plain by auto. by apply does_removeDir, mods_below.
Qed.

Lemma no_slash_digit d : negb (Ascii.eqb (pretty_N_char d) "/") = true.
Proof. destruct d as [|p]; [done|]. do 4 (destruct p as [p|p|]; try done). Qed.

Lemma FormatPortal_plain addr port :
  addr = "0.0.0.0" ∨ addr = "::" → 0 ≤ port → plain_name (FormatPortal addr port) = true.
Proof.
  intros Ha Hp. pose proof (Itoa_chars (λ c, negb (Ascii.eqb c "/")) port Hp no_slash_digit) as Hd.
  unfold FormatPortal, plain_name. destruct Ha as [->| ->]; exact Hd.
Qed.

Lemma Portal_plain portal : Target_Portal t = Ok portal → plain_name portal = true.
Proof.
  unfold Target_Portal. destruct (ParseIP _) as [ip|]; [|done]. destruct (_ || _) eqn:Ep; [done|].
  apply orb_false_iff in Ep as [H1 _]. apply Z.ltb_ge in H1.
  destruct (bool_decide _); intros [= <-]; apply FormatPortal_plain; auto; lia.
Qed.

Lemma does_portals S :
  news S (npDir t) → mods S (npDir t) → writable S (tpgEnable t) "0" → writable S (tpgEnable t) "1" →
  does S (Activate t).
Proof.
  intros HN HM H0' H1'. unfold Activate. apply (does_bind_with S (λ p, plain_name p = true)).
  { intros k Hi. apply wp_lift. split; [by apply effect_refl|]. by apply Portal_plain. }
  intros portal Hp. apply does_bind; [auto with does|intros _]. apply does_bind; [auto with does|intros _].
  apply does_bind; [rewrite joinp_plain by done; by apply does_ensureDir, news_at|intros _].
  eapply does_bind_with; [apply subdirs_plain|]. intros l Hl. apply does_bind; [by apply does_removeOtherPortals|].
  intros _. destruct (LocalAttach t); [by apply does_disableTPG|].
  apply does_bind; [apply does_lunBound|]. intros b. destruct (negb b); [apply does_throw|by apply does_ensureAttr].
Qed.

Lemma does_Activate S :
  news S (targetDir t) → mods S (targetDir t) → s_on S (tpgEnable t) → does S (Activate t).
Proof.
  intros HN HM HE. apply does_portals; [..|by apply disable_writable|by apply enable_writable]; rewrite npDir_eq.
  - by apply news_below.
  - by apply mods_below.
Qed.

Lemma does_EnterLocalAttach S :
  mods S (targetDir t) → mods S (BackstoreDir t) → does S (EnterLocalAttach DeviceClaimer release t).
Proof. intros. unfold EnterLocalAttach. does_walk. Qed.

Lemma does_LeaveLocalAttach S :
  serves S → s_on S (tpgEnable t) → does S (LeaveLocalAttach DeviceClaimer release DeriveUnitSerial t).
Proof.
  intros HS HE. unfold LeaveLocalAttach. apply does_bind; [auto with does|]. intros _.
  case_decide; [apply does_throw|]. apply does_bind; [by apply does_attachLUN|]. intros _.
  apply does_ensureAttr, enable_writable; [apply HS|done].
Qed.

Lemma does_removeACL S iqn : mods S (aclDir t iqn) → does S (removeACL t iqn).
Proof.
  intros HM. unfold removeACL. apply does_bind; [by apply does_removeMappedLUNs|]. intros _. by apply does_removeDir.
Qed.

Lemma does_removeTPG S : mods S (targetDir t) → does S (removeTPG t).
Proof.
  intros HM. unfold removeTPG. apply does_bind; [by apply does_disableTPG, disable_writable|]. intros _.
  apply does_acls. intros l Hl. apply does_bind.
  { apply does_for_each. intros n Hn. rewrite Forall_forall in Hl. apply does_removeACL, mods_acl; auto. }
  intros _. eapply does_bind_with; [apply subdirs_plain|]. intros nps Hnps. apply does_bind.
  { apply does_for_each. intros n Hn. rewrite Forall_forall in Hnps. rewrite joinp_plain, npDir_eq by auto.
    by apply does_removeDir, mods_below, mods_below. }
  intros _. apply does_bind; [apply does_removeLUNs; rewrite lunRoot_eq; by apply mods_below|]. intros _.
  rewrite tpgDir_eq. by apply does_removeDir, mods_below.
Qed.

Lemma does_Remove S : mods S (targetDir t) → mods S (BackstoreDir t) → does S (Remove t).
Proof.
  intros HM HB. unfold Remove. apply does_validated. intros _. apply does_bind; [auto with does|]. intros ok.
  apply does_bind; [|intros _; apply does_bind; [by apply does_removeDir|intros _; by apply does_removeDir]].
  destruct ok; [by apply does_removeTPG|apply does_ret].
Qed.

Lemma does_AllowInitiator S iqn :
  news S (aclsDir t) → (plain_name iqn = true → mods_auth S iqn) → does S (Target_AllowInitiator t iqn).
Proof using wf_target0.
  intros HN HM. unfold Target_AllowInitiator. apply does_validated. intros Hv%ValidateIQN_plain. apply does_bind.
  { destruct (TargetCHAP t); [apply does_lift|apply does_ret]. }
  intros _. apply does_bind; [auto with does|]. intros _. by apply does_allowInitiator; auto.
Qed.

Lemma does_DenyInitiator S iqn :
  (plain_name iqn = true → mods S (aclDir t iqn)) → does S (Target_DenyInitiator t iqn).
Proof.
  intros HM. unfold Target_DenyInitiator. apply does_validated. intros Hv%ValidateIQN_plain.
  by apply does_removeACL, HM.
Qed.

Lemma does_RevokeInitiatorsExcept S keep :
  (∀ n, plain_name n = true → containsb keep n = false → mods S (aclDir t n)) → does S (RevokeInitiatorsExcept t keep).
Proof.
  intros HM. unfold RevokeInitiatorsExcept. eapply does_bind_with; [apply Initiators_plain|].
  intros l Hl. apply does_for_each. intros n Hn. rewrite Forall_forall in Hl.
  destruct (containsb keep n) eqn:Ek; [apply does_ret|]. apply does_removeACL, HM; auto.
Qed.
End Footprint.
