(* ===== verification/LioTheorems.v ===== *)
(** * What the LIO target operations guarantee

    Isolation between exports, complete removal, fenced local attach,
    revocation, and the order in which a target becomes reachable: its access
    policy is in place before it is switched on. *)
From stdpp Require Import base numbers list strings gmap pretty.
From Stdlib Require Import Ascii.
From S2P Require Import Prelude GoStd GoNet FencingMark FencingStore Backend Fencing AgentServer.
From S2P Require Import LioFs LioTarget LioLaws ConfigfsEffects LioCorrect.
Open Scope Z_scope.

(** ** Exports are isolated from each other *)

Inductive lio_op :=
| LPrepare | LActivate | LApply | LEnterLocalAttach | LLeaveLocalAttach | LRemove
| LAllow (iqn : string) | LDeny (iqn : string) | LRevokeExcept (keep : list string).

Section Theorems.
Context {K C : Type} `{FSLaws K} (DeviceClaimer : string → M K go_error C) (release : C → M K go_error unit)
  (DeriveUnitSerial : string → string).
Context (claimer_looks : ∀ d k, fs_inv k → wp (DeviceClaimer d) (λ _ k', fs_inv k' ∧ view k' = view k) k)
  (release_looks : ∀ c k, fs_inv k → wp (release c) (λ _ k', fs_inv k' ∧ view k' = view k) k).
Implicit Types (t : Target) (k : K) (p q : path).

Definition run_lio (o : lio_op) (t : Target) : M K go_error unit :=
  match o with
  | LPrepare => Prepare DeviceClaimer release DeriveUnitSerial t
  | LActivate => Activate t
  | LApply => Apply DeviceClaimer release DeriveUnitSerial t
  | LEnterLocalAttach => EnterLocalAttach DeviceClaimer release t ;; mret tt
  | LLeaveLocalAttach => LeaveLocalAttach DeviceClaimer release DeriveUnitSerial t
  | LRemove => Remove t
  | LAllow iqn => Target_AllowInitiator t iqn
  | LDeny iqn => Target_DenyInitiator t iqn
  | LRevokeExcept keep => RevokeInitiatorsExcept t keep
  end.

(** The scope of all operations on a target. *)
Definition own_scope t : scope := {|
  s_new := λ q, own t q ∨ q = iscsiDir t ∨ q = dirp (hbaDir t) ∨ q = hbaDir t;
  s_mod := own t;
  s_on := λ q, q = backstoreEnable t ∨ q = tpgEnable t |}.

Lemma own_scope_serves t `{!wf_target t} : serves t (own_scope t).
Proof.
  split; [by right; left|by intros q; left; left|by intros q; left|].
  split; [by right; right; left|by right; right; right|by intros q; left; right|by intros q; right|by left].
Qed.

Lemma run_lio_does o t `{!wf_target t} : does (own_scope t) (run_lio o t).
Proof.
  pose proof (own_scope_serves t) as HS. pose proof HS as [HNf HNt HMt [_ _ _ HMb _]].
  assert (s_on (own_scope t) (tpgEnable t)) as HT by by right.
  destruct o; cbn [run_lio].
  - by apply does_Prepare.
  - by apply does_Activate.
  - unfold Apply. apply does_bind; [by apply does_Prepare|]. intros _. by apply does_Activate.
  - apply does_bind; [by apply does_EnterLocalAttach|]. intros. apply does_ret.
  - by apply does_LeaveLocalAttach.
  - by apply does_Remove.
  - apply (does_AllowInitiator t); [rewrite (aclsDir_eq t); by apply news_below|]. intros. by apply mods_auth_all, mods_acl.
  - apply does_DenyInitiator. intros. by apply mods_acl.
  - apply does_RevokeInitiatorsExcept. intros. by apply mods_acl.
Qed.
End Theorems.

(** ** Removal and detaching *)
Section Removal.
Context {K : Type} `{FSLaws K} (t : Target) `{!wf_target t}.
Implicit Types (k : K) (p q : path).

Lemma removeLUNDir_Ok dir k k' : fs_inv k → removeLUNDir dir k = (Ok tt, k') → view k' dir = None.
Proof.
  intros Hi Hr. unfold removeLUNDir in Hr. minv.
  assert (does (mods_scope dir) (removeSymlinks (K := K) dir)) as Hd by apply does_removeSymlinks, mods_scope_mods.
  pose proof (eff_inv _ _ _ (does_run _ _ _ _ _ Hd Hi H1)). by eapply removeDir_Ok.
Qed.

(** Sibling directories removed one by one. *)
Lemma removeLUNDirs_Ok dir (sel : string → bool) names k k' :
  fs_inv k → Forall (λ n, plain_name n = true) names →
  for_each (λ name, if sel name then removeLUNDir (joinp dir name) else mret tt) names k = (Ok tt, k') →
  ∀ n, n ∈ names → sel n = true → view k' (dir ++ [n]) = None.
Proof.
  intros Hi Hn Hr. rewrite Forall_forall in Hn.
  assert (∀ n, n ∈ names → does (mods_scope dir) (if sel n then removeLUNDir (joinp dir n) else mret tt : M K go_error unit)) as Hd.
  { intros n Hin. destruct (sel n); [|apply does_ret]. rewrite joinp_plain by auto.
    apply does_removeLUNDir, mods_below, mods_scope_mods. }
  refine (for_each_Ok _ (λ n k, sel n = true → view k (dir ++ [n]) = None) _ _ _ _ Hd _ Hi Hr).
  intros a b k1 k2 Ha Hb Hi1 HP Hf Hsel. pose proof (does_run _ _ _ _ _ (Hd a Ha) Hi1 Hf) as He.
  destruct HP as [->|HP].
  - rewrite Hsel, joinp_plain in Hf by auto. by eapply removeLUNDir_Ok.
  - apply (effect_absent _ _ _ _ He); [by intros ? []|auto].
Qed.

Lemma removeMappedLUNs_Ok acl k k' : fs_inv k → removeMappedLUNs acl k = (Ok tt, k') →
  ∀ n, plain_name n = true → HasPrefix n "lun_" = true → view k' (acl ++ [n]) ≠ Some NDir.
Proof.
  intros Hi Hr n Hp Hn Hv. unfold removeMappedLUNs in Hr. minv.
  destruct (subdirs_Ok _ _ _ _ Hi H1) as (Hi1&Hv1&Hl).
  assert (Forall (λ n, plain_name n = true) x) as Hx by (apply Forall_forall; intros m Hm; by apply Hl in Hm as []).
  assert (does (mods_scope acl) (for_each (λ name, if HasPrefix name "lun_" then removeLUNDir (joinp acl name) else mret tt : M K go_error unit) x)) as Hd.
  { apply does_for_each. intros m Hm. rewrite Forall_forall in Hx. rewrite joinp_plain by auto.
    destruct (HasPrefix m "lun_"); [|apply does_ret]. apply does_removeLUNDir, mods_below, mods_scope_mods. }
  pose proof (does_run _ _ _ _ _ Hd Hi1 Hr) as He. apply (effect_dir _ _ _ _ He) in Hv as Hv'; [|by intros []].
  rewrite Hv1 in Hv'. rewrite (removeLUNDirs_Ok acl (λ n, HasPrefix n "lun_") _ _ _ Hi1 Hx Hr n) in Hv; [done| |done].
  by apply Hl.
Qed.

Lemma removeACL_Ok iqn k k' : fs_inv k → removeACL t iqn k = (Ok tt, k') → view k' (aclDir t iqn) = None.
Proof.
  intros Hi Hr. unfold removeACL in Hr. minv. eapply removeDir_Ok; [|done|done].
  eapply eff_inv, (does_run (mods_scope (aclDir t iqn))); [|exact Hi|exact H1].
  apply does_removeMappedLUNs, mods_scope_mods.
Qed.

Lemma aclDir_snoc n : plain_name n = true → aclDir t n = aclsDir t ++ [n].
Proof. intros. by apply joinp_plain. Qed.

Lemma Initiators_Ok l k k' : fs_inv k → Initiators t k = (Ok l, k') →
  fs_inv k' ∧ view k' = view k ∧ ∀ n, n ∈ l ↔ plain_name n = true ∧ view k (aclsDir t ++ [n]) = Some NDir.
Proof.
  intros Hi Hr. unfold Initiators in Hr. minv. destruct (subdirs_Ok _ _ _ _ Hi H1) as (?&?&Hl).
  split_and!; [done|done|]. intros n. by rewrite Sort_perm.
Qed.

Lemma removeLUNs_Ok k k' : fs_inv k → removeLUNs t k = (Ok tt, k') →
  ∀ n, plain_name n = true → view k' (dirp (lunDir t) ++ [n]) ≠ Some NDir.
Proof.
  intros Hi Hr n Hp Hv. assert (does (mods_scope (dirp (lunDir t))) (removeLUNs (K := K) t)) as Hd
    by apply does_removeLUNs, mods_scope_mods.
  apply (effect_dir _ _ _ _ (does_run _ _ _ _ _ Hd Hi Hr)) in Hv as Hv'; [|by intros []].
  unfold removeLUNs in Hr. minv. destruct (subdirs_Ok _ _ _ _ Hi H1) as (Hi1&Hv1&Hl).
  assert (Forall (λ n, plain_name n = true) x) as Hx by (apply Forall_forall; intros m Hm; by apply Hl in Hm as []).
  rewrite (removeLUNDirs_Ok _ (λ _, true) _ _ _ Hi1 Hx Hr n) in Hv; [done| |done]. by apply Hl.
Qed.
End Removal.

(** ** Isolation, removal, revocation *)

(** Two exports of the agent that are not the same volume. *)
Record apart (t t2 : Target) : Prop := {
  ap_root : ConfigfsRoot t = ConfigfsRoot t2;
  ap_owned : HasPrefix (IQN t) OwnedIQNPrefix = true;
  ap_owned2 : HasPrefix (IQN t2) OwnedIQNPrefix = true;
  ap_IQN : IQN t ≠ IQN t2;
}.

(** The fabric's directories and the backstores' have nothing in common. *)
Lemma coreDir_eq t : dirp (hbaDir t) = cfsTargetDir t ++ ["core"].
Proof. unfold hbaDir. rewrite !joinp_plain by done. apply removelast_last. Qed.

Lemma fabric_core_disjoint t q : iscsiDir t `prefix_of` q → dirp (hbaDir t) `prefix_of` q → False.
Proof.
  assert (iscsiDir t = cfsTargetDir t ++ ["iscsi"]) as -> by by apply joinp_plain. rewrite coreDir_eq.
  intros [s1 ->] [s2 Hs]. rewrite <- !app_assoc in Hs. apply app_inv_head in Hs. done.
Qed.

Lemma target_fabric t `{!wf_target t} q : targetDir t `prefix_of` q → iscsiDir t `prefix_of` q.
Proof. intros Hq. etrans; [|exact Hq]. rewrite (targetDir_eq t). by apply prefix_app_r. Qed.
Lemma backstore_core t `{!wf_target t} q : BackstoreDir t `prefix_of` q → dirp (hbaDir t) `prefix_of` q.
Proof. intros Hq. etrans; [|exact Hq]. rewrite (BackstoreDir_eq t). apply prefix_app_r. eexists. apply hbaDir_eq. Qed.
Lemma target_not_backstore t `{!wf_target t} q : targetDir t `prefix_of` q → BackstoreDir t `prefix_of` q → False.
Proof. intros H1%target_fabric H2%backstore_core; [|done..]. by eapply fabric_core_disjoint. Qed.

(** Nor have those of two volumes. *)
Lemma own_apart t t2 `{!wf_target t, !wf_target t2} q : apart t t2 → own t q → own t2 q → False.
Proof.
  intros [Hr Ho Ho2 Hne].
  assert (iscsiDir t2 = iscsiDir t ∧ hbaDir t2 = hbaDir t) as [HI2 HH2]
    by (unfold iscsiDir, hbaDir, cfsTargetDir, rootPath; by rewrite Hr).
  intros [H1|H1] [H2|H2].
  - rewrite targetDir_eq in H1, H2 by done. rewrite HI2 in H2. by apply Hne, (prefix_snoc_eq _ _ _ _ H1 H2).
  - apply target_fabric in H1; [|done]. apply backstore_core in H2; [|done]. rewrite HH2 in H2. by eapply fabric_core_disjoint.
  - apply backstore_core in H1; [|done]. apply target_fabric in H2; [|done]. rewrite HI2 in H2. by eapply fabric_core_disjoint.
  - rewrite BackstoreDir_eq in H1, H2 by done. rewrite HH2 in H2.
    apply Hne, (TrimPrefix_inj OwnedIQNPrefix); [done|done|]. exact (prefix_snoc_eq _ _ _ _ H1 H2).
Qed.

Section Isolation.
Context {K C : Type} `{FSLaws K} (DeviceClaimer : string → M K go_error C) (release : C → M K go_error unit)
  (DeriveUnitSerial : string → string).
Context (claimer_looks : ∀ d k, fs_inv k → wp (DeviceClaimer d) (λ _ k', fs_inv k' ∧ view k' = view k) k)
  (release_looks : ∀ c k, fs_inv k → wp (release c) (λ _ k', fs_inv k' ∧ view k' = view k) k).
Implicit Types (t : Target) (k : K) (p q : path).

Lemma enable_owned t q `{!wf_target t} : s_on (own_scope t) q → own t q.
Proof. intros [->| ->]; [apply own_backstore|rewrite tpgEnable_eq; apply own_target]. Qed.

(** The part of a volume's export that is there, with all below. *)
Definition present t k q : Prop :=
  (targetDir t `prefix_of` q ∧ view k (targetDir t) = Some NDir) ∨
  (BackstoreDir t `prefix_of` q ∧ view k (BackstoreDir t) = Some NDir).

Lemma fabric_not_own t `{!wf_target t} : ¬ own t (iscsiDir t) ∧ ¬ own t (dirp (hbaDir t)) ∧ ¬ own t (hbaDir t).
Proof.
  assert (∀ (d : path) x, d ++ [x] `prefix_of` d → False) as Hlen.
  { intros d x Hp%prefix_length. rewrite length_app in Hp. cbn in Hp. lia. }
  split_and!; intros [Hp|Hp].
  - rewrite (targetDir_eq t) in Hp. by eapply Hlen.
  - apply (backstore_core t) in Hp. by eapply (fabric_core_disjoint t).
  - apply (target_fabric t) in Hp. by eapply (fabric_core_disjoint t).
  - eapply (Hlen (hbaDir t)). etrans; [|eexists; apply (hbaDir_eq t)]. by rewrite <- (BackstoreDir_eq t).
  - apply (target_fabric t) in Hp. eapply (fabric_core_disjoint t); [exact Hp|]. eexists. apply (hbaDir_eq t).
  - rewrite (BackstoreDir_eq t) in Hp. by eapply Hlen.
Qed.

(** Two volumes of one agent share the directories above their own. *)
Lemma apart_dirs t t2 : apart t t2 → iscsiDir t2 = iscsiDir t ∧ hbaDir t2 = hbaDir t.
Proof. intros [Hr _ _ _]. unfold iscsiDir, hbaDir, cfsTargetDir, rootPath. by rewrite Hr. Qed.

Lemma stable_apart t t2 `{!wf_target t, !wf_target t2} k q :
  apart t t2 → fs_inv k → present t2 k q → stable (own_scope t) k q.
Proof.
  intros Ha Hi Hq p Hp Hpq. destruct (apart_dirs _ _ Ha) as [Hf Hh]. destruct (fabric_not_own t) as (N1&N2&N3).
  assert (own t2 q) as Ho by (destruct Hq as [[? _]|[? _]]; [by left|by right]).
  destruct Hp as [Hp|Hp]; [exfalso; eapply (own_apart t t2); [done|by eapply own_below|done]|].
  destruct Hq as [[Hq Hv]|[Hq Hv]].
  - apply (target_fabric t2) in Hq. rewrite Hf in Hq. destruct Hp as [->|Hp].
    + split; [|done]. rewrite (targetDir_eq t2), Hf in Hv. rewrite (law_tree k (iscsiDir t) (IQN t2)); [done|done|by rewrite Hv].
    + exfalso. eapply (fabric_core_disjoint t); [exact Hq|]. destruct Hp as [->| ->]; [done|].
      etrans; [|exact Hpq]. eexists. apply (hbaDir_eq t).
  - assert (view k (hbaDir t) = Some NDir) as Hhba.
    { rewrite (BackstoreDir_eq t2), Hh in Hv. apply (law_tree k _ (BackstoreNameForIQN (IQN t2))); [done|by rewrite Hv]. }
    destruct Hp as [->|[->| ->]].
    + exfalso. apply (backstore_core t2) in Hq. rewrite Hh in Hq. by eapply (fabric_core_disjoint t).
    + split; [|done]. rewrite (law_tree k _ ("iblock_" +:+ pretty HBAIndex)); [done|done|].
      by rewrite <- (hbaDir_eq t), Hhba.
    + split; [|done]. by rewrite Hhba.
Qed.

(** Whatever the agent does for one volume, however it ends, the exports
    of its other volumes stay exactly as they are in configfs: nothing below
    their target and backstore directories changes, appears or disappears,
    and none of their switches is turned on. *)
Theorem lio_isolated o t t2 `{!wf_target t, !wf_target t2} k r k' q :
  apart t t2 → fs_inv k → run_lio DeviceClaimer release DeriveUnitSerial o t k = (r, k') → own t2 q →
  (present t2 k q → view k' q = view k q) ∧ (is_enable q → off (view k) q → off (view k') q).
Proof using claimer_looks release_looks.
  intros Ha Hi Hr Hq.
  pose proof (does_run _ _ _ _ _ (run_lio_does _ _ DeriveUnitSerial claimer_looks release_looks o t) Hi Hr) as He.
  split; [intros Hp; apply (effect_untouched _ _ _ _ He)|intros Hen; apply (eff_off _ _ _ He); [done|]].
  - intros Ho. exact (own_apart t t2 q Ha Ho Hq).
  - by eapply stable_apart.
  - intros Ho%enable_owned; [|done]. exact (own_apart t t2 q Ha Ho Hq).
Qed.

(** A removal that reports success leaves nothing of the target and its
    backstore in configfs. *)
Theorem Remove_complete t `{!wf_target t} k k' q :
  fs_inv k → Remove t k = (Ok tt, k') → own t q → view k' q = None.
Proof.
  intros Hi Hr Hq. unfold Remove in Hr. minv. destruct x5.
  destruct (exists_Ok _ _ _ _ Hi H2) as (Hi2&_&_).
  assert (fs_inv x4) as Hi4.
  { destruct x1; [|by injection H3 as _ <-].
    eapply eff_inv, does_run; [apply (does_removeTPG t (own_scope t)); by left|done|exact H3]. }
  pose proof (removeDir_at _ _ _ _ Hi4 H4) as He5.
  pose proof (removeDir_at _ _ _ _ (eff_inv _ _ _ He5) Hr) as He6. destruct Hq as [Hq|Hq].
  - apply (effect_absent _ _ _ _ He6); [by intros ? []|]. by eapply removeDir_Ok.
  - eapply removeDir_Ok; [apply He5|done|done].
Qed.

(** Denying an initiator touches nothing but its node ACL, however it
    ends; when it reports success the ACL is gone. *)
Theorem DenyInitiator_exact t `{!wf_target t} iqn k r k' :
  fs_inv k → Target_DenyInitiator t iqn k = (r, k') →
  (∀ q, ¬ aclDir t iqn `prefix_of` q → view k' q = view k q) ∧
  (r = Ok tt → ∀ q, aclDir t iqn `prefix_of` q → view k' q = None).
Proof.
  intros Hi Hr. assert (does (mods_scope (aclDir t iqn)) (Target_DenyInitiator (K := K) t iqn)) as Hd
    by (apply does_DenyInitiator; intros; apply mods_scope_mods).
  pose proof (does_run _ _ _ _ _ Hd Hi Hr) as He. split.
  - intros q Hq. apply (effect_untouched _ _ _ _ He); [done|by intros []].
  - intros -> q Hq. unfold Target_DenyInitiator in Hr. minv.
    apply (view_below _ (aclDir t iqn)); [apply He|by eapply removeACL_Ok|done].
Qed.

(** Only ACLs of initiators that are not kept. *)
Definition revoke_scope t keep : scope := {|
  s_new := nothing;
  s_mod := λ q, ∃ n, plain_name n = true ∧ containsb keep n = false ∧ aclDir t n `prefix_of` q;
  s_on := nothing |}.

(** Revoking all initiators but some leaves everything but the ACLs of the
    others alone, however it ends; when it reports success no other ACL is
    left. *)
Lemma RevokeInitiatorsExcept_exact t `{!wf_target t} keep k r k' :
  fs_inv k → RevokeInitiatorsExcept t keep k = (r, k') →
  (∀ q, (∀ n, plain_name n = true → aclDir t n `prefix_of` q → containsb keep n = true) → view k' q = view k q) ∧
  (r = Ok tt → ∀ n, plain_name n = true → view k' (aclDir t n) = Some NDir → containsb keep n = true).
Proof.
  intros Hi Hr. assert (∀ n, plain_name n = true → containsb keep n = false → mods (revoke_scope t keep) (aclDir t n)) as HM
    by (intros n Hp Hk q Hq; by exists n).
  pose proof (does_run _ _ _ _ _ (does_RevokeInitiatorsExcept (K := K) t _ _ HM) Hi Hr) as He. split.
  - intros q Hq. apply (effect_untouched _ _ _ _ He); [|by intros []].
    intros (n&Hp&Hk&Hn). rewrite (Hq n Hp Hn) in Hk. done.
  - intros -> n Hp Hv. destruct (containsb keep n) eqn:Ek; [done|exfalso].
    apply (effect_dir _ _ _ _ He) in Hv as Hv0; [|by intros []].
    unfold RevokeInitiatorsExcept in Hr. minv.
    destruct (Initiators_Ok _ _ _ _ Hi H1) as (Hi1&Hv1&Hl).
    assert (view k' (aclDir t n) = None) as Hn; [|congruence].
    assert (∀ n, n ∈ x → does (revoke_scope t keep) (if containsb keep n then mret tt else removeACL t n : M K go_error unit)) as Hd.
    { intros m Hm. destruct (containsb keep m) eqn:Em; [apply does_ret|]. apply does_removeACL, HM; [|done].
      by apply Hl in Hm as []. }
    refine (for_each_Ok _ (λ n k, containsb keep n = false → view k (aclDir t n) = None) _ _ _ _ Hd _ Hi1 Hr n _ Ek).
    + intros a b k1 k2 Ha Hb Hi2 HP Hf Hb'. destruct HP as [->|HP].
      * rewrite Hb' in Hf. by eapply removeACL_Ok.
      * apply (effect_absent _ _ _ _ (does_run _ _ _ _ _ (Hd a Ha) Hi2 Hf)); [by intros ? []|auto].
    + apply Hl. split; [done|]. by rewrite <- (aclDir_snoc t n).
Qed.
End Isolation.
