(* ===== verification/LioServing.v ===== *)
(** * When a target serves its volume

    Detaching for a local attach leaves nothing that serves the device, and a
    target is switched on only after its access policy is in place. *)
From stdpp Require Import base numbers list strings gmap pretty.
From Stdlib Require Import Ascii Sorted.
From S2P Require Import Prelude GoStd GoNet FencingMark FencingStore Backend Fencing AgentServer.
From S2P Require Import LioFs LioTarget LioLaws ConfigfsEffects LioCorrect LioTheorems.
Open Scope Z_scope.

(** A path of the target that is elsewhere. *)
Ltac target_paths t :=
  rewrite ?(lunRoot_eq t), ?(lunDir_eq t), ?(aclsDir_eq t), ?(npDir_eq t), ?(attribDir_eq t), ?(tpgEnable_eq t),
    ?(tpgDir_eq t), <- ?app_assoc in *; cbn [app] in *.
Ltac other_path t :=
  cbn; let Hq := fresh "Hq" in intros Hq;
  match type of Hq with
  | BackstoreDir t `prefix_of` _ => apply (target_not_backstore t _) in Hq; [done|target_paths t; by apply prefix_app_r]
  | _ => target_paths t; path_split
  end.

(** ** Detaching *)
Section Detach.
Context {K C : Type} `{FSLaws K} (DeviceClaimer : string → M K go_error C) (release : C → M K go_error unit).
Context (t : Target) `{!wf_target t}.
Implicit Types (k : K) (q : path).

(** No LUN, no LUN mapped to an initiator. *)
Definition no_luns k : Prop :=
  (∀ n, plain_name n = true → view k (dirp (lunDir t) ++ [n]) ≠ Some NDir) ∧
  (∀ a n, plain_name a = true → plain_name n = true → HasPrefix n "lun_" = true →
     view k (aclDir t a ++ [n]) ≠ Some NDir).

(** Nothing in configfs serves the device. *)
Definition detached k : Prop := attr k (tpgEnable t) "0" ∧ no_luns k ∧ view k (BackstoreDir t) = None.

Lemma no_luns_keeps S k k' : effect S k k' → (∀ q, ¬ s_new S q) → no_luns k → no_luns k'.
Proof.
  intros He Hn [H1 H2]. split.
  - intros n Hp Hv. apply (H1 n Hp), (effect_dir _ _ _ _ He); [|done]. by intros ? ?%Hn.
  - intros a n Ha Hp Hl Hv. apply (H2 a n Ha Hp Hl), (effect_dir _ _ _ _ He); [|done]. by intros ? ?%Hn.
Qed.

(** Unmapping every initiator. *)
Lemma unmap_Ok l k k' :
  fs_inv k → (∀ n, n ∈ l ↔ plain_name n = true ∧ view k (aclsDir t ++ [n]) = Some NDir) →
  for_each (λ iqn, removeMappedLUNs (aclDir t iqn)) l k = (Ok tt, k') →
  effect (mods_scope (aclsDir t)) k k' ∧
  ∀ a n, plain_name a = true → plain_name n = true → HasPrefix n "lun_" = true → view k' (aclDir t a ++ [n]) ≠ Some NDir.
Proof.
  intros Hi Hl Hr.
  assert (∀ a, a ∈ l → does (mods_scope (aclsDir t)) (removeMappedLUNs (K := K) (aclDir t a))) as Hd.
  { intros a [Ha _]%Hl. apply does_removeMappedLUNs. rewrite aclDir_snoc by done. apply mods_below, mods_scope_mods. }
  pose proof (does_run _ _ _ _ _ (does_for_each _ _ _ Hd) Hi Hr) as He. split; [done|].
  intros a n Ha Hn Hpre Hv. apply (effect_dir _ _ _ _ He) in Hv as Hv0; [|by intros []].
  assert (view k (aclDir t a) = Some NDir) as Hacl by (eapply law_tree; [done|by rewrite Hv0]).
  assert (a ∈ l) as Hin by (apply Hl; by rewrite <- aclDir_snoc).
  revert Hv. refine (for_each_Ok _ (λ a k, view k (aclDir t a ++ [n]) ≠ Some NDir) _ _ _ _ Hd _ Hi Hr a Hin).
  intros a' b k1 k2 Ha' Hb Hi1 HP Hf. destruct HP as [->|HP]; [by eapply removeMappedLUNs_Ok|].
  intros Hv. apply HP, (effect_dir _ _ _ _ (does_run _ _ _ _ _ (Hd a' Ha') Hi1 Hf)); [by intros []|done].
Qed.

(** The device of the backstore, as its info attribute names it. *)
Definition backstore_of k (dev : string) : Prop :=
  ∃ info, attr k (BackstoreDir t ++ ["info"]) info ∧ infoUdevPath info = dev.

(** What changes the target only leaves the backstore. *)
Lemma backstore_frame S k k' q : effect S k k' → (∀ p, ¬ s_new S p) → (∀ p, s_mod S p → targetDir t `prefix_of` p) →
  BackstoreDir t `prefix_of` q → view k' q = view k q.
Proof.
  intros He Hn Hm Hq. apply (effect_untouched _ _ _ _ He); [|by intros p ?%Hn]. intros Hq'%Hm. by apply (target_not_backstore t q).
Qed.

Lemma tpgEnable_own p : s_mod (write_scope (tpgEnable t) nothing) p → targetDir t `prefix_of` p.
Proof.
  cbn. rewrite (tpgEnable_eq t). change [TPGName; "enable"] with ([TPGName] ++ ["enable"]). rewrite app_assoc.
  intros [->|(b&->&_)%derived_snoc]; rewrite <- app_assoc; by apply prefix_app_r.
Qed.
Lemma lun_own p : dirp (lunDir t) `prefix_of` p ∨ aclsDir t `prefix_of` p → targetDir t `prefix_of` p.
Proof. intros [Hp|Hp]; (etrans; [|exact Hp]); target_paths t; by apply prefix_app_r. Qed.

Lemma detachLUN_Ok dev k k' : fs_inv k → view k (tpgDir t) ≠ None → detachLUN t k = (Ok dev, k') →
  fs_inv k' ∧ detached k' ∧ (backstore_of k dev ∨ dev = "" ∧ ∀ d, ¬ backstore_of k d).
Proof.
  intros Hi Hx Hr. unfold detachLUN in Hr. minv.
  destruct (exists_Ok _ _ _ _ Hi H1) as (Hi1&Hv1&Hb). destruct x; [|done]. minv. destruct x, x8, x1.
  assert (does (write_scope (tpgEnable t) nothing) (disableTPG (K := K) t)) as Hd1 by by apply does_ensureAttr_at.
  pose proof (does_run _ _ _ _ _ Hd1 Hi1 H4) as He1.
  assert (attr x5 (tpgEnable t) "0") as Hoff by by eapply ensureAttr_Ok.
  destruct (subdirs_Ok _ _ _ _ (eff_inv _ _ _ He1) H5) as (Hi2&Hv2&Hl).
  rewrite <- Hv2 in Hl. destruct (unmap_Ok _ _ _ Hi2 Hl H6) as [He3 Hmapped].
  pose proof (does_run _ _ _ _ _ (does_removeLUNs t _ (mods_scope_mods _)) (eff_inv _ _ _ He3) H2) as He4.
  pose proof (removeLUNs_Ok t _ _ (eff_inv _ _ _ He3) H2) as Hluns.
  destruct (exists_Ok _ _ _ _ (eff_inv _ _ _ He4) H3) as (Hi5&Hv5&Hbk).
  assert (attr x2 (tpgEnable t) "0") as Hoff4.
  { eapply attr_keeps; [exact He4|other_path t|]. eapply attr_keeps; [exact He3|other_path t|].
    destruct Hoff as (v&Hv&?). exists v. by rewrite Hv2. }
  assert (no_luns x2) as Hno.
  { split; [done|]. intros a n Ha Hn Hpre Hv. apply (Hmapped a n Ha Hn Hpre), (effect_dir _ _ _ _ He4); [by intros []|done]. }
  assert (∀ q, BackstoreDir t `prefix_of` q → view x4 q = view k q) as Hbs.
  { intros q Hq. rewrite Hv5, (backstore_frame _ _ _ q He4 (λ _ F, F) (λ p Hp, lun_own p (or_introl Hp)) Hq).
    rewrite (backstore_frame _ _ _ q He3 (λ _ F, F) (λ p Hp, lun_own p (or_intror Hp)) Hq), Hv2.
    by rewrite (backstore_frame _ _ _ q He1 (λ _ F, F) tpgEnable_own Hq), Hv1. }
  assert (∀ d, backstore_of x4 d ↔ backstore_of k d) as Hbo.
  { intros d. unfold backstore_of, attr. by setoid_rewrite Hbs; [|by apply prefix_app_r]. }
  destruct x3; cbn in Hr; minv.
  - unfold backstoreDevice in H7. minv. destruct (readAttr_Ok _ _ _ _ Hi5 H9) as (Hi6&Hv6&Hinfo).
    pose proof (removeDir_at _ _ _ _ Hi6 H8) as He7. split; [apply He7|]. split; [split_and!|].
    + eapply attr_keeps; [exact He7|other_path t|]. destruct Hoff4 as (v&Hv&?). exists v. by rewrite Hv6, Hv5.
    + eapply no_luns_keeps; [exact He7|by intros q []|]. unfold no_luns. by rewrite Hv6, Hv5.
    + destruct x3. eapply removeDir_Ok; [exact Hi6|exact H8|done].
    + setoid_rewrite <- Hbo. rewrite joinp_plain in Hinfo by done. destruct Hinfo as [Ha|[-> Hn]]; [left; by eexists|right].
      split; [done|]. intros d (info&(s&Hs&_)&_). congruence.
  - split; [done|]. split; [unfold detached, no_luns, attr in *; by rewrite Hv5|right]. split; [done|]. setoid_rewrite <- Hbo.
    intros d (info&(s&Hs&_)&_). rewrite Hv5, (view_below _ _ _ (eff_inv _ _ _ He4) Hbk (prefix_app_r _ _ _ (reflexivity _))) in Hs. done.
Qed.

Context (claimer_looks : ∀ d k, fs_inv k → wp (DeviceClaimer d) (λ _ k', fs_inv k' ∧ view k' = view k) k)
  (release_looks : ∀ c k, fs_inv k → wp (release c) (λ _ k', fs_inv k' ∧ view k' = view k) k).

Lemma detached_view k k' : view k' = view k → detached k → detached k'.
Proof. intros Hv. unfold detached, no_luns, attr. by rewrite Hv. Qed.

(** C25: A local attach is handed a device only when nothing in configfs serves
    it any more: the target is switched off, it has no LUN and no mapped LUN,
    the backstore is gone.  A device that a backstore served is handed out
    only after it was then claimed exclusively; without such a backstore (the
    export was detached before) the agent's own path is handed out unprobed. *)
Theorem EnterLocalAttach_exclusive dev k k' :
  fs_inv k → EnterLocalAttach DeviceClaimer release t k = (Ok dev, k') →
  detached k' ∧
  ((∀ d, backstore_of k d → d = "") ∧ dev = DevicePath t ∨
   backstore_of k dev ∧ ∃ c k1 k2, detached k1 ∧ DeviceClaimer dev k1 = (Ok c, k2)).
Proof using claimer_looks release_looks wf_target0.
  intros Hi Hr. unfold EnterLocalAttach, requireTPG, Target_Exists in Hr. minv.
  destruct (exists_Ok _ _ _ _ Hi H3) as (Hi1&Hv1&Hb). destruct x3; cbn in H1; minv.
  rewrite <- Hv1 in Hb. destruct (detachLUN_Ok _ _ _ Hi1 Hb H2) as (Hi2&Hd&Hdev). unfold backstore_of, attr in Hdev. rewrite Hv1 in Hdev.
  case_decide; minv.
  { split; [done|left]. split; [|done]. intros d Hd'. destruct Hdev as [Hdev|[_ Hno]]; [|by destruct (Hno d)].
    destruct Hd' as (i&Hi'&<-), Hdev as (i'&Hi''&<-). destruct Hi' as (s1&Hs1&<-), Hi'' as (s2&Hs2&<-). congruence. }
  pose proof (wp_run _ _ _ _ _ (claimer_looks _ _ Hi2) H4) as [Hi3 Hv3].
  pose proof (wp_run _ _ _ _ _ (release_looks _ _ Hi3) H5) as [Hi4 Hv4].
  split; [eapply detached_view; [|exact Hd]; congruence|right]. split; [by destruct Hdev as [|[]]|]. eauto 10.
Qed.
End Detach.

(** ** The access policy *)
Section Policy.
Context {K : Type} `{FSLaws K} (t : Target) `{!wf_target t}.
Implicit Types (k : K) (q : path).

(** A node ACL inherits the target's authentication and, with CHAP, holds the
    credentials; an unset mutual value may read empty. *)
Definition acl_ok k n : Prop :=
  attr k (aclDir t n ++ ["attrib"; "authentication"]) aclAuthInherited ∧
  match TargetCHAP t with
  | None => True
  | Some c => ∀ kv, kv ∈ acl_secrets c →
      secret k ((aclDir t n ++ ["auth"]) ++ [kv.1]) kv.2 ∨
      kv.2 = chapUnset ∧ secret k ((aclDir t n ++ ["auth"]) ++ [kv.1]) ""
  end.

Definition tpg_ok k : Prop := ∀ kv, kv ∈ tpg_attrs t → attr k (attribDir t ++ [kv.1]) kv.2.
Definition acls_ok k : Prop := ∀ n, plain_name n = true → view k (aclDir t n) = Some NDir → acl_ok k n.
Definition access_policy k : Prop := tpg_ok k ∧ acls_ok k.

Lemma acl_ok_keeps S k k' n :
  effect S k k' → (∀ s, s ≠ [] → ¬ s_mod S (aclDir t n ++ s)) → acl_ok k n → acl_ok k' n.
Proof.
  intros He Hq [H1 H2]. split; [by eapply attr_keeps; [exact He|apply Hq|]|].
  destruct (TargetCHAP t) as [c|]; [|done]. intros kv Hin.
  assert (¬ s_mod S ((aclDir t n ++ ["auth"]) ++ [kv.1])) by (rewrite <- app_assoc; by apply Hq).
  destruct (H2 kv Hin) as [Hs|[-> Hs]]; [left|right; split; [done|]]; by eapply secret_keeps.
Qed.

Lemma access_policy_keeps S k k' :
  effect S k k' → still S k (attribDir t) → still S k (aclsDir t) → access_policy k → access_policy k'.
Proof.
  intros He Hq1 Hq2 [H1 H2]. split.
  - intros kv Hin. eapply attr_keeps; [exact He| |by apply H1]. apply Hq1. by apply prefix_app_r.
  - intros n Hp Hv. assert (aclsDir t `prefix_of` aclDir t n) as Hn by (rewrite aclDir_snoc by done; by apply prefix_app_r).
    eapply acl_ok_keeps; [exact He| |].
    + intros s _. apply Hq2. etrans; [exact Hn|by apply prefix_app_r].
    + apply H2; [done|]. apply (effect_dir _ _ _ _ He); [by apply Hq2|done].
Qed.

(** *** Attributes of the portal group *)

(** Written later, it leaves the earlier one alone. *)
Definition leaves (b a : string * string) : Prop := a.1 ≠ b.1 ∧ (a.1, b.1) ∉ derives.

Ltac sorted_attrs :=
  repeat first [apply SSorted_nil | apply SSorted_cons | apply Forall_nil_2 | apply Forall_cons_2];
  (split; [by cbn|cbn; unfold derives; set_solver]).
Lemma tpg_attrs_sorted : StronglySorted leaves (tpg_attrs t).
Proof.
  unfold tpg_attrs. destruct (ACLEnabled t); sorted_attrs.
Qed.

Lemma leaves_mod on d a b : leaves b a → ¬ s_mod (write_scope (d ++ [a.1]) on) (d ++ [b.1]).
Proof.
  intros [Hne Hd]. cbn. intros [Heq|(c&Heq&Hin)%derived_snoc]; apply app_inj_tail in Heq as [_ ?]; congruence.
Qed.

Lemma write_scope_sub d a : sub_scope (write_scope (d ++ [a]) nothing) (mods_scope d).
Proof.
  split_and!; cbn; [done| |done]. intros q [->|(b&->&_)%derived_snoc]; by apply prefix_app_r.
Qed.

Lemma ensureTPGAttribs_Ok k k' : fs_inv k → ensureTPGAttribs t k = (Ok tt, k') → tpg_ok k'.
Proof.
  intros Hi Hr kv Hin.
  change (ensureTPGAttribs t) with (for_each (λ kv, ensureAttr (joinp (attribDir t) kv.1) kv.2) (tpg_attrs t)) in Hr.
  pose proof (tpg_attrs_plain t) as Hp. rewrite Forall_forall in Hp.
  assert (∀ kv, kv ∈ tpg_attrs t → does (write_scope (attribDir t ++ [kv.1]) nothing)
    (ensureAttr (K := K) (joinp (attribDir t) kv.1) kv.2)) as Hd.
  { intros kv' Hin'. destruct (Hp kv' Hin') as [Hp1 Hp2]. rewrite joinp_plain by done. apply does_ensureAttr_at.
    intros _ He%is_enable_last. rewrite last_snoc in He. by injection He. }
  assert (∀ kv, kv ∈ tpg_attrs t → kv.2 ≠ "") as Hv
    by (unfold tpg_attrs; intros kv'; destruct (ACLEnabled t), (TargetCHAP t); set_solver).
  refine (for_each_sorted _ _ (λ kv k, attr k (attribDir t ++ [kv.1]) kv.2) _ _ _ _ tpg_attrs_sorted Hd _ _ Hi Hr kv (or_introl Hin)).
  - intros a k1 k2 Ha Hi1 Hf. rewrite joinp_plain in Hf by (by apply Hp). eapply ensureAttr_Ok; eauto.
  - intros a b k1 k2 Ha Hl Hi1 HP Hf. eapply attr_keeps; [|by apply leaves_mod|exact HP].
    eapply does_run; [by apply Hd|done|exact Hf].
Qed.

(** *** Node ACLs *)

Lemma acl_secrets_sorted c : StronglySorted leaves (acl_secrets c).
Proof.
  unfold acl_secrets. destruct (chap_Mutual c); sorted_attrs.
Qed.
(** Attributes of one node ACL. *)
Definition auth_scope n : scope := {|
  s_new := nothing;
  s_mod := λ q, aclDir t n ++ ["attrib"] `prefix_of` q ∨ aclDir t n ++ ["auth"] `prefix_of` q;
  s_on := nothing |}.

Lemma does_auth n : plain_name n = true → does (auth_scope n) (ensureACLAuth (K := K) t n).
Proof. intros Hp. apply does_ensureACLAuth; [done|done|]. by split; intros q; [left|right]. Qed.

Lemma ensureACLAuth_Ok n k k' : plain_name n = true → fs_inv k → ensureACLAuth t n k = (Ok tt, k') → acl_ok k' n.
Proof.
  intros Hp Hi Hr. rewrite ensureACLAuth_eq in Hr by done. minv. destruct x.
  assert (does (write_scope (aclDir t n ++ ["attrib"; "authentication"]) nothing)
    (ensureAttr (K := K) (aclDir t n ++ ["attrib"; "authentication"]) aclAuthInherited)) as Hd1 by by apply does_ensureAttr_at.
  pose proof (eff_inv _ _ _ (does_run _ _ _ _ _ Hd1 Hi H1)) as Hi1.
  assert (attr x0 (aclDir t n ++ ["attrib"; "authentication"]) aclAuthInherited) as Ha
    by (eapply ensureAttr_Ok; [exact Hi|by unfold aclAuthInherited|exact H1]).
  unfold acl_ok. destruct (TargetCHAP t) as [c|]; minv; [|done].
  pose proof (acl_secrets_plain c) as Hs. rewrite Forall_forall in Hs.
  assert (∀ kv, kv ∈ acl_secrets c → does (write_scope ((aclDir t n ++ ["auth"]) ++ [kv.1]) nothing)
    (ensureSecretAttr (K := K) (joinp (aclDir t n ++ ["auth"]) kv.1) kv.2)) as Hd.
  { intros kv Hin. destruct (Hs kv Hin) as (Hp1&Hp2&_). rewrite joinp_plain by done. apply does_ensureSecretAttr.
    split; [done|]. intros _ He%is_enable_last. rewrite last_snoc in He. by injection He. }
  assert (∀ kv, kv ∈ acl_secrets c → does (mods_scope (aclDir t n ++ ["auth"]))
    (ensureSecretAttr (K := K) (joinp (aclDir t n ++ ["auth"]) kv.1) kv.2)) as Hd'.
  { intros kv Hin. eapply does_mono; [apply write_scope_sub|by apply Hd]. }
  split.
  - eapply attr_keeps; [exact (does_run _ _ _ _ _ (does_for_each _ _ _ Hd') Hi1 Hr)| |exact Ha]. cbn. intros Hq. path_split.
  - intros kv Hin. refine (for_each_sorted _ _ (λ kv k, secret k ((aclDir t n ++ ["auth"]) ++ [kv.1]) kv.2 ∨
      kv.2 = chapUnset ∧ secret k ((aclDir t n ++ ["auth"]) ++ [kv.1]) "") _ _ _ _ (acl_secrets_sorted c) Hd _ _ Hi1 Hr kv (or_introl Hin)).
    + intros a k1 k2 Ha' Hi2 Hf. rewrite joinp_plain in Hf by (by apply Hs). by eapply ensureSecretAttr_Ok.
    + intros a b k1 k2 Ha' Hl Hi2 HP Hf. pose proof (does_run _ _ _ _ _ (Hd a Ha') Hi2 Hf) as He.
      assert (¬ s_mod (write_scope ((aclDir t n ++ ["auth"]) ++ [a.1]) nothing) ((aclDir t n ++ ["auth"]) ++ [b.1])) as Hm
        by by apply leaves_mod.
      destruct HP as [HP|[-> HP]]; [left|right; split; [done|]]; by eapply secret_keeps.
Qed.
(** Attributes of the node ACLs, and new node ACLs. *)
Definition grant_scope (new : path → Prop) : scope := {|
  s_new := new;
  s_mod := λ q, ∃ n, plain_name n = true ∧ s_mod (auth_scope n) q;
  s_on := nothing |}.

Lemma auth_scope_below n q : s_mod (auth_scope n) q → aclDir t n `prefix_of` q.
Proof. intros [Hq|Hq]; (etrans; [|exact Hq]); by apply prefix_app_r. Qed.

Lemma auth_other a b s : plain_name a = true → plain_name b = true → s_mod (auth_scope a) (aclDir t b ++ s) → a = b.
Proof.
  intros Ha Hb Hq%auth_scope_below. rewrite !aclDir_snoc, <- app_assoc in Hq by done.
  apply prefix_app_head, prefix_cons_inv_1 in Hq. done.
Qed.

Lemma grant_acls new q : s_mod (grant_scope new) q → aclsDir t `prefix_of` q.
Proof.
  intros (n&Hp&Hq%auth_scope_below). etrans; [|exact Hq]. rewrite aclDir_snoc by done. by apply prefix_app_r.
Qed.

Lemma does_auths new n : plain_name n = true → does (grant_scope new) (ensureACLAuth (K := K) t n).
Proof. intros Hp. eapply does_mono; [|by apply does_auth]. split_and!; [by intros q []| |done]. intros q Hq. by exists n. Qed.

Lemma auths_Ok l k k' :
  fs_inv k → (∀ n, n ∈ l ↔ plain_name n = true ∧ view k (aclsDir t ++ [n]) = Some NDir) →
  for_each (ensureACLAuth t) l k = (Ok tt, k') → effect (grant_scope nothing) k k' ∧ acls_ok k'.
Proof.
  intros Hi Hl Hr.
  assert (∀ n, n ∈ l → does (grant_scope nothing) (ensureACLAuth (K := K) t n)) as Hd
    by (intros n [Hp _]%Hl; by apply does_auths).
  pose proof (does_run _ _ _ _ _ (does_for_each _ _ _ Hd) Hi Hr) as He. split; [done|].
  intros n Hp Hv. apply (effect_dir _ _ _ _ He) in Hv; [|by intros []].
  refine (for_each_Ok _ (λ n k, acl_ok k n) _ _ _ _ Hd _ Hi Hr n _); [|apply Hl; by rewrite <- aclDir_snoc].
  intros a b k1 k2 [Ha _]%Hl [Hb _]%Hl Hi1 HP Hf. destruct (decide (a = b)) as [->|Hne]; [by eapply ensureACLAuth_Ok|].
  destruct HP as [|HP]; [done|]. eapply acl_ok_keeps; [exact (does_run _ _ _ _ _ (does_auth a Ha) Hi1 Hf)| |exact HP].
  intros s _ Hq. by apply Hne, (auth_other _ _ s).
Qed.

(** *** Grants *)

Definition mapped_link n : path := aclDir t n ++ [LUNName; mappedLUNLinkName].
Definition granted k n : Prop := view k (aclDir t n) = Some NDir ∧ link k (mapped_link n) (lunDir t).

Lemma grant_not_lun new n : plain_name n = true → ¬ s_mod (grant_scope new) (aclDir t n) ∧ ¬ s_mod (grant_scope new) (mapped_link n).
Proof.
  intros Hp. split.
  - intros (m&Hm&Hq). rewrite <- (app_nil_r (aclDir t n)) in Hq. apply auth_other in Hq as Heq; [subst m|done..].
    destruct Hq as [Hq|Hq]; apply prefix_app_head in Hq; path_split.
  - intros (m&Hm&Hq). apply auth_other in Hq as Heq; [subst m|done..].
    destruct Hq as [Hq|Hq]; unfold mapped_link in Hq; path_split.
Qed.

Lemma granted_keeps S k k' n :
  effect S k k' → ¬ s_mod S (aclDir t n) → ¬ s_mod S (mapped_link n) → granted k n → granted k' n.
Proof. intros He H1 H2 [Hd Hl]. split; [by eapply effect_keeps|by eapply link_keeps]. Qed.

Lemma ensureMappedLUN_Ok n k k' :
  fs_inv k → ensureMappedLUN t n k = (Ok tt, k') → link k' (mapped_link n) (lunDir t).
Proof.
  intros Hi Hr. unfold ensureMappedLUN in Hr. cbv zeta in Hr. rewrite !joinp_plain in Hr by done. minv.
  unfold mapped_link. change [LUNName; mappedLUNLinkName] with ([LUNName] ++ [mappedLUNLinkName]). rewrite app_assoc.
  eapply ensureSymlink_Ok; [|exact Hr].
  eapply eff_inv, (does_run {| s_new := λ _, True; s_mod := nothing; s_on := nothing |}); [|exact Hi|exact H1].
  by apply does_ensureDir.
Qed.

Definition acls_new q : Prop := aclsDir t `prefix_of` q.

Lemma does_allow n : plain_name n = true → does (grant_scope acls_new) (allowInitiator (K := K) t n).
Proof.
  intros Hp. apply does_allowInitiator; [done|done|by intros q|].
  split; intros q Hq; exists n; (split; [done|]); [by left|by right].
Qed.

Lemma grant_lunDir k k' new : effect (grant_scope new) k k' → view k (lunDir t) = Some NDir → view k' (lunDir t) = Some NDir.
Proof.
  intros He. apply effect_keeps with (1 := He). intros Hq%grant_acls. target_paths t. path_split.
Qed.

Lemma tpg_ok_keeps k k' new : effect (grant_scope new) k k' → tpg_ok k → tpg_ok k'.
Proof.
  intros He Ht kv Hin. eapply attr_keeps; [exact He| |by apply Ht]. intros Hq%grant_acls. target_paths t. path_split.
Qed.

(** Creating below the ACLs only. *)
Definition create_scope (d : path) : scope := {| s_new := λ q, d `prefix_of` q; s_mod := nothing; s_on := nothing |}.
Lemma create_scope_news d : news (create_scope d) d.
Proof. by intros q. Qed.

Lemma allowInitiator_Ok n k k' :
  plain_name n = true → fs_inv k → view k (lunDir t) = Some NDir → allowInitiator t n k = (Ok tt, k') → granted k' n.
Proof.
  intros Hp Hi Hlun Hr. unfold allowInitiator in Hr. cbn [for_each] in Hr. minv.
  assert (∀ d, aclsDir t `prefix_of` d → does (create_scope (aclsDir t)) (ensureDir (K := K) d)) as Hd.
  { intros d Hd. by apply does_ensureDir. }
  assert (aclsDir t `prefix_of` aclDir t n) as Hn by (rewrite aclDir_snoc by done; by apply prefix_app_r).
  destruct x5, x7, x1. pose proof (does_run _ _ _ _ _ (Hd (aclsDir t) ltac:(done)) Hi H4) as He0.
  pose proof (does_run _ _ _ _ _ (Hd _ Hn) (eff_inv _ _ _ He0) H5) as He0'.
  pose proof (effect_trans _ _ _ _ He0 He0') as He1.
  pose proof (ensureDir_Ok _ _ _ (eff_inv _ _ _ He0) H5) as Hacl.
  pose proof (does_run _ _ _ _ _ (does_auths nothing n Hp) (eff_inv _ _ _ He1) H2) as He2.
  destruct (exists_Ok _ _ _ _ (eff_inv _ _ _ He2) H3) as (Hi3&Hv3&Hb).
  rewrite (grant_lunDir _ _ _ He2) in Hb by (by eapply effect_keeps; [exact He1|by intros []|]).
  destruct x3; [cbn in Hr|done]. split; [|by eapply ensureMappedLUN_Ok].
  assert (does (create_scope (aclDir t n)) (ensureMappedLUN (K := K) t n)) as Hdm
    by (apply (does_ensureMappedLUN t); [done|apply news_below, create_scope_news]).
  eapply effect_keeps; [exact (does_run _ _ _ _ _ Hdm Hi3 Hr)|by intros []|]. rewrite Hv3.
  eapply effect_keeps; [exact He2|by apply grant_not_lun|done].
Qed.

Lemma allows_Ok l k k' :
  (∀ n, n ∈ l → plain_name n = true) → fs_inv k → view k (lunDir t) = Some NDir →
  for_each (allowInitiator t) l k = (Ok tt, k') → ∀ n, n ∈ l → granted k' n.
Proof.
  intros Hp Hi Hlun Hr.
  assert (∀ n, n ∈ l → does (grant_scope acls_new) (allowInitiator (K := K) t n)) as Hd by (intros; by apply does_allow, Hp).
  pose proof (does_run _ _ _ _ _ (does_for_each _ _ _ Hd) Hi Hr) as He.
  intros n Hin. refine (for_each_Ok _ (λ n k, view k (lunDir t) = Some NDir → granted k n) _ _ _ _ Hd _ Hi Hr n Hin _);
    [|by eapply grant_lunDir].
  intros a b k1 k2 Ha Hb Hi1 HP Hf Hv2. pose proof (does_run _ _ _ _ _ (Hd a Ha) Hi1 Hf) as He2.
  assert (view k1 (lunDir t) = Some NDir) as Hv1.
  { apply (effect_dir _ _ _ _ He2); [|done]. apply stable_off. cbn. unfold acls_new. intros p Hp' Hq.
    assert (aclsDir t `prefix_of` lunDir t) as Hal by by etrans. clear Hp' Hq. target_paths t. path_split. }
  destruct HP as [->|HP]; [by eapply allowInitiator_Ok; eauto|].
  destruct (grant_not_lun acls_new b (Hp b Hb)). eapply granted_keeps; eauto.
Qed.
End Policy.

(** ** Serving *)
Section Serve.
Context {K C : Type} `{FSLaws K} (DeviceClaimer : string → M K go_error C) (release : C → M K go_error unit)
  (DeriveUnitSerial : string → string).
Context (claimer_looks : ∀ d k, fs_inv k → wp (DeviceClaimer d) (λ _ k', fs_inv k' ∧ view k' = view k) k)
  (release_looks : ∀ c k, fs_inv k → wp (release c) (λ _ k', fs_inv k' ∧ view k' = view k) k).
Context (t : Target) `{!wf_target t}.
Implicit Types (k : K) (q : path).

(** Everything for the target but switching it on. *)
Definition prepare_scope : scope := {|
  s_new := s_new (own_scope t); s_mod := s_mod (own_scope t); s_on := λ q, q = backstoreEnable t |}.

Lemma prepare_serves : serves t prepare_scope.
Proof using wf_target0. destruct (own_scope_serves t) as [? ? ? []]. by repeat split. Qed.

Lemma ensureLUN_Ok k k' : fs_inv k → ensureLUN t k = (Ok tt, k') → view k' (lunDir t) = Some NDir.
Proof.
  intros Hi Hr. unfold ensureLUN in Hr. cbn [for_each] in Hr. minv. destruct x3, x5.
  assert (∀ d, does adds (ensureDir (K := K) d)) as Hd by (intros; by apply does_ensureDir).
  pose proof (eff_inv _ _ _ (does_run _ _ _ _ _ (Hd _) Hi H3)) as Hi1. pose proof (ensureDir_Ok _ _ _ Hi1 H4) as Hl.
  pose proof (eff_inv _ _ _ (does_run _ _ _ _ _ (Hd _) Hi1 H4)) as Hi2.
  destruct (symlinks_Ok _ _ _ _ Hi2 H2) as (Hi3&Hv3&_). rewrite <- Hv3 in Hl. destruct x1 as [|[? target] x1].
  - eapply adds_keeps; [|exact Hl]. eapply does_run; [|exact Hi3|exact Hr]. apply does_ensureSymlink; [done|].
    by intros q ?%lun_link_sets.
  - case_decide; minv. done.
Qed.

Lemma attachLUN_Ok k k' : fs_inv k → attachLUN DeviceClaimer release DeriveUnitSerial t k = (Ok tt, k') →
  view k' (lunDir t) = Some NDir.
Proof using claimer_looks release_looks wf_target0.
  intros Hi Hr. unfold attachLUN in Hr. minv. destruct x, x1.
  pose proof (eff_inv _ _ _ (does_run _ _ _ _ _ (does_ensureBackstore _ _ DeriveUnitSerial claimer_looks release_looks t _ (sv_backstore t _ prepare_serves)) Hi H1)) as Hi1.
  pose proof (ensureLUN_Ok _ _ Hi1 H2) as Hl.
  pose proof (eff_inv _ _ _ (does_run _ _ _ _ _ (does_ensureLUN t _ (adds_news _)) Hi1 H2)) as Hi2.
  destruct (subdirs_Ok _ _ _ _ Hi2 H3) as (Hi3&Hv3&Hn). rewrite <- Hv3 in Hl. eapply adds_keeps; [|exact Hl].
  eapply does_run; [|exact Hi3|exact Hr]. apply does_for_each. intros n Hin. apply (does_ensureMappedLUN t); [|apply adds_news].
  by apply Hn in Hin as [].
Qed.

(** What [Prepare] has done when it succeeds. *)
Lemma Prepare_Ok k k' : fs_inv k → Prepare DeviceClaimer release DeriveUnitSerial t k = (Ok tt, k') →
  access_policy t k' ∧ (LocalAttach t = false → ∀ n, n ∈ AllowedInitiators t → granted t k' n).
Proof using claimer_looks release_looks wf_target0.
  intros Hi Hr. unfold Prepare in Hr. cbn [for_each] in Hr. minv. destruct x, x5, x7, x9.
  pose proof prepare_serves as HS. pose proof HS as [HNf _ HMt [_ _ _ HMb _]].
  assert (∀ d, does adds (ensureDir (K := K) d)) as Hd by (intros; by apply does_ensureDir).
  pose proof (eff_inv _ _ _ (does_run _ _ _ _ _ (does_ensureISCSIFabric t _ HNf) Hi H2)) as Hi2.
  pose proof (eff_inv _ _ _ (does_run _ _ _ _ _ (Hd _) Hi2 H8)) as Hi3.
  pose proof (eff_inv _ _ _ (does_run _ _ _ _ _ (Hd _) Hi3 H9)) as Hi4.
  assert (fs_inv x6 ∧ (LocalAttach t = false → view x6 (lunDir t) = Some NDir)) as [Hi6 Hlun].
  { destruct (LocalAttach t); minv.
    - split; [|done]. eapply eff_inv, does_run; [exact (does_detachLUN t _ HMt HMb)|exact Hi4|eassumption].
    - split; [|intros _; by eapply attachLUN_Ok].
      eapply eff_inv, does_run; [exact (does_attachLUN _ _ DeriveUnitSerial claimer_looks release_looks t _ HS)|exact Hi4|exact H4]. }
  pose proof (does_run _ _ _ _ _ (does_ensureTPGAttribs t _ (mods_scope_mods _)) Hi6 H5) as He5.
  pose proof (ensureTPGAttribs_Ok t _ _ Hi6 H5) as Htpg. pose proof (validate_initiators t H1) as Hpl.
  assert (effect (grant_scope t (acls_new t)) x8 x10) as He6.
  { eapply does_run; [|apply He5|exact H6]. apply does_for_each. intros n Hn. by apply does_allow, Hpl. }
  destruct (Initiators_Ok t _ _ _ (eff_inv _ _ _ He6) H7) as (Hi7&Hv7&Hl).
  rewrite <- Hv7 in Hl. destruct (auths_Ok t _ _ _ Hi7 Hl Hr) as [He8 Hacls]. split.
  - split; [|done]. eapply tpg_ok_keeps; [exact He8|]. unfold tpg_ok, attr. rewrite Hv7.
    eapply tpg_ok_keeps; [exact He6|exact Htpg].
  - intros HL n Hn. destruct (grant_not_lun t nothing n (Hpl n Hn)). eapply granted_keeps; [exact He8|done|done|].
    unfold granted, link. rewrite Hv7. eapply (allows_Ok t _ _ _ Hpl (eff_inv _ _ _ He5)); [|exact H6|done].
    eapply effect_keeps; [exact He5|other_path t|auto].
Qed.

(** *** Portals and the switch *)

Definition only_portal k portal : Prop :=
  ∀ n, plain_name n = true → view k (npDir t ++ [n]) = Some NDir → n = portal.
(** The LUN is the volume's backstore. *)
Definition bound k : Prop := ∃ n, plain_name n = true ∧ link k (lunDir t ++ [n]) (BackstoreDir t).

Definition portal_scope : scope := {| s_new := λ q, npDir t `prefix_of` q; s_mod := λ q, npDir t `prefix_of` q; s_on := nothing |}.

Lemma removeOtherPortals_Ok portal l k k' :
  fs_inv k → (∀ n, n ∈ l ↔ plain_name n = true ∧ view k (npDir t ++ [n]) = Some NDir) →
  for_each (removeOtherPortal t portal) l k = (Ok tt, k') → only_portal k' portal.
Proof.
  intros Hi Hl Hr n Hp Hv.
  assert (∀ n, n ∈ l → does (mods_scope (npDir t)) (removeOtherPortal (K := K) t portal n)) as Hd.
  { intros m [Hm _]%Hl. unfold removeOtherPortal. case_decide; [apply does_ret|]. rewrite joinp_plain by done.
    apply does_removeDir. intros q Hq. cbn. etrans; [|exact Hq]. by apply prefix_app_r. }
  pose proof (does_run _ _ _ _ _ (does_for_each _ _ _ Hd) Hi Hr) as He.
  apply (effect_dir _ _ _ _ He) in Hv as Hv0; [|by intros []].
  destruct (decide (n = portal)) as [|Hne]; [done|exfalso].
  assert (view k' (npDir t ++ [n]) = None) as Hno; [|congruence].
  refine (for_each_Ok _ (λ n k, n ≠ portal → view k (npDir t ++ [n]) = None) _ _ _ _ Hd _ Hi Hr n _ Hne); [|by apply Hl].
  intros a b k1 k2 Ha [Hb _]%Hl Hi1 HP Hf Hbp. destruct HP as [->|HP].
  - unfold removeOtherPortal in Hf. rewrite decide_False, joinp_plain in Hf by done. by eapply removeDir_Ok.
  - apply (effect_absent _ _ _ _ (does_run _ _ _ _ _ (Hd a Ha) Hi1 Hf)); [by intros []|auto].
Qed.

Lemma lunBound_Ok b k k' : fs_inv k → lunBound t k = (Ok b, k') → fs_inv k' ∧ view k' = view k ∧ (b = true → bound k).
Proof.
  intros Hi Hr. unfold lunBound in Hr. minv. destruct (symlinks_Ok _ _ _ _ Hi H1) as (Hi1&Hv1&Hl&_).
  split_and!; [done|done|]. intros ([n tg]&Hin%list_elem_of_In&Htg%bool_decide_eq_true)%existsb_exists.
  cbn in Htg. subst tg.
  destruct (Hl _ _ Hin). by exists n.
Qed.

(** Where [Activate] stands before its last write. *)
Lemma Activate_run r k k' : fs_inv k → LocalAttach t = false → Activate t k = (r, k') →
  effect portal_scope k k' ∧ (∃ e, r = Err e) ∨
  ∃ portal k1, Target_Portal t = Ok portal ∧ effect portal_scope k k1 ∧ only_portal k1 portal ∧ bound k1 ∧
    ensureAttr (tpgEnable t) "1" k1 = (r, k').
Proof.
  intros Hi HL Hr. unfold Activate in Hr. rewrite HL in Hr. pose proof (effect_refl portal_scope k Hi) as He.
  assert (∀ s, does portal_scope (ensureDir (K := K) (npDir t ++ s))) as HD.
  { intros s. apply does_ensureDir. cbn. by apply prefix_app_r. }
  destruct (effect_bind _ _ _ _ _ _ _ Hr He (does_lift _ _)) as [|(portal&k1&H1&He1&Hr1)]; [by left|].
  injection H1 as Hportal <-. pose proof (Portal_plain t _ Hportal) as Hp. rewrite joinp_plain in Hr1 by done.
  destruct (effect_bind _ _ _ _ _ _ _ Hr1 He1 (does_requireTPG t _)) as [|(?&k2&_&He2&Hr2)]; [by left|].
  pose proof (HD []) as HD0. rewrite app_nil_r in HD0.
  destruct (effect_bind _ _ _ _ _ _ _ Hr2 He2 HD0) as [|(?&k3&_&He3&Hr3)]; [by left|].
  destruct (effect_bind _ _ _ _ _ _ _ Hr3 He3 (HD _)) as [|(?&k4&_&He4&Hr4)]; [by left|].
  destruct (effect_bind _ _ _ _ _ _ _ Hr4 He4 (does_subdirs _ _)) as [|(l&k5&H5&He5&Hr5)]; [by left|].
  destruct (subdirs_Ok _ _ _ _ (eff_inv _ _ _ He4) H5) as (Hi5&Hv5&Hl). rewrite <- Hv5 in Hl.
  assert (does portal_scope (for_each (removeOtherPortal (K := K) t portal) l)) as Hd.
  { apply does_removeOtherPortals; [by intros q|]. apply Forall_forall. by intros n []%Hl. }
  destruct (effect_bind _ _ _ _ _ _ _ Hr5 He5 Hd) as [|([]&k6&H6&He6&Hr6)]; [by left|].
  pose proof (removeOtherPortals_Ok _ _ _ _ Hi5 Hl H6) as Hop.
  destruct (effect_bind _ _ _ _ _ _ _ Hr6 He6 (does_lunBound t _)) as [|(b&k7&H7&He7&Hr7)]; [by left|].
  destruct (lunBound_Ok _ _ _ (eff_inv _ _ _ He6) H7) as (_&Hv7&Hb).
  destruct b; cbn in Hr7; [|injection Hr7 as <- <-; left; split; [done|eauto]].
  right. exists portal, k7. split_and!; [done|done| | |done].
  - unfold only_portal. by rewrite Hv7.
  - unfold bound, link. rewrite Hv7. by apply Hb.
Qed.

(** With a local attach the switch is off. *)
Lemma Activate_local k k' : fs_inv k → LocalAttach t = true → Activate t k = (Ok tt, k') → attr k' (tpgEnable t) "0".
Proof using wf_target0.
  intros Hi HL Hr. unfold Activate in Hr. rewrite HL in Hr. minv.
  assert (∀ d, does adds (ensureDir (K := K) d)) as Hd by (intros; by apply does_ensureDir).
  pose proof (eff_inv _ _ _ (does_run _ _ _ _ _ (does_requireTPG t adds) Hi H2)) as Hi1.
  pose proof (eff_inv _ _ _ (does_run _ _ _ _ _ (Hd _) Hi1 H3)) as Hi2.
  pose proof (eff_inv _ _ _ (does_run _ _ _ _ _ (Hd _) Hi2 H4)) as Hi3.
  destruct (subdirs_Ok _ _ _ _ Hi3 H5) as (Hi4&_&Hl).
  eapply ensureAttr_Ok; [|done|exact Hr]. eapply eff_inv, (does_run portal_scope); [|exact Hi4|exact H6].
  apply does_removeOtherPortals; [by intros q|]. apply Forall_forall. by intros n []%Hl.
Qed.

(** Clients reach the volume only as the policy says. *)
Definition guarded k : Prop :=
  access_policy t k ∧ bound k ∧ ∃ portal, Target_Portal t = Ok portal ∧ only_portal k portal.

Definition enable_scope : scope := write_scope (tpgEnable t) (λ q, q = tpgEnable t).

Lemma enable_still k d s : d ≠ "enable" → d ≠ "info" → still enable_scope k (targetDir t ++ TPGName :: d :: s).
Proof using wf_target0.
  clear claimer_looks release_looks release DeviceClaimer DeriveUnitSerial C. intros H1 H2 q [s' ->]. split; [|by intros ? []].
  assert (tpgEnable t = tpgDir t ++ ["enable"]) as HE by by apply joinp_plain.
  cbn. rewrite HE. intros Hq. assert (∃ x, (x = "enable" ∨ x = "info") ∧
    (targetDir t ++ TPGName :: d :: s) ++ s' = tpgDir t ++ [x]) as (x&Hx&Heq).
  { destruct Hq as [Hq|(b&Hq&Hin)%derived_snoc]; [eauto|]. exists b. split; [right|done]. unfold derives in Hin. set_solver. }
  rewrite (tpgDir_eq t), <- !app_assoc in Heq. apply app_inv_head in Heq. destruct Hx; simplify_eq/=.
Qed.

Lemma enable_keeps k k' : effect enable_scope k k' → guarded k → guarded k'.
Proof using wf_target0.
  intros He (Hpol&(n&Hn&Hlink)&portal&Hp&Hop). split_and!.
  - eapply access_policy_keeps; [exact He| | |done]; target_paths t; by apply enable_still.
  - exists n. split; [done|]. eapply link_keeps; [exact He| |done]. apply (enable_still k "lun" [LUNName]); [done|done|].
    target_paths t. by apply prefix_app, prefix_cons, prefix_cons, prefix_cons, prefix_nil.
  - exists portal. split; [done|]. intros m Hm Hv. apply Hop; [done|]. eapply effect_dir; [exact He|by intros []|done].
Qed.

Lemma portal_still k d s : d ≠ "np" → still portal_scope k (targetDir t ++ TPGName :: d :: s).
Proof.
  intros Hd q Hq. assert (npDir t `prefix_of` q → False) as Hno.
  { intros Hq'. rewrite (npDir_eq t) in Hq'. by apply Hd, (diverge2 _ _ _ _ _ _ _ Hq Hq'). }
  split; [exact Hno|]. apply stable_off. intros p Hp Hpq. apply Hno. etrans; [exact Hp|exact Hpq].
Qed.

Lemma portal_keeps k k' : effect portal_scope k k' → access_policy t k → access_policy t k'.
Proof. intros He. eapply access_policy_keeps; [exact He|..]; target_paths t; by apply portal_still. Qed.

Lemma portal_granted k k' n : plain_name n = true → effect portal_scope k k' → granted t k n → granted t k' n.
Proof.
  intros Hn He. assert (∀ s, ¬ s_mod portal_scope (aclDir t n ++ s)) as Hs.
  { intros s Hq. cbn in Hq. rewrite aclDir_eq in Hq by done. target_paths t. path_split. }
  eapply granted_keeps; [exact He| |apply Hs]. rewrite <- (app_nil_r (aclDir t n)). apply Hs.
Qed.

Lemma enable_granted k k' n : plain_name n = true → effect enable_scope k k' → granted t k n → granted t k' n.
Proof using wf_target0.
  intros Hn He. assert (∀ s, ¬ s_mod enable_scope (aclDir t n ++ s)) as Hs.
  { intros s. apply (enable_still k "acls" [n]); [done|done|]. rewrite aclDir_eq by done. by apply prefix_app_r. }
  eapply granted_keeps; [exact He| |apply Hs]. rewrite <- (app_nil_r (aclDir t n)). apply Hs.
Qed.

Lemma prepare_off k k' : effect prepare_scope k k' → off (view k) (tpgEnable t) → off (view k') (tpgEnable t).
Proof using wf_target0.
  intros He. apply (eff_off _ _ _ He); [by eexists; apply joinp_plain|]. cbn. intros Heq.
  apply (target_not_backstore t (tpgEnable t)); [target_paths t; by apply prefix_app_r|].
  rewrite Heq. by apply prefix_app_r.
Qed.

Lemma portal_off k k' : effect portal_scope k k' → off (view k) (tpgEnable t) → off (view k') (tpgEnable t).
Proof. intros He. apply (eff_off _ _ _ He); [by eexists; apply joinp_plain|by intros []]. Qed.

Lemma does_enable : does enable_scope (ensureAttr (K := K) (tpgEnable t) "1").
Proof using wf_target0. by apply does_ensureAttr_at. Qed.

(** C24: A target that is not switched on comes on only with its access policy
    in place: whenever applying a target ends with it reachable, the target
    authenticates as configured, every initiator's ACL inherits that and holds
    the credentials, the only portal is the configured one and the LUN is the
    volume's own backstore; otherwise it stays off, whatever failed. *)
Theorem Apply_policy_before_enable k r k' :
  fs_inv k → LocalAttach t = false → off (view k) (tpgEnable t) →
  Apply DeviceClaimer release DeriveUnitSerial t k = (r, k') →
  off (view k') (tpgEnable t) ∨ guarded k'.
Proof using claimer_looks release_looks wf_target0.
  intros Hi HL Hoff Hr. unfold Apply in Hr.
  pose proof (does_Prepare _ _ DeriveUnitSerial claimer_looks release_looks t _ prepare_serves) as Hd.
  destruct (effect_bind _ _ _ _ _ _ _ Hr (effect_refl _ _ Hi) Hd) as [[He _]|([]&k1&H1&He1&Hr1)].
  { left. by eapply prepare_off. }
  destruct (Prepare_Ok _ _ Hi H1) as [Hpol _]. pose proof (prepare_off _ _ He1 Hoff) as Hoff1.
  destruct (Activate_run _ _ _ (eff_inv _ _ _ He1) HL Hr1) as [[He2 _]|(portal&k2&Hp&He2&Hop&Hb&Hen)].
  { left. by eapply portal_off. }
  right. eapply enable_keeps; [eapply does_run; [apply does_enable|apply He2|exact Hen]|].
  split_and!; [by eapply portal_keeps|done|eauto].
Qed.

(** Applying a target that reports success leaves it switched on and
    guarded by its policy, with an ACL and the mapped LUN for every allowed
    initiator. *)
Theorem Apply_serves k k' :
  fs_inv k → LocalAttach t = false → Apply DeviceClaimer release DeriveUnitSerial t k = (Ok tt, k') →
  attr k' (tpgEnable t) "1" ∧ guarded k' ∧ ∀ n, n ∈ AllowedInitiators t → granted t k' n.
Proof using claimer_looks release_looks wf_target0.
  intros Hi HL Hr. unfold Apply in Hr. minv. destruct x.
  pose proof (does_run _ _ _ _ _ (does_Prepare _ _ DeriveUnitSerial claimer_looks release_looks t _ prepare_serves) Hi H1) as He1.
  destruct (Prepare_Ok _ _ Hi H1) as [Hpol Hgr].
  destruct (Activate_run _ _ _ (eff_inv _ _ _ He1) HL Hr) as [[_ [? ?]]|(portal&k2&Hp&He2&Hop&Hb&Hen)]; [done|].
  pose proof (does_run _ _ _ _ _ does_enable (eff_inv _ _ _ He2) Hen) as He3. split_and!.
  - eapply ensureAttr_Ok; [apply He2|done|exact Hen].
  - eapply enable_keeps; [exact He3|]. split_and!; [by eapply portal_keeps|done|eauto].
  - intros n Hn. assert (plain_name n = true) as Hpn.
    { unfold Prepare in H1. minv. destruct x. by apply (validate_initiators t). }
    apply (enable_granted k2); [done|done|]. by eapply portal_granted; eauto.
Qed.

(** Attaching: backstore, LUN and mapped LUNs. *)
Definition attach_scope : scope := {|
  s_new := λ q, dirp (hbaDir t) `prefix_of` q ∨ dirp (lunDir t) `prefix_of` q ∨
                ∃ n, plain_name n = true ∧ aclDir t n ++ [LUNName] `prefix_of` q;
  s_mod := λ q, BackstoreDir t `prefix_of` q;
  s_on := λ q, q = backstoreEnable t |}.

Lemma does_attach_scope : does attach_scope (attachLUN DeviceClaimer release DeriveUnitSerial t).
Proof using claimer_looks release_looks wf_target0.
  apply does_attach; [done|done|done| |by intros q Hq; right; left|].
  { split; [by left|left; eexists; apply (hbaDir_eq t)|intros q Hq; left; by apply (backstore_core t)|by intros q|done]. }
  intros n Hn q Hq. right; right. by exists n.
Qed.

Lemma attach_keeps k k' : effect attach_scope k k' → access_policy t k → access_policy t k'.
Proof.
  intros He [H1 H2].
  assert (∀ s, ¬ s_mod attach_scope (targetDir t ++ s)) as Hm.
  { intros s Hq. by eapply (target_not_backstore t); [apply prefix_app_r|exact Hq]. }
  split.
  - intros kv Hin. eapply attr_keeps; [exact He| |by apply H1]. rewrite attribDir_eq, <- app_assoc. apply Hm.
  - intros n Hp Hv. eapply acl_ok_keeps; [exact He| |apply H2; [done|]].
    + intros s _. rewrite aclDir_eq, <- app_assoc by done. apply Hm.
    + apply (effect_dir _ _ _ _ He); [|done]. rewrite aclDir_eq by done. apply stable_off. intros p [Hq|[Hq|(m&Hm'&Hq)]] Hpq.
      * eapply (fabric_core_disjoint t); [|by etrans; [exact Hq|exact Hpq]]. apply (target_fabric t). by apply prefix_app_r.
      * assert (dirp (lunDir t) `prefix_of` targetDir t ++ [TPGName; "acls"; n]) as Hl by by etrans. clear Hq Hpq.
        target_paths t. path_split.
      * assert (aclDir t m ++ [LUNName] `prefix_of` targetDir t ++ [TPGName; "acls"; n]) as Hl by by etrans. clear Hq Hpq.
        rewrite aclDir_eq, <- app_assoc in Hl by done. cbn in Hl. path_split.
Qed.

(** Coming back from a local attach turns the target on again without
    touching its policy: the attributes and the ACLs' authentication are those
    it had, and the LUN is attached before the switch. *)
Theorem LeaveLocalAttach_guarded k r k' :
  fs_inv k → LeaveLocalAttach DeviceClaimer release DeriveUnitSerial t k = (r, k') → access_policy t k →
  access_policy t k' ∧ (r = Ok tt → attr k' (tpgEnable t) "1" ∧ view k' (lunDir t) = Some NDir).
Proof using claimer_looks release_looks wf_target0.
  intros Hi Hr Hpol. unfold LeaveLocalAttach in Hr. pose proof (effect_refl attach_scope k Hi) as He.
  destruct (effect_bind _ _ _ _ _ _ _ Hr He (does_requireTPG t _)) as [[He1 [? ->]]|(?&k1&_&He1&Hr1)].
  { split; [by eapply attach_keeps|done]. }
  case_decide; [injection Hr1 as <- <-; split; [by eapply attach_keeps|done]|].
  destruct (effect_bind _ _ _ _ _ _ _ Hr1 He1 does_attach_scope) as [[He2 [? ->]]|([]&k2&H2&He2&Hr2)].
  { split; [by eapply attach_keeps|done]. }
  pose proof (does_run _ _ _ _ _ does_enable (eff_inv _ _ _ He2) Hr2) as He3.
  pose proof (attach_keeps _ _ He2 Hpol) as Hpol2. split.
  - eapply access_policy_keeps; [exact He3|..|done]; target_paths t; by apply enable_still.
  - intros ->. split; [by eapply ensureAttr_Ok; [apply He2|done|exact Hr2]|].
    eapply effect_keeps; [exact He3| |by eapply attachLUN_Ok; [apply He1|]].
    target_paths t. by apply (enable_still k "lun" [LUNName]).
Qed.
End Serve.
