(* ===== verification/LioKernel.v ===== *)
(** * The emulated LIO kernel (internal/agent/lio/liotest/kernel.go)

    The configfs emulation the tests of package lio and of the iSCSI handler
    run on, as an instance of [FS]: which objects mkdir accepts and what it
    populates them with, what rmdir refuses, the checks and side effects of
    attribute writes.  The host directory it keeps its tree in and its Go maps
    are lists of entries by path; calls of package os act on single entries
    and do not follow links (the agent never reads through one).  A list with
    a component that is no file name denotes no path. *)
From stdpp Require Import base numbers list strings gmap pretty.
From Stdlib Require Import Ascii.
From S2P Require Import Prelude GoStd GoNet FencingMark FencingStore Backend Fencing AgentServer.
From S2P Require Import LioFs LioTarget LioLaws ConfigfsEffects.
Open Scope Z_scope.

(** ** Entries by path *)

Fixpoint path_eqb (p q : path) : bool :=
  match p, q with
  | [], [] => true
  | x :: p, y :: q => String.eqb x y && path_eqb p q
  | _, _ => false
  end.
Fixpoint under (d q : path) : bool :=
  match d, q with
  | [], _ => true
  | x :: d, y :: q => String.eqb x y && under d q
  | _, _ => false
  end.

Fixpoint get {A} (p : path) (l : list (path * A)) : option A :=
  match l with
  | [] => None
  | (q, a) :: l => if path_eqb p q then Some a else get p l
  end.
Definition del {A} (p : path) (l : list (path * A)) : list (path * A) := List.filter (λ e, negb (path_eqb p e.1)) l.
Definition set {A} (p : path) (a : A) (l : list (path * A)) : list (path * A) := (p, a) :: del p l.
#[global] Arguments del : simpl never.
#[global] Arguments set : simpl never.
Definition has (p : path) (l : list path) : bool := existsb (path_eqb p) l.

(** [Kernel] *)
Record Kernel := {
  Root : path;
  tree : list (path * node);
  auto : list path;
  held : list string;
  failWrites : list (path * errno);
  dropWrites : list path;
  noDiscard : list string;
}.

Definition set_tree (f : list (path * node) → list (path * node)) (k : Kernel) : Kernel := {|
  Root := Root k; tree := f (tree k); auto := auto k; held := held k;
  failWrites := failWrites k; dropWrites := dropWrites k; noDiscard := noDiscard k |}.
Definition set_auto (f : list path → list path) (k : Kernel) : Kernel := {|
  Root := Root k; tree := tree k; auto := f (auto k); held := held k;
  failWrites := failWrites k; dropWrites := dropWrites k; noDiscard := noDiscard k |}.
Definition set_held (f : list string → list string) (k : Kernel) : Kernel := {|
  Root := Root k; tree := tree k; auto := auto k; held := f (held k);
  failWrites := failWrites k; dropWrites := dropWrites k; noDiscard := noDiscard k |}.

(** [os.MkdirAll] *)
Fixpoint MkdirAll (done todo : path) (m : list (path * node)) : list (path * node) :=
  match todo with
  | [] => m
  | x :: todo => MkdirAll (done ++ [x]) todo (set (done ++ [x]) NDir m)
  end.

(** [NewUnloaded], [New] *)
Definition NewUnloaded (root : path) : Kernel := {|
  Root := root; tree := MkdirAll [] root [([], NDir)]; auto := []; held := []; failWrites := []; dropWrites := [];
  noDiscard := [] |}.
Definition New (root : path) : Kernel :=
  set_tree (λ m, MkdirAll [] (root ++ ["target"; "core"]) (MkdirAll [] (root ++ ["target"]) m)) (NewUnloaded root).

Definition HoldDevice (path : string) (k : Kernel) : Kernel := set_held (cons path) k.
Definition ReleaseDevice (path : string) (k : Kernel) : Kernel := set_held (List.filter (λ h, negb (String.eqb path h))) k.
(** [FailWrite], with [None] clearing it. *)
Definition FailWrite (path : path) (err : option errno) (k : Kernel) : Kernel := {|
  Root := Root k; tree := tree k; auto := auto k; held := held k;
  failWrites := match err with Some e => set path e (failWrites k) | None => del path (failWrites k) end; dropWrites := dropWrites k; noDiscard := noDiscard k |}.
Definition DropWrite (path : path) (k : Kernel) : Kernel := {|
  Root := Root k; tree := tree k; auto := auto k; held := held k;
  failWrites := failWrites k; dropWrites := path :: dropWrites k; noDiscard := noDiscard k |}.
Definition DisableDiscard (path : string) (k : Kernel) : Kernel := {|
  Root := Root k; tree := tree k; auto := auto k; held := held k;
  failWrites := failWrites k; dropWrites := dropWrites k; noDiscard := path :: noDiscard k |}.

(** ** Names *)

Definition isLower (c : ascii) : bool := let n := N_of_ascii c in ((97 <=? n) && (n <=? 122))%N.
Definition isDigit (c : ascii) : bool := let n := N_of_ascii c in ((48 <=? n) && (n <=? 57))%N.
Definition all_digits (s : string) : bool := negb (bool_decide (s = "")) && forallb isDigit (bytes_of_string s).

(** [reHBA], [reTPG], [reLUN] *)
Definition reHBA (s : string) : bool :=
  match Cut "_" s with
  | (l, d, true) => negb (bool_decide (l = "")) && forallb isLower (bytes_of_string l) && all_digits d
  | _ => false
  end.
Definition reTPG (s : string) : bool := match CutPrefix s "tpgt_" with Some d => all_digits d | None => false end.
Definition reLUN (s : string) : bool := match CutPrefix s "lun_" with Some d => all_digits d | None => false end.

Inductive kind :=
| kindUnknown | kindFabric | kindHBA | kindBackstore | kindTarget | kindTPG | kindLUN | kindPortal | kindACL
| kindMappedLUN.
#[export] Instance kind_eq_dec : EqDecision kind.
Proof. solve_decision. Defined.

Definition dirACLs : string := "acls".

Definition classifyCore (p : path) : kind :=
  match p with
  | [_; _; h] => if reHBA h then kindHBA else kindUnknown
  | [_; _; h; _] => if reHBA h then kindBackstore else kindUnknown
  | _ => kindUnknown
  end.

Definition classifyISCSI (p : path) : kind :=
  match p with
  | [_; _] => kindFabric
  | [_; _; _] => kindTarget
  | [_; _; _; g] => if reTPG g then kindTPG else kindUnknown
  | [_; _; _; _; d; n] =>
      if bool_decide (d = "lun") && reLUN n then kindLUN
      else if bool_decide (d = "np") then kindPortal
      else if bool_decide (d = dirACLs) then kindACL
      else kindUnknown
  | [_; _; _; _; d; _; n] => if bool_decide (d = dirACLs) && reLUN n then kindMappedLUN else kindUnknown
  | _ => kindUnknown
  end.

(** [filepath.Rel] of a path below [root]. *)
Fixpoint Rel (root p : path) : option path :=
  match root, p with
  | [], p => Some p
  | x :: root, y :: p => if String.eqb x y then Rel root p else None
  | _ :: _, [] => None
  end.

Definition classify (root p : path) : kind :=
  match Rel root p with
  | Some ((t :: d :: _) as parts) =>
      if bool_decide (t = "target") then
        if bool_decide (d = "core") then classifyCore parts
        else if bool_decide (d = "iscsi") then classifyISCSI parts
        else kindUnknown
      else kindUnknown
  | _ => kindUnknown
  end.

(** ** What a new object comes with *)

Definition fileText (content : string) : node := NAttr (content +:+ newline).

(** [iblockInfo] *)
Definition iblockInfo (udev : string) : string :=
  "Status: DEACTIVATED  Max Queue Depth: 0  SectorSize: 512  HwMaxSectors: 1024" +:+ newline +:+
  "        iBlock device: None" +:+
  (if bool_decide (udev = "") then "" else "  UDEV PATH: " +:+ udev) +:+ "  readonly: 0".

Definition aclAuthStrings : list string := ["userid"; "password"; "userid_mutual"; "password_mutual"].

(** [populate]: the entries below the object, all marked auto. *)
Definition populate (kd : kind) : list (path * node) :=
  match kd with
  | kindFabric => [(["lio_version"], fileText "Datera Inc. iSCSI Target (emulated)"); (["discovery_auth"], NDir)]
  | kindHBA => [(["hba_info"], fileText "")]
  | kindBackstore =>
      [(["enable"], fileText "0"); (["udev_path"], fileText ""); (["control"], fileText "");
       (["info"], fileText (iblockInfo "")); (["attrib"], NDir); (["attrib"; "emulate_tpu"], fileText "0");
       (["wwn"], NDir); (["wwn"; "vpd_unit_serial"], fileText "T10 VPD Unit Serial Number: ")]
  | kindTPG =>
      [(["enable"], fileText "0"); (["lun"], NDir); (["np"], NDir); ([dirACLs], NDir); (["param"], NDir);
       (["auth"], NDir); (["attrib"], NDir); (["attrib"; "authentication"], fileText "1");
       (["attrib"; "generate_node_acls"], fileText "0"); (["attrib"; "cache_dynamic_acls"], fileText "0");
       (["attrib"; "demo_mode_write_protect"], fileText "1")]
  | kindLUN => [(["alua_tg_pt_gp"], fileText "default_tg_pt_gp"); (["statistics"], NDir)]
  | kindACL =>
      [(["param"], NDir); (["attrib"], NDir); (["attrib"; "authentication"], fileText "-1"); (["auth"], NDir)]
      ++ map (λ n, (["auth"; n], fileText "")) aclAuthStrings
      ++ [(["auth"; "authenticate_target"], fileText "0")]
  | kindMappedLUN => [(["write_protect"], fileText "0")]
  | kindTarget | kindPortal | kindUnknown => []
  end.

Definition addEntries (p : path) (l : list (path * node)) (m : list (path * node)) : list (path * node) :=
  foldr (λ e m, set (p ++ e.1) e.2 m) m l.
Definition addAuto (p : path) (l : list (path * node)) (a : list path) : list path :=
  map (λ e, p ++ e.1) l ++ a.

(** ** Calls of package os *)

Abbreviation Sys := (M Kernel errno).

(** The error of a path with no entry: a component on the way is no
    directory, or there is none. *)
Fixpoint blocked (m : list (path * node)) (done todo : path) : bool :=
  match todo with
  | [] | [_] => false
  | x :: todo =>
      match get (done ++ [x]) m with
      | Some NDir => blocked m (done ++ [x]) todo
      | Some _ => true
      | None => false
      end
  end.
Definition ENOTDIR : errno := EOTHER "ENOTDIR".
Definition missing (m : list (path * node)) (p : path) : errno := if blocked m [] p then ENOTDIR else ENOENT.

Definition osLstat (p : path) (k : Kernel) : result errno node :=
  match get p (tree k) with Some n => Ok n | None => Err (missing (tree k) p) end.
Definition osReadFile (p : path) (k : Kernel) : result errno string :=
  match get p (tree k) with
  | Some (NAttr s) => Ok s
  | Some _ => Err (EOTHER "EISDIR")
  | None => Err (missing (tree k) p)
  end.
(** [os.WriteFile] to an attribute ([put]). *)
Definition put (p : path) (value : string) : Sys unit := λ k,
  match get p (tree k) with
  | Some (NAttr _) => (Ok tt, set_tree (set p (fileText value)) k)
  | Some _ => (Err (EOTHER "EISDIR"), k)
  | None => (Err (missing (tree k) p), k)
  end.

Definition children (p : path) (m : list (path * node)) : list string :=
  omap (λ e, match rev e.1 with
             | x :: d => if path_eqb p (rev d) then Some x else None
             | [] => None
             end) m.
(** [os.ReadDir], sorted by name. *)
Definition osReadDir (p : path) (k : Kernel) : result errno (list (string * entry_kind)) :=
  match get p (tree k) with
  | Some NDir =>
      Ok (omap (λ x, match get (p ++ [x]) (tree k) with Some n => Some (x, kind_of n) | None => None end)
               (Sort (children p (tree k))))
  | Some _ => Err ENOTDIR
  | None => Err (missing (tree k) p)
  end.

Definition path_string (p : path) : string := "/" +:+ Join "/" p.

(** ** Helpers of the emulation *)

Definition readTrim (p : path) (k : Kernel) : string :=
  match osReadFile p k with Ok data => TrimSpace data | Err _ => "" end.

(** [onlyAutoChildren]: the walk visits everything below. *)
Definition onlyAutoChildren (dir : path) (k : Kernel) : bool :=
  forallb (λ e, negb (under dir e.1) || path_eqb dir e.1 || has e.1 (auto k)) (tree k).

Definition linkedTo (p : path) (k : Kernel) : bool :=
  existsb (λ e, match e.2 with
                | NLink dest =>
                    under (Root k ++ ["target"; "iscsi"]) e.1 && path_eqb p (resolvedLinkTarget e.1 dest)
                | _ => false
                end) (tree k).

Definition infoDevice (dir : path) (k : Kernel) : string :=
  match after "UDEV PATH: " (readTrim (dir ++ ["info"]) k) with
  | None => ""
  | Some rest => field_prefix (TrimLeft rest)
  end.

Definition claimedByBackstore (device : string) (k : Kernel) : bool :=
  existsb (λ e, match Rel (Root k) e.1 with
                | Some [t; c; _; _; en] =>
                    bool_decide (t = "target") && bool_decide (c = "core") && bool_decide (en = "enable") &&
                    bool_decide (readTrim e.1 k = "1") && bool_decide (infoDevice (dirp e.1) k = device)
                | _ => false
                end) (tree k).

(** [Claimer] *)
Definition Claimer (path : string) : M Kernel go_error unit := λ k,
  if containsb (held k) path || claimedByBackstore path k then (Err ErrDeviceHeld, k) else (Ok tt, k).

Definition validPortalName (name : string) : bool :=
  match ParsePortal name with
  | Ok (host, _) => negb (containsByte ":" host) || HasPrefix name "["
  | Err _ => false
  end.

(** ** Attribute writes *)

Definition EINVAL : errno := EOTHER "EINVAL".
Definition EPERM : errno := EOTHER "EPERM".
Definition EACCES : errno := EOTHER "EACCES".
Definition EISDIR : errno := EOTHER "EISDIR".
Definition ENODEV : errno := EOTHER "ENODEV".
Definition EFAULT : errno := EOTHER "EFAULT".

(** [filepath.Base] *)
Definition basep (p : path) : string := default "/" (last p).

Definition isACLAuthAttr (p : path) (k : Kernel) : bool :=
  let dir := dirp p in
  bool_decide (basep dir = "auth") && bool_decide (classify (Root k) (dirp dir) = kindACL).

Definition aclValueSet (dir : path) (n : string) (k : Kernel) : bool :=
  match osReadFile (dir ++ [n]) k with
  | Err _ => false
  | Ok data =>
      let v := TrimSuffix data newline in
      negb (bool_decide (v = "")) && negb (HasPrefix v "NULL")
  end.

Definition syncAuthenticateTarget (dir : path) : Sys unit := λ k,
  let authenticate : string :=
    if aclValueSet dir "userid_mutual" k && aclValueSet dir "password_mutual" k then "1" else "0" in
  put (dir ++ ["authenticate_target"]) authenticate k.

Definition writeACLAuth (p : path) (content : string) : Sys unit :=
  if negb (containsb aclAuthStrings (basep p)) then throw EACCES
  else if bool_decide (content = "") then throw EFAULT
  else if (256 <=? String.length content)%nat then throw EINVAL
  else put p (Cut NULb content).1.1 ;; syncAuthenticateTarget (dirp p).

(** [injectedWriteLocked]: [Some] is a write that ends there. *)
Definition injectedWrite (p : path) (k : Kernel) : option (result errno unit) :=
  match get p (failWrites k) with
  | Some failErr => Some (Err failErr)
  | None =>
      if has p (dropWrites k) then Some (Ok tt)
      else match osLstat p k with
           | Err e => Some (Err e)
           | Ok NDir => Some (Err EISDIR)
           | Ok _ => None
           end
  end.

Definition writeBackstoreControl (p : path) (value : string) : Sys unit := λ k,
  let dir := dirp p in
  match CutPrefix value "udev_path=" with
  | None => (Err EINVAL, k)
  | Some udev =>
      if bool_decide (readTrim (dir ++ ["enable"]) k = "1") then (Err EEXIST, k)
      else put (dir ++ ["info"]) (iblockInfo udev) k
  end.

Definition writeBackstoreEnable (p : path) (value : string) : Sys unit := λ k,
  let udev := infoDevice (dirp p) k in
  if negb (bool_decide (value = "1")) || bool_decide (udev = "") then (Err EINVAL, k)
  else if bool_decide (readTrim p k = "1") then (Err EEXIST, k)
  else if containsb (held k) udev || claimedByBackstore udev k then (Err EBUSY, k)
  else put p "1" k.

Definition isBool (value : string) : bool := bool_decide (value = "0") || bool_decide (value = "1").

Definition writeEmulateTPU (p : path) (value : string) : Sys unit := λ k,
  if negb (isBool value) then (Err EINVAL, k)
  else if bool_decide (value = "1") then
    let dir := dirp (dirp p) in
    if negb (bool_decide (readTrim (dir ++ ["enable"]) k = "1")) then (Err ENODEV, k)
    else if containsb (noDiscard k) (infoDevice dir k) then (Err ENOSYS, k)
    else put p value k
  else put p value k.

Definition writeUnitSerial (wwnDir p : path) (value : string) : Sys unit := λ k,
  if linkedTo (dirp wwnDir) k then (Err EINVAL, k) else put p ("T10 VPD Unit Serial Number: " +:+ value) k.

Definition putBool (p : path) (value : string) : Sys unit := λ k,
  if negb (isBool value) then (Err EINVAL, k) else put p value k.

Definition writeAuthentication (p : path) (value : string) : Sys unit := λ k,
  let owner := classify (Root k) (dirp (dirp p)) in
  if bool_decide (owner = kindTPG) && isBool value then put p value k
  else if bool_decide (owner = kindACL) && (isBool value || bool_decide (value = "-1")) then put p value k
  else (Err EINVAL, k).

(** [writeAttrHandoffLocked], [writeAttrLocked] *)
Definition writeAttrHandoff (dir : path) (name : string) (p : path) (value : string) (k : Kernel) : option (Sys unit) :=
  let dirKind := classify (Root k) dir in
  let parent := basep dir in
  if bool_decide (dirKind = kindBackstore) && bool_decide (name = "control") then Some (writeBackstoreControl p value)
  else if bool_decide (dirKind = kindBackstore) && bool_decide (name = "enable") then Some (writeBackstoreEnable p value)
  else if bool_decide (name = "emulate_tpu") && bool_decide (parent = "attrib")
          && bool_decide (classify (Root k) (dirp dir) = kindBackstore) then Some (writeEmulateTPU p value)
  else if bool_decide (name = "vpd_unit_serial") && bool_decide (parent = "wwn") then Some (writeUnitSerial dir p value)
  else if bool_decide (name = "enable") && bool_decide (dirKind = kindTPG) then Some (putBool p value)
  else if bool_decide (name = "authentication") && bool_decide (parent = "attrib") then Some (writeAuthentication p value)
  else None.

Definition writeAttrLocked (p : path) (value : string) : Sys unit := λ k,
  match writeAttrHandoff (dirp p) (basep p) p value k with
  | Some m => m k
  | None => put p value k
  end.

(** ** The file system *)

(** [os.Mkdir] *)
Definition osMkdir (p : path) : Sys unit := λ k,
  if negb (forallb plain_name p) then (Err ENOENT, k)
  else match get p (tree k), get (dirp p) (tree k) with
       | Some _, _ => (Err EEXIST, k)
       | None, Some NDir => (Ok tt, set_tree (set p NDir) k)
       | None, _ => (Err (missing (tree k) p), k)
       end.

Definition Kernel_Mkdir (p : path) : Sys unit := λ k,
  let kd := classify (Root k) p in
  match get p (tree k) with
  | Some _ => (Err EEXIST, k)
  | None =>
      if bool_decide (kd = kindUnknown) then (Err EPERM, k)
      else if bool_decide (kd = kindPortal) && negb (validPortalName (basep p)) then (Err EINVAL, k)
      else
        (osMkdir p ;;
         modify (λ k, set_auto (addAuto p (populate kd)) (set_tree (addEntries p (populate kd)) k)) : Sys unit) k
  end.

Definition Kernel_Rmdir (p : path) : Sys unit := λ k,
  match osLstat p k with
  | Err e => (Err e, k)
  | Ok NDir =>
      if has p (auto k) then (Err EPERM, k)
      else if negb (onlyAutoChildren p k) then (Err ENOTEMPTY, k)
      else if linkedTo p k then (Err EBUSY, k)
      else
        (Ok tt, set_auto (List.filter (λ q, negb (under p q) || path_eqb p q))
                  (set_tree (List.filter (λ e, negb (under p e.1))) k))
  | Ok _ => (Err ENOTDIR, k)
  end.

Definition Kernel_WriteFile (p : path) (content : string) : Sys unit := λ k,
  match injectedWrite p k with
  | Some r => (r, k)
  | None => if isACLAuthAttr p k then writeACLAuth p content k else writeAttrLocked p (TrimSpace content) k
  end.

Definition Kernel_ReadFile (p : path) : Sys string := λ k,
  if bool_decide (basep p = "control") then (Err EACCES, k) else (osReadFile p k, k).

(** [os.Symlink] *)
Definition osSymlink (oldname newname : path) : Sys unit := λ k,
  if negb (forallb plain_name newname) then (Err ENOENT, k)
  else match get newname (tree k), get (dirp newname) (tree k) with
       | Some _, _ => (Err EEXIST, k)
       | None, Some NDir => (Ok tt, set_tree (set newname (NLink (path_string oldname))) k)
       | None, _ => (Err (missing (tree k) newname), k)
       end.

Definition Kernel_Symlink (oldname newname : path) : Sys unit := λ k,
  let parentKind := classify (Root k) (dirp newname) in
  let targetKind := classify (Root k) oldname in
  let checked : result errno unit :=
    if bool_decide (parentKind = kindLUN) && bool_decide (targetKind = kindBackstore) then
      if negb (bool_decide (readTrim (oldname ++ ["enable"]) k = "1")) then Err ENODEV else Ok tt
    else if bool_decide (parentKind = kindMappedLUN) && bool_decide (targetKind = kindLUN) then
      match get oldname (tree k) with Some NDir => Ok tt | _ => Err ENOENT end
    else Err EPERM in
  match checked with
  | Err e => (Err e, k)
  | Ok _ =>
      match osReadDir (dirp newname) k with
      | Err e => (Err e, k)
      | Ok links =>
          if existsb (λ e, bool_decide (e.2 = KLink)) links then (Err EEXIST, k) else osSymlink oldname newname k
      end
  end.

Definition Kernel_Readlink (p : path) : Sys string := λ k,
  (match osLstat p k with Ok (NLink s) => Ok s | Ok _ => Err EINVAL | Err e => Err e end, k).

Definition Kernel_Unlink (p : path) : Sys unit := λ k,
  match osLstat p k with
  | Err e => (Err e, k)
  | Ok (NLink _) => (Ok tt, set_tree (del p) k)
  | Ok _ => (Err EPERM, k)
  end.

Definition Kernel_Lstat (p : path) : Sys entry_kind := λ k,
  (match osLstat p k with Ok n => Ok (kind_of n) | Err e => Err e end, k).

Definition Kernel_ReadDir (p : path) : Sys (list (string * entry_kind)) := λ k, (osReadDir p k, k).

#[export] Instance Kernel_FS : FS Kernel := {|
  Mkdir := Kernel_Mkdir; Rmdir := Kernel_Rmdir; WriteFile := Kernel_WriteFile; ReadFile := Kernel_ReadFile;
  Symlink := Kernel_Symlink; Readlink := Kernel_Readlink; Unlink := Kernel_Unlink; Lstat := Kernel_Lstat;
  ReadDir := Kernel_ReadDir |}.
