(* ===== verification/LioKernelLaws.v ===== *)
(** * The emulated kernel satisfies the configfs laws

    [Kernel_laws]: the emulation of liotest is an instance of [FSLaws], so the
    theorems about the LIO targets hold on it, and the laws can be met. *)
From stdpp Require Import base numbers list strings gmap pretty.
From Stdlib Require Import Ascii.
From S2P Require Import Prelude GoStd GoNet FencingMark FencingStore Backend Fencing AgentServer.
From S2P Require Import LioFs LioTarget LioLaws ConfigfsEffects LioKernel.
Open Scope Z_scope.

(** ** Entries by path *)

Lemma path_eqb_spec p q : path_eqb p q = true ↔ p = q.
Proof.
  revert q. induction p as [|x p IH]; intros [|y q]; cbn; try done.
  rewrite andb_true_iff, String.eqb_eq, IH. naive_solver.
Qed.
Lemma path_eqb_refl p : path_eqb p p = true.
Proof. by apply path_eqb_spec. Qed.
Lemma path_eqb_decide p q : path_eqb p q = bool_decide (p = q).
Proof. apply eq_bool_prop_intro. by rewrite !Is_true_true, path_eqb_spec, bool_decide_eq_true. Qed.

Lemma under_spec d q : under d q = true ↔ d `prefix_of` q.
Proof.
  revert q. induction d as [|x d IH]; intros q; cbn; [split; [|done]; intros _; apply prefix_nil|].
  destruct q as [|y q]; [split; [done|]; by intros ?%prefix_nil_inv|].
  rewrite andb_true_iff, String.eqb_eq, IH. split.
  - intros [-> Hq]. by apply prefix_cons.
  - intros Hq. split; [by eapply prefix_cons_inv_1|by eapply prefix_cons_inv_2].
Qed.
Lemma under_decide d q : under d q = bool_decide (d `prefix_of` q).
Proof. apply eq_bool_prop_intro. by rewrite !Is_true_true, under_spec, bool_decide_eq_true. Qed.

Lemma has_spec p l : has p l = true ↔ p ∈ l.
Proof.
  unfold has. rewrite existsb_exists. setoid_rewrite path_eqb_spec. setoid_rewrite <- list_elem_of_In. naive_solver.
Qed.

Section Get.
Context {A : Type}.
Implicit Types (p q : path) (l : list (path * A)) (a : A).

Lemma get_keep (f : path → bool) q l :
  get q (List.filter (λ e, f e.1) l) = if f q then get q l else None.
Proof.
  induction l as [|[p a] l IH]; cbn; [by destruct (f q)|]. destruct (f p) eqn:Ef; cbn.
  - destruct (path_eqb q p) eqn:Eq; [|done]. apply path_eqb_spec in Eq as ->. by rewrite Ef.
  - rewrite IH. destruct (path_eqb q p) eqn:Eq; [|done]. apply path_eqb_spec in Eq as ->. by rewrite Ef.
Qed.

Lemma get_del p q l : get q (del p l) = if path_eqb p q then None else get q l.
Proof. unfold del. rewrite (get_keep (λ x, negb (path_eqb p x))). by destruct (path_eqb p q). Qed.

Lemma get_set p a q l : get q (set p a l) = if path_eqb p q then Some a else get q l.
Proof.
  unfold set. cbn. rewrite get_del. rewrite (path_eqb_decide q), (path_eqb_decide p).
  destruct (decide (p = q)) as [->|Hne]; [by rewrite !bool_decide_eq_true_2|]. by rewrite !bool_decide_eq_false_2 by done.
Qed.
Lemma entry_set_eq p a l : get p (set p a l) = Some a.
Proof. by rewrite get_set, path_eqb_refl. Qed.
Lemma entry_set_ne p a q l : q ≠ p → get q (set p a l) = get q l.
Proof. intros Hne. rewrite get_set, path_eqb_decide, bool_decide_eq_false_2; congruence. Qed.

Lemma get_elem p a l : get p l = Some a → (p, a) ∈ l.
Proof.
  induction l as [|[q b] l IH]; cbn; [done|]. destruct (path_eqb p q) eqn:E.
  - apply path_eqb_spec in E as ->. intros [= ->]. by left.
  - intros. right. by apply IH.
Qed.
Lemma elem_get p a l : (p, a) ∈ l → get p l ≠ None.
Proof.
  induction l as [|[q b] l IH]; [by intros ?%elem_of_nil|]. intros [[= -> ->]|Hin]%elem_of_cons; cbn.
  - by rewrite path_eqb_refl.
  - destruct (path_eqb p q); [done|by apply IH].
Qed.
End Get.

(** Entries added below an object. *)
Lemma get_add_other p l m q : (∀ r n, (r, n) ∈ l → q ≠ p ++ r) → get q (addEntries p l m) = get q m.
Proof.
  induction l as [|[r n] l IH]; intros Hl; [done|]. cbn. rewrite entry_set_ne.
  - apply IH. intros. apply (Hl _ n0). by right.
  - apply (Hl _ n). by left.
Qed.
Lemma get_add p l m r n : NoDup l.*1 → (r, n) ∈ l → get (p ++ r) (addEntries p l m) = Some n.
Proof.
  induction l as [|[r' n'] l IH]; intros Hnd Hin; [by apply elem_of_nil in Hin|]. cbn in *.
  apply NoDup_cons in Hnd as [Hr Hnd]. apply elem_of_cons in Hin as [[= -> ->]|Hin]; [by rewrite entry_set_eq|].
  rewrite entry_set_ne; [by apply IH|]. intros ?%app_inv_head. subst. apply Hr, list_elem_of_fmap. by exists (r', n).
Qed.
Lemma get_add_cases p l m q n :
  get q (addEntries p l m) = Some n → (∃ r n', (r, n') ∈ l ∧ q = p ++ r) ∨ get q m = Some n.
Proof.
  induction l as [|[r n'] l IH]; cbn; [by right|]. rewrite get_set. destruct (path_eqb _ q) eqn:E.
  - apply path_eqb_spec in E as <-. intros _. left. exists r, n'. split; [by left|done].
  - intros [(r'&n''&Hin&->)|]%IH; [left|by right]. exists r', n''. split; [by right|done].
Qed.

(** ** What objects come with *)

(** Checked for each kind: names, no empty path, no duplicate, prefixes
    included as directories, switches off, no links. *)
Definition entry_good (l : list (path * node)) (e : path * node) : bool :=
  forallb plain_name e.1 && negb (bool_decide (e.1 = [])) &&
  forallb (λ i, bool_decide ((take i e.1, NDir) ∈ l)) (seq 1 (length e.1 - 1)) &&
  match e.2 with
  | NAttr s => negb (bool_decide (last e.1 = Some "enable")) || negb (bool_decide (attr_text s = "1"))
  | NDir => true
  | NLink _ => false
  end.

Lemma populate_good kd : NoDup (populate kd).*1 ∧ forallb (entry_good (populate kd)) (populate kd) = true.
Proof. destruct kd; (split; [apply (bool_decide_unpack _)|]); vm_compute; done. Qed.

Lemma populate_entry kd r n : (r, n) ∈ populate kd →
  forallb plain_name r = true ∧ r ≠ [] ∧
  (∀ r1 r2, r = r1 ++ r2 → r1 ≠ [] → r2 ≠ [] → (r1, NDir) ∈ populate kd) ∧
  (is_enable r → ∀ s, n = NAttr s → attr_text s ≠ "1") ∧ (∀ s, n ≠ NLink s).
Proof.
  intros Hin. destruct (populate_good kd) as [_ Hg]. rewrite forallb_forall in Hg.
  apply list_elem_of_In, Hg in Hin. unfold entry_good in Hin. cbn [fst snd] in Hin.
  rewrite !andb_true_iff, negb_true_iff, bool_decide_eq_false in Hin.
  destruct Hin as [[[Hp Hne] Hpre] Hn]. rewrite forallb_forall in Hpre. split_and!; [done|done| | |].
  - intros r1 r2 -> H1 H2. assert (In (length r1) (seq 1 (length (r1 ++ r2) - 1))) as Hi.
    { apply in_seq. rewrite length_app. destruct r1; [done|]. destruct r2; [done|]. cbn [length]. lia. }
    apply Hpre, bool_decide_eq_true in Hi. by rewrite take_app_length in Hi.
  - intros [d ->] s ->. rewrite last_snoc in Hn. rewrite bool_decide_eq_true_2 in Hn by done. cbn in Hn.
    by apply negb_true_iff, bool_decide_eq_false in Hn.
  - intros s ->. done.
Qed.

(** The default groups are objects without defaults of their own. *)
Lemma Rel_app root p parts r : Rel root p = Some parts → Rel root (p ++ r) = Some (parts ++ r).
Proof.
  revert p. induction root as [|x root IH]; intros p; cbn; [by intros [= ->]|].
  destruct p as [|y p]; [done|]. cbn. destruct (String.eqb x y); [apply IH|done].
Qed.

Ltac each_entry Hin :=
  cbn in Hin; repeat (apply elem_of_cons in Hin as [Hin|Hin]; [injection Hin; intros; subst; try done|]);
  try by apply elem_of_nil in Hin.

Lemma populate_core parts r : (r, NDir) ∈ populate (classifyCore parts) → populate (classifyCore (parts ++ r)) = [].
Proof.
  destruct parts as [|a [|b [|h [|x [|y parts]]]]]; cbn [classifyCore]; intros Hin; try by apply elem_of_nil in Hin.
  - destruct (reHBA h); each_entry Hin.
  - destruct (reHBA h); each_entry Hin.
Qed.

Lemma populate_iscsi parts r : (r, NDir) ∈ populate (classifyISCSI parts) → populate (classifyISCSI (parts ++ r)) = [].
Proof.
  destruct parts as [|a [|b [|c [|g [|d [|n [|m [|z parts]]]]]]]]; cbn [classifyISCSI]; intros Hin;
    try by apply elem_of_nil in Hin.
  - each_entry Hin.
  - destruct (reTPG g); each_entry Hin.
  - destruct (bool_decide (d = "lun") && reLUN n) eqn:El.
    + apply andb_true_iff in El as [->%bool_decide_eq_true _]. each_entry Hin.
    + destruct (bool_decide (d = "np")); [by apply elem_of_nil in Hin|].
      destruct (bool_decide (d = dirACLs)) eqn:Ea; [|by apply elem_of_nil in Hin].
      cbn [app classifyISCSI]. each_entry Hin; cbn; by rewrite Ea.
  - destruct (bool_decide (d = dirACLs) && reLUN m); each_entry Hin.
Qed.

Lemma Rel_spec root p parts : Rel root p = Some parts → p = root ++ parts.
Proof.
  revert p. induction root as [|x root IH]; intros p; cbn; [by intros [= ->]|].
  destruct p as [|y p]; [done|]. destruct (String.eqb x y) eqn:E; [|done]. apply String.eqb_eq in E as ->. intros Hp%IH.
  by rewrite Hp.
Qed.

Lemma populate_dir root p r : (r, NDir) ∈ populate (classify root p) → populate (classify root (p ++ r)) = [].
Proof.
  unfold classify. destruct (Rel root p) as [parts|] eqn:ER; [|by intros ?%elem_of_nil]. rewrite (Rel_app _ _ _ _ ER).
  destruct parts as [|t [|d parts]]; [by intros ?%elem_of_nil..|]. cbn [app].
  destruct (bool_decide (t = "target")); [|by intros ?%elem_of_nil].
  destruct (bool_decide (d = "core")); [apply populate_core|].
  destruct (bool_decide (d = "iscsi")); [apply populate_iscsi|by intros ?%elem_of_nil].
Qed.

(** ** The invariant of the emulation *)

Record kernel_inv (k : Kernel) : Prop := {
  ki_tree p x : get (p ++ [x]) (tree k) ≠ None → get p (tree k) = Some NDir;
  ki_plain p n : get p (tree k) = Some n → forallb plain_name p = true;
  (** Objects keep what they came with. *)
  ki_defaults d r m : get d (tree k) = Some NDir → (r, m) ∈ populate (classify (Root k) d) →
    kind_of <$> get (d ++ r) (tree k) = Some (kind_of m) ∧ d ++ r ∈ auto k;
}.

(** Attribute texts may change. *)
Lemma kernel_inv_kinds k k' :
  kernel_inv k → Root k' = Root k → auto k' = auto k →
  (∀ q, kind_of <$> get q (tree k') = kind_of <$> get q (tree k)) → kernel_inv k'.
Proof.
  intros [T P D] HR HA HK.
  assert (∀ q, get q (tree k') = Some NDir ↔ get q (tree k) = Some NDir) as HD.
  { intros q. specialize (HK q). destruct (get q (tree k')) as [[]|], (get q (tree k)) as [[]|]; naive_solver. }
  split.
  - intros p x Hx. apply HD, (T p x). specialize (HK (p ++ [x])). intros Hn. rewrite Hn in HK. by destruct (get (p ++ [x]) (tree k')).
  - intros p n Hn. specialize (HK p). rewrite Hn in HK. destruct (get p (tree k)) as [n'|] eqn:E; [|done]. by eapply P.
  - intros d r m Hd Hin. rewrite HR in Hin. rewrite HK, HA. apply D; [by apply HD|done].
Qed.

Lemma tree_below k p r : kernel_inv k → get p (tree k) = None → get (p ++ r) (tree k) = None.
Proof.
  intros Hk Hp. induction r as [|x r IH] using rev_ind; [by rewrite app_nil_r|]. rewrite app_assoc.
  destruct (get ((p ++ r) ++ [x]) (tree k)) eqn:E; [|done].
  rewrite (ki_tree _ Hk (p ++ r) x) in IH; [done|by rewrite E].
Qed.

(** ** The calls *)

Definition kview (k : Kernel) (p : path) : option node := get p (tree k).

Definition made (p : path) (k : Kernel) : Kernel :=
  let kd := classify (Root k) p in
  set_auto (addAuto p (populate kd)) (set_tree (addEntries p (populate kd)) (set_tree (set p NDir) k)).

Lemma Mkdir_cases p k :
  (∃ e, Kernel_Mkdir p k = (Err e, k)) ∨
  Kernel_Mkdir p k = (Ok tt, made p k) ∧ get p (tree k) = None ∧ forallb plain_name p = true ∧
  get (dirp p) (tree k) = Some NDir.
Proof.
  unfold Kernel_Mkdir. destruct (get p (tree k)) eqn:Ep; [eauto|]. destruct (bool_decide _); [eauto|].
  destruct (_ && _); [eauto|]. unfold mbind, M_bind, osMkdir. destruct (forallb plain_name p) eqn:Epl; cbn; [|eauto].
  rewrite Ep. destruct (get (dirp p) (tree k)) as [[]|] eqn:Ed; eauto 10.
Qed.

Section Made.
Context (p : path) (k : Kernel).
Context (Hk : kernel_inv k) (Hp : get p (tree k) = None) (Hpl : forallb plain_name p = true)
  (Hd : get (dirp p) (tree k) = Some NDir).
Let kd := classify (Root k) p.

Lemma p_snoc : ∃ d x, p = d ++ [x] ∧ get d (tree k) = Some NDir.
Proof.
  destruct p as [|x d _] using rev_ind; [cbn in Hd; congruence|]. exists d, x. split; [done|].
  unfold dirp in Hd. by rewrite removelast_last in Hd.
Qed.

Lemma made_self : get p (tree (made p k)) = Some NDir.
Proof.
  cbn. rewrite get_add_other; [apply entry_set_eq|]. intros r n (_&Hr&_)%populate_entry Heq.
  rewrite <- (app_nil_r p) in Heq at 1. by apply app_inv_head in Heq.
Qed.
Lemma made_entry r n : (r, n) ∈ populate kd → get (p ++ r) (tree (made p k)) = Some n.
Proof. intros Hin. cbn. apply get_add; [apply populate_good|done]. Qed.
Lemma made_old q : get q (tree k) ≠ None → get q (tree (made p k)) = get q (tree k).
Proof.
  intros Hq. assert (∀ r, q ≠ p ++ r) as Hne by (intros r ->; by rewrite (tree_below _ _ _ Hk Hp) in Hq).
  cbn. rewrite get_add_other by auto. apply entry_set_ne. rewrite <- (app_nil_r p). auto.
Qed.
Lemma made_cases q n : get q (tree (made p k)) = Some n →
  q = p ∧ n = NDir ∨ (∃ r, q = p ++ r ∧ (r, n) ∈ populate kd) ∨ get q (tree k) = Some n.
Proof.
  intros Hq. pose proof Hq as Hq'. cbn in Hq'. apply get_add_cases in Hq' as [(r&n'&Hin&->)|Hq'].
  - rewrite (made_entry _ _ Hin) in Hq. injection Hq as <-. right; left. eauto.
  - rewrite get_set in Hq'. destruct (path_eqb p q) eqn:E; [|by right; right].
    apply path_eqb_spec in E as <-. left. split; congruence.
Qed.

Lemma made_inv : kernel_inv (made p k).
Proof.
  destruct p_snoc as (d0&x0&Hp0&Hd0). split.
  - intros q x Hx. destruct (get (q ++ [x]) (tree (made p k))) as [n|] eqn:E; [clear Hx|done].
    destruct (made_cases _ _ E) as [[Heq _]|[(r&Heq&Hin)|Hold]].
    + rewrite Hp0 in Heq. apply app_inj_tail in Heq as [-> _]. rewrite made_old; congruence.
    + destruct (populate_entry _ _ _ Hin) as (_&Hne&Hpre&_). destruct r as [|y r _] using rev_ind; [done|].
      rewrite app_assoc in Heq. apply app_inj_tail in Heq as [-> ->].
      destruct r as [|z r]; [rewrite app_nil_r; apply made_self|]. apply made_entry. by eapply Hpre.
    + assert (get q (tree k) = Some NDir) as Hq by (apply (ki_tree _ Hk _ x); by rewrite Hold). rewrite made_old; congruence.
  - intros q n E. destruct (made_cases _ _ E) as [[-> _]|[(r&->&Hin)|Hold]]; [done| |by eapply ki_plain].
    rewrite forallb_app, Hpl. by destruct (populate_entry _ _ _ Hin) as (->&_).
  - intros d r m Hdir Hin. change (auto (made p k)) with (map (λ e, p ++ e.1) (populate kd) ++ auto k).
    rewrite elem_of_app.
    destruct (made_cases _ _ Hdir) as [[-> _]|[(r'&->&Hin')|Hold]].
    + rewrite (made_entry _ _ Hin). split; [done|left]. apply list_elem_of_fmap. by exists (r, m).
    + exfalso. change (Root (made p k)) with (Root k) in Hin. rewrite (populate_dir _ _ _ Hin') in Hin. by apply elem_of_nil in Hin.
    + destruct (ki_defaults _ Hk d r m Hold Hin) as [Hkd Ha]. split; [|by right].
      rewrite made_old; [done|]. by destruct (get (d ++ r) (tree k)).
Qed.
End Made.

Lemma kernel_Mkdir p k : kernel_inv k → wp (Kernel_Mkdir p) (λ r k', kernel_inv k' ∧
  match r with
  | Ok _ =>
      kview k p = None ∧ kview k' p = Some NDir ∧ (∀ q, kview k q ≠ None → kview k' q = kview k q) ∧
      (∀ q, kview k q = None → kview k' q ≠ None → p `prefix_of` q ∧ (is_enable q → off (kview k') q))
  | Err _ => kview k' = kview k
  end) k.
Proof.
  intros Hk. unfold wp. destruct (Mkdir_cases p k) as [[e ->]|(->&Hp&Hpl&Hd)]; [done|]. cbn [fst snd].
  split; [by apply made_inv|]. split_and!; [done|by apply made_self|by apply made_old|].
  intros q Hq Hq'. unfold kview in *. destruct (get q (tree (made p k))) as [n|] eqn:E; [|done].
  destruct (made_cases _ _ _ _ E) as [[-> ->]|[(r&->&Hin)|Hold]]; [| |congruence].
  - split; [done|]. intros _ s Hs. congruence.
  - split; [by apply prefix_app_r|]. intros [d Hen] s Hs. rewrite E in Hs.
    destruct (populate_entry _ _ _ Hin) as (_&Hne&_&Hoff&_). eapply Hoff; [|congruence].
    destruct r as [|y r _] using rev_ind; [done|]. rewrite app_assoc in Hen. apply app_inj_tail in Hen as [_ ->]. by exists r.
Qed.

Lemma prefix_app_cases (p d r : path) : p `prefix_of` d ++ r → p `prefix_of` d ∨ ∃ r1 r2, r = r1 ++ r2 ∧ p = d ++ r1 ∧ r1 ≠ [].
Proof.
  revert d. induction p as [|x p IH]; intros d Hp; [left; apply prefix_nil|].
  destruct d as [|y d]; [right; destruct Hp as [s Hs]; by exists (x :: p), s|]. cbn in Hp.
  pose proof (prefix_cons_inv_1 _ _ _ _ Hp) as ->. apply prefix_cons_inv_2 in Hp.
  destruct (IH _ Hp) as [|(r1&r2&->&->&Hr)]; [left; by apply prefix_cons|right; by exists r1, r2].
Qed.

Lemma kernel_Rmdir p k : kernel_inv k → wp (Kernel_Rmdir p) (λ r k', kernel_inv k' ∧
  match r with
  | Ok _ => (∀ q, p `prefix_of` q → kview k' q = None) ∧ (∀ q, ¬ p `prefix_of` q → kview k' q = kview k q)
  | Err _ => kview k' = kview k
  end) k.
Proof.
  intros Hk. unfold wp, Kernel_Rmdir. destruct (osLstat p k) as [[]|]; try done. destruct (has p (auto k)) eqn:Ea; [done|].
  destruct (negb _); [done|]. destruct (linkedTo p k); [done|]. cbn [fst snd].
  set (k' := set_auto _ _). assert (∀ q, get q (tree k') = if decide (p `prefix_of` q) then None else get q (tree k)) as Hg.
  { intros q. cbn. rewrite (get_keep (λ q, negb (under p q))), under_decide.
    destruct (decide (p `prefix_of` q)); [by rewrite bool_decide_eq_true_2|by rewrite bool_decide_eq_false_2]. }
  split; [|split; intros q Hq; unfold kview; rewrite Hg; [by rewrite decide_True|by rewrite decide_False]]. split.
  - intros q x. rewrite !Hg. destruct (decide (p `prefix_of` q ++ [x])) as [|Hn]; [done|]. intros Hx.
    rewrite decide_False; [by apply (ki_tree _ Hk _ x)|]. intros Hq. apply Hn. by apply prefix_app_r.
  - intros q n. rewrite Hg. destruct (decide _); [done|]. apply (ki_plain _ Hk).
  - intros d r m. rewrite !Hg. destruct (decide (p `prefix_of` d)) as [|Hnd]; [done|]. intros Hd Hin.
    destruct (ki_defaults _ Hk d r m Hd Hin) as [Hkd Ha].
    assert (¬ p `prefix_of` d ++ r) as Hnr.
    { intros [|(r1&r2&->&->&Hr1)]%prefix_app_cases; [done|]. apply not_true_iff_false in Ea. apply Ea, has_spec.
      destruct r2 as [|y r2]; [by rewrite app_nil_r in Ha|].
      destruct (populate_entry _ _ _ Hin) as (_&_&Hpre&_). by apply (ki_defaults _ Hk d r1 NDir Hd (Hpre r1 (y :: r2) eq_refl Hr1 ltac:(done))). }
    rewrite decide_False by done. split; [done|]. cbn. apply list_elem_of_In, filter_In.
    split; [by apply list_elem_of_In|]. apply orb_true_iff. left. apply negb_true_iff, not_true_iff_false. by rewrite under_spec.
Qed.

Lemma kernel_Unlink p k : kernel_inv k → wp (Kernel_Unlink p) (λ r k', kernel_inv k' ∧
  match r with
  | Ok _ => kview k' p = None ∧ ∀ q, q ≠ p → kview k' q = kview k q
  | Err _ => kview k' = kview k
  end) k.
Proof.
  intros Hk. unfold wp, Kernel_Unlink, osLstat. destruct (get p (tree k)) as [[| |dest]|] eqn:Ep; try done. cbn [fst snd].
  set (k' := set_tree _ _). assert (∀ q, get q (tree k') = if decide (p = q) then None else get q (tree k)) as Hg.
  { intros q. cbn. rewrite get_del, path_eqb_decide.
    destruct (decide (p = q)); [by rewrite bool_decide_eq_true_2|by rewrite bool_decide_eq_false_2]. }
  split; [|split; [unfold kview; rewrite Hg; by rewrite decide_True|intros q Hq; unfold kview; rewrite Hg; by rewrite decide_False]].
  split.
  - intros q x. rewrite !Hg. destruct (decide (p = q ++ [x])); [done|]. intros Hx%(ki_tree _ Hk).
    rewrite decide_False; [done|congruence].
  - intros q n. rewrite Hg. destruct (decide _); [done|]. apply (ki_plain _ Hk).
  - intros d r m. rewrite !Hg. destruct (decide (p = d)); [done|]. intros Hd Hin.
    destruct (ki_defaults _ Hk d r m Hd Hin) as [Hkd Ha]. rewrite decide_False; [done|]. intros Heq. rewrite <- Heq, Ep in Hkd.
    destruct (populate_entry _ _ _ Hin) as (_&_&_&_&Hl). destruct m; (done || by eapply Hl).
Qed.

(** Reads. *)
Lemma kernel_Lstat p k : kernel_inv k → wp (Kernel_Lstat p) (λ r k', kernel_inv k' ∧ kview k' = kview k ∧
  match r with Ok kd => kind_of <$> kview k p = Some kd | Err e => IsNotExist e = true → kview k p = None end) k.
Proof.
  intros Hk. split_and!; [done|done|]. unfold Kernel_Lstat, osLstat, kview. cbn. by destruct (get p (tree k)).
Qed.
Lemma kernel_ReadFile p k : kernel_inv k → wp (Kernel_ReadFile p) (λ r k', kernel_inv k' ∧ kview k' = kview k ∧
  match r with Ok s => kview k p = Some (NAttr s) | Err e => IsNotExist e = true → kview k p = None end) k.
Proof.
  intros Hk. unfold wp, Kernel_ReadFile. destruct (bool_decide _); [done|]. split_and!; [done|done|].
  unfold osReadFile, kview. cbn. by destruct (get p (tree k)) as [[]|].
Qed.
Lemma kernel_Readlink p k : kernel_inv k → wp (Kernel_Readlink p) (λ r k', kernel_inv k' ∧ kview k' = kview k ∧
  match r with Ok s => kview k p = Some (NLink s) | Err e => IsNotExist e = true → kview k p = None end) k.
Proof.
  intros Hk. split_and!; [done|done|]. unfold Kernel_Readlink, osLstat, kview. cbn. by destruct (get p (tree k)) as [[]|].
Qed.

Lemma children_spec p m x : x ∈ children p m ↔ ∃ n, (p ++ [x], n) ∈ m.
Proof.
  unfold children. rewrite list_elem_of_omap. split.
  - intros ([q n]&Hin&Hq). cbn in Hq. destruct (rev q) as [|y d] eqn:E; [done|]. destruct (path_eqb p (rev d)) eqn:Ep; [|done].
    apply path_eqb_spec in Ep as ->. injection Hq as ->. exists n. rewrite <- (rev_involutive q), E in Hin. done.
  - intros [n Hin]. exists (p ++ [x], n). split; [done|]. cbn [fst]. rewrite rev_app_distr. cbn. by rewrite rev_involutive, path_eqb_refl.
Qed.

Lemma kernel_ReadDir p k : kernel_inv k → wp (Kernel_ReadDir p) (λ r k', kernel_inv k' ∧ kview k' = kview k ∧
  match r with
  | Ok es =>
      kview k p = Some NDir ∧
      (∀ name kd, (name, kd) ∈ es ↔ plain_name name = true ∧ kind_of <$> kview k (p ++ [name]) = Some kd)
  | Err e => IsNotExist e = true → kview k p = None
  end) k.
Proof.
  intros Hk. split_and!; [done|done|]. unfold Kernel_ReadDir, osReadDir, kview. cbn [fst snd].
  destruct (get p (tree k)) as [[]|] eqn:Ep; [|done..]. split; [done|]. intros name kd. rewrite list_elem_of_omap.
  setoid_rewrite Sort_perm. setoid_rewrite children_spec. split.
  - intros (x&_&Hx). destruct (get (p ++ [x]) (tree k)) as [n|] eqn:E; [|done]. injection Hx as -> <-.
    apply (ki_plain _ Hk) in E as Hpl. rewrite E. split; [|done]. rewrite forallb_app in Hpl. apply andb_true_iff in Hpl as [_ Hpl].
    cbn in Hpl. by rewrite andb_true_r in Hpl.
  - intros [_ Hkd]. destruct (get (p ++ [name]) (tree k)) as [n|] eqn:E; [|done]. injection Hkd as <-.
    exists name. split; [exists n; by apply get_elem|]. by rewrite E.
Qed.

(** ** Link targets *)

Lemma plain_slash e : plain_name e = true → "/"%char ∉ bytes_of_string e.
Proof.
  unfold plain_name. intros [_ He]%andb_true_iff Hin%list_elem_of_In. rewrite forallb_forall in He. by apply He in Hin.
Qed.
Lemma plain_no_slash e : plain_name e = true → forallb (λ c, negb (Ascii.eqb c "/")) (bytes_of_string e) = true.
Proof. unfold plain_name. by intros [_ ?]%andb_true_iff. Qed.

Lemma Split_Join p : p ≠ [] → forallb plain_name p = true → Split "/" (Join "/" p) = p.
Proof.
  induction p as [|x p IH]; [done|]. intros _. cbn [forallb]. intros [Hx Hp]%andb_true_iff. destruct p as [|y p].
  - by apply Split_no_sep, plain_no_slash.
  - change (Join "/" (x :: y :: p)) with (x +:+ String "/" (Join "/" (y :: p))).
    rewrite Split_sep by (by apply plain_slash). by rewrite IH.
Qed.

Lemma clean_plain out p : forallb plain_name p = true → foldl (clean_step true) out p = rev p ++ out.
Proof.
  revert out. induction p as [|x p IH]; intros out; [done|]. cbn [forallb foldl]. intros [Hx Hp]%andb_true_iff.
  rewrite IH by done. cbn. rewrite <- app_assoc. f_equal. unfold plain_name in Hx.
  rewrite !andb_true_iff, !negb_true_iff in Hx. destruct Hx as [[[H1 H2] H3] _].
  unfold clean_step. by rewrite H1, H2, H3.
Qed.

Lemma resolve_path_string new p : forallb plain_name p = true → resolvedLinkTarget new (path_string p) = p.
Proof.
  intros Hp. unfold resolvedLinkTarget.
  assert (IsAbs (path_string p) = true) as -> by apply (HasPrefix_app "/").
  unfold joinp, path_string. change (Split "/" ("/" +:+ Join "/" p)) with ("" :: Split "/" (Join "/" p)).
  destruct p as [|x p]; [done|]. rewrite Split_Join by done.
  change (foldl (clean_step true) (rev []) ("" :: x :: p)) with (foldl (clean_step true) [] (x :: p)). rewrite clean_plain by done. by rewrite app_nil_r, rev_involutive.
Qed.

Lemma kernel_Symlink old new k : kernel_inv k → wp (Kernel_Symlink old new) (λ r k', kernel_inv k' ∧
  match r with
  | Ok _ =>
      kview k new = None ∧ (∃ s, kview k' new = Some (NLink s) ∧ resolvedLinkTarget new s = old) ∧
      (∀ q, q ≠ new → kind_of <$> kview k' q = kind_of <$> kview k q) ∧
      (∀ q, q ≠ new →
        (link_sets new q → (∃ x, kview k (removelast new ++ [x]) ≠ None) ∨ ∀ s, kview k q = Some (NAttr s) → TrimSpace s ≠ "-1") →
        kview k' q = kview k q)
  | Err _ => kview k' = kview k
  end) k.
Proof.
  intros Hk. unfold wp, Kernel_Symlink. cbv zeta. set (checked := if _ && _ then _ else _).
  assert (checked = Ok tt → forallb plain_name old = true) as Hold.
  { subst checked. destruct (_ && _).
    - unfold readTrim, osReadFile. destruct (get (old ++ ["enable"]) (tree k)) as [n|] eqn:E; [|done].
      intros _. apply (ki_plain _ Hk) in E. rewrite forallb_app in E. by apply andb_true_iff in E as [].
    - destruct (_ && _); [|done]. destruct (get old (tree k)) as [n|] eqn:E; [|done]. intros _. by apply (ki_plain _ Hk) in E. }
  destruct checked as [[]|e]; [specialize (Hold eq_refl)|done]. destruct (osReadDir (dirp new) k) as [l|]; [|done].
  destruct (existsb _ l); [done|]. unfold osSymlink. destruct (forallb plain_name new) eqn:Hpl; [|done]. cbn [negb].
  destruct (get new (tree k)) as [n|] eqn:En; [done|]. destruct (get (dirp new) (tree k)) as [[]|] eqn:Ed; [|done..].
  cbn [fst snd]. set (k' := set_tree _ _).
  assert (∀ q, q ≠ new → get q (tree k') = get q (tree k)) as Hne by (intros; by apply entry_set_ne).
  assert (get new (tree k') = Some (NLink (path_string old))) as Hnew by apply entry_set_eq.
  assert (∃ d x, new = d ++ [x] ∧ get d (tree k) = Some NDir) as (d0&x0&Hn0&Hd0) by by apply p_snoc.
  assert (∀ q n, get q (tree k) = Some n → get q (tree k') = Some n) as Hkeep by (intros q n Hq; rewrite Hne; congruence).
  split; [|split_and!; [done|eexists; split; [exact Hnew|by apply resolve_path_string]|intros q Hq; f_equal; by apply Hne|intros q Hq _; by apply Hne]]. split.
  - intros q x Hx. destruct (decide (q ++ [x] = new)) as [Heq|Hq].
    + rewrite Hn0 in Heq. apply app_inj_tail in Heq as [-> _]. by apply Hkeep.
    + rewrite Hne in Hx by done. by apply Hkeep, (ki_tree _ Hk _ x).
  - intros q n. destruct (decide (q = new)) as [->|Hq]; [done|]. rewrite Hne by done. apply (ki_plain _ Hk).
  - intros d r m Hd Hin. destruct (decide (d = new)) as [->|Hq]; [congruence|]. rewrite Hne in Hd by done.
    destruct (ki_defaults _ Hk d r m Hd Hin) as [Hkd Ha]. split; [|done]. rewrite Hne; [done|].
    intros Heq. rewrite Heq, En in Hkd. done.
Qed.

(** ** Attribute writes *)

Lemma basep_snoc p x : basep p = x → x ≠ "/" → p = dirp p ++ [x].
Proof.
  intros Hb Hx. destruct p as [|y p _] using rev_ind; [by cbn in Hb|]. unfold basep in Hb. rewrite last_snoc in Hb.
  unfold dirp. rewrite removelast_last. cbn in Hb. congruence.
Qed.

Lemma fileText_trim s : attr_text (TrimSpace s +:+ newline) = TrimSpace s.
Proof.
  unfold attr_text, trimRightNUL, newline. set (c := Ascii.Ascii _ _ _ _ _ _ _ _). rewrite rev_string_last.
  change (trimLeftNUL (String c (rev_string (TrimSpace s)))) with (String c (rev_string (TrimSpace s))).
  rewrite rev_string_snoc, rev_string_involutive. by apply TrimSpace_newline.
Qed.

(** What a write of [v] to [p] may have done. *)
Record wrote (p : path) (v : string) (k k' : Kernel) : Prop := {
  w_root : Root k' = Root k;
  w_auto : auto k' = auto k;
  w_out q : q ≠ p → ¬ derived p q → get q (tree k') = get q (tree k);
  w_kind q : kind_of <$> get q (tree k') = kind_of <$> get q (tree k);
  w_on : is_enable p → get p (tree k') = get p (tree k) ∨ get p (tree k') = Some (fileText (TrimSpace v));
}.

Lemma wrote_refl p v k : wrote p v k k.
Proof. split; auto. Qed.

Lemma put_wrote p v q w k :
  (q = p ∧ (is_enable p → w = TrimSpace v)) ∨ (derived p q ∧ q ≠ p) → wrote p v k (put q w k).2.
Proof.
  intros Hq. unfold put. destruct (get q (tree k)) as [[|s|]|] eqn:E; [apply wrote_refl| |apply wrote_refl..].
  cbn [snd]. set (k' := set_tree _ _). split; [done|done| | |].
  - intros q' Hp Hd. cbn. apply entry_set_ne. intros ->. by destruct Hq as [[-> _]|[? _]].
  - intros q'. cbn. rewrite get_set. destruct (path_eqb q q') eqn:Eq; [|done].
    apply path_eqb_spec in Eq as <-. by rewrite E.
  - intros Hen. cbn. rewrite get_set. destruct (path_eqb q p) eqn:Eq; [|by left]. right.
    apply path_eqb_spec in Eq as ->. destruct Hq as [[_ Hw]|[_ ?]]; [by rewrite Hw|done].
Qed.

Lemma put_self p v w k : (is_enable p → w = TrimSpace v) → wrote p v k (put p w k).2.
Proof. intros Hw. apply put_wrote. by left. Qed.

Lemma isBool_plain (value : string) : isBool value = true → value = "0" ∨ value = "1".
Proof. unfold isBool. rewrite orb_true_iff, !bool_decide_eq_true. done. Qed.

Lemma wrote_trans p v k k1 k2 : wrote p v k k1 → (¬ is_enable p) → wrote p v k1 k2 → wrote p v k k2.
Proof.
  intros [R1 A1 O1 K1 _] Hen [R2 A2 O2 K2 _]. split; [congruence|congruence| | |done].
  - intros q Hq Hd. rewrite O2, O1; done.
  - intros q. by rewrite K2, K1.
Qed.

Lemma not_enable p x : p = dirp p ++ [x] → x ≠ "enable" → ¬ is_enable p.
Proof. intros Hp Hx [d Hd]. rewrite Hp in Hd. apply app_inj_tail in Hd as [_ ?]. congruence. Qed.

Lemma writeACLAuth_wrote p v k : wrote p v k (writeACLAuth p v k).2.
Proof.
  unfold writeACLAuth. destruct (containsb aclAuthStrings (basep p)) eqn:Ec; [cbn [negb]|apply wrote_refl].
  destruct (bool_decide (v = "")); [apply wrote_refl|]. destruct (256 <=? _)%nat; [apply wrote_refl|].
  apply containsb_true in Ec.
  assert (∃ x, p = dirp p ++ [x] ∧ x ≠ "enable" ∧ (x, "authenticate_target") ∈ derives ∧ x ≠ "authenticate_target") as (x&Hp&Hx&Hd&Hx').
  { assert (Forall (λ x, x ≠ "/" ∧ x ≠ "enable" ∧ (x, "authenticate_target") ∈ derives ∧ x ≠ "authenticate_target") aclAuthStrings) as HF
      by (apply (bool_decide_unpack _); vm_compute; done).
    rewrite Forall_forall in HF. destruct (HF _ Ec) as (H1&H2&H3&H4). exists (basep p). split; [by apply basep_snoc|done]. }
  pose proof (not_enable _ _ Hp Hx) as Hen. unfold mbind, M_bind.
  pose proof (put_self p v (Cut NULb v).1.1 k ltac:(done)) as H1. destruct (put p _ k) as [[[]|e] k1]; [|done]. cbn [snd] in H1.
  eapply wrote_trans; [exact H1|done|]. unfold syncAuthenticateTarget. apply put_wrote. right. split.
  - exists (dirp p), x, "authenticate_target". done.
  - rewrite Hp at 2. intros Heq%app_inj_tail. destruct Heq as [_ Heq]. congruence.
Qed.

Lemma control_wrote p v w k : basep p = "control" → wrote p v k (writeBackstoreControl p w k).2.
Proof.
  intros Hb. pose proof (basep_snoc _ _ Hb ltac:(done)) as Hp. unfold writeBackstoreControl.
  destruct (CutPrefix w _); [|apply wrote_refl]. destruct (bool_decide _); [apply wrote_refl|]. apply put_wrote. right. split.
  - exists (dirp p), "control", "info". split_and!; [done|done|]. by left.
  - rewrite Hp at 2. intros Heq%app_inj_tail. by destruct Heq.
Qed.

Lemma enable_wrote p v k : wrote p v k (writeBackstoreEnable p (TrimSpace v) k).2.
Proof.
  unfold writeBackstoreEnable. destruct (bool_decide (TrimSpace v = "1")) eqn:Ev; cbn [negb orb]; [|apply wrote_refl].
  destruct (bool_decide (infoDevice (dirp p) k = "")); [apply wrote_refl|].
  destruct (bool_decide (readTrim p k = "1")); [apply wrote_refl|]. destruct (_ || _); [apply wrote_refl|]. apply put_self. intros _.
  by apply bool_decide_eq_true in Ev.
Qed.

Lemma writeAttrLocked_wrote p v k : wrote p v k (writeAttrLocked p (TrimSpace v) k).2.
Proof.
  unfold writeAttrLocked, writeAttrHandoff. cbv zeta.
  destruct (bool_decide (basep p = "control")) eqn:Ec; [apply bool_decide_eq_true in Ec|]; rewrite ?andb_false_r.
  { destruct (bool_decide (classify (Root k) (dirp p) = kindBackstore)); cbn [andb]; [by apply control_wrote|].
    rewrite Ec. cbn. by apply put_self. }
  clear Ec. destruct (_ && _); [apply enable_wrote|].
  destruct (_ && _).
  { unfold writeEmulateTPU. destruct (negb _); [apply wrote_refl|]. destruct (bool_decide _); [|by apply put_self].
    destruct (negb _); [apply wrote_refl|]. destruct (containsb _ _); [apply wrote_refl|by apply put_self]. }
  destruct (bool_decide (basep p = "vpd_unit_serial")) eqn:Eu; cbn [andb].
  { apply bool_decide_eq_true in Eu. pose proof (not_enable _ _ (basep_snoc _ _ Eu ltac:(done)) ltac:(done)) as Hen.
    destruct (bool_decide (basep (dirp p) = "wwn")); [|rewrite Eu; cbn; by apply put_self].
    unfold writeUnitSerial. destruct (linkedTo _ k); [apply wrote_refl|by apply put_self]. }
  destruct (_ && _).
  { unfold putBool. destruct (negb _); [apply wrote_refl|by apply put_self]. }
  destruct (_ && _); [|by apply put_self].
  unfold writeAuthentication. destruct (_ && _); [by apply put_self|]. destruct (_ && _); [by apply put_self|apply wrote_refl].
Qed.

Lemma kernel_WriteFile p v k : kernel_inv k → wp (Kernel_WriteFile p v) (λ _ k', kernel_inv k' ∧
  (∀ q, q ≠ p → ¬ derived p q → kview k' q = kview k q) ∧
  (∀ q, kind_of <$> kview k' q = kind_of <$> kview k q) ∧
  (is_enable p → kview k' p = kview k p ∨ ∃ s, kview k' p = Some (NAttr s) ∧ attr_text s = TrimSpace v)) k.
Proof.
  intros Hk. assert (wrote p v k (Kernel_WriteFile p v k).2) as Hw.
  { unfold Kernel_WriteFile. destruct (injectedWrite p k); [apply wrote_refl|].
    destruct (isACLAuthAttr p k); [apply writeACLAuth_wrote|apply writeAttrLocked_wrote]. }
  unfold wp. destruct Hw as [HR HA HO HK HE]. destruct (Kernel_WriteFile p v k) as [r k']. cbn [snd fst] in *.
  split_and!; [by eapply kernel_inv_kinds|done|done|]. intros [|Hs]%HE; [by left|right].
  eexists. split; [exact Hs|apply fileText_trim].
Qed.

#[export] Instance Kernel_laws : FSLaws Kernel := {|
  view := kview; fs_inv := kernel_inv;
  law_tree := λ k p x Hk, ki_tree k Hk p x;
  law_Lstat := kernel_Lstat; law_ReadFile := kernel_ReadFile; law_Readlink := kernel_Readlink;
  law_ReadDir := kernel_ReadDir; law_Mkdir := kernel_Mkdir; law_Rmdir := kernel_Rmdir;
  law_WriteFile := kernel_WriteFile; law_Symlink := kernel_Symlink; law_Unlink := kernel_Unlink |}.

(** The claimer of the emulation only looks. *)
Lemma Claimer_looks d k : kernel_inv k → wp (Claimer d) (λ _ k', kernel_inv k' ∧ kview k' = kview k) k.
Proof. intros Hk. unfold wp, Claimer. by destruct (_ || _). Qed.

(** ** Fresh kernels *)

Lemma MkdirAll_other acc todo m q :
  (∀ s, s ≠ [] → s `prefix_of` todo → q ≠ acc ++ s) → get q (MkdirAll acc todo m) = get q m.
Proof.
  revert acc m. induction todo as [|x todo IH]; intros acc m Hq; cbn; [done|]. rewrite IH.
  - apply entry_set_ne, (Hq [x]); [done|]. apply prefix_cons, prefix_nil.
  - intros s Hs Hpre ->. apply (Hq (x :: s)); [done|by apply prefix_cons|]. by rewrite <- app_assoc.
Qed.
Lemma MkdirAll_made acc todo m s :
  s ≠ [] → s `prefix_of` todo → get (acc ++ s) (MkdirAll acc todo m) = Some NDir.
Proof.
  revert acc m s. induction todo as [|x todo IH]; intros acc m s Hs Hpre; [by apply prefix_nil_inv in Hpre|].
  destruct s as [|y s]; [done|]. pose proof (prefix_cons_inv_1 _ _ _ _ Hpre) as ->. apply prefix_cons_inv_2 in Hpre. cbn.
  destruct s as [|z s].
  - rewrite MkdirAll_other; [apply entry_set_eq|]. intros s Hs' _ Heq. rewrite <- (app_nil_r (acc ++ [x])) in Heq at 1.
    by apply app_inv_head in Heq.
  - change (acc ++ x :: z :: s) with (acc ++ [x] ++ z :: s). rewrite app_assoc. by apply IH.
Qed.

(** [MkdirAll] of a path makes it and its parents directories. *)
Lemma MkdirAll_root p m q :
  get [] m = Some NDir →
  get q (MkdirAll [] p m) = if decide (q `prefix_of` p) then Some NDir else get q m.
Proof.
  intros Hm. destruct (decide (q `prefix_of` p)) as [Hq|Hq].
  - destruct q as [|x q]; [|by apply (MkdirAll_made [] p m (x :: q))].
    rewrite MkdirAll_other; [done|]. by intros [].
  - apply MkdirAll_other. by intros s _ Hs ->.
Qed.

Lemma New_tree root q : get q (tree (New root)) = if decide (q `prefix_of` root ++ ["target"; "core"]) then Some NDir else None.
Proof.
  assert (∀ p (m : list (path * node)), get [] m = Some NDir → get [] (MkdirAll [] p m) = Some NDir) as H0.
  { intros p m Hm. rewrite MkdirAll_root by done. by destruct (decide _). }
  cbn. rewrite !MkdirAll_root by (by repeat apply H0).
  destruct (decide (q `prefix_of` root ++ ["target"; "core"])) as [|Hn]; [done|].
  rewrite (decide_False (P := q `prefix_of` root ++ ["target"])).
  - rewrite decide_False by (intros Hq; by apply Hn, prefix_app_r). cbn.
    destruct q as [|x q]; [exfalso; apply Hn, prefix_nil|done].
  - intros Hq. apply Hn. change ["target"; "core"] with (["target"] ++ ["core"]). rewrite app_assoc. by apply prefix_app_r.
Qed.

Lemma New_inv root : forallb plain_name root = true → kernel_inv (New root).
Proof.
  intros Hr. split.
  - intros p x. rewrite !New_tree. destruct (decide (p ++ [x] `prefix_of` _)) as [Hp|]; [intros _|done].
    rewrite decide_True; [done|]. etrans; [|exact Hp]. by apply prefix_app_r.
  - intros p n. rewrite New_tree. destruct (decide _) as [[s Hs]|]; [intros _|done].
    assert (forallb plain_name (p ++ s) = true) as Hps by (rewrite <- Hs, forallb_app, Hr; done).
    rewrite forallb_app in Hps. by apply andb_true_iff in Hps as [].
  - intros d r m. rewrite New_tree. destruct (decide (d `prefix_of` _)) as [Hd|]; [intros _|done].
    change (Root (New root)) with root. unfold classify. destruct (Rel root d) as [parts|] eqn:E; [|by intros ?%elem_of_nil].
    apply Rel_spec in E as ->. destruct Hd as [s Hs]. rewrite <- app_assoc in Hs. apply app_inv_head in Hs.
    destruct parts as [|a [|b [|c parts]]]; simplify_eq/=; by intros ?%elem_of_nil.
Qed.
