(* ===== verification/IscsiAgent.v ===== *)
(** * The iSCSI protocol handler (internal/agent/protocol_handler_iscsi.go)

    [ISCSIAgentHandler]'s Export, Unexport, AllowInitiator, DenyInitiator,
    SetLocalAttach and Reconcile: the LIO operations of one volume's target,
    each inside the volume's fenced section.  The agent's backend state is the
    kernel state [K].  Target locks order operations on one target; each
    operation is one computation here.  Of the per-item errors only the status
    or plain value is kept, as elsewhere; spans are not modelled.

    [WaitForDevice] (internal/agent/nvmeof/device_poll.go) polls the device
    node: [polls] bounds the probes before its context is done. *)
From stdpp Require Import base numbers list strings gmap.
From Stdlib Require Import Ascii.
From S2P Require Import Prelude GoStd GoNet FencingMark FencingStore Backend Fencing AgentServer.
From S2P Require Import LioFs LioTarget.
Open Scope Z_scope.

Definition iscsiVolumeRef : string := "0".

(** Results of a function applied to each element, in order. *)
Fixpoint map_each {W E A B} (f : A → M W E B) (l : list A) : M W E (list B) :=
  match l with
  | [] => mret []
  | x :: l => y ← f x; ys ← map_each f l; mret (y :: ys)
  end.

(** [iscsiEndpoint] *)
Definition iscsiEndpoint (protocolParams : ProtocolParams) : GoResult (string * Z) :=
  match GetIscsi protocolParams with
  | None => Err (EStatus InvalidArgument "iscsiEndpoint: iscsi export params required")
  | Some params =>
      let bindAddress := ip_BindAddress params in
      if bool_decide (ParseIP bindAddress = None) then
        Err (EStatus InvalidArgument "iscsiEndpoint: bind_address is not an IP address")
      else
        let port := if ip_Port params =? 0 then LioDefaultPort else ip_Port params in
        if (port <? 1) || (65535 <? port) then
          Err (EStatus InvalidArgument "iscsiEndpoint: port is out of range 1-65535")
        else Ok (bindAddress, port)
  end.

(** [iscsiCHAP] *)
Definition iscsiCHAP (protocolParams : ProtocolParams) (aclEnabled : bool) : GoResult (option CHAP) :=
  match GetIscsi protocolParams ≫= ip_Chap with
  | None => Ok None
  | Some params =>
      let chap := {| chap_Username := ic_Username params; chap_Password := ic_Password params;
                     chap_MutualUsername := ic_MutualUsername params;
                     chap_MutualPassword := ic_MutualPassword params |} in
      match chap_Validate chap with
      | Err _ => Err (EStatus InvalidArgument "CHAP credentials")
      | Ok _ =>
          if negb aclEnabled then Err (EStatus InvalidArgument "CHAP requires acl_enabled")
          else Ok (Some chap)
      end
  end.

(** [targetForVolume] of the handler: the target with its name only. *)
Definition volumeTarget (root volumeID : string) : GoResult Target :=
  iqn ← targetForVolume volumeID; Ok (bare_target root iqn).

Definition set_CHAP (t : Target) (chap : option CHAP) : Target := {|
  ConfigfsRoot := ConfigfsRoot t; IQN := IQN t; DevicePath := DevicePath t; BindAddress := BindAddress t;
  TPort := TPort t; ACLEnabled := ACLEnabled t; AllowedInitiators := AllowedInitiators t; UnitSerial := UnitSerial t;
  LocalAttach := LocalAttach t; TargetCHAP := chap |}.
Definition set_DevicePath (t : Target) (dev : string) : Target := {|
  ConfigfsRoot := ConfigfsRoot t; IQN := IQN t; DevicePath := dev; BindAddress := BindAddress t;
  TPort := TPort t; ACLEnabled := ACLEnabled t; AllowedInitiators := AllowedInitiators t; UnitSerial := UnitSerial t;
  LocalAttach := LocalAttach t; TargetCHAP := TargetCHAP t |}.

(** What the handler takes from the server for LIO: the device probe (none
    injected: the node's own), the number of probes, the claimer and its
    release, the unit serial. *)
Record IscsiDeps (K C : Type) := {
  deviceChecker : option (string → M K go_error bool);
  OsStatDeviceChecker : string → M K go_error bool;
  polls : nat;
  deviceClaimer : string → M K go_error C;
  releaseClaim : C → M K go_error unit;
  deriveUnitSerial : string → string;
}.
Arguments deviceChecker {K C}.
Arguments OsStatDeviceChecker {K C}.
Arguments polls {K C}.
Arguments deviceClaimer {K C}.
Arguments releaseClaim {K C}.
Arguments deriveUnitSerial {K C}.

(** [WaitForDevice] *)
Fixpoint WaitForDevice {K} (checker : string → M K go_error bool) (n : nat) (path : string) : M K go_error unit :=
  exists_ ← checker path;
  if exists_ : bool then mret tt
  else match n with
       | O => throw (EPlain "wait for device: timed out")
       | S n => WaitForDevice checker n path
       end.

Section Handler.
Context {K P C : Type} `{FS K} (s : Server K P) (deps : IscsiDeps K C).

Definition waitForDeviceReady (devicePath : string) : M K go_error unit :=
  let realConfigfs := bool_decide (configfsRoot s = "") || bool_decide (configfsRoot s = DefaultConfigfsRoot) in
  let injected := match deviceChecker deps with Some _ => true | None => false end in
  if negb realConfigfs && negb injected then mret tt
  else
    let checker := default (OsStatDeviceChecker deps) (deviceChecker deps) in
    map_err (λ _, EStatus FailedPrecondition "zvol device not ready") (WaitForDevice checker (polls deps) devicePath).

Definition resolveExportDevicePath (volumeID devicePath : string) : GoResult string :=
  if negb (bool_decide (devicePath = "")) then Ok devicePath
  else b ← backendFor s volumeID; Ok (be_DevicePath b volumeID).

Definition resolveISCSILocalDevicePath (volumeID : string) : GoResult string :=
  pool ← poolFromVolumeID volumeID;
  if (length (default [] (backendVariants s !! pool)) <=? 1)%nat then resolveExportDevicePath volumeID ""
  else
    b ← backendForType s volumeID BACKEND_TYPE_ZFS_ZVOL;
    _ ← checkBackendType BACKEND_TYPE_ZFS_ZVOL (be_Type b);
    let devicePath := be_DevicePath b volumeID in
    if bool_decide (devicePath = "") then Err (EStatus FailedPrecondition "SetLocalAttach: backend device path unavailable")
    else Ok devicePath.

Abbreviation LioApply := (Apply (deviceClaimer deps) (releaseClaim deps) (deriveUnitSerial deps)).
Abbreviation LioPrepare := (Prepare (deviceClaimer deps) (releaseClaim deps) (deriveUnitSerial deps)).
Abbreviation LioEnter := (EnterLocalAttach (deviceClaimer deps) (releaseClaim deps)).
Abbreviation LioLeave := (LeaveLocalAttach (deviceClaimer deps) (releaseClaim deps) (deriveUnitSerial deps)).

(** [ISCSIAgentHandler.Export] *)
Definition iscsi_Export (params : ExportParams P) : Agent K ExportResult :=
  endpoint ← lift (iscsiEndpoint (xp_ProtocolParams params));
  let '(bindAddress, port) := endpoint in
  devicePath ← lift (resolveExportDevicePath (xp_VolumeID params) (xp_DevicePath params));
  backend_op (waitForDeviceReady devicePath) ;;
  chap ← lift (iscsiCHAP (xp_ProtocolParams params) (xp_ACLEnabled params));
  target ← lift (volumeTarget (configfsRoot s) (xp_VolumeID params));
  let target := {|
    ConfigfsRoot := ConfigfsRoot target; IQN := IQN target; DevicePath := devicePath; BindAddress := bindAddress;
    TPort := port; ACLEnabled := xp_ACLEnabled params; AllowedInitiators := []; UnitSerial := "";
    LocalAttach := false; TargetCHAP := chap |} in
  fenced s (xp_VolumeID params) (xp_Fence params) fenceGrant tt (map_err iscsiStatus (LioApply target)) ;;
  mret {| xr_TargetID := IQN target; xr_Address := bindAddress; xr_Port := port; xr_VolumeRef := iscsiVolumeRef |}.

(** [ISCSIAgentHandler.Unexport] *)
Definition iscsi_Unexport : string → option FencingToken → Agent K unit :=
  iscsiUnexport s (λ iqn, Remove (bare_target (configfsRoot s) iqn)).

(** [ISCSIAgentHandler.AllowInitiator] *)
Definition iscsi_AllowInitiator (volumeID initiatorID : string) (protocolParams : ProtocolParams)
    (fence : option FencingToken) : Agent K unit :=
  map_err (λ _, EStatus InvalidArgument "AllowInitiator: initiator") (lift (ValidateIQN initiatorID)) ;;
  chap ← lift (iscsiCHAP protocolParams true);
  target ← lift (volumeTarget (configfsRoot s) volumeID);
  fenced s volumeID fence fenceGrant tt
    (map_err iscsiStatus (Target_AllowInitiator (set_CHAP target chap) initiatorID)).

(** [ISCSIAgentHandler.DenyInitiator] *)
Definition iscsi_DenyInitiator (volumeID initiatorID : string) (fence : option FencingToken) : Agent K unit :=
  map_err (λ _, EStatus InvalidArgument "DenyInitiator: initiator") (lift (ValidateIQN initiatorID)) ;;
  target ← lift (volumeTarget (configfsRoot s) volumeID);
  fenced s volumeID fence fenceRevoke tt (map_err iscsiStatus (Target_DenyInitiator target initiatorID)).

(** The closure of [SetLocalAttach]. *)
Definition setLocalAttach (volumeID : string) (target : Target) (local : bool) : M K go_error string :=
  if local then
    devicePath ← map_err iscsiStatus (LioEnter target);
    if decide (devicePath = "") then lift (resolveISCSILocalDevicePath volumeID) else mret devicePath
  else
    dev ← lift (resolveISCSILocalDevicePath volumeID);
    map_err iscsiStatus (LioLeave (set_DevicePath target dev)) ;;
    mret ""%string.

(** [ISCSIAgentHandler.SetLocalAttach] *)
Definition iscsi_SetLocalAttach (volumeID : string) (local : bool) (fence : option FencingToken) : Agent K string :=
  target ← lift (volumeTarget (configfsRoot s) volumeID);
  fenced s volumeID fence fenceGrant ""%string (setLocalAttach volumeID target local).

(** ** Reconcile *)

Definition reconcileTarget (export : ExportDesiredState P) : GoResult Target :=
  endpoint ← iscsiEndpoint (ds_ProtocolParams export);
  let '(bindAddress, port) := endpoint in
  devicePath ← resolveExportDevicePath (ds_VolumeID export) (ds_DevicePath export);
  target ← volumeTarget (configfsRoot s) (ds_VolumeID export);
  chap ← iscsiCHAP (ds_ProtocolParams export) (ds_ACLEnabled export);
  Ok {|
    ConfigfsRoot := ConfigfsRoot target; IQN := IQN target; DevicePath := devicePath; BindAddress := bindAddress;
    TPort := port; ACLEnabled := ds_ACLEnabled export;
    AllowedInitiators := if ds_ACLEnabled export then ds_AllowedInitiators export else [];
    UnitSerial := ""; LocalAttach := ds_LocalAttach export; TargetCHAP := chap |}.

Definition prepareTarget (target : Target) : M K go_error unit :=
  (if negb (LocalAttach target) then waitForDeviceReady (DevicePath target) else mret tt) ;;
  LioPrepare target ;;
  if ACLEnabled target then RevokeInitiatorsExcept target (AllowedInitiators target) else mret tt.

(** An entry on its way: the target, or the error that ended it. *)
Definition item : Type := ExportDesiredState P * GoResult Target.

Definition prepareItem (i : item) : Agent K item :=
  match i.2 with
  | Err _ => mret i
  | Ok target =>
      r ← try (fenced s (ds_VolumeID i.1) (ds_Fence i.1) fenceGrant tt (prepareTarget target));
      mret (i.1, match r with Ok _ => Ok target | Err e => Err e end)
  end.

Definition activateItem (i : item) : Agent K (option go_error) :=
  match i.2 with
  | Err e => mret (Some e)
  | Ok target =>
      r ← try (recheckFence s (ds_VolumeID i.1) (ds_Fence i.1) fenceGrant (Activate target));
      mret (match r with Ok _ => None | Err e => Some e end)
  end.

(** [ISCSIAgentHandler.Reconcile] *)
Definition iscsi_Reconcile (desired : list (ExportDesiredState P)) : Agent K (list (option go_error)) :=
  prepared ← map_each prepareItem (map (λ d, (d, reconcileTarget d)) desired);
  map_each activateItem prepared.

Definition iscsi_handler : AgentProtocolHandler K P := {|
  Export_ := iscsi_Export; Unexport := iscsi_Unexport; AllowInitiator := iscsi_AllowInitiator;
  DenyInitiator := iscsi_DenyInitiator; SetLocalAttach := iscsi_SetLocalAttach; Reconcile := iscsi_Reconcile |}.
End Handler.
