(* ===== verification/IscsiAgentCorrect.v ===== *)
(** * Correctness of the iSCSI protocol handler

    The handler composes the LIO operations with the fenced sections: stale
    requests never reach the kernel, volumes are isolated from each other, and
    a reconcile makes nothing reachable before everything is prepared. *)
From stdpp Require Import base numbers list strings gmap pretty relations.
From Stdlib Require Import Ascii.
From S2P Require Import Prelude GoStd GoNet FencingMark FencingStore Backend Fencing FencingCorrect.
From S2P Require Import AgentServer RecoveryAuth Recovery FencingTheorems AgentServerCorrect.
From S2P Require Import LioFs LioTarget LioLaws ConfigfsEffects LioCorrect LioTheorems LioServing IscsiAgent.
Open Scope Z_scope.

(** ** Fenced sections and the kernel *)
Section Agent.
Context {K P : Type} `{FSLaws K} (s : Server K P).
Implicit Types (w : world K) (v : string).

(** A section for a grant or a revocation fails without touching the kernel,
    or runs its closure once. *)
Lemma fenced_kernel {A} v token op (zero : A) mutate w r w' :
  disk_inv (w_disk w) → op ≠ fenceDestroy → fenced s v token op zero mutate w = (r, w') →
  disk_steps (w_disk w) (w_disk w') ∧
  ((∃ e, r = Err e) ∧ w_backend w' = w_backend w ∨ mutate (w_backend w) = (r, w_backend w')).
Proof.
  intros Hi Hop Hr. eapply wp_run in Hr; [|by apply fencedChecked_spec].
  split; [by eapply outcome_steps|].
  destruct Hr as [e w' [??] _|e w' [??] _|e w' [??] _|m r w' _ _ _ _ _ _ ? _ _ _
    |next e w' _ Hr|next w1 r w' _ _ _ Hr _ (Hb & _ & Hran)]; [by left; eauto..|done| |].
  - left. split; [eauto|]. by destruct Hr as [[]|[]].
  - right. rewrite (rp_backend _ _ _ _ Hr) in *. cbn in Hb, Hran.
    destruct (mutate (w_backend w)) as [r1 k1]. cbn in *. subst k1.
    rewrite bool_decide_eq_false_2 in Hran by done. cbn in Hran. by destruct r1, Hran as [-> _].
Qed.

Lemma recheck_kernel {A} v token op (mutate : M K go_error A) w r w' :
  disk_inv (w_disk w) → recheckFence s v token op mutate w = (r, w') →
  w_disk w' = w_disk w ∧ ((∃ e, r = Err e) ∧ w_backend w' = w_backend w ∨ mutate (w_backend w) = (r, w_backend w')).
Proof.
  intros Hi Hr. eapply wp_run in Hr; [|by apply recheckFence_spec]. destruct Hr as [Hd [(e&->&?&_)|(m&_&_&_&Hm)]].
  - split; [done|left]. eauto.
  - split; [done|by right].
Qed.

(** However it ends, [m] has at most the effect on the kernel. *)
Definition agent_does {A} (S : scope) (m : Agent K A) : Prop :=
  ∀ w r w', disk_inv (w_disk w) → fs_inv (w_backend w) → m w = (r, w') →
    disk_steps (w_disk w) (w_disk w') ∧ effect S (w_backend w) (w_backend w').

Lemma agent_does_ret {A} S (a : A) : agent_does S (mret a).
Proof. intros w r w' _ Hi [= <- <-]. split; [done|by apply effect_refl]. Qed.
Lemma agent_does_throw {A} S e : agent_does S (throw e : Agent K A).
Proof. intros w r w' _ Hi [= <- <-]. split; [done|by apply effect_refl]. Qed.
Lemma agent_does_lift {A} S (x : GoResult A) : agent_does S (lift x).
Proof. intros w r w' _ Hi [= <- <-]. split; [done|by apply effect_refl]. Qed.
Lemma agent_does_bind {A B} S (m : Agent K A) (f : A → Agent K B) :
  agent_does S m → (∀ a, agent_does S (f a)) → agent_does S (m ≫= f).
Proof.
  intros Hm Hf w r w' Hd Hi Hr. apply M_bind_inv in Hr as [(a&w1&H1&Hr)|(e&H1&->)]; [|by eapply Hm].
  destruct (Hm _ _ _ Hd Hi H1) as [Hs1 He1].
  destruct (Hf a w1 r w' ltac:(by eapply disk_steps_inv) (eff_inv _ _ _ He1) Hr) as [Hs2 He2].
  split; [by etrans|by eapply effect_trans].
Qed.
Lemma agent_does_map_err {A} S f (m : Agent K A) : agent_does S m → agent_does S (map_err f m).
Proof.
  intros Hm. unfold map_err. apply agent_does_bind.
  - intros w r w' Hd Hi Hr. unfold try in Hr. destruct (m w) as [r1 w1] eqn:E. injection Hr as _ <-. by eapply Hm.
  - intros [a|e]; [apply agent_does_ret|apply agent_does_throw].
Qed.
Lemma agent_does_backend {A} S (m : M K go_error A) : does S m → agent_does S (backend_op m).
Proof.
  intros Hm w r w' _ Hi Hr. unfold backend_op in Hr. destruct (m (w_backend w)) as [r1 k1] eqn:E. injection Hr as <- <-.
  split; [done|]. by eapply does_run.
Qed.
Lemma agent_does_fenced {A} S v token op (zero : A) mutate :
  op ≠ fenceDestroy → does S mutate → agent_does S (fenced s v token op zero mutate).
Proof.
  intros Hop Hm w r w' Hd Hi Hr. destruct (fenced_kernel _ _ _ _ _ _ _ _ Hd Hop Hr) as [Hs [[_ Hb]|Hb]]; (split; [done|]).
  - rewrite Hb. by apply effect_refl.
  - by eapply does_run.
Qed.
Lemma agent_does_recheck {A} S v token op (mutate : M K go_error A) :
  does S mutate → agent_does S (recheckFence s v token op mutate).
Proof.
  intros Hm w r w' Hd Hi Hr. destruct (recheck_kernel _ _ _ _ _ _ _ Hd Hr) as [Hs [[_ Hb]|Hb]]; rewrite Hs; (split; [done|]).
  - rewrite Hb. by apply effect_refl.
  - by eapply does_run.
Qed.

Lemma agent_does_try {A} S (m : Agent K A) : agent_does S m → agent_does S (try m).
Proof. intros Hm w r w' Hd Hi Hr. unfold try in Hr. destruct (m w) as [r1 w1] eqn:E. injection Hr as _ <-. by eapply Hm. Qed.
Lemma agent_does_map_each {A B} S (f : A → Agent K B) l : (∀ a, a ∈ l → agent_does S (f a)) → agent_does S (map_each f l).
Proof.
  induction l as [|a l IH]; intros Hf; cbn; [apply agent_does_ret|].
  apply agent_does_bind; [apply Hf; by left|]. intros y. apply agent_does_bind; [|intros; apply agent_does_ret].
  apply IH. intros. apply Hf. by right.
Qed.
Lemma agent_does_mono {A} S S' (m : Agent K A) : sub_scope S S' → agent_does S m → agent_does S' m.
Proof. intros HS Hm w r w' Hd Hi Hr. destruct (Hm _ _ _ Hd Hi Hr). split; [done|by eapply effect_mono]. Qed.

Lemma does_map_err {A} S f (m : M K go_error A) : does S m → does S (map_err f m).
Proof. intros Hm. unfold map_err. apply does_bind; [by apply does_try|]. intros [a|e]; auto with does. Qed.
End Agent.

(** ** The targets of volumes *)

Definition no_slash (x : string) : bool := forallb (λ c, negb (Ascii.eqb c "/")) (bytes_of_string x).

Lemma ReplaceAll_no_slash v : no_slash (ReplaceAll "/" "." v) = true.
Proof.
  induction v as [|c v IH]; [done|]. cbn [ReplaceAll].
  assert (∀ x y, no_slash (String x y) = negb (Ascii.eqb x "/") && no_slash y) as HS by done. rewrite HS, IH, andb_true_r.
  destruct (Ascii.eqb c "/") eqn:E; [done|by rewrite E].
Qed.
Lemma no_slash_app a b : no_slash (a +:+ b) = no_slash a && no_slash b.
Proof. unfold no_slash. by rewrite bytes_of_string_app, forallb_app. Qed.

(** The one volume ID whose backstore name would not be a file name. *)
Lemma backstore_name v pool : poolFromVolumeID v = Ok pool → v ≠ "./" → plain_name (ReplaceAll "/" "." v) = true.
Proof.
  unfold poolFromVolumeID. destruct (Cut "/" v) as [[p rest] found] eqn:Ec.
  destruct (negb found || _) eqn:Ef; [done|]. apply orb_false_iff in Ef as [->%negb_false_iff Hp%bool_decide_eq_false].
  intros _ Hv. pose proof (ReplaceAll_no_slash v) as Hn. unfold no_slash in Hn. unfold plain_name.
  rewrite Hn, andb_true_r, !andb_true_iff, !negb_true_iff, !bool_decide_eq_false. clear Hn.
  destruct v as [|c1 v]; [done|]. cbn [Cut] in Ec. cbn [ReplaceAll]. destruct (Ascii.eqb c1 "/") eqn:E1; [by injection Ec; intros; subst|].
  split_and!; [done| |].
  - intros [= -> Hr]. destruct v as [|c2 v]; [cbn in Ec; simplify_eq|done].
  - intros [= -> Hr]. destruct v as [|c2 v]; [done|]. cbn [ReplaceAll] in Hr. injection Hr as Hc Hr.
    destruct v as [|c3 v]; [|done]. destruct (Ascii.eqb c2 "/") eqn:E2.
    + apply Ascii.eqb_eq in E2. by subst.
    + subst c2. cbn in Ec. simplify_eq.
Qed.

Lemma volumeTarget_inv root v t : volumeTarget root v = Ok t →
  ∃ pool, poolFromVolumeID v = Ok pool ∧ t = bare_target root (OwnedIQNPrefix +:+ ReplaceAll "/" "." v).
Proof.
  unfold volumeTarget, targetForVolume. destruct (poolFromVolumeID v) as [pool|] eqn:Ep; [|done]. cbn -[Nat.ltb].
  destruct (Nat.ltb _ _); [done|]. intros [= <-]. by exists pool.
Qed.

Lemma TrimPrefix_app p x : TrimPrefix (p +:+ x) p = x.
Proof. unfold TrimPrefix. by rewrite HasPrefix_app, drop_string_app. Qed.

Lemma volumeTarget_wf root v t t' : volumeTarget root v = Ok t → v ≠ "./" → IQN t' = IQN t → wf_target t'.
Proof.
  intros (pool&Hp&->)%volumeTarget_inv Hv HI. pose proof (backstore_name _ _ Hp Hv) as Hn. cbn in HI.
  split; rewrite HI.
  - unfold plain_name. fold (no_slash (OwnedIQNPrefix +:+ ReplaceAll "/" "." v)).
    by rewrite no_slash_app, ReplaceAll_no_slash.
  - unfold BackstoreNameForIQN. by rewrite TrimPrefix_app.
Qed.

Lemma volumeTarget_root root v t : volumeTarget root v = Ok t → ConfigfsRoot t = root.
Proof. by intros (pool&_&->)%volumeTarget_inv. Qed.

Lemma volumeTarget_owned root v t : volumeTarget root v = Ok t → HasPrefix (IQN t) OwnedIQNPrefix = true.
Proof. intros (pool&_&->)%volumeTarget_inv. apply HasPrefix_app. Qed.

Lemma volumeTarget_apart root v v2 t t2 :
  volumeTarget root v = Ok t → volumeTarget root v2 = Ok t2 → IQN t ≠ IQN t2 → apart t t2.
Proof.
  intros Ht Ht2 Hne. split; [|by eapply volumeTarget_owned..|done].
  by rewrite (volumeTarget_root _ _ _ Ht), (volumeTarget_root _ _ _ Ht2).
Qed.

(** Volume IDs of one pool and one name, the pool without a dot. *)
Definition simple_id (v : string) : Prop :=
  ∃ pool name, v = pool +:+ String "/" name ∧ no_char "." pool = true ∧ no_char "/" pool = true ∧ no_char "/" name = true.
(** Two volumes do not share a target: they have two names for it, as two
    different volumes with simple IDs always do. *)
Definition own_targets (v v2 : string) (t t2 : Target) : Prop :=
  IQN t ≠ IQN t2 ∨ v ≠ v2 ∧ simple_id v ∧ simple_id v2.
Lemma own_targets_iqn root v v2 t t2 :
  volumeTarget root v = Ok t → volumeTarget root v2 = Ok t2 → own_targets v v2 t t2 → IQN t ≠ IQN t2.
Proof.
  intros (?&_&->)%volumeTarget_inv (?&_&->)%volumeTarget_inv [|(Hne&(p&n&->&?&?&?)&(p2&n2&->&?&?&?))]; [done|]. cbn [IQN bare_target].
  intros [-> ->]%string_app_inj_l%targetSuffix_inj; done.
Qed.

(** ** Calls *)
Section Calls.
Context {K P C : Type} `{FSLaws K} (s : Server K P) (deps : IscsiDeps K C).
Implicit Types (w : world K) (v : string).

(** The claimer opens a device exclusively and closes it again; the checkers
    stat it. *)
Class DepsLook : Prop := {
  dl_claim d : looks (deviceClaimer deps d);
  dl_release c : looks (releaseClaim deps c);
  dl_check c d : deviceChecker deps = Some c → looks (c d);
  dl_stat d : looks (OsStatDeviceChecker deps d);
}.
Context {Hdeps : DepsLook}.

Lemma looks_bind {A B} (m : M K go_error A) (f : A → M K go_error B) : looks m → (∀ a, looks (f a)) → looks (m ≫= f).
Proof.
  intros Hm Hf k Hi. eapply wp_call; [by apply Hm| |done]. intros a k1 [Hi1 Hv1].
  eapply wp_mono; [by apply Hf|]. intros r k2 [Hi2 Hv2]. split; [done|]. by rewrite Hv2.
Qed.
Lemma looks_ret {A} (a : A) : looks (mret a : M K go_error A).
Proof. intros k Hi. by apply wp_ret. Qed.
Lemma looks_throw {A} e : looks (throw e : M K go_error A).
Proof. intros k Hi. by apply wp_throw. Qed.

Lemma looks_WaitForDevice c n d : looks (c d) → looks (WaitForDevice c n d).
Proof.
  intros Hc. induction n as [|n IH]; cbn [WaitForDevice]; (apply looks_bind; [done|]); intros []; try apply looks_ret.
  - apply looks_throw.
  - done.
Qed.

Lemma looks_wait d : looks (waitForDeviceReady s deps d).
Proof using Hdeps.
  unfold waitForDeviceReady. cbv zeta. destruct (_ && _); [apply looks_ret|]. unfold map_err. apply looks_bind.
  - intros k Hi. apply wp_try. apply looks_WaitForDevice; [|done]. destruct (deviceChecker deps) eqn:E; [by apply dl_check|apply dl_stat].
  - intros [a|e]; [apply looks_ret|apply looks_throw].
Qed.

(** A call of the handler for one volume. *)
Inductive iscsi_call :=
| CExport (p : ExportParams P)
| CUnexport (v : string) (f : option FencingToken)
| CAllow (v i : string) (pp : ProtocolParams) (f : option FencingToken)
| CDeny (v i : string) (f : option FencingToken)
| CLocalAttach (v : string) (l : bool) (f : option FencingToken).

Definition call_volume (c : iscsi_call) : string :=
  match c with CExport p => xp_VolumeID p | CUnexport v _ | CAllow v _ _ _ | CDeny v _ _ | CLocalAttach v _ _ => v end.
Definition call_fence (c : iscsi_call) : option FencingToken :=
  match c with CExport p => xp_Fence p | CUnexport _ f | CAllow _ _ _ f | CDeny _ _ f | CLocalAttach _ _ f => f end.
Definition call_op (c : iscsi_call) : fenceOp :=
  match c with CUnexport _ _ | CDeny _ _ _ => fenceRevoke | _ => fenceGrant end.

Definition run_call (c : iscsi_call) : Agent K unit :=
  match c with
  | CExport p => iscsi_Export s deps p ;; mret tt
  | CUnexport v f => iscsi_Unexport s v f
  | CAllow v i pp f => iscsi_AllowInitiator s v i pp f
  | CDeny v i f => iscsi_DenyInitiator s v i f
  | CLocalAttach v l f => iscsi_SetLocalAttach s deps v l f ;; mret tt
  end.

(** Refused before the fenced section: nothing but looking happened. *)
Definition looked w w' : Prop :=
  w_disk w' = w_disk w ∧ fs_inv (w_backend w') ∧ view (w_backend w') = view (w_backend w).

(** The fenced section of a call, on the volume's target. *)
Definition section_of c w (r : GoResult unit) w' : Prop :=
  ∃ t A (zero : A) mutate r1, volumeTarget (configfsRoot s) (call_volume c) = Ok t ∧
    (wf_target t → does (own_scope t) mutate) ∧
    fenced s (call_volume c) (call_fence c) (call_op c) zero mutate w = (r1, w') ∧ err_of r1 = err_of r.

Lemma bind_ret_run {A} (m : Agent K A) w r w' :
  (m ;; mret tt) w = (r, w') → ∃ r1, m w = (r1, w') ∧ r = (match r1 with Ok _ => Ok tt | Err e => Err e end).
Proof. intros Hr. apply M_bind_inv in Hr as [(a&w1&H1&Hr)|(e&H1&->)]; [injection Hr as <- <-|]; eauto. Qed.

Lemma look_backend d w r w' : fs_inv (w_backend w) → backend_op (waitForDeviceReady s deps d) w = (r, w') → looked w w'.
Proof using Hdeps.
  intros Hi Hr. unfold backend_op in Hr. destruct (waitForDeviceReady s deps d (w_backend w)) as [r1 k1] eqn:E. injection Hr as <- <-.
  pose proof (wp_run _ _ _ _ _ (looks_wait d _ Hi) E) as [??]. done.
Qed.

Lemma lio_does o t t' : wf_target t → ConfigfsRoot t' = ConfigfsRoot t ∧ IQN t' = IQN t →
  does (own_scope t) (run_lio (deviceClaimer deps) (releaseClaim deps) (deriveUnitSerial deps) o t').
Proof using Hdeps.
  intros Hwf [HR HI]. assert (wf_target t') by (destruct Hwf; split; by rewrite HI).
  assert (own_scope t = own_scope t') as ->.
  { unfold own_scope, own, backstoreEnable, tpgEnable, tpgDir, BackstoreDir, targetDir, iscsiDir, hbaDir, cfsTargetDir, rootPath.
    by rewrite HR, HI. }
  apply run_lio_does; [apply dl_claim|apply dl_release|done].
Qed.

Lemma section_intro c t {A} (zero : A) mutate w r1 r w' :
  volumeTarget (configfsRoot s) (call_volume c) = Ok t →
  fenced s (call_volume c) (call_fence c) (call_op c) zero mutate w = (r1, w') →
  (wf_target t → does (own_scope t) mutate) → err_of r1 = err_of r → section_of c w r w'.
Proof. intros Ht Hf Hd Hr. by exists t, A, zero, mutate, r1. Qed.

Lemma validated_run {A} f (x : GoResult unit) (m : Agent K A) w r w' :
  (map_err f (lift x) ;; m) w = (r, w') → (∃ e, r = Err e) ∧ w' = w ∨ m w = (r, w').
Proof. intros Hr. destruct x as [[]|e]; [by right|left]. injection Hr as <- <-. eauto. Qed.

Lemma does_setLocalAttach v t l : wf_target t → does (own_scope t) (setLocalAttach s deps v t l).
Proof using Hdeps.
  intros Hwf. unfold setLocalAttach. destruct l.
  - apply does_bind.
    + apply does_map_err. pose proof (own_scope_serves t) as [_ _ HMt [_ _ _ HMb _]].
      apply (does_EnterLocalAttach _ _ (dl_claim) (dl_release) t); done.
    + intros dev. case_decide; [apply does_lift|apply does_ret].
  - apply does_bind; [apply does_lift|]. intros dev. apply does_bind; [|intros; apply does_ret]. apply does_map_err.
    exact (lio_does LLeaveLocalAttach t (set_DevicePath t dev) Hwf (conj eq_refl eq_refl)).
Qed.

Lemma call_shape c w r w' :
  fs_inv (w_backend w) → run_call c w = (r, w') →
  (∃ e, r = Err e) ∧ looked w w' ∨ ∃ w1, looked w w1 ∧ section_of c w1 r w'.
Proof using Hdeps.
  intros Hi Hr. assert (looked w w) as Hw by done. destruct c as [p|v f|v i pp f|v i f|v l f]; cbn [run_call] in Hr.
  - apply bind_ret_run in Hr as (r1&Hr&->). unfold iscsi_Export in Hr. rewrite run_lift in Hr.
    destruct (iscsiEndpoint _) as [[bind port]|]; [|left; simplify_eq; eauto]. rewrite run_lift in Hr.
    destruct (resolveExportDevicePath s _ _) as [dev|]; [|left; simplify_eq; eauto].
    apply M_bind_inv in Hr as [([]&w1&H1&Hr)|(e&H1&->)]; [|left; split; [eauto|]; by eapply look_backend].
    pose proof (look_backend _ _ _ _ Hi H1) as Hl. rewrite run_lift in Hr.
    destruct (iscsiCHAP _ _) as [chap|]; [|left; simplify_eq; eauto]. rewrite run_lift in Hr.
    destruct (volumeTarget _ _) as [t|] eqn:Et; [|left; simplify_eq; eauto]. right. exists w1. split; [done|].
    apply M_bind_inv in Hr as [([]&w2&H2&Hr)|(e&H2&->)]; [injection Hr as <- <-|];
      (eapply section_intro; [exact Et|exact H2| |done]); intros Hwf; apply does_map_err; by apply (lio_does LApply t (Build_Target _ _ _ _ _ _ _ _ _ _) Hwf).
  - unfold iscsi_Unexport, iscsiUnexport in Hr. rewrite run_lift in Hr.
    destruct (targetForVolume v) as [iqn|] eqn:Et; [|left; simplify_eq; eauto]. right. exists w. split; [done|].
    eapply (section_intro _ (bare_target (configfsRoot s) iqn)); [unfold volumeTarget; cbn; by rewrite Et|exact Hr| |done].
    intros Hwf. apply does_map_err. exact (lio_does LRemove _ _ Hwf (conj eq_refl eq_refl)).
  - unfold iscsi_AllowInitiator in Hr. apply validated_run in Hr as [[He ->]|Hr]; [by left|]. rewrite run_lift in Hr.
    destruct (iscsiCHAP _ _) as [chap|]; [|left; simplify_eq; eauto]. rewrite run_lift in Hr.
    destruct (volumeTarget _ _) as [t|] eqn:Et; [|left; simplify_eq; eauto]. right. exists w. split; [done|].
    eapply section_intro; [exact Et|exact Hr| |done]. intros Hwf. apply does_map_err.
    exact (lio_does (LAllow i) t (set_CHAP t chap) Hwf (conj eq_refl eq_refl)).
  - unfold iscsi_DenyInitiator in Hr. apply validated_run in Hr as [[He ->]|Hr]; [by left|]. rewrite run_lift in Hr.
    destruct (volumeTarget _ _) as [t|] eqn:Et; [|left; simplify_eq; eauto]. right. exists w. split; [done|].
    eapply section_intro; [exact Et|exact Hr| |done]. intros Hwf. apply does_map_err.
    exact (lio_does (LDeny i) t t Hwf (conj eq_refl eq_refl)).
  - apply bind_ret_run in Hr as (r1&Hr&->). unfold iscsi_SetLocalAttach in Hr. rewrite run_lift in Hr.
    destruct (volumeTarget _ _) as [t|] eqn:Et; [|left; simplify_eq; eauto]. right. exists w. split; [done|].
    eapply section_intro; [exact Et|exact Hr| |by destruct r1]. intros Hwf. by apply does_setLocalAttach.
Qed.

Lemma looked_effect S w w' : looked w w' → effect S (w_backend w) (w_backend w').
Proof. intros (_&Hi&Hv). by apply effect_same. Qed.

Lemma call_op_live c : call_op c ≠ fenceDestroy.
Proof. by destruct c. Qed.

(** Whatever the outcome, a call has at most the effect of its volume's
    target on the kernel. *)
Lemma call_does c t : volumeTarget (configfsRoot s) (call_volume c) = Ok t → wf_target t →
  agent_does (own_scope t) (run_call c).
Proof using Hdeps.
  intros Ht Hwf w r w' Hd Hi Hr. destruct (call_shape _ _ _ _ Hi Hr) as [[_ Hl]|(w1&Hl&Hs)].
  - split; [by destruct Hl as [-> _]|by apply looked_effect].
  - destruct Hs as (t'&A&zero&mutate&r1&Ht'&Hdo&Hf&_). rewrite Ht in Ht'. injection Ht' as <-. destruct Hl as [Hd1 [Hi1 Hv1]].
    rewrite <- Hd1 in Hd.
    destruct (agent_does_fenced s _ _ _ _ zero _ (call_op_live c) (Hdo Hwf) _ _ _ Hd Hi1 Hf) as [Hs He].
    rewrite Hd1 in Hs. split; [done|]. eapply effect_trans; [|exact He]. by apply effect_same.
Qed.

(** C22: Whatever a request does for one volume, however it ends, the iSCSI
    exports of the volumes with another target stay exactly as they are in
    configfs, and none of their switches is turned on.  Different volumes have
    different targets when their IDs are of the form pool/name and no pool
    name has a dot; "./", whose backstore would be "..", is no volume. *)
Theorem iscsi_call_isolated c w r w' t v2 t2 q :
  disk_inv (w_disk w) → fs_inv (w_backend w) → run_call c w = (r, w') →
  volumeTarget (configfsRoot s) (call_volume c) = Ok t → volumeTarget (configfsRoot s) v2 = Ok t2 →
  call_volume c ≠ "./" → v2 ≠ "./" → own_targets (call_volume c) v2 t t2 → own t2 q →
  (present t2 (w_backend w) q → view (w_backend w') q = view (w_backend w) q) ∧
  (is_enable q → off (view (w_backend w)) q → off (view (w_backend w')) q).
Proof using Hdeps.
  intros Hd Hi Hr Ht Ht2 Hv Hv2 Hne%(own_targets_iqn _ _ _ _ _ Ht Ht2) Hq.
  pose proof (volumeTarget_wf _ _ _ t Ht Hv eq_refl) as Hwf. pose proof (volumeTarget_wf _ _ _ t2 Ht2 Hv2 eq_refl) as Hwf2.
  assert (apart t t2) as Ha by by eapply volumeTarget_apart.
  destruct (call_does c t Ht Hwf _ _ _ Hd Hi Hr) as [_ He]. split.
  - intros Hp. apply (effect_untouched _ _ _ _ He); [|by eapply stable_apart]. intros Ho. exact (own_apart t t2 q Ha Ho Hq).
  - intros Hen. apply (eff_off _ _ _ He); [done|]. intros Ho%enable_owned; [|done]. exact (own_apart t t2 q Ha Ho Hq).
Qed.

(** C21: Once a request was served, no request of the same lifecycle with an
    older generation ever reaches the kernel, whatever happens to the agent in
    between, crashes included: it is refused, and configfs stays as it is.  So
    an initiator that was denied or a target that was removed is not brought
    back by a delayed grant or export. *)
Theorem stale_call_never_applied c1 c2 uid g1 g2 w1 w1' w2 r2 w2' :
  disk_inv (w_disk w1) → fs_inv (w_backend w1) → run_call c1 w1 = (Ok tt, w1') →
  call_fence c1 = Some {| VolumeUid := uid; TokenGeneration := g1 |} →
  rtc (agent_step s) w1' w2 → fs_inv (w_backend w2) → run_call c2 w2 = (r2, w2') →
  call_volume c2 = call_volume c1 → call_fence c2 = Some {| VolumeUid := uid; TokenGeneration := g2 |} → g2 < g1 →
  (∃ e, r2 = Err e) ∧ view (w_backend w2') = view (w_backend w2).
Proof using Hdeps.
  intros Hd1 Hi1 Hr1 Hf1 Hst Hi2 Hr2 Hv Hf2 Hg.
  destruct (call_shape _ _ _ _ Hi1 Hr1) as [[[e ?] _]|(w3&(Hd3&_&_)&(t&A&zero&mutate&[x1|]&_&_&Hfen&Hok))]; [done| |done].
  rewrite Hf1 in Hfen. rewrite <- Hd3 in Hd1.
  destruct (checked_ok_durable s _ _ _ _ _ _ _ _ _ _ Hfen Hd1) as (m & Hdur & Hu & Hgen & _).
  assert (disk_inv (w_disk w1')) as Hd1' by (eapply disk_steps_inv; [|exact Hd1]; by eapply fenced_run_steps; [by eapply run_checked|]).
  destruct (agent_steps_steps s _ _ Hst Hd1') as [_ Hs2].
  destruct (call_shape _ _ _ _ Hi2 Hr2) as [[He (_&_&?)]|(w4&(Hd4&_&Hv4)&(t2&A2&zero2&mutate2&x2&_&_&Hfen2&Hx))]; [done|].
  rewrite Hv, Hf2 in Hfen2. assert (refused (err_of x2) w4 w2') as (_&Hb&e&He&_).
  { eapply (dominated_later_rejected s _ _ _ (w_disk w1')); [done|exact Hdur|by rewrite Hd4| |by eapply run_checked].
    right. cbn in *. split; [done|lia]. }
  rewrite Hb, Hv4. split; [|done]. rewrite Hx in He. destruct r2; [done|eauto].
Qed.
End Calls.
