(* ===== verification/IscsiReconcile.v ===== *)
(** * Correctness of the iSCSI reconcile

    [Reconcile] restores the exports of many volumes after a restart.  Its two
    phases are followed through the list: every entry is prepared or has
    failed before the first target is switched on, and what holds of one
    entry's target is kept by the work on the others. *)
From stdpp Require Import base numbers list strings gmap pretty relations.
From Stdlib Require Import Ascii.
From S2P Require Import Prelude GoStd GoNet FencingMark FencingStore Backend Fencing FencingCorrect.
From S2P Require Import AgentServer RecoveryAuth Recovery FencingTheorems AgentServerCorrect.
From S2P Require Import LioFs LioTarget LioLaws ConfigfsEffects LioCorrect LioTheorems LioServing IscsiAgent IscsiAgentCorrect.
Open Scope Z_scope.

(** ** Loops that collect results *)
Section MapEach.
Context {W E A B : Type} (f : A → M W E B).

Lemma map_each_app l1 l2 w ys w' : map_each f (l1 ++ l2) w = (Ok ys, w') →
  ∃ ys1 ys2 w1, map_each f l1 w = (Ok ys1, w1) ∧ map_each f l2 w1 = (Ok ys2, w') ∧ ys = ys1 ++ ys2.
Proof.
  revert w ys. induction l1 as [|x l1 IH]; intros w ys Hr; [by exists [], ys, w|].
  cbn in Hr. minv. destruct (IH _ _ H0) as (ys1&ys2&w1&H1&H2&->).
  exists (x0 :: ys1), ys2, w1. split_and!; [|done|done]. cbn. unfold mbind, M_bind in *. by rewrite H, H1.
Qed.

Lemma map_each_length l w ys w' : map_each f l w = (Ok ys, w') → length ys = length l.
Proof. revert w ys. induction l as [|x l IH]; intros w ys Hr; cbn in Hr; minv; [done|]. cbn. f_equal. by eapply IH. Qed.
End MapEach.

(** ** What a target's directory tells *)
Section Agree.
Context {K : Type} `{FSLaws K} (t : Target) `{!wf_target t}.
Implicit Types (k : K) (q : path).

(** The same below the target's directory. *)
Definition agree k k' : Prop := ∀ q, targetDir t `prefix_of` q → view k' q = view k q.

Lemma agree_trans k k1 k2 : agree k k1 → agree k1 k2 → agree k k2.
Proof. intros H1 H2 q Hq. by rewrite H2, H1. Qed.

(** The initiators with an ACL are the allowed ones, each with the LUN. *)
Definition allowed_exactly k : Prop :=
  (LocalAttach t = false → ∀ n, n ∈ AllowedInitiators t → granted t k n) ∧
  (ACLEnabled t = true → ∀ n, plain_name n = true → view k (aclDir t n) = Some NDir → n ∈ AllowedInitiators t).

Definition ready k : Prop := access_policy t k ∧ allowed_exactly k.
Definition serving k : Prop :=
  if LocalAttach t then attr k (tpgEnable t) "0"
  else attr k (tpgEnable t) "1" ∧ guarded t k ∧ allowed_exactly k.

Lemma below_tpg s : targetDir t `prefix_of` tpgDir t ++ s.
Proof. rewrite (tpgDir_eq t), <- app_assoc. by apply prefix_app_r. Qed.
Lemma below_acl n s : plain_name n = true → targetDir t `prefix_of` aclDir t n ++ s.
Proof. intros Hn. rewrite aclDir_eq, <- app_assoc by done. by apply prefix_app_r. Qed.

Lemma agree_attr k k' p v : agree k k' → targetDir t `prefix_of` p → attr k p v → attr k' p v.
Proof. intros Ha Hp (x&Hx&?). exists x. by rewrite (Ha p Hp). Qed.
Lemma agree_secret k k' p v : agree k k' → targetDir t `prefix_of` p → secret k p v → secret k' p v.
Proof. intros Ha Hp (x&Hx&?). exists x. by rewrite (Ha p Hp). Qed.
Lemma agree_link k k' p q : agree k k' → targetDir t `prefix_of` p → link k p q → link k' p q.
Proof. intros Ha Hp (x&Hx&?). exists x. by rewrite (Ha p Hp). Qed.
Lemma agree_acl k k' n : agree k k' → plain_name n = true → view k' (aclDir t n) = view k (aclDir t n).
Proof. intros Ha Hn. apply Ha. rewrite <- (app_nil_r (aclDir t n)). by apply below_acl. Qed.

Lemma agree_acl_ok k k' n : agree k k' → plain_name n = true → acl_ok t k n → acl_ok t k' n.
Proof.
  intros Ha Hn [H1 H2]. split; [eapply agree_attr; [done|by apply below_acl|done]|].
  destruct (TargetCHAP t) as [c|]; [|done]. intros kv Hin.
  assert (targetDir t `prefix_of` (aclDir t n ++ ["auth"]) ++ [kv.1]) by (rewrite <- app_assoc; by apply below_acl).
  destruct (H2 kv Hin) as [Hs|[-> Hs]]; [left|right; split; [done|]]; by eapply agree_secret.
Qed.

Lemma agree_policy k k' : agree k k' → access_policy t k → access_policy t k'.
Proof.
  intros Ha [H1 H2]. split.
  - intros kv Hin. eapply agree_attr; [done| |by apply H1]. rewrite (attribDir_eq t), <- app_assoc. by apply prefix_app_r.
  - intros n Hn Hv. eapply agree_acl_ok; [done|done|]. apply H2; [done|]. by rewrite <- (agree_acl k k').
Qed.

Lemma agree_allowed k k' : (∀ n, n ∈ AllowedInitiators t → plain_name n = true) →
  agree k k' → allowed_exactly k → allowed_exactly k'.
Proof.
  intros Hp Ha [H1 H2]. split.
  - intros HL n Hn. destruct (H1 HL n Hn) as [Hd Hl]. split; [by rewrite (agree_acl k k') by auto|].
    eapply agree_link; [done| |done]. apply below_acl; auto.
  - intros HA n Hn Hv. apply H2; [done|done|]. by rewrite <- (agree_acl k k').
Qed.

Lemma agree_serving k k' : (∀ n, n ∈ AllowedInitiators t → plain_name n = true) →
  agree k k' → serving k → serving k'.
Proof.
  intros Hp Ha. assert (targetDir t `prefix_of` tpgEnable t) as Hen by (rewrite (tpgEnable_eq t); by apply prefix_app_r).
  unfold serving. destruct (LocalAttach t); [by apply agree_attr|].
  intros (H1&(Hpol&(n&Hn&Hb)&portal&Hport&Hop)&H3). unfold guarded. split_and!.
  - by eapply agree_attr.
  - by eapply agree_policy.
  - exists n. split; [done|]. eapply agree_link; [done| |done]. rewrite (lunDir_eq t), <- app_assoc. by apply prefix_app_r.
  - exists portal. split; [done|]. intros m Hm Hv. apply Hop; [done|]. rewrite <- (Ha _); [done|].
    rewrite (npDir_eq t), <- app_assoc. by apply prefix_app_r.
  - by eapply agree_allowed.
Qed.

(** With its policy in place the target is there. *)
Lemma law_above k p s : fs_inv k → view k (p ++ s) ≠ None → view k p ≠ None.
Proof.
  intros Hi. induction s as [|x s IH] using rev_ind; [by rewrite app_nil_r|]. rewrite app_assoc. intros Hv.
  apply IH. by rewrite (law_tree k (p ++ s) x).
Qed.
Lemma policy_there k : fs_inv k → access_policy t k → view k (targetDir t) = Some NDir.
Proof.
  intros Hi [Ht _]. assert (∃ kv, kv ∈ tpg_attrs t) as [kv Hin].
  { unfold tpg_attrs. destruct (ACLEnabled t); eexists; left. }
  destruct (Ht kv Hin) as (x&Hx&_). rewrite attribDir_eq, <- app_assoc in Hx by done. cbn in Hx.
  apply (law_tree k _ TPGName); [done|]. apply (law_above k _ ["attrib"; kv.1]); [done|].
  rewrite <- app_assoc. cbn. by rewrite Hx.
Qed.
Lemma serving_there k : fs_inv k → serving k → view k (targetDir t) = Some NDir.
Proof.
  intros Hi Hs. assert (∃ v, attr k (tpgEnable t) v) as (v&x&Hx&_) by (unfold serving in Hs; destruct (LocalAttach t); naive_solver).
  rewrite (tpgEnable_eq t) in Hx. apply (law_tree k _ TPGName); [done|]. apply (law_above k _ ["enable"]); [done|].
  rewrite <- app_assoc. cbn. by rewrite Hx.
Qed.
End Agree.

Section Reconcile.
Context {K P C : Type} `{FSLaws K} (s : Server K P) (deps : IscsiDeps K C) {Hdeps : DepsLook deps}.
Implicit Types (w : world K) (k : K) (t : Target) (d : ExportDesiredState P).

Abbreviation LioPrepare := (Prepare (deviceClaimer deps) (releaseClaim deps) (deriveUnitSerial deps)).

(** *** One target *)

Lemma revoked_keeps t `{!wf_target t} r k k' :
  fs_inv k → RevokeInitiatorsExcept t (AllowedInitiators t) k = (r, k') → access_policy t k →
  (∀ n, n ∈ AllowedInitiators t → plain_name n = true) →
  (r = Ok tt → access_policy t k') ∧ ∀ n, n ∈ AllowedInitiators t → granted t k n → granted t k' n.
Proof.
  intros Hi Hr [H1 H2] Hp. destruct (RevokeInitiatorsExcept_exact t _ _ _ _ Hi Hr) as [Hout Hleft].
  assert (∀ n q, plain_name n = true → containsb (AllowedInitiators t) n = true → aclDir t n `prefix_of` q →
    view k' q = view k q) as Hsame.
  { intros n q Hn Hk Hq. apply Hout. intros m Hm Hmq. rewrite aclDir_snoc in Hq, Hmq by done.
    by rewrite (prefix_snoc_eq _ _ _ _ Hmq Hq). }
  assert (∀ n, n ∈ AllowedInitiators t → containsb (AllowedInitiators t) n = true) as Hc
    by (intros; by apply containsb_true).
  split; [|].
  - intros Hok. split.
    + intros kv Hin. destruct (H1 kv Hin) as (x&Hx&?). exists x. rewrite Hout; [done|]. intros n Hn Hq. exfalso.
      rewrite aclDir_eq in Hq by done. target_paths t. path_split.
    + intros n Hn Hv. specialize (Hleft Hok n Hn Hv). specialize (Hsame n).
      rewrite Hsame in Hv by done. destruct (H2 n Hn Hv) as [Ha Hs]. split.
      * destruct Ha as (x&Hx&?). exists x. rewrite Hsame; [done|done|done|by apply prefix_app_r].
      * destruct (TargetCHAP t) as [c|]; [|done]. intros kv Hin.
        unfold secret. rewrite Hsame; [by apply Hs|done|done|]. rewrite <- app_assoc. by apply prefix_app_r.
  - intros n Hn [Hd (x&Hx&Hl)]. split; [by rewrite (Hsame n) by auto|].
    exists x. rewrite (Hsame n); [done|auto|auto|by apply prefix_app_r].
Qed.

(** Preparing touches the target's own entries and switches nothing but its
    backstore on. *)
Lemma does_prepareTarget t `{!wf_target t} : does (prepare_scope t) (prepareTarget s deps t).
Proof using Hdeps.
  unfold prepareTarget. apply does_bind; [|intros _; apply does_bind; [|intros _]].
  - destruct (negb _); [|apply does_ret]. by apply does_looks, looks_wait.
  - by apply does_Prepare; [apply dl_claim|apply dl_release|done|apply prepare_serves].
  - destruct (ACLEnabled t); [|apply does_ret]. apply does_RevokeInitiatorsExcept. intros. apply mods_acl; [done|].
    apply (sv_mods_target t _ (prepare_serves t)).
Qed.

Lemma prepare_sub t : sub_scope (prepare_scope t) (own_scope t).
Proof. split_and!; [done|done|]. by left. Qed.

Lemma prepareTarget_Ok t `{!wf_target t} k k' :
  fs_inv k → prepareTarget s deps t k = (Ok tt, k') →
  ready t k' ∧ ∀ n, n ∈ AllowedInitiators t → plain_name n = true.
Proof using Hdeps.
  intros Hi Hr. unfold prepareTarget in Hr. minv. destruct x, x1.
  assert (fs_inv x0) as Hi0.
  { destruct (negb _); minv; [|done]. by apply (wp_run _ _ _ _ _ (looks_wait s deps _ _ Hi) H1). }
  assert (∀ n, n ∈ AllowedInitiators t → plain_name n = true) as Hp.
  { unfold Prepare in H2. minv. destruct x. by apply (validate_initiators t). }
  split; [|done]. destruct (Prepare_Ok _ _ _ (dl_claim deps) (dl_release deps) t _ _ Hi0 H2) as [Hpol Hgr].
  destruct (ACLEnabled t) eqn:EA; minv; [|by split_and!; [done|split; [done|by rewrite EA]]].
  assert (fs_inv x2) as Hi2.
  { eapply eff_inv, does_run; [|exact Hi0|exact H2].
    by apply does_Prepare; [apply dl_claim|apply dl_release|done|apply (prepare_serves t)]. }
  destruct (revoked_keeps t _ _ _ Hi2 Hr Hpol Hp) as [Hpol' Hgr']. split; [auto|]. split; [auto|].
  intros _ n Hn Hv. apply containsb_true.
  by apply (RevokeInitiatorsExcept_exact t _ _ _ _ Hi2 Hr).
Qed.

Lemma Activate_Ok t `{!wf_target t} k k' :
  (∀ n, n ∈ AllowedInitiators t → plain_name n = true) →
  fs_inv k → ready t k → Activate t k = (Ok tt, k') → serving t k'.
Proof.
  intros Hp Hi [Hpol [Hgr Hex]] Hr. unfold serving. destruct (LocalAttach t) eqn:EL; [by eapply Activate_local|].
  destruct (Activate_run t _ _ _ Hi EL Hr) as [[_ [? ?]]|(portal&k1&Hport&He&Hop&Hb&Hen)]; [done|].
  pose proof (does_run _ _ _ _ _ (does_enable t) (eff_inv _ _ _ He) Hen) as He2. split_and!.
  - eapply ensureAttr_Ok; [apply He|done|exact Hen].
  - eapply (enable_keeps t); [exact He2|]. split_and!; [by eapply portal_keeps|done|eauto].
  - split.
    + intros _ n Hn. apply (enable_granted t k1); [auto|done|]. eapply portal_granted; eauto.
    + intros HA n Hn Hv. apply Hex; [done|done|]. apply (effect_dir _ _ _ _ He).
      { eapply (portal_still t k "acls" [n]); [done|]. by rewrite aclDir_eq. }
      apply (effect_dir _ _ _ _ He2); [|done]. eapply (enable_still t k1 "acls" [n]); [done..|]. by rewrite aclDir_eq.
Qed.

(** *** One entry *)

(** The entry's target, if it is still on its way, and what may be done for
    it. *)
Definition live (S : Target → scope) (S' : scope) (i : item (P := P)) : Prop :=
  ∀ t, i.2 = Ok t → wf_target t ∧ sub_scope (S t) S'.

Lemma does_prepareItem S i : live prepare_scope S i → agent_does S (prepareItem s deps i).
Proof using Hdeps.
  destruct i as [d [t|e]]; intros Hl; [|apply agent_does_ret]. destruct (Hl t eq_refl) as [Hwf HS].
  unfold prepareItem. cbn. apply agent_does_bind; [|intros; apply agent_does_ret].
  apply agent_does_try, agent_does_fenced; [done|]. eapply does_mono; [exact HS|by apply does_prepareTarget].
Qed.

Lemma does_activateItem S i : live own_scope S i → agent_does S (activateItem s i).
Proof.
  destruct i as [d [t|e]]; intros Hl; [|apply agent_does_ret]. destruct (Hl t eq_refl) as [Hwf HS].
  unfold activateItem. cbn. apply agent_does_bind; [|intros; apply agent_does_ret].
  apply agent_does_try, agent_does_recheck. eapply does_mono; [exact HS|].
  pose proof (own_scope_serves t) as [_ ? ? _]. apply does_Activate; [done..|by right].
Qed.

Lemma prepareItem_run i w r w' : prepareItem s deps i w = (r, w') →
  ∃ x, r = Ok (i.1, x) ∧ ∀ t, x = Ok t → i.2 = Ok t ∧
    fenced s (ds_VolumeID i.1) (ds_Fence i.1) fenceGrant tt (prepareTarget s deps t) w = (Ok tt, w').
Proof.
  intros Hr. destruct i as [d [t|e]]; [|injection Hr as <- <-; by eexists].
  unfold prepareItem, try in Hr. cbn in Hr. unfold mbind, M_bind in Hr.
  destruct (fenced _ _ _ _ _ _ w) as [r1 w1] eqn:Ef. injection Hr as <- <-. eexists. split; [done|].
  destruct r1 as [[]|]; [|done]. intros ? [= <-]. split; [done|exact Ef].
Qed.

Lemma prepareItem_ready i t w w' : disk_inv (w_disk w) → fs_inv (w_backend w) → wf_target t →
  prepareItem s deps i w = (Ok (i.1, Ok t), w') →
  ready t (w_backend w') ∧ ∀ n, n ∈ AllowedInitiators t → plain_name n = true.
Proof using Hdeps.
  intros Hd Hi Hwf Hr. apply prepareItem_run in Hr as (x&[= <-]&Hx). destruct (Hx t eq_refl) as [_ Hf].
  destruct (fenced_kernel s _ _ fenceGrant _ _ _ _ _ Hd ltac:(done) Hf) as [_ [[[? ?] _]|Hm]]; [done|].
  by eapply (prepareTarget_Ok t); [|exact Hm].
Qed.

Lemma activateItem_run i w r w' : activateItem s i w = (r, w') →
  ∃ x, r = Ok x ∧ (x = None → ∃ t, i.2 = Ok t ∧
    recheckFence s (ds_VolumeID i.1) (ds_Fence i.1) fenceGrant (Activate t) w = (Ok tt, w')).
Proof.
  intros Hr. destruct i as [d [t|e]]; [|injection Hr as <- <-; by exists (Some e)].
  unfold activateItem, try in Hr. cbn in Hr. unfold mbind, M_bind in Hr.
  destruct (recheckFence _ _ _ _ _ w) as [r1 w1] eqn:Ef. injection Hr as <- <-. eexists. split; [done|].
  destruct r1 as [[]|]; [|done]. intros _. exists t. split; [done|exact Ef].
Qed.

Lemma activateItem_serving i w w' : disk_inv (w_disk w) → fs_inv (w_backend w) →
  activateItem s i w = (Ok None, w') →
  ∃ t, i.2 = Ok t ∧ (wf_target t → (∀ n, n ∈ AllowedInitiators t → plain_name n = true) →
    ready t (w_backend w) → serving t (w_backend w')).
Proof.
  intros Hd Hi Hr. apply activateItem_run in Hr as (x&[= <-]&Hx). destruct (Hx eq_refl) as (t&Ht&Hf).
  exists t. split; [done|]. intros Hwf Hp Hrd.
  destruct (recheck_kernel s _ _ _ _ _ _ _ Hd Hf) as [_ [[[? ?] _]|Hm]]; [done|]. by eapply (Activate_Ok t); [..|exact Hm].
Qed.

(** *** The list *)

Lemma reconcileTarget_inv d t : reconcileTarget s d = Ok t →
  LocalAttach t = ds_LocalAttach d ∧ ∃ t0, volumeTarget (configfsRoot s) (ds_VolumeID d) = Ok t0 ∧
    ConfigfsRoot t = ConfigfsRoot t0 ∧ IQN t = IQN t0.
Proof.
  unfold reconcileTarget. destruct (iscsiEndpoint _) as [[b p]|]; [|done]. cbn.
  destruct (resolveExportDevicePath _ _ _) as [dev|]; [|done]. cbn.
  destruct (volumeTarget _ _) as [t0|] eqn:Et; [|done]. cbn. destruct (iscsiCHAP _ _); [|done]. intros [= <-]. eauto.
Qed.

(** Entries of different volumes, none of them the one whose backstore would
    have no name. *)
Record distinct (desired : list (ExportDesiredState P)) : Prop := {
  di_IQN i j d1 d2 t1 t2 : desired !! i = Some d1 → desired !! j = Some d2 →
    reconcileTarget s d1 = Ok t1 → reconcileTarget s d2 = Ok t2 → IQN t1 = IQN t2 → i = j;
  di_name d : d ∈ desired → ds_VolumeID d ≠ "./";
}.

Lemma reconcileTarget_wf d t : reconcileTarget s d = Ok t → ds_VolumeID d ≠ "./" → wf_target t.
Proof. intros (_&t0&H1&_&HI)%reconcileTarget_inv Hv. by eapply volumeTarget_wf. Qed.

Lemma reconcileTarget_apart d1 d2 t1 t2 :
  reconcileTarget s d1 = Ok t1 → reconcileTarget s d2 = Ok t2 → IQN t1 ≠ IQN t2 → apart t1 t2.
Proof.
  intros (_&a&Ha&HRa&HIa)%reconcileTarget_inv (_&b&Hb&HRb&HIb)%reconcileTarget_inv Hne.
  rewrite HIa, HIb in Hne. destruct (volumeTarget_apart _ _ _ _ _ Ha Hb Hne). split; congruence.
Qed.

(** What is there of a target stays as the work on others goes on. *)
Definition passes t {A} (m : Agent K A) : Prop :=
  ∀ w r w', disk_inv (w_disk w) → fs_inv (w_backend w) → m w = (r, w') →
    disk_inv (w_disk w') ∧ fs_inv (w_backend w') ∧
    (view (w_backend w) (targetDir t) = Some NDir → agree t (w_backend w) (w_backend w')).

Lemma passes_apart t t1 `{!wf_target t, !wf_target t1} {A} (m : Agent K A) :
  apart t1 t → agent_does (own_scope t1) m → passes t m.
Proof.
  intros Ha Hm w r w' Hd Hi Hr. destruct (Hm _ _ _ Hd Hi Hr) as [Hs He]. split_and!; [by eapply disk_steps_inv|apply He|].
  intros Hv q Hq. apply (effect_untouched _ _ _ _ He).
  - intros Ho. apply (own_apart t1 t q Ha Ho). by left.
  - apply (stable_apart t1 t _ _ Ha Hi). by left.
Qed.
Lemma passes_ret t {A} (a : A) : passes t (mret a : Agent K A).
Proof. intros w r w' Hd Hi [= <- <-]. done. Qed.
Lemma passes_bind t {A B} (m : Agent K A) (f : A → Agent K B) : passes t m → (∀ a, passes t (f a)) → passes t (m ≫= f).
Proof.
  intros Hm Hf w r w' Hd Hi Hr. apply M_bind_inv in Hr as [(a&w1&H1&Hr)|(e&H1&->)]; [|by eapply Hm].
  destruct (Hm _ _ _ Hd Hi H1) as (Hd1&Hi1&Ha1). destruct (Hf _ _ _ _ Hd1 Hi1 Hr) as (Hd2&Hi2&Ha2).
  split_and!; [done|done|]. intros Hv. specialize (Ha1 Hv). eapply agree_trans; [exact Ha1|]. apply Ha2. by rewrite Ha1.
Qed.
Lemma passes_map_each t {A B} (f : A → Agent K B) l : (∀ a, a ∈ l → passes t (f a)) → passes t (map_each f l).
Proof.
  induction l as [|a l IH]; intros Hf; cbn; [apply passes_ret|].
  apply passes_bind; [apply Hf; by left|]. intros y. apply passes_bind; [|intros; apply passes_ret].
  apply IH. intros. apply Hf. by right.
Qed.

(** Another entry: one that failed, or one with a target elsewhere. *)
Definition other t (i : item (P := P)) : Prop := ∀ t1, i.2 = Ok t1 → wf_target t1 ∧ apart t1 t.

Lemma passes_prepareItem t i `{!wf_target t} : other t i → passes t (prepareItem s deps i).
Proof using Hdeps.
  destruct i as [d [t1|e]]; intros Ho; [|apply passes_ret]. destruct (Ho t1 eq_refl) as [Hwf Ha].
  apply (passes_apart t t1); [done|]. apply does_prepareItem. intros ? [= <-]. split; [done|apply prepare_sub].
Qed.
Lemma passes_activateItem t i `{!wf_target t} : other t i → passes t (activateItem s i).
Proof.
  destruct i as [d [t1|e]]; intros Ho; [|apply passes_ret]. destruct (Ho t1 eq_refl) as [Hwf Ha].
  apply (passes_apart t t1); [done|]. apply does_activateItem. intros ? [= <-]. by split_and!.
Qed.

(** The entries prepared are those given, with their targets if they got
    through. *)
Definition carried (i y : item (P := P)) : Prop := y.1 = i.1 ∧ ∀ t, y.2 = Ok t → i.2 = Ok t.

Lemma prepared_items l w r w' : map_each (prepareItem s deps) l w = (r, w') → ∃ ys, r = Ok ys ∧ Forall2 carried l ys.
Proof.
  revert w r w'. induction l as [|i l IH]; intros w r w' Hr; cbn in Hr; [injection Hr as <- <-; by exists []|].
  apply M_bind_inv in Hr as [(y&w1&H1&Hr)|(e&H1&->)]; apply prepareItem_run in H1 as (x&Hx&Hc); [|done].
  injection Hx as ->. apply M_bind_inv in Hr as [(ys&w2&H2&Hr)|(e&H2&->)]; apply IH in H2 as (ys'&Hys&HF); [|done].
  injection Hys as <-. injection Hr as <- <-. eexists. split; [done|]. constructor; [|done]. split; [done|].
  intros t Ht. by apply Hc in Ht as [].
Qed.
Lemma activated_items l w r w' : map_each (activateItem s) l w = (r, w') → ∃ ys, r = Ok ys.
Proof.
  revert w r w'. induction l as [|i l IH]; intros w r w' Hr; cbn in Hr; [injection Hr as <- <-; by exists []|].
  apply M_bind_inv in Hr as [(y&w1&H1&Hr)|(e&H1&->)]; [|by apply activateItem_run in H1 as (x&?&_)].
  apply M_bind_inv in Hr as [(ys&w2&H2&Hr)|(e&H2&->)]; [injection Hr as <- <-; eauto|by apply IH in H2 as [? ?]].
Qed.

(** The loop at one entry. *)
Lemma map_each_at {A B} (f : A → Agent K B) l i x w ys w' :
  l !! i = Some x → map_each f l w = (Ok ys, w') →
  ∃ y w1 w2 ys1 ys2, ys !! i = Some y ∧ map_each f (take i l) w = (Ok ys1, w1) ∧ f x w1 = (Ok y, w2) ∧
    map_each f (drop (S i) l) w2 = (Ok ys2, w').
Proof.
  intros Hx Hr. rewrite <- (take_drop_middle l i x Hx) in Hr.
  apply map_each_app in Hr as (ys1&ys2&w1&H1&H2&->). cbn in H2. minv. exists x0, w1, x1, ys1, x2. split_and!; [|done..].
  rewrite lookup_app_r; [|apply map_each_length in H1 as ->; rewrite length_take; lia].
  apply map_each_length in H1 as ->. rewrite length_take_le; [|by apply lookup_lt_Some in Hx; lia]. by rewrite Nat.sub_diag.
Qed.

(** The loop around one entry: work on the others passes it by. *)
Lemma around_entry {A B} t (f : A → Agent K B) l i x w ys w' :
  (∀ j y, l !! j = Some y → j ≠ i → passes t (f y)) → disk_inv (w_disk w) → fs_inv (w_backend w) →
  l !! i = Some x → map_each f l w = (Ok ys, w') →
  ∃ y w1 w2, ys !! i = Some y ∧ f x w1 = (Ok y, w2) ∧ disk_inv (w_disk w1) ∧ fs_inv (w_backend w1) ∧
    (view (w_backend w) (targetDir t) = Some NDir → agree t (w_backend w) (w_backend w1)) ∧
    (disk_inv (w_disk w2) → fs_inv (w_backend w2) → view (w_backend w2) (targetDir t) = Some NDir →
     agree t (w_backend w2) (w_backend w')).
Proof.
  intros Hp Hd Hi Hx Hr. destruct (map_each_at f _ _ _ _ _ _ Hx Hr) as (y&w1&w2&ys1&ys2&Hy&H1&Hf&H2).
  assert (passes t (map_each f (take i l))) as Hp1.
  { apply passes_map_each. intros a (j&Ha)%list_elem_of_lookup. apply lookup_take_Some in Ha as [Ha ?]. eapply Hp; [exact Ha|lia]. }
  assert (passes t (map_each f (drop (S i) l))) as Hp2.
  { apply passes_map_each. intros a (j&Ha)%list_elem_of_lookup. rewrite lookup_drop in Ha. eapply Hp; [exact Ha|lia]. }
  destruct (Hp1 _ _ _ Hd Hi H1) as (Hd1&Hi1&Ha1). exists y, w1, w2. split_and!; [done..|].
  intros Hd2 Hi2. by eapply Hp2.
Qed.

Definition items (desired : list (ExportDesiredState P)) : list (item (P := P)) := map (λ d, (d, reconcileTarget s d)) desired.

Lemma items_lookup desired j i : items desired !! j = Some i → ∃ d, desired !! j = Some d ∧ i = (d, reconcileTarget s d).
Proof. unfold items. intros Hj. apply list_lookup_fmap_Some_1 in Hj as (d&->&Hj). eauto. Qed.

Lemma carried_other t i y : carried i y → other t i → other t y.
Proof. intros [_ Hc] Ho t1 Ht1. by apply Ho, Hc. Qed.

(** All entries but the one of [t]. *)
Lemma others_apart desired i d t : distinct desired → desired !! i = Some d → reconcileTarget s d = Ok t →
  ∀ j x, items desired !! j = Some x → j ≠ i → other t x.
Proof.
  intros [HI HN] Hd Ht j x Hj Hne t1 Ht1. apply items_lookup in Hj as (d1&Hd1&->). cbn in Ht1.
  split; [eapply reconcileTarget_wf; [exact Ht1|by eapply HN, list_elem_of_lookup_2]|].
  eapply reconcileTarget_apart; [exact Ht1|exact Ht|]. intros Heq. by apply Hne, (HI j i d1 d t1 t).
Qed.

(** The first phase leaves the targets it got through ready. *)
Lemma prepared_ready desired i d t w ys w' :
  distinct desired → disk_inv (w_disk w) → fs_inv (w_backend w) →
  desired !! i = Some d → reconcileTarget s d = Ok t →
  map_each (prepareItem s deps) (items desired) w = (Ok ys, w') → ys !! i = Some (d, Ok t) →
  ready t (w_backend w') ∧ ∀ n, n ∈ AllowedInitiators t → plain_name n = true.
Proof using Hdeps.
  intros HD Hd Hi Hdi Ht Hr Hy.
  assert (wf_target t) as Hwf by (eapply reconcileTarget_wf; [done|by eapply (di_name _ HD), list_elem_of_lookup_2]).
  assert (items desired !! i = Some (d, Ok t)) as Hx by (unfold items; rewrite list_lookup_fmap, Hdi; cbn; by rewrite Ht).
  destruct (around_entry t (prepareItem s deps) (items desired) i (d, Ok t) w ys w') as (y&w1&w2&Hy'&Hf&Hd1&Hi1&_&Hafter); try done.
  { intros j x Hj Hne. apply passes_prepareItem; [done|]. by eapply others_apart. }
  pose proof (eq_trans (eq_sym Hy) Hy') as [= <-].
  destruct (prepareItem_ready (d, Ok t) t w1 w2 Hd1 Hi1 Hwf Hf) as [[Hpol Hall] Hp].
  assert (agent_does (prepare_scope t) (prepareItem s deps (d, Ok t))) as Hdo
    by (apply does_prepareItem; intros ? [= <-]; by split_and!).
  destruct (Hdo _ _ _ Hd1 Hi1 Hf) as [Hs2 [Hi2 _ _ _]].
  assert (agree t (w_backend w2) (w_backend w')) as Ha by (apply Hafter; [by eapply disk_steps_inv|done|by apply policy_there]).
  split; [|done]. split; [by eapply agree_policy|by eapply agree_allowed].
Qed.

Lemma live_items S desired : (∀ d, d ∈ desired → ds_VolumeID d ≠ "./") →
  (∀ d t, d ∈ desired → reconcileTarget s d = Ok t → sub_scope (prepare_scope t) S) →
  ∀ i, i ∈ items desired → live prepare_scope S i.
Proof.
  intros HN HS i (j&Hj)%list_elem_of_lookup t Ht. apply items_lookup in Hj as (d&Hd%list_elem_of_lookup_2&->). cbn in Ht.
  split; [by eapply reconcileTarget_wf; eauto|by eapply HS].
Qed.

Lemma prepare_phase_inv desired w r w' : (∀ d, d ∈ desired → ds_VolumeID d ≠ "./") →
  disk_inv (w_disk w) → fs_inv (w_backend w) → map_each (prepareItem s deps) (items desired) w = (r, w') →
  disk_inv (w_disk w') ∧ fs_inv (w_backend w').
Proof using Hdeps.
  intros HN Hd Hi Hr.
  assert (agent_does {| s_new := λ _, True; s_mod := λ _, True; s_on := λ _, True |} (map_each (prepareItem s deps) (items desired))) as Hdo.
  { apply agent_does_map_each. intros x Hin. apply does_prepareItem. by apply (live_items _ desired HN). }
  destruct (Hdo _ _ _ Hd Hi Hr) as [Hs [? _ _ _]]. split; [by eapply disk_steps_inv|done].
Qed.

(** The second phase switches on what is ready. *)
Lemma activated_serving desired ys i d t w results w' :
  distinct desired → Forall2 carried (items desired) ys → disk_inv (w_disk w) → fs_inv (w_backend w) →
  desired !! i = Some d → reconcileTarget s d = Ok t → ys !! i = Some (d, Ok t) →
  ready t (w_backend w) → (∀ n, n ∈ AllowedInitiators t → plain_name n = true) →
  map_each (activateItem s) ys w = (Ok results, w') → results !! i = Some None → serving t (w_backend w').
Proof.
  intros HD HF Hd Hi Hdi Ht Hy [Hpol Hall] Hp Hr Hres.
  assert (wf_target t) as Hwf by (eapply reconcileTarget_wf; [done|by eapply (di_name _ HD), list_elem_of_lookup_2]).
  destruct (around_entry t (activateItem s) ys i (d, Ok t) w results w') as (z&w3&w4&Hz&Hf&Hd3&Hi3&Hbefore&Hafter); try done.
  { intros j x Hj Hne. apply passes_activateItem; [done|].
    destruct (Forall2_lookup_r _ _ _ _ _ HF Hj) as (x0&Hx0&Hcx). eapply carried_other; [exact Hcx|]. by eapply others_apart. }
  specialize (Hbefore (policy_there t _ Hi Hpol)). pose proof (eq_trans (eq_sym Hres) Hz) as [= <-].
  destruct (activateItem_serving _ _ _ Hd3 Hi3 Hf) as (t'&Ht'&Hs4). injection Ht' as <-.
  assert (serving t (w_backend w4)) as Hs.
  { apply Hs4; [done|done|]. split; [by eapply agree_policy|by eapply agree_allowed]. }
  assert (agent_does (own_scope t) (activateItem s (d, Ok t))) as Hdo by (apply does_activateItem; intros ? [= <-]; by split_and!).
  destruct (Hdo _ _ _ Hd3 Hi3 Hf) as [Hst [Hi4 _ _ _]].
  eapply (agree_serving t); [done| |exact Hs]. apply Hafter; [by eapply disk_steps_inv|done|by apply serving_there].
Qed.

(** Only what got through the first phase is reported restored. *)
Lemma restored_prepared l i y results w w' :
  l !! i = Some y → map_each (activateItem s) l w = (Ok results, w') → results !! i = Some None → ∃ t, y.2 = Ok t.
Proof.
  intros Hy Hr Hres. destruct (map_each_at _ _ _ _ _ _ _ Hy Hr) as (z&?&?&?&?&Hz&_&Hf&_).
  pose proof (eq_trans (eq_sym Hres) Hz) as [= <-]. apply activateItem_run in Hf as (?&[= <-]&Hf).
  destruct (Hf eq_refl) as (t&Ht&_). eauto.
Qed.

(** A reconcile reports on every entry, and an entry it reports restored is
    restored when it returns, whatever happened to the other entries: a
    volume attached locally is switched off, any other target is on, guarded
    by its policy and with exactly the allowed initiators. *)
Lemma reconcile_serves desired w r w' :
  disk_inv (w_disk w) → fs_inv (w_backend w) → distinct desired → iscsi_Reconcile s deps desired w = (r, w') →
  ∃ results, r = Ok results ∧ length results = length desired ∧
    ∀ i d, desired !! i = Some d → results !! i = Some None →
      ∃ t, reconcileTarget s d = Ok t ∧ (∀ n, n ∈ AllowedInitiators t → plain_name n = true) ∧ serving t (w_backend w').
Proof using Hdeps.
  intros Hd Hi HD Hr. unfold iscsi_Reconcile in Hr. fold (items desired) in Hr.
  apply M_bind_inv in Hr as [(ys&w1&H1&Hr)|(e&H1&->)]; [|by apply prepared_items in H1 as (?&?&_)].
  destruct (prepared_items _ _ _ _ H1) as (ys'&[= <-]&HF). destruct (activated_items _ _ _ _ Hr) as [results ->].
  exists results. split_and!; [done| |].
  { rewrite (map_each_length _ _ _ _ _ Hr), <- (Forall2_length _ _ _ HF). apply length_map. }
  intros i d Hdi Hres. assert (items desired !! i = Some (d, reconcileTarget s d)) as Hx by (unfold items; by rewrite list_lookup_fmap, Hdi).
  destruct (Forall2_lookup_l _ _ _ _ _ HF Hx) as ([d' y]&Hy&[Hd' Hc]). cbn in Hd'. subst d'.
  destruct (restored_prepared _ _ _ _ _ _ Hy Hr Hres) as [t Ht]. cbn in Ht. subst y.
  pose proof (Hc t eq_refl) as Ht. cbn in Ht. exists t.
  destruct (prepared_ready _ _ _ _ _ _ _ HD Hd Hi Hdi Ht H1 Hy) as [Hrd Hp]. split_and!; [done|done|].
  destruct (prepare_phase_inv _ _ _ _ (di_name _ HD) Hd Hi H1) as [Hd1 Hi1].
  by eapply activated_serving.
Qed.

(** All of it happens below the directory of LIO. *)
Definition lio_root : path := joinp (joinp [] (if bool_decide (configfsRoot s = "") then DefaultConfigfsRoot else configfsRoot s)) "target".
Definition lio_scope : scope := {| s_new := λ q, lio_root `prefix_of` q; s_mod := λ q, lio_root `prefix_of` q; s_on := λ _, True |}.
Lemma own_lio t `{!wf_target t} : ConfigfsRoot t = configfsRoot s → sub_scope (own_scope t) lio_scope.
Proof.
  intros HR. assert (cfsTargetDir t = lio_root) as HL by (unfold cfsTargetDir, rootPath, lio_root; by rewrite HR).
  assert (iscsiDir t = lio_root ++ ["iscsi"]) as H1 by (unfold iscsiDir; by rewrite HL, joinp_plain).
  assert (hbaDir t = lio_root ++ ["core"; "iblock_3260"]) as H2.
  { unfold hbaDir. rewrite HL, !joinp_plain by done. by rewrite <- app_assoc. }
  assert (∀ q, own t q → lio_root `prefix_of` q) as Ho.
  { intros q [Hq|Hq]; (etrans; [|exact Hq]).
    - unfold targetDir. rewrite joinp_plain, H1, <- app_assoc by apply wf_IQN. by apply prefix_app_r.
    - unfold BackstoreDir. rewrite joinp_plain, H2, <- app_assoc by apply wf_backstore. by apply prefix_app_r. }
  split_and!; [|exact Ho|done]. intros q [?|[->|[->| ->]]]; [by apply Ho| | |]; cbn; rewrite ?H1, ?H2; [by apply prefix_app_r| |by apply prefix_app_r].
  unfold dirp. change (lio_root ++ ["core"; "iblock_3260"]) with (lio_root ++ ["core"] ++ ["iblock_3260"]).
  rewrite app_assoc, removelast_last. by apply prefix_app_r.
Qed.
Lemma iscsi_Reconcile_below desired w r w' : (∀ d, d ∈ desired → ds_VolumeID d ≠ "./") →
  disk_inv (w_disk w) → fs_inv (w_backend w) → iscsi_Reconcile s deps desired w = (r, w') →
  disk_inv (w_disk w') ∧ effect lio_scope (w_backend w) (w_backend w').
Proof using Hdeps.
  intros HN Hd Hi Hr. unfold iscsi_Reconcile in Hr. fold (items desired) in Hr.
  assert (∀ d t, d ∈ desired → reconcileTarget s d = Ok t → wf_target t ∧ sub_scope (own_scope t) lio_scope) as Hown.
  { intros d t Hin Ht. assert (wf_target t) as Hwf by (by eapply reconcileTarget_wf; eauto). split; [done|]. apply own_lio; [done|].
    destruct (reconcileTarget_inv _ _ Ht) as (_&t0&Ht0&->&_). by apply volumeTarget_root in Ht0. }
  apply M_bind_inv in Hr as [(ys&w1&H1&Hr)|(e&H1&->)]; [|by apply prepared_items in H1 as (?&?&_)].
  destruct (prepared_items _ _ _ _ H1) as (ys'&[= <-]&HF).
  assert (agent_does lio_scope (map_each (prepareItem s deps) (items desired))) as Hdo.
  { apply agent_does_map_each. intros x Hin. apply does_prepareItem. apply (live_items _ desired HN); [|done]. intros d t Hin' Ht.
    destruct (Hown d t Hin' Ht) as [? (?&?&?)]. by split_and!. }
  destruct (Hdo _ _ _ Hd Hi H1) as [D1 F1]. pose proof (disk_steps_inv _ _ D1 Hd) as Hd1.
  assert (agent_does lio_scope (map_each (activateItem s) ys)) as Hdo2.
  { apply agent_does_map_each. intros x (j&Hj)%list_elem_of_lookup. apply does_activateItem. intros t Ht.
    destruct (Forall2_lookup_r _ _ _ _ _ HF Hj) as (x0&Hx0&[_ Hc]). apply Hc in Ht.
    apply items_lookup in Hx0 as (d&Hdj&->). eapply Hown; [by eapply list_elem_of_lookup_2|done]. }
  destruct (Hdo2 _ _ _ Hd1 (eff_inv _ _ _ F1) Hr) as [D2 F2]. split; [by eapply disk_steps_inv|by eapply effect_trans].
Qed.

(** A reconcile makes nothing reachable before it has gone through the
    whole list once: while the entries are prepared, no switch that is off is
    turned on except those of the listed volumes' backstores, which serve no
    one by themselves; only entries that got through are switched on after. *)
Theorem reconcile_prepares_first desired w r w' :
  disk_inv (w_disk w) → fs_inv (w_backend w) → (∀ d, d ∈ desired → ds_VolumeID d ≠ "./") →
  iscsi_Reconcile s deps desired w = (r, w') →
  ∃ prepared w1, map_each (prepareItem s deps) (items desired) w = (Ok prepared, w1) ∧
    map_each (activateItem s) prepared w1 = (r, w') ∧ Forall2 carried (items desired) prepared ∧
    ∀ q, is_enable q → (∀ d t, d ∈ desired → reconcileTarget s d = Ok t → q ≠ backstoreEnable t) →
      off (view (w_backend w)) q → off (view (w_backend w1)) q.
Proof using Hdeps.
  intros Hd Hi HN Hr. unfold iscsi_Reconcile in Hr. fold (items desired) in Hr.
  apply M_bind_inv in Hr as [(ys&w1&H1&Hr)|(e&H1&->)]; [|by apply prepared_items in H1 as (?&?&_)].
  destruct (prepared_items _ _ _ _ H1) as (ys'&[= <-]&HF). exists ys, w1. split_and!; [done..|].
  intros q Hq Hno. pose (S := {| s_new := λ _, True; s_mod := λ _, True;
    s_on := λ q, ∃ d t, d ∈ desired ∧ reconcileTarget s d = Ok t ∧ q = backstoreEnable t |}).
  assert (agent_does S (map_each (prepareItem s deps) (items desired))) as Hdo.
  { apply agent_does_map_each. intros x Hin. apply does_prepareItem. apply (live_items _ desired HN); [|done].
    intros d t Hd' Ht. split_and!; [done|done|]. cbn. intros ? ->. eauto. }
  destruct (Hdo _ _ _ Hd Hi H1) as [_ He]. apply (eff_off _ _ _ He); [done|]. intros (d&t&Hin&Ht&->). by eapply Hno.
Qed.
End Reconcile.
