(* ===== verification/ServerExport.v ===== *)
(** * The agent's export RPCs and its restore gate

    server_export.go, server_export_restore.go and server_reconcile.go.  The
    gate joins the world of the fenced sections in [agent_state].  Requests for adopted filesystems go
    to server_filesystem.go through [FilesystemExports].  A Go map is a
    function from its keys; indexing a slice out of range panics. *)
From stdpp Require Import base numbers list strings gmap functions.
From Stdlib Require Import Ascii.
From S2P Require Import Prelude GoStd FencingMark FencingStore Backend Fencing AgentServer.
Open Scope Z_scope.

(** ** Requests and responses *)

Record ExportVolumeRequest (P : Type) := {
  xr_VolumeId : string;
  xr_ProtocolType : ProtocolType;
  xr_ExportParams : ProtocolParams;
  xr_DevicePath : string;
  xr_AclEnabled : bool;
  xr_Fence : option FencingToken;
  xr_FilesystemAdoption : option FilesystemAdoption;
  xr_CapacityBytes : Z;
  xr_BackendParams : P;
}.
Arguments xr_VolumeId {P}.
Arguments xr_ProtocolType {P}.
Arguments xr_ExportParams {P}.
Arguments xr_DevicePath {P}.
Arguments xr_AclEnabled {P}.
Arguments xr_Fence {P}.
Arguments xr_FilesystemAdoption {P}.
Arguments xr_CapacityBytes {P}.
Arguments xr_BackendParams {P}.

Record UnexportVolumeRequest := {
  ur_VolumeId : string;
  ur_ProtocolType : ProtocolType;
  ur_Fence : option FencingToken;
  ur_FilesystemAdoption : option FilesystemAdoption;
}.

Record AllowInitiatorRequest (P : Type) := {
  ai_VolumeId : string;
  ai_ProtocolType : ProtocolType;
  ai_InitiatorId : string;
  ai_Fence : option FencingToken;
  ai_ExportParams : ProtocolParams;
  ai_FilesystemAdoption : option FilesystemAdoption;
  ai_CapacityBytes : Z;
  ai_BackendParams : P;
}.
Arguments ai_VolumeId {P}.
Arguments ai_ProtocolType {P}.
Arguments ai_InitiatorId {P}.
Arguments ai_Fence {P}.
Arguments ai_ExportParams {P}.
Arguments ai_FilesystemAdoption {P}.
Arguments ai_CapacityBytes {P}.
Arguments ai_BackendParams {P}.

Record DenyInitiatorRequest := {
  di_VolumeId : string;
  di_ProtocolType : ProtocolType;
  di_InitiatorId : string;
  di_Fence : option FencingToken;
  di_FilesystemAdoption : option FilesystemAdoption;
}.

Record SetLocalAttachRequest (P : Type) := {
  sl_VolumeId : string;
  sl_ProtocolType : ProtocolType;
  sl_Local : bool;
  sl_Fence : option FencingToken;
  sl_FilesystemAdoption : option FilesystemAdoption;
  sl_CapacityBytes : Z;
  sl_BackendParams : P;
}.
Arguments sl_VolumeId {P}.
Arguments sl_ProtocolType {P}.
Arguments sl_Local {P}.
Arguments sl_Fence {P}.
Arguments sl_FilesystemAdoption {P}.
Arguments sl_CapacityBytes {P}.
Arguments sl_BackendParams {P}.

(** The ExportDesiredState message. *)
Record ExportEntry := {
  ee_ProtocolType : ProtocolType;
  ee_ExportParams : ProtocolParams;
  ee_AllowedInitiators : list string;
  ee_AclEnabled : bool;
  ee_LocalAttach : bool;
}.

Record VolumeDesiredState (P : Type) := {
  vd_VolumeId : string;
  vd_BackendType : BackendType;
  vd_BackendParams : P;
  vd_DevicePath : string;
  vd_Exports : list ExportEntry;
  vd_Fence : option FencingToken;
  vd_FilesystemAdoption : option FilesystemAdoption;
  vd_CapacityBytes : Z;
}.
Arguments vd_VolumeId {P}.
Arguments vd_BackendType {P}.
Arguments vd_BackendParams {P}.
Arguments vd_DevicePath {P}.
Arguments vd_Exports {P}.
Arguments vd_Fence {P}.
Arguments vd_FilesystemAdoption {P}.
Arguments vd_CapacityBytes {P}.

Record ReconcileStateRequest (P : Type) := { rs_Volumes : list (VolumeDesiredState P); rs_Complete : bool }.
Arguments rs_Volumes {P}.
Arguments rs_Complete {P}.
Record ReconcileItemResult := { ri_VolumeId : string; ri_Success : bool; ri_ErrorMessage : string }.
#[export] Instance ReconcileItemResult_eq_dec : EqDecision ReconcileItemResult.
Proof. solve_decision. Defined.

(** ** The server's state *)

Record agent_state (B : Type) := AgentState {
  ag_exportRestorePending : bool;
  ag_world : world B;
}.
Arguments AgentState {B}.
Arguments ag_exportRestorePending {B}.
Arguments ag_world {B}.

Definition Rpc (B A : Type) : Type := M (agent_state B) go_error A.

Definition on_world {B A} (m : Agent B A) : Rpc B A := λ a,
  let '(r, w) := m (ag_world a) in (r, AgentState (ag_exportRestorePending a) w).
Definition store_pending {B} (b : bool) : Rpc B unit :=
  modify (λ a, AgentState b (ag_world a)).

(** The operations of server_filesystem.go the handlers hand over to. *)
Record FilesystemExports (B P : Type) := {
  exportFilesystem : ExportParams P → bool → list string → Agent B ExportResult;
  unexportFilesystem : string → FilesystemAdoption → option FencingToken → Agent B unit;
  changeFilesystemClient : AllowInitiatorRequest P → Agent B unit;
  denyFilesystemClient : DenyInitiatorRequest → Agent B unit;
  localFilesystem : SetLocalAttachRequest P → Agent B string;
  reconcileFilesystem : VolumeDesiredState P → Agent B unit;
}.
Arguments exportFilesystem {B P}.
Arguments unexportFilesystem {B P}.
Arguments changeFilesystemClient {B P}.
Arguments denyFilesystemClient {B P}.
Arguments localFilesystem {B P}.
Arguments reconcileFilesystem {B P}.

Definition checkExportRestoreDone {B} (rpc : string) : Rpc B unit :=
  pending ← reads ag_exportRestorePending;
  if pending : bool then throw (EStatus Unavailable ("export restore pending: " +:+ rpc)) else mret tt.

Definition exportParamsForRequest {P} (req : ExportVolumeRequest P) : GoResult (ExportParams P) :=
  let params := {|
    xp_VolumeID := xr_VolumeId req; xp_DevicePath := xr_DevicePath req; xp_BindAddress := ""; xp_Port := 0;
    xp_ProtocolParams := xr_ExportParams req; xp_ACLEnabled := xr_AclEnabled req; xp_Fence := xr_Fence req;
    xp_FilesystemAdoption := xr_FilesystemAdoption req; xp_CapacityBytes := xr_CapacityBytes req;
    xp_BackendParams := xr_BackendParams req |} in
  match xr_ProtocolType req with
  | PROTOCOL_TYPE_NVMEOF_TCP =>
      match GetNvmeofTcp (xr_ExportParams req) with
      | None => Err (EStatus InvalidArgument "nvmeof_tcp export params required")
      | Some _ => Ok params
      end
  | PROTOCOL_TYPE_ISCSI =>
      match GetIscsi (xr_ExportParams req) with
      | None => Err (EStatus InvalidArgument "iscsi export params required")
      | Some _ => Ok params
      end
  | PROTOCOL_TYPE_NFS =>
      match GetNfs (xr_ExportParams req) with
      | None => Err (EStatus InvalidArgument "nfs export params required")
      | Some _ => Ok params
      end
  | PROTOCOL_TYPE_UNSPECIFIED => Err (EStatus InvalidArgument "exportParamsForRequest: protocol_type is required")
  | PROTOCOL_TYPE_SMB => Err (EStatus Unimplemented "exportParamsForRequest: unsupported protocol type")
  end.

Section Handlers.
Context {B P : Type} (s : Server B P) (fx : FilesystemExports B P).

(** The protocol handler of a request. *)
Definition handlerOf (p : ProtocolType) : Rpc B (AgentProtocolHandler B P) :=
  map_err protocolRPCError (lift (handlerForProtocol s p)).

Definition ExportVolume (req : ExportVolumeRequest P) : Rpc B ExportResult :=
  match xr_FilesystemAdoption req with
  | Some _ =>
      if decide (xr_ProtocolType req ≠ PROTOCOL_TYPE_NFS)
      then throw (EStatus InvalidArgument "adopted filesystems require NFS for remote export")
      else
        checkExportRestoreDone "ExportVolume" ;;
        params ← lift (exportParamsForRequest req);
        on_world (exportFilesystem fx params false [])
  | None =>
      handler ← handlerOf (xr_ProtocolType req);
      checkExportRestoreDone "ExportVolume" ;;
      params ← map_err protocolRPCError (lift (exportParamsForRequest req));
      map_err protocolRPCError (on_world (Export_ handler params))
  end.

Definition UnexportVolume (req : UnexportVolumeRequest) : Rpc B unit :=
  match ur_FilesystemAdoption req with
  | Some a => on_world (unexportFilesystem fx (ur_VolumeId req) a (ur_Fence req))
  | None =>
      handler ← handlerOf (ur_ProtocolType req);
      map_err protocolRPCError (on_world (Unexport handler (ur_VolumeId req) (ur_Fence req)))
  end.

Definition Server_AllowInitiator (req : AllowInitiatorRequest P) : Rpc B unit :=
  match ai_FilesystemAdoption req with
  | Some _ =>
      if decide (ai_ProtocolType req ≠ PROTOCOL_TYPE_NFS)
      then throw (EStatus InvalidArgument "filesystem client grants require NFS")
      else
        checkExportRestoreDone "AllowInitiator" ;;
        on_world (changeFilesystemClient fx req)
  | None =>
      handler ← handlerOf (ai_ProtocolType req);
      checkExportRestoreDone "AllowInitiator" ;;
      map_err protocolRPCError
        (on_world (AllowInitiator handler (ai_VolumeId req) (ai_InitiatorId req) (ai_ExportParams req) (ai_Fence req)))
  end.

Definition Server_DenyInitiator (req : DenyInitiatorRequest) : Rpc B unit :=
  match di_FilesystemAdoption req with
  | Some _ =>
      if decide (di_ProtocolType req ≠ PROTOCOL_TYPE_NFS)
      then throw (EStatus InvalidArgument "filesystem client revocations require NFS")
      else on_world (denyFilesystemClient fx req)
  | None =>
      handler ← handlerOf (di_ProtocolType req);
      map_err protocolRPCError (on_world (DenyInitiator handler (di_VolumeId req) (di_InitiatorId req) (di_Fence req)))
  end.

Definition Server_SetLocalAttach (req : SetLocalAttachRequest P) : Rpc B string :=
  match sl_FilesystemAdoption req with
  | Some _ =>
      checkExportRestoreDone "SetLocalAttach" ;;
      on_world (localFilesystem fx req)
  | None =>
      _ ← lift (poolFromVolumeID (sl_VolumeId req));
      handler ← handlerOf (sl_ProtocolType req);
      checkExportRestoreDone "SetLocalAttach" ;;
      map_err protocolRPCError (on_world (SetLocalAttach handler (sl_VolumeId req) (sl_Local req) (sl_Fence req)))
  end.

(** ** ReconcileState *)

Definition nfs_Port : Z := 2049.

Definition exportDesiredState (vol : VolumeDesiredState P) (export : ExportEntry) (devicePath : string)
    : ExportDesiredState P :=
  let nfsParams :=
    if decide (ee_ProtocolType export = PROTOCOL_TYPE_NFS) then GetNfs (ee_ExportParams export) else None in
  {| ds_VolumeID := vd_VolumeId vol; ds_DevicePath := devicePath;
     ds_BindAddress := match nfsParams with Some p => nfs_BindAddress p | None => "" end;
     ds_Port := match nfsParams with Some _ => nfs_Port | None => 0 end;
     ds_ProtocolParams := ee_ExportParams export; ds_AllowedInitiators := ee_AllowedInitiators export;
     ds_ACLEnabled := ee_AclEnabled export; ds_Fence := vd_Fence vol; ds_LocalAttach := ee_LocalAttach export;
     ds_FilesystemAdoption := vd_FilesystemAdoption vol; ds_CapacityBytes := vd_CapacityBytes vol;
     ds_BackendParams := vd_BackendParams vol |}.

(** The handlers resolved so far, in first-seen order. *)
Record resolved := {
  rh_handlers : ProtocolType → option (AgentProtocolHandler B P);
  rh_protocolOrder : list ProtocolType;
}.

Fixpoint resolveHandlers (exports : list ExportEntry) (h : resolved) : GoResult unit * resolved :=
  match exports with
  | [] => (Ok tt, h)
  | export :: exports =>
      let protocolType := ee_ProtocolType export in
      match rh_handlers h protocolType with
      | Some _ => resolveHandlers exports h
      | None =>
          match handlerForProtocol s protocolType with
          | Err e => (Err e, h)
          | Ok handler =>
              resolveHandlers exports
                {| rh_handlers := <[protocolType := Some handler]> (rh_handlers h);
                   rh_protocolOrder := rh_protocolOrder h ++ [protocolType] |}
          end
      end
  end.

Definition resolveVolumeHandlers (vol : VolumeDesiredState P) (h : resolved) : GoResult string * resolved :=
  match backendForType s (vd_VolumeId vol) (vd_BackendType vol) with
  | Err e => (Err e, h)
  | Ok b =>
      match checkBackendType (vd_BackendType vol) (be_Type b) with
      | Err e => (Err e, h)
      | Ok _ =>
          match resolveHandlers (vd_Exports vol) h with
          | (Err e, h) => (Err e, h)
          | (Ok _, h) =>
              let devicePath := vd_DevicePath vol in
              if bool_decide (devicePath = "") && negb (bool_decide (vd_Exports vol = [])) then
                let devicePath := be_DevicePath b (vd_VolumeId vol) in
                if bool_decide (devicePath = "")
                then (Err (EStatus FailedPrecondition "ReconcileState: backend device path unavailable"), h)
                else (Ok devicePath, h)
              else (Ok devicePath, h)
          end
      end
  end.

(** What the first loop collects: per protocol the entries and the index of
    the volume of each. *)
Record collected := {
  co_failures : list (option go_error);
  co_desired : ProtocolType → list (ExportDesiredState P);
  co_volume : ProtocolType → list nat;
  co_resolved : resolved;
}.

Definition appendExport (vol : VolumeDesiredState P) (devicePath : string) (i : nat) (c : collected)
    (export : ExportEntry) : collected :=
  let p := ee_ProtocolType export in
  {| co_failures := co_failures c;
     co_desired := <[p := co_desired c p ++ [exportDesiredState vol export devicePath]]> (co_desired c);
     co_volume := <[p := co_volume c p ++ [i]]> (co_volume c);
     co_resolved := co_resolved c |}.

Definition fail_at (c : collected) (h : resolved) (e : option go_error) : collected :=
  {| co_failures := co_failures c ++ [e]; co_desired := co_desired c; co_volume := co_volume c; co_resolved := h |}.

Fixpoint collectVolumes (i : nat) (vols : list (VolumeDesiredState P)) (c : collected) : Agent B collected :=
  match vols with
  | [] => mret c
  | vol :: vols =>
      match vd_FilesystemAdoption vol with
      | Some _ =>
          r ← try (reconcileFilesystem fx vol);
          collectVolumes (S i) vols (fail_at c (co_resolved c) (err_of r))
      | None =>
          match resolveVolumeHandlers vol (co_resolved c) with
          | (Err e, h) => collectVolumes (S i) vols (fail_at c h (Some e))
          | (Ok devicePath, h) =>
              collectVolumes (S i) vols (foldl (appendExport vol devicePath i) (fail_at c h None) (vd_Exports vol))
          end
      end
  end.

(** [if errs[j] != nil && failures[volume] == nil { failures[volume] = errs[j] }] *)
Definition firstFailure (volume : nat) (e f : option go_error) (failures : list (option go_error))
    : list (option go_error) :=
  match e, f with Some _, None => <[volume := e]> failures | _, _ => failures end.

Fixpoint recordFailures (errs : list (option go_error)) (volumes : list nat) (failures : list (option go_error))
    {struct volumes} : GoResult (list (option go_error)) :=
  match volumes with
  | [] => Ok failures
  | volume :: volumes =>
      match errs, failures !! volume with
      | e :: errs, Some f =>
          recordFailures errs volumes (firstFailure volume e f failures)
      | _, _ => Err (EPlain "panic: index out of range")
      end
  end.

Fixpoint reconcileProtocols (order : list ProtocolType) (c : collected) (failures : list (option go_error))
    : Agent B (list (option go_error)) :=
  match order with
  | [] => mret failures
  | p :: order =>
      if bool_decide (co_desired c p = []) then reconcileProtocols order c failures
      else
        match rh_handlers (co_resolved c) p with
        | None => throw (EPlain "panic: nil pointer dereference")
        | Some handler =>
            errs ← Reconcile handler (co_desired c p);
            failures ← lift (recordFailures errs (co_volume c p) failures);
            reconcileProtocols order c failures
        end
  end.

Definition nothing_collected : collected := {|
  co_failures := []; co_desired := λ _, []; co_volume := λ _, [];
  co_resolved := {| rh_handlers := λ _, None; rh_protocolOrder := [] |} |}.

Definition reconcileVolumes (vols : list (VolumeDesiredState P)) : Agent B (list (option go_error)) :=
  c ← collectVolumes 0 vols nothing_collected;
  reconcileProtocols (rh_protocolOrder (co_resolved c)) c (co_failures c).

Definition error_text (e : go_error) : string :=
  match e with
  | EStatus _ m | EImportRefused m | EConflict m | ELayoutMismatch m | EInsufficientCapacity m | EPlain m => m
  end.

Definition reconcileResult (volumeID : string) (err : option go_error) : ReconcileItemResult :=
  match err with
  | None => {| ri_VolumeId := volumeID; ri_Success := true; ri_ErrorMessage := "" |}
  | Some e => {| ri_VolumeId := volumeID; ri_Success := false; ri_ErrorMessage := error_text e |}
  end.

Definition ReconcileState (req : ReconcileStateRequest P) : Rpc B (list ReconcileItemResult) :=
  (if negb (rs_Complete req) then checkExportRestoreDone "ReconcileState" else mret tt) ;;
  failures ← on_world (reconcileVolumes (rs_Volumes req));
  (if rs_Complete req then store_pending false else mret tt) ;;
  mret (zip_with (λ vol e, reconcileResult (vd_VolumeId vol) e) (rs_Volumes req) failures).
End Handlers.
