(* ===== verification/ServerExportCorrect.v ===== *)
(** * Correctness of the export RPCs

    While the restore of the exports is pending, no request makes anything
    reachable; the complete state sent with ReconcileState restores every
    volume it reports restored. *)
From stdpp Require Import base numbers list strings gmap functions pretty relations.
From Stdlib Require Import Ascii.
From S2P Require Import Prelude GoStd GoNet FencingMark FencingStore Backend Fencing FencingCorrect.
From S2P Require Import AgentServer RecoveryAuth Recovery FencingTheorems AgentServerCorrect.
From S2P Require Import LioFs LioTarget LioLaws ConfigfsEffects LioCorrect LioTheorems LioServing IscsiAgent IscsiAgentCorrect IscsiReconcile.
From S2P Require Import ServerExport.
Open Scope Z_scope.

(** ** The restore gate *)
Section Gate.
Context {B P : Type} (s : Server B P) (fx : FilesystemExports B P).
Implicit Types (a : agent_state B).

Inductive export_rpc :=
| RExport (req : ExportVolumeRequest P) | RUnexport (req : UnexportVolumeRequest)
| RAllow (req : AllowInitiatorRequest P) | RDeny (req : DenyInitiatorRequest)
| RLocalAttach (req : SetLocalAttachRequest P) | RReconcile (req : ReconcileStateRequest P).

Definition run_rpc (c : export_rpc) : Rpc B unit :=
  match c with
  | RExport req => ExportVolume s fx req ;; mret tt
  | RUnexport req => UnexportVolume s fx req
  | RAllow req => Server_AllowInitiator s fx req
  | RDeny req => Server_DenyInitiator s fx req
  | RLocalAttach req => Server_SetLocalAttach s fx req ;; mret tt
  | RReconcile req => ReconcileState s fx req ;; mret tt
  end.

(** The complete state of the agent, which ends the restore. *)
Definition complete (c : export_rpc) : bool := match c with RReconcile req => rs_Complete req | _ => false end.
(** Requests that take access away only. *)
Definition revokes (c : export_rpc) : bool := match c with RUnexport _ | RDeny _ => true | _ => false end.

(** Requests served one after the other, whatever their outcome. *)
Fixpoint run_rpcs (l : list export_rpc) a : agent_state B :=
  match l with [] => a | c :: l => run_rpcs l (run_rpc c a).2 end.

(** It fails without any effect. *)
Definition stopped {A} (m : Rpc B A) a : Prop := ∃ e, m a = (Err e, a).

Lemma stopped_bind {A C} (m : Rpc B A) (f : A → Rpc B C) a : stopped m a → stopped (m ≫= f) a.
Proof. intros [e He]. exists e. by apply M_bind_Err. Qed.
Lemma stopped_after {A C} (m : Rpc B A) (f : A → Rpc B C) a :
  (∀ r a', m a = (r, a') → a' = a) → (∀ x, stopped (f x) a) → stopped (m ≫= f) a.
Proof.
  intros Hm Hf. destruct (m a) as [[x|e] a'] eqn:E; pose proof (Hm _ _ eq_refl); subst a'.
  - destruct (Hf x) as [e He]. exists e. unfold mbind, M_bind. by rewrite E.
  - exists e. by apply M_bind_Err.
Qed.
Lemma stopped_throw {A} e a : stopped (throw e : Rpc B A) a.
Proof. by exists e. Qed.

Lemma gate_stops rpc a : ag_exportRestorePending a = true → stopped (checkExportRestoreDone rpc) a.
Proof. intros Hp. eexists. unfold checkExportRestoreDone, reads, mbind, M_bind. by rewrite Hp. Qed.
Lemma handlerOf_looks p r a a' : handlerOf s p a = (r, a') → a' = a.
Proof. unfold handlerOf, map_err, try, mbind, M_bind, lift. destruct (handlerForProtocol s p); by intros [= _ <-]. Qed.

(** While the restore is pending, a request that could make a volume
    reachable fails without any effect. *)
Lemma gated c a : ag_exportRestorePending a = true → complete c = false → revokes c = false → stopped (run_rpc c) a.
Proof.
  intros Hp Hc Hr. destruct c as [req|req|req|req|req|req]; try done; cbn [run_rpc].
  - apply stopped_bind. unfold ExportVolume. destruct (xr_FilesystemAdoption req).
    + case_decide; [apply stopped_throw|]. by apply stopped_bind, gate_stops.
    + apply stopped_after; [intros ? ?; apply handlerOf_looks|]. intros h. by apply stopped_bind, gate_stops.
  - unfold Server_AllowInitiator. destruct (ai_FilesystemAdoption req).
    + case_decide; [apply stopped_throw|]. by apply stopped_bind, gate_stops.
    + apply stopped_after; [intros ? ?; apply handlerOf_looks|]. intros h. by apply stopped_bind, gate_stops.
  - apply stopped_bind. unfold Server_SetLocalAttach. destruct (sl_FilesystemAdoption req).
    + by apply stopped_bind, gate_stops.
    + apply stopped_after; [by intros r a' [= _ <-]|]. intros _.
      apply stopped_after; [intros ? ?; apply handlerOf_looks|]. intros h. by apply stopped_bind, gate_stops.
  - apply stopped_bind. unfold ReconcileState. cbn in Hc. rewrite Hc. by apply stopped_bind, gate_stops.
Qed.
End Gate.

(** ** Revocations turn nothing on *)
Section Quiet.
Context {K P : Type} `{FSLaws K}.

(** Anything but turning a switch on. *)
Definition quiet : scope := {| s_new := λ _, True; s_mod := λ _, True; s_on := nothing |}.

(** What a handler promises the server: revoking never makes a volume
    reachable. *)
Class Revoking (h : AgentProtocolHandler K P) : Prop := {
  rv_Unexport v f : agent_does quiet (Unexport h v f);
  rv_Deny v i f : agent_does quiet (DenyInitiator h v i f);
}.
Class RevokingFilesystem (fx : FilesystemExports K P) : Prop := {
  rf_unexport v a f : agent_does quiet (unexportFilesystem fx v a f);
  rf_deny req : agent_does quiet (denyFilesystemClient fx req);
}.

Lemma quiet_mods d : mods quiet d.
Proof. by intros q. Qed.

#[export] Instance iscsi_revoking {C} (s : Server K P) (deps : IscsiDeps K C) : Revoking (iscsi_handler s deps).
Proof.
  split; cbn.
  - intros v f. unfold iscsi_Unexport, iscsiUnexport. apply agent_does_bind; [apply agent_does_lift|]. intros iqn.
    apply agent_does_fenced; [done|]. apply does_map_err. apply does_Remove; apply quiet_mods.
  - intros v i f. unfold iscsi_DenyInitiator. apply agent_does_bind; [apply agent_does_map_err, agent_does_lift|]. intros _.
    apply agent_does_bind; [apply agent_does_lift|]. intros t. apply agent_does_fenced; [done|].
    apply does_map_err, does_DenyInitiator. intros. apply quiet_mods.
Qed.
End Quiet.

Section Pending.
Context {K P : Type} `{FSLaws K} (s : Server K P) (fx : FilesystemExports K P).
Context (handlers_revoking : ∀ p h, handlerForProtocol s p = Ok h → Revoking h) `{!RevokingFilesystem fx}.
Implicit Types (a : agent_state K).

Definition state_ok a : Prop := disk_inv (w_disk (ag_world a)) ∧ fs_inv (w_backend (ag_world a)).
Definition kernel a : K := w_backend (ag_world a).

(** The gate stays, and no switch comes on. *)
Definition stays_off a a' : Prop :=
  ag_exportRestorePending a' = ag_exportRestorePending a ∧ state_ok a' ∧
  ∀ q, is_enable q → off (view (kernel a)) q → off (view (kernel a')) q.

Lemma stays_off_refl a : state_ok a → stays_off a a.
Proof. intros Ha. split; [done|]. by split. Qed.

Lemma on_world_quiet {A} (m : Agent K A) a r a' :
  agent_does quiet m → state_ok a → on_world m a = (r, a') → stays_off a a'.
Proof.
  intros Hm [Hd Hi] Hr. unfold on_world in Hr. destruct (m (ag_world a)) as [r1 w1] eqn:E. injection Hr as <- <-.
  destruct (Hm _ _ _ Hd Hi E) as [Hs He]. split_and!; [done|..|].
  - split; cbn; [by eapply disk_steps_inv|apply He].
  - intros q Hq. apply (eff_off _ _ _ He); [done|by intros []].
Qed.

Lemma mapped_quiet {A} f (m : Agent K A) a r a' :
  agent_does quiet m → state_ok a → map_err f (on_world m) a = (r, a') → stays_off a a'.
Proof.
  intros Hm Ha Hr. unfold map_err, try, mbind, M_bind in Hr. destruct (on_world m a) as [r1 a1] eqn:E.
  assert (a' = a1) as -> by (by destruct r1; injection Hr). by eapply on_world_quiet.
Qed.

Lemma handlerOf_Ok p h a a' : handlerOf s p a = (Ok h, a') → handlerForProtocol s p = Ok h.
Proof. unfold handlerOf, map_err, try, mbind, M_bind, lift. destruct (handlerForProtocol s p); by intros [= <- _]. Qed.

Lemma revoke_quiet c a r a' : revokes c = true → state_ok a → run_rpc s fx c a = (r, a') → stays_off a a'.
Proof using handlers_revoking RevokingFilesystem0.
  intros Hc Ha Hr. destruct c as [req|req|req|req|req|req]; try done; cbn [run_rpc] in Hr.
  - unfold UnexportVolume in Hr. destruct (ur_FilesystemAdoption req); [eapply on_world_quiet; [|done|done]; apply rf_unexport|].
    apply M_bind_inv in Hr as [(h&a1&H1&Hr)|(e&H1&->)]; pose proof (handlerOf_looks s _ _ _ _ H1) as ->;
      [|by apply stays_off_refl].
    apply handlerOf_Ok, handlers_revoking in H1. eapply mapped_quiet; [|done|done]. apply rv_Unexport.
  - unfold Server_DenyInitiator in Hr. destruct (di_FilesystemAdoption req).
    { case_decide; [injection Hr as <- <-; by apply stays_off_refl|]. eapply on_world_quiet; [|done|done]. apply rf_deny. }
    apply M_bind_inv in Hr as [(h&a1&H1&Hr)|(e&H1&->)]; pose proof (handlerOf_looks s _ _ _ _ H1) as ->;
      [|by apply stays_off_refl].
    apply handlerOf_Ok, handlers_revoking in H1. eapply mapped_quiet; [|done|done]. apply rv_Deny.
Qed.

(** C14: An agent that has restarted with its restore pending makes no volume
    reachable before it is sent the complete state: whatever requests it is
    served before that, every switch that is off stays off, and the restore is
    still pending. *)
Theorem restore_pending_nothing_on l a :
  state_ok a → ag_exportRestorePending a = true → Forall (λ c, complete c = false) l →
  stays_off a (run_rpcs s fx l a).
Proof using handlers_revoking RevokingFilesystem0.
  intros Ha Hp Hl. revert a Ha Hp. induction Hl as [|c l Hc Hl IH]; intros a Ha Hp; cbn; [by apply stays_off_refl|].
  assert (stays_off a (run_rpc s fx c a).2) as (H1&H2&H3).
  { destruct (revokes c) eqn:Er.
    - destruct (run_rpc s fx c a) as [r a'] eqn:E. by eapply revoke_quiet.
    - destruct (gated s fx c a Hp Hc Er) as [e He]. rewrite He. by apply stays_off_refl. }
  destruct (IH _ H2) as (H4&H5&H6); [by rewrite H1|]. split_and!; [by rewrite H4|done|]. auto.
Qed.
End Pending.

(** ** Collecting a complete state *)
Section Collect.
Context {B P : Type} (s : Server B P) (fx : FilesystemExports B P).
Implicit Types (c : collected (B := B) (P := P)) (vol : VolumeDesiredState P) (h : resolved (B := B) (P := P)).

Definition of_protocol (p : ProtocolType) (exports : list ExportEntry) : list ExportEntry :=
  filter (λ e, ee_ProtocolType e = p) exports.

Lemma append_exports vol dp i exports c :
  let c' := foldl (appendExport vol dp i) c exports in
  co_failures c' = co_failures c ∧ co_resolved c' = co_resolved c ∧
  ∀ p, co_desired c' p = co_desired c p ++ ((λ e, exportDesiredState vol e dp) <$> of_protocol p exports) ∧
       co_volume c' p = co_volume c p ++ replicate (length (of_protocol p exports)) i.
Proof.
  revert c. induction exports as [|e exports IH]; intros c; cbn [foldl].
  { split_and!; [done|done|]. intros p. by rewrite !app_nil_r. }
  destruct (IH (appendExport vol dp i c e)) as (H1&H2&H3). split_and!; [done|done|]. intros p.
  destruct (H3 p) as [-> ->]. unfold of_protocol. rewrite filter_cons. cbn.
  destruct (decide (ee_ProtocolType e = p)) as [<-|Hne].
  - rewrite !fn_lookup_insert, <- !app_assoc. done.
  - by rewrite !fn_lookup_insert_ne.
Qed.

(** Handlers are resolved once, in first-seen order. *)
Record resolved_inv h : Prop := {
  rh_ok p x : rh_handlers h p = Some x → handlerForProtocol s p = Ok x;
  rh_known p : p ∈ rh_protocolOrder h ↔ is_Some (rh_handlers h p);
  rh_once : NoDup (rh_protocolOrder h);
}.

Lemma resolved_add h p x :
  resolved_inv h → rh_handlers h p = None → handlerForProtocol s p = Ok x →
  resolved_inv {| rh_handlers := <[p := Some x]> (rh_handlers h); rh_protocolOrder := rh_protocolOrder h ++ [p] |}.
Proof.
  intros [Hok Hk Hn] Ex Eh. split; cbn.
  - intros q y. destruct (decide (q = p)) as [->|Hne].
    + rewrite fn_lookup_insert. by intros [= <-].
    + rewrite fn_lookup_insert_ne by done. apply Hok.
  - intros q. rewrite elem_of_app, list_elem_of_singleton. destruct (decide (q = p)) as [->|Hne].
    + rewrite fn_lookup_insert. split; [by eauto|by right].
    + rewrite fn_lookup_insert_ne by done. rewrite <- Hk. naive_solver.
  - apply NoDup_app. split_and!; [done| |apply NoDup_singleton]. intros q Hq ->%list_elem_of_singleton.
    apply Hk in Hq as [? Hq]. congruence.
Qed.

(** More handlers, from the exports given. *)
Definition resolved_more (exports : list ExportEntry) h h' : Prop :=
  (∀ p, p ∈ rh_protocolOrder h → p ∈ rh_protocolOrder h') ∧
  (∀ p, p ∈ rh_protocolOrder h' → p ∈ rh_protocolOrder h ∨ ∃ e, e ∈ exports ∧ ee_ProtocolType e = p).

Lemma resolveHandlers_inv exports h r h' :
  resolved_inv h → resolveHandlers s exports h = (r, h') →
  resolved_inv h' ∧ resolved_more exports h h' ∧
  (r = Ok tt → ∀ e, e ∈ exports → ee_ProtocolType e ∈ rh_protocolOrder h').
Proof.
  revert h. induction exports as [|e exports IH]; intros h Hi Hr; cbn in Hr.
  { injection Hr as <- <-. split; [done|]. split; [by split; [|left]|]. intros _ ? []%elem_of_nil. }
  destruct (rh_handlers h (ee_ProtocolType e)) as [x|] eqn:Ex.
  - destruct (IH h Hi Hr) as (H1&[H2 H3]&H4). split; [done|]. split; [split; [done|]|].
    + intros p [?|(e'&?&?)]%H3; [by left|right]. exists e'. split; [by right|done].
    + intros Hok e' [->|He']%elem_of_cons; [apply H2, (rh_known _ Hi); eauto|by apply H4].
  - destruct (handlerForProtocol s (ee_ProtocolType e)) as [x|err] eqn:Eh.
    2:{ injection Hr as <- <-. split; [done|]. split; [by split; [|left]|done]. }
    destruct (IH _ (resolved_add _ _ _ Hi Ex Eh) Hr) as (H1&[H2 H3]&H4).
    cbn in H2, H3. setoid_rewrite elem_of_app in H2. setoid_rewrite elem_of_app in H3.
    split; [done|]. split; [split; [auto|]|].
    + intros p [[?| ->%list_elem_of_singleton]|(e'&?&?)]%H3; [by left|right; exists e; split; [by left|done]|right].
      exists e'. split; [by right|done].
    + intros Hok e' [->|He']%elem_of_cons; [apply H2; right; by apply list_elem_of_singleton|by apply H4].
Qed.

(** The device of a volume: the one given, or its backend's. *)
Definition volume_device vol : string :=
  if bool_decide (vd_DevicePath vol = "") then
    match backendForType s (vd_VolumeId vol) (vd_BackendType vol) with
    | Ok b => be_DevicePath b (vd_VolumeId vol)
    | Err _ => ""
    end
  else vd_DevicePath vol.

Lemma resolveVolume_inv vol h r h' :
  resolved_inv h → resolveVolumeHandlers s vol h = (r, h') →
  resolved_inv h' ∧ resolved_more (vd_Exports vol) h h' ∧
  ∀ dp, r = Ok dp → ∀ e, e ∈ vd_Exports vol → ee_ProtocolType e ∈ rh_protocolOrder h' ∧ dp = volume_device vol.
Proof.
  intros Hi Hr. assert (resolved_more (vd_Exports vol) h h) as Hm by (split; [done|by left]).
  unfold resolveVolumeHandlers in Hr. unfold volume_device.
  destruct (backendForType s _ _) as [b|]; [|injection Hr as <- <-; split; [done|]; split; [done|naive_solver]].
  destruct (checkBackendType _ _); [|injection Hr as <- <-; split; [done|]; split; [done|naive_solver]].
  destruct (resolveHandlers s (vd_Exports vol) h) as [r1 h1] eqn:E.
  destruct (resolveHandlers_inv _ _ _ _ Hi E) as (H1&H2&H3).
  assert (h' = h1) as -> by (destruct r1; repeat case_match; by injection Hr). split; [done|]. split; [done|].
  intros dp -> e He. destruct r1 as [[]|]; [|done]. split; [by apply H3|].
  rewrite (bool_decide_eq_false_2 (vd_Exports vol = [])) in Hr by (by intros Hn; rewrite Hn in He; apply elem_of_nil in He).
  rewrite andb_true_r in Hr. repeat case_match; congruence.
Qed.

(** After the first [n] volumes of [all]: every entry belongs to one of them,
    and a managed volume without failure has all its exports collected. *)
Record collected_inv (all : list (VolumeDesiredState P)) (n : nat) c : Prop := {
  ci_length : length (co_failures c) = n;
  ci_same p : length (co_volume c p) = length (co_desired c p);
  ci_entry p j d : co_desired c p !! j = Some d → ∃ i vol e,
    co_volume c p !! j = Some i ∧ all !! i = Some vol ∧ e ∈ vd_Exports vol ∧ ee_ProtocolType e = p ∧
    d = exportDesiredState vol e (volume_device vol) ∧ co_failures c !! i = Some None;
  ci_all i vol e : all !! i = Some vol → vd_FilesystemAdoption vol = None → co_failures c !! i = Some None → e ∈ vd_Exports vol → ∃ j,
    co_volume c (ee_ProtocolType e) !! j = Some i ∧
    co_desired c (ee_ProtocolType e) !! j = Some (exportDesiredState vol e (volume_device vol));
  ci_order p : co_desired c p ≠ [] → p ∈ rh_protocolOrder (co_resolved c);
  ci_resolved : resolved_inv (co_resolved c);
  ci_protocol p : p ∈ rh_protocolOrder (co_resolved c) → ∃ vol e, vol ∈ all ∧ e ∈ vd_Exports vol ∧ ee_ProtocolType e = p;
  ci_once p : (∀ vol, vol ∈ all → (length (of_protocol p (vd_Exports vol)) ≤ 1)%nat) → NoDup (co_volume c p);
}.

Lemma nothing_inv all : collected_inv all 0 nothing_collected.
Proof.
  split; cbn; try done.
  - split; cbn; [done| |constructor]. intros p. split; [by intros []%elem_of_nil|by intros [? ?]].
  - by intros p []%elem_of_nil.
  - intros p _. constructor.
Qed.

Lemma of_protocol_elem p e l : e ∈ of_protocol p l ↔ e ∈ l ∧ ee_ProtocolType e = p.
Proof. unfold of_protocol. rewrite list_elem_of_filter. tauto. Qed.

Lemma more_protocols (all : list (VolumeDesiredState P)) vol h h' : vol ∈ all → resolved_more (vd_Exports vol) h h' →
  (∀ p, p ∈ rh_protocolOrder h → ∃ vol e, vol ∈ all ∧ e ∈ vd_Exports vol ∧ ee_ProtocolType e = p) →
  ∀ p, p ∈ rh_protocolOrder h' → ∃ vol e, vol ∈ all ∧ e ∈ vd_Exports vol ∧ ee_ProtocolType e = p.
Proof. intros Hv [_ Hm] Hp p [?|(e&?&?)]%Hm; [auto|by exists vol, e]. Qed.

(** A volume that failed, or that is an adopted filesystem. *)
Lemma failed_inv all n c vol h e :
  collected_inv all n c → all !! n = Some vol → resolved_inv h → resolved_more (vd_Exports vol) (co_resolved c) h →
  e ≠ None ∨ vd_FilesystemAdoption vol ≠ None → collected_inv all (S n) (fail_at c h e).
Proof.
  intros [Hl Hs He Ha Ho Hr Hp Hn] Hv Hi Hm Hfail. split; cbn; try done.
  - rewrite length_app. cbn. lia.
  - intros p j d Hd. destruct (He p j d Hd) as (i&vol'&e'&?&?&?&?&?&Hf). exists i, vol', e'. split_and!; try done.
    by rewrite lookup_app_l by (by apply lookup_lt_Some in Hf).
  - intros i vol' e' Hi' Hman Hf He'. destruct (decide (i = n)) as [->|Hne].
    + rewrite <- Hl, list_lookup_middle in Hf by done. injection Hf as ->. assert (vol' = vol) as -> by congruence. by destruct Hfail.
    + eapply Ha; [done|done| |done]. apply lookup_app_Some in Hf as [?|[? Hf]]; [done|].
      apply list_lookup_singleton_Some in Hf as [? ?]. lia.
  - intros p Hp'. apply Hm, Ho, Hp'.
  - eapply more_protocols; [by eapply list_elem_of_lookup_2|done|done].
Qed.

(** A volume whose exports are collected. *)
Lemma appended_inv all n c vol h dp :
  collected_inv all n c → all !! n = Some vol → resolved_inv h → resolved_more (vd_Exports vol) (co_resolved c) h →
  (∀ e, e ∈ vd_Exports vol → ee_ProtocolType e ∈ rh_protocolOrder h ∧ dp = volume_device vol) →
  collected_inv all (S n) (foldl (appendExport vol dp n) (fail_at c h None) (vd_Exports vol)).
Proof.
  intros [Hl Hs He Ha Ho Hr Hp Hn] Hv Hi Hm Hall.
  destruct (append_exports vol dp n (vd_Exports vol) (fail_at c h None)) as (Hf&Hres&Hde).
  split; rewrite ?Hf, ?Hres; cbn; try done.
  - rewrite length_app. cbn. lia.
  - intros p. destruct (Hde p) as [-> ->]. cbn. rewrite !length_app, length_replicate, length_fmap, Hs. done.
  - intros p j d Hd. destruct (Hde p) as [Hd' Hvo]. rewrite Hd' in Hd. rewrite Hvo. cbn in *.
    apply lookup_app_Some in Hd as [Hd|[Hj Hd]].
    + destruct (He p j d Hd) as (i&vol'&e'&Hi'&?&?&?&?&Hfi). exists i, vol', e'. split_and!; try done.
      * by rewrite lookup_app_l by (by apply lookup_lt_Some in Hi').
      * by rewrite lookup_app_l by (by apply lookup_lt_Some in Hfi).
    + apply list_lookup_fmap_Some_1 in Hd as (e'&->&Hd). pose proof (lookup_lt_Some _ _ _ Hd) as Hlt.
      apply list_elem_of_lookup_2, of_protocol_elem in Hd as [Hin Hpe]. destruct (Hall e' Hin) as [_ ->]. exists n, vol, e'. split_and!; try done.
      * rewrite lookup_app_r, Hs by (by rewrite Hs). by apply lookup_replicate_2.
      * by rewrite <- Hl, list_lookup_middle.
  - intros i vol' e' Hi' Hman Hfi He'. destruct (Hde (ee_ProtocolType e')) as [-> ->]. cbn. destruct (decide (i = n)) as [->|Hne].
    + assert (vol' = vol) as -> by congruence.
      assert (e' ∈ of_protocol (ee_ProtocolType e') (vd_Exports vol)) as (j&Hj)%list_elem_of_lookup by by apply of_protocol_elem.
      pose proof (lookup_lt_Some _ _ _ Hj) as Hlt.
      destruct (Hall e' He') as [_ ->]. exists (length (co_desired c (ee_ProtocolType e')) + j)%nat. split.
      * rewrite lookup_app_r, Hs by (rewrite Hs; lia). apply lookup_replicate_2. lia.
      * rewrite lookup_app_r by lia. replace (_ + j - _)%nat with j by lia. by rewrite list_lookup_fmap, Hj.
    + assert (co_failures c !! i = Some None) as Hfi'.
      { apply lookup_app_Some in Hfi as [?|[? Hfi]]; [done|]. apply list_lookup_singleton_Some in Hfi as [? ?]. lia. }
      destruct (Ha i vol' e' Hi' Hman Hfi' He') as (j&H1&H2). exists j.
      split; rewrite lookup_app_l; try done; by eapply lookup_lt_Some.
  - intros p Hd'. destruct (Hde p) as [Hd _]. rewrite Hd in Hd'. cbn in Hd'.
    destruct (of_protocol p (vd_Exports vol)) as [|e l] eqn:El.
    + apply Hm, Ho. cbn in Hd'. by rewrite app_nil_r in Hd'.
    + assert (e ∈ of_protocol p (vd_Exports vol)) as [Hin <-]%of_protocol_elem by (rewrite El; by left). by apply Hall.
  - eapply more_protocols; [by eapply list_elem_of_lookup_2|done|done].
  - intros p H1. destruct (Hde p) as [_ ->]. cbn. apply NoDup_app. split_and!; [by apply Hn| |].
    + intros i Hin [-> _]%elem_of_replicate. apply list_elem_of_lookup in Hin as [j Hj].
      destruct (lookup_lt_is_Some_2 (co_desired c p) j) as [d Hd]; [rewrite <- Hs; by eapply lookup_lt_Some|].
      destruct (He p j d Hd) as (i&?&?&Hi'&_&_&_&_&Hfi). assert (i = n) as -> by congruence.
      apply lookup_lt_Some in Hfi. lia.
    + specialize (H1 vol ltac:(by eapply list_elem_of_lookup_2)).
      destruct (length (of_protocol _ _)) as [|[|]]; [constructor|apply NoDup_singleton|lia].
Qed.

(** Collecting the volumes only runs the adopted filesystems among them. *)
Lemma collect_run (ok : world B → Prop) all vols c n w :
  (∀ vol w r w', ok w → reconcileFilesystem fx vol w = (r, w') → ok w') →
  vols = drop n all → collected_inv all n c → ok w →
  ∃ c' w', collectVolumes s fx n vols c w = (Ok c', w') ∧ ok w' ∧ collected_inv all (n + length vols) c'.
Proof.
  intros Hfx. revert c n w. induction vols as [|vol vols IH]; intros c n w Hd Hc Hw.
  { exists c, w. cbn. by rewrite Nat.add_0_r. }
  assert (all !! n = Some vol) as Hn by (rewrite <- (Nat.add_0_r n), <- lookup_drop, <- Hd; done).
  assert (vols = drop (S n) all) as Hd' by (rewrite <- Nat.add_1_r, <- drop_drop, <- Hd; done).
  replace (n + length (vol :: vols))%nat with (S n + length vols)%nat by (cbn; lia).
  cbn [collectVolumes]. destruct (vd_FilesystemAdoption vol) as [ad|] eqn:Had.
  - unfold mbind, M_bind, try. destruct (reconcileFilesystem fx vol w) as [r w1] eqn:Er. cbn.
    apply IH; [done| |by eapply Hfx]. eapply failed_inv; [done|done|apply Hc|by split; [|left]|right; congruence].
  - destruct (resolveVolumeHandlers s vol (co_resolved c)) as [r h] eqn:Er.
    destruct (resolveVolume_inv _ _ _ _ (ci_resolved _ _ _ Hc) Er) as (H1&H2&H3). destruct r as [dp|e]; (apply IH; [done| |done]).
    + apply appended_inv; try done. by apply H3.
    + eapply failed_inv; [done..|by left].
Qed.
End Collect.

(** ** Restoring the exports *)

(** What is recorded for a volume is the first failure of its entries. *)
Lemma recordFailures_spec errs volumes failures :
  (length volumes ≤ length errs)%nat → (∀ i, i ∈ volumes → (i < length failures)%nat) →
  ∃ final, recordFailures errs volumes failures = Ok final ∧ length final = length failures ∧
    ∀ i, final !! i = Some None → failures !! i = Some None ∧ ∀ j, volumes !! j = Some i → errs !! j = Some None.
Proof.
  revert errs failures. induction volumes as [|v volumes IH]; intros errs failures Hl Hv; cbn.
  { exists failures. split_and!; [done|done|]. intros i Hi. split; [done|]. by intros j Hj. }
  destruct errs as [|e errs]; [cbn in Hl; lia|]. cbn in Hl.
  destruct (lookup_lt_is_Some_2 failures v) as [f Hf]; [apply Hv; by left|]. rewrite Hf.
  set (failures1 := firstFailure v e f failures).
  assert (length failures1 = length failures) as Hlen by (unfold failures1, firstFailure; destruct e, f; by rewrite ?length_insert).
  destruct (IH errs failures1) as (final&Hr&Hlf&Hi); [lia|intros i Hin; rewrite Hlen; apply Hv; by right|].
  exists final. split_and!; [done|lia|]. intros i Hfin. destruct (Hi i Hfin) as [H1 H2].
  assert (failures !! i = Some None ∧ (i = v → e = None)) as [H3 H4].
  { unfold failures1, firstFailure in H1. destruct e as [e|]; [|by split]. destruct f as [f|]; [by split; [|intros ->; congruence]|].
    destruct (decide (i = v)) as [->|Hne]; [by rewrite list_lookup_insert_eq in H1 by (by eapply lookup_lt_Some)|].
    rewrite list_lookup_insert_ne in H1 by done. done. }
  split; [done|]. intros [|j]; cbn; [intros [= ->]; by rewrite H4|apply H2].
Qed.

(** ** Restoring the exports of all protocols *)
Section Restore.
Context {B P : Type} (s : Server B P) (fx : FilesystemExports B P).
Implicit Types (a : agent_state B) (vol : VolumeDesiredState P) (w : world B) (d : ExportDesiredState P).

(** What a complete state is restored against: an invariant of the node, the
    entries a protocol can restore together, and when one of them is
    restored. *)
Context (ok : world B → Prop) (good : ProtocolType → list (ExportDesiredState P) → Prop)
  (restored : ProtocolType → ExportDesiredState P → world B → Prop).

(** A protocol handler reports on every entry; those without an error are
    restored, and the exports of the other protocols stay restored. *)
Definition restores (p : ProtocolType) (h : AgentProtocolHandler B P) : Prop :=
  ∀ desired w r w', good p desired → ok w → Reconcile h desired w = (r, w') →
    ok w' ∧ (∀ q d, q ≠ p → restored q d w → restored q d w') ∧
    ∃ errs, r = Ok errs ∧ length errs = length desired ∧ ∀ j d, desired !! j = Some d → errs !! j = Some None → restored p d w'.

Context (handlers_restore : ∀ p h, handlerForProtocol s p = Ok h → restores p h)
  (filesystems_apart : ∀ vol w r w', ok w → reconcileFilesystem fx vol w = (r, w') → ok w').

(** The protocols one after the other: an entry of a volume without a failure
    is restored at the end. *)
Lemma reconcileProtocols_run vols c order w r w' failures :
  collected_inv s vols (length vols) c → (∀ p, co_desired c p ≠ [] → good p (co_desired c p)) → ok w → NoDup order →
  (∀ p, p ∈ order → p ∈ rh_protocolOrder (co_resolved c)) → length failures = length vols →
  reconcileProtocols order c failures w = (r, w') →
  ok w' ∧ (∀ q d, q ∉ order → restored q d w → restored q d w') ∧
  ∃ final, r = Ok final ∧ length final = length vols ∧
    ∀ i, final !! i = Some None → failures !! i = Some None ∧
      ∀ p j d, p ∈ order → co_volume c p !! j = Some i → co_desired c p !! j = Some d → restored p d w'.
Proof using handlers_restore.
  intros Hinv Hgood. revert w failures. induction order as [|p order IH]; intros w failures Hw Hnd Hord Hl Hr; cbn in Hr.
  { injection Hr as <- <-. split_and!; [done|done|]. exists failures. split_and!; [done|done|]. intros i Hf. split; [done|]. by intros ? ? ? ?%elem_of_nil. }
  apply NoDup_cons in Hnd as [Hp Hnd]. assert (∀ q, q ∈ order → q ∈ rh_protocolOrder (co_resolved c)) as Hord' by (intros; apply Hord; by right).
  case_bool_decide as Hn.
  { destruct (IH w failures Hw Hnd Hord' Hl Hr) as (H1&H2&final&->&H4&H5). split_and!; [done|intros q d Hq; apply H2; rewrite elem_of_cons in Hq; tauto|].
    exists final. split_and!; [done|done|]. intros i Hf. destruct (H5 i Hf) as [H6 H7]. split; [done|].
    intros q j d [->|Hq]%elem_of_cons Hj Hdj; [by rewrite Hn in Hdj|by eapply H7]. }
  destruct (proj1 (rh_known s _ (ci_resolved _ _ _ _ Hinv) p)) as [h Hh]; [apply Hord; by left|]. rewrite Hh in Hr.
  apply (rh_ok s _ (ci_resolved _ _ _ _ Hinv)) in Hh. unfold mbind, M_bind in Hr. destruct (Reconcile h (co_desired c p) w) as [r1 w1] eqn:Er.
  destruct (handlers_restore _ _ Hh _ _ _ _ (Hgood p Hn) Hw Er) as (Hw1&Hkeep&errs&->&Hle&Hrest).
  destruct (recordFailures_spec errs (co_volume c p) failures) as (failures1&Hrec&Hlf&Hfin).
  { by rewrite Hle, (ci_same _ _ _ _ Hinv). }
  { intros i (j&Hj)%list_elem_of_lookup. destruct (lookup_lt_is_Some_2 (co_desired c p) j) as [d Hdj].
    { rewrite <- (ci_same _ _ _ _ Hinv). by eapply lookup_lt_Some. }
    destruct (ci_entry _ _ _ _ Hinv _ _ _ Hdj) as (i'&_&_&Hi'&_&_&_&_&Hf). assert (i' = i) as <- by congruence.
    apply lookup_lt_Some in Hf. rewrite (ci_length _ _ _ _ Hinv) in Hf. lia. }
  unfold lift in Hr. rewrite Hrec in Hr. cbn in Hr. destruct (IH w1 failures1 Hw1 Hnd Hord' ltac:(lia) Hr) as (H1&H2&final&->&H4&H5). split_and!; [done| |].
  { intros q d Hq Hq'. rewrite not_elem_of_cons in Hq. destruct Hq as [Hqp Hq]. apply H2; [done|]. by apply Hkeep. }
  exists final. split_and!; [done|done|]. intros i Hf. destruct (H5 i Hf) as [H6 H7]. destruct (Hfin i H6) as [H8 H9]. split; [done|].
  intros q j d [->|Hq]%elem_of_cons Hj Hdj; [|by eapply H7]. apply H2; [done|]. eapply Hrest; [done|]. by apply H9.
Qed.

(** The volumes restored, as ReconcileState reports them. *)
Lemma results_spec (vols : list (VolumeDesiredState P)) failures : length failures = length vols →
  let results := zip_with (λ vol e, reconcileResult (vd_VolumeId vol) e) vols failures in
  map ri_VolumeId results = map vd_VolumeId vols ∧
  ∀ i x, results !! i = Some x → ri_Success x = true → failures !! i = Some None.
Proof.
  intros Hl. cbn. split.
  - revert failures Hl. induction vols as [|vol vols IH]; intros [|f failures] Hl; try done. cbn. f_equal; [by destruct f|].
    apply IH. by injection Hl.
  - intros i x Hx Hok. apply lookup_zip_with_Some in Hx as (vol&f&->&_&Hf). by destruct f.
Qed.

(** A complete state, against any handlers that restore. *)
Lemma ReconcileState_run req a r a' :
  ok (ag_world a) → rs_Complete req = true →
  (∀ c p, collected_inv s (rs_Volumes req) (length (rs_Volumes req)) c → co_desired c p ≠ [] → good p (co_desired c p)) → ReconcileState s fx req a = (r, a') →
  ag_exportRestorePending a' = false ∧ ok (ag_world a') ∧
  ∃ results, r = Ok results ∧ map ri_VolumeId results = map vd_VolumeId (rs_Volumes req) ∧
    ∀ i vol e x, rs_Volumes req !! i = Some vol → vd_FilesystemAdoption vol = None → e ∈ vd_Exports vol →
      results !! i = Some x → ri_Success x = true →
      restored (ee_ProtocolType e) (exportDesiredState vol e (volume_device s vol)) (ag_world a').
Proof using handlers_restore filesystems_apart.
  intros Hw Hc Hgood Hr. unfold ReconcileState in Hr. rewrite Hc in Hr. cbn in Hr.
  unfold mbind, M_bind, on_world, reconcileVolumes, mbind, M_bind in Hr. cbn in Hr.
  destruct (collect_run s fx ok (rs_Volumes req) (rs_Volumes req) nothing_collected 0 (ag_world a) filesystems_apart eq_refl (nothing_inv s _) Hw)
    as (c&w1&Hcol&Hw1&Hinv). rewrite Hcol in Hr. cbn [Nat.add] in Hinv. destruct (reconcileProtocols _ _ _ _) as [r1 w2] eqn:Er.
  destruct (reconcileProtocols_run _ _ _ _ _ _ _ Hinv (λ p, Hgood c p Hinv) Hw1 (rh_once _ _ (ci_resolved _ _ _ _ Hinv)) (λ p Hp, Hp)
    (ci_length _ _ _ _ Hinv) Er) as (Hw2&_&failures&->&Hl&Hf).
  injection Hr as <- <-. split_and!; [done|done|]. destruct (results_spec (rs_Volumes req) failures Hl) as [H1 H2].
  eexists. split_and!; [done|done|]. intros i vol e x Hv Hman He Hx Hok. destruct (Hf i (H2 i x Hx Hok)) as [H3 H4].
  destruct (ci_all _ _ _ _ Hinv i vol e Hv Hman H3 He) as (j&Hj&Hdj). eapply H4; [|done|done].
  apply (ci_order _ _ _ _ Hinv). intros Hn. by rewrite Hn in Hdj.
Qed.
End Restore.
