(* ===== verification/ExportDemo.v ===== *)
(** * The export components on the emulated kernel

    An agent with one pool whose iSCSI exports live in the emulated LIO kernel
    of liotest: it exports, reconciles, detaches and removes volume "p/v".
    The theorems on exports are applied to these runs. *)
From stdpp Require Import base numbers list strings gmap pretty relations.
From Stdlib Require Import Ascii.
From S2P Require Import Prelude GoStd GoNet FencingMark FencingStore Backend Fencing FencingCorrect.
From S2P Require Import AgentServer RecoveryAuth Recovery FencingTheorems AgentServerCorrect.
From S2P Require Import LioFs LioTarget LioLaws ConfigfsEffects LioCorrect LioTheorems LioServing LioKernel LioKernelLaws.
From S2P Require Import IscsiAgent IscsiAgentCorrect IscsiReconcile ServerExport ServerExportCorrect.
Open Scope Z_scope.

Definition dm_deps : IscsiDeps Kernel unit := {|
  deviceChecker := None; OsStatDeviceChecker := λ _, mret true; polls := 3;
  deviceClaimer := Claimer; releaseClaim := λ _, mret tt; deriveUnitSerial := λ _, "serial" |}.

Definition dm_backend : VolumeBackend Kernel unit := {|
  be_Type := BACKEND_TYPE_ZFS_ZVOL; be_Layout := {| ly_ParentDataset := ""; ly_ThinPool := ""; ly_HostRoot := "" |};
  be_DevicePath := λ v, "/" +:+ v; be_Create := λ _ _ _, mret ("/d"%string, 0); be_Delete := λ _, mret tt;
  be_Expand := λ _ n, mret n; be_Import := None; be_ImportLV := None; be_VerifyLV := None; be_InspectLV := None;
  be_ExistingFilesystemIdentity := None |}.

Definition dm_bare : Server Kernel unit := {|
  backends := {[ "p" := dm_backend ]}; backendVariants := ∅; nfsManager := false;
  handlerForProtocol := λ _, Err (EStatus Unimplemented "protocol");
  ResizeNamespace := λ _, mret tt; configfsRoot := "/c"; configfs := λ _ _, CfsAbsent |}.
Definition dm_server : Server Kernel unit := {|
  backends := backends dm_bare; backendVariants := ∅; nfsManager := false;
  handlerForProtocol := λ p,
    if decide (p = PROTOCOL_TYPE_ISCSI) then Ok (iscsi_handler dm_bare dm_deps)
    else Err (EStatus Unimplemented "protocol");
  ResizeNamespace := λ _, mret tt; configfsRoot := "/c"; configfs := λ _ _, CfsAbsent |}.

#[export] Instance dm_deps_look : DepsLook dm_deps.
Proof.
  split; intros; intros k Hk; try by apply wp_ret.
  - exact (Claimer_looks d k Hk).
  - done.
Qed.

Definition dm_kernel : Kernel := New ["c"].
Lemma dm_kernel_inv : fs_inv dm_kernel.
Proof. by apply New_inv. Qed.
Definition dm_world : world Kernel := World (w_disk ex_world) [] dm_kernel.

Definition dm_chap : IscsiChap := {|
  ic_Username := "u"; ic_Password := "passwordpassword"; ic_MutualUsername := ""; ic_MutualPassword := "" |}.
Definition dm_params : ProtocolParams := PPIscsi {| ip_BindAddress := "10.0.0.1"; ip_Port := 0; ip_Chap := Some dm_chap |}.
Definition dm_fence (n : Z) : option FencingToken := Some {| VolumeUid := "uid"; TokenGeneration := n |}.

(** ** One target *)
Definition dm_target : Target := {|
  ConfigfsRoot := "/c"; IQN := "iqn.2026-01.com.bhyoo.pillar-csi:p.v"; DevicePath := "/d"; BindAddress := "10.0.0.1";
  TPort := 3260; ACLEnabled := true; AllowedInitiators := ["iqn.2020-01.a:i"]; UnitSerial := ""; LocalAttach := false;
  TargetCHAP := Some {| chap_Username := "u"; chap_Password := "p"; chap_MutualUsername := ""; chap_MutualPassword := "" |} |}.
#[export] Instance dm_target_wf : wf_target dm_target.
Proof. split; reflexivity. Qed.

Definition dm_applied : GoResult unit * Kernel := Apply Claimer (λ _, mret tt) (λ _, "serial") dm_target dm_kernel.
Definition dm_entered := EnterLocalAttach Claimer (λ _, mret tt) dm_target dm_applied.2.
Definition dm_removed := Remove dm_target dm_applied.2.

Lemma dm_claimer_looks d k : fs_inv k → wp (Claimer d) (λ _ k', fs_inv k' ∧ view k' = view k) k.
Proof. apply (Claimer_looks d k). Qed.
Lemma dm_release_looks (c : unit) (k : Kernel) :
  fs_inv k → wp (mret tt : M Kernel go_error unit) (λ _ k', fs_inv k' ∧ view k' = view k) k.
Proof. intros Hk. by apply wp_ret. Qed.

Lemma dm_applied_eq : Apply Claimer (λ _, mret tt) (λ _, "serial"%string) dm_target dm_kernel = (Ok tt, dm_applied.2).
Proof. vm_compute. reflexivity. Qed.
Lemma dm_applied_inv : fs_inv dm_applied.2.
Proof.
  refine (eff_inv _ _ _ (does_run _ _ _ _ _ (run_lio_does Claimer (λ _, mret tt) (λ _, "serial"%string) dm_claimer_looks
    dm_release_looks LApply dm_target) dm_kernel_inv dm_applied_eq)).
Qed.

Lemma Remove_complete_witness : view dm_removed.2 (targetDir dm_target) = None.
Proof.
  apply (Remove_complete dm_target dm_applied.2); [exact dm_applied_inv|vm_compute; reflexivity|by left].
Defined.

Lemma DenyInitiator_exact_witness :
  view (Target_DenyInitiator dm_target "iqn.2020-01.a:i" dm_applied.2).2 (aclDir dm_target "iqn.2020-01.a:i") = None.
Proof.
  eapply (DenyInitiator_exact dm_target "iqn.2020-01.a:i" dm_applied.2 _ _ dm_applied_inv (surjective_pairing _)); [|done].
  vm_compute. reflexivity.
Defined.

Lemma EnterLocalAttach_exclusive_witness : detached dm_target dm_entered.2 ∧ backstore_of dm_target dm_applied.2 "/d" ∧
  ∃ c k1 k2, detached dm_target k1 ∧ Claimer "/d" k1 = (Ok c, k2).
Proof.
  destruct (EnterLocalAttach_exclusive Claimer (λ _, mret tt) dm_target dm_claimer_looks dm_release_looks "/d" dm_applied.2 dm_entered.2
    dm_applied_inv) as [Hd [[Hno _]|[Hb Hc]]]; [vm_compute; reflexivity| |by split_and!].
  exfalso. cut ("/d" = ""); [done|]. apply Hno. eexists. split; [eexists; split; [vm_compute; reflexivity|vm_compute; reflexivity]|vm_compute; reflexivity].
Defined.

(** A local attach that failed because the device is held has removed the
    backstore: tried again, it hands the held device out without a probe. *)
Definition dm_refuse (d : string) : M Kernel go_error unit := throw ErrDeviceHeld.
Definition dm_denied := EnterLocalAttach dm_refuse (λ _, mret tt) dm_target dm_applied.2.
Lemma local_attach_retry_unprobed : dm_denied.1 = Err ErrDeviceHeld ∧
  (EnterLocalAttach dm_refuse (λ _, mret tt) dm_target dm_denied.2).1 = Ok "/d".
Proof. split; vm_compute; reflexivity. Qed.

Lemma Apply_policy_before_enable_witness :
  off (view dm_applied.2) (tpgEnable dm_target) ∨ guarded dm_target dm_applied.2.
Proof.
  apply (Apply_policy_before_enable Claimer (λ _, mret tt) (λ _, "serial"%string) dm_claimer_looks dm_release_looks
           dm_target dm_kernel (Ok tt));
    [exact dm_kernel_inv|reflexivity|vm_compute; discriminate|exact dm_applied_eq].
Defined.

Lemma Apply_serves_witness : guarded dm_target dm_applied.2.
Proof.
  apply (Apply_serves Claimer (λ _, mret tt) (λ _, "serial"%string) dm_claimer_looks dm_release_looks dm_target dm_kernel);
    [exact dm_kernel_inv|reflexivity|exact dm_applied_eq].
Defined.

Definition dm_prepared : GoResult unit * Kernel := Prepare Claimer (λ _, mret tt) (λ _, "serial") dm_target dm_kernel.
Lemma dm_prepared_eq : Prepare Claimer (λ _, mret tt) (λ _, "serial"%string) dm_target dm_kernel = (Ok tt, dm_prepared.2).
Proof. vm_compute. reflexivity. Qed.
Lemma dm_prepared_inv : fs_inv dm_prepared.2.
Proof.
  refine (eff_inv _ _ _ (does_run _ _ _ _ _ (run_lio_does Claimer (λ _, mret tt) (λ _, "serial"%string) dm_claimer_looks
    dm_release_looks LPrepare dm_target) dm_kernel_inv dm_prepared_eq)).
Qed.

Lemma LeaveLocalAttach_guarded_witness :
  access_policy dm_target (LeaveLocalAttach Claimer (λ _, mret tt) (λ _, "serial"%string) dm_target dm_prepared.2).2.
Proof.
  apply (LeaveLocalAttach_guarded Claimer (λ _, mret tt) (λ _, "serial"%string) dm_claimer_looks dm_release_looks
           dm_target dm_prepared.2 _ _ dm_prepared_inv (surjective_pairing _)).
  apply (Prepare_Ok Claimer (λ _, mret tt) (λ _, "serial"%string) dm_claimer_looks dm_release_looks dm_target dm_kernel);
    [exact dm_kernel_inv|exact dm_prepared_eq].
Defined.

(** ** Calls for volumes *)

Definition dm_volume_target (v : string) : Target := bare_target "/c" (OwnedIQNPrefix +:+ ReplaceAll "/" "." v).

Lemma dm_disk_inv : disk_inv (w_disk dm_world).
Proof. exact ex_disk_inv. Qed.
Lemma dm_world_inv : fs_inv (w_backend dm_world).
Proof. exact dm_kernel_inv. Qed.

Definition dm_export (v : string) (n : Z) : ExportParams unit := {|
  xp_VolumeID := v; xp_DevicePath := "/d"; xp_BindAddress := ""; xp_Port := 0; xp_ProtocolParams := dm_params;
  xp_ACLEnabled := true; xp_Fence := dm_fence n; xp_FilesystemAdoption := None; xp_CapacityBytes := 0;
  xp_BackendParams := tt |}.

Lemma iscsi_call_isolated_witness :
  off (view (w_backend (run_call dm_server dm_deps (CExport (dm_export "p/v" 1)) dm_world).2)) (tpgEnable (dm_volume_target "p/w")).
Proof.
  eapply (iscsi_call_isolated dm_server dm_deps (CExport (dm_export "p/v" 1)) dm_world _ _ (dm_volume_target "p/v") "p/w"
            (dm_volume_target "p/w") _ dm_disk_inv dm_world_inv (surjective_pairing _));
    [reflexivity|reflexivity|discriminate|discriminate
    |right; split_and!; [discriminate|by exists "p", "v"|by exists "p", "w"]|left; by exists [TPGName; "enable"]
    |by exists (tpgDir (dm_volume_target "p/w"))|vm_compute; discriminate].
Defined.

(** The volume's target was removed with generation 7; a delayed export of
    generation 5 arrives after. *)
Definition dm_unexported := run_call dm_server dm_deps (CUnexport "p/v" (dm_fence 7)) dm_world.
Definition dm_delayed := run_call dm_server dm_deps (CExport (dm_export "p/v" 5)) dm_unexported.2.
Lemma dm_unexported_eq :
  run_call dm_server dm_deps (CUnexport "p/v" (dm_fence 7)) dm_world = (Ok tt, dm_unexported.2).
Proof. vm_compute. reflexivity. Qed.
Lemma dm_unexported_inv : fs_inv (w_backend dm_unexported.2).
Proof.
  destruct (call_does dm_server dm_deps (CUnexport "p/v" (dm_fence 7)) (dm_volume_target "p/v") eq_refl
    ltac:(split; reflexivity) _ _ _ dm_disk_inv dm_world_inv dm_unexported_eq) as [_ []]. done.
Qed.

Lemma stale_call_never_applied_witness : view (w_backend dm_delayed.2) = view (w_backend dm_unexported.2).
Proof.
  eapply (stale_call_never_applied dm_server dm_deps (CUnexport "p/v" (dm_fence 7)) (CExport (dm_export "p/v" 5)) "uid" 7 5
            dm_world dm_unexported.2 dm_unexported.2 dm_delayed.1 dm_delayed.2);
    [exact dm_disk_inv|exact dm_world_inv|exact dm_unexported_eq|reflexivity|apply rtc_refl|exact dm_unexported_inv
    |apply surjective_pairing|reflexivity|reflexivity|lia].
Defined.

(** ** Reconcile *)

Definition dm_entry : ExportEntry := {|
  ee_ProtocolType := PROTOCOL_TYPE_ISCSI; ee_ExportParams := dm_params; ee_AllowedInitiators := ["iqn.2020-01.a:i"];
  ee_AclEnabled := true; ee_LocalAttach := false |}.
Definition dm_vol (v : string) : VolumeDesiredState unit := {|
  vd_VolumeId := v; vd_BackendType := BACKEND_TYPE_ZFS_ZVOL; vd_BackendParams := tt; vd_DevicePath := "";
  vd_Exports := [dm_entry];
  vd_Fence := dm_fence 1; vd_FilesystemAdoption := None; vd_CapacityBytes := 0 |}.
Definition dm_fx : FilesystemExports Kernel unit := {|
  exportFilesystem := λ _ _ _, throw (EStatus Unimplemented ""); unexportFilesystem := λ _ _ _, throw (EStatus Unimplemented "");
  changeFilesystemClient := λ _, throw (EStatus Unimplemented ""); denyFilesystemClient := λ _, throw (EStatus Unimplemented "");
  localFilesystem := λ _, throw (EStatus Unimplemented ""); reconcileFilesystem := λ _, throw (EStatus Unimplemented "") |}.
Definition dm_agent : agent_state Kernel := AgentState true dm_world.
Lemma dm_agent_ok : state_ok dm_agent.
Proof. split; [exact dm_disk_inv|exact dm_world_inv]. Qed.

Definition dm_desired : list (ExportDesiredState unit) :=
  map (λ v, exportDesiredState (dm_vol v) dm_entry ("/" +:+ v)) ["p/v"; "p/w"].

Lemma reconcile_prepares_first_witness :
  ∃ prepared w1, map_each (prepareItem dm_server dm_deps) (items dm_server dm_desired) dm_world = (Ok prepared, w1) ∧
    off (view (w_backend w1)) (tpgEnable (dm_volume_target "p/v")).
Proof.
  destruct (reconcile_prepares_first dm_server dm_deps dm_desired dm_world _ _ dm_disk_inv dm_world_inv
    ltac:(intros d [->|[->|[]%elem_of_nil]%elem_of_cons]%elem_of_cons; discriminate) (surjective_pairing _))
    as (prepared&w1&Hrun&_&_&Hoff).
  exists prepared, w1. split; [exact Hrun|]. apply Hoff; [by exists (tpgDir (dm_volume_target "p/v"))| |vm_compute; discriminate].
  intros d t [->|[->|[]%elem_of_nil]%elem_of_cons]%elem_of_cons; intros [= <-]; discriminate.
Defined.

Lemma dm_revoking p h : handlerForProtocol dm_server p = Ok h → Revoking h.
Proof. cbn. destruct (decide _); [|done]. intros [= <-]. apply iscsi_revoking. Qed.
#[export] Instance dm_fx_revoking : RevokingFilesystem dm_fx.
Proof. split; intros; apply agent_does_throw. Qed.

Definition dm_early : list export_rpc := [
  RUnexport {| ur_VolumeId := "p/w"; ur_ProtocolType := PROTOCOL_TYPE_ISCSI; ur_Fence := dm_fence 1; ur_FilesystemAdoption := None |};
  RExport {| xr_VolumeId := "p/v"; xr_ProtocolType := PROTOCOL_TYPE_ISCSI; xr_ExportParams := dm_params; xr_DevicePath := "/d";
             xr_AclEnabled := true; xr_Fence := dm_fence 1; xr_FilesystemAdoption := None; xr_CapacityBytes := 0;
             xr_BackendParams := tt |}].
Lemma restore_pending_nothing_on_witness : stays_off dm_agent (run_rpcs dm_server dm_fx dm_early dm_agent).
Proof.
  apply (restore_pending_nothing_on dm_server dm_fx dm_revoking dm_early dm_agent dm_agent_ok); [reflexivity|].
  repeat constructor.
Defined.
