(* ===== verification/NvmetTarget.v ===== *)
(** * NVMe-oF targets in nvmet's configfs (internal/agent/nvmeof)

    [NvmetTarget] is the export of one volume (configfs.go); each method is a
    computation on a kernel state behind the file-system interface of [LioFs].
    identity.go, local_attach.go and exports.go are translated with it.

    Path locks make each operation on a path one step: they are left out, and
    so are the error counters and the MDTSUnsupported report.  Of two joined
    errors the first is kept.  The listener attributes of a port are a Go map:
    [order] is the order in which the code ranges over it.  UUIDs come from a
    library ([uuid_String] is [uuid.Parse] followed by [String], [NewSHA1] the
    name-based UUID); the device claimer is the caller's. *)
From stdpp Require Import base numbers list strings gmap pretty.
From Stdlib Require Import Ascii.
From S2P Require Import Prelude GoStd GoNet LioFs.
Open Scope Z_scope.

(** ** Standard library *)

Definition ENOTDIR : errno := EOTHER "ENOTDIR".

Section Os.
Context {K : Type} `{FS K}.

(** [os.Stat]: a link of configfs leads to an item, never to another link. *)
Definition Stat (p : path) : M K errno entry_kind :=
  kd ← Lstat p;
  if decide (kd = KLink) then
    t ← Readlink p;
    Lstat (resolvedLinkTarget p t)
  else mret kd.

(** [os.Remove]: unlink, and rmdir if that fails. *)
Definition OsRemove (p : path) : M K errno unit :=
  r ← try (Unlink p);
  match r with
  | Ok _ => mret tt
  | Err e =>
      r1 ← try (Rmdir p);
      match r1 with
      | Ok _ => mret tt
      | Err e1 => throw (if decide (e1 = ENOTDIR) then e else e1)
      end
  end.

(** [os.MkdirAll] of the path with these components, last one first. *)
Fixpoint mkdirAllRev (rp : list string) : M K errno unit :=
  s ← try (Stat (rev rp));
  match s with
  | Ok kd => if decide (kd = KDir) then mret tt else throw ENOTDIR
  | Err _ =>
      (match rp with _ :: (_ :: _) as parent => mkdirAllRev parent | _ => mret tt end) ;;
      r ← try (Mkdir (rev rp));
      match r with
      | Ok _ => mret tt
      | Err e =>
          l ← try (Lstat (rev rp));
          match l with
          | Ok KDir => mret tt
          | _ => throw e
          end
      end
  end.
Definition MkdirAll (p : path) : M K errno unit := mkdirAllRev (rev p).
End Os.

Fixpoint trimLeftBy (P : ascii → bool) (s : string) : string :=
  match s with
  | String c s' => if P c then trimLeftBy P s' else s
  | EmptyString => ""
  end.
(** [strings.TrimRight] with a cutset. *)
Definition trimRightBy (P : ascii → bool) (s : string) : string := rev_string (trimLeftBy P (rev_string s)).
Definition isNewline (c : ascii) : bool := Ascii.eqb c (byte_of_Z 10).

(** ** Identity *)

Record Identity := { id_UUID : string; id_NGUID : string; id_Serial : string }.
#[export] Instance Identity_eq_dec : EqDecision Identity.
Proof. solve_decision. Defined.
Definition zeroIdentity : Identity := {| id_UUID := ""; id_NGUID := ""; id_Serial := "" |}.
Definition IsZero (id : Identity) : bool := bool_decide (id = zeroIdentity).
Definition maxSerialLen : nat := 20.

(** ** Targets *)

Definition DefaultConfigfsRoot : string := "/sys/kernel/config".
Definition DefaultPort : Z := 4420.
Definition listenWildcard : string := "0.0.0.0".
Definition listenWildcardV6 : string := "::".
Definition portInlineDataSizeAttr : string := "param_inline_data_size".
Definition MinInlineDataSize : Z := 1024.
Definition transportDefaultInlineDataSize : string := "-1".
Definition portMDTSAttr : string := "param_mdts".
Definition MinMaxDataTransferSize : Z := 8192.
Definition MaxMaxDataTransferSize : Z := Z.shiftl 1 30.
Definition mdtsUnitShift : Z := 12.
Definition mdtsNoLimit : string := "0".

Definition ErrPortInlineDataSizeConflict : go_error := EPlain "port in-capsule data size conflict".
Definition ErrPortMDTSConflict : go_error := EPlain "port maximum data transfer size conflict".
Definition ErrDeviceHeld : go_error := EPlain "backend device is held exclusively on the storage node".
Definition ErrNamespaceNotFound : go_error := EPlain "namespace not found".

Record NvmetTarget := {
  ConfigfsRoot : string;
  SubsystemNQN : string;
  NamespaceID : Z;
  DevicePath : string;
  BindAddress : string;
  Port : Z;
  AllowedHosts : list string;
  ACLEnabled : bool;
  InlineDataSize : option Z;
  MaxDataTransferSize : option Z;
  PortMDTSFloor : option Z;
  TargetIdentity : Identity;
  LocalAttach : bool;
}.

Definition nvmetRoot (t : NvmetTarget) : path :=
  joinp (joinp [] (if bool_decide (ConfigfsRoot t = "") then DefaultConfigfsRoot else ConfigfsRoot t)) "nvmet".
Definition subsystemsDir (t : NvmetTarget) : path := joinp (nvmetRoot t) "subsystems".
Definition subsystemDir (t : NvmetTarget) : path := joinp (subsystemsDir t) (SubsystemNQN t).
Definition namespaceDir (t : NvmetTarget) : path := joinp (joinp (subsystemDir t) "namespaces") (pretty (NamespaceID t)).
Definition hostDir (t : NvmetTarget) (hostNQN : string) : path := joinp (joinp (nvmetRoot t) "hosts") hostNQN.
Definition allowedHostsDir (t : NvmetTarget) : path := joinp (subsystemDir t) "allowed_hosts".
Definition allowedHostLink (t : NvmetTarget) (hostNQN : string) : path := joinp (allowedHostsDir t) hostNQN.
Definition portsDir (t : NvmetTarget) : path := joinp (nvmetRoot t) "ports".
Definition portDir (t : NvmetTarget) (portID : Z) : path := joinp (portsDir t) (pretty portID).
Definition portSubsystemLink (t : NvmetTarget) (portID : Z) : path := joinp (joinp (portDir t portID) "subsystems") (SubsystemNQN t).
Definition namespaceEnablePath (t : NvmetTarget) : path := joinp (namespaceDir t) "enable".
Definition desiredEnable (t : NvmetTarget) : string := if LocalAttach t then "0" else "1".
(** The value of attr_allow_any_host. *)
Definition allowAnyHost (t : NvmetTarget) : string := if ACLEnabled t || bool_decide (AllowedHosts t ≠ []) then "0" else "1".

(** ** Ports *)

(** [stablePortID]: 32-bit FNV-1a over the address and the port. *)
Definition fnvPrime : Z := 16777619.
Definition stablePortID (addr : string) (port : Z) : Z :=
  let h := foldl (λ h c, u32 (Z.lxor h (Z_of_byte c) * fnvPrime)) 2166136261 (bytes_of_string addr) in
  let h := u32 (Z.lxor h (u32 port) * fnvPrime) in
  h `mod` 65535 + 1.

Definition ValidMaxDataTransferSize (v : Z) : bool :=
  if v =? 0 then true
  else (MinMaxDataTransferSize <=? v) && (v <=? MaxMaxDataTransferSize) && (Z.land v (v - 1) =? 0).

(** The loop of [mdtsExponent]; an int32 has at most 31 value bits. *)
Fixpoint exponentLoop (fuel : nat) (pages exp : Z) : Z :=
  match fuel with
  | O => exp
  | S fuel => if 1 <? pages then exponentLoop fuel (Z.shiftr pages 1) (exp + 1) else exp
  end.
Definition mdtsExponent (size : Z) : Z := exponentLoop 32 (Z.shiftr size mdtsUnitShift) 0.
Definition mdtsValue (size : Z) : string := Itoa (mdtsExponent size).

Record portSpec := {
  sp_id : Z;
  sp_attrs : list (string * string);
  sp_inlineDataSize : option Z;
  sp_maxDataTransferSize : option Z;
  sp_mdtsFloor : option Z;
}.

Definition valid_size (v : option Z) : bool := match v with Some v => ValidMaxDataTransferSize v | None => true end.
(** [NvmetTarget.portSpec] *)
Definition target_portSpec (t : NvmetTarget) : GoResult portSpec :=
  let port := if Port t =? 0 then DefaultPort else Port t in
  match ParseIP (BindAddress t) with
  | None => Err (EPlain "port: invalid BindAddress")
  | Some ip =>
      if match InlineDataSize t with Some v => v <? MinInlineDataSize | None => false end then
        Err (EPlain "port: invalid InlineDataSize")
      else if negb (valid_size (MaxDataTransferSize t)) then Err (EPlain "port: invalid MaxDataTransferSize")
      else if negb (valid_size (PortMDTSFloor t)) then Err (EPlain "port: invalid PortMDTSFloor")
      else
        let '(adrfam, wildcard) :=
          if bool_decide (take 12 ip = v4InV6Prefix) then ("ipv4", listenWildcard) else ("ipv6", listenWildcardV6) in
        Ok {| sp_id := stablePortID (BindAddress t) port;
              sp_attrs := [("addr_trtype", "tcp"); ("addr_adrfam", adrfam); ("addr_traddr", wildcard); ("addr_trsvcid", Itoa port)];
              sp_inlineDataSize := InlineDataSize t;
              sp_maxDataTransferSize := MaxDataTransferSize t;
              sp_mdtsFloor := PortMDTSFloor t |}
  end.

Definition linkedPortMDTSAllows (spec : portSpec) (current : string) : GoResult unit :=
  match sp_maxDataTransferSize spec with
  | None => Ok tt
  | Some req =>
      if (req =? 0) || bool_decide (current = mdtsNoLimit) then Ok tt
      else
        match Atoi current with
        | Some cur => if (0 <? cur) && (cur <=? mdtsExponent req) then Ok tt else Err ErrPortMDTSConflict
        | None => Err ErrPortMDTSConflict
        end
  end.

Definition idlePortMDTS (spec : portSpec) : string :=
  let size := default 0 (sp_maxDataTransferSize spec) in
  let size :=
    match sp_mdtsFloor spec with
    | Some f => if (0 <? f) && ((size =? 0) || (f <? size)) then f else size
    | None => size
    end in
  mdtsValue size.

Record PreparedTarget := { pt_target : NvmetTarget; pt_identity : Identity; pt_port : portSpec }.

(** ** Identities *)
Section Uuid.
Context (uuid_String : string → option string) (NewSHA1 : string → string).

(** The bytes [c <= ' '] and [c > '~'] are not printable. *)
Definition printableSerial (s : string) : bool := forallb (λ c, (32 <? Z_of_byte c) && (Z_of_byte c <=? 126)) (bytes_of_string s).

(** [Identity.Validate] *)
Definition Validate (id : Identity) : GoResult unit :=
  if negb (bool_decide (uuid_String (id_UUID id) = Some (id_UUID id))) then Err (EPlain "invalid namespace uuid")
  else if negb (bool_decide (uuid_String (id_NGUID id) = Some (id_NGUID id))) then Err (EPlain "invalid namespace nguid")
  else if bool_decide (id_Serial id = "") || (maxSerialLen <? String.length (id_Serial id))%nat then Err (EPlain "invalid subsystem serial")
  else if negb (printableSerial (id_Serial id)) then Err (EPlain "invalid subsystem serial")
  else Ok tt.

Definition DeriveIdentity (subsystemNQN : string) (nsid : Z) : Identity :=
  let nsName := subsystemNQN +:+ "/namespaces/" +:+ pretty nsid in {|
  id_UUID := NewSHA1 ("uuid:" +:+ nsName);
  id_NGUID := NewSHA1 ("nguid:" +:+ nsName);
  id_Serial := hex_encode (take (maxSerialLen / 2) (sha256 (bytes_of_string ("serial:" +:+ subsystemNQN)))) |}.

Definition desiredIdentity (t : NvmetTarget) : GoResult Identity :=
  if IsZero (TargetIdentity t) then Ok (DeriveIdentity (SubsystemNQN t) (NamespaceID t))
  else _ ← Validate (TargetIdentity t); Ok (TargetIdentity t).
End Uuid.

Section Operations.
Context {K C : Type} `{FS K}.
Context (DeviceClaimer : string → M K go_error C) (release : C → M K go_error unit).
Context (uuid_String : string → option string) (NewSHA1 : string → string).
Context (order : list (string * string) → list (string * string)).
Abbreviation Nvmet := (M K go_error).

(** ** configfs primitives *)

Definition writeFile (p : path) (content : string) : Nvmet unit :=
  r ← sys (WriteFile p content);
  match r with
  | Err _ => throw (eio "write")
  | Ok _ =>
      r ← sys (ReadFile p);
      match r with
      | Err _ => throw (eio "verify")
      | Ok readback => if decide (TrimSpace readback ≠ TrimSpace content) then throw (eio "verify") else mret tt
      end
  end.

(** [triggerFile] *)
Definition triggerFile (p : path) (content : string) : Nvmet unit :=
  r ← sys (WriteFile p content);
  match r with Err _ => throw (eio "trigger") | Ok _ => mret tt end.

Definition readFileTrimmed (p : path) : Nvmet string :=
  r ← sys (ReadFile p);
  match r with
  | Err e => if IsNotExist e then mret ""%string else throw (eio "read")
  | Ok data => mret (trimRightBy (λ c, Ascii.eqb c NULb || isNewline c) data)
  end.

Definition mkdirAll (p : path) : Nvmet unit :=
  r ← sys (MkdirAll p);
  match r with Err _ => throw (eio "mkdir") | Ok _ => mret tt end.

Definition symlink (oldname newname : path) : Nvmet unit :=
  r ← sys (Readlink newname);
  match r with
  | Ok existing =>
      if decide (resolvedLinkTarget newname existing = oldname) then mret tt
      else throw (eio "symlink: already points elsewhere")
  | Err e =>
      if IsNotExist e then
        r ← sys (Symlink oldname newname);
        match r with Ok _ => mret tt | Err _ => throw (eio "symlink") end
      else throw (eio "symlink check")
  end.

Definition removeSymlink (p : path) : Nvmet unit :=
  fi ← sys (Lstat p);
  match fi with
  | Err e => if IsNotExist e then mret tt else throw (eio "symlink stat")
  | Ok kd =>
      if decide (kd ≠ KLink) then throw (eio "removeSymlink: not a symlink")
      else
        r ← sys (OsRemove p);
        match r with Err _ => throw (eio "removeSymlink") | Ok _ => mret tt end
  end.

Definition removeDir (p : path) : Nvmet unit :=
  r ← sys (OsRemove p);
  match r with
  | Ok _ => mret tt
  | Err e => if IsNotExist e then mret tt else throw (eio "rmdir")
  end.

Definition removeDirVerified (p : path) : Nvmet unit :=
  removeDir p ;;
  r ← sys (Lstat p);
  match r with
  | Ok _ => throw (eio "verify rmdir: still present after removal")
  | Err e => if IsNotExist e then mret tt else throw (eio "verify rmdir")
  end.

Definition bestEffort {A} (m : M K errno A) : Nvmet unit := _ ← sys m; mret tt.

Definition readAttr (p : path) : Nvmet string :=
  r ← sys (ReadFile p);
  match r with
  | Ok data => mret (attr_text data)
  | Err e => if IsNotExist e then mret ""%string else throw (eio "read")
  end.

Definition ensureAttr (p : path) (want : string) : Nvmet unit :=
  current ← readAttr p;
  if decide (current = want) then mret tt else writeFile p want.

(** [os.Lstat] as a presence test: absent, present, or an error. *)
Definition present (p : path) : Nvmet bool :=
  r ← sys (Lstat p);
  match r with
  | Ok _ => mret true
  | Err e => if IsNotExist e then mret false else throw (eio "stat")
  end.

(** ** Namespaces and local attach *)

Definition requireNamespace (t : NvmetTarget) : Nvmet unit :=
  r ← sys (Stat (namespaceDir t));
  match r with
  | Ok _ => mret tt
  | Err e => if IsNotExist e then throw ErrNamespaceNotFound else throw (eio "stat namespace")
  end.

Definition NamespaceEnabled (t : NvmetTarget) : Nvmet (bool * bool) :=
  r ← try (requireNamespace t);
  match r with
  | Err e => if decide (e = ErrNamespaceNotFound) then mret (false, false) else throw e
  | Ok _ => value ← readAttr (namespaceEnablePath t); mret (true, bool_decide (value = "1"))
  end.

Definition disableNamespace (t : NvmetTarget) : Nvmet unit :=
  current ← readAttr (namespaceEnablePath t);
  if decide (current = "0") then mret tt else writeFile (namespaceEnablePath t) "0".

Definition enableNamespace (t : NvmetTarget) : Nvmet unit :=
  current ← readAttr (namespaceEnablePath t);
  if decide (current = "1") then mret tt
  else
    devicePath ← readAttr (joinp (namespaceDir t) "device_path");
    claim ← (if decide (devicePath = "") then mret None else c ← DeviceClaimer devicePath; mret (Some c));
    w ← try (writeFile (namespaceEnablePath t) "1");
    r ← try (match claim with Some c => release c | None => mret tt end);
    match w, r with
    | Err e, _ => throw e
    | Ok _, Err e => throw e
    | Ok _, Ok _ => mret tt
    end.

Definition DisableNamespace (t : NvmetTarget) : Nvmet string :=
  requireNamespace t ;;
  disableNamespace t ;;
  devicePath ← readAttr (joinp (namespaceDir t) "device_path");
  if decide (devicePath = "") then throw (EPlain "DisableNamespace: device_path is empty") else mret devicePath.

Definition EnableNamespace (t : NvmetTarget) : Nvmet unit := requireNamespace t ;; enableNamespace t.

Definition ResizeNamespace (t : NvmetTarget) : Nvmet unit :=
  st ← NamespaceEnabled t;
  if negb (st.1 && st.2) then mret tt else triggerFile (joinp (namespaceDir t) "revalidate_size") "1".

Definition LiveIdentity (t : NvmetTarget) : Nvmet Identity :=
  serial ← readAttr (joinp (subsystemDir t) "attr_serial");
  enabled ← readAttr (joinp (namespaceDir t) "enable");
  if decide (enabled ≠ "1") then mret {| id_UUID := ""; id_NGUID := ""; id_Serial := serial |}
  else
    uuid ← readAttr (joinp (namespaceDir t) "device_uuid");
    nguid ← readAttr (joinp (namespaceDir t) "device_nguid");
    mret {| id_UUID := uuid; id_NGUID := nguid; id_Serial := serial |}.

(** ** Subsystem *)

Definition createSubsystem (t : NvmetTarget) : Nvmet unit :=
  id ← lift (desiredIdentity uuid_String NewSHA1 t);
  mkdirAll (subsystemDir t) ;;
  writeFile (joinp (subsystemDir t) "attr_allow_any_host") (allowAnyHost t) ;;
  ensureAttr (joinp (subsystemDir t) "attr_serial") (id_Serial id).

Definition ensureIdentityAttr (nsDir : path) (enabled : string) (attr : string * string) : Nvmet unit :=
  if decide (enabled ≠ "1") then ensureAttr (joinp nsDir attr.1) attr.2
  else
    current ← readAttr (joinp nsDir attr.1);
    if decide (current ≠ attr.2) then throw (EPlain "refusing to disable a live namespace to change its identity") else mret tt.
Definition ensureNamespaceIdentity (nsDir enablePath : path) (id : Identity) : Nvmet unit :=
  enabled ← readAttr enablePath;
  for_each (ensureIdentityAttr nsDir enabled) [("device_uuid", id_UUID id); ("device_nguid", id_NGUID id)].

Definition createNamespace (t : NvmetTarget) : Nvmet unit :=
  id ← lift (desiredIdentity uuid_String NewSHA1 t);
  let nsDir := namespaceDir t in
  mkdirAll nsDir ;;
  (if LocalAttach t then disableNamespace t else mret tt) ;;
  let devPath := joinp nsDir "device_path" in
  current ← readFileTrimmed devPath;
  (if decide (current ≠ DevicePath t) then writeFile devPath (DevicePath t) else mret tt) ;;
  ensureNamespaceIdentity nsDir (joinp nsDir "enable") id ;;
  if LocalAttach t then mret tt else enableNamespace t.

(** ** Hosts *)

Definition restoreLink (oldname newname : path) : Nvmet unit :=
  mkdirAll (dirp newname) ;; symlink oldname newname.

Definition AllowHost (t : NvmetTarget) (hostNQN : string) : Nvmet unit :=
  mkdirAll (hostDir t hostNQN) ;;
  mkdirAll (allowedHostsDir t) ;;
  symlink (hostDir t hostNQN) (allowedHostLink t hostNQN).

Fixpoint anyAllows (subsDir : path) (hostNQN : string) (entries : list (string * entry_kind)) : Nvmet bool :=
  match entries with
  | [] => mret false
  | (name, _) :: entries =>
      b ← present (joinp (joinp (joinp subsDir name) "allowed_hosts") hostNQN);
      if b : bool then mret true else anyAllows subsDir hostNQN entries
  end.
Definition hostReferenced (t : NvmetTarget) (hostNQN : string) : Nvmet bool :=
  r ← sys (ReadDir (subsystemsDir t));
  match r with
  | Err e => if IsNotExist e then mret false else throw (eio "read")
  | Ok entries => anyAllows (subsystemsDir t) hostNQN entries
  end.

Definition pruneHostLocked (t : NvmetTarget) (hostNQN : string) : Nvmet unit :=
  ok ← present (hostDir t hostNQN);
  if negb ok then mret tt
  else
    referenced ← hostReferenced t hostNQN;
    if referenced : bool then mret tt else removeDirVerified (hostDir t hostNQN).

Definition DenyHost (t : NvmetTarget) (hostNQN : string) : Nvmet unit :=
  let linkPath := allowedHostLink t hostNQN in
  linked ← present linkPath;
  removeSymlink linkPath ;;
  r ← try (pruneHostLocked t hostNQN);
  match r with
  | Ok _ => mret tt
  | Err e => (if linked : bool then (_ ← try (restoreLink (hostDir t hostNQN) linkPath); mret tt) else mret tt) ;; throw e
  end.

Definition RevokeHostsExcept (t : NvmetTarget) (keep : list string) : Nvmet unit :=
  r ← sys (ReadDir (allowedHostsDir t));
  match r with
  | Err e => if IsNotExist e then mret tt else throw (eio "read allowed_hosts")
  | Ok entries => for_each (λ e : string * entry_kind, if containsb keep e.1 then mret tt else DenyHost t e.1) entries
  end.

(** ** Ports *)

Definition portHasSubsystems (pDir : path) : Nvmet bool :=
  r ← sys (ReadDir (joinp pDir "subsystems"));
  match r with
  | Err e => if IsNotExist e then mret false else throw (eio "read")
  | Ok subs => mret (bool_decide (subs ≠ []))
  end.

Definition ensureInlineDataSizeLocked (pDir : path) (spec : portSpec) : Nvmet unit :=
  let attrPath := joinp pDir portInlineDataSizeAttr in
  current ← readFileTrimmed attrPath;
  linked ← portHasSubsystems pDir;
  if linked : bool then
    match sp_inlineDataSize spec with
    | None => mret tt
    | Some v => if decide (current ≠ Itoa v) then throw ErrPortInlineDataSizeConflict else mret tt
    end
  else
    match sp_inlineDataSize spec with
    | None =>
        if bool_decide (current = "") || bool_decide (current = transportDefaultInlineDataSize) then mret tt
        else writeFile attrPath transportDefaultInlineDataSize
    | Some v => if decide (current = Itoa v) then mret tt else writeFile attrPath (Itoa v)
    end.

Definition ensureMDTSLocked (pDir : path) (spec : portSpec) : Nvmet unit :=
  let attrPath := joinp pDir portMDTSAttr in
  r ← sys (Lstat attrPath);
  if match r with Err e => IsNotExist e | Ok _ => false end then mret tt
  else
    current ← readFileTrimmed attrPath;
    linked ← portHasSubsystems pDir;
    if linked : bool then lift (linkedPortMDTSAllows spec current)
    else if decide (current = idlePortMDTS spec) then mret tt else writeFile attrPath (idlePortMDTS spec).

Definition ensurePortAttr (pDir : path) (attr : string * string) : Nvmet unit :=
  current ← readFileTrimmed (joinp pDir attr.1);
  if decide (current = attr.2) then mret tt else writeFile (joinp pDir attr.1) attr.2.
Definition ensurePortLocked (t : NvmetTarget) (spec : portSpec) : Nvmet unit :=
  let pDir := portDir t (sp_id spec) in
  mkdirAll pDir ;;
  for_each (ensurePortAttr pDir) (order (sp_attrs spec)) ;;
  ensureInlineDataSizeLocked pDir spec ;;
  ensureMDTSLocked pDir spec.

Definition portAttrs : list string :=
  ["addr_trtype"; "addr_adrfam"; "addr_traddr"; "addr_trsvcid"; portInlineDataSizeAttr; portMDTSAttr].

Definition prunePortLocked (pDir : path) : Nvmet unit :=
  ok ← present pDir;
  if negb ok then mret tt
  else
    linked ← portHasSubsystems pDir;
    if linked : bool then mret tt
    else
      for_each (λ a, bestEffort (OsRemove (joinp pDir a))) portAttrs ;;
      bestEffort (OsRemove (joinp pDir "subsystems")) ;;
      removeDirVerified pDir.

Definition linkSubsystemToPortLocked (t : NvmetTarget) (spec : portSpec) : Nvmet unit :=
  ensurePortLocked t spec ;;
  mkdirAll (dirp (portSubsystemLink t (sp_id spec))) ;;
  symlink (subsystemDir t) (portSubsystemLink t (sp_id spec)).

Definition linkSubsystemToPort (t : NvmetTarget) (spec : portSpec) : Nvmet unit :=
  r ← try (linkSubsystemToPortLocked t spec);
  match r with
  | Ok _ => mret tt
  | Err e => _ ← try (prunePortLocked (portDir t (sp_id spec))); throw e
  end.

Definition unlinkFromPort (t : NvmetTarget) (pDir : path) : Nvmet unit :=
  let linkPath := joinp (joinp pDir "subsystems") (SubsystemNQN t) in
  ok ← present linkPath;
  if negb ok then mret tt
  else
    removeSymlink linkPath ;;
    r ← try (prunePortLocked pDir);
    match r with
    | Ok _ => mret tt
    | Err e => _ ← try (restoreLink (subsystemDir t) linkPath); throw e
    end.

Definition unlinkFromPorts (t : NvmetTarget) : Nvmet unit :=
  r ← sys (ReadDir (portsDir t));
  match r with
  | Err e => if IsNotExist e then mret tt else throw (eio "read ports dir")
  | Ok entries => for_each (λ e : string * entry_kind, unlinkFromPort t (joinp (portsDir t) e.1)) entries
  end.

(** ** Target life cycle *)

Definition Prepare (t : NvmetTarget) : Nvmet PreparedTarget :=
  port ← lift (target_portSpec t);
  id ← lift (desiredIdentity uuid_String NewSHA1 t);
  createSubsystem t ;;
  for_each (AllowHost t) (AllowedHosts t) ;;
  createNamespace t ;;
  mret {| pt_target := t; pt_identity := id; pt_port := port |}.

Definition verifyAttr (c : path * string) : Nvmet unit :=
  got ← readAttr c.1;
  if decide (got ≠ c.2) then throw (EPlain "verify prepared") else mret tt.
Definition verifyHost (t : NvmetTarget) (host : string) : Nvmet unit :=
  fi ← sys (Lstat (allowedHostLink t host));
  match fi with
  | Err _ => throw (EPlain "verify prepared: allowed host")
  | Ok kd => if decide (kd ≠ KLink) then throw (EPlain "verify prepared: not a symlink") else mret tt
  end.
(** What [verifyPrepared] compares. *)
Definition preparedAttrs (t : NvmetTarget) (id : Identity) : list (path * string) :=
  let nsDir := namespaceDir t in
  [(joinp (subsystemDir t) "attr_allow_any_host", allowAnyHost t);
   (joinp (subsystemDir t) "attr_serial", id_Serial id);
   (joinp nsDir "device_path", DevicePath t);
   (joinp nsDir "device_uuid", id_UUID id);
   (joinp nsDir "device_nguid", id_NGUID id);
   (joinp nsDir "enable", desiredEnable t)].
Definition verifyPrepared (t : NvmetTarget) (id : Identity) : Nvmet unit :=
  for_each verifyAttr (preparedAttrs t id) ;;
  for_each (verifyHost t) (AllowedHosts t).

Definition Link (p : PreparedTarget) : Nvmet unit :=
  verifyPrepared (pt_target p) (pt_identity p) ;;
  linkSubsystemToPort (pt_target p) (pt_port p).

Definition Apply (t : NvmetTarget) : Nvmet unit :=
  prepared ← Prepare t;
  Link prepared.

Definition Remove (t : NvmetTarget) : Nvmet unit :=
  unlinkFromPorts t ;;
  let nsDir := namespaceDir t in
  let enablePath := joinp nsDir "enable" in
  bestEffort (WriteFile enablePath "0") ;;
  bestEffort (OsRemove (joinp nsDir "device_path")) ;;
  bestEffort (OsRemove (joinp nsDir "device_uuid")) ;;
  bestEffort (OsRemove (joinp nsDir "device_nguid")) ;;
  bestEffort (OsRemove enablePath) ;;
  removeDir nsDir ;;
  RevokeHostsExcept t [] ;;
  bestEffort (OsRemove (joinp (subsystemDir t) "allowed_hosts")) ;;
  bestEffort (OsRemove (joinp (subsystemDir t) "namespaces")) ;;
  bestEffort (OsRemove (joinp (subsystemDir t) "attr_allow_any_host")) ;;
  bestEffort (OsRemove (joinp (subsystemDir t) "attr_serial")) ;;
  removeDir (subsystemDir t).

(** ** Listing exports (exports.go) *)

Record ExportedSubsystem := { es_NQN : string; es_Devices : gmap Z string; es_Hosts : list string }.

Definition readAttrName (subPath : path) (dirName : string) : Nvmet string :=
  r ← sys (ReadFile (joinp subPath "attr_name"));
  match r with
  | Err e => if IsNotExist e then mret dirName else throw (eio "read attr_name")
  | Ok data => mret (trimRightBy isNewline data)
  end.

Definition readOneNamespace (nsDir : path) (entryName : string) (result : gmap Z string) : Nvmet (gmap Z string) :=
  match ParseUint entryName 10 32 with
  | None => mret result
  | Some nsid =>
      r ← sys (ReadFile (joinp (joinp nsDir entryName) "device_path"));
      match r with
      | Err e => if IsNotExist e then mret result else throw (eio "device_path")
      | Ok data => mret (<[nsid := trimRightBy isNewline data]> result)
      end
  end.
Fixpoint readNamespaces (nsDir : path) (entries : list (string * entry_kind)) (result : gmap Z string) : Nvmet (gmap Z string) :=
  match entries with
  | [] => mret result
  | (name, kd) :: entries =>
      if decide (kd ≠ KDir) then readNamespaces nsDir entries result
      else result ← readOneNamespace nsDir name result; readNamespaces nsDir entries result
  end.
Definition readNamespaceDevicePaths (subPath : path) : Nvmet (gmap Z string) :=
  r ← sys (ReadDir (joinp subPath "namespaces"));
  match r with
  | Err e => if IsNotExist e then mret ∅ else throw (eio "read namespaces dir")
  | Ok entries => readNamespaces (joinp subPath "namespaces") entries ∅
  end.

Definition readAllowedHosts (subPath : path) : Nvmet (list string) :=
  r ← sys (ReadDir (joinp subPath "allowed_hosts"));
  match r with
  | Err e => if IsNotExist e then mret [] else throw (eio "read allowed_hosts dir")
  | Ok entries => mret (Sort (map fst entries))
  end.

Definition scanSubsystem (subPath : path) (dirName : string) : Nvmet ExportedSubsystem :=
  nqn ← readAttrName subPath dirName;
  nsPaths ← readNamespaceDevicePaths subPath;
  hosts ← readAllowedHosts subPath;
  mret {| es_NQN := nqn; es_Devices := nsPaths; es_Hosts := hosts |}.

Fixpoint scanSubsystems (subsDir : path) (entries : list (string * entry_kind)) : Nvmet (list ExportedSubsystem) :=
  match entries with
  | [] => mret []
  | (name, kd) :: entries =>
      if decide (kd ≠ KDir) then scanSubsystems subsDir entries
      else
        sub ← scanSubsystem (joinp subsDir name) name;
        rest ← scanSubsystems subsDir entries;
        mret (sub :: rest)
  end.
Fixpoint insertByNQN (s : ExportedSubsystem) (l : list ExportedSubsystem) : list ExportedSubsystem :=
  match l with
  | [] => [s]
  | s' :: l => if String.leb (es_NQN s) (es_NQN s') then s :: s' :: l else s' :: insertByNQN s l
  end.
(** [ListExports]; the NQNs are distinct, so the sort is determined. *)
Definition ListExports (configfsRoot : string) : Nvmet (list ExportedSubsystem) :=
  let root := if bool_decide (configfsRoot = "") then DefaultConfigfsRoot else configfsRoot in
  let subsDir := joinp (joinp (joinp [] root) "nvmet") "subsystems" in
  r ← sys (ReadDir subsDir);
  match r with
  | Err e => if IsNotExist e then mret [] else throw (eio "read subsystems dir")
  | Ok entries => l ← scanSubsystems subsDir entries; mret (foldr insertByNQN [] l)
  end.
End Operations.
