(* ===== verification/NvmetLaws.v ===== *)
(** * The configfs primitives of the nvmet target

    What the helpers of internal/agent/nvmeof may touch, and what they
    establish, against any configfs that satisfies [FSLaws]. *)
From stdpp Require Import base numbers list strings gmap pretty.
From Stdlib Require Import Ascii.
From S2P Require Import Prelude GoStd GoNet LioFs LioLaws ConfigfsEffects NvmetTarget.
Open Scope Z_scope.

(** unlink and rmdir report ENOENT of what is not there. *)
Class RemoveLaws (K : Type) `{FSLaws K} := {
  law_Unlink_absent p k : fs_inv k → wp (Unlink p) (λ r _, match r with Err e => IsNotExist e = true → view k p = None | Ok _ => True end) k;
  law_Rmdir_absent p k : fs_inv k → wp (Rmdir p) (λ r _, match r with Err e => IsNotExist e = true → view k p = None | Ok _ => True end) k;
}.

Section Effects.
Context {K : Type} `{FSLaws K}.
Implicit Types (S : scope) (k : K) (p q : path).

(** Where [MkdirAll p] may create entries. *)
Definition creates S p : Prop := ∀ q, q `prefix_of` p → s_new S q.

Lemma does_Stat S p : does S (Stat p).
Proof. unfold Stat. does_walk. Qed.
Lemma does_OsRemove S p : mods S p → does S (OsRemove p).
Proof.
  intros HM. pose proof (does_Rmdir S p HM). assert (does S (Unlink p)) by (apply does_Unlink; by apply HM).
  unfold OsRemove. does_walk.
Qed.
Hint Resolve does_Stat : does.

Lemma does_mkdirAllRev S rp : creates S (rev rp) → does S (mkdirAllRev rp).
Proof.
  induction rp as [|x rp IH]; intros HN.
  - cbn [mkdirAllRev]. assert (does S (Mkdir [])) by (apply does_Mkdir; by apply HN). does_walk.
  - assert (does S (Mkdir (rev (x :: rp)))) by (apply does_Mkdir; by apply HN).
    assert (does S (mkdirAllRev rp)) by (apply IH; intros q Hq; apply HN; cbn; by apply prefix_app_r).
    cbn [mkdirAllRev]. cbn [rev] in *. does_walk.
Qed.
Lemma does_mkdirAll S p : creates S p → does S (mkdirAll p).
Proof.
  intros HN. assert (does S (MkdirAll p)) by (apply does_mkdirAllRev; by rewrite rev_involutive).
  unfold mkdirAll. does_walk.
Qed.
Lemma does_writeFile S p v : writable S p v → does S (writeFile p v).
Proof. intros. unfold writeFile. does_walk. Qed.
Lemma does_triggerFile S p v : writable S p v → does S (triggerFile p v).
Proof. intros. unfold triggerFile. does_walk. Qed.
Lemma does_readFileTrimmed S p : does S (readFileTrimmed p).
Proof. unfold readFileTrimmed. does_walk. Qed.
Lemma does_readAttr' S p : does S (readAttr p).
Proof. unfold readAttr. does_walk. Qed.
Lemma does_present S p : does S (present p).
Proof. unfold present. does_walk. Qed.
Hint Resolve does_writeFile does_readAttr' does_present does_readFileTrimmed : does.
Lemma does_ensureAttr' S p v : writable S p v → does S (ensureAttr p v).
Proof. intros. unfold ensureAttr. does_walk. Qed.
Lemma does_symlink S p q : s_new S q → (∀ q', link_sets q q' → s_mod S q') → does S (symlink p q).
Proof. intros HN HL. pose proof (does_Symlink S p q HN HL). unfold symlink. does_walk. Qed.
Lemma does_removeSymlink S p : mods S p → does S (removeSymlink p).
Proof. intros HM. pose proof (does_OsRemove S p HM). unfold removeSymlink. does_walk. Qed.
Lemma does_removeDir' S p : mods S p → does S (removeDir p).
Proof. intros HM. pose proof (does_OsRemove S p HM). unfold removeDir. does_walk. Qed.
Hint Resolve does_removeDir' : does.
Lemma does_removeDirVerified S p : mods S p → does S (removeDirVerified p).
Proof. intros HM. unfold removeDirVerified. does_walk. Qed.
Lemma does_bestEffort {A} S (m : M K errno A) : does S m → does S (bestEffort m).
Proof. intros. unfold bestEffort. does_walk. Qed.
Lemma does_portHasSubsystems S p : does S (portHasSubsystems p).
Proof. unfold portHasSubsystems. does_walk. Qed.
End Effects.
#[export] Hint Resolve does_Stat does_OsRemove does_mkdirAll does_writeFile does_triggerFile does_readFileTrimmed does_readAttr'
  does_present does_ensureAttr' does_symlink does_removeSymlink does_removeDir' does_removeDirVerified does_bestEffort
  does_portHasSubsystems : does.

Lemma try_inv {W E A} (m : M W E A) w r w' : try m w = (r, w') → ∃ x, r = Ok x ∧ m w = (x, w').
Proof. unfold try. destruct (m w). intros; simplify_eq. eauto. Qed.

Lemma try_bind {W E A B} (m : M W E A) (f : result E A → M W E B) w r w' :
  (try m ≫= f) w = (r, w') → ∃ x w1, m w = (x, w1) ∧ f x w1 = (r, w').
Proof. unfold try, mbind, M_bind. destruct (m w). eauto. Qed.
Lemma sys_bind {W A B} (m : M W errno A) (f : result errno A → M W go_error B) w r w' :
  (sys m ≫= f) w = (r, w') → ∃ x w1, m w = (x, w1) ∧ f x w1 = (r, w').
Proof. unfold sys, mbind, M_bind. destruct (m w). eauto. Qed.

(** ** What the primitives establish *)
Section Posts.
Context {K : Type} `{FSLaws K}.
Implicit Types (k : K) (p q dir : path).

(** [readAttr p] gives [v]: the attribute reads so, or it is missing and [v]
    is empty. *)
Definition reads_as k p (v : string) : Prop := attr k p v ∨ v = "" ∧ view k p = None.

Lemma reads_as_view k k' p v : view k' p = view k p → reads_as k p v → reads_as k' p v.
Proof. unfold reads_as, attr. by intros ->. Qed.
Lemma reads_as_inj k p v v' : reads_as k p v → reads_as k p v' → v = v'.
Proof. unfold reads_as, attr. intros [(s&H1&<-)|[-> H1]] [(s'&H2&<-)|[-> H2]]; congruence. Qed.

Lemma readAttr_post p v k k' : fs_inv k → readAttr p k = (Ok v, k') → fs_inv k' ∧ view k' = view k ∧ reads_as k p v.
Proof. apply readAttr_Ok. Qed.

Lemma look_run {A} (m : M K go_error A) k r k' :
  (∀ S, does S m) → fs_inv k → m k = (r, k') → fs_inv k' ∧ ∀ q, view k' q = view k q.
Proof.
  intros Hd Hi Hr.
  pose proof (does_run {| s_new := nothing; s_mod := nothing; s_on := nothing |} _ _ _ _ (Hd _) Hi Hr) as He.
  split; [apply He|]. intros q. apply (effect_untouched _ _ _ _ He); [by intros []|]. by intros p [].
Qed.

(** A write that is read back. *)
Lemma writeFile_Ok p v k k' : fs_inv k → writeFile p v k = (Ok tt, k') → ∃ s, view k' p = Some (NAttr s) ∧ TrimSpace s = TrimSpace v.
Proof.
  intros Hi Hr. unfold writeFile in Hr. minv. apply sys_inv in H1 as (r&?&Hw). simplify_eq. destruct r; minv.
  pose proof (wp_run _ _ _ _ _ (law_WriteFile p v _ Hi) Hw) as (Hi2&_). apply sys_inv in H1 as (r&?&Hf). simplify_eq.
  destruct r as [s|]; minv. destruct (readFile_run _ _ _ _ Hi2 Hf) as (_&Hv&Hs). case_decide as Hd; minv.
  exists s. rewrite Hv. split; [done|]. exact Hd.
Qed.

Lemma present_Ok p b k k' : fs_inv k → present p k = (Ok b, k') →
  fs_inv k' ∧ view k' = view k ∧ (if b then view k p ≠ None else view k p = None).
Proof. apply exists_Ok. Qed.

Lemma symlink_Ok old new k k' : fs_inv k → symlink old new k = (Ok tt, k') → link k' new old.
Proof.
  intros Hi Hr. unfold symlink in Hr. minv. apply sys_inv in H1 as (r&?&Hl). simplify_eq.
  destruct (readLink_run _ _ _ _ Hi Hl) as (Hi1&Hv1&Hr1). destruct r as [s|e].
  - case_decide; minv. exists s. by rewrite Hv1.
  - destruct (IsNotExist e); minv. apply sys_inv in H1 as (r&?&Hs). simplify_eq. destruct r; minv.
    by destruct (wp_run _ _ _ _ _ (law_Symlink old new _ Hi1) Hs) as (_&_&Hl'&_).
Qed.

(** [os.Remove] removes the entry with all below it, or changes nothing. *)
Lemma OsRemove_run `{!RemoveLaws K} p k r k' : fs_inv k → OsRemove p k = (r, k') →
  fs_inv k' ∧ match r with
  | Ok _ => view k' p = None
  | Err e => view k' = view k ∧ (IsNotExist e = true → view k p = None)
  end.
Proof.
  intros Hi Hr. unfold OsRemove in Hr. apply try_bind in Hr as (ru&k1&Eu&Hr).
  pose proof (wp_run _ _ _ _ _ (law_Unlink p k Hi) Eu) as [Hi1 Hu]. pose proof (wp_run _ _ _ _ _ (law_Unlink_absent p k Hi) Eu) as Hua.
  destruct ru as [[]|e]; [minv; split; [done|apply Hu]|]. apply try_bind in Hr as (rr&k2&Er&Hr).
  pose proof (wp_run _ _ _ _ _ (law_Rmdir p _ Hi1) Er) as [Hi2 Hr2]. pose proof (wp_run _ _ _ _ _ (law_Rmdir_absent p _ Hi1) Er) as Hra.
  destruct rr as [[]|e1]; minv; [split; [done|by apply Hr2]|]. split; [done|]. split; [congruence|].
  case_decide; [auto|]. rewrite Hu in Hra. auto.
Qed.
Lemma removeDir_gone `{!RemoveLaws K} p k k' : fs_inv k → removeDir p k = (Ok tt, k') → fs_inv k' ∧ view k' p = None.
Proof.
  intros Hi Hr. unfold removeDir in Hr. apply sys_bind in Hr as (r&k1&Hf&Hr).
  destruct (OsRemove_run _ _ _ _ Hi Hf) as [Hi1 Hv]. destruct r as [|e]; [by minv|].
  destruct Hv as [Hv Ha]. destruct (IsNotExist e) eqn:Ee; minv. split; [done|]. rewrite Hv. auto.
Qed.
Lemma removeSymlink_gone `{!RemoveLaws K} p k k' : fs_inv k → removeSymlink p k = (Ok tt, k') → fs_inv k' ∧ view k' p = None.
Proof.
  intros Hi Hr. unfold removeSymlink in Hr. apply sys_bind in Hr as (r&k1&Hf&Hr).
  destruct (wp_run _ _ _ _ _ (law_Lstat p k Hi) Hf) as (Hi1&Hv1&Hv). destruct r as [kd|e].
  - case_decide; minv. apply sys_inv in H2 as (r&?&Hr2). simplify_eq. destruct (OsRemove_run _ _ _ _ Hi1 Hr2) as [Hi2 Hv2].
    destruct r; by minv.
  - destruct (IsNotExist e); minv. split; [done|]. rewrite Hv1. auto.
Qed.
Lemma removeDirVerified_gone p k k' : fs_inv k → removeDirVerified p k = (Ok tt, k') → view k' p = None.
Proof.
  intros Hi Hr. unfold removeDirVerified in Hr. apply M_bind_inv in Hr as [([]&k1&H1&Hr)|(?&?&?)]; [|done].
  assert (fs_inv k1) as Hi1.
  { eapply eff_inv, does_run; [apply (does_removeDir' (mods_scope p) p), mods_scope_mods|exact Hi|exact H1]. }
  apply sys_bind in Hr as (r&k2&Hf&Hr). destruct (wp_run _ _ _ _ _ (law_Lstat p _ Hi1) Hf) as (_&Hv&Ha).
  destruct r as [|e]; minv. destruct (IsNotExist e); minv. rewrite Hv. auto.
Qed.

(** Whether any subsystem is linked to a port. *)
Lemma portHasSubsystems_Ok p b k k' : fs_inv k → portHasSubsystems p k = (Ok b, k') →
  fs_inv k' ∧ view k' = view k ∧
  (b = false → ∀ n, plain_name n = true → view k (p ++ ["subsystems"; n]) = None).
Proof.
  intros Hi Hr. unfold portHasSubsystems in Hr. minv. apply sys_inv in H1 as (r&?&Hf). simplify_eq.
  rewrite joinp_plain in Hf by done. destruct (readDir_run _ _ _ _ Hi Hf) as (Hi1&Hv1&Hv). destruct r as [es|e].
  - minv. split_and!; [done..|]. intros Hes n Hn. destruct Hv as [_ Hv]. apply bool_decide_eq_false, dec_stable in Hes. subst es.
    destruct (view k (p ++ ["subsystems"; n])) as [nd|] eqn:En; [|done]. exfalso.
    assert ((n, kind_of nd) ∈ []) as []%elem_of_nil. apply Hv. split; [done|]. rewrite <- app_assoc. cbn. by rewrite En.
  - destruct (IsNotExist e); minv. split_and!; [done..|]. intros _ n Hn.
    change ["subsystems"; n] with (["subsystems"] ++ [n]). rewrite app_assoc. apply absent_entries; auto.
Qed.
End Posts.
