(* ===== verification/NvmetCorrect.v ===== *)
(** * What the nvmet target's operations may touch

    The paths of an export under the nvmet root, and for each operation of
    internal/agent/nvmeof the entries it may create, change or switch on,
    against any configfs that satisfies [FSLaws]. *)
From stdpp Require Import base numbers list strings gmap pretty.
From Stdlib Require Import Ascii.
From S2P Require Import Prelude GoStd GoNet GoNetip LioFs LioLaws ConfigfsEffects NvmetTarget NvmetLaws.
Open Scope Z_scope.

(** ** Paths *)

Lemma digit_neq d c : (c =? "/")%char || (c =? ".")%char = true → negb (Ascii.eqb (pretty_N_char d) c) = true.
Proof.
  intros [->%Ascii.eqb_eq | ->%Ascii.eqb_eq]%orb_true_iff; (destruct d as [|p]; [done|]); do 4 (destruct p as [p|p|]; try done).
Qed.
Lemma Itoa_plain n : 0 ≤ n → plain_name (Itoa n) = true.
Proof.
  intros Hn. pose proof (Itoa_chars (λ c, negb (Ascii.eqb c "/")) n Hn (λ d, digit_neq d "/" eq_refl)) as Hs.
  pose proof (Itoa_chars (λ c, negb (Ascii.eqb c ".")) n Hn (λ d, digit_neq d "." eq_refl)) as Hd.
  assert (Itoa n ≠ "") as He by (intros E; apply (Itoa_nonempty n "" Hn); by rewrite E).
  unfold plain_name. rewrite Hs, !andb_true_iff, !negb_true_iff, !bool_decide_eq_false. split_and!; [done|..|done]; intros E; by rewrite E in Hd.
Qed.

(** The names of an export are single path components. *)
Class wf_nvmet (t : NvmetTarget) : Prop := {
  wf_NQN : plain_name (SubsystemNQN t) = true;
  wf_NamespaceID : 0 ≤ NamespaceID t;
  wf_AllowedHosts h : h ∈ AllowedHosts t → plain_name h = true;
}.

Section Paths.
Context (t : NvmetTarget) `{!wf_nvmet t}.
Abbreviation R := (nvmetRoot t).
Abbreviation ns := (pretty (NamespaceID t)).

Lemma ns_plain : plain_name ns = true.
Proof. by apply Itoa_plain, wf_NamespaceID. Qed.
Lemma subsystemsDir_eq : subsystemsDir t = R ++ ["subsystems"].
Proof. unfold subsystemsDir. by rewrite joinp_plain. Qed.
Lemma portsDir_eq : portsDir t = R ++ ["ports"].
Proof. unfold portsDir. by rewrite joinp_plain. Qed.
Lemma subsystemDir_eq : subsystemDir t = R ++ ["subsystems"; SubsystemNQN t].
Proof. unfold subsystemDir. rewrite joinp_plain, subsystemsDir_eq, <- app_assoc by apply wf_NQN. done. Qed.
Lemma namespaceDir_eq : namespaceDir t = subsystemDir t ++ ["namespaces"; ns].
Proof. unfold namespaceDir. by rewrite !joinp_plain, <- app_assoc by (done || apply ns_plain). Qed.
Lemma hostDir_eq h : plain_name h = true → hostDir t h = R ++ ["hosts"; h].
Proof. intros. unfold hostDir. by rewrite !joinp_plain, <- app_assoc. Qed.
Lemma allowedHostsDir_eq : allowedHostsDir t = subsystemDir t ++ ["allowed_hosts"].
Proof. unfold allowedHostsDir. by rewrite joinp_plain. Qed.
Lemma allowedHostLink_eq h : plain_name h = true → allowedHostLink t h = subsystemDir t ++ ["allowed_hosts"; h].
Proof. intros. unfold allowedHostLink. by rewrite joinp_plain, allowedHostsDir_eq, <- app_assoc. Qed.
Lemma portDir_eq id : 0 ≤ id → portDir t id = R ++ ["ports"; Itoa id].
Proof. intros. unfold portDir. fold (Itoa id). by rewrite joinp_plain, portsDir_eq, <- app_assoc by by apply Itoa_plain. Qed.
Lemma portSubsystemLink_eq id : 0 ≤ id → portSubsystemLink t id = R ++ ["ports"; Itoa id; "subsystems"; SubsystemNQN t].
Proof. intros. unfold portSubsystemLink. by rewrite !joinp_plain, portDir_eq, <- !app_assoc by (done || apply wf_NQN). Qed.
Lemma namespaceEnablePath_eq : namespaceEnablePath t = namespaceDir t ++ ["enable"].
Proof. unfold namespaceEnablePath. by rewrite joinp_plain. Qed.
Lemma nsAttr_eq a : plain_name a = true → joinp (namespaceDir t) a = namespaceDir t ++ [a].
Proof. intros. by rewrite joinp_plain. Qed.

Lemma namespaceDir_below : subsystemDir t `prefix_of` namespaceDir t.
Proof. rewrite namespaceDir_eq. by apply prefix_app_r. Qed.
End Paths.

(** Writing one attribute that nothing is derived from. *)
Lemma writable_plain S d a v : a ∉ map fst derives → a ≠ "enable" → s_mod S (d ++ [a]) → writable S (d ++ [a]) v.
Proof.
  intros Ha He HM. split.
  - intros q [->|(b&->&Hin)%derived_snoc]; [done|]. destruct Ha. apply list_elem_of_fmap. by exists (a, b).
  - intros _ (d'&Hd). by apply app_inj_tail in Hd as [_ ->].
Qed.
Lemma creates_snoc S p x : creates S p → s_new S (p ++ [x]) → creates S (p ++ [x]).
Proof.
  intros Hp Hx q Hq. destruct (prefix_weak_total q p _ Hq (prefix_app_r p p [x] (reflexivity _))) as [?|[[|y r] ->]].
  - auto.
  - apply Hp. by rewrite app_nil_r.
  - apply prefix_app_head in Hq. pose proof (prefix_cons_inv_1 _ _ _ _ Hq) as ->. by apply prefix_cons_inv_2, prefix_nil_inv in Hq as ->.
Qed.
Lemma creates_below S p a : creates S p → news S p → creates S (p ++ a).
Proof.
  intros Hp HN q Hq. destruct (prefix_weak_total q p _ Hq (prefix_app_r p p a (reflexivity _))); auto.
Qed.

(** ** Effects of the operations *)
Section Effects.
Context {K : Type} `{FSLaws K} (t : NvmetTarget).
Implicit Types (S : scope) (k : K).

Lemma does_requireNamespace S : does S (requireNamespace t).
Proof. unfold requireNamespace. does_walk. Qed.
Hint Resolve does_requireNamespace : does.
Lemma does_NamespaceEnabled S : does S (NamespaceEnabled t).
Proof. unfold NamespaceEnabled. does_walk. Qed.
Lemma does_LiveIdentity S : does S (LiveIdentity t).
Proof. unfold LiveIdentity. does_walk. Qed.
Lemma does_disableNamespace S : writable S (namespaceEnablePath t) "0" → does S (disableNamespace t).
Proof. intros. unfold disableNamespace. does_walk. Qed.
Hint Resolve does_NamespaceEnabled does_disableNamespace : does.
Lemma does_DisableNamespace S : writable S (namespaceEnablePath t) "0" → does S (DisableNamespace t).
Proof. intros. unfold DisableNamespace. does_walk. Qed.
Lemma does_ResizeNamespace S : writable S (namespaceDir t ++ ["revalidate_size"]) "1" → does S (ResizeNamespace t).
Proof. intros. unfold ResizeNamespace. rewrite nsAttr_eq by done. does_walk. Qed.

Lemma does_createSubsystem uuid_String NewSHA1 S :
  creates S (subsystemDir t) → (∀ a v, a ∈ ["attr_allow_any_host"; "attr_serial"] → writable S (subsystemDir t ++ [a]) v) →
  does S (createSubsystem uuid_String NewSHA1 t).
Proof.
  intros HC HW. unfold createSubsystem. rewrite !joinp_plain by done.
  assert (∀ v, writable S (subsystemDir t ++ ["attr_allow_any_host"]) v) by (intros; apply HW; set_solver).
  assert (∀ v, writable S (subsystemDir t ++ ["attr_serial"]) v) by (intros; apply HW; set_solver). does_walk.
Qed.

Lemma does_ensureNamespaceIdentity S enable id :
  (∀ a v, a ∈ ["device_uuid"; "device_nguid"] → writable S (namespaceDir t ++ [a]) v) →
  does S (ensureNamespaceIdentity (namespaceDir t) enable id).
Proof.
  intros HW. unfold ensureNamespaceIdentity. apply does_bind; [auto with does|]. intros enabled. apply does_for_each.
  intros [a v] Ha. unfold ensureIdentityAttr. cbn.
  assert (a ∈ ["device_uuid"; "device_nguid"]) by set_solver. assert (plain_name a = true) by set_solver.
  assert (writable S (namespaceDir t ++ [a]) v) by auto. rewrite joinp_plain by done. does_walk.
Qed.

Lemma does_AllowHost S h :
  creates S (hostDir t h) → creates S (allowedHostsDir t) → s_new S (subsystemDir t ++ ["allowed_hosts"; h]) → plain_name h = true →
  does S (AllowHost t h).
Proof.
  intros HC HA HL Hp. unfold AllowHost.
  assert (does S (symlink (hostDir t h) (allowedHostLink t h))).
  { rewrite allowedHostLink_eq by done. apply does_symlink; [done|]. by intros q ?%no_link_sets. }
  does_walk.
Qed.

End Effects.
#[export] Hint Resolve does_requireNamespace does_NamespaceEnabled does_disableNamespace does_LiveIdentity : does.

Section Claiming.
Context {K C : Type} `{FSLaws K} (DeviceClaimer : string → M K go_error C) (release : C → M K go_error unit).
Context (uuid_String : string → option string) (NewSHA1 : string → string) (order : list (string * string) → list (string * string)).
(** The claimer opens the device exclusively and closes it again: it changes
    no configfs entry. *)
Context (claimer_looks : ∀ d, looks (DeviceClaimer d)) (release_looks : ∀ c, looks (release c)).
Context (t : NvmetTarget) `{!wf_nvmet t}.
Implicit Types (S : scope) (k : K).
Abbreviation R := (nvmetRoot t).

Lemma does_DeviceClaimer S d : does S (DeviceClaimer d).
Proof. apply does_looks, claimer_looks. Qed.
Lemma does_claimed S c : does S (release c).
Proof. apply does_looks, release_looks. Qed.
Hint Resolve does_DeviceClaimer does_claimed : does.
Lemma does_enableNamespace S : writable S (namespaceEnablePath t) "1" → does S (enableNamespace DeviceClaimer release t).
Proof. intros. unfold enableNamespace. does_walk. Qed.
Hint Resolve does_enableNamespace : does.
Lemma does_EnableNamespace S : writable S (namespaceEnablePath t) "1" → does S (EnableNamespace DeviceClaimer release t).
Proof. intros. unfold EnableNamespace. does_walk. Qed.
Lemma does_createNamespace S :
  creates S (namespaceDir t) → (∀ a v, a ∈ ["device_path"; "device_uuid"; "device_nguid"] → writable S (namespaceDir t ++ [a]) v) →
  writable S (namespaceEnablePath t) "0" → (LocalAttach t = false → writable S (namespaceEnablePath t) "1") →
  does S (createNamespace DeviceClaimer release uuid_String NewSHA1 t).
Proof.
  intros HC HW HE HE1. unfold createNamespace. rewrite !nsAttr_eq by done.
  assert (∀ v, writable S (namespaceDir t ++ ["device_path"]) v) by (intros; apply HW; set_solver).
  assert (∀ p id, does S (ensureNamespaceIdentity (namespaceDir t) p id)).
  { intros. apply does_ensureNamespaceIdentity. intros; apply HW; set_solver. }
  destruct (LocalAttach t); [|specialize (HE1 eq_refl)]; does_walk.
Qed.

(** What preparing an export needs to touch: its subsystem and the hosts. *)
Record prepares S : Prop := {
  pr_up : creates S (R ++ ["subsystems"]);
  pr_hosts_up : creates S (R ++ ["hosts"]);
  pr_sub : news S (subsystemDir t);
  pr_hosts : news S (R ++ ["hosts"]);
  pr_mod : mods S (subsystemDir t);
  pr_on : LocalAttach t = false → s_on S (namespaceEnablePath t);
}.

Lemma prepares_sub S a : prepares S → creates S (subsystemDir t ++ a).
Proof.
  intros HP. apply creates_below; [|exact (pr_sub _ HP)]. rewrite (subsystemDir_eq t). change (R ++ ?x :: ?l) with (R ++ [x] ++ l). rewrite app_assoc.
  apply creates_snoc; [exact (pr_up _ HP)|]. rewrite <- app_assoc. cbn. rewrite <- (subsystemDir_eq t). apply news_self, pr_sub, HP.
Qed.
Lemma prepares_writable S a v : prepares S → a ≠ [] → last a ≠ Some "enable" → writable S (subsystemDir t ++ a) v.
Proof. intros HP Ha He. apply mods_plain_writable; [exact (pr_mod _ HP)|done|done]. Qed.
Lemma prepares_enable S v : prepares S → (TrimSpace v = "1" → LocalAttach t = false) → writable S (namespaceEnablePath t) v.
Proof.
  intros HP Hv. assert (namespaceEnablePath t = subsystemDir t ++ ["namespaces"; pretty (NamespaceID t); "enable"]) as E.
  { by rewrite namespaceEnablePath_eq, (namespaceDir_eq t), <- app_assoc. }
  rewrite E. apply mods_writable; [exact (pr_mod _ HP)|done|]. intros H1 _. rewrite <- E. by apply (pr_on _ HP), Hv.
Qed.
Lemma prepares_ns S a v : prepares S → a ≠ "enable" → writable S (namespaceDir t ++ [a]) v.
Proof.
  intros HP Ha. rewrite (namespaceDir_eq t), <- app_assoc. apply prepares_writable; [done|done|]. cbn. congruence.
Qed.

Lemma does_allow_hosts S : prepares S → does (K := K) S (for_each (AllowHost t) (AllowedHosts t)).
Proof.
  intros HP. apply does_for_each. intros h Hh%wf_AllowedHosts. apply does_AllowHost; [..|done].
  - rewrite hostDir_eq by done. change (R ++ ?x :: ?l) with (R ++ [x] ++ l). rewrite app_assoc. apply creates_below; [exact (pr_hosts_up _ HP)|exact (pr_hosts _ HP)].
  - rewrite allowedHostsDir_eq. by apply prepares_sub.
  - by apply news_at, pr_sub.
Qed.
Lemma does_nvmetPrepare S : prepares S → does S (Prepare DeviceClaimer release uuid_String NewSHA1 t).
Proof.
  intros HP. assert (does (K := K) S (createSubsystem uuid_String NewSHA1 t)).
  { apply does_createSubsystem; [rewrite <- (app_nil_r (subsystemDir t)); by apply prepares_sub|].
    intros a v Ha. apply prepares_writable; [done|done|cbn; set_solver]. }
  assert (does S (createNamespace DeviceClaimer release uuid_String NewSHA1 t)).
  { apply does_createNamespace.
    - rewrite (namespaceDir_eq t). by apply prepares_sub.
    - intros a v Ha. apply prepares_ns; [done|set_solver].
    - by apply prepares_enable.
    - intros. by apply prepares_enable. }
  pose proof (does_allow_hosts S HP). unfold Prepare. does_walk.
Qed.
End Claiming.

(** ** Ports *)

Lemma dirp_snoc (d : path) x : dirp (d ++ [x]) = d.
Proof. apply removelast_last. Qed.

Definition addrAttrs : list string := ["addr_trtype"; "addr_adrfam"; "addr_traddr"; "addr_trsvcid"].
Lemma portAttrs_plain a : a ∈ portAttrs → plain_name a = true.
Proof. revert a. apply Forall_forall. by repeat constructor. Qed.
Lemma addrAttrs_plain a : a ∈ addrAttrs → plain_name a = true ∧ a ≠ "enable" ∧ a ∉ portInlineDataSizeAttr :: portMDTSAttr :: "subsystems" :: map fst derives.
Proof. revert a. apply Forall_forall. repeat constructor; try done; cbv; set_solver. Qed.
Record wf_spec (spec : portSpec) : Prop := {
  spec_id : 1 ≤ sp_id spec ≤ 65535;
  spec_attrs : map fst (sp_attrs spec) = addrAttrs;
}.

Lemma stablePortID_range addr port : 1 ≤ stablePortID addr port ≤ 65535.
Proof. unfold stablePortID. cbv zeta. match goal with |- context [?h `mod` 65535] => pose proof (Z.mod_pos_bound h 65535 eq_refl) end. lia. Qed.

Lemma target_portSpec_wf t spec : target_portSpec t = Ok spec → wf_spec spec.
Proof.
  unfold target_portSpec. cbv zeta. destruct (ParseIP _) as [ip|]; [|done]. do 3 (destruct (_ : bool); [done|]).
  destruct (bool_decide _); intros [= <-]; split; cbn; auto using stablePortID_range.
Qed.

Section Ports.
Context {K : Type} `{FSLaws K} (order : list (string * string) → list (string * string)).
(** The order in which a Go map is ranged over. *)
Context (order_perm : ∀ l, order l ≡ₚ l).
Implicit Types (S : scope) (k : K) (d : path).

Lemma does_prunePortLocked S d : mods S d → does (K := K) S (prunePortLocked d).
Proof.
  intros HM. unfold prunePortLocked.
  assert (∀ a, a ∈ portAttrs → does (K := K) S (bestEffort (OsRemove (joinp d a)))) as HA.
  { intros a Ha. rewrite joinp_plain by by apply portAttrs_plain. by apply does_bestEffort, does_OsRemove, mods_below. }
  assert (does (K := K) S (bestEffort (OsRemove (joinp d "subsystems")))).
  { rewrite joinp_plain by done. by apply does_bestEffort, does_OsRemove, mods_below. }
  pose proof (does_for_each S _ _ HA). does_walk.
Qed.

Lemma spec_attr spec a : wf_spec spec → a ∈ order (sp_attrs spec) → a.1 ∈ addrAttrs.
Proof.
  intros Hs Ha. rewrite order_perm in Ha. rewrite <- (spec_attrs _ Hs). apply list_elem_of_fmap. eauto.
Qed.
Lemma does_ensurePortAttr S d a : writable S (d ++ [a.1]) a.2 → a.1 ∈ addrAttrs → does (K := K) S (ensurePortAttr d a).
Proof.
  intros HM (Hp&He&_)%addrAttrs_plain. unfold ensurePortAttr. rewrite joinp_plain by done. does_walk.
Qed.
Lemma does_ensureInline S d spec : (∀ v, writable S (d ++ [portInlineDataSizeAttr]) v) → does (K := K) S (ensureInlineDataSizeLocked d spec).
Proof.
  intros HM. unfold ensureInlineDataSizeLocked. rewrite joinp_plain by done. does_walk.
Qed.
Lemma does_ensureMDTS S d spec : (∀ v, writable S (d ++ [portMDTSAttr]) v) → does (K := K) S (ensureMDTSLocked d spec).
Proof.
  intros HM. unfold ensureMDTSLocked. rewrite joinp_plain by done. does_walk.
Qed.

Context (t : NvmetTarget) `{!wf_nvmet t}.
Abbreviation R := (nvmetRoot t).
Definition portPath (name : string) : path := R ++ ["ports"; name].

(** What the ports of the agent may undergo. *)
Record serves_ports S : Prop := {
  sv_up : creates S (R ++ ["ports"]);
  sv_new : news S (R ++ ["ports"]);
  sv_mod : mods S (R ++ ["ports"]);
}.

Lemma sv_port_new S name a : serves_ports S → creates S (portPath name ++ a).
Proof.
  intros HS. unfold portPath. rewrite <- app_assoc. change (["ports"; name] ++ a) with (["ports"] ++ name :: a). rewrite app_assoc.
  apply creates_below; [exact (sv_up _ HS)|exact (sv_new _ HS)].
Qed.
Lemma sv_port_mod S name : serves_ports S → mods S (portPath name).
Proof.
  intros HS. unfold portPath. change ["ports"; name] with (["ports"] ++ [name]). rewrite app_assoc. apply mods_below, HS.
Qed.
Lemma does_port_link S name old : serves_ports S →
  does (K := K) S (symlink old (portPath name ++ ["subsystems"; SubsystemNQN t])).
Proof.
  intros HS. apply does_symlink; [by apply (sv_port_new S name ["subsystems"; SubsystemNQN t] HS)|].
  intros q (d&n&a&_&Hd&->). change ["subsystems"; ?x] with (["subsystems"] ++ [x]) in Hd. rewrite !app_assoc in Hd.
  apply app_inj_tail in Hd as [Hd _]. apply app_inj_tail in Hd as [<- _].
  by apply (mods_below _ _ [a] (sv_port_mod S name HS)).
Qed.
Lemma does_restore S name : serves_ports S →
  does (K := K) S (restoreLink (subsystemDir t) (portPath name ++ ["subsystems"; SubsystemNQN t])).
Proof.
  intros HS. pose proof (does_port_link S name (subsystemDir t) HS). unfold restoreLink.
  change ["subsystems"; ?x] with (["subsystems"] ++ [x]) in *. rewrite app_assoc in *. rewrite dirp_snoc.
  pose proof (sv_port_new S name ["subsystems"] HS). does_walk.
Qed.

Lemma portPath_eq id : 0 ≤ id → portDir t id = portPath (Itoa id).
Proof. apply portDir_eq. Qed.
Lemma portLink_eq id : 0 ≤ id → portSubsystemLink t id = portPath (Itoa id) ++ ["subsystems"; SubsystemNQN t].
Proof. intros. rewrite (portSubsystemLink_eq t) by done. unfold portPath. by rewrite <- app_assoc. Qed.

Lemma does_ensurePort S spec : serves_ports S → wf_spec spec → does (K := K) S (ensurePortLocked order t spec).
Proof.
  intros HS Hw. unfold ensurePortLocked. cbv zeta. rewrite portPath_eq by (destruct (spec_id _ Hw); lia).
  pose proof (sv_port_mod S (Itoa (sp_id spec)) HS) as HM. pose proof (sv_port_new S (Itoa (sp_id spec)) [] HS) as HC. rewrite app_nil_r in HC.
  pose proof (does_ensureInline S _ spec (λ v, mods_plain_writable S _ [portInlineDataSizeAttr] v HM ltac:(done) ltac:(done))).
  pose proof (does_ensureMDTS S _ spec (λ v, mods_plain_writable S _ [portMDTSAttr] v HM ltac:(done) ltac:(done))).
  assert (does (K := K) S (for_each (ensurePortAttr (portPath (Itoa (sp_id spec)))) (order (sp_attrs spec)))).
  { apply does_for_each. intros a Ha%spec_attr; [|done]. apply does_ensurePortAttr; [|done]. apply addrAttrs_plain in Ha as (_&He&_).
    apply mods_plain_writable; [done|done|cbn; congruence]. }
  does_walk.
Qed.
Lemma does_linkLocked S spec : serves_ports S → wf_spec spec → does (K := K) S (linkSubsystemToPortLocked order t spec).
Proof.
  intros HS Hw. pose proof (does_ensurePort S spec HS Hw). unfold linkSubsystemToPortLocked.
  rewrite portLink_eq by (destruct (spec_id _ Hw); lia). pose proof (does_restore S (Itoa (sp_id spec)) HS) as HR.
  unfold restoreLink in HR. apply does_bind; [done|]. by intros _.
Qed.
Lemma does_linkSubsystemToPort S spec : serves_ports S → wf_spec spec → does (K := K) S (linkSubsystemToPort order t spec).
Proof.
  intros HS Hw. pose proof (does_linkLocked S spec HS Hw). unfold linkSubsystemToPort.
  rewrite portPath_eq by (destruct (spec_id _ Hw); lia).
  pose proof (does_prunePortLocked S _ (sv_port_mod S (Itoa (sp_id spec)) HS)). does_walk.
Qed.

Lemma does_unlinkFromPort S name : serves_ports S → does (K := K) S (unlinkFromPort t (portPath name)).
Proof.
  intros HS. unfold unlinkFromPort. cbv zeta. rewrite !joinp_plain, <- app_assoc by (done || apply wf_NQN). cbn [app].
  pose proof (sv_port_mod S name HS) as HM. pose proof (does_restore S name HS). pose proof (does_prunePortLocked S _ HM).
  assert (does (K := K) S (removeSymlink (portPath name ++ ["subsystems"; SubsystemNQN t]))) by by apply does_removeSymlink, mods_below.
  does_walk.
Qed.
Lemma does_unlinkFromPorts S : serves_ports S → does (K := K) S (unlinkFromPorts t).
Proof.
  intros HS. unfold unlinkFromPorts. rewrite portsDir_eq. eapply does_bind_with; [apply ReadDir_plain|].
  intros [es|e] Hes; [|does_walk]. apply does_for_each. intros [name kd] Hin. specialize (Hes _ eq_refl).
  rewrite Forall_forall in Hes. cbn. rewrite joinp_plain, <- app_assoc by by apply (Hes _ Hin). by apply does_unlinkFromPort.
Qed.
End Ports.

(** ** Revoking hosts, and removal *)
Section Removal.
Context {K : Type} `{FSLaws K} (t : NvmetTarget) `{!wf_nvmet t}.
Implicit Types (S : scope) (k : K).
Abbreviation R := (nvmetRoot t).

Lemma does_anyAllows S d h es : does (K := K) S (anyAllows d h es).
Proof. induction es as [|[name kd] es IH]; cbn [anyAllows]; does_walk. Qed.
Hint Resolve does_anyAllows : does.
Lemma does_pruneHostLocked S h : mods S (hostDir t h) → does (K := K) S (pruneHostLocked t h).
Proof. intros. unfold pruneHostLocked, hostReferenced. does_walk. Qed.

(** The entries of one allowed host. *)
Record serves_host S h : Prop := {
  sh_link : mods S (allowedHostLink t h);
  sh_dir : mods S (hostDir t h);
  sh_up : creates S (allowedHostsDir t);
  sh_new : s_new S (allowedHostLink t h);
}.
Lemma does_host_restore S h : plain_name h = true → serves_host S h → does (K := K) S (restoreLink (hostDir t h) (allowedHostLink t h)).
Proof.
  intros Hp HS. assert (allowedHostLink t h = allowedHostsDir t ++ [h]) as E by (unfold allowedHostLink; by rewrite joinp_plain).
  assert (dirp (allowedHostLink t h) = allowedHostsDir t) as E' by by rewrite E, dirp_snoc.
  unfold restoreLink. rewrite E'. pose proof (sh_up _ _ HS).
  assert (does (K := K) S (symlink (hostDir t h) (allowedHostLink t h))).
  { apply does_symlink; [exact (sh_new _ _ HS)|]. rewrite allowedHostLink_eq by done. by intros q ?%no_link_sets. }
  does_walk.
Qed.
Lemma does_DenyHost S h : plain_name h = true → serves_host S h → does (K := K) S (DenyHost t h).
Proof.
  intros Hp HS. pose proof (does_host_restore S h Hp HS). pose proof (does_pruneHostLocked S h (sh_dir _ _ HS)).
  pose proof (does_removeSymlink S _ (sh_link _ _ HS)). unfold DenyHost. does_walk.
Qed.
Lemma does_RevokeHostsExcept S keep :
  (∀ h, plain_name h = true → h ∉ keep → serves_host S h) → does (K := K) S (RevokeHostsExcept t keep).
Proof.
  intros HS. unfold RevokeHostsExcept. eapply does_bind_with; [apply ReadDir_plain|].
  intros [es|e] Hes; [|does_walk]. apply does_for_each. intros [h kd] Hin. specialize (Hes _ eq_refl). rewrite Forall_forall in Hes.
  cbn. destruct (containsb keep h) eqn:Ec; [apply does_ret|]. specialize (Hes _ Hin). apply does_DenyHost; [done|]. apply HS; [done|].
  by apply bool_decide_eq_false in Ec.
Qed.

Definition subsystemAttrs : list string := ["allowed_hosts"; "namespaces"; "attr_allow_any_host"; "attr_serial"].
Lemma does_nvmetRemove S : mods S (subsystemDir t) → (∀ h, plain_name h = true → serves_host S h) → serves_ports t S → does (K := K) S (Remove t).
Proof.
  intros HM HH HS. pose proof (does_unlinkFromPorts t S HS).
  assert (does (K := K) S (RevokeHostsExcept t [])) by (apply does_RevokeHostsExcept; auto).
  assert (mods S (namespaceDir t)) as HN by (rewrite (namespaceDir_eq t); by apply mods_below).
  assert (∀ a, plain_name a = true → does (K := K) S (OsRemove (joinp (namespaceDir t) a))).
  { intros a Ha. rewrite joinp_plain by done. by apply does_OsRemove, mods_below. }
  assert (∀ a, plain_name a = true → does (K := K) S (OsRemove (joinp (subsystemDir t) a))).
  { intros a Ha. rewrite joinp_plain by done. by apply does_OsRemove, mods_below. }
  assert (does (K := K) S (WriteFile (joinp (namespaceDir t) "enable") "0")).
  { rewrite joinp_plain by done. by apply does_write, mods_writable. }
  unfold Remove. does_walk.
Qed.
End Removal.
