(* ===== verification/NvmetPorts.v ===== *)
(** * Ports of the nvmet target

    The limits an export asks of its port (param_inline_data_size and
    param_mdts), and what linking a subsystem to a port establishes. *)
From stdpp Require Import base numbers list strings gmap pretty.
From Stdlib Require Import Ascii.
From S2P Require Import Prelude GoStd GoNet GoNetip ConfigTypes LioFs LioLaws ConfigfsEffects NvmetTarget NvmetLaws NvmetCorrect.
Open Scope Z_scope.

(** ** Limits *)

Lemma valid_cases v : ValidMaxDataTransferSize v = true → v = 0 ∨ ∃ k, 13 ≤ k ≤ 30 ∧ v = 2 ^ k.
Proof. apply IsValidMaxDataTransferSize_spec. Qed.

Definition sizeShifts : list Z := map (λ i, 13 + Z.of_nat i) (seq 0 18).
Lemma sizeShifts_in k : 13 ≤ k ≤ 30 → k ∈ sizeShifts.
Proof. intros Hk. apply list_elem_of_fmap. exists (Z.to_nat (k - 13)). split; [lia|]. apply elem_of_seq. lia. Qed.

(** The port's limit is the exponent of the size, in units of 4096 bytes. *)
Lemma mdtsExponent_pow k : 13 ≤ k ≤ 30 → mdtsExponent (2 ^ k) = k - 12 ∧ Atoi (mdtsValue (2 ^ k)) = Some (k - 12).
Proof. intros Hk%sizeShifts_in. revert k Hk. apply Forall_forall. by repeat constructor. Qed.

(** What a limit of [size] bytes allows: it is no larger than what is
    required, where 0 stands for no limit on either side. *)
Definition size_fits (size : Z) (req : option Z) : bool :=
  match req with
  | None => true
  | Some r => (r =? 0) || (size =? 0) || (size <=? r)
  end.

Lemma linked_allows spec size :
  valid_size (sp_maxDataTransferSize spec) = true → ValidMaxDataTransferSize size = true →
  linkedPortMDTSAllows spec (mdtsValue size) = Ok tt ↔ size_fits size (sp_maxDataTransferSize spec) = true.
Proof.
  unfold linkedPortMDTSAllows, size_fits. destruct (sp_maxDataTransferSize spec) as [r|]; [|done]. cbn [valid_size].
  intros [->|(k&Hk&->)]%valid_cases [->|(j&Hj&->)]%valid_cases; [done|done|by rewrite (bool_decide_true (mdtsValue 0 = mdtsNoLimit)), !orb_true_r by done|].
  assert ((2 ^ k =? 0) = false) as -> by (apply Z.eqb_neq; lia). assert ((2 ^ j =? 0) = false) as -> by (apply Z.eqb_neq; lia).
  destruct (mdtsExponent_pow k Hk) as [-> _]. destruct (mdtsExponent_pow j Hj) as [Hej ->]. cbn [orb].
  assert (mdtsValue (2 ^ j) ≠ mdtsNoLimit) as Hne.
  { clear -Hj. apply sizeShifts_in in Hj. revert j Hj. apply Forall_forall. by repeat constructor. }
  rewrite bool_decide_false by done. rewrite Z.leb_le, <- Z.pow_le_mono_r_iff by lia.
  destruct (Z.ltb_spec 0 (j - 12)); [cbn|lia]. destruct (Z.leb_spec (j - 12) (k - 12)); split; (done || lia).
Qed.

(** The size an idle port is given. *)
Definition idleSize (spec : portSpec) : Z :=
  let size := default 0 (sp_maxDataTransferSize spec) in
  match sp_mdtsFloor spec with
  | Some f => if (0 <? f) && ((size =? 0) || (f <? size)) then f else size
  | None => size
  end.
Lemma idlePortMDTS_eq spec : idlePortMDTS spec = mdtsValue (idleSize spec).
Proof. done. Qed.

Definition sizes_valid (spec : portSpec) : Prop :=
  valid_size (sp_maxDataTransferSize spec) = true ∧ valid_size (sp_mdtsFloor spec) = true.

Lemma idleSize_valid spec : sizes_valid spec → ValidMaxDataTransferSize (idleSize spec) = true.
Proof.
  intros [Hr Hf]. unfold idleSize. destruct (sp_maxDataTransferSize spec), (sp_mdtsFloor spec); cbn in *; try done; by destruct (_ && _).
Qed.
Lemma idleSize_fits spec : sizes_valid spec → size_fits (idleSize spec) (sp_maxDataTransferSize spec) = true.
Proof.
  intros [Hr Hf]. unfold idleSize, size_fits. destruct (sp_maxDataTransferSize spec) as [r|]; [|done]. cbn in *.
  destruct (Z.eqb_spec r 0) as [|Hr0]; [done|]. destruct (sp_mdtsFloor spec) as [f|]; cbn; [|by rewrite Z.leb_refl, orb_true_r].
  destruct (Z.ltb_spec 0 f); cbn; [|by rewrite Z.leb_refl, orb_true_r].
  destruct (Z.ltb_spec f r); [|by rewrite Z.leb_refl, orb_true_r]. apply orb_true_iff. right. apply Z.leb_le. lia.
Qed.
(** A port set up for an export allows that export. *)
Lemma idle_allows spec : sizes_valid spec → linkedPortMDTSAllows spec (idlePortMDTS spec) = Ok tt.
Proof. intros Hs. rewrite idlePortMDTS_eq. apply linked_allows; [apply Hs|by apply idleSize_valid|by apply idleSize_fits]. Qed.

Lemma target_portSpec_valid t spec : target_portSpec t = Ok spec →
  sizes_valid spec ∧ (∀ v, sp_inlineDataSize spec = Some v → MinInlineDataSize ≤ v) ∧
  sp_maxDataTransferSize spec = MaxDataTransferSize t ∧ sp_mdtsFloor spec = PortMDTSFloor t ∧ sp_inlineDataSize spec = InlineDataSize t.
Proof.
  unfold target_portSpec. cbv zeta. destruct (ParseIP _) as [ip|]; [|done]. 
  destruct (if InlineDataSize t is Some v then v <? MinInlineDataSize else false) eqn:Ei; [done|].
  destruct (valid_size (MaxDataTransferSize t)) eqn:Em; [|done]. destruct (valid_size (PortMDTSFloor t)) eqn:Ef; [|done]. cbn [negb].
  destruct (bool_decide _); intros [= <-]; (split; [by split|split; [|by split_and!]]); intros v Hv; cbn in Hv; rewrite Hv in Ei; by apply Z.ltb_ge.
Qed.

(** ** Attribute text *)

Definition portText (s : string) : string := trimRightBy (λ c, Ascii.eqb c NULb || isNewline c) s.

Lemma trimLeftBy_suffix P s : ∃ r, s = r +:+ trimLeftBy P s.
Proof.
  induction s as [|c s [r IH]]; [by exists ""|]. cbn. destruct (P c); [|by exists ""]. exists (String c r).
  change (String c r +:+ trimLeftBy P s) with (String c (r +:+ trimLeftBy P s)). by rewrite <- IH.
Qed.
Lemma rev_string_app a b : rev_string (a +:+ b) = rev_string b +:+ rev_string a.
Proof. unfold rev_string. by rewrite bytes_of_string_app, rev_app_distr, string_of_bytes_app. Qed.
Lemma trimRightBy_prefix P s : ∃ r, s = trimRightBy P s +:+ r.
Proof.
  destruct (trimLeftBy_suffix P (rev_string s)) as [r Hr]. exists (rev_string r). unfold trimRightBy.
  by rewrite <- rev_string_app, <- Hr, rev_string_involutive.
Qed.
Lemma TrimSpace_head c s : isSpace c = false → ∃ s', TrimSpace (String c s) = String c s'.
Proof. intros Hc. unfold TrimSpace. cbn [TrimLeft]. rewrite Hc, rev_string_snoc, TrimLeft_snoc, rev_string_last by done. eauto. Qed.

Lemma Itoa_head n : 0 ≤ n → ∃ c s, Itoa n = String c s ∧ c ≠ "-"%char ∧ isSpace c = false.
Proof.
  intros Hn. destruct (Itoa n) as [|c s] eqn:E; [by destruct (Itoa_nonempty n "" Hn); rewrite E|]. exists c, s. split; [done|].
  pose proof (Itoa_chars (λ c, negb (Ascii.eqb c "-") && negb (isSpace c)) n Hn) as Hd. rewrite E in Hd. cbn in Hd.
  destruct (Ascii.eqb_spec c "-"), (isSpace c); cbn in Hd; (done || (exfalso; discriminate Hd || idtac)).
  all: assert (false = true); [apply Hd|done]; clear; intros [|p]; [done|]; do 4 (destruct p as [p|p|]; try done).
Qed.

(** What stands in an attribute, up to the blanks the kernel appends. *)
Definition stands (s v : string) : Prop := portText s = v ∨ TrimSpace s = TrimSpace v.
Lemma stands_not_default s n : 0 ≤ n → stands s (Itoa n) → TrimSpace s ≠ transportDefaultInlineDataSize.
Proof.
  intros Hn Hs. destruct (Itoa_head n Hn) as (c&w&Hc&Hm&Hb). rewrite Hc in Hs.
  assert (∃ w', TrimSpace s = String c w') as [w' ->]; [|by intros [= -> _]].
  destruct Hs as [Hs| ->]; [|by apply TrimSpace_head].
  destruct (trimRightBy_prefix (λ c, Ascii.eqb c NULb || isNewline c) s) as [r Hr]. fold (portText s) in Hr. rewrite Hs in Hr. rewrite Hr.
  by apply TrimSpace_head.
Qed.

(** The text of an absolute path is not blank. *)
Lemma bytes_rev s c : c ∈ bytes_of_string (rev_string s) ↔ c ∈ bytes_of_string s.
Proof. unfold rev_string. rewrite bytes_of_string_of_bytes, !list_elem_of_In. symmetry. apply in_rev. Qed.
Lemma bytes_cons c x s : c ∈ bytes_of_string (String x s) ↔ c = x ∨ c ∈ bytes_of_string s.
Proof. apply elem_of_cons. Qed.
Lemma bytes_TrimLeft s c : isSpace c = false → c ∈ bytes_of_string (TrimLeft s) ↔ c ∈ bytes_of_string s.
Proof.
  intros Hc. induction s as [|x s IH]; [done|]. cbn [TrimLeft]. destruct (isSpace x) eqn:E; [|done]. rewrite IH, bytes_cons. naive_solver congruence.
Qed.
Lemma bytes_TrimSpace s c : isSpace c = false → c ∈ bytes_of_string (TrimSpace s) ↔ c ∈ bytes_of_string s.
Proof. intros Hc. unfold TrimSpace. by rewrite bytes_rev, bytes_TrimLeft, bytes_rev, bytes_TrimLeft. Qed.
Lemma bytes_trimRightNUL s c : c ≠ NULb → c ∈ bytes_of_string (trimRightNUL s) ↔ c ∈ bytes_of_string s.
Proof.
  intros Hc. unfold trimRightNUL. rewrite bytes_rev, <- (bytes_rev s). generalize (rev_string s). clear s. intros s.
  induction s as [|x s IH]; [done|]. cbn [trimLeftNUL]. destruct (Ascii.eqb_spec x NULb); [|done]. rewrite IH, bytes_cons. naive_solver congruence.
Qed.
Lemma stands_abs s v : IsAbs v = true → stands s v → attr_text s ≠ "".
Proof.
  intros Ha Hs. assert ("/"%char ∈ bytes_of_string s) as Hin.
  { apply HasPrefix_split in Ha. set (w := drop_string _ _) in Ha. change ("/" +:+ w) with (String "/" w) in Ha. rewrite Ha in Hs. destruct Hs as [Hs|Hs].
    - destruct (trimRightBy_prefix (λ c, Ascii.eqb c NULb || isNewline c) s) as [r Hr]. fold (portText s) in Hr. rewrite Hs in Hr. rewrite Hr. by left.
    - rewrite <- bytes_TrimSpace, Hs, bytes_TrimSpace by done. by left. }
  intros E. rewrite <- (bytes_trimRightNUL s), <- bytes_TrimSpace in Hin by done. fold (attr_text s) in Hin. rewrite E in Hin. by apply elem_of_nil in Hin.
Qed.

(** ** What linking establishes *)
Lemma addrAttrs_apart : ∀ a, a ∈ addrAttrs → a ≠ portInlineDataSizeAttr ∧ a ≠ portMDTSAttr ∧ (a ∉ port_settles) ∧ a ≠ "subsystems".
Proof. apply Forall_forall. repeat constructor; try done; cbv; set_solver. Qed.
Lemma attr_snoc d (a b : string) : d ++ [a] = d ++ [b] → a = b.
Proof. by intros [_ ?]%app_inj_tail. Qed.
Lemma derives_not a b : (a, b) ∈ derives → a ∈ map fst derives.
Proof. intros Hin. apply list_elem_of_fmap. by exists (a, b). Qed.
Lemma write_scope_other d a b : a ∉ map fst derives → a ≠ b → ¬ s_mod (write_scope (d ++ [a]) nothing) (d ++ [b]).
Proof. intros Ha Hab [?%attr_snoc|(c&_&Hin%derives_not)%derived_snoc]; congruence. Qed.
Lemma write_scope_writable d a v : a ∉ map fst derives → a ≠ "enable" → writable (write_scope (d ++ [a]) nothing) (d ++ [a]) v.
Proof. intros. apply writable_plain; [done|done|by left]. Qed.
Lemma link_sets_port d n a : link_sets (d ++ ["subsystems"; n]) (d ++ [a]) → a ∈ port_settles.
Proof.
  intros (d'&n'&b&Hb&E&E'). apply app_inj_tail in E' as [_ ->]. done.
Qed.

Section PortPosts.
Context {K : Type} `{FSLaws K} (order : list (string * string) → list (string * string)) (order_perm : ∀ l, order l ≡ₚ l).
Implicit Types (k : K) (d p q : path).

Definition settled k p v : Prop := ∃ s, view k p = Some (NAttr s) ∧ stands s v.
Lemma settled_keeps S k k' p v : effect S k k' → ¬ s_mod S p → settled k p v → settled k' p v.
Proof. intros He Hm (s&Hs&?). exists s. split; [by eapply effect_keeps|done]. Qed.
Lemma writeFile_settled p v k k' : fs_inv k → writeFile p v k = (Ok tt, k') → settled k' p v.
Proof. intros Hi Hr. destruct (writeFile_Ok _ _ _ _ Hi Hr) as (s&Hs&?). exists s. split; [done|by right]. Qed.

Lemma readFileTrimmed_Ok p v k k' : fs_inv k → readFileTrimmed p k = (Ok v, k') →
  fs_inv k' ∧ view k' = view k ∧ ((∃ s, view k p = Some (NAttr s) ∧ portText s = v) ∨ v = "" ∧ view k p = None).
Proof.
  intros Hi Hr. unfold readFileTrimmed in Hr. apply sys_bind in Hr as (r&k1&Hf&Hr).
  destruct (readFile_run _ _ _ _ Hi Hf) as (Hi1&Hv&Hs). destruct r as [s|e].
  - minv. split_and!; [done..|]. left. by exists s.
  - destruct (IsNotExist e); minv. split_and!; auto.
Qed.
Lemma ensurePortAttr_Ok d a k k' :
  plain_name a.1 = true → a.2 ≠ "" → fs_inv k → ensurePortAttr d a k = (Ok tt, k') → settled k' (d ++ [a.1]) a.2.
Proof.
  intros Hp Hv Hi Hr. unfold ensurePortAttr in Hr. rewrite joinp_plain in Hr by done. apply M_bind_inv in Hr as [(cur&k1&H1&Hr)|(?&?&?)]; [|done].
  destruct (readFileTrimmed_Ok _ _ _ _ Hi H1) as (Hi1&Hv1&Hc). case_decide as Hd; [|by eapply writeFile_settled].
  minv. destruct Hc as [(s&Hs&Hc)|[E _]]; [|congruence]. exists s. rewrite Hv1. split; [done|]. left. congruence.
Qed.

Lemma ensureInline_Ok d spec v k k' : sp_inlineDataSize spec = Some v → 0 ≤ v → fs_inv k →
  ensureInlineDataSizeLocked d spec k = (Ok tt, k') → settled k' (d ++ [portInlineDataSizeAttr]) (Itoa v).
Proof.
  intros Hs Hv0 Hi Hr. unfold ensureInlineDataSizeLocked in Hr. rewrite Hs, joinp_plain in Hr by done.
  apply M_bind_inv in Hr as [(cur&k1&H1&Hr)|(?&?&?)]; [|done]. destruct (readFileTrimmed_Ok _ _ _ _ Hi H1) as (Hi1&Hv1&Hc).
  apply M_bind_inv in Hr as [(linked&k2&H2&Hr)|(?&?&?)]; [|done]. destruct (portHasSubsystems_Ok _ _ _ _ Hi1 H2) as (Hi2&Hv2&_).
  assert (cur = Itoa v → settled k2 (d ++ [portInlineDataSizeAttr]) (Itoa v)) as Hcur.
  { intros ->. destruct Hc as [(s&Hs'&Hp)|[E _]].
    - exists s. rewrite Hv2, Hv1. split; [done|by left].
    - destruct (Itoa_head v Hv0) as (?&?&E'&_). by rewrite E' in E. }
  destruct linked; case_decide as Hd; [minv|minv; by apply Hcur|minv; auto|by eapply writeFile_settled].
Qed.

(** The port's limit on transfers allows the export, where the kernel has one. *)
Definition mdts_allows spec k d : Prop :=
  ∀ s, view k (d ++ [portMDTSAttr]) = Some (NAttr s) → ∃ cur, stands s cur ∧ linkedPortMDTSAllows spec cur = Ok tt.
Lemma mdts_allows_view spec k k' d : view k' (d ++ [portMDTSAttr]) = view k (d ++ [portMDTSAttr]) → mdts_allows spec k d → mdts_allows spec k' d.
Proof. unfold mdts_allows. by intros ->. Qed.

Lemma ensureMDTS_Ok d spec k k' : sizes_valid spec → fs_inv k → ensureMDTSLocked d spec k = (Ok tt, k') → mdts_allows spec k' d.
Proof.
  intros Hsz Hi Hr. unfold ensureMDTSLocked in Hr. rewrite joinp_plain in Hr by done. apply sys_bind in Hr as (r&k1&Hl&Hr).
  destruct (wp_run _ _ _ _ _ (law_Lstat _ k Hi) Hl) as (Hi1&Hv1&Ha). destruct (match r with Err _ => _ | _ => _ end) eqn:Er.
  { minv. destruct r as [|e]; [done|]. intros s. rewrite Hv1, Ha by done. done. }
  apply M_bind_inv in Hr as [(cur&k2&H2&Hr)|(?&?&?)]; [|done]. destruct (readFileTrimmed_Ok _ _ _ _ Hi1 H2) as (Hi2&Hv2&Hc).
  apply M_bind_inv in Hr as [(linked&k3&H3&Hr)|(?&?&?)]; [|done]. destruct (portHasSubsystems_Ok _ _ _ _ Hi2 H3) as (Hi3&Hv3&_).
  assert (linkedPortMDTSAllows spec cur = Ok tt → mdts_allows spec k3 d) as Hcur.
  { intros Hok s Hs. exists cur. split; [|done]. rewrite Hv3, Hv2 in Hs. destruct Hc as [(s'&Hs'&<-)|[_ Hn]]; [|congruence].
    left. congruence. }
  destruct linked; [minv; by apply Hcur|]. case_decide as Hd; [minv; apply Hcur; by apply idle_allows|].
  destruct (writeFile_settled _ _ _ _ Hi3 Hr) as (s&Hs&Hst). intros s' Hs'. simplify_eq. exists (idlePortMDTS spec). split; [done|by apply idle_allows].
Qed.

Lemma symlink_frame old new k r k' q : fs_inv k → symlink old new k = (r, k') → q ≠ new →
  (link_sets new q → (∃ x, view k (removelast new ++ [x]) ≠ None) ∨ ∀ s, view k q = Some (NAttr s) → TrimSpace s ≠ transportDefaultInlineDataSize) →
  view k' q = view k q.
Proof.
  intros Hi Hr Hq Hl. unfold symlink in Hr. apply sys_bind in Hr as (rl&k1&Hf&Hr).
  destruct (readLink_run _ _ _ _ Hi Hf) as (Hi1&Hv1&_). destruct rl as [s|e]; [case_decide; minv; by rewrite Hv1|].
  destruct (IsNotExist e); [|minv; by rewrite Hv1]. apply sys_bind in Hr as (rs&k2&Hs&Hr).
  assert (k' = k2) as -> by (destruct rs; minv; done). destruct (wp_run _ _ _ _ _ (law_Symlink old new _ Hi1) Hs) as (_&Ho).
  destruct rs; [|by rewrite Ho, Hv1]. destruct Ho as (_&_&_&Hout). rewrite <- Hv1. apply Hout; [done|]. by rewrite Hv1.
Qed.

(** A port that serves the export of [spec]. *)
Record port_serves spec d k : Prop := {
  ps_listener a : a ∈ sp_attrs spec → settled k (d ++ [a.1]) a.2;
  ps_inline v : sp_inlineDataSize spec = Some v → settled k (d ++ [portInlineDataSizeAttr]) (Itoa v);
  ps_mdts : mdts_allows spec k d;
}.
(** The specification [NvmetTarget.portSpec] gives. *)
Record full_spec spec : Prop := {
  fu_wf : wf_spec spec;
  fu_sizes : sizes_valid spec;
  fu_inline v : sp_inlineDataSize spec = Some v → MinInlineDataSize ≤ v;
  fu_values a : a ∈ sp_attrs spec → a.2 ≠ "";
}.


Lemma sp_attrs_unique spec a b : wf_spec spec → a ∈ sp_attrs spec → b ∈ sp_attrs spec → a.1 = b.1 → a = b.
Proof.
  intros Hw Ha Hb E. destruct a as [n v], b as [n' v']; cbn in *; subst n'.
  assert (NoDup (map fst (sp_attrs spec))) as Hnd by (rewrite (spec_attrs _ Hw); by apply (bool_decide_unpack _), I).
  apply list_elem_of_lookup in Ha as [i Hi], Hb as [j Hj].
  assert (i = j) as -> by (eapply NoDup_lookup; [exact Hnd|..]; rewrite list_lookup_fmap; [by rewrite Hi|by rewrite Hj]). congruence.
Qed.

Lemma ensureListener_Ok d spec k k' : full_spec spec → fs_inv k →
  for_each (ensurePortAttr d) (order (sp_attrs spec)) k = (Ok tt, k') → ∀ a, a ∈ sp_attrs spec → settled k' (d ++ [a.1]) a.2.
Proof.
  intros Hw Hi Hr a Ha. rewrite <- order_perm in Ha. revert a Ha.
  apply (for_each_Ok (ensurePortAttr d) (λ a k, settled k (d ++ [a.1]) a.2) (mods_scope d) (order (sp_attrs spec)) k k'); [|..|done|done].
  - intros a Ha%(spec_attr order order_perm); [|apply Hw]. apply does_ensurePortAttr; [|done]. destruct (addrAttrs_plain _ Ha) as (_&He&_).
    apply mods_plain_writable; [apply mods_scope_mods|done|cbn; congruence].
  - intros a b k0 k1 Ha Hb Hi0 Hor Hr0. pose proof (spec_attr order order_perm _ _ (fu_wf _ Hw) Ha) as Hn.
    destruct (addrAttrs_plain _ Hn) as (Hp&He&Hd). rewrite order_perm in Ha, Hb. destruct (decide (a.1 = b.1)) as [E|E].
    + assert (a = b) as -> by (eapply sp_attrs_unique; [apply Hw|..]; done).
      eapply ensurePortAttr_Ok; [done|by eapply fu_values|done|done].
    + destruct Hor as [->|Hs]; [done|]. assert (a.1 ∉ map fst derives) by set_solver.
      eapply settled_keeps; [eapply does_run; [apply (does_ensurePortAttr (write_scope (d ++ [a.1]) nothing)); [by apply write_scope_writable|done]|done|exact Hr0]|by apply write_scope_other|done].
Qed.


(** The listener keeps the limits apart. *)
Lemma ensurePort_Ok t spec k k' d : full_spec spec → portDir t (sp_id spec) = d → fs_inv k →
  ensurePortLocked order t spec k = (Ok tt, k') → fs_inv k' ∧ port_serves spec d k'.
Proof.
  intros Hw Hd Hi Hr. unfold ensurePortLocked in Hr. cbv zeta in Hr. rewrite Hd in Hr.
  apply M_bind_inv in Hr as [([]&k1&H1&Hr)|(?&?&?)]; [|done].
  assert (fs_inv k1) as Hi1 by (eapply eff_inv, (does_run adds); [apply does_mkdirAll; by intros q|exact Hi|exact H1]).
  apply M_bind_inv in Hr as [([]&k2&H2&Hr)|(?&?&?)]; [|done]. pose proof (ensureListener_Ok _ _ _ _ Hw Hi1 H2) as Hl.
  assert (fs_inv k2) as Hi2.
  { eapply eff_inv, (does_run (mods_scope d)); [|exact Hi1|exact H2]. apply does_for_each.
    intros a Ha%(spec_attr order order_perm); [|apply Hw]. apply does_ensurePortAttr; [|done]. destruct (addrAttrs_plain _ Ha) as (_&He&_).
    apply mods_plain_writable; [apply mods_scope_mods|done|cbn; congruence]. }
  apply M_bind_inv in Hr as [([]&k3&H3&Hr)|(?&?&?)]; [|done].
  assert ((portInlineDataSizeAttr ∉ map fst derives) ∧ portMDTSAttr ∉ map fst derives) as [Hin Hmn] by (cbv; set_solver).
  assert (effect (write_scope (d ++ [portInlineDataSizeAttr]) nothing) k2 k3) as He3.
  { eapply does_run; [apply does_ensureInline|exact Hi2|exact H3]. intros. by apply write_scope_writable. }
  assert (effect (write_scope (d ++ [portMDTSAttr]) nothing) k3 k') as He4.
  { eapply does_run; [apply does_ensureMDTS|apply He3|exact Hr]. intros. by apply write_scope_writable. }
  split; [apply He4|]. split; [..|by eapply ensureMDTS_Ok, Hr; [apply Hw|apply He3]].
  - intros a Ha. assert (a.1 ∈ addrAttrs) as (?&?&_)%addrAttrs_apart.
    { rewrite <- (spec_attrs _ (fu_wf _ Hw)). apply list_elem_of_fmap. eauto. }
    eapply settled_keeps; [exact He4|by apply write_scope_other|]. eapply settled_keeps; [exact He3|by apply write_scope_other|]. auto.
  - intros v Hv. eapply settled_keeps; [exact He4|by apply write_scope_other|].
    eapply ensureInline_Ok; [done| |done|done]. apply (fu_inline _ Hw) in Hv. unfold MinInlineDataSize in Hv. lia.
Qed.

Lemma port_serves_dir spec d k : full_spec spec → fs_inv k → port_serves spec d k → view k d = Some NDir.
Proof.
  intros Hw Hi [Hl _ _]. destruct (sp_attrs spec) as [|a l] eqn:E; [by pose proof (spec_attrs _ (fu_wf _ Hw)) as Ha; rewrite E in Ha|].
  destruct (Hl a ltac:(by left)) as (s&Hs&_). apply (law_tree _ _ a.1 Hi). by rewrite Hs.
Qed.
Lemma port_serves_view spec d k k' : wf_spec spec →
  (∀ a, a ∈ portMDTSAttr :: addrAttrs → view k' (d ++ [a]) = view k (d ++ [a])) →
  (∀ v, sp_inlineDataSize spec = Some v → view k' (d ++ [portInlineDataSizeAttr]) = view k (d ++ [portInlineDataSizeAttr])) →
  port_serves spec d k → port_serves spec d k'.
Proof.
  intros Hw Hv Hvi [Hl Hin Hmd]. split.
  - intros a Ha. unfold settled. rewrite Hv; [by apply Hl|]. right. rewrite <- (spec_attrs _ Hw). apply list_elem_of_fmap. eauto.
  - intros v Hs. unfold settled. rewrite (Hvi v Hs). by apply Hin.
  - eapply mdts_allows_view; [|done]. apply Hv. by left.
Qed.


(** A port that carries the export serves it. *)
Lemma link_Ok t `{!wf_nvmet t} spec k k' : full_spec spec → fs_inv k → linkSubsystemToPort order t spec k = (Ok tt, k') →
  port_serves spec (portDir t (sp_id spec)) k' ∧ link k' (portSubsystemLink t (sp_id spec)) (subsystemDir t).
Proof.
  intros Hw Hi Hr. unfold linkSubsystemToPort in Hr. apply try_bind in Hr as (r&k1&H1&Hr). destruct r as [[]|]; [|minv].
  injection Hr as ->. unfold linkSubsystemToPortLocked in H1.
  apply M_bind_inv in H1 as [([]&k2&H2&H1)|(?&?&?)]; [|done].
  assert (0 ≤ sp_id spec) as Hid by (destruct (spec_id _ (fu_wf _ Hw)); lia). set (d := portDir t (sp_id spec)) in *.
  destruct (ensurePort_Ok _ _ _ _ d Hw eq_refl Hi H2) as [Hi2 Hs]. pose proof (port_serves_dir _ _ _ Hw Hi2 Hs) as Hdir.
  assert (portSubsystemLink t (sp_id spec) = d ++ ["subsystems"; SubsystemNQN t]) as El.
  { unfold portSubsystemLink. fold d. by rewrite !joinp_plain, <- app_assoc by (done || apply wf_NQN). }
  rewrite El in *. assert (dirp (d ++ ["subsystems"; SubsystemNQN t]) = d ++ ["subsystems"]) as Ed.
  { change ["subsystems"; ?x] with (["subsystems"] ++ [x]). by rewrite app_assoc, dirp_snoc. }
  rewrite Ed in H1. apply M_bind_inv in H1 as [([]&k3&H3&H1)|(?&?&?)]; [|done].
  set (S := {| s_new := λ q, q `prefix_of` d ∨ d ++ ["subsystems"] `prefix_of` q; s_mod := nothing; s_on := nothing |}).
  assert (effect S k2 k3) as He3.
  { eapply does_run; [apply does_mkdirAll|exact Hi2|exact H3]. apply creates_snoc; [intros q Hq; by left|by right]. }
  assert (∀ a, a ≠ "subsystems" → view k3 (d ++ [a]) = view k2 (d ++ [a])) as Hv3.
  { intros a Ha. apply (effect_untouched _ _ _ _ He3); [by intros []|]. intros p [Hp|Hp] Hpq.
    - split; [|by intros []]. intros Hn. by rewrite (view_below _ _ _ Hi2 Hn Hp) in Hdir.
    - destruct Ha. assert (d ++ ["subsystems"] `prefix_of` d ++ [a]) as Hx by by etrans. by apply prefix_app_head, prefix_cons_inv_1 in Hx. }
  split; [|by eapply symlink_Ok, H1; apply He3].
  assert (∀ a, a ≠ "subsystems" → (a ∈ port_settles → ∀ s, view k3 (d ++ [a]) = Some (NAttr s) → TrimSpace s ≠ transportDefaultInlineDataSize) →
    view k' (d ++ [a]) = view k2 (d ++ [a])) as Hv4.
  { intros a Ha Hd. rewrite <- Hv3 by done. eapply symlink_frame; [apply He3|exact H1| |].
    - intros E%(f_equal length). rewrite !length_app in E. cbn in E. lia.
    - intros Hl%link_sets_port. right. auto. }
  eapply port_serves_view; [apply Hw|..|exact Hs].
  - intros a Ha. apply Hv4.
    + apply elem_of_cons in Ha as [->|Ha]; [done|by apply addrAttrs_apart].
    + apply elem_of_cons in Ha as [->|Ha]; [intros Hp; cbv in Hp; set_solver|]. by apply addrAttrs_apart in Ha as (_&_&?&_).
  - intros v Hv. apply Hv4; [done|]. intros _ s. rewrite Hv3 by done. destruct (ps_inline _ _ _ Hs v Hv) as (s'&Hs'&Hst). rewrite Hs'.
    intros [= <-]. eapply stands_not_default; [|done]. pose proof (fu_inline _ Hw v Hv) as Hm. unfold MinInlineDataSize in Hm. lia.
Qed.
End PortPosts.
