(* ===== verification/NvmetServing.v ===== *)
(** * Serving a volume over NVMe-oF

    Preparing and linking an export: what a port may carry, what success
    means, when a namespace is switched on, and what becomes of the identity
    of a namespace in use. *)
From stdpp Require Import base numbers list strings gmap pretty.
From Stdlib Require Import Ascii.
From S2P Require Import Prelude GoStd GoNet GoNetip LioFs LioLaws ConfigfsEffects NvmetTarget NvmetLaws NvmetCorrect NvmetPorts.
Open Scope Z_scope.

Lemma Itoa_ne n : Itoa n ≠ "".
Proof. destruct n as [|p|p]; [done| |done]. intros E. apply (Itoa_nonempty (Z.pos p) ""); [lia|by rewrite E]. Qed.
Lemma target_portSpec_full t spec : target_portSpec t = Ok spec → full_spec spec.
Proof.
  intros Hs. destruct (target_portSpec_valid _ _ Hs) as (Hz&Hin&_). split; [by eapply target_portSpec_wf|done|done|].
  revert Hs. unfold target_portSpec. cbv zeta. destruct (ParseIP _) as [ip|]; [|done]. do 3 (destruct (_ : bool); [done|]).
  destruct (bool_decide _); intros [= <-]; cbn; apply Forall_forall; repeat constructor; try done; apply Itoa_ne.
Qed.

Section Serving.
Context {K C : Type} `{FSLaws K} (DeviceClaimer : string → M K go_error C) (release : C → M K go_error unit).
Context (uuid_String : string → option string) (NewSHA1 : string → string) (order : list (string * string) → list (string * string)).
Context (claimer_looks : ∀ d, looks (DeviceClaimer d)) (release_looks : ∀ c, looks (release c)) (order_perm : ∀ l, order l ≡ₚ l).
Context (t : NvmetTarget) `{!wf_nvmet t}.
Implicit Types (k : K) (p q : path).
Abbreviation R := (nvmetRoot t).
Abbreviation Prepare := (Prepare DeviceClaimer release uuid_String NewSHA1).
Abbreviation Link := (Link order).
Abbreviation Apply := (Apply DeviceClaimer release uuid_String NewSHA1 order).

(** ** Scopes *)

Definition prep_scope : scope := {|
  s_new := λ q, q `prefix_of` R ++ ["subsystems"] ∨ q `prefix_of` R ++ ["hosts"] ∨ subsystemDir t `prefix_of` q ∨ R ++ ["hosts"] `prefix_of` q;
  s_mod := λ q, subsystemDir t `prefix_of` q;
  s_on := λ q, q = namespaceEnablePath t |}.
Lemma prep_scope_prepares : prepares t prep_scope.
Proof. split; try (intros q Hq; cbn; tauto). done. Qed.

Definition ports_scope : scope := {|
  s_new := λ q, q `prefix_of` R ++ ["ports"] ∨ R ++ ["ports"] `prefix_of` q;
  s_mod := λ q, R ++ ["ports"] `prefix_of` q;
  s_on := nothing |}.
Lemma ports_scope_serves : serves_ports t ports_scope.
Proof. split; intros q Hq; cbn; tauto. Qed.

(** Two branches of the nvmet root have only the way to it in common. *)
Lemma branches a b s q p : a ≠ b → p `prefix_of` R ++ [a] → R ++ b :: s `prefix_of` q → p `prefix_of` q → p `prefix_of` R.
Proof.
  intros Hab Hp Hq Hpq. destruct (prefix_weak_total p R _ Hp (prefix_app_r R R [a] (reflexivity _))) as [|[[|c r] ->]]; [done|by rewrite app_nil_r|].
  apply prefix_app_head in Hp. pose proof (prefix_cons_inv_1 _ _ _ _ Hp) as ->. destruct Hab.
  by apply (diverge R a b r s q).
Qed.
Lemma branches_apart a b s s' q : a ≠ b → R ++ a :: s `prefix_of` q → R ++ b :: s' `prefix_of` q → False.
Proof. intros Hab H1 H2. destruct Hab. by eapply diverge. Qed.
Lemma root_present k p : fs_inv k → view k R ≠ None → p `prefix_of` R → view k p ≠ None.
Proof. intros Hi HR Hp Hn. by rewrite (view_below _ _ _ Hi Hn Hp) in HR. Qed.
Lemma subsystem_root k q : fs_inv k → subsystemDir t `prefix_of` q → view k q ≠ None → view k R ≠ None.
Proof.
  intros Hi Hq Hv Hn. apply Hv, (view_below k R); [done..|]. etrans; [|exact Hq]. rewrite (subsystemDir_eq t). by apply prefix_app_r.
Qed.

(** What happens on the ports leaves the subsystems alone, and the other way
    round. *)
Lemma ports_keep k k' q : fs_inv k → effect ports_scope k k' → view k R ≠ None → subsystemDir t `prefix_of` q → view k' q = view k q.
Proof.
  intros Hi He HR Hq. rewrite (subsystemDir_eq t) in Hq. apply (effect_untouched _ _ _ _ He).
  - intros Hm. exact (branches_apart "ports" "subsystems" [] [SubsystemNQN t] q ltac:(done) Hm Hq).
  - intros p [Hp|Hp] Hpq.
    + split; [apply root_present; [done..|exact (branches "ports" "subsystems" [SubsystemNQN t] q p ltac:(done) Hp Hq Hpq)]|].
      intros Hm. apply (branches_apart "ports" "subsystems" [] [SubsystemNQN t] q); [done|by etrans; [exact Hm|]|exact Hq].
    + exfalso. apply (branches_apart "ports" "subsystems" [] [SubsystemNQN t] q); [done|by etrans; [exact Hp|]|exact Hq].
Qed.
Lemma prep_keep k k' q : fs_inv k → effect prep_scope k k' → view k R ≠ None → R ++ ["ports"] `prefix_of` q → view k' q = view k q.
Proof.
  intros Hi He HR Hq. assert (∀ p, subsystemDir t `prefix_of` p → ¬ p `prefix_of` q) as Hs.
  { rewrite (subsystemDir_eq t). intros p Hp Hpq. apply (branches_apart "subsystems" "ports" [SubsystemNQN t] [] q); [done|by etrans; [exact Hp|]|exact Hq]. }
  assert (∀ p, p `prefix_of` R → view k p ≠ None ∧ ¬ s_mod prep_scope p) as HRp.
  { intros p Hp. split; [by apply root_present|]. intros Hm. apply (Hs p Hm). etrans; [exact Hp|]. etrans; [|exact Hq]. by apply prefix_app_r. }
  apply (effect_untouched _ _ _ _ He); [intros Hm; by apply (Hs q)|]. intros p [Hp|[Hp|[Hp|Hp]]] Hpq.
  - apply HRp. exact (branches "subsystems" "ports" [] q p ltac:(done) Hp Hq Hpq).
  - apply HRp. exact (branches "hosts" "ports" [] q p ltac:(done) Hp Hq Hpq).
  - by destruct (Hs p).
  - exfalso. apply (branches_apart "hosts" "ports" [] [] q); [done|by etrans; [exact Hp|]|exact Hq].
Qed.

(** ** What a port may carry *)

(** The export as [verifyPrepared] wants it. *)
Record prepared (id : Identity) k : Prop := {
  pre_attrs p v : (p, v) ∈ preparedAttrs t id → reads_as k p v;
  pre_hosts h : h ∈ AllowedHosts t → kind_of <$> view k (allowedHostLink t h) = Some KLink;
}.

Lemma preparedAttrs_below id p v : (p, v) ∈ preparedAttrs t id → subsystemDir t `prefix_of` p.
Proof.
  assert (∀ a, plain_name a = true → subsystemDir t `prefix_of` joinp (namespaceDir t) a) as Hn.
  { intros a Ha. rewrite joinp_plain by done. apply prefix_app_r, (namespaceDir_below t). }
  assert (∀ a, plain_name a = true → subsystemDir t `prefix_of` joinp (subsystemDir t) a) as Hs.
  { intros a Ha. rewrite joinp_plain by done. by apply prefix_app_r. }
  unfold preparedAttrs. cbv zeta. rewrite !elem_of_cons, elem_of_nil. intros Hin.
  destruct_or?; simplify_eq; by (apply Hn || apply Hs).
Qed.
Lemma prepared_view id k k' : (∀ q, subsystemDir t `prefix_of` q → view k' q = view k q) → prepared id k → prepared id k'.
Proof.
  intros Hv [Ha Hh]. split.
  - intros p v Hin. eapply reads_as_view; [|by apply Ha]. by eapply Hv, preparedAttrs_below.
  - intros h Hin. rewrite Hv; [by apply Hh|]. rewrite allowedHostLink_eq by by apply wf_AllowedHosts. by apply prefix_app_r.
Qed.
(** The subsystem of a prepared export is there. *)
Lemma prepared_root id k : fs_inv k → prepared id k → view k R ≠ None.
Proof.
  intros Hi [Ha _]. destruct (Ha (joinp (subsystemDir t) "attr_allow_any_host") (allowAnyHost t)) as [(s&Hs&_)|[E _]]; [by left|..].
  - eapply subsystem_root; [done| |by rewrite Hs]. rewrite joinp_plain by done. by apply prefix_app_r.
  - unfold allowAnyHost in E. by destruct (_ || _).
Qed.

Lemma does_verifyAttr S c : does (K := K) S (verifyAttr c).
Proof. unfold verifyAttr. does_walk. Qed.
Lemma does_verifyHost S h : does (K := K) S (verifyHost t h).
Proof. unfold verifyHost. does_walk. Qed.
Lemma does_verifyPrepared S id : does (K := K) S (verifyPrepared t id).
Proof.
  unfold verifyPrepared. apply does_bind; [apply does_for_each; intros; apply does_verifyAttr|]. intros _.
  apply does_for_each. intros. apply does_verifyHost.
Qed.

(** A loop of checks has found each of its facts. *)
Lemma checks_Ok {A} (f : A → M K go_error unit) (P : A → (path → option node) → Prop) l k k' :
  (∀ S a, does S (f a)) → (∀ a k k', fs_inv k → f a k = (Ok tt, k') → P a (view k)) → (∀ a v v', (∀ q, v' q = v q) → P a v → P a v') →
  fs_inv k → for_each f l k = (Ok tt, k') → ∀ a, a ∈ l → P a (view k).
Proof.
  intros Hd HP Hext. revert k. induction l as [|b l IH]; intros k Hi Hr a Ha; [by apply elem_of_nil in Ha|]. cbn in Hr.
  apply M_bind_inv in Hr as [([]&k1&H1&Hr)|(?&?&?)]; [|done]. apply elem_of_cons in Ha as [->|Ha]; [by eapply HP|].
  destruct (look_run _ _ _ _ (λ S, Hd S b) Hi H1) as [Hi1 Hv]. eapply Hext; [|by apply (IH k1)]. done.
Qed.

Lemma verifyPrepared_Ok id k k' : fs_inv k → verifyPrepared t id k = (Ok tt, k') → prepared id k.
Proof.
  intros Hi Hr. unfold verifyPrepared in Hr. apply M_bind_inv in Hr as [([]&k1&H1&Hr)|(?&?&?)]; [|done].
  destruct (look_run _ _ _ _ (λ S, does_for_each S _ _ (λ c _, does_verifyAttr S c)) Hi H1) as [Hi1 Hv1]. split.
  - intros p v Hin. refine (checks_Ok verifyAttr (λ c w, (∃ s, w c.1 = Some (NAttr s) ∧ attr_text s = c.2) ∨ c.2 = "" ∧ w c.1 = None) _ k k1 does_verifyAttr _ _ Hi H1 (p, v) Hin).
    + intros c k2 k3 Hi2 H2. unfold verifyAttr in H2. apply M_bind_inv in H2 as [(got&k4&H4&H2)|(?&?&?)]; [|done].
      destruct (readAttr_post _ _ _ _ Hi2 H4) as (_&_&Hg). case_decide as Hd; minv. exact Hg.
    + intros c w w' Hw. by rewrite Hw.
  - intros h Hin. rewrite <- Hv1.
    refine (checks_Ok (verifyHost t) (λ h w, kind_of <$> w (allowedHostLink t h) = Some KLink) _ k1 k' does_verifyHost _ _ Hi1 Hr h Hin).
    + intros a k2 k3 Hi2 H2. unfold verifyHost in H2. apply sys_bind in H2 as (r&k4&Hl&H2).
      destruct (wp_run _ _ _ _ _ (law_Lstat _ _ Hi2) Hl) as (_&_&Hk). destruct r as [kd|]; [|minv]. case_decide as Hd; minv. exact Hk.
    + intros a w w' Hw. by rewrite Hw.
Qed.

(** [Link]: nothing is changed, or the export is prepared. *)
Lemma Link_run id spec k r k' : full_spec spec → fs_inv k → Link {| pt_target := t; pt_identity := id; pt_port := spec |} k = (r, k') →
  r ≠ Ok tt ∧ (∀ q, view k' q = view k q) ∨
  prepared id k' ∧ effect ports_scope k k' ∧ (∀ q, subsystemDir t `prefix_of` q → view k' q = view k q) ∧
  (r = Ok tt → port_serves spec (portDir t (sp_id spec)) k' ∧ link k' (portSubsystemLink t (sp_id spec)) (subsystemDir t)).
Proof.
  intros Hw Hi Hr. unfold NvmetTarget.Link in Hr. cbn in Hr. pose proof (λ S, does_verifyPrepared S id) as Hd.
  apply M_bind_inv in Hr as [([]&k1&H1&Hr)|(e&H1&->)]; [|left; split; [done|by eapply look_run]]. right.
  destruct (look_run _ _ _ _ Hd Hi H1) as [Hi1 Hv1]. pose proof (verifyPrepared_Ok _ _ _ Hi H1) as Hp.
  pose proof (does_run _ _ _ _ _ (does_linkSubsystemToPort order order_perm t ports_scope spec ports_scope_serves (fu_wf _ Hw)) Hi1 Hr) as He.
  assert (prepared id k1) as Hp1 by (eapply (prepared_view _ k); [intros; apply Hv1|done]).
  pose proof (λ q, ports_keep _ _ q Hi1 He (prepared_root _ _ Hi1 Hp1)) as Hk. split_and!.
  - by eapply (prepared_view _ k1).
  - eapply effect_trans; [|exact He]. by eapply does_run.
  - intros q Hq. rewrite Hk by done. apply Hv1.
  - intros ->. by eapply link_Ok.
Qed.

Lemma Prepare_result pt k k' : Prepare t k = (Ok pt, k') →
  ∃ id spec, pt = {| pt_target := t; pt_identity := id; pt_port := spec |} ∧
    desiredIdentity uuid_String NewSHA1 t = Ok id ∧ target_portSpec t = Ok spec.
Proof.
  intros Hr. unfold NvmetTarget.Prepare in Hr. apply M_bind_inv in Hr as [(spec&k1&Hs&Hr)|(?&?&?)]; [|done].
  apply M_bind_inv in Hr as [(id&k2&Hid&Hr)|(?&?&?)]; [|done]. unfold lift in Hs, Hid. simplify_eq.
  do 3 (apply M_bind_inv in Hr as [([]&?&_&Hr)|(?&?&?)]; [|done]). minv. eauto.
Qed.

(** [Apply]: it ends in preparing the export, or goes on to link it. *)
Lemma Apply_inv k r k' : fs_inv k → Apply t k = (r, k') →
  effect prep_scope k k' ∧ r ≠ Ok tt ∨
  ∃ id spec k1, desiredIdentity uuid_String NewSHA1 t = Ok id ∧ target_portSpec t = Ok spec ∧ effect prep_scope k k1 ∧
    Link {| pt_target := t; pt_identity := id; pt_port := spec |} k1 = (r, k').
Proof.
  intros Hi Hr. unfold NvmetTarget.Apply in Hr. pose proof prep_scope_prepares as HP.
  pose proof (does_nvmetPrepare DeviceClaimer release uuid_String NewSHA1 claimer_looks release_looks t _ HP) as Hd.
  apply M_bind_inv in Hr as [(pt&k1&H1&Hr)|(e&H1&->)]; [|left; split; [by eapply does_run|done]].
  destruct (Prepare_result _ _ _ H1) as (id&spec&->&Hid&Hs). right. exists id, spec, k1. split_and!; [done|done|by eapply does_run|done].
Qed.

(** C15: A port gets nothing new to serve before the export behind it is complete,
    however the operation ends. *)
Theorem Apply_links_prepared k r k' q :
  fs_inv k → view k R ≠ None → Apply t k = (r, k') →
  R ++ ["ports"] `prefix_of` q → view k q = None → view k' q ≠ None →
  ∃ id, desiredIdentity uuid_String NewSHA1 t = Ok id ∧ prepared id k'.
Proof.
  intros Hi HR Hr Hq Hn Hs. destruct (Apply_inv _ _ _ Hi Hr) as [[He _]|(id&spec&k1&Hid&Hsp&He&HL)].
  { by rewrite (prep_keep _ _ _ Hi He HR Hq) in Hs. }
  destruct (Link_run _ _ _ _ _ (target_portSpec_full _ _ Hsp) (eff_inv _ _ _ He) HL) as [[_ Hv]|(Hp&_)]; [|eauto].
  by rewrite Hv, (prep_keep _ _ _ Hi He HR Hq) in Hs.
Qed.

(** An export that was applied is complete and served: its attributes and
    hosts are as asked, its port listens and allows it, and carries it. *)
Theorem nvmet_Apply_serves k k' :
  fs_inv k → Apply t k = (Ok tt, k') →
  ∃ id spec, desiredIdentity uuid_String NewSHA1 t = Ok id ∧ target_portSpec t = Ok spec ∧ prepared id k' ∧
    port_serves spec (portDir t (sp_id spec)) k' ∧ link k' (portSubsystemLink t (sp_id spec)) (subsystemDir t).
Proof.
  intros Hi Hr. destruct (Apply_inv _ _ _ Hi Hr) as [[_ []]|(id&spec&k1&Hid&Hsp&He&HL)]; [done|].
  destruct (Link_run _ _ _ _ _ (target_portSpec_full _ _ Hsp) (eff_inv _ _ _ He) HL) as [[[] _]|(Hp&_&_&Hok)]; [done|].
  exists id, spec. destruct (Hok eq_refl). done.
Qed.

(** ** Switching a namespace on *)

Abbreviation ns := (namespaceDir t).

(** Preparing up to the identity of the namespace. *)
Definition base_scope : scope := {|
  s_new := s_new prep_scope;
  s_mod := λ q, q ∈ [subsystemDir t ++ ["attr_allow_any_host"]; subsystemDir t ++ ["attr_serial"]; ns ++ ["device_path"]];
  s_on := nothing |}.
Lemma base_writable d a v : a ∉ map fst derives → a ≠ "enable" → s_mod base_scope (d ++ [a]) → writable base_scope (d ++ [a]) v.
Proof. apply writable_plain. Qed.
Lemma base_new a : creates base_scope (subsystemDir t ++ a).
Proof. exact (prepares_sub t prep_scope a prep_scope_prepares). Qed.

Lemma does_base_subsystem : does (K := K) base_scope (createSubsystem uuid_String NewSHA1 t).
Proof.
  apply does_createSubsystem; [rewrite <- (app_nil_r (subsystemDir t)); apply base_new|]. intros a v Ha.
  apply base_writable; [cbv in *; set_solver|set_solver|cbn; set_solver].
Qed.
Lemma does_base_hosts : does (K := K) base_scope (for_each (AllowHost t) (AllowedHosts t)).
Proof.
  apply does_for_each. intros h Hh%wf_AllowedHosts. apply does_AllowHost; [..|done].
  - rewrite hostDir_eq by done. intros q Hq. change (R ++ ?x :: ?l) with (R ++ [x] ++ l) in Hq. rewrite app_assoc in Hq.
    exact (creates_below prep_scope _ [h] (pr_hosts_up _ _ prep_scope_prepares) (pr_hosts _ _ prep_scope_prepares) q Hq).
  - rewrite allowedHostsDir_eq. apply base_new.
  - exact (base_new ["allowed_hosts"; h] _ (reflexivity _)).
Qed.

(** [Prepare] once the namespace is there. *)
Definition fillNamespace (id : Identity) : M K go_error unit :=
  (if LocalAttach t then disableNamespace t else mret tt) ;;
  current ← readFileTrimmed (ns ++ ["device_path"]);
  (if decide (current ≠ DevicePath t) then writeFile (ns ++ ["device_path"]) (DevicePath t) else mret tt) ;;
  ensureNamespaceIdentity ns (ns ++ ["enable"]) id ;;
  if LocalAttach t then mret tt else enableNamespace DeviceClaimer release t.

Lemma Prepare_namespace k r k' : fs_inv k → Prepare t k = (r, k') →
  effect base_scope k k' ∨ ∃ k1 id r0, effect base_scope k k1 ∧ fillNamespace id k1 = (r0, k').
Proof.
  intros Hi Hr. unfold NvmetTarget.Prepare in Hr.
  assert (∀ k, fs_inv k → effect base_scope k k) as Hrefl by (intros; by apply effect_refl).
  eapply effect_bind in Hr as [[? _]|(spec&ka&_&Hea&Hr)]; [by left| |by apply Hrefl|apply does_lift].
  eapply effect_bind in Hr as [[? _]|(id&kb&_&Heb&Hr)]; [by left| |exact Hea|apply does_lift].
  eapply effect_bind in Hr as [[? _]|([]&kc&_&Hec&Hr)]; [by left| |exact Heb|apply does_base_subsystem].
  eapply effect_bind in Hr as [[? _]|([]&kd&_&Hed&Hr)]; [by left| |exact Hec|apply does_base_hosts].
  assert (∃ r0, createNamespace DeviceClaimer release uuid_String NewSHA1 t kd = (r0, k')) as [r0 Hn].
  { apply M_bind_inv in Hr as [(?&?&H1&Hr)|(?&H1&_)]; [minv|]; eauto. }
  clear Hr. unfold createNamespace in Hn. rewrite !nsAttr_eq in Hn by done.
  eapply effect_bind in Hn as [[? _]|(id'&ke&_&Hee&Hn)]; [by left| |exact Hed|apply does_lift].
  eapply effect_bind in Hn as [[? _]|([]&kf&_&Hef&Hn)]; [by left| |exact Hee|apply does_mkdirAll; rewrite (namespaceDir_eq t); apply base_new].
  right. by exists kf, id', r0.
Qed.

(** The steps of [Prepare] on a namespace that is to be switched on. *)
Lemma Prepare_steps k r k' : LocalAttach t = false → fs_inv k → Prepare t k = (r, k') →
  effect base_scope k k' ∨
  ∃ k1 id r1 k2, effect base_scope k k1 ∧ (DevicePath t ≠ "" → settled k1 (ns ++ ["device_path"]) (DevicePath t)) ∧
    ensureNamespaceIdentity ns (ns ++ ["enable"]) id k1 = (r1, k2) ∧
    (k' = k2 ∨ ∃ r2, enableNamespace DeviceClaimer release t k2 = (r2, k')).
Proof.
  intros HLA Hi Hr. destruct (Prepare_namespace _ _ _ Hi Hr) as [?|(kf&id'&r0&Hef&Hn)]; [by left|]. unfold fillNamespace in Hn. rewrite HLA in Hn.
  eapply effect_bind in Hn as [[? _]|([]&kg&_&Heg&Hn)]; [by left| |exact Hef|apply does_ret].
  eapply effect_bind in Hn as [[? _]|(cur&kh&Hc&Heh&Hn)]; [by left| |exact Heg|apply does_readFileTrimmed].
  destruct (readFileTrimmed_Ok _ _ _ _ (eff_inv _ _ _ Heg) Hc) as (Hih&Hvh&Hcur).
  assert (∀ v, writable base_scope (ns ++ ["device_path"]) v) as Hw.
  { intros. apply base_writable; [cbv; set_solver|done|cbn; set_solver]. }
  eapply effect_bind in Hn as [[? _]|([]&ki&Hdw&Hei&Hn)]; [by left| |exact Heh|by case_decide; [apply does_writeFile|apply does_ret]].
  right. assert (DevicePath t ≠ "" → settled ki (ns ++ ["device_path"]) (DevicePath t)) as Hset.
  { clear Hn. intros Hdp. case_decide as Hd; [by eapply writeFile_settled|]. minv. destruct Hcur as [(s&Hs&Hp)|[Hn0 _]]; [|congruence].
    exists s. rewrite Hvh. split; [done|]. left. congruence. }
  apply M_bind_inv in Hn as [([]&kj&H1&Hn)|(e&H1&_)].
  - exists ki, id', (Ok tt), kj. split_and!; [done..|]. right. by exists r0.
  - exists ki, id', (Err e), k'. split_and!; auto.
Qed.

(** The claimer granted exclusive use of a device, and the tree was as in [k]. *)
Definition claimed k (dev : string) : Prop := ∃ k1 c k2, (∀ q, view k1 q = view k q) ∧ DeviceClaimer dev k1 = (Ok c, k2).

Lemma enable_run k r k' : fs_inv k → off (view k) (namespaceEnablePath t) → enableNamespace DeviceClaimer release t k = (r, k') →
  ¬ off (view k') (namespaceEnablePath t) → ∃ dev, reads_as k (ns ++ ["device_path"]) dev ∧ (dev = "" ∨ claimed k dev).
Proof.
  intros Hi Hoff Hr Hon. unfold enableNamespace in Hr. rewrite nsAttr_eq in Hr by done.
  assert (∀ k1, (∀ q, view k1 q = view k q) → k1 = k' → False) as Hsame.
  { intros k1 Hv ->. apply Hon. intros s. rewrite Hv. apply Hoff. }
  apply M_bind_inv in Hr as [(cur&k1&H1&Hr)|(e&H1&_)]; [|exfalso; eapply Hsame; [|done]; by eapply look_run; [intros; apply does_readAttr'|..]].
  destruct (readAttr_post _ _ _ _ Hi H1) as (Hi1&Hv1&_). case_decide as Hne; [minv; exfalso; eapply Hsame; [|done]; by rewrite Hv1|].
  apply M_bind_inv in Hr as [(dev&k2&H2&Hr)|(e&H2&_)].
  2: { exfalso. eapply Hsame; [|done]. intros q. destruct (look_run _ _ _ _ (λ S, does_readAttr' S _) Hi1 H2) as [_ Hv]. by rewrite Hv, Hv1. }
  destruct (readAttr_post _ _ _ _ Hi1 H2) as (Hi2&Hv2&Hdev). exists dev. split; [by eapply reads_as_view; [|exact Hdev]; rewrite Hv1|].
  case_decide as Hd; [by left|]. right. apply M_bind_inv in Hr as [(claim&k3&H3&Hr)|(e&H3&_)].
  - apply M_bind_inv in H3 as [(c&k4&H3&_)|(?&?&?)]; [|done]. exists k2, c, k4. split; [|done]. intros q. by rewrite Hv2, Hv1.
  - exfalso. apply M_bind_inv in H3 as [(c&k4&H3&?)|(?&H3&_)]; [minv|]. eapply Hsame; [|done]. intros q.
    destruct (wp_run _ _ _ _ _ (claimer_looks dev k2 Hi2) H3) as [_ Hv]. by rewrite Hv, Hv2, Hv1.
Qed.

Definition id_scope : scope := {|
  s_new := nothing; s_mod := λ q, q ∈ [ns ++ ["device_uuid"]; ns ++ ["device_nguid"]]; s_on := nothing |}.
Lemma does_id p id : does (K := K) id_scope (ensureNamespaceIdentity ns p id).
Proof.
  apply does_ensureNamespaceIdentity. intros a v Ha. apply writable_plain; [cbv in *; set_solver|set_solver|cbn; set_solver].
Qed.
Lemma quiet_prepares : LocalAttach t = true →
  prepares t {| s_new := s_new prep_scope; s_mod := s_mod prep_scope; s_on := nothing |}.
Proof. intros HL. split; try (intros q Hq; cbn; tauto). by rewrite HL. Qed.

Lemma Link_off id spec k r k' q : full_spec spec → fs_inv k → Link {| pt_target := t; pt_identity := id; pt_port := spec |} k = (r, k') →
  is_enable q → off (view k) q → off (view k') q.
Proof.
  intros Hw Hi HL He Hoff. destruct (Link_run _ _ _ _ _ Hw Hi HL) as [[_ Hv]|(_&Hef&_)]; [intros s; rewrite Hv; apply Hoff|].
  apply (eff_off _ _ _ Hef); [done|by intros []|done].
Qed.
Lemma enablePath_enable : is_enable (namespaceEnablePath t).
Proof. rewrite namespaceEnablePath_eq. by eexists. Qed.

(** How a namespace came to be on. *)
Lemma Prepare_claims k r k' :
  fs_inv k → IsAbs (DevicePath t) = true → off (view k) (namespaceEnablePath t) → Prepare t k = (r, k') →
  ¬ off (view k') (namespaceEnablePath t) →
  LocalAttach t = false ∧ ∃ k1 s, view k1 (ns ++ ["device_path"]) = Some (NAttr s) ∧ stands s (DevicePath t) ∧ claimed k1 (attr_text s).
Proof.
  intros Hi Habs Hoff Hr Hon. pose proof enablePath_enable as Hen. destruct (LocalAttach t) eqn:HL.
  { destruct Hon. apply (eff_off _ _ _ (does_run _ _ _ _ _ (does_nvmetPrepare _ _ uuid_String NewSHA1 claimer_looks release_looks t _ (quiet_prepares HL)) Hi Hr)); [done|by intros []|done]. }
  split; [done|]. destruct (Prepare_steps _ _ _ HL Hi Hr) as [He|(k1&id&r1&k2&He&Hs&H1&Hk)].
  { destruct Hon. apply (eff_off _ _ _ He); [done|by intros []|done]. }
  specialize (Hs ltac:(intros E; by rewrite E in Habs)). pose proof (does_run _ _ _ _ _ (does_id _ id) (eff_inv _ _ _ He) H1) as He1.
  assert (off (view k2) (namespaceEnablePath t)) as Hoff2.
  { apply (eff_off _ _ _ He1); [done|by intros []|]. apply (eff_off _ _ _ He); [done|by intros []|done]. }
  destruct Hk as [->|[r2 H2]]; [done|]. destruct (enable_run _ _ _ (eff_inv _ _ _ He1) Hoff2 H2 Hon) as (dev&Hdev&Hcl).
  assert (settled k2 (ns ++ ["device_path"]) (DevicePath t)) as (s&Hv&Hst).
  { eapply settled_keeps; [exact He1| |exact Hs]. cbn. rewrite !elem_of_cons, elem_of_nil. by intros [[=]%attr_snoc|[[=]%attr_snoc|[]]]. }
  pose proof (stands_abs _ _ Habs Hst) as Hne. destruct Hdev as [(s'&Hs'&<-)|[_ Hn]]; [|congruence]. rewrite Hv in Hs'. injection Hs' as <-.
  exists k2, s. destruct Hcl; done.
Qed.

(** C20: A namespace is switched on only while the agent holds an exclusive claim
    on the device it was given, and never under local attach. *)
Theorem Apply_claims_device k r k' :
  fs_inv k → IsAbs (DevicePath t) = true → off (view k) (namespaceEnablePath t) → Apply t k = (r, k') →
  ¬ off (view k') (namespaceEnablePath t) →
  LocalAttach t = false ∧ ∃ k1 s, view k1 (ns ++ ["device_path"]) = Some (NAttr s) ∧ stands s (DevicePath t) ∧ claimed k1 (attr_text s).
Proof.
  intros Hi Habs Hoff Hr Hon. unfold NvmetTarget.Apply in Hr.
  apply M_bind_inv in Hr as [(pt&k1&H1&Hr)|(e&H1&_)]; [|by eapply Prepare_claims].
  eapply Prepare_claims; [done..|exact H1|]. intros Hoff1. apply Hon. destruct (Prepare_result _ _ _ H1) as (id&spec&->&_&Hs).
  eapply Link_off; [by eapply target_portSpec_full| |exact Hr|apply enablePath_enable|done].
  eapply eff_inv, does_run; [by eapply does_nvmetPrepare, prep_scope_prepares|exact Hi|exact H1].
Qed.

(** ** The identity of a namespace in use *)

Lemma live_identity_looks id k r k' : fs_inv k → attr k (ns ++ ["enable"]) "1" →
  ensureNamespaceIdentity ns (ns ++ ["enable"]) id k = (r, k') → ∀ q, view k' q = view k q.
Proof.
  intros Hi Hen Hr. unfold ensureNamespaceIdentity in Hr. apply M_bind_inv in Hr as [(en&k1&H1&Hr)|(e&H1&_)].
  2: by eapply look_run; [intros; apply does_readAttr'|..].
  destruct (readAttr_post _ _ _ _ Hi H1) as (Hi1&Hv1&Hg). assert (en = "1") as -> by (eapply reads_as_inj; [exact Hg|by left]).
  assert (∀ S, does (K := K) S (for_each (ensureIdentityAttr ns "1") [("device_uuid", id_UUID id); ("device_nguid", id_NGUID id)])) as Hd.
  { intros S. apply does_for_each. intros [a v] _. unfold ensureIdentityAttr. rewrite decide_False by (intros Hn; by apply Hn). does_walk. }
  intros q. destruct (look_run _ _ _ _ Hd Hi1 Hr) as [_ Hv]. by rewrite Hv, Hv1.
Qed.

Definition enable_scope : scope := {| s_new := nothing; s_mod := λ q, q ∈ [ns ++ ["enable"]; ns ++ ["info"]]; s_on := λ _, True |}.
Lemma does_enable_scope : does enable_scope (enableNamespace DeviceClaimer release t).
Proof.
  apply does_enableNamespace; [done..|]. rewrite namespaceEnablePath_eq. split; [|done]. intros q [->|(b&->&Hb)%derived_snoc]; cbn; [set_solver|].
  cbv in Hb. set_solver.
Qed.

(** What happens before the namespace is filled leaves its own attributes. *)
Lemma base_other b : b ∉ ["attr_allow_any_host"; "attr_serial"; "device_path"] → ¬ s_mod base_scope (ns ++ [b]).
Proof.
  intros Hb. cbn. rewrite !elem_of_cons, elem_of_nil. intros [[_ ->]%app_inj_tail|[[_ ->]%app_inj_tail|[[_ ->]%app_inj_tail|[]]]]; set_solver.
Qed.
Lemma enable_other a : a ∈ ["device_uuid"; "device_nguid"] → ¬ s_mod enable_scope (ns ++ [a]).
Proof. intros Ha. cbn. rewrite !elem_of_cons, elem_of_nil. intros [[_ ->]%app_inj_tail|[[_ ->]%app_inj_tail|[]]]; set_solver. Qed.

Lemma Prepare_identity_remote k r k' a n :
  fs_inv k → LocalAttach t = false → attr k (ns ++ ["enable"]) "1" → Prepare t k = (r, k') →
  a ∈ ["device_uuid"; "device_nguid"] → view k (ns ++ [a]) = Some n → view k' (ns ++ [a]) = Some n.
Proof.
  intros Hi HL Hen Hr Ha Hn.
  assert (∀ k1, effect base_scope k k1 → view k1 (ns ++ [a]) = Some n) as Hb.
  { intros k1 He. eapply effect_keeps; [exact He|apply base_other; set_solver|done]. }
  destruct (Prepare_steps _ _ _ HL Hi Hr) as [He|(k1&id&r1&k2&He&_&H1&Hk)]; [by apply Hb|].
  assert (∀ q, view k2 q = view k1 q) as Hv2.
  { eapply live_identity_looks; [apply He| |exact H1]. eapply attr_keeps; [exact He|apply base_other; set_solver|done]. }
  destruct Hk as [->|[r2 H2]]; [rewrite Hv2; by apply Hb|].
  assert (fs_inv k2) as Hi2 by (eapply eff_inv, does_run; [apply does_id|apply He|exact H1]).
  eapply effect_keeps; [eapply does_run; [apply does_enable_scope|exact Hi2|exact H2]|by apply enable_other|rewrite Hv2; by apply Hb].
Qed.

(** A switch that reads back as "0" is off. *)
Lemma reads_zero_off s : TrimSpace s = "0" → attr_text s ≠ "1".
Proof.
  intros Hs E. assert ("0"%char ∈ bytes_of_string s) as Hin by (rewrite <- bytes_TrimSpace, Hs by done; by left).
  rewrite <- (bytes_trimRightNUL s), <- bytes_TrimSpace in Hin by done. fold (attr_text s) in Hin. rewrite E in Hin.
  apply list_elem_of_singleton in Hin. done.
Qed.
Lemma disable_run k r k' : fs_inv k → disableNamespace t k = (r, k') → effect enable_scope k k' ∧ (r = Ok tt → off (view k') (ns ++ ["enable"])).
Proof.
  intros Hi Hr. assert (does (K := K) enable_scope (disableNamespace t)) as Hd.
  { apply does_disableNamespace. rewrite namespaceEnablePath_eq. split; [|done]. intros q [->|(b&->&Hb)%derived_snoc]; cbn; [set_solver|].
    cbv in Hb. set_solver. }
  split; [by eapply does_run|]. intros ->. unfold disableNamespace in Hr. rewrite namespaceEnablePath_eq in Hr.
  apply M_bind_inv in Hr as [(cur&k1&H1&Hr)|(?&?&?)]; [|done]. destruct (readAttr_post _ _ _ _ Hi H1) as (Hi1&Hv1&Hg). case_decide as Hc.
  - minv. intros s Hs E. rewrite Hv1 in Hs. assert (attr k (ns ++ ["enable"]) "1") as Ha by (by exists s).
    assert ("0" = "1") by (eapply reads_as_inj; [exact Hg|by left]). done.
  - destruct (writeFile_Ok _ _ _ _ Hi1 Hr) as (s&Hs&Ht). intros s' Hs'. rewrite Hs in Hs'. injection Hs' as <-. by apply reads_zero_off.
Qed.

Definition fill_scope : scope := {|
  s_new := nothing; s_mod := λ q, q ∈ [ns ++ ["device_path"]; ns ++ ["device_uuid"]; ns ++ ["device_nguid"]]; s_on := nothing |}.
Lemma fill_writable a v : a ∈ ["device_path"; "device_uuid"; "device_nguid"] → writable fill_scope (ns ++ [a]) v.
Proof. intros Ha. apply writable_plain; [cbv in *; set_solver|set_solver|cbn; set_solver]. Qed.

(** Under local attach the namespace is withdrawn before its identity may
    change. *)
Lemma Prepare_identity_local k r k' a n :
  fs_inv k → LocalAttach t = true → Prepare t k = (r, k') → a ∈ ["device_uuid"; "device_nguid"] →
  view k (ns ++ [a]) = Some n → view k' (ns ++ [a]) = Some n ∨ off (view k') (ns ++ ["enable"]).
Proof.
  intros Hi HL Hr Ha Hn.
  assert (∀ k1, effect base_scope k k1 → view k1 (ns ++ [a]) = Some n) as Hb.
  { intros k1 He. eapply effect_keeps; [exact He|apply base_other; set_solver|done]. }
  destruct (Prepare_namespace _ _ _ Hi Hr) as [He|(k1&id&r0&He&Hf)]; [left; by apply Hb|]. unfold fillNamespace in Hf. rewrite HL in Hf.
  apply M_bind_inv in Hf as [([]&k2&H1&Hf)|(e&H1&_)]; destruct (disable_run _ _ _ (eff_inv _ _ _ He) H1) as [He2 Hoff].
  2: { left. eapply effect_keeps; [exact He2|by apply enable_other|by apply Hb]. }
  right. pose proof fill_writable as Hw. assert (effect fill_scope k2 k') as He3.
  { eapply does_run; [|exact (eff_inv _ _ _ He2)|exact Hf]. apply does_bind; [apply does_readFileTrimmed|]. intros cur.
    apply does_bind; [case_decide; [apply does_writeFile, Hw; set_solver|apply does_ret]|]. intros _. apply does_bind; [|intros; apply does_ret].
    apply does_ensureNamespaceIdentity. intros b v Hin. apply Hw. set_solver. }
  apply (eff_off _ _ _ He3); [by eexists|by intros []|by apply Hoff].
Qed.

(** C23: Applying an export never changes the identity of a namespace hosts can
    reach: what was on keeps its identifiers, whatever identity is asked for,
    except that a local attach, which withdraws the namespace, may give them
    up once it is off. *)
Theorem live_identity_kept k r k' a n :
  fs_inv k → attr k (namespaceEnablePath t) "1" → Apply t k = (r, k') →
  a ∈ ["device_uuid"; "device_nguid"] → view k (ns ++ [a]) = Some n →
  view k' (ns ++ [a]) = Some n ∨ LocalAttach t = true ∧ off (view k') (namespaceEnablePath t).
Proof.
  intros Hi Hen Hr Ha Hn. rewrite namespaceEnablePath_eq in *. unfold NvmetTarget.Apply in Hr.
  assert (∀ r k', Prepare t k = (r, k') → view k' (ns ++ [a]) = Some n ∨ LocalAttach t = true ∧ off (view k') (ns ++ ["enable"])) as HP.
  { intros r1 k1 H1. destruct (LocalAttach t) eqn:HL.
    - destruct (Prepare_identity_local _ _ _ _ _ Hi HL H1 Ha Hn); auto.
    - left. by eapply Prepare_identity_remote. }
  apply M_bind_inv in Hr as [(pt&k1&H1&Hr)|(e&H1&_)]; [|by eapply HP].
  destruct (Prepare_result _ _ _ H1) as (id&spec&->&_&Hs). pose proof (target_portSpec_full _ _ Hs) as Hfs.
  assert (fs_inv k1) as Hi1 by (eapply eff_inv, does_run; [by eapply does_nvmetPrepare, prep_scope_prepares|exact Hi|exact H1]).
  destruct (HP _ _ H1) as [Hn1|[HL Hoff]].
  - left. destruct (Link_run _ _ _ _ _ Hfs Hi1 Hr) as [[_ Hv]|(_&_&Hv&_)]; rewrite Hv; try done. apply prefix_app_r, (namespaceDir_below t).
  - right. split; [done|]. eapply Link_off; [exact Hfs|exact Hi1|exact Hr|by eexists|done].
Qed.
End Serving.
