(* ===== verification/NvmetIsolation.v ===== *)
(** * Exports over NVMe-oF are isolated from each other

    Exports share the hosts and the ports of the nvmet root.  Whatever an
    operation on one of them does, and however it ends, the others keep their
    subsystem, their place on the ports they are linked to with the limits
    they rely on there, and the hosts they allow. *)
From stdpp Require Import base numbers list strings gmap pretty.
From Stdlib Require Import Ascii.
From S2P Require Import Prelude GoStd GoNet LioFs LioLaws ConfigfsEffects NvmetTarget NvmetLaws NvmetCorrect NvmetPorts NvmetServing.
Open Scope Z_scope.

Section Isolation.
Context {K : Type} `{FSLaws K} (t : NvmetTarget) `{!wf_nvmet t}.
Implicit Types (k : K) (p q : path) (S : scope).
Abbreviation R := (nvmetRoot t).
Abbreviation port name := (portPath t name).
Abbreviation NQN := (SubsystemNQN t).

(** What the other exports rely on, from [k] to [k']. *)
Record foreign k k' : Prop := {
  fo_loaded : view k' (R ++ ["subsystems"]) ≠ None;
  fo_sub n q : n ≠ NQN → R ++ ["subsystems"; n] `prefix_of` q → view k' q = view k q;
  fo_link name n nd : n ≠ NQN → plain_name n = true → view k (port name ++ ["subsystems"; n]) = Some nd →
    view k' (port name ++ ["subsystems"; n]) = Some nd;
  fo_limit name n nd a v : n ≠ NQN → plain_name n = true → view k (port name ++ ["subsystems"; n]) = Some nd →
    a ∈ [portInlineDataSizeAttr; portMDTSAttr] → view k (port name ++ [a]) = Some v → view k' (port name ++ [a]) = Some v;
  fo_host n h nd : n ≠ NQN → plain_name n = true → view k (R ++ ["subsystems"; n; "allowed_hosts"; h]) ≠ None →
    view k (R ++ ["hosts"; h]) = Some nd → view k' (R ++ ["hosts"; h]) = Some nd;
}.
Definition loaded k : Prop := view k (R ++ ["subsystems"]) ≠ None.

Lemma foreign_same k k' : loaded k → (∀ q, view k' q = view k q) → foreign k k'.
Proof. intros Hl Hv. split; intros; rewrite Hv; try done; by apply Hl. Qed.
Lemma foreign_trans k k1 k2 : foreign k k1 → foreign k1 k2 → foreign k k2.
Proof.
  intros [L1 S1 P1 M1 O1] [L2 S2 P2 M2 O2]. split; [done|..].
  - intros n q Hn Hq. by rewrite (S2 n), (S1 n).
  - intros name n nd Hn Hp Hv. eauto.
  - intros name n nd a v Hn Hp Hv Ha Hva. eauto.
  - intros n h nd Hn Hp Hr Hh. eapply O2; [done|done| |by eapply O1]. rewrite (S1 n); [done|done|].
    change ["subsystems"; n; "allowed_hosts"; h] with (["subsystems"; n] ++ ["allowed_hosts"; h]). rewrite app_assoc. by apply prefix_app_r.
Qed.

(** However it ends, [m] leaves the other exports alone. *)
Definition keeps {X A} (m : M K X A) : Prop := ∀ k, fs_inv k → loaded k → wp m (λ _ k', fs_inv k' ∧ foreign k k') k.

Lemma keeps_bind {X A B} (m : M K X A) (f : A → M K X B) : keeps m → (∀ a, keeps (f a)) → keeps (m ≫= f).
Proof.
  intros Hm Hf k Hi Hl. eapply wp_call; [by apply Hm| |done]. intros a k1 [H1 F1]. eapply wp_mono; [apply Hf; [done|apply F1]|].
  intros r k2 [H2 F2]. split; [done|by eapply foreign_trans].
Qed.
Lemma keeps_try {X A} (m : M K X A) : keeps m → keeps (try m).
Proof. intros Hm k Hi Hl. apply wp_try. by apply Hm. Qed.
Lemma keeps_for_each {X A} (f : A → M K X unit) l : (∀ a, a ∈ l → keeps (f a)) → keeps (for_each f l).
Proof.
  induction l as [|a l IH]; intros Hf; cbn.
  { intros k Hi Hl. apply wp_ret. split; [done|by apply foreign_same]. }
  apply keeps_bind; [apply Hf; by left|]. intros _. apply IH. intros. apply Hf. by right.
Qed.
Lemma keeps_looks {X A} (m : M K X A) : (∀ S, does S m) → keeps m.
Proof.
  intros Hd k Hi Hl. apply wp_of_run. intros r k' Hr. specialize (Hd {| s_new := nothing; s_mod := nothing; s_on := nothing |}).
  pose proof (does_run _ _ _ _ _ Hd Hi Hr) as He. split; [apply He|]. apply foreign_same; [done|]. intros q.
  apply (effect_untouched _ _ _ _ He); [by intros []|by intros p []].
Qed.
Lemma keeps_ret {X A} (a : A) : keeps (X := X) (mret a).
Proof. apply keeps_looks. intros. apply does_ret. Qed.
Lemma keeps_throw {X A} (e : X) : keeps (A := A) (throw e).
Proof. apply keeps_looks. intros. apply does_throw. Qed.

(** ** Steps on what is the export's own *)

Definition own_scope : scope := {|
  s_new := λ q, q `prefix_of` R ++ ["subsystems"] ∨ q `prefix_of` R ++ ["hosts"] ∨ q `prefix_of` R ++ ["ports"] ∨
    subsystemDir t `prefix_of` q ∨ R ++ ["hosts"] `prefix_of` q ∨ R ++ ["ports"] `prefix_of` q;
  s_mod := λ q, subsystemDir t `prefix_of` q ∨ (∃ name, port name ++ ["subsystems"; NQN] `prefix_of` q) ∨
    ∃ name a, a ∈ addrAttrs ∧ q = port name ++ [a];
  s_on := λ _, True |}.

Lemma root_prefix k p : fs_inv k → loaded k → p `prefix_of` R ++ ["subsystems"] → view k p ≠ None.
Proof. intros Hi Hl Hp Hn. apply Hl. by rewrite (view_below _ _ _ Hi Hn Hp). Qed.
Lemma below_root a s : R `prefix_of` R ++ a :: s.
Proof. by apply prefix_app_r. Qed.

(** Paths below the nvmet root, by their components. *)
Lemma below_eq s q : R ++ s `prefix_of` q ↔ ∃ r, q = R ++ s ++ r.
Proof. split; intros [r ->]; exists r; by rewrite <- app_assoc. Qed.
Lemma own_mod_inv q : s_mod own_scope q → ∃ r, q = R ++ "subsystems" :: NQN :: r ∨
  (∃ name, q = R ++ "ports" :: name :: "subsystems" :: NQN :: r) ∨ ∃ name a, a ∈ addrAttrs ∧ q = R ++ ["ports"; name; a].
Proof.
  intros [Hq|[(name&Hq)|(name&a&Ha&->)]].
  - rewrite (subsystemDir_eq t) in Hq. destruct Hq as [r ->]. exists r. left. by rewrite <- app_assoc.
  - destruct Hq as [r ->]. exists r. right. left. exists name. unfold portPath. by rewrite <- !app_assoc.
  - exists []. right. right. exists name, a. split; [done|]. unfold portPath. by rewrite <- app_assoc.
Qed.

(** Refute that a path of the root is the export's own. *)
Ltac not_own :=
  let E := fresh "E" in
  intros (?&[E|[(?&E)|(?&?&?&E)]])%own_mod_inv; unfold portPath in E; rewrite <- ?app_assoc in E;
  try apply app_inv_head in E; simplify_eq/=.

Lemma own_not_root p : p `prefix_of` R ++ ["subsystems"] → ¬ s_mod own_scope p.
Proof.
  intros Hp. not_own; apply prefix_app_head in Hp; apply prefix_length in Hp; cbn in Hp; lia.
Qed.
Lemma own_stable k n q : fs_inv k → loaded k → n ≠ NQN → R ++ ["subsystems"; n] `prefix_of` q → stable own_scope k q.
Proof.
  intros Hi Hl Hn Hq p Hp Hpq. assert (p `prefix_of` R ++ ["subsystems"]) as Hr; [|split; [by apply root_prefix|by apply own_not_root]].
  assert (∀ a, a ≠ "subsystems" → p `prefix_of` R ++ [a] → p `prefix_of` R ++ ["subsystems"]) as Hb.
  { intros a Ha Hpa. apply prefix_app_r. exact (branches t a "subsystems" [n] q p Ha Hpa Hq Hpq). }
  destruct Hp as [Hp|[Hp|[Hp|[Hp|[Hp|Hp]]]]]; [done|by apply (Hb "hosts")|by apply (Hb "ports")|exfalso..].
  - apply Hn. rewrite (subsystemDir_eq t) in Hp. apply (diverge2 R "subsystems" n NQN [] [] q); [done|by etrans].
  - apply (branches_apart t "hosts" "subsystems" [] [n] q); [done|by etrans|done].
  - apply (branches_apart t "ports" "subsystems" [] [n] q); [done|by etrans|done].
Qed.

Lemma own_foreign k k' : fs_inv k → loaded k → effect own_scope k k' → foreign k k'.
Proof.
  intros Hi Hl He. split.
  - rewrite (eff_frame _ _ _ He); [done|by apply own_not_root|done].
  - intros n q Hn Hq. apply (effect_untouched _ _ _ _ He); [|by eapply own_stable].
    apply below_eq in Hq as [r ->]. not_own; done.
  - intros name n nd Hn _ Hv. eapply effect_keeps; [done| |done]. unfold portPath. rewrite <- app_assoc. not_own; done.
  - intros name n nd a v Hn _ _ Ha Hv. eapply effect_keeps; [done| |done]. unfold portPath. rewrite <- app_assoc. not_own.
    rename select (_ ∈ addrAttrs) into Hin. apply addrAttrs_apart in Hin as (?&?&_). set_solver.
  - intros n h nd _ _ _ Hv. eapply effect_keeps; [done| |done]. not_own; done.
Qed.
Lemma keeps_own {X A} (m : M K X A) : does own_scope m → keeps m.
Proof.
  intros Hd k Hi Hl. apply wp_of_run. intros r k' Hr. pose proof (does_run _ _ _ _ _ Hd Hi Hr) as He.
  split; [apply He|by apply own_foreign].
Qed.

(** ** Steps on a port nobody uses *)

Definition idle k name : Prop := ∀ n, plain_name n = true → view k (port name ++ ["subsystems"; n]) = None.

Lemma idle_foreign k k' name : loaded k → idle k name → effect (mods_scope (port name)) k k' → foreign k k'.
Proof.
  intros Hl Hidle He.
  assert (∀ s, (∀ r, s ≠ "ports" :: name :: r) → ¬ s_mod (mods_scope (port name)) (R ++ s)) as Hm.
  { intros s Hs Hq. cbn in Hq. unfold portPath in Hq. apply prefix_app_head in Hq as [r ->]. by eapply Hs. }
  assert (∀ q, stable (mods_scope (port name)) k q) as Hst by by intros q p [].
  assert (∀ s, (∀ r, s ≠ "ports" :: name :: r) → view k' (R ++ s) = view k (R ++ s)) as Hv.
  { intros s Hs. apply (effect_untouched _ _ _ _ He); auto. }
  split.
  - rewrite Hv; [done|by intros].
  - intros n q _ Hq. apply below_eq in Hq as [r ->]. apply Hv. by intros.
  - intros name' n nd _ Hp Hn. destruct (decide (name' = name)) as [->|Hne]; [by rewrite Hidle in Hn|].
    unfold portPath in *. rewrite <- app_assoc in *. rewrite Hv; [done|]. intros r [= ? _]. done.
  - intros name' n nd a v _ Hp Hn _. destruct (decide (name' = name)) as [->|Hne]; [by rewrite Hidle in Hn|].
    unfold portPath in *. rewrite <- app_assoc in *. rewrite Hv; [done|]. intros r [= ? _]. done.
  - intros n h nd _ _ _. rewrite Hv; [done|by intros].
Qed.

(** A branch on whether the port carries a subsystem: only the idle side
    changes the port. *)
Lemma keeps_idle {A} name (f : bool → M K go_error A) : keeps (f true) → does (mods_scope (port name)) (f false) →
  keeps (portHasSubsystems (port name) ≫= f).
Proof.
  intros Ht Hf k Hi Hl. apply wp_of_run. intros r k' Hr. apply M_bind_inv in Hr as [(b&k1&H1&Hr)|(e&H1&->)].
  - destruct (portHasSubsystems_Ok _ _ _ _ Hi H1) as (Hi1&Hv1&Hb). assert (loaded k1) as Hl1 by (unfold loaded; by rewrite Hv1).
    assert (foreign k k1) as F1 by (apply foreign_same; [done|by rewrite Hv1]). destruct b.
    + destruct (wp_run _ _ _ _ _ (Ht _ Hi1 Hl1) Hr). split; [done|by eapply foreign_trans].
    + pose proof (does_run _ _ _ _ _ Hf Hi1 Hr) as He. split; [apply He|]. eapply foreign_trans; [done|].
      eapply idle_foreign; [done| |exact He]. intros n Hn. rewrite Hv1. by apply Hb.
  - destruct (look_run _ _ _ _ (λ S, does_portHasSubsystems S (port name)) Hi H1). split; [done|by apply foreign_same].
Qed.

Lemma mods_port_below name a : mods (mods_scope (port name)) (port name ++ a).
Proof. apply mods_below, mods_scope_mods. Qed.
Lemma port_attr_writable name a v : a ≠ "enable" → writable (mods_scope (port name)) (port name ++ [a]) v.
Proof. intros Ha. apply mods_plain_writable; [apply mods_scope_mods|done|cbn; congruence]. Qed.

Lemma keeps_prunePort name : keeps (prunePortLocked (port name)).
Proof.
  unfold prunePortLocked. apply keeps_bind; [apply keeps_looks; intros; apply does_present|]. intros b. destruct b; cbn [negb]; [|apply keeps_ret].
  apply keeps_idle; [apply keeps_ret|].
  assert (does (K := K) (mods_scope (port name)) (for_each (λ a, bestEffort (OsRemove (joinp (port name) a))) portAttrs)).
  { apply does_for_each. intros a Ha%portAttrs_plain. rewrite joinp_plain by done. apply does_bestEffort, does_OsRemove, mods_port_below. }
  assert (does (K := K) (mods_scope (port name)) (bestEffort (OsRemove (joinp (port name) "subsystems")))).
  { rewrite joinp_plain by done. apply does_bestEffort, does_OsRemove, mods_port_below. }
  pose proof (does_removeDirVerified (K := K) _ _ (mods_scope_mods (port name))). does_walk.
Qed.
Lemma keeps_ensureInline name spec : keeps (ensureInlineDataSizeLocked (port name) spec).
Proof.
  unfold ensureInlineDataSizeLocked. rewrite joinp_plain by done. apply keeps_bind; [apply keeps_looks; intros; apply does_readFileTrimmed|].
  intros cur. assert (∀ v, writable (mods_scope (port name)) (port name ++ [portInlineDataSizeAttr]) v) by (intros; by apply port_attr_writable).
  apply keeps_idle; [|does_walk]. apply keeps_looks. intros S. does_walk.
Qed.
Lemma keeps_ensureMDTS name spec : keeps (ensureMDTSLocked (port name) spec).
Proof.
  unfold ensureMDTSLocked. rewrite joinp_plain by done. apply keeps_bind; [apply keeps_looks; intros; does_walk|]. intros r.
  destruct (match r with Ok _ => _ | Err _ => _ end); [apply keeps_ret|].
  apply keeps_bind; [apply keeps_looks; intros; apply does_readFileTrimmed|]. intros cur.
  assert (∀ v, writable (mods_scope (port name)) (port name ++ [portMDTSAttr]) v) by (intros; by apply port_attr_writable).
  apply keeps_idle; [|does_walk]. apply keeps_looks. intros S. apply does_lift.
Qed.

(** Linking settles a limit only on an idle port. *)
Lemma keeps_port_link name old : keeps (symlink old (port name ++ ["subsystems"; NQN])).
Proof.
  intros k Hi Hl. apply wp_of_run. intros r k' Hr. set (new := port name ++ ["subsystems"; NQN]) in *.
  set (S := {| s_new := λ q, q = new; s_mod := λ q, link_sets new q; s_on := nothing |}).
  assert (effect S k k') as He by (eapply does_run; [|exact Hi|exact Hr]; by apply does_symlink).
  assert (∀ q, q ≠ new → (∀ a, a ∈ port_settles → q ≠ port name ++ [a]) → view k' q = view k q) as Hv.
  { intros q Hq Ha. eapply symlink_frame; [exact Hi|exact Hr|exact Hq|]. intros (d&n&a&Hin&Ed&->). exfalso. subst new.
    change ["subsystems"; ?x] with (["subsystems"] ++ [x]) in Ed. rewrite !app_assoc in Ed. apply app_inj_tail in Ed as [Ed _].
    apply app_inj_tail in Ed as [<- _]. by eapply Ha. }
  split; [apply He|]. subst new. unfold portPath in Hv. rewrite <- app_assoc in Hv. cbn [app] in Hv. split.
  - rewrite Hv; [done|by intros ?%app_inv_head|]. intros a _. rewrite <- app_assoc. by intros ?%app_inv_head.
  - intros n q _ Hq. apply below_eq in Hq as [r' ->]. apply Hv; [by intros ?%app_inv_head|]. intros a _. rewrite <- app_assoc. by intros ?%app_inv_head.
  - intros name' n nd Hn _ Hs. unfold portPath in *. rewrite <- app_assoc in *. rewrite Hv; [done| |].
    + intros [= _ E]%app_inv_head. done.
    + intros a _. rewrite <- app_assoc. by intros ?%app_inv_head.
  - intros name' n nd a v Hn Hp Hs Ha Hav. rewrite <- Hav. eapply symlink_frame; [exact Hi|exact Hr| |].
    + unfold portPath. rewrite <- !app_assoc. by intros ?%app_inv_head.
    + intros (d&m&b&_&Ed&Eq). left. exists n. apply app_inj_tail in Eq as [<- _].
      change ["subsystems"; ?x] with (["subsystems"] ++ [x]) in *. rewrite !app_assoc in *. apply app_inj_tail in Ed as [Ed _].
      apply app_inj_tail in Ed as [Ed _]. rewrite removelast_last, Ed. by rewrite Hs.
  - intros n h nd _ _ _ Hh. rewrite Hv; [done|by intros ?%app_inv_head|]. intros a _. rewrite <- app_assoc. by intros ?%app_inv_head.
Qed.

(** ** Hosts nobody allows *)

Definition allowed_at n h : path := R ++ ["subsystems"; n; "allowed_hosts"; h].

Lemma anyAllows_Ok h es b k k' : plain_name h = true → Forall (λ e, plain_name e.1 = true) es → fs_inv k →
  anyAllows (R ++ ["subsystems"]) h es k = (Ok b, k') → fs_inv k' ∧ view k' = view k ∧
  if b then ∃ n, plain_name n = true ∧ view k (allowed_at n h) ≠ None else ∀ n kd, (n, kd) ∈ es → view k (allowed_at n h) = None.
Proof.
  intros Hh Hes. revert k. induction Hes as [|[n kd] es Hn _ IH]; intros k Hi Hr; cbn [anyAllows] in Hr.
  { minv. split_and!; [done..|]. by intros ? ? ?%elem_of_nil. }
  rewrite !joinp_plain in Hr by done. rewrite <- !app_assoc in Hr. cbn [app] in Hr. apply M_bind_inv in Hr as [(b1&k1&H1&Hr)|(?&?&?)]; [|done].
  destruct (present_Ok _ _ _ _ Hi H1) as (Hi1&Hv1&Hb). destruct b1; [minv; split_and!; [done..|]; by exists n|].
  destruct (IH _ Hi1 Hr) as (Hi2&Hv2&Hb2). rewrite Hv1 in Hv2, Hb2. split_and!; [done..|]. destruct b; [done|].
  intros m kd' [[= -> ->]|Hin]%elem_of_cons; [done|]. by eapply Hb2.
Qed.
Lemma hostReferenced_Ok h b k k' : plain_name h = true → fs_inv k → hostReferenced t h k = (Ok b, k') → fs_inv k' ∧ view k' = view k ∧
  if b then ∃ n, plain_name n = true ∧ view k (allowed_at n h) ≠ None else ∀ n, plain_name n = true → view k (allowed_at n h) = None.
Proof.
  intros Hh Hi Hr. unfold hostReferenced in Hr. rewrite subsystemsDir_eq in Hr. apply sys_bind in Hr as (r&k1&Hd&Hr).
  destruct (readDir_run _ _ _ _ Hi Hd) as (Hi1&Hv1&Hes). destruct r as [es|e].
  - destruct Hes as [_ Hes]. assert (Forall (λ e, plain_name e.1 = true) es) as Hp.
    { apply Forall_forall. intros [n kd] Hin. by apply Hes in Hin as []. }
    destruct (anyAllows_Ok _ _ _ _ _ Hh Hp Hi1 Hr) as (Hi2&Hv2&Hb). rewrite Hv1 in Hv2, Hb. split_and!; [done..|]. destruct b; [done|].
    intros n Hn. destruct (view k (allowed_at n h)) as [nd|] eqn:E; [|done]. assert (view k (R ++ ["subsystems"; n]) = Some NDir) as Hd1.
    { unfold allowed_at in E. change ["subsystems"; n; "allowed_hosts"; h] with ((["subsystems"; n] ++ ["allowed_hosts"]) ++ [h]) in E.
      rewrite !app_assoc in E. apply (law_tree _ _ "allowed_hosts" Hi). rewrite (law_tree _ _ h Hi); by rewrite ?E. }
    rewrite <- E. eapply (Hb n KDir), Hes. split; [done|]. rewrite <- app_assoc. cbn. by rewrite Hd1.
  - destruct (IsNotExist e); minv. split_and!; [done..|]. intros n Hn. apply (view_below _ (R ++ ["subsystems"])); [done|auto|].
    unfold allowed_at. change ["subsystems"; n; "allowed_hosts"; h] with (["subsystems"] ++ [n; "allowed_hosts"; h]). rewrite app_assoc. by apply prefix_app_r.
Qed.

Lemma unreferenced_foreign k k' h : loaded k → (∀ n, plain_name n = true → view k (allowed_at n h) = None) →
  effect (mods_scope (R ++ ["hosts"; h])) k k' → foreign k k'.
Proof.
  intros Hl Hno He.
  assert (∀ s, (∀ r, s ≠ "hosts" :: h :: r) → view k' (R ++ s) = view k (R ++ s)) as Hv.
  { intros s Hs. apply (effect_untouched _ _ _ _ He); [|by intros p []]. intros [r ->]%prefix_app_head. by eapply Hs. }
  split.
  - rewrite Hv; [done|by intros].
  - intros n q _ Hq. apply below_eq in Hq as [r ->]. apply Hv. by intros.
  - intros name n nd _ _. unfold portPath. rewrite <- app_assoc. rewrite Hv; [done|by intros].
  - intros name n nd a v _ _ _ _. unfold portPath. rewrite <- app_assoc. rewrite Hv; [done|by intros].
  - intros n h' nd _ Hp Ha Hh. destruct (decide (h' = h)) as [->|Hne]; [by destruct Ha; apply Hno|]. rewrite Hv; [done|]. intros r [= ? _]. done.
Qed.
Lemma keeps_pruneHost h : plain_name h = true → keeps (pruneHostLocked t h).
Proof.
  intros Hh. unfold pruneHostLocked. apply keeps_bind; [apply keeps_looks; intros; apply does_present|]. intros b. destruct b; cbn [negb]; [|apply keeps_ret].
  intros k Hi Hl. apply wp_of_run. intros r k' Hr.
  assert (∀ S, does (K := K) S (hostReferenced t h)) as Hd by (intros S; unfold hostReferenced; pose proof (λ d es, does_anyAllows S d h es); does_walk).
  apply M_bind_inv in Hr as [(b&k1&H1&Hr)|(e&H1&->)]; [|destruct (look_run _ _ _ _ Hd Hi H1); split; [done|by apply foreign_same]].
  destruct (hostReferenced_Ok _ _ _ _ Hh Hi H1) as (Hi1&Hv1&Hb). destruct b; [minv; split; [done|apply foreign_same; [done|by rewrite Hv1]]|].
  rewrite hostDir_eq in Hr by done. pose proof (does_run _ _ _ _ _ (does_removeDirVerified _ _ (mods_scope_mods (R ++ ["hosts"; h]))) Hi1 Hr) as He.
  split; [apply He|]. eapply unreferenced_foreign; [exact Hl|exact Hb|].
  eapply effect_trans; [by apply effect_same|exact He].
Qed.

(** ** The operations *)

Lemma own_prepares : prepares t own_scope.
Proof. split; try (intros q Hq; cbn; tauto). done. Qed.
Lemma own_creates_port name a : creates own_scope (port name ++ a).
Proof.
  unfold portPath. rewrite <- app_assoc. change (["ports"; name] ++ a) with (["ports"] ++ name :: a). rewrite app_assoc.
  apply creates_below; intros q Hq; cbn; tauto.
Qed.
Lemma own_creates_sub a : creates own_scope (subsystemDir t ++ a).
Proof. apply prepares_sub; [done|apply own_prepares]. Qed.
Lemma own_attr_writable name a v : a ∈ addrAttrs → writable own_scope (port name ++ [a]) v.
Proof.
  intros Ha. destruct (addrAttrs_plain _ Ha) as (_&He&Hd). apply writable_plain; [set_solver|done|]. right. right. eauto.
Qed.

Lemma keeps_portRestore name old : keeps (mkdirAll (port name ++ ["subsystems"]) ;; symlink old (port name ++ ["subsystems"; NQN])).
Proof.
  apply keeps_bind; [apply keeps_own, does_mkdirAll, own_creates_port|]. intros _. apply keeps_port_link.
Qed.
Lemma port_dirp name : dirp (port name ++ ["subsystems"; NQN]) = port name ++ ["subsystems"].
Proof. change ["subsystems"; NQN] with (["subsystems"] ++ [NQN]). by rewrite app_assoc, dirp_snoc. Qed.

Lemma keeps_unlinkFromPort name : keeps (unlinkFromPort t (port name)).
Proof.
  unfold unlinkFromPort. cbv zeta. rewrite !joinp_plain, <- app_assoc by (done || apply wf_NQN). cbn [app].
  apply keeps_bind; [apply keeps_looks; intros; apply does_present|]. intros b. destruct b; cbn [negb]; [|apply keeps_ret].
  apply keeps_bind; [apply keeps_own, does_removeSymlink; intros q Hq; right; left; eauto|]. intros _.
  apply keeps_bind; [apply keeps_try, keeps_prunePort|]. intros [|e]; [apply keeps_ret|].
  apply keeps_bind; [apply keeps_try; unfold restoreLink; rewrite port_dirp; apply keeps_portRestore|]. intros _. apply keeps_throw.
Qed.
(** A loop over a listing. *)
Lemma keeps_listing {A} dir (f : result errno (list (string * entry_kind)) → M K go_error A) :
  (∀ r, (∀ es, r = Ok es → Forall (λ e, plain_name e.1 = true) es) → keeps (f r)) → keeps (sys (ReadDir dir) ≫= f).
Proof.
  intros Hf k Hi Hl. apply wp_of_run. intros r k' Hr. apply sys_bind in Hr as (rd&k1&Hd&Hr).
  destruct (readDir_run _ _ _ _ Hi Hd) as (Hi1&Hv1&Hes). assert (loaded k1) as Hl1 by (unfold loaded; by rewrite Hv1).
  assert (keeps (f rd)) as Hk.
  { apply Hf. intros es ->. apply Forall_forall. intros [n kd] Hin. by apply Hes in Hin as []. }
  destruct (wp_run _ _ _ _ _ (Hk _ Hi1 Hl1) Hr). split; [done|]. eapply foreign_trans; [|done]. apply foreign_same; [done|by rewrite Hv1].
Qed.
Lemma keeps_unlinkFromPorts : keeps (unlinkFromPorts t).
Proof.
  unfold unlinkFromPorts. rewrite portsDir_eq. apply keeps_listing. intros [es|e] Hes.
  - specialize (Hes _ eq_refl). rewrite Forall_forall in Hes. apply keeps_for_each. intros [name kd] Hin. cbn.
    rewrite joinp_plain, <- app_assoc by by apply (Hes _ Hin). apply keeps_unlinkFromPort.
  - destruct (IsNotExist e); [apply keeps_ret|apply keeps_throw].
Qed.

Lemma own_link h : plain_name h = true → does (K := K) own_scope (symlink (hostDir t h) (allowedHostLink t h)).
Proof.
  intros Hh. rewrite allowedHostLink_eq by done. apply does_symlink; [exact (own_creates_sub ["allowed_hosts"; h] _ (reflexivity _))|]. by intros q ?%no_link_sets.
Qed.
Lemma keeps_DenyHost h : plain_name h = true → keeps (DenyHost t h).
Proof.
  intros Hh. unfold DenyHost. cbv zeta. assert (mods own_scope (allowedHostLink t h)) as HM.
  { intros q Hq. left. etrans; [|exact Hq]. rewrite allowedHostLink_eq by done. by apply prefix_app_r. }
  apply keeps_bind; [apply keeps_looks; intros; apply does_present|]. intros b.
  apply keeps_bind; [by apply keeps_own, does_removeSymlink|]. intros _.
  apply keeps_bind; [by apply keeps_try, keeps_pruneHost|]. intros [|e]; [apply keeps_ret|].
  apply keeps_bind; [|intros _; apply keeps_throw]. destruct b; [|apply keeps_ret]. apply keeps_own.
  pose proof (own_link h Hh). assert (dirp (allowedHostLink t h) = subsystemDir t ++ ["allowed_hosts"]) as E.
  { rewrite allowedHostLink_eq by done. change ["allowed_hosts"; h] with (["allowed_hosts"] ++ [h]). by rewrite app_assoc, dirp_snoc. }
  unfold restoreLink. rewrite E. pose proof (own_creates_sub ["allowed_hosts"]). does_walk.
Qed.
Lemma keeps_RevokeHostsExcept keep : keeps (RevokeHostsExcept t keep).
Proof.
  unfold RevokeHostsExcept. apply keeps_listing. intros [es|e] Hes.
  - specialize (Hes _ eq_refl). rewrite Forall_forall in Hes. apply keeps_for_each. intros [h kd] Hin. cbn.
    destruct (containsb keep h); [apply keeps_ret|apply keeps_DenyHost]. by apply (Hes _ Hin).
  - destruct (IsNotExist e); [apply keeps_ret|apply keeps_throw].
Qed.
Lemma keeps_Remove : keeps (Remove t).
Proof.
  assert (mods own_scope (subsystemDir t)) as HM by (intros q Hq; by left).
  assert (mods own_scope (namespaceDir t)) as HN by (rewrite (namespaceDir_eq t); by apply mods_below).
  assert (∀ a, plain_name a = true → keeps (bestEffort (OsRemove (joinp (namespaceDir t) a)))) as Hns.
  { intros a Ha. rewrite joinp_plain by done. by apply keeps_own, does_bestEffort, does_OsRemove, mods_below. }
  assert (∀ a, plain_name a = true → keeps (bestEffort (OsRemove (joinp (subsystemDir t) a)))) as Hsub.
  { intros a Ha. rewrite joinp_plain by done. by apply keeps_own, does_bestEffort, does_OsRemove, mods_below. }
  unfold Remove. apply keeps_bind; [apply keeps_unlinkFromPorts|]. intros _. cbv zeta.
  apply keeps_bind; [rewrite joinp_plain by done; by apply keeps_own, does_bestEffort, does_write, mods_writable|]. intros _.
  do 4 (apply keeps_bind; [by apply Hns|]; intros _). apply keeps_bind; [by apply keeps_own, does_removeDir'|]. intros _.
  apply keeps_bind; [apply keeps_RevokeHostsExcept|]. intros _. do 4 (apply keeps_bind; [by apply Hsub|]; intros _).
  by apply keeps_own, does_removeDir'.
Qed.
End Isolation.

(** ** Isolation *)

Inductive nvmet_op :=
| NApply | NDisable | NEnable | NResize | NRemove
| NAllow (h : string) | NDeny (h : string) | NRevokeExcept (keep : list string).

Section Theorems.
Context {K C : Type} `{FSLaws K} (DeviceClaimer : string → M K go_error C) (release : C → M K go_error unit).
Context (uuid_String : string → option string) (NewSHA1 : string → string) (order : list (string * string) → list (string * string)).
Context (claimer_looks : ∀ d, looks (DeviceClaimer d)) (release_looks : ∀ c, looks (release c)) (order_perm : ∀ l, order l ≡ₚ l).
Context (t : NvmetTarget) `{!wf_nvmet t}.
Implicit Types (k : K).
Abbreviation R := (nvmetRoot t).

Definition run_nvmet (o : nvmet_op) : M K go_error unit :=
  match o with
  | NApply => Apply DeviceClaimer release uuid_String NewSHA1 order t
  | NDisable => DisableNamespace t ;; mret tt
  | NEnable => EnableNamespace DeviceClaimer release t
  | NResize => ResizeNamespace t
  | NRemove => Remove t
  | NAllow h => AllowHost t h
  | NDeny h => DenyHost t h
  | NRevokeExcept keep => RevokeHostsExcept t keep
  end.
Definition op_plain (o : nvmet_op) : Prop := match o with NAllow h | NDeny h => plain_name h = true | _ => True end.

Lemma keeps_link spec : wf_spec spec → keeps t (linkSubsystemToPort (K := K) order t spec).
Proof.
  intros Hw. assert (0 ≤ sp_id spec) as Hid by (destruct (spec_id _ Hw); lia).
  unfold linkSubsystemToPort, linkSubsystemToPortLocked, ensurePortLocked. cbv zeta.
  rewrite (portPath_eq t), (portLink_eq t), port_dirp by done. set (name := Itoa (sp_id spec)).
  apply keeps_bind; [apply keeps_try|intros [|e]; [apply keeps_ret|apply keeps_bind; [apply keeps_try, (keeps_prunePort t)|intros _; apply keeps_throw]]].
  apply keeps_bind; [|intros _; apply (keeps_portRestore t)]. apply keeps_bind.
  { pose proof (own_creates_port t name []) as HC. rewrite app_nil_r in HC. by apply (keeps_own t), does_mkdirAll. }
  intros _. apply keeps_bind.
  { apply (keeps_own t), does_for_each. intros a Ha%(spec_attr order order_perm); [|done]. apply does_ensurePortAttr; [|done]. by apply own_attr_writable. }
  intros _. apply keeps_bind; [apply (keeps_ensureInline t)|]. intros _. apply (keeps_ensureMDTS t).
Qed.
Lemma keeps_Link id spec : wf_spec spec → keeps (K := K) t (Link order {| pt_target := t; pt_identity := id; pt_port := spec |}).
Proof. intros Hs. unfold Link. cbn. apply keeps_bind; [apply (keeps_looks t); intros; apply does_verifyPrepared|]. intros _. by apply keeps_link. Qed.
Lemma keeps_Apply : keeps t (Apply DeviceClaimer release uuid_String NewSHA1 order t).
Proof.
  intros k Hi Hl. apply wp_of_run. intros r k' Hr. pose proof (own_prepares t) as HP.
  pose proof (does_nvmetPrepare DeviceClaimer release uuid_String NewSHA1 claimer_looks release_looks t _ HP) as Hd.
  unfold Apply in Hr. apply M_bind_inv in Hr as [(pt&k1&H1&Hr)|(e&H1&->)].
  2: { pose proof (does_run _ _ _ _ _ Hd Hi H1) as He. split; [apply He|by apply own_foreign]. }
  pose proof (does_run _ _ _ _ _ Hd Hi H1) as He. pose proof (own_foreign t _ _ Hi Hl He) as F1.
  apply (Prepare_result DeviceClaimer release uuid_String NewSHA1) in H1 as (id&spec&->&_&Hs%target_portSpec_wf).
  destruct (wp_run _ _ _ _ _ (keeps_Link id spec Hs _ (eff_inv _ _ _ He) (fo_loaded _ _ _ F1)) Hr). split; [done|by eapply foreign_trans].
Qed.
Lemma run_nvmet_keeps o : op_plain o → keeps t (run_nvmet o).
Proof.
  intros Ho. pose proof (own_prepares t) as HP. destruct o; cbn [run_nvmet op_plain] in *.
  - apply keeps_Apply.
  - apply (keeps_own t). pose proof (does_DisableNamespace (K := K) t (own_scope t) (prepares_enable t _ "0" HP ltac:(done))). does_walk.
  - apply (keeps_own t), does_EnableNamespace; [done..|]. rewrite namespaceEnablePath_eq. apply mods_writable; [|done|done].
    intros q Hq. left. etrans; [|exact Hq]. apply (namespaceDir_below t).
  - apply (keeps_own t), does_ResizeNamespace. by apply (prepares_ns t).
  - apply (keeps_Remove t).
  - apply (keeps_own t), does_AllowHost; [..|done].
    + rewrite hostDir_eq by done. change (R ++ ?x :: ?l) with (R ++ [x] ++ l). rewrite app_assoc.
      apply creates_below; [exact (pr_hosts_up _ _ HP)|exact (pr_hosts _ _ HP)].
    + rewrite allowedHostsDir_eq. by apply own_creates_sub.
    + exact (own_creates_sub t ["allowed_hosts"; h] _ (reflexivity _)).
  - by apply (keeps_DenyHost t).
  - apply (keeps_RevokeHostsExcept t).
Qed.

(** C16: Whatever an operation on an export does, however it ends: every other
    export keeps its subsystem, its links with the limits of their ports, and
    its hosts. *)
Theorem nvmet_isolated o k r k' : op_plain o → fs_inv k → loaded t k → run_nvmet o k = (r, k') → foreign t k k'.
Proof. intros Ho Hi Hl Hr. by destruct (wp_run _ _ _ _ _ (run_nvmet_keeps o Ho k Hi Hl) Hr). Qed.
End Theorems.
