(* ===== verification/NvmetRemoval.v ===== *)
(** * Withdrawing exports over NVMe-oF

    What is left when an export was removed, and when a host was revoked. *)
From stdpp Require Import base numbers list strings gmap pretty.
From Stdlib Require Import Ascii.
From S2P Require Import Prelude GoStd GoNet LioFs LioLaws ConfigfsEffects NvmetTarget NvmetLaws NvmetCorrect NvmetPorts NvmetServing NvmetIsolation.
Open Scope Z_scope.

Section Removal.
Context {K : Type} `{RemoveLaws K} (t : NvmetTarget) `{!wf_nvmet t}.
Implicit Types (k : K) (p q : path).
Abbreviation R := (nvmetRoot t).
Abbreviation port name := (portPath t name).
Abbreviation NQN := (SubsystemNQN t).

Lemma removed_absent d k k' q : effect (mods_scope d) k k' → view k q = None → view k' q = None.
Proof. intros He. apply (effect_absent _ _ _ _ He). by intros p []. Qed.

(** ** Ports *)

Lemma unlinkFromPort_Ok name k k' : fs_inv k → unlinkFromPort t (port name) k = (Ok tt, k') →
  effect (mods_scope (port name)) k k' ∧ view k' (port name ++ ["subsystems"; NQN]) = None.
Proof.
  intros Hi Hr. unfold unlinkFromPort in Hr. cbv zeta in Hr. rewrite !joinp_plain, <- app_assoc in Hr by (done || apply wf_NQN). cbn [app] in Hr.
  apply M_bind_inv in Hr as [(b&k1&H3&Hr)|(?&?&?)]; [|done]. destruct (present_Ok _ _ _ _ Hi H3) as (Hi1&Hv1&Hb).
  assert (effect (mods_scope (port name)) k k1) as E1 by by apply effect_same.
  destruct b; cbn [negb] in Hr; [|minv; split; [done|by rewrite Hv1]].
  apply M_bind_inv in Hr as [([]&k2&H4&Hr)|(?&?&?)]; [|done]. destruct (removeSymlink_gone _ _ _ Hi1 H4) as [Hi2 Hg].
  assert (effect (mods_scope (port name)) k1 k2) as E2 by (eapply does_run; [apply does_removeSymlink, mods_port_below|exact Hi1|exact H4]).
  apply try_bind in Hr as (r&k3&H5&Hr). destruct r as [[]|e].
  2: { apply try_bind in Hr as (?&?&_&Hr). minv. }
  minv. assert (effect (mods_scope (port name)) k2 k') as E3.
  { eapply does_run; [apply does_prunePortLocked, mods_scope_mods|exact Hi2|exact H5]. }
  split; [by eapply effect_trans; [|eapply effect_trans]|]. by eapply removed_absent.
Qed.

Lemma mods_scope_sub d s : sub_scope (mods_scope (d ++ s)) (mods_scope d).
Proof. split_and!; [by intros q []| |by intros q []]. intros q Hq. cbn in *. etrans; [|exact Hq]. by apply prefix_app_r. Qed.
Lemma port_sub name : sub_scope (mods_scope (port name)) (mods_scope (R ++ ["ports"])).
Proof. unfold portPath. change ["ports"; name] with (["ports"] ++ [name]). rewrite app_assoc. apply mods_scope_sub. Qed.

Lemma unlink_listed (es : list (string * entry_kind)) k k' : Forall (λ e, plain_name e.1 = true) es → fs_inv k →
  for_each (λ e : string * entry_kind, unlinkFromPort t (joinp (R ++ ["ports"]) e.1)) es k = (Ok tt, k') →
  effect (mods_scope (R ++ ["ports"])) k k' ∧ ∀ e, e ∈ es → view k' (port e.1 ++ ["subsystems"; NQN]) = None.
Proof.
  intros Hes. revert k. induction Hes as [|[name kd] es Hn _ IH]; intros k Hi Hr; cbn in Hr.
  { minv. split; [by apply effect_refl|]. by intros ? ?%elem_of_nil. }
  rewrite joinp_plain, <- app_assoc in Hr by done. apply M_bind_inv in Hr as [([]&k1&H3&Hr)|(?&?&?)]; [|done].
  destruct (unlinkFromPort_Ok _ _ _ Hi H3) as [E1 Hg]. apply (effect_mono _ _ _ _ (port_sub name)) in E1.
  destruct (IH _ (eff_inv _ _ _ E1) Hr) as [E2 Hg2]. split; [by eapply effect_trans|].
  intros e [->|Hin]%elem_of_cons; [by eapply removed_absent|by apply Hg2].
Qed.
Lemma unlinkFromPorts_Ok k k' : fs_inv k → unlinkFromPorts t k = (Ok tt, k') →
  effect (mods_scope (R ++ ["ports"])) k k' ∧ ∀ name, plain_name name = true → view k' (port name ++ ["subsystems"; NQN]) = None.
Proof.
  intros Hi Hr. unfold unlinkFromPorts in Hr. rewrite portsDir_eq in Hr. apply sys_bind in Hr as (r&k1&Hd&Hr).
  destruct (readDir_run _ _ _ _ Hi Hd) as (Hi1&Hv1&Hes). assert (effect (mods_scope (R ++ ["ports"])) k k1) as E1 by by apply effect_same.
  assert (∀ name, port name `prefix_of` port name ++ ["subsystems"; NQN]) as Hpre by (intros; by apply prefix_app_r).
  destruct r as [es|e].
  - destruct Hes as [_ Hes]. assert (Forall (λ e, plain_name e.1 = true) es) as Hp.
    { apply Forall_forall. intros [n kd] Hin. by apply Hes in Hin as []. }
    destruct (unlink_listed _ _ _ Hp Hi1 Hr) as [E2 Hg]. split; [by eapply effect_trans|]. intros name Hn.
    destruct (view k (port name)) as [nd|] eqn:Ep.
    + apply (Hg (name, kind_of nd)), Hes. split; [done|]. rewrite <- app_assoc. unfold portPath in Ep. cbn. by rewrite Ep.
    + eapply removed_absent; [exact E2|]. rewrite Hv1. by apply (view_below _ (port name)).
  - destruct (IsNotExist e) eqn:Ee; minv. split; [done|]. intros name _. rewrite Hv1. apply (view_below _ (R ++ ["ports"])); [done|auto|].
    unfold portPath. change ["ports"; name] with (["ports"] ++ [name]). rewrite <- !app_assoc, app_assoc. by apply prefix_app_r.
Qed.

(** ** Removal *)

(** After the ports: the subsystem with its hosts. *)
Definition rest_scope : scope := {|
  s_new := λ q, q `prefix_of` subsystemDir t ∨ subsystemDir t `prefix_of` q;
  s_mod := λ q, subsystemDir t `prefix_of` q ∨ R ++ ["hosts"] `prefix_of` q;
  s_on := nothing |}.
Lemma rest_ports k k' q : fs_inv k → view k R ≠ None → effect rest_scope k k' → R ++ ["ports"] `prefix_of` q → view k q = None → view k' q = None.
Proof.
  intros Hi HR He Hq. apply (effect_absent _ _ _ _ He). intros p Hp Hpq.
  assert (∀ p, s_mod rest_scope p → ¬ p `prefix_of` q) as Hm.
  { intros p' [Hp'|Hp'] Hpq'.
    - rewrite (subsystemDir_eq t) in Hp'. apply (branches_apart t "subsystems" "ports" [NQN] [] q); [done|by etrans; [exact Hp'|]|done].
    - apply (branches_apart t "hosts" "ports" [] [] q); [done|by etrans; [exact Hp'|]|done]. }
  split; [|intros Hmp; by apply (Hm p)]. destruct Hp as [Hp|Hp]; rewrite (subsystemDir_eq t) in Hp.
  - change ["subsystems"; NQN] with (["subsystems"] ++ [NQN]) in Hp. rewrite app_assoc in Hp.
    assert (p `prefix_of` R) as HpR; [|by apply (root_present t)].
    destruct (prefix_weak_total p (R ++ ["subsystems"]) _ Hp (prefix_app_r _ _ [NQN] (reflexivity _))) as [Hp1|Hp1].
    + exact (branches t "subsystems" "ports" [] q p ltac:(done) Hp1 Hq Hpq).
    + exfalso. apply (branches_apart t "subsystems" "ports" [] [] q); [done|by etrans; [exact Hp1|]|done].
  - exfalso. apply (branches_apart t "subsystems" "ports" [NQN] [] q); [done|by etrans; [exact Hp|]|done].
Qed.
Lemma rest_hosts h : plain_name h = true → serves_host t rest_scope h.
Proof.
  intros Hh. split.
  - intros q Hq. left. etrans; [|exact Hq]. rewrite allowedHostLink_eq by done. by apply prefix_app_r.
  - intros q Hq. right. etrans; [|exact Hq]. rewrite hostDir_eq by done. change ["hosts"; h] with (["hosts"] ++ [h]). rewrite app_assoc. by apply prefix_app_r.
  - intros q Hq. rewrite allowedHostsDir_eq in Hq. by destruct (prefix_weak_total q (subsystemDir t) _ Hq (prefix_app_r _ _ ["allowed_hosts"] (reflexivity _))); [left|right].
  - right. rewrite allowedHostLink_eq by done. by apply prefix_app_r.
Qed.

(** What [Remove] does after the ports. *)
Definition removeSubsystem : M K go_error unit :=
  let nsDir := namespaceDir t in
  let enablePath := joinp nsDir "enable" in
  bestEffort (WriteFile enablePath "0") ;;
  bestEffort (OsRemove (joinp nsDir "device_path")) ;;
  bestEffort (OsRemove (joinp nsDir "device_uuid")) ;;
  bestEffort (OsRemove (joinp nsDir "device_nguid")) ;;
  bestEffort (OsRemove enablePath) ;;
  removeDir nsDir ;;
  RevokeHostsExcept t [] ;;
  bestEffort (OsRemove (joinp (subsystemDir t) "allowed_hosts")) ;;
  bestEffort (OsRemove (joinp (subsystemDir t) "namespaces")) ;;
  bestEffort (OsRemove (joinp (subsystemDir t) "attr_allow_any_host")) ;;
  bestEffort (OsRemove (joinp (subsystemDir t) "attr_serial")) ;;
  removeDir (subsystemDir t).
Lemma Remove_eq : Remove t = (unlinkFromPorts t ;; removeSubsystem).
Proof. done. Qed.

Section Steps.
Lemma rest_mods : mods rest_scope (subsystemDir t).
Proof. intros q Hq. by left. Qed.
Lemma rest_ns a : mods rest_scope (namespaceDir t ++ a).
Proof. rewrite (namespaceDir_eq t). apply mods_below, mods_below, rest_mods. Qed.
Lemma does_rest_ns a : plain_name a = true → does (K := K) rest_scope (OsRemove (joinp (namespaceDir t) a)).
Proof. intros Ha. rewrite joinp_plain by done. apply does_OsRemove, rest_ns. Qed.
Lemma does_rest_sub a : plain_name a = true → does (K := K) rest_scope (OsRemove (joinp (subsystemDir t) a)).
Proof. intros Ha. rewrite joinp_plain by done. apply does_OsRemove, mods_below, rest_mods. Qed.
Lemma does_rest_off : does (K := K) rest_scope (WriteFile (joinp (namespaceDir t) "enable") "0").
Proof. rewrite joinp_plain by done. apply does_write, mods_writable; [|done|done]. rewrite <- (app_nil_r (namespaceDir t)). apply rest_ns. Qed.
Lemma does_rest_nsdir : does (K := K) rest_scope (removeDir (namespaceDir t)).
Proof. apply does_removeDir'. rewrite <- (app_nil_r (namespaceDir t)). apply rest_ns. Qed.
Lemma does_rest_hosts : does (K := K) rest_scope (RevokeHostsExcept t []).
Proof. apply does_RevokeHostsExcept. intros. by apply rest_hosts. Qed.
Lemma does_rest_last : does (K := K) rest_scope (removeDir (subsystemDir t)).
Proof. apply does_removeDir', rest_mods. Qed.
Hint Resolve does_rest_ns does_rest_sub does_rest_off does_rest_nsdir does_rest_hosts does_rest_last : does.

Lemma does_rest : does rest_scope removeSubsystem.
Proof. unfold removeSubsystem. does_walk. Qed.

Lemma step_Ok {A B} S (m : M K go_error A) (f : A → M K go_error B) b k k' :
  does S m → fs_inv k → (m ≫= f) k = (Ok b, k') → ∃ a k1, fs_inv k1 ∧ f a k1 = (Ok b, k').
Proof.
  intros Hd Hi Hr. apply M_bind_inv in Hr as [(a&k1&H3&Hr)|(?&?&?)]; [|done]. exists a, k1. split; [|done]. by eapply eff_inv, does_run.
Qed.
Lemma removeSubsystem_Ok k k' : fs_inv k → removeSubsystem k = (Ok tt, k') → view k' (subsystemDir t) = None.
Proof.
  intros Hi Hr. unfold removeSubsystem in Hr. cbv zeta in Hr.
  do 11 (apply (step_Ok rest_scope) in Hr as ([]&?&?&Hr); [|by does_walk|done]). by eapply removeDir_gone.
Qed.
End Steps.

(** An export that was removed is gone from configfs, and from every port. *)
Theorem nvmet_Remove_complete k k' :
  fs_inv k → loaded t k → Remove t k = (Ok tt, k') →
  (∀ q, subsystemDir t `prefix_of` q → view k' q = None) ∧
  ∀ name, plain_name name = true → view k' (port name ++ ["subsystems"; NQN]) = None.
Proof.
  intros Hi Hl Hr. rewrite Remove_eq in Hr. apply M_bind_inv in Hr as [([]&k1&H3&Hr)|(?&?&?)]; [|done].
  destruct (unlinkFromPorts_Ok _ _ Hi H3) as [E1 Hg]. pose proof (does_run _ _ _ _ _ does_rest (eff_inv _ _ _ E1) Hr) as E2.
  assert (view k1 R ≠ None) as HR.
  { rewrite (eff_frame _ _ _ E1).
    - intros Hn. apply Hl, (view_below _ R); [done|done|by apply prefix_app_r].
    - intros [r Hp]. apply (f_equal length) in Hp. rewrite !length_app in Hp. cbn in Hp. lia.
    - intros Hn. apply Hl, (view_below _ R); [done|done|by apply prefix_app_r]. }
  split.
  - intros q Hq. apply (view_below _ (subsystemDir t)); [apply E2| |done]. eapply removeSubsystem_Ok; [apply E1|exact Hr].
  - intros name Hn. eapply rest_ports; [apply E1|done|exact E2| |by apply Hg].
    unfold portPath. change ["ports"; name] with (["ports"] ++ [name]). rewrite <- !app_assoc, app_assoc. by apply prefix_app_r.
Qed.

(** ** Revoking a host *)

Lemma pruneHost_Ok h k k' : plain_name h = true → fs_inv k → pruneHostLocked t h k = (Ok tt, k') →
  effect (mods_scope (hostDir t h)) k k' ∧ (view k' (hostDir t h) = None ∨ ∃ n, plain_name n = true ∧ view k' (allowed_at t n h) ≠ None).
Proof.
  intros Hh Hi Hr. unfold pruneHostLocked in Hr. apply M_bind_inv in Hr as [(b&k1&H3&Hr)|(?&?&?)]; [|done].
  destruct (present_Ok _ _ _ _ Hi H3) as (Hi1&Hv1&Hb). assert (effect (mods_scope (hostDir t h)) k k1) as E1 by by apply effect_same.
  destruct b; cbn [negb] in Hr; [|minv; split; [done|left; by rewrite Hv1]]. apply M_bind_inv in Hr as [(b&k2&H4&Hr)|(?&?&?)]; [|done].
  destruct (hostReferenced_Ok t _ _ _ _ Hh Hi1 H4) as (Hi2&Hv2&Hr2). assert (effect (mods_scope (hostDir t h)) k1 k2) as E2 by by apply effect_same.
  destruct b; [minv; split; [by eapply effect_trans|right; by rewrite Hv2]|].
  pose proof (does_run _ _ _ _ _ (does_removeDirVerified _ _ (mods_scope_mods (hostDir t h))) Hi2 Hr) as E3.
  split; [by eapply effect_trans; [|eapply effect_trans]|]. left. by eapply removeDirVerified_gone.
Qed.

(** A host that was denied is off the subsystem's list, and its entry is gone
    unless a subsystem still allows it. *)
Theorem DenyHost_complete h k k' :
  plain_name h = true → fs_inv k → DenyHost t h k = (Ok tt, k') →
  view k' (allowedHostLink t h) = None ∧
  (view k' (hostDir t h) = None ∨ ∃ n, plain_name n = true ∧ view k' (allowed_at t n h) ≠ None).
Proof.
  intros Hh Hi Hr. unfold DenyHost in Hr. cbv zeta in Hr. apply M_bind_inv in Hr as [(b&k1&H3&Hr)|(?&?&?)]; [|done].
  destruct (present_Ok _ _ _ _ Hi H3) as (Hi1&_). apply M_bind_inv in Hr as [([]&k2&H4&Hr)|(?&?&?)]; [|done].
  destruct (removeSymlink_gone _ _ _ Hi1 H4) as [Hi2 Hg]. apply try_bind in Hr as (r&k3&H5&Hr). destruct r as [[]|e].
  2: { apply M_bind_inv in Hr as [(?&?&_&Hr)|(?&_&?)]; [by minv|done]. }
  minv. destruct (pruneHost_Ok _ _ _ Hh Hi2 H5) as [E3 Hp]. split; [by eapply removed_absent|done].
Qed.
End Removal.
