(* ===== verification/NvmetMemory.v ===== *)
(** * A configfs in memory

    An instance of [FS] for which the laws the nvmet target relies on hold:
    a map from paths to nodes, in which mkdir adds the attributes nvmet gives
    a new subsystem, namespace or port.  The demonstrations run on it. *)
From stdpp Require Import base numbers list strings gmap pretty.
From Stdlib Require Import Ascii.
From S2P Require Import Prelude GoStd GoNet LioFs LioLaws ConfigfsEffects LioKernel LioKernelLaws NvmetTarget NvmetLaws.
Open Scope Z_scope.

Abbreviation Mem := (gmap path node).
Definition mview (m : Mem) (p : path) : option node := m !! p.
Definition mset (p : path) (n : node) (m : Mem) : Mem := <[p := n]> m.

Definition text (s : string) : node := NAttr (s +:+ newline).
(** What nvmet populates a new item with. *)
Definition defaults (p : path) : list (string * node) :=
  match rev p with
  | _ :: dir :: up :: _ =>
      if bool_decide (dir = "subsystems" ∧ up = "nvmet") then
        [("attr_allow_any_host", text "0"); ("attr_serial", text "00000000000000000000"); ("allowed_hosts", NDir); ("namespaces", NDir)]
      else if bool_decide (dir = "namespaces") then
        [("device_path", text "(null)"); ("device_uuid", text "00000000-0000-0000-0000-000000000000");
         ("device_nguid", text "00000000-0000-0000-0000-000000000000"); ("enable", text "0")]
      else if bool_decide (dir = "ports" ∧ up = "nvmet") then
        [("addr_trtype", text ""); ("addr_adrfam", text ""); ("addr_traddr", text ""); ("addr_trsvcid", text "");
         ("param_inline_data_size", text "-1"); ("param_mdts", text "0"); ("subsystems", NDir)]
      else []
  | _ => []
  end.

Definition populate (p : path) (m : Mem) : Mem := foldr (λ a m, mset (p ++ [a.1]) a.2 m) (mset p NDir m) (defaults p).
Definition entries (p : path) (m : Mem) : list (string * entry_kind) :=
  omap (λ e, match last e.1 with
             | Some x => if bool_decide (e.1 = p ++ [x]) && plain_name x then Some (x, kind_of e.2) else None
             | None => None
             end) (map_to_list m).
Definition below (p : path) (m : Mem) : Mem := filter (λ e, ¬ p `prefix_of` e.1) m.

Definition is_dir (m : Mem) (p : path) : bool := bool_decide (mview m p = Some NDir).

#[export] Instance Mem_FS : FS Mem := {|
  Mkdir p := λ m,
    if negb (forallb plain_name p) then (Err (EOTHER "EINVAL"), m)
    else match mview m p with
    | Some _ => (Err EEXIST, m)
    | None => if is_dir m (removelast p) then (Ok tt, populate p m) else (Err ENOENT, m)
    end;
  Rmdir p := λ m,
    match mview m p with
    | None => (Err ENOENT, m)
    | Some NDir =>
        if bool_decide (p ≠ []) && bool_decide (map_Forall (λ q n, p `prefix_of` q → kind_of n ≠ KLink) m) then (Ok tt, below p m) else (Err EBUSY, m)
    | Some _ => (Err ENOTDIR, m)
    end;
  WriteFile p v := λ m,
    match mview m p with
    | Some (NAttr _) => (Ok tt, mset p (NAttr (TrimSpace v +:+ newline)) m)
    | Some _ => (Err (EOTHER "EISDIR"), m)
    | None => (Err ENOENT, m)
    end;
  ReadFile p := λ m,
    match mview m p with Some (NAttr s) => (Ok s, m) | Some _ => (Err (EOTHER "EISDIR"), m) | None => (Err ENOENT, m) end;
  Symlink old new := λ m,
    if negb (forallb plain_name old && forallb plain_name new) then (Err (EOTHER "EINVAL"), m)
    else match mview m new with
    | Some _ => (Err EEXIST, m)
    | None => if is_dir m (removelast new) then (Ok tt, mset new (NLink (path_string old)) m) else (Err ENOENT, m)
    end;
  Readlink p := λ m,
    match mview m p with Some (NLink s) => (Ok s, m) | Some _ => (Err (EOTHER "EINVAL"), m) | None => (Err ENOENT, m) end;
  Unlink p := λ m,
    match mview m p with Some (NLink _) => (Ok tt, delete p m) | Some _ => (Err (EOTHER "EPERM"), m) | None => (Err ENOENT, m) end;
  Lstat p := λ m, match mview m p with Some n => (Ok (kind_of n), m) | None => (Err ENOENT, m) end;
  ReadDir p := λ m,
    match mview m p with Some NDir => (Ok (entries p m), m) | Some _ => (Err ENOTDIR, m) | None => (Err ENOENT, m) end;
|}.

Implicit Types (m : Mem) (p q : path).
Lemma mview_eq m p n : mview (mset p n m) p = Some n.
Proof. apply lookup_insert_eq. Qed.
Lemma mview_ne m p q n : p ≠ q → mview (mset p n m) q = mview m q.
Proof. apply lookup_insert_ne. Qed.
Lemma mview_below m p q : mview (below p m) q = if decide (p `prefix_of` q) then None else mview m q.
Proof.
  unfold mview, below. case_decide as Hd.
  - apply map_lookup_filter_None. right. intros n _ Hn. by apply Hn.
  - destruct (m !! q) as [n|] eqn:E; [by apply map_lookup_filter_Some|]. apply map_lookup_filter_None. by left.
Qed.
Lemma mview_delete m p q : mview (delete p m) q = if decide (q = p) then None else mview m q.
Proof. unfold mview. case_decide as Hd; [subst; apply lookup_delete_eq|by apply lookup_delete_ne]. Qed.
Lemma mem_entries p m name kd : (name, kd) ∈ entries p m ↔ plain_name name = true ∧ kind_of <$> mview m (p ++ [name]) = Some kd.
Proof.
  unfold entries. rewrite list_elem_of_omap. split.
  - intros ([q n]&Hin&Hq). apply elem_of_map_to_list in Hin. cbn in Hq. destruct (last q) as [x|]; [|done].
    case_bool_decide as Hd; [|done]. destruct (plain_name x) eqn:Ex; [|done]. cbn in Hq. injection Hq as <- <-. subst q. split; [done|].
    by assert (mview m (p ++ [x]) = Some n) as -> by exact Hin.
  - intros [Hn Hk]. destruct (mview m (p ++ [name])) as [n|] eqn:E; [|done]. injection Hk as <-. exists (p ++ [name], n).
    split; [by apply elem_of_map_to_list|]. cbn. rewrite last_snoc, bool_decide_true, Hn by done. done.
Qed.
#[local] Opaque mview mset.

Record mem_inv (m : Mem) : Prop := {
  mi_tree p x : mview m (p ++ [x]) ≠ None → mview m p = Some NDir;
  mi_plain p n : mview m p = Some n → forallb plain_name p = true;
  mi_root : mview m ([] : path) = Some NDir;
}.

Lemma mem_below m p q : mem_inv m → mview m p = None → p `prefix_of` q → mview m q = None.
Proof.
  intros Hm Hp [s ->]. induction s as [|x s IH] using rev_ind; [by rewrite app_nil_r|].
  destruct (mview m (p ++ s ++ [x])) eqn:E; [|done]. rewrite app_assoc in E. rewrite (mi_tree _ Hm (p ++ s) x) in IH; [done|by rewrite E].
Qed.

(** ** New items *)

Lemma defaults_plain p : Forall (λ a, plain_name a.1 = true ∧ (a.1 = "enable" → a.2 = text "0")) (defaults p).
Proof.
  unfold defaults. destruct (rev p) as [|x [|dir [|up l]]]; try done.
  repeat case_bool_decide; repeat constructor; done.
Qed.
Lemma populate_inv p m q n : mview (populate p m) q = Some n → q = p ∧ n = NDir ∨ (∃ a, a ∈ defaults p ∧ q = p ++ [a.1] ∧ n = a.2) ∨ mview m q = Some n.
Proof.
  unfold populate. generalize (defaults p). intros l. induction l as [|a l IH]; cbn.
  - destruct (decide (q = p)) as [->|]; [rewrite mview_eq|rewrite mview_ne by done]; naive_solver.
  - destruct (decide (q = p ++ [a.1])) as [->|].
    + rewrite mview_eq. intros [= <-]. right. left. exists a. split; [by left|done].
    + rewrite mview_ne by done. intros [?|[(b&?&?)|?]]%IH; [by left| |by auto]. right. left. exists b. split; [by right|done].
Qed.
Lemma populate_self p m : mview (populate p m) p = Some NDir.
Proof.
  unfold populate. generalize (defaults p). intros l. induction l as [|a l IH]; cbn; [by rewrite mview_eq|].
  rewrite mview_ne; [done|]. intros E%(f_equal length). rewrite length_app in E. cbn in E. lia.
Qed.
Lemma populate_keep p m q n : mem_inv m → mview m p = None → mview m q = Some n → mview (populate p m) q = Some n.
Proof.
  intros Hm Hp Hq. assert (¬ p `prefix_of` q) as Hpre by (intros Hpre; by rewrite (mem_below _ _ _ Hm Hp Hpre) in Hq).
  unfold populate. generalize (defaults p). intros l. induction l as [|a l IH]; cbn.
  - rewrite mview_ne; [done|]. by intros <-.
  - rewrite mview_ne; [done|]. intros <-. apply Hpre. by apply prefix_app_r.
Qed.

Lemma mem_parent m p : mem_inv m → is_dir m (removelast p) = true → mview m p = None → ∃ d x, p = d ++ [x] ∧ mview m d = Some NDir.
Proof.
  intros Hm Hd%bool_decide_eq_true Hn. destruct p as [|x d _] using rev_ind; [by rewrite (mi_root _ Hm) in Hn|].
  exists d, x. split; [done|]. by rewrite removelast_last in Hd.
Qed.
Lemma forallb_plain_snoc p x : forallb plain_name (p ++ [x]) = true ↔ forallb plain_name p = true ∧ plain_name x = true.
Proof. rewrite forallb_app. cbn. rewrite andb_true_r. apply andb_true_iff. Qed.

Lemma mem_Mkdir p m : mem_inv m → wp (Mkdir p) (λ r m', mem_inv m' ∧
  match r with
  | Ok _ =>
      mview m p = None ∧ mview m' p = Some NDir ∧ (∀ q, mview m q ≠ None → mview m' q = mview m q) ∧
      (∀ q, mview m q = None → mview m' q ≠ None → p `prefix_of` q ∧ (is_enable q → off (λ q, mview m' q) q))
  | Err _ => m' = m
  end) m.
Proof.
  intros Hm. unfold wp. cbn. destruct (forallb plain_name p) eqn:Hpl; [|done]. cbn. destruct (mview m p) eqn:Ep; [done|].
  destruct (is_dir m (removelast p)) eqn:Ed; [|done]. cbn. destruct (mem_parent _ _ Hm Ed Ep) as (d&x&->&Hd).
  assert (∀ q n, mview m q = Some n → mview (populate (d ++ [x]) m) q = Some n) as Hk by (intros; by apply populate_keep).
  pose proof (populate_self (d ++ [x]) m) as Hself. pose proof (defaults_plain (d ++ [x])) as Hdef. rewrite Forall_forall in Hdef.
  split; [split|split_and!; [done|done| |]].
  - intros q y Hq. destruct (mview (populate _ m) (q ++ [y])) as [n|] eqn:E; [|done].
    apply populate_inv in E as [[[-> ->]%app_inj_tail _]|[(a&_&[-> _]%app_inj_tail&_)|E]]; [by apply Hk|done|].
    apply Hk, (mi_tree _ Hm _ y). by rewrite E.
  - intros q n [[-> ->]|[(a&Ha&->&->)|E]]%populate_inv; [done| |by apply (mi_plain _ Hm _ n)].
    apply forallb_plain_snoc. split; [done|]. by apply Hdef.
  - apply Hk, Hm.
  - intros q Hq. destruct (mview m q) as [n|] eqn:E; [|done]. by apply Hk.
  - intros q Hq Hne. destruct (mview (populate _ m) q) as [n|] eqn:E; [|done].
    pose proof E as E'. apply populate_inv in E as [[-> ->]|[(a&Ha&->&->)|E]]; [|..|congruence].
    + split; [done|]. intros _ s. by rewrite Hself.
    + split; [by apply prefix_app_r|]. intros [d' Hd'] s Hs. apply app_inj_tail in Hd' as [_ Ha']. destruct (Hdef a Ha) as [_ Ht].
      rewrite (Ht Ha') in E'. rewrite E' in Hs. by injection Hs as <-.
Qed.

(** ** The other calls *)

Lemma mem_Rmdir p m : mem_inv m → wp (Rmdir p) (λ r m', mem_inv m' ∧
  match r with
  | Ok _ => (∀ q, p `prefix_of` q → mview m' q = None) ∧ (∀ q, ¬ p `prefix_of` q → mview m' q = mview m q)
  | Err _ => m' = m
  end) m.
Proof.
  intros Hm. unfold wp. cbn. destruct (mview m p) as [[]|] eqn:E; try done. case_bool_decide as Hp; [|done]. case_bool_decide; [|done]. cbn.
  split; [|split; intros q Hq; rewrite mview_below; by case_decide]. split.
  - intros q x. rewrite !mview_below. case_decide as H1; [done|]. intros Hq. rewrite decide_False; [by apply (mi_tree _ Hm _ x)|].
    intros Hpq. apply H1. by apply prefix_app_r.
  - intros q n. rewrite mview_below. case_decide; [done|]. apply (mi_plain _ Hm).
  - rewrite mview_below, decide_False; [apply Hm|]. by intros ?%prefix_nil_inv.
Qed.
Lemma attr_text_newline v : attr_text (TrimSpace v +:+ newline) = TrimSpace v.
Proof.
  unfold attr_text. assert (trimRightNUL (TrimSpace v +:+ newline) = TrimSpace v +:+ newline) as ->.
  { unfold trimRightNUL, newline. rewrite rev_string_last. cbn [trimLeftNUL Ascii.eqb Bool.eqb NULb]. by rewrite rev_string_snoc, rev_string_involutive. }
  by apply TrimSpace_newline.
Qed.
Lemma mem_WriteFile p v m : mem_inv m → wp (WriteFile p v) (λ _ m', mem_inv m' ∧
  (∀ q, q ≠ p → mview m' q = mview m q) ∧ (∀ q, kind_of <$> mview m' q = kind_of <$> mview m q) ∧
  (mview m' p = mview m p ∨ ∃ s, mview m' p = Some (NAttr s) ∧ attr_text s = TrimSpace v)) m.
Proof.
  intros Hm. unfold wp. cbn. destruct (mview m p) as [[|s|s]|] eqn:E; cbn; try (split_and!; by auto).
  set (m' := mset _ _ m). assert (∀ q, q ≠ p → mview m' q = mview m q) as Hne by (intros; by apply mview_ne).
  assert (mview m' p = Some (NAttr (TrimSpace v +:+ newline))) as Heq by apply mview_eq.
  assert (∀ q, kind_of <$> mview m' q = kind_of <$> mview m q) as Hk.
  { intros q. destruct (decide (q = p)) as [->|]; [by rewrite Heq, E|by rewrite Hne]. }
  split_and!; [|done|done|right; eexists; split; [exact Heq|apply attr_text_newline]]. split.
  - intros q x Hq. destruct (decide (q = p)) as [->|Hn]; [|rewrite Hne by done].
    + exfalso. assert (mview m (p ++ [x]) ≠ None) as Hx by (intros Hn; specialize (Hk (p ++ [x])); rewrite Hn in Hk; by destruct (mview m' (p ++ [x]))).
      apply (mi_tree _ Hm) in Hx. congruence.
    + apply (mi_tree _ Hm _ x). intros Hx. specialize (Hk (q ++ [x])). rewrite Hx in Hk. by destruct (mview m' (q ++ [x])).
  - intros q n Hq. destruct (decide (q = p)) as [->|Hn]; [by apply (mi_plain _ Hm _ (NAttr s))|rewrite Hne in Hq by done; by eapply mi_plain].
  - destruct (decide ([] = p)) as [<-|Hn]; [|rewrite Hne by done; apply Hm]. rewrite (mi_root _ Hm) in E. done.
Qed.
Lemma mem_Symlink old new m : mem_inv m → wp (Symlink old new) (λ r m', mem_inv m' ∧
  match r with
  | Ok _ => mview m new = None ∧ (∃ s, mview m' new = Some (NLink s) ∧ resolvedLinkTarget new s = old) ∧
      ∀ q, q ≠ new → mview m' q = mview m q
  | Err _ => m' = m
  end) m.
Proof.
  intros Hm. unfold wp. cbn. destruct (forallb plain_name old && forallb plain_name new) eqn:Hpl; [|done]. cbn.
  apply andb_true_iff in Hpl as [Ho Hn]. destruct (mview m new) eqn:E; [done|]. destruct (is_dir m (removelast new)) eqn:Ed; [|done]. cbn.
  destruct (mem_parent _ _ Hm Ed E) as (d&x&->&Hd). set (m' := mset _ _ m).
  assert (∀ q, q ≠ d ++ [x] → mview m' q = mview m q) as Hne by (intros; by apply mview_ne).
  assert (mview m' (d ++ [x]) = Some (NLink (path_string old))) as Heq by apply mview_eq.
  assert (∀ q n, mview m q = Some n → mview m' q = Some n) as Hk by (intros q n Hq; rewrite Hne; [done|by intros ->; congruence]).
  split; [|split_and!; [done|eexists; split; [exact Heq|by apply resolve_path_string]|done]]. split.
  - intros q y Hq. destruct (decide (q ++ [y] = d ++ [x])) as [[-> _]%app_inj_tail|Hn']; [by apply Hk|].
    rewrite Hne in Hq by done. by apply Hk, (mi_tree _ Hm _ y).
  - intros q n Hq. destruct (decide (q = d ++ [x])) as [->|Hn']; [done|]. rewrite Hne in Hq by done. by eapply mi_plain.
  - apply Hk, Hm.
Qed.
Lemma mem_Unlink p m : mem_inv m → wp (Unlink p) (λ r m', mem_inv m' ∧
  match r with Ok _ => mview m' p = None ∧ ∀ q, q ≠ p → mview m' q = mview m q | Err _ => m' = m end) m.
Proof.
  intros Hm. unfold wp. cbn. destruct (mview m p) as [[]|] eqn:E; try done. cbn.
  split; [|split; [by rewrite mview_delete, decide_True|intros q Hq; by rewrite mview_delete, decide_False]]. split.
  - intros q x. rewrite !mview_delete. case_decide as H1; [done|]. intros Hq%(mi_tree _ Hm). rewrite decide_False; [done|]. intros ->. congruence.
  - intros q n. rewrite mview_delete. case_decide; [done|]. apply (mi_plain _ Hm).
  - rewrite mview_delete, decide_False; [apply Hm|]. intros <-. by rewrite (mi_root _ Hm) in E.
Qed.

#[export] Program Instance Mem_laws : FSLaws Mem := {| view := mview; fs_inv := mem_inv |}.
Next Obligation. intros m p x Hm. apply (mi_tree _ Hm). Qed.
Next Obligation. intros p m Hm. unfold wp. cbn. destruct (mview m p) eqn:E; cbn; by rewrite ?E. Qed.
Next Obligation. intros p m Hm. unfold wp. cbn. destruct (mview m p) as [[]|] eqn:E; cbn; by rewrite ?E. Qed.
Next Obligation. intros p m Hm. unfold wp. cbn. destruct (mview m p) as [[]|] eqn:E; cbn; by rewrite ?E. Qed.
Next Obligation.
  intros p m Hm. unfold wp. cbn. destruct (mview m p) as [[]|] eqn:E; cbn; rewrite ?E; try done.
  split_and!; [done..|]. intros. apply mem_entries.
Qed.
Next Obligation.
  intros p m Hm. eapply wp_mono; [by apply mem_Mkdir|]. intros [] m'; cbn; [done|]. intros [? ->]. done.
Qed.
Next Obligation. intros p m Hm. eapply wp_mono; [by apply mem_Rmdir|]. intros [] m'; cbn; [done|]. intros [? ->]. done. Qed.
Next Obligation. intros p v m Hm. eapply wp_mono; [by apply mem_WriteFile|]. intros r m' (?&?&?&?). split_and!; auto. Qed.
Next Obligation.
  intros old new m Hm. eapply wp_mono; [by apply mem_Symlink|]. intros [] m'; cbn; [|by intros [? ->]].
  intros (?&?&?&Hne). split_and!; [done..| |]; intros; by rewrite Hne.
Qed.
Next Obligation. intros p m Hm. eapply wp_mono; [by apply mem_Unlink|]. intros [] m'; cbn; [done|]. intros [? ->]. done. Qed.

#[export] Instance Mem_remove : RemoveLaws Mem.
Proof.
  split; intros p m _; unfold wp; cbn; destruct (mview m p) as [[]|] eqn:E; cbn; rewrite ?E; try done.
  by destruct (_ && _).
Qed.

(** ** A loaded nvmet *)

Definition nvmet_loaded : list path :=
  [[]; ["sys"]; ["sys"; "kernel"]; ["sys"; "kernel"; "config"]; ["sys"; "kernel"; "config"; "nvmet"];
   ["sys"; "kernel"; "config"; "nvmet"; "subsystems"]; ["sys"; "kernel"; "config"; "nvmet"; "hosts"];
   ["sys"; "kernel"; "config"; "nvmet"; "ports"]].
Definition freshMem : Mem := foldr (λ p, mset p NDir) ∅ nvmet_loaded.

(** The invariant, as a test. *)
Definition mem_check (m : Mem) : bool :=
  bool_decide (mview m ([] : path) = Some NDir) &&
  forallb (λ e : path * node, forallb plain_name e.1 && (bool_decide (e.1 = []) || is_dir m (removelast e.1))) (map_to_list m).
#[local] Transparent mview.
Lemma mem_check_sound m : mem_check m = true → mem_inv m.
Proof.
  unfold mem_check. intros [Hr Hf]%andb_true_iff. rewrite bool_decide_eq_true in Hr.
  assert (∀ p n, mview m p = Some n → forallb plain_name p = true ∧ (p = [] ∨ mview m (removelast p) = Some NDir)) as Hall.
  { intros p n Hp'. assert ((p, n) ∈ map_to_list m) as Hp by (by apply elem_of_map_to_list). rewrite forallb_forall in Hf. apply list_elem_of_In in Hp.
    apply Hf in Hp as [Hpl Hd]%andb_true_iff. split; [done|]. apply orb_true_iff in Hd as [Hd|Hd]; apply bool_decide_eq_true in Hd; auto. }
  split; [|by intros p n []%Hall|done]. intros p x Hp. destruct (mview m (p ++ [x])) as [n|] eqn:E; [|done].
  destruct (Hall _ _ E) as [_ [Hn|Hd]]; [by apply app_eq_nil in Hn as []|by rewrite removelast_last in Hd].
Qed.
Lemma freshMem_inv : mem_inv freshMem.
Proof. apply mem_check_sound. vm_compute. reflexivity. Qed.

(** ** A kernel beside other state *)

Section Beside.
Context {K D : Type} `{FSLaws K}.
Definition beside {E A} (m : M K E A) : M (K * D) E A := λ '(k, d), let '(r, k') := m k in (r, (k', d)).
#[local] Instance Beside_FS : FS (K * D) := {|
  Mkdir p := beside (Mkdir p); Rmdir p := beside (Rmdir p); WriteFile p v := beside (WriteFile p v); ReadFile p := beside (ReadFile p);
  Symlink p q := beside (Symlink p q); Readlink p := beside (Readlink p); Unlink p := beside (Unlink p); Lstat p := beside (Lstat p);
  ReadDir p := beside (ReadDir p) |}.
Lemma wp_beside {E A} (m : M K E A) (Q : result E A → K → Prop) (Q' : result E A → K * D → Prop) k d :
  wp m Q k → (∀ r k', Q r k' → Q' r (k', d)) → wp (beside m) Q' (k, d).
Proof. intros Hm HQ. unfold wp, beside in *. destruct (m k). by apply HQ. Qed.
#[local] Program Instance Beside_laws : FSLaws (K * D) := {| view s := view s.1; fs_inv s := fs_inv s.1 |}.
Next Obligation. intros [k d] p x. apply law_tree. Qed.
Next Obligation. intros p [k d] Hi. eapply wp_beside; [by apply law_Lstat|]. by intros []. Qed.
Next Obligation. intros p [k d] Hi. eapply wp_beside; [by apply law_ReadFile|]. by intros []. Qed.
Next Obligation. intros p [k d] Hi. eapply wp_beside; [by apply law_Readlink|]. by intros []. Qed.
Next Obligation. intros p [k d] Hi. eapply wp_beside; [by apply law_ReadDir|]. by intros []. Qed.
Next Obligation. intros p [k d] Hi. eapply wp_beside; [by apply law_Mkdir|]. by intros []. Qed.
Next Obligation. intros p [k d] Hi. eapply wp_beside; [by apply law_Rmdir|]. by intros []. Qed.
Next Obligation. intros p v [k d] Hi. eapply wp_beside; [by apply law_WriteFile|]. by intros []. Qed.
Next Obligation. intros p q [k d] Hi. eapply wp_beside; [by apply law_Symlink|]. by intros []. Qed.
Next Obligation. intros p [k d] Hi. eapply wp_beside; [by apply law_Unlink|]. by intros []. Qed.
End Beside.
