(* ===== verification/NvmeAgent.v ===== *)
(** * The NVMe-oF TCP protocol handler (internal/agent/protocol_handler.go)

    [NVMeoFTCPAgentHandler]'s Export, Unexport, AllowInitiator, DenyInitiator,
    SetLocalAttach and Reconcile: the nvmet operations of one volume's target,
    each inside the volume's fenced section; and the identity records of
    nvme_identity.go.  Target locks and spans are left out, as for iSCSI.

    Identity records are files of the agent's state directory.  [IdStore]
    gives access to it in the agent's backend state: as for the fencing marks,
    [id_live] is the directory as running processes see it, [id_synced] as of
    its last fsync, and the outcome of every call that can fail comes from
    [id_faults].  A file holds the JSON text of a record or other bytes. *)
From stdpp Require Import base numbers list strings gmap pretty.
From Stdlib Require Import Ascii.
From S2P Require Import Prelude GoStd GoNet FencingMark FencingStore Backend Fencing AgentServer IscsiAgent.
From S2P Require Import LioFs NvmetTarget.
Open Scope Z_scope.

(** ** Identity records (nvme_identity.go) *)

Record identityRecord := { ir_VolumeUID : string; ir_Identity : Identity }.
#[export] Instance identityRecord_eq_dec : EqDecision identityRecord.
Proof. solve_decision. Defined.
Inductive idFile := IDRecord (r : identityRecord) | IDGarbage.

(** The directory nvmet-identity of the state directory. *)
Record idDisk := {
  id_stateDir : bool;
  id_live : gmap string idFile;
  id_synced : gmap string idFile;
  id_dirSynced : bool;
  id_faults : list bool;
}.
Class IdStore (B : Type) := { ids : B → idDisk; set_ids : idDisk → B → B }.

(** The file of a volume in the directory. *)
Definition identityRecordName (volumeID : string) : string := TrimSuffix (fencingFilename volumeID) fencingSuffix +:+ ".json".

Section Records.
Context {B : Type} `{IdStore B}.
Abbreviation Op := (M B go_error).

Definition on_ids (f : idDisk → idDisk) : Op unit := modify (λ b, set_ids (f (ids b)) b).
(** The next call that can fail. *)
Definition idcall : Op bool := λ b,
  match id_faults (ids b) with
  | [] => (Ok false, b)
  | f :: fs =>
      let d := ids b in
      (Ok f, set_ids {| id_stateDir := id_stateDir d; id_live := id_live d; id_synced := id_synced d;
                        id_dirSynced := id_dirSynced d; id_faults := fs |} b)
  end.
Definition set_idlive (l : gmap string idFile) (d : idDisk) : idDisk := {|
  id_stateDir := id_stateDir d; id_live := l; id_synced := id_synced d; id_dirSynced := id_dirSynced d; id_faults := id_faults d |}.

(** [openStateRoot(identityDirName)] *)
Definition openIdentityRoot : Op unit :=
  f ← idcall;
  if f : bool then throw (EStatus Internal "create agent state dir")
  else
    on_ids (λ d, {| id_stateDir := true; id_live := id_live d; id_synced := id_synced d; id_dirSynced := id_dirSynced d;
                    id_faults := id_faults d |}) ;;
    f ← idcall;
    if f : bool then throw (EStatus Internal "open agent state dir")
    else
      f ← idcall;
      if f : bool then throw (EStatus Internal "create nvmet-identity dir") else mret tt.

(** [syncStateDirs(root, identityDirName)] *)
Definition syncIdentity (effect : idDisk → idDisk) : Op unit :=
  f ← idcall;
  if f : bool then throw (EStatus Internal "open for fsync")
  else
    syncFails ← idcall;
    (if syncFails : bool then mret tt else on_ids effect) ;;
    closeFails ← idcall;
    if orb syncFails closeFails then throw (EStatus Internal "fsync") else mret tt.
Definition syncIdentityDirs : Op unit :=
  syncIdentity (λ d, {| id_stateDir := id_stateDir d; id_live := id_live d; id_synced := id_live d; id_dirSynced := id_dirSynced d;
                        id_faults := id_faults d |}) ;;
  syncIdentity (λ d, {| id_stateDir := id_stateDir d; id_live := id_live d; id_synced := id_synced d; id_dirSynced := true;
                        id_faults := id_faults d |}).

(** [writeFileSynced] *)
Definition writeIdentitySynced (name : string) (r : identityRecord) : Op unit :=
  f ← idcall;
  if f : bool then throw (EPlain "open")
  else
    writeFails ← idcall;
    syncFails ← idcall;
    closeFails ← idcall;
    on_ids (λ d, set_idlive (<[name := if orb writeFails syncFails then IDGarbage else IDRecord r]> (id_live d)) d) ;;
    if orb (orb writeFails syncFails) closeFails then throw (EPlain "write/sync/close") else mret tt.

Definition renameIdentity (tmp name : string) : Op unit :=
  f ← idcall;
  if f : bool then throw (EPlain "rename")
  else
    d ← reads ids;
    match id_live d !! tmp with
    | None => throw (EPlain "rename")
    | Some c => on_ids (λ d, set_idlive (<[name := c]> (delete tmp (id_live d))) d)
    end.

Definition writeIdentityRecord (volumeID : string) (record : identityRecord) : Op unit :=
  openIdentityRoot ;;
  let name := identityRecordName volumeID in
  let tmp := name +:+ ".tmp" in
  map_err (λ _, EStatus Internal "write NVMe identity record") (writeIdentitySynced tmp record) ;;
  map_err (λ _, EStatus Internal "rename NVMe identity record") (renameIdentity tmp name) ;;
  syncIdentityDirs.

Definition removeIdentityRecord (volumeID : string) : Op unit :=
  f ← idcall;
  if f : bool then throw (EStatus Internal "open agent state dir")
  else
    d ← reads ids;
    if negb (id_stateDir d) then mret tt
    else
      f ← idcall;
      if f : bool then throw (EStatus Internal "remove NVMe identity record")
      else
        let name := identityRecordName volumeID in
        match id_live d !! name with
        | None => mret tt
        | Some _ => on_ids (λ d, set_idlive (delete name (id_live d)) d) ;; syncIdentityDirs
        end.

Context (uuid_String : string → option string) (NewSHA1 : string → string).

Definition zeroRecord : identityRecord := {| ir_VolumeUID := ""; ir_Identity := zeroIdentity |}.
Definition readIdentityRecord (volumeID : string) : Op (identityRecord * bool) :=
  f ← idcall;
  if f : bool then throw (EStatus Internal "open agent state dir")
  else
    d ← reads ids;
    if negb (id_stateDir d) then mret (zeroRecord, false)
    else
      f ← idcall;
      if f : bool then throw (EStatus Internal "read NVMe identity record")
      else
        match id_live d !! identityRecordName volumeID with
        | None => mret (zeroRecord, false)
        | Some IDGarbage => throw (EStatus Internal "corrupt NVMe identity record")
        | Some (IDRecord r) =>
            if decide (ir_VolumeUID r = "") then throw (EStatus Internal "corrupt NVMe identity record")
            else match Validate uuid_String (ir_Identity r) with
                 | Err _ => throw (EStatus Internal "corrupt NVMe identity record")
                 | Ok _ => mret (r, true)
                 end
        end.

(** An identity with the non-empty parts of [live] in it. *)
Definition adoptLive (want live : Identity) : Identity := {|
  id_UUID := if decide (id_UUID live = "") then id_UUID want else id_UUID live;
  id_NGUID := if decide (id_NGUID live = "") then id_NGUID want else id_NGUID live;
  id_Serial := if decide (id_Serial live = "") then id_Serial want else id_Serial live |}.

Definition resolveNVMeIdentity `{FS B} (volumeID : string) (fence : option FencingToken) (target : NvmetTarget) : Op Identity :=
  let derived := DeriveIdentity NewSHA1 (SubsystemNQN target) (NamespaceID target) in
  r ← readIdentityRecord volumeID;
  let '(record, exists_) := r : identityRecord * bool in
  let want := if exists_ && bool_decide (ir_VolumeUID record = GetVolumeUid fence) then ir_Identity record else derived in
  live ← map_err (λ _, EStatus Internal "read live NVMe identity") (LiveIdentity target);
  let want := adoptLive want live in
  map_err (λ _, EStatus Internal "NVMe identity") (lift (Validate uuid_String want)) ;;
  let mine := {| ir_VolumeUID := GetVolumeUid fence; ir_Identity := want |} in
  (if bool_decide (want = derived) && exists_ then removeIdentityRecord volumeID
   else if negb (bool_decide (want = derived)) && (negb exists_ || negb (bool_decide (record = mine)))
   then writeIdentityRecord volumeID mine
   else mret tt) ;;
  mret want.
End Records.

(** ** Parameters *)

Definition nvmeofInlineDataSize (protocolParams : ProtocolParams) : option Z :=
  match GetNvmeofTcp protocolParams with
  | Some p => if np_InCapsuleDataSize p =? 0 then None else Some (np_InCapsuleDataSize p)
  | None => None
  end.
Definition nvmeofMaxDataTransferSize (protocolParams : ProtocolParams) : option Z :=
  GetNvmeofTcp protocolParams ≫= np_MaxDataTransferSize.

Definition nvmeofPortParams (protocolParams : ProtocolParams) : GoResult (option Z * option Z) :=
  let inlineDataSize := nvmeofInlineDataSize protocolParams in
  if match inlineDataSize with Some v => v <? MinInlineDataSize | None => false end then
    Err (EStatus InvalidArgument "Export: in_capsule_data_size is below the minimum")
  else
    let maxDataTransferSize := nvmeofMaxDataTransferSize protocolParams in
    if negb (valid_size maxDataTransferSize) then Err (EStatus InvalidArgument "Export: max_data_transfer_size")
    else Ok (inlineDataSize, maxDataTransferSize).

Definition nvmeofEndpoint (bindAddress : string) (port : Z) (protocolParams : ProtocolParams) : GoResult (string * Z) :=
  match GetNvmeofTcp protocolParams with
  | Some p => Ok (np_BindAddress p, np_Port p)
  | None =>
      if bool_decide (bindAddress = "") && (port =? 0) then
        Err (EStatus InvalidArgument "nvmeofEndpoint: nvmeof_tcp export params required")
      else Ok (bindAddress, port)
  end.

(** [localAttachStatus] *)
Definition localAttachStatus (e : go_error) : go_error :=
  if decide (e = ErrNamespaceNotFound) then EStatus NotFound "SetLocalAttach: not exported"
  else if decide (e = ErrDeviceHeld) then EStatus FailedPrecondition "SetLocalAttach"
  else EStatus Internal "SetLocalAttach".
(** The status of an error of [Apply]. *)
Definition applyStatus (e : go_error) : go_error :=
  if decide (e ∈ [ErrPortInlineDataSizeConflict; ErrPortMDTSConflict; ErrDeviceHeld]) then EStatus FailedPrecondition "ExportVolume"
  else EStatus Internal "ExportVolume".

Definition set_Identity (t : NvmetTarget) (id : Identity) : NvmetTarget := {|
  ConfigfsRoot := ConfigfsRoot t; SubsystemNQN := SubsystemNQN t; NamespaceID := NamespaceID t; DevicePath := DevicePath t;
  BindAddress := BindAddress t; Port := Port t; AllowedHosts := AllowedHosts t; ACLEnabled := ACLEnabled t;
  InlineDataSize := InlineDataSize t; MaxDataTransferSize := MaxDataTransferSize t; PortMDTSFloor := PortMDTSFloor t;
  TargetIdentity := id; LocalAttach := LocalAttach t |}.
Definition set_PortMDTSFloor (t : NvmetTarget) (floor : option Z) : NvmetTarget := {|
  ConfigfsRoot := ConfigfsRoot t; SubsystemNQN := SubsystemNQN t; NamespaceID := NamespaceID t; DevicePath := DevicePath t;
  BindAddress := BindAddress t; Port := Port t; AllowedHosts := AllowedHosts t; ACLEnabled := ACLEnabled t;
  InlineDataSize := InlineDataSize t; MaxDataTransferSize := MaxDataTransferSize t; PortMDTSFloor := floor;
  TargetIdentity := TargetIdentity t; LocalAttach := LocalAttach t |}.

(** ** Limits of shared ports *)

Definition endpointKey (t : NvmetTarget) : string * Z := (BindAddress t, if Port t =? 0 then DefaultPort else Port t).
(** One step of the loop that collects the floors. *)
Definition addFloor (floors : gmap (string * Z) Z) (t : NvmetTarget) : gmap (string * Z) Z :=
  match MaxDataTransferSize t with
  | None => floors
  | Some size =>
      if (size =? 0) || negb (ValidMaxDataTransferSize size) then floors
      else match floors !! endpointKey t with
           | Some cur => if size <? cur then <[endpointKey t := size]> floors else floors
           | None => <[endpointKey t := size]> floors
           end
  end.
Definition applyFloor (floors : gmap (string * Z) Z) (t : NvmetTarget) : NvmetTarget :=
  match floors !! endpointKey t with
  | Some floor => set_PortMDTSFloor t (Some floor)
  | None => t
  end.
(** [setPortMDTSFloors], with the targets that are nil as errors. *)
Definition setPortMDTSFloors (targets : list (GoResult NvmetTarget)) : list (GoResult NvmetTarget) :=
  let floors := foldl (λ f t, match t with Ok t => addFloor f t | Err _ => f end) ∅ targets in
  map (λ t, match t with Ok t => Ok (applyFloor floors t) | Err e => Err e end) targets.

(** ** The handler *)
Section Handler.
Context {B P C : Type} `{FS B} `{IdStore B} (s : Server B P) (deps : IscsiDeps B C).
Context (uuid_String : string → option string) (NewSHA1 : string → string) (order : list (string * string) → list (string * string)).
Abbreviation NvmetApply := (Apply (deviceClaimer deps) (releaseClaim deps) uuid_String NewSHA1 order).
Abbreviation NvmetPrepare := (Prepare (deviceClaimer deps) (releaseClaim deps) uuid_String NewSHA1).
Abbreviation resolveIdentity := (resolveNVMeIdentity uuid_String NewSHA1).

Definition nvmeVolumeRef : string := "1".

(** [targetForVolume] of the handler: the target with its name only. *)
Definition nvmeTarget (volumeID : string) : GoResult NvmetTarget :=
  targetID ← volumeTargetID PROTOCOL_TYPE_NVMEOF_TCP volumeID;
  Ok {| ConfigfsRoot := configfsRoot s; SubsystemNQN := targetID; NamespaceID := 1; DevicePath := ""; BindAddress := "";
        Port := 0; AllowedHosts := []; ACLEnabled := false; InlineDataSize := None; MaxDataTransferSize := None;
        PortMDTSFloor := None; TargetIdentity := zeroIdentity; LocalAttach := false |}.

(** The closure of [Export]. *)
Definition exportTarget (volumeID : string) (fence : option FencingToken) (target : NvmetTarget) : M B go_error unit :=
  identity ← resolveIdentity volumeID fence target;
  map_err applyStatus (NvmetApply (set_Identity target identity)).

(** [NVMeoFTCPAgentHandler.Export] *)
Definition nvme_Export (params : ExportParams P) : Agent B ExportResult :=
  endpoint ← map_err (λ _, EStatus InvalidArgument "Export: nvmeof_tcp export params required")
               (lift (nvmeofEndpoint (xp_BindAddress params) (xp_Port params) (xp_ProtocolParams params)));
  let '(bindAddress, port) := endpoint : string * Z in
  sizes ← lift (nvmeofPortParams (xp_ProtocolParams params));
  let '(inlineDataSize, maxDataTransferSize) := sizes : option Z * option Z in
  devicePath ← lift (resolveExportDevicePath s (xp_VolumeID params) (xp_DevicePath params));
  backend_op (waitForDeviceReady s deps devicePath) ;;
  targetID ← lift (volumeTargetID PROTOCOL_TYPE_NVMEOF_TCP (xp_VolumeID params));
  let target := {|
    ConfigfsRoot := configfsRoot s; SubsystemNQN := targetID; NamespaceID := 1; DevicePath := devicePath;
    BindAddress := bindAddress; Port := port; AllowedHosts := []; ACLEnabled := xp_ACLEnabled params;
    InlineDataSize := inlineDataSize; MaxDataTransferSize := maxDataTransferSize; PortMDTSFloor := None;
    TargetIdentity := zeroIdentity; LocalAttach := false |} in
  fenced s (xp_VolumeID params) (xp_Fence params) fenceGrant tt (exportTarget (xp_VolumeID params) (xp_Fence params) target) ;;
  mret {| xr_TargetID := targetID; xr_Address := bindAddress; xr_Port := if port =? 0 then DefaultPort else port;
          xr_VolumeRef := nvmeVolumeRef |}.

(** [NVMeoFTCPAgentHandler.Unexport] *)
Definition nvme_Unexport (volumeID : string) (fence : option FencingToken) : Agent B unit :=
  target ← lift (nvmeTarget volumeID);
  fenced s volumeID fence fenceRevoke tt
    (map_err (λ _, EStatus Internal "UnexportVolume") (Remove target) ;; removeIdentityRecord volumeID).

(** [NVMeoFTCPAgentHandler.AllowInitiator], [DenyInitiator] *)
Definition nvme_AllowInitiator (volumeID initiatorID : string) (_ : ProtocolParams) (fence : option FencingToken) : Agent B unit :=
  target ← lift (nvmeTarget volumeID);
  fenced s volumeID fence fenceGrant tt (map_err (λ _, EStatus Internal "AllowInitiator") (AllowHost target initiatorID)).
Definition nvme_DenyInitiator (volumeID initiatorID : string) (fence : option FencingToken) : Agent B unit :=
  target ← lift (nvmeTarget volumeID);
  fenced s volumeID fence fenceRevoke tt (map_err (λ _, EStatus Internal "DenyInitiator") (DenyHost target initiatorID)).

(** [NVMeoFTCPAgentHandler.SetLocalAttach] *)
Definition nvme_SetLocalAttach (volumeID : string) (local : bool) (fence : option FencingToken) : Agent B string :=
  target ← lift (nvmeTarget volumeID);
  fenced s volumeID fence fenceGrant ""%string
    (map_err localAttachStatus
       (if local then DisableNamespace target
        else EnableNamespace (deviceClaimer deps) (releaseClaim deps) target ;; mret ""%string)).

(** *** Reconcile *)

(** [NVMeoFTCPAgentHandler.reconcileTarget] *)
Definition nvmeReconcileTarget (export : ExportDesiredState P) : GoResult NvmetTarget :=
  endpoint ← nvmeofEndpoint (ds_BindAddress export) (ds_Port export) (ds_ProtocolParams export);
  let '(bindAddress, port) := endpoint : string * Z in
  devicePath ← resolveExportDevicePath s (ds_VolumeID export) (ds_DevicePath export);
  targetID ← volumeTargetID PROTOCOL_TYPE_NVMEOF_TCP (ds_VolumeID export);
  Ok {|
    ConfigfsRoot := configfsRoot s; SubsystemNQN := targetID; NamespaceID := 1; DevicePath := devicePath;
    BindAddress := bindAddress; Port := port;
    AllowedHosts := if ds_ACLEnabled export then ds_AllowedInitiators export else [];
    ACLEnabled := ds_ACLEnabled export; InlineDataSize := nvmeofInlineDataSize (ds_ProtocolParams export);
    MaxDataTransferSize := nvmeofMaxDataTransferSize (ds_ProtocolParams export); PortMDTSFloor := None;
    TargetIdentity := zeroIdentity; LocalAttach := ds_LocalAttach export |}.

(** The closure of [prepareExport]. *)
Definition prepareNvme (export : ExportDesiredState P) (target : NvmetTarget) : M B go_error PreparedTarget :=
  waitForDeviceReady s deps (DevicePath target) ;;
  identity ← resolveIdentity (ds_VolumeID export) (ds_Fence export) target;
  prepared ← NvmetPrepare (set_Identity target identity);
  (if ds_ACLEnabled export then RevokeHostsExcept target (ds_AllowedInitiators export) else mret tt) ;;
  mret prepared.

Definition zeroPrepared (target : NvmetTarget) : PreparedTarget := {|
  pt_target := target; pt_identity := zeroIdentity;
  pt_port := {| sp_id := 0; sp_attrs := []; sp_inlineDataSize := None; sp_maxDataTransferSize := None; sp_mdtsFloor := None |} |}.

(** An entry on its way: what was prepared, or the error that ended it. *)
Definition prepareNvmeItem (i : ExportDesiredState P * GoResult NvmetTarget) : Agent B (ExportDesiredState P * GoResult PreparedTarget) :=
  match i.2 with
  | Err e => mret (i.1, Err e)
  | Ok target =>
      r ← try (fenced s (ds_VolumeID i.1) (ds_Fence i.1) fenceGrant (zeroPrepared target) (prepareNvme i.1 target));
      mret (i.1, r)
  end.
Definition linkNvmeItem (i : ExportDesiredState P * GoResult PreparedTarget) : Agent B (option go_error) :=
  match i.2 with
  | Err e => mret (Some e)
  | Ok prepared =>
      r ← try (recheckFence s (ds_VolumeID i.1) (ds_Fence i.1) fenceGrant (Link order prepared));
      mret (match r with Ok _ => None | Err e => Some e end)
  end.

(** [NVMeoFTCPAgentHandler.Reconcile] *)
Definition nvmeItems (desired : list (ExportDesiredState P)) : list (ExportDesiredState P * GoResult NvmetTarget) :=
  zip desired (setPortMDTSFloors (map nvmeReconcileTarget desired)).
Definition nvme_Reconcile (desired : list (ExportDesiredState P)) : Agent B (list (option go_error)) :=
  prepared ← map_each prepareNvmeItem (nvmeItems desired);
  map_each linkNvmeItem prepared.

Definition nvme_handler : AgentProtocolHandler B P := {|
  Export_ := nvme_Export; Unexport := nvme_Unexport; AllowInitiator := nvme_AllowInitiator;
  DenyInitiator := nvme_DenyInitiator; SetLocalAttach := nvme_SetLocalAttach; Reconcile := nvme_Reconcile |}.
End Handler.
