(* ===== verification/NvmeAgentCorrect.v ===== *)
(** * Correctness of the NVMe-oF TCP handler

    The limits of shared ports, the identities of volumes, and the two phases
    of [Reconcile]. *)
From stdpp Require Import base numbers list strings gmap pretty relations.
From Stdlib Require Import Ascii.
From S2P Require Import Prelude GoStd GoNet GoNetip FencingMark FencingStore Backend Fencing FencingCorrect AgentServer IscsiAgent.
From S2P Require Import LioFs LioLaws ConfigfsEffects NvmetTarget NvmetLaws NvmetCorrect NvmetPorts NvmetServing NvmetIsolation NvmeAgent.
Open Scope Z_scope.

(** ** Limits of shared ports *)

Definition counted (t : NvmetTarget) (size : Z) : Prop :=
  MaxDataTransferSize t = Some size ∧ size ≠ 0 ∧ ValidMaxDataTransferSize size = true.

(** The smallest limit the targets ask of a port, if any does. *)
Definition floor_is (l : list NvmetTarget) (key : string * Z) (o : option Z) : Prop :=
  match o with
  | Some floor => (∃ t, t ∈ l ∧ endpointKey t = key ∧ counted t floor) ∧ ∀ t size, t ∈ l → endpointKey t = key → counted t size → floor ≤ size
  | None => ∀ t size, t ∈ l → endpointKey t = key → ¬ counted t size
  end.
Definition floors_of (l : list NvmetTarget) (f : gmap (string * Z) Z) : Prop := ∀ key, floor_is l key (f !! key).

Lemma counted_uniq t size size' : counted t size → counted t size' → size' = size.
Proof. intros (?&_) (?&_). congruence. Qed.
Lemma floor_skip l key o t : floor_is l key o →
  (∀ size, endpointKey t = key → counted t size → ∃ floor, o = Some floor ∧ floor ≤ size) → floor_is (l ++ [t]) key o.
Proof.
  intros Hf Ht. destruct o as [floor|]; cbn in *.
  - destruct Hf as [(t'&Hin&Hk&Hc) Hle]. split; [exists t'; split; [set_solver|done]|].
    intros t1 size [Hin1|Hin1]%elem_of_app Hk1 Hc1; [by eapply Hle|]. apply list_elem_of_singleton in Hin1 as ->.
    destruct (Ht _ Hk1 Hc1) as (?&[= <-]&?). done.
  - intros t1 size [Hin1|Hin1]%elem_of_app Hk1 Hc1; [by eapply Hf|]. apply list_elem_of_singleton in Hin1 as ->.
    destruct (Ht _ Hk1 Hc1) as (?&?&?). done.
Qed.
Lemma floor_new l key o t size : floor_is l key o → endpointKey t = key → counted t size →
  (∀ cur, o = Some cur → size < cur) → floor_is (l ++ [t]) key (Some size).
Proof.
  intros Hf Hk Hc Hlt. cbn. split; [exists t; split; [set_solver|done]|]. intros t1 s1 [Hin|Hin]%elem_of_app Hk1 Hc1.
  - destruct o as [cur|]; cbn in Hf; [|by destruct (Hf _ _ Hin Hk1 Hc1)]. destruct Hf as [_ Hle]. specialize (Hle _ _ Hin Hk1 Hc1).
    specialize (Hlt _ eq_refl). lia.
  - apply list_elem_of_singleton in Hin as ->. rewrite (counted_uniq _ _ _ Hc Hc1). lia.
Qed.

Lemma addFloor_floors l f t : floors_of l f → floors_of (l ++ [t]) (addFloor f t).
Proof.
  intros Hf key. specialize (Hf key). unfold addFloor. destruct (MaxDataTransferSize t) as [size|] eqn:Em.
  2: { apply floor_skip; [done|]. intros ? _ [? _]. congruence. }
  destruct ((size =? 0) || negb (ValidMaxDataTransferSize size)) eqn:Eb.
  { apply floor_skip; [done|]. intros ? _ (?&Hne&Hv). simplify_eq. apply orb_true_iff in Eb as [?%Z.eqb_eq|Eb]; [done|by rewrite Hv in Eb]. }
  apply orb_false_iff in Eb as [Hne%Z.eqb_neq Hv%negb_false_iff]. assert (counted t size) as Hc by done.
  destruct (decide (endpointKey t = key)) as [Hk|Hk].
  - rewrite Hk. destruct (f !! key) as [cur|] eqn:E; [destruct (Z.ltb_spec size cur)|]; rewrite ?lookup_insert_eq, ?E.
    + eapply floor_new; [exact Hf|done|done|]. by intros ? [= <-].
    + apply floor_skip; [done|]. intros s1 _ Hc1. rewrite (counted_uniq _ _ _ Hc Hc1). eauto.
    + eapply floor_new; [exact Hf|done|done|done].
  - apply floor_skip; [|done]. destruct (f !! endpointKey t) as [cur|]; [destruct (size <? cur)|]; by rewrite ?lookup_insert_ne.
Qed.

Definition oks (l : list (GoResult NvmetTarget)) : list NvmetTarget := omap (λ t, match t with Ok t => Some t | Err _ => None end) l.
Definition collect (l : list (GoResult NvmetTarget)) : gmap (string * Z) Z :=
  foldl (λ f t, match t with Ok t => addFloor f t | Err _ => f end) ∅ l.
Lemma collect_floors l : floors_of (oks l) (collect l).
Proof.
  unfold collect. induction l as [|x l IH] using rev_ind.
  { intros key. cbn. rewrite lookup_empty. by intros t size ?%elem_of_nil. }
  rewrite foldl_app. unfold oks. rewrite omap_app. destruct x as [t|e]; cbn; [by apply addFloor_floors|by rewrite app_nil_r].
Qed.
Lemma setPortMDTSFloors_in l t : Ok t ∈ setPortMDTSFloors l → ∃ t0, t0 ∈ oks l ∧ t = applyFloor (collect l) t0.
Proof.
  unfold setPortMDTSFloors. intros ([t0|e]&Ht&Hin)%list_elem_of_fmap; [|done]. injection Ht as ->. exists t0. split; [|done].
  apply list_elem_of_omap. by exists (Ok t0).
Qed.
Lemma applyFloor_fields f t : MaxDataTransferSize (applyFloor f t) = MaxDataTransferSize t ∧ endpointKey (applyFloor f t) = endpointKey t.
Proof. unfold applyFloor. by destruct (f !! _). Qed.

(** C27: Whichever export of a batch is linked first on a port, the limit it gives
    the port allows every other export of the batch there. *)
Theorem floors_agree targets t1 t2 spec1 spec2 :
  Ok t1 ∈ setPortMDTSFloors targets → Ok t2 ∈ setPortMDTSFloors targets →
  endpointKey t1 = endpointKey t2 → target_portSpec t1 = Ok spec1 → target_portSpec t2 = Ok spec2 →
  linkedPortMDTSAllows spec2 (idlePortMDTS spec1) = Ok tt.
Proof.
  intros (u1&Hu1&->)%setPortMDTSFloors_in (u2&Hu2&->)%setPortMDTSFloors_in Hkey Hs1 Hs2.
  destruct (applyFloor_fields (collect targets) u1) as [Hm1 Hk1]. destruct (applyFloor_fields (collect targets) u2) as [Hm2 Hk2].
  rewrite Hk1, Hk2 in Hkey. destruct (target_portSpec_valid _ _ Hs1) as ([Hv1 Hf1]&_&E1&F1&_).
  destruct (target_portSpec_valid _ _ Hs2) as ([Hv2 _]&_&E2&_). rewrite idlePortMDTS_eq.
  apply linked_allows; [done|by apply idleSize_valid|]. rewrite E2, Hm2.
  unfold size_fits. destruct (MaxDataTransferSize u2) as [r2|] eqn:Er2; [|done]. destruct (Z.eqb_spec r2 0) as [|Hr2]; [done|].
  rewrite E2, Hm2 in Hv2. assert (counted u2 r2) as Hc2 by by split.
  pose proof (collect_floors targets (endpointKey u1)) as Hf. unfold idleSize. rewrite E1, F1, Hm1. unfold applyFloor.
  destruct (collect targets !! endpointKey u1) as [floor|]; cbn in Hf; [|by destruct (Hf u2 r2)].
  destruct Hf as [(t&Ht&Hkt&_&Hfl0&Hfl) Hle]. specialize (Hle u2 r2 Hu2 ltac:(done) Hc2). cbn.
  assert (0 < floor) by (apply valid_cases in Hfl as [|(k&Hk&->)]; [done|apply Z.pow_pos_nonneg; lia]).
  destruct (Z.ltb_spec 0 floor); [|lia]. cbn. apply orb_true_iff. right. apply Z.leb_le.
  destruct (MaxDataTransferSize u1) as [r1|] eqn:Er1; cbn.
  - destruct (Z.eqb_spec r1 0); cbn; [done|]. destruct (Z.ltb_spec floor r1); [done|]. lia.
  - done.
Qed.

(** ** Identities *)

(** The identity records are no part of configfs. *)
Class IdLaws (B : Type) `{FSLaws B, IdStore B} : Prop := {
  ids_set d b : ids (set_ids d b) = d;
  ids_view d b : view (set_ids d b) = view b;
  ids_inv d b : fs_inv b → fs_inv (set_ids d b);
  ids_ReadFile p b : ids (ReadFile p b).2 = ids b;
}.

Section Identities.
Context {B : Type} `{IdLaws B} (uuid_String : string → option string) (NewSHA1 : string → string).
Implicit Types (b : B) (d : idDisk) (v : string) (t : NvmetTarget).

(** The record a process finds, and the one a crash is certain to leave. *)
Definition stored d v : option idFile := if id_stateDir d then id_live d !! identityRecordName v else None.
Definition idDurable d v : option idFile := if id_dirSynced d then id_synced d !! identityRecordName v else None.

(** From [b] to [b'] only the outcomes of calls were used up. *)
Record same_files b b' : Prop := {
  sf_view q : view b' q = view b q;
  sf_inv : fs_inv b → fs_inv b';
  sf_stateDir : id_stateDir (ids b') = id_stateDir (ids b);
  sf_live : id_live (ids b') = id_live (ids b);
  sf_synced : id_synced (ids b') = id_synced (ids b);
  sf_dirSynced : id_dirSynced (ids b') = id_dirSynced (ids b);
}.
Lemma same_files_refl b : same_files b b.
Proof. done. Qed.
Lemma same_files_trans b b1 b2 : same_files b b1 → same_files b1 b2 → same_files b b2.
Proof. intros [] []. split; intros; try congruence; auto. Qed.
Lemma idcall_run b r b' : idcall b = (r, b') → same_files b b' ∧ ∃ f, r = Ok f.
Proof.
  unfold idcall. destruct (id_faults (ids b)) as [|f fs]; intros [= <- <-]; (split; [|eauto]); [done|].
  split; intros; rewrite ?ids_set, ?ids_view; try done. by apply ids_inv.
Qed.

(** The directory after its changes were made durable. *)
Definition synced_as (l : gmap string idFile) b b' : Prop :=
  (∀ q, view b' q = view b q) ∧ id_stateDir (ids b') = id_stateDir (ids b) ∧ id_live (ids b') = l ∧ id_synced (ids b') = l ∧ id_dirSynced (ids b') = true.

Lemma on_ids_run f b r b' : on_ids f b = (r, b') → r = Ok tt ∧ ids b' = f (ids b) ∧ (∀ q, view b' q = view b q).
Proof. unfold on_ids, modify. intros [= <- <-]. rewrite ids_set, ids_view. done. Qed.
Lemma idcall_bind {A} (f : bool → M B go_error A) b r b' : (idcall ≫= f) b = (r, b') → ∃ c b1, same_files b b1 ∧ f c b1 = (r, b').
Proof.
  intros Hr. apply M_bind_inv in Hr as [(c&b1&G1&Hr)|(e&G1&_)]; destruct (idcall_run _ _ _ G1) as [? [? ?]]; [eauto|done].
Qed.
Lemma on_ids_bind {A} g (f : unit → M B go_error A) b r b' : (on_ids g ≫= f) b = (r, b') →
  ∃ b1, ids b1 = g (ids b) ∧ (∀ q, view b1 q = view b q) ∧ f tt b1 = (r, b').
Proof.
  intros Hr. eexists. split_and!; [apply ids_set| |exact Hr]. intros q. by rewrite ids_view.
Qed.
Lemma reads_bind {X A} (g : B → X) (f : X → M B go_error A) b r : (reads g ≫= f) b = r → f (g b) b = r.
Proof. done. Qed.
Lemma step_run {A C} (m : M B go_error A) (f : A → M B go_error C) b c b' : (m ≫= f) b = (Ok c, b') → ∃ a b1, m b = (Ok a, b1) ∧ f a b1 = (Ok c, b').
Proof. intros Hr. apply M_bind_inv in Hr as [(a&b1&?&?)|(?&?&?)]; [eauto|done]. Qed.
Lemma map_err_Ok {A} g (m : M B go_error A) a b b' : map_err g m b = (Ok a, b') → m b = (Ok a, b').
Proof. unfold map_err. intros Hr. apply try_bind in Hr as ([x|e]&b1&Hm&Hr); [|minv]. minv. done. Qed.

Lemma syncIdentity_Ok f b b' : syncIdentity f b = (Ok tt, b') →
  ∃ b1 b2, same_files b b1 ∧ ids b2 = f (ids b1) ∧ (∀ q, view b2 q = view b1 q) ∧ same_files b2 b'.
Proof.
  intros Hr. unfold syncIdentity in Hr. apply idcall_bind in Hr as (f1&b1&S1&Hr). destruct f1; [minv|].
  apply idcall_bind in Hr as (f2&b2&S2&Hr). destruct f2.
  { apply step_run in Hr as ([]&b3&_&Hr). apply idcall_bind in Hr as (f4&b4&_&Hr). by minv. }
  apply on_ids_bind in Hr as (b3&Hi&Hv&Hr). apply idcall_bind in Hr as (f4&b4&S4&Hr). destruct f4; cbn in Hr; [by minv|].
  injection Hr as ->. exists b2, b3. split_and!; [by eapply same_files_trans|done..].
Qed.
Lemma syncIdentityDirs_Ok b b' : syncIdentityDirs b = (Ok tt, b') → synced_as (id_live (ids b)) b b'.
Proof.
  intros Hr. unfold syncIdentityDirs in Hr. apply step_run in Hr as ([]&b1&G1&Hr).
  destruct (syncIdentity_Ok _ _ _ G1) as (c1&c2&[]&Hc&Hv1&[]). destruct (syncIdentity_Ok _ _ _ Hr) as (e1&e2&[]&He&Hv2&[]).
  rewrite Hc in *. rewrite He in *. cbn in *. unfold synced_as. split_and!; intros; congruence.
Qed.

Lemma readIdentityRecord_Ok v r ex b b' : readIdentityRecord uuid_String v b = (Ok (r, ex), b') →
  same_files b b' ∧
  if ex then stored (ids b) v = Some (IDRecord r) ∧ ir_VolumeUID r ≠ "" else stored (ids b) v = None.
Proof.
  intros Hr. unfold readIdentityRecord in Hr. apply idcall_bind in Hr as (f1&b1&S1&Hr). destruct f1; [minv|].
  apply reads_bind in Hr. cbv zeta in Hr.
  rewrite (sf_stateDir _ _ S1), (sf_live _ _ S1) in Hr. unfold stored.
  destruct (id_stateDir (ids b)); cbn in Hr; [|by minv].
  apply idcall_bind in Hr as (f2&b2&S2&Hr). destruct f2; [minv|]. pose proof (same_files_trans _ _ _ S1 S2) as S.
  destruct (id_live (ids b) !! identityRecordName v) as [[rec|]|]; [|minv|by minv].
  case_decide; [minv|]. destruct (Validate _ _); by minv.
Qed.

(** The record was replaced, or removed, and that is durable. *)
Lemma openIdentityRoot_Ok b b' : openIdentityRoot b = (Ok tt, b') → (∀ q, view b' q = view b q) ∧ id_stateDir (ids b') = true.
Proof.
  intros Hr. unfold openIdentityRoot in Hr. apply idcall_bind in Hr as (f1&b1&[]&Hr). destruct f1; [minv|].
  apply on_ids_bind in Hr as (b2&Hi&Hv&Hr). apply idcall_bind in Hr as (f3&b3&[]&Hr). destruct f3; [minv|].
  apply idcall_bind in Hr as (f4&b4&[]&Hr). destruct f4; minv. rewrite Hi in *. cbn in *. split; intros; congruence.
Qed.
Lemma writeIdentitySynced_Ok name r b b' : writeIdentitySynced name r b = (Ok tt, b') →
  (∀ q, view b' q = view b q) ∧ id_stateDir (ids b') = id_stateDir (ids b) ∧ id_live (ids b') !! name = Some (IDRecord r).
Proof.
  intros Hr. unfold writeIdentitySynced in Hr. apply idcall_bind in Hr as (f1&b1&[]&Hr). destruct f1; [minv|].
  apply idcall_bind in Hr as (f2&b2&[]&Hr). apply idcall_bind in Hr as (f3&b3&[]&Hr). apply idcall_bind in Hr as (f4&b4&[]&Hr).
  apply on_ids_bind in Hr as (b5&Hi&Hv&Hr). destruct f2, f3, f4; cbn in Hr; try by minv. injection Hr as <-. rewrite Hi. cbn.
  rewrite lookup_insert_eq. split_and!; intros; congruence.
Qed.
Lemma writeIdentityRecord_Ok v r b b' : writeIdentityRecord v r b = (Ok tt, b') →
  (∀ q, view b' q = view b q) ∧ stored (ids b') v = Some (IDRecord r) ∧ idDurable (ids b') v = Some (IDRecord r).
Proof.
  intros Hr. unfold writeIdentityRecord in Hr. cbv zeta in Hr. apply step_run in Hr as ([]&b1&G1&Hr).
  destruct (openIdentityRoot_Ok _ _ G1) as [Hv1 Hs1]. apply step_run in Hr as ([]&b2&G2&Hr). apply map_err_Ok in G2.
  destruct (writeIdentitySynced_Ok _ _ _ _ G2) as (Hv2&Hs2&Hl2). apply step_run in Hr as ([]&b3&G3&Hr). apply map_err_Ok in G3.
  assert ((∀ q, view b3 q = view b2 q) ∧ id_stateDir (ids b3) = id_stateDir (ids b2) ∧ id_live (ids b3) !! identityRecordName v = Some (IDRecord r)) as (Hv3&Hs3&Hl3).
  { unfold renameIdentity in G3. apply idcall_bind in G3 as (f1&c1&[]&G3). destruct f1; [minv|].
    apply reads_bind in G3. rewrite sf_live0, Hl2 in G3.
    apply on_ids_run in G3 as (_&Hi&Hv). rewrite Hi. cbn. rewrite lookup_insert_eq. split_and!; intros; congruence. }
  destruct (syncIdentityDirs_Ok _ _ Hr) as (Hv&Hs&Hl&Hy&Hd). unfold stored, idDurable. rewrite Hs, Hs3, Hs2, Hs1, Hl, Hy, Hd, Hl3.
  split_and!; [|done|done]. intros; congruence.
Qed.
Lemma removeIdentityRecord_Ok v b b' : removeIdentityRecord v b = (Ok tt, b') →
  (∀ q, view b' q = view b q) ∧ stored (ids b') v = None ∧ (stored (ids b) v ≠ None → idDurable (ids b') v = None).
Proof.
  intros Hr. unfold removeIdentityRecord in Hr. apply idcall_bind in Hr as (f1&b1&S1&Hr). destruct f1; [minv|].
  apply reads_bind in Hr. cbv zeta in Hr. rewrite (sf_stateDir _ _ S1), (sf_live _ _ S1) in Hr. unfold stored.
  destruct (id_stateDir (ids b)) eqn:Es; cbn in Hr.
  2: { injection Hr as <-. rewrite (sf_stateDir _ _ S1), Es. split_and!; [apply S1|done|done]. }
  apply idcall_bind in Hr as (f2&b2&S2&Hr). destruct f2; [minv|]. pose proof (same_files_trans _ _ _ S1 S2) as S.
  destruct (id_live (ids b) !! identityRecordName v) eqn:El.
  2: { injection Hr as <-. rewrite (sf_stateDir _ _ S), (sf_live _ _ S), Es, El. split_and!; [apply S|done|done]. }
  apply on_ids_bind in Hr as (b3&Hi&Hv3&Hr). destruct (syncIdentityDirs_Ok _ _ Hr) as (Hv&Hs&Hl&Hy&Hd).
  unfold idDurable. rewrite Hs, Hl, Hy, Hd, Hi. cbn. rewrite !lookup_delete_eq.
  split_and!; [intros q; rewrite Hv, Hv3; apply S|by case_match|done].
Qed.

Lemma readAttr_ids p x b b' : fs_inv b → readAttr p b = (Ok x, b') → same_files b b' ∧ reads_as b p x.
Proof.
  intros Hi Hr. destruct (readAttr_post _ _ _ _ Hi Hr) as (Hi'&Hv&Hg). split; [|done].
  assert (ids b' = ids b) as E.
  { unfold readAttr in Hr. apply sys_bind in Hr as (r&b1&Hf&Hr). pose proof (ids_ReadFile p b) as E. rewrite Hf in E. cbn in E.
    destruct r as [y|e]; [by minv|]. destruct (IsNotExist e); by minv. }
  split; intros; rewrite ?E, ?Hv; done.
Qed.
Lemma LiveIdentity_Ok t `{!wf_nvmet t} live b b' : fs_inv b → LiveIdentity t b = (Ok live, b') →
  same_files b b' ∧ (view b (subsystemDir t) = None → live = zeroIdentity).
Proof.
  intros Hi Hr. unfold LiveIdentity in Hr. rewrite !joinp_plain in Hr by done.
  assert (∀ p x, view b (subsystemDir t) = None → subsystemDir t `prefix_of` p → reads_as b p x → x = "") as Hgone.
  { intros p x Hn Hp [(y&Hy&_)|[-> _]]; [|done]. by rewrite (view_below _ _ _ Hi Hn Hp) in Hy. }
  assert (∀ a, subsystemDir t `prefix_of` namespaceDir t ++ a) as Hns by (intros; apply prefix_app_r, (namespaceDir_below t)).
  apply step_run in Hr as (serial&b1&G1&Hr). destruct (readAttr_ids _ _ _ _ Hi G1) as [S1 R1].
  apply step_run in Hr as (en&b2&G2&Hr). destruct (readAttr_ids _ _ _ _ (sf_inv _ _ S1 Hi) G2) as [S2 R2].
  pose proof (same_files_trans _ _ _ S1 S2) as S. case_decide as Hen.
  { minv. split; [done|]. intros Hn. by rewrite (Hgone _ _ Hn (prefix_app_r _ _ _ (reflexivity _)) R1). }
  apply step_run in Hr as (uuid&b3&G3&Hr). destruct (readAttr_ids _ _ _ _ (sf_inv _ _ S Hi) G3) as [S3 _].
  pose proof (same_files_trans _ _ _ S S3) as S'. apply step_run in Hr as (nguid&b4&G4&Hr).
  destruct (readAttr_ids _ _ _ _ (sf_inv _ _ S' Hi) G4) as [S4 _]. minv. split; [by eapply same_files_trans|].
  intros Hn. assert (reads_as b (namespaceDir t ++ ["enable"]) "1") as R by (eapply reads_as_view; [|exact R2]; symmetry; apply S1).
  by apply (Hgone _ _ Hn (Hns _)) in R.
Qed.

Abbreviation resolve := (resolveNVMeIdentity uuid_String NewSHA1).
Abbreviation derived t := (DeriveIdentity NewSHA1 (SubsystemNQN t) (NamespaceID t)).

(** What the record says of the identity of a volume in one lifecycle. *)
Definition recorded (f : option idFile) (uid : string) (der : Identity) : Identity :=
  match f with
  | Some (IDRecord r) => if decide (ir_VolumeUID r = uid) then ir_Identity r else der
  | _ => der
  end.

Lemma adoptLive_zero want : adoptLive want zeroIdentity = want.
Proof. by destruct want. Qed.

(** The identity chosen is the one the record left behind gives. *)
Lemma resolve_Ok v fence t `{!wf_nvmet t} id b b' : fs_inv b → resolve v fence t b = (Ok id, b') →
  (∀ q, view b' q = view b q) ∧
  recorded (stored (ids b') v) (GetVolumeUid fence) (derived t) = id ∧
  (idDurable (ids b) v = stored (ids b) v ∨ stored (ids b') v ≠ stored (ids b) v → idDurable (ids b') v = stored (ids b') v) ∧
  (view b (subsystemDir t) = None → id = recorded (stored (ids b) v) (GetVolumeUid fence) (derived t)).
Proof.
  intros Hi Hr. unfold resolveNVMeIdentity in Hr. cbv zeta in Hr. apply step_run in Hr as ([r ex]&b1&G1&Hr).
  destruct (readIdentityRecord_Ok _ _ _ _ _ G1) as [S1 Hst]. apply step_run in Hr as (live&b2&G2&Hr). apply map_err_Ok in G2.
  destruct (LiveIdentity_Ok t _ _ _ (sf_inv _ _ S1 Hi) G2) as [S2 Hlive]. pose proof (same_files_trans _ _ _ S1 S2) as S.
  set (want := adoptLive _ _) in Hr. apply step_run in Hr as ([]&b3&G3&Hr). apply map_err_Ok in G3. injection G3 as _ <-.
  assert (stored (ids b2) v = stored (ids b) v ∧ idDurable (ids b2) v = idDurable (ids b) v) as [Est Edu].
  { unfold stored, idDurable. by rewrite (sf_stateDir _ _ S), (sf_live _ _ S), (sf_synced _ _ S), (sf_dirSynced _ _ S). }
  assert ((if ex && bool_decide (ir_VolumeUID r = GetVolumeUid fence) then ir_Identity r else derived t) =
    recorded (stored (ids b) v) (GetVolumeUid fence) (derived t)) as Ewant.
  { unfold recorded. destruct ex; [|by rewrite Hst]. destruct Hst as [-> _].
    destruct (decide (ir_VolumeUID r = GetVolumeUid fence)) as [E|E]; [by rewrite bool_decide_true|by rewrite bool_decide_false]. }
  assert (view b (subsystemDir t) = None → want = recorded (stored (ids b) v) (GetVolumeUid fence) (derived t)) as Hgone.
  { intros Hn. rewrite <- Ewant. subst want. rewrite Hlive, adoptLive_zero; [done|]. by rewrite (sf_view _ _ S1). }
  clearbody want. apply step_run in Hr as ([]&b4&G4&Hr). injection Hr as -> ->.
  destruct (decide (id = derived t)) as [Hd|Hd]; [rewrite bool_decide_true in G4 by done|rewrite bool_decide_false in G4 by done].
  - destruct ex; cbn in G4.
    + destruct (removeIdentityRecord_Ok _ _ _ G4) as (Hv&Hs&Hdur). rewrite Hs. split_and!; [|done| |done].
      * intros q. rewrite Hv. apply S.
      * intros _. apply Hdur. rewrite Est. by destruct Hst as [-> _].
    + injection G4 as <-. rewrite Est, Edu. split_and!; [apply S|by rewrite Hst|by intros [?|[]]|done].
  - cbn in G4. destruct (negb ex || _) eqn:Ew.
    + destruct (writeIdentityRecord_Ok _ _ _ _ G4) as (Hv&Hs&Hdur). rewrite Hs, Hdur. split_and!; [|cbn; by rewrite decide_True|done|done].
      intros q. rewrite Hv. apply S.
    + injection G4 as <-. apply orb_false_iff in Ew as [Hex%negb_false_iff Heq%negb_false_iff%bool_decide_eq_true]. subst ex. destruct Hst as [Hst _].
      rewrite Est, Edu. split_and!; [apply S| |by intros [?|[]]|done]. rewrite Hst, Heq. cbn. by rewrite decide_True.
Qed.

(** C17: An export is recreated with the identity it had: after the kernel lost
    its objects, with the volume's record as the agent left it, or as a crash
    left it. The crash has one exception: the record was not durable before
    the call, as after an earlier call whose fsync failed, and the call, which
    then finds nothing to change, does not sync it again. *)
Theorem identity_reproduced v fence t `{!wf_nvmet t} id id' b b1 b2 b3 :
  fs_inv b → fs_inv b2 → resolve v fence t b = (Ok id, b1) →
  stored (ids b2) v = stored (ids b1) v ∨
    stored (ids b2) v = idDurable (ids b1) v ∧
    (idDurable (ids b) v = stored (ids b) v ∨ stored (ids b1) v ≠ stored (ids b) v) →
  view b2 (subsystemDir t) = None → resolve v fence t b2 = (Ok id', b3) → id' = id.
Proof.
  intros Hi Hi2 Hr Hs Hn Hr2. destruct (resolve_Ok _ _ _ _ _ _ Hi Hr) as (_&Hid&Hdur&_).
  destruct (resolve_Ok _ _ _ _ _ _ Hi2 Hr2) as (_&_&_&Hid2). rewrite (Hid2 Hn), <- Hid.
  destruct Hs as [->|[-> Hd]]; [done|]. by rewrite Hdur.
Qed.

(** An identity held by live kernel objects is adopted as it is. *)
Theorem live_identity_adopted v fence t `{!wf_nvmet t} serial uuid nguid id b b' :
  fs_inv b → attr b (subsystemDir t ++ ["attr_serial"]) serial → attr b (namespaceEnablePath t) "1" →
  attr b (namespaceDir t ++ ["device_uuid"]) uuid → attr b (namespaceDir t ++ ["device_nguid"]) nguid →
  serial ≠ "" → uuid ≠ "" → nguid ≠ "" → resolve v fence t b = (Ok id, b') →
  id = {| id_UUID := uuid; id_NGUID := nguid; id_Serial := serial |}.
Proof.
  intros Hi As Ae Au An Hs Hu Hg Hr. unfold resolveNVMeIdentity in Hr. cbv zeta in Hr. apply step_run in Hr as ([r ex]&b1&G1&Hr).
  destruct (readIdentityRecord_Ok _ _ _ _ _ G1) as [S1 _]. apply step_run in Hr as (live&b2&G2&Hr). apply map_err_Ok in G2.
  assert (live = {| id_UUID := uuid; id_NGUID := nguid; id_Serial := serial |}) as ->.
  { rewrite namespaceEnablePath_eq in Ae. pose proof (sf_inv _ _ S1 Hi) as Hi1.
    assert (∀ b c p x y, same_files b c → attr b p x → reads_as c p y → y = x) as Hread.
    { intros c c' p x y S Ha Hy. eapply reads_as_inj; [exact Hy|]. eapply reads_as_view; [apply (sf_view _ _ S)|]. by left. }
    unfold LiveIdentity in G2. rewrite !joinp_plain in G2 by done.
    apply step_run in G2 as (x1&c1&E1&G2). destruct (readAttr_ids _ _ _ _ Hi1 E1) as [T1 R1]. rewrite (Hread _ _ _ _ _ S1 As R1) in *.
    pose proof (same_files_trans _ _ _ S1 T1) as U1.
    apply step_run in G2 as (x2&c2&E2&G2). destruct (readAttr_ids _ _ _ _ (sf_inv _ _ U1 Hi) E2) as [T2 R2]. rewrite (Hread _ _ _ _ _ U1 Ae R2) in *.
    pose proof (same_files_trans _ _ _ U1 T2) as U2. rewrite decide_False in G2 by (intros Hne; by apply Hne).
    apply step_run in G2 as (x3&c3&E3&G2). destruct (readAttr_ids _ _ _ _ (sf_inv _ _ U2 Hi) E3) as [T3 R3]. rewrite (Hread _ _ _ _ _ U2 Au R3) in *.
    pose proof (same_files_trans _ _ _ U2 T3) as U3.
    apply step_run in G2 as (x4&c4&E4&G2). destruct (readAttr_ids _ _ _ _ (sf_inv _ _ U3 Hi) E4) as [_ R4]. rewrite (Hread _ _ _ _ _ U3 An R4) in *.
    by injection G2 as <- _. }
  apply step_run in Hr as ([]&b3&_&Hr). apply step_run in Hr as ([]&b4&_&Hr). injection Hr as <- _. unfold adoptLive. cbn.
  by rewrite !decide_False.
Qed.
End Identities.
