(* ===== verification/NvmeReconcile.v ===== *)
(** * Correctness of the NVMe-oF TCP reconcile

    [Reconcile] restores the exports of many volumes after a restart.  In its
    first phase nothing happens on the ports; in its second one the exports
    are linked, and what was linked stays while the others follow. *)
From stdpp Require Import base numbers list strings gmap pretty relations.
From Stdlib Require Import Ascii.
From S2P Require Import Prelude GoStd GoNet GoNetip FencingMark FencingStore Backend Fencing FencingCorrect AgentServer IscsiAgent IscsiAgentCorrect.
From S2P Require Import LioFs LioLaws ConfigfsEffects NvmetTarget NvmetLaws NvmetCorrect NvmetPorts NvmetServing NvmetIsolation NvmeAgent NvmeAgentCorrect.
Open Scope Z_scope.

(** ** Targets *)

Lemma nqn_plain v id : volumeTargetID PROTOCOL_TYPE_NVMEOF_TCP v = Ok id → plain_name id = true.
Proof.
  intros [= <-]. assert (no_slash (nqnPrefix +:+ ReplaceAll "/" "." v) = true) as Hs by (rewrite no_slash_app, ReplaceAll_no_slash; done).
  unfold plain_name. unfold no_slash in Hs. by rewrite Hs.
Qed.

Section Reconcile.
Context {B P C : Type} `{IdLaws B} (s : Server B P) (deps : IscsiDeps B C) {Hdeps : DepsLook deps}.
Context (uuid_String : string → option string) (NewSHA1 : string → string) (order : list (string * string) → list (string * string)).
Context (order_perm : ∀ l, order l ≡ₚ l).
Implicit Types (w : world B) (b : B) (t : NvmetTarget) (d : ExportDesiredState P).
(** The nvmet root of the server. *)
Definition root : path :=
  joinp (joinp [] (if bool_decide (configfsRoot s = "") then NvmetTarget.DefaultConfigfsRoot else configfsRoot s)) "nvmet".

(** A target of this server's reconcile, for a volume. *)
Record target_of (d : ExportDesiredState P) t : Prop := {
  to_root : NvmetTarget.ConfigfsRoot t = configfsRoot s;
  to_nqn : volumeTargetID PROTOCOL_TYPE_NVMEOF_TCP (ds_VolumeID d) = Ok (SubsystemNQN t);
  to_ns : NamespaceID t = 1;
  to_hosts h : h ∈ AllowedHosts t → h ∈ ds_AllowedInitiators d;
}.
Definition plain_hosts d : Prop := ∀ h, h ∈ ds_AllowedInitiators d → plain_name h = true.

Lemma target_wf d t : target_of d t → plain_hosts d → wf_nvmet t.
Proof.
  intros [_ Hq Hn Hh] Hp. split; [by eapply nqn_plain|rewrite Hn; done|]. intros h Hin. by apply Hp, Hh.
Qed.
Lemma target_root d t : target_of d t → nvmetRoot t = root.
Proof. intros Ht. unfold nvmetRoot, root. by rewrite (to_root _ _ Ht). Qed.
Lemma reconcile_target d t : nvmeReconcileTarget s d = Ok t → target_of d t.
Proof.
  unfold nvmeReconcileTarget. destruct (nvmeofEndpoint _ _ _) as [[a p]|]; [|done]. cbn. destruct (resolveExportDevicePath _ _ _); [|done]. cbn.
  intros [= <-]. split; [done|done|done|]. cbn. destruct (ds_ACLEnabled d); [done|]. by intros ? ?%elem_of_nil.
Qed.
Lemma target_identity d t id : target_of d t → target_of d (set_Identity t id).
Proof. intros []. by split. Qed.
Lemma target_floor d t f : target_of d t → target_of d (applyFloor f t).
Proof. intros []. unfold applyFloor. destruct (f !! _); by split. Qed.

Lemma items_target desired i d t : nvmeItems s desired !! i = Some (d, Ok t) → desired !! i = Some d ∧ target_of d t.
Proof.
  unfold nvmeItems, setPortMDTSFloors. intros Hi. apply lookup_zip_Some in Hi as [Hd Ht]. split; [done|].
  rewrite !list_lookup_fmap, Hd in Ht. cbn in Ht. destruct (nvmeReconcileTarget s d) as [t0|] eqn:E; [|done]. injection Ht as <-.
  by apply target_floor, reconcile_target.
Qed.

(** ** The first phase *)

Definition phase_scope : scope := {|
  s_new := λ q, q `prefix_of` root ++ ["subsystems"] ∨ q `prefix_of` root ++ ["hosts"] ∨ root ++ ["subsystems"] `prefix_of` q ∨ root ++ ["hosts"] `prefix_of` q;
  s_mod := λ q, ∃ x, root ++ ["subsystems"; x] `prefix_of` q ∨ root ++ ["hosts"; x] `prefix_of` q;
  s_on := λ _, True |}.

Lemma sub_below t q : nvmetRoot t = root → wf_nvmet t → subsystemDir t `prefix_of` q → root ++ ["subsystems"] `prefix_of` q.
Proof.
  intros Hr Hw Hq. rewrite (subsystemDir_eq t), Hr in Hq. etrans; [|exact Hq].
  change ["subsystems"; SubsystemNQN t] with (["subsystems"] ++ [SubsystemNQN t]). rewrite app_assoc. by apply prefix_app_r.
Qed.
Lemma phase_prepares t : nvmetRoot t = root → wf_nvmet t → prepares t phase_scope.
Proof.
  intros Hr Hw. pose proof (sub_below t) as Hs. split; [..|done]; rewrite ?Hr; intros q Hq; cbn; eauto.
  exists (SubsystemNQN t). left. by rewrite (subsystemDir_eq t), Hr in Hq.
Qed.
Lemma phase_host t h : nvmetRoot t = root → wf_nvmet t → plain_name h = true → serves_host t phase_scope h.
Proof.
  intros Hr Hw Hh. pose proof (phase_prepares t Hr Hw) as HP. split.
  - rewrite allowedHostLink_eq by done. apply mods_below, HP.
  - rewrite hostDir_eq, Hr by done. intros q Hq. by exists h; right.
  - rewrite allowedHostsDir_eq. by apply prepares_sub.
  - rewrite allowedHostLink_eq by done. by apply news_at, pr_sub.
Qed.

Lemma does_idcall S : does (K := B) S idcall.
Proof.
  apply does_looks. intros b Hi. unfold wp, idcall. destruct (id_faults (ids b)); cbn; [done|]. split; [by apply ids_inv|apply ids_view].
Qed.
Lemma does_on_ids S f : does (K := B) S (on_ids f).
Proof. apply does_looks. intros b Hi. unfold wp, on_ids, modify. cbn. split; [by apply ids_inv|apply ids_view]. Qed.
Lemma does_reads {X} S (f : B → X) : does (X := go_error) S (reads f).
Proof. intros b Hi. by apply effect_refl. Qed.
Hint Resolve does_idcall does_on_ids does_reads does_map_err : does.
Lemma does_removeRecord S v : does (K := B) S (removeIdentityRecord v).
Proof. unfold removeIdentityRecord, syncIdentityDirs, syncIdentity. does_walk. Qed.
Lemma does_writeRecord S v r : does (K := B) S (writeIdentityRecord v r).
Proof. unfold writeIdentityRecord, openIdentityRoot, writeIdentitySynced, renameIdentity, syncIdentityDirs, syncIdentity. does_walk. Qed.
Lemma does_readRecord S v : does (K := B) S (readIdentityRecord uuid_String v).
Proof. unfold readIdentityRecord. does_walk. Qed.
Hint Resolve does_removeRecord does_writeRecord does_readRecord : does.
Lemma does_resolve S v f t : does (K := B) S (resolveNVMeIdentity uuid_String NewSHA1 v f t).
Proof. unfold resolveNVMeIdentity. does_walk. Qed.

Lemma does_prepareNvme d t : target_of d t → plain_hosts d → does phase_scope (prepareNvme s deps uuid_String NewSHA1 d t).
Proof.
  intros Ht Hp. unfold prepareNvme. apply does_bind; [by apply does_looks, looks_wait|]. intros _.
  apply does_bind; [apply does_resolve|]. intros id. pose proof (target_identity d t id Ht) as Ht'.
  apply does_bind; [|intros pt].
  { apply does_nvmetPrepare; [by apply dl_claim|by apply dl_release|by eapply target_wf|].
    apply phase_prepares; [by eapply target_root|by eapply target_wf]. }
  apply does_bind; [|intros; apply does_ret]. destruct (ds_ACLEnabled d); [|apply does_ret].
  apply does_RevokeHostsExcept. intros h Hh _. apply phase_host; [by eapply target_root|by eapply target_wf|done].
Qed.

(** The first phase leaves the ports as they are. *)
Lemma phase_ports b b' q : fs_inv b → effect phase_scope b b' → view b root ≠ None → root ++ ["ports"] `prefix_of` q → view b' q = view b q.
Proof.
  intros Hi He HR Hq.
  assert (∀ a l p, a ≠ "ports" → root ++ a :: l `prefix_of` p → ¬ p `prefix_of` q) as Hs.
  { intros a l p Ha Hp Hpq. apply Ha. apply (diverge root a "ports" l [] q); [by etrans; [exact Hp|]|done]. }
  assert (∀ p, s_mod phase_scope p → ¬ p `prefix_of` q) as Hm . by (intros p [x [Hp|Hp]]; by eapply Hs; [|exact Hp]).
  apply (effect_untouched _ _ _ _ He); [intros Hmq; by apply (Hm q)|]. intros p Hp Hpq. split; [|intros Hmp; by apply (Hm p)].
  assert (∀ a, a ≠ "ports" → p `prefix_of` root ++ [a] → view b p ≠ None) as Hup.
  { intros a Ha Hpa Hn. apply HR, (view_below b p); [done..|].
    destruct (prefix_weak_total p root _ Hpa (prefix_app_r root root [a] (reflexivity _))) as [|Hrp]; [done|].
    destruct Hrp as [[|c r] ->]; [by rewrite app_nil_r|]. apply prefix_app_head in Hpa. pose proof (prefix_cons_inv_1 _ _ _ _ Hpa) as ->.
    exfalso. eapply (Hs a []); [done| |exact Hpq]. change (a :: r) with ([a] ++ r). rewrite app_assoc. by apply prefix_app_r. }
  destruct Hp as [Hp|[Hp|[Hp|Hp]]]; [by eapply Hup; [|exact Hp]|by eapply Hup; [|exact Hp]|exfalso; by eapply Hs; [|exact Hp|]|exfalso; by eapply Hs; [|exact Hp|]].
Qed.

Definition item_ok (i : ExportDesiredState P * GoResult NvmetTarget) : Prop := ∀ t, i.2 = Ok t → target_of i.1 t ∧ plain_hosts i.1.

Lemma does_prepareNvmeItem i : item_ok i → agent_does phase_scope (prepareNvmeItem s deps uuid_String NewSHA1 i).
Proof.
  intros Hi. unfold prepareNvmeItem. destruct i as [d [t|e]]; cbn; [|apply agent_does_ret]. destruct (Hi t eq_refl) as [Ht Hp].
  apply agent_does_bind; [|intros; apply agent_does_ret]. apply agent_does_try, agent_does_fenced; [done|by apply does_prepareNvme].
Qed.

(** What became of an entry: its error, or its target prepared. *)
Definition prepared_of (i : ExportDesiredState P * GoResult NvmetTarget) (y : ExportDesiredState P * GoResult PreparedTarget) : Prop :=
  y.1 = i.1 ∧ ∀ p, y.2 = Ok p → ∃ t id, i.2 = Ok t ∧ pt_target p = set_Identity t id ∧
    target_portSpec (set_Identity t id) = Ok (pt_port p).

Lemma prepareNvmeItem_run i w r w' : disk_inv (w_disk w) → prepareNvmeItem s deps uuid_String NewSHA1 i w = (r, w') → ∃ y, r = Ok y ∧ prepared_of i y.
Proof.
  intros Hd Hr. unfold prepareNvmeItem in Hr. destruct i as [d [t|e]]; cbn in Hr; [|injection Hr as <- _; eexists; split; [done|]; by split].
  apply try_bind in Hr as (r1&w1&Hf&Hr). minv. eexists. split; [done|]. split; [done|]. cbn. intros p ->.
  assert (fenceGrant ≠ fenceDestroy) as Hg by done.
  destruct (fenced_kernel _ _ _ _ _ _ _ _ _ Hd Hg Hf) as [_ [[(e&?) _]|Hm]]; [done|]. unfold prepareNvme in Hm.
  apply step_run in Hm as (?&b1&_&Hm). apply step_run in Hm as (id&b2&_&Hm). apply step_run in Hm as (pt&b3&HP&Hm).
  apply step_run in Hm as (?&b4&_&Hm). injection Hm as -> _.
  destruct (Prepare_result _ _ _ _ _ _ _ _ HP) as (id'&spec&->&_&Hs). by exists t, id.
Qed.
Lemma prepare_phase l w r w' : disk_inv (w_disk w) → fs_inv (w_backend w) → Forall item_ok l →
  map_each (prepareNvmeItem s deps uuid_String NewSHA1) l w = (r, w') →
  disk_steps (w_disk w) (w_disk w') ∧ effect phase_scope (w_backend w) (w_backend w') ∧ ∃ ys, r = Ok ys ∧ Forall2 prepared_of l ys.
Proof.
  intros Hd Hi Hl. revert w r w' Hd Hi. induction Hl as [|i l Hit _ IH]; intros w r w' Hd Hi Hr; cbn in Hr.
  { minv. split_and!; [done|by apply effect_refl|]. exists []. split; [done|constructor]. }
  apply M_bind_inv in Hr as [(y&w1&E1&Hr)|(e&E1&_)]; [|destruct (prepareNvmeItem_run _ _ _ _ Hd E1) as (?&?&_); done].
  destruct (does_prepareNvmeItem i Hit _ _ _ Hd Hi E1) as [D1 F1]. destruct (prepareNvmeItem_run _ _ _ _ Hd E1) as (y'&[= <-]&Hy).
  pose proof (disk_steps_inv _ _ D1 Hd) as Hd1.
  apply M_bind_inv in Hr as [(ys&w2&E2&Hr)|(e&E2&_)]; destruct (IH _ _ _ Hd1 (eff_inv _ _ _ F1) E2) as (D2&F2&ys'&?&Hys); [|done].
  minv. split_and!; [by etrans|by eapply effect_trans|]. eexists. split; [done|]. by constructor.
Qed.

(** ** The second phase *)

(** The export is complete, its port carries it, and has the limit on
    in-capsule data it asked for. *)
Record served (p : PreparedTarget) b : Prop := {
  sv_prepared : prepared (pt_target p) (pt_identity p) b;
  sv_linked : link b (portSubsystemLink (pt_target p) (sp_id (pt_port p))) (subsystemDir (pt_target p));
  sv_inline v : sp_inlineDataSize (pt_port p) = Some v →
    settled b (portDir (pt_target p) (sp_id (pt_port p)) ++ [portInlineDataSizeAttr]) (Itoa v);
}.

(** A prepared export of this server. *)
Record ready (d : ExportDesiredState P) (p : PreparedTarget) : Prop := {
  rd_target : target_of d (pt_target p);
  rd_spec : target_portSpec (pt_target p) = Ok (pt_port p);
  rd_hosts : plain_hosts d;
}.

Lemma served_foreign d d' p t b b' : ready d p → target_of d' t → SubsystemNQN t ≠ SubsystemNQN (pt_target p) →
  foreign t b b' → served p b → served p b'.
Proof.
  intros [Ht Hs Hp] Ht' Hne HF [Hpre Hl Hin]. pose proof (target_wf _ _ Ht Hp) as Hw.
  pose proof (target_root _ _ Ht) as HR. pose proof (target_root _ _ Ht') as HR'.
  assert (0 ≤ sp_id (pt_port p)) as Hid by (destruct (spec_id _ (target_portSpec_wf _ _ Hs)); lia).
  assert (SubsystemNQN (pt_target p) ≠ SubsystemNQN t) as Hne' by congruence. pose proof (wf_NQN (t := pt_target p)) as Hq.
  assert (∀ name, portPath (pt_target p) name = portPath t name) as Hport by (intros; unfold portPath; by rewrite HR, HR').
  rewrite (portPath_eq (pt_target p)), Hport in Hin by done. rewrite (portLink_eq (pt_target p)), Hport in Hl by done. destruct Hl as (l&Hl&Hlt).
  split.
  - eapply prepared_view; [done| |exact Hpre]. intros q Hqq. rewrite (subsystemDir_eq (pt_target p)), HR, <- HR' in Hqq. by eapply (fo_sub _ _ _ HF).
  - rewrite (portLink_eq (pt_target p)), Hport by done. exists l. split; [by eapply (fo_link _ _ _ HF)|done].
  - intros v Hv. rewrite (portPath_eq (pt_target p)), Hport by done. destruct (Hin v Hv) as (s0&Hs0&Hst). exists s0. split; [|done].
    eapply (fo_limit _ _ _ HF); [exact Hne'|done|exact Hl|by left|done].
Qed.

Definition loaded_root b : Prop := view b (root ++ ["subsystems"]) ≠ None.
Definition nqn_of d : GoResult string := volumeTargetID PROTOCOL_TYPE_NVMEOF_TCP (ds_VolumeID d).

(** One entry: whatever comes of it, the other exports stay; without an error
    its own is served. *)
Lemma linkItem_run d p w r w' : ready d p → disk_inv (w_disk w) → fs_inv (w_backend w) → loaded_root (w_backend w) →
  linkNvmeItem s order (d, Ok p) w = (r, w') →
  ∃ e, r = Ok e ∧ w_disk w' = w_disk w ∧ fs_inv (w_backend w') ∧ foreign (pt_target p) (w_backend w) (w_backend w') ∧
    (e = None → served p (w_backend w')).
Proof using order_perm.
  intros Hrd Hd Hi Hl Hr. destruct Hrd as [Ht Hs Hp]. pose proof (target_wf _ _ Ht Hp) as Hw.
  assert (loaded (pt_target p) (w_backend w)) as Hl' by (unfold loaded; by rewrite (target_root _ _ Ht)).
  unfold linkNvmeItem in Hr. cbn in Hr. apply try_bind in Hr as (x&w1&Hx&Hr). injection Hr as <- ->. eexists. split; [done|].
  destruct (recheck_kernel _ _ _ _ _ _ _ _ Hd Hx) as [Hw1 [[(e&->) ->]|Hm]]; (split; [done|]).
  { split; [done|]. split; [by apply foreign_same|done]. }
  destruct p as [t id spec]. cbn in *.
  destruct (wp_run _ _ _ _ _ (keeps_Link order order_perm t id spec (target_portSpec_wf _ _ Hs) _ Hi Hl') Hm) as [Hi' HF].
  split; [done|]. split; [done|]. destruct x as [[]|]; [|done]. intros _.
  destruct (Link_run _ order_perm t _ _ _ _ _ (target_portSpec_full _ _ Hs) Hi Hm) as [[? _]|(Hpre&_&_&Hok)]; [done|].
  destruct (Hok eq_refl) as [Hps Hlk]. split; [done|done|apply Hps].
Qed.

Lemma link_phase l w r w' : disk_inv (w_disk w) → fs_inv (w_backend w) → loaded_root (w_backend w) →
  (∀ i p, i ∈ l → i.2 = Ok p → ready i.1 p) → NoDup (nqn_of ∘ fst <$> l) → map_each (linkNvmeItem s order) l w = (r, w') →
  (∃ es, r = Ok es ∧ length es = length l ∧ ∀ j i, l !! j = Some i → es !! j = Some None → ∃ p, i.2 = Ok p ∧ served p (w_backend w')) ∧
  loaded_root (w_backend w') ∧
  ∀ d p, ready d p → nqn_of d ∉ (nqn_of ∘ fst <$> l) → served p (w_backend w) → served p (w_backend w').
Proof using order_perm.
  revert w r w'. induction l as [|[d x] l IH]; intros w r w' Hd Hi Hl Hrd Hnd Hr; cbn in Hr.
  { injection Hr as <- <-. split; [|done]. by exists []. }
  apply NoDup_cons in Hnd as [Hn Hnd]. cbn in Hn.
  assert (∀ i p, i ∈ l → i.2 = Ok p → ready i.1 p) as Hrd' by (intros; apply Hrd; [by right|done]).
  assert (∃ e w1, linkNvmeItem s order (d, x) w = (Ok e, w1) ∧ w_disk w1 = w_disk w ∧ fs_inv (w_backend w1) ∧ loaded_root (w_backend w1) ∧
    (e = None → ∃ p, x = Ok p ∧ served p (w_backend w1)) ∧
    ∀ d0 p, ready d0 p → nqn_of d0 ≠ nqn_of d → served p (w_backend w) → served p (w_backend w1)) as (e&w1&E1&Hw1&Hi1&Hl1&Hs1&Hk1).
  { destruct x as [p|e]; [|exists (Some e), w; naive_solver]. destruct (linkNvmeItem s order (d, Ok p) w) as [r1 w1] eqn:E.
    assert (ready d p) as Hp by (apply (Hrd (d, Ok p)); [by left|done]).
    destruct (linkItem_run _ _ _ _ _ Hp Hd Hi Hl E) as (e&->&?&?&HF&Hsv). exists e, w1. split_and!; [done..| | |].
    - unfold loaded_root. rewrite <- (target_root _ _ (rd_target _ _ Hp)). apply HF.
    - eauto.
    - intros d0 p0 Hp0 Hne. eapply served_foreign; [exact Hp0|apply Hp| |exact HF]. intros E'. apply Hne. unfold nqn_of.
      by rewrite (to_nqn _ _ (rd_target _ _ Hp0)), (to_nqn _ _ (rd_target _ _ Hp)), E'. }
  destruct (map_each (linkNvmeItem s order) l w1) as [r2 w2] eqn:E2. rewrite <- Hw1 in Hd.
  destruct (IH _ _ _ Hd Hi1 Hl1 Hrd' Hnd E2) as [(es&->&Hlen&Hes) [Hl2 Hk2]].
  unfold mbind, M_bind in Hr. rewrite E1, E2 in Hr. injection Hr as <- <-. split_and!; [|done|].
  - exists (e :: es). split_and!; [done|cbn; congruence|]. intros [|j] i; [|by apply Hes]. intros [= <-] [= ->].
    destruct (Hs1 eq_refl) as (p&->&Hsv). exists p. split; [done|]. apply (Hk2 d); [|done|done]. apply (Hrd (d, Ok p)); [by left|done].
  - intros d0 p Hp0 Hni Hsv. cbn in Hni. rewrite not_elem_of_cons in Hni. destruct Hni as [Hne Hni]. eapply Hk2, Hk1; done.
Qed.

Lemma items_ok desired : Forall plain_hosts desired → Forall item_ok (nvmeItems s desired).
Proof.
  intros Hp. apply Forall_lookup. intros j [d x] Hj t Ht. cbn in Ht. subst x. apply items_target in Hj as [Hd Ht].
  rewrite Forall_lookup in Hp. split; [done|by eapply Hp].
Qed.
Lemma items_fst desired : (nvmeItems s desired).*1 = desired.
Proof. unfold nvmeItems, setPortMDTSFloors. apply fst_zip. by rewrite !length_fmap. Qed.

Lemma prepared_target_ready i y p : item_ok i → prepared_of i y → y.2 = Ok p → ready y.1 p.
Proof.
  intros Hi [E Hp] Hy. destruct (Hp p Hy) as (t&id&Ht&Hpt&Hs). destruct (Hi t Ht) as [Hof Hh]. rewrite E.
  split; [rewrite Hpt; by apply target_identity|by rewrite Hpt|done].
Qed.
Lemma prepared_ready_all l ys : Forall item_ok l → Forall2 prepared_of l ys → ys.*1 = l.*1 ∧ ∀ y p, y ∈ ys → y.2 = Ok p → ready y.1 p.
Proof.
  intros Hl Hys. induction Hys as [|i y l ys Hy _ IH]; [split; [done|by intros ? ? ?%elem_of_nil]|].
  apply Forall_cons in Hl as [Hi Hl]. destruct (IH Hl) as [IH1 IH2]. split; [cbn; rewrite IH1; f_equal; apply Hy|].
  intros z p [->|Hz]%elem_of_cons Hp; [by eapply prepared_target_ready|by eapply IH2].
Qed.

(** ** Where it happens *)

Definition nvmet_scope : scope := {|
  s_new := λ q, root `prefix_of` q ∨ q `prefix_of` root; s_mod := λ q, root `prefix_of` q; s_on := λ _, True |}.
Lemma phase_nvmet : sub_scope phase_scope nvmet_scope.
Proof.
  assert (∀ a q, q `prefix_of` root ++ [a] → root `prefix_of` q ∨ q `prefix_of` root) as Hup.
  { intros a q Hq. destruct (prefix_weak_total q root _ Hq (prefix_app_r root root [a] (reflexivity _))); auto. }
  assert (∀ l q, root ++ l `prefix_of` q → root `prefix_of` q) as Hdn by (intros l q Hq; etrans; [|exact Hq]; by apply prefix_app_r).
  split_and!; [|intros q [x [Hq|Hq]]; by eapply Hdn|done]. intros q [Hq|[Hq|[Hq|Hq]]]; cbn; eauto.
Qed.
Lemma nvmet_ports t : nvmetRoot t = root → serves_ports t nvmet_scope.
Proof.
  intros HR. assert (∀ q, root ++ ["ports"] `prefix_of` q → root `prefix_of` q) as Hdn by (intros q Hq; etrans; [|exact Hq]; by apply prefix_app_r).
  split; rewrite HR.
  - intros q Hq. cbn. destruct (prefix_weak_total q root _ Hq (prefix_app_r root root ["ports"] (reflexivity _))); auto.
  - intros q Hq. left. by apply Hdn.
  - intros q Hq. by apply Hdn.
Qed.
Lemma does_linkNvmeItem d x : (∀ p, x = Ok p → ready d p) → agent_does nvmet_scope (linkNvmeItem s order (d, x)).
Proof using order_perm.
  intros Hx. unfold linkNvmeItem. destruct x as [p|e]; cbn; [|apply agent_does_ret]. destruct (Hx p eq_refl) as [Ht Hs Hp].
  pose proof (target_wf _ _ Ht Hp) as Hw. apply agent_does_bind; [|intros; apply agent_does_ret].
  apply agent_does_try, agent_does_recheck. unfold Link. apply does_bind; [apply does_verifyPrepared|]. intros _.
  apply (does_linkSubsystemToPort _ order_perm); [done|apply nvmet_ports; by eapply target_root|by eapply target_portSpec_wf].
Qed.

(** The target an entry asks for, with the limit of the batch and an identity. *)
Definition desired_target d t : Prop := ∃ t0 f id, nvmeReconcileTarget s d = Ok t0 ∧ t = set_Identity (applyFloor f t0) id.
Lemma prepared_desired desired j i y p : nvmeItems s desired !! j = Some i → prepared_of i y → y.2 = Ok p → desired_target y.1 (pt_target p).
Proof.
  intros Hi [E Hp] Hy. destruct (Hp p Hy) as (t&id&Ht&->&_). rewrite E. destruct i as [d x]. cbn in *. subst x.
  unfold nvmeItems, setPortMDTSFloors in Hi. apply lookup_zip_Some in Hi as [Hd Hx]. rewrite !list_lookup_fmap, Hd in Hx. cbn in Hx.
  destruct (nvmeReconcileTarget s d) as [t0|] eqn:E0; [|done]. injection Hx as <-. by exists t0, (collect (map (nvmeReconcileTarget s) desired)), id.
Qed.

Lemma nvme_reconcile_run desired w r w' :
  disk_inv (w_disk w) → fs_inv (w_backend w) → loaded_root (w_backend w) → Forall plain_hosts desired → NoDup (nqn_of <$> desired) →
  nvme_Reconcile s deps uuid_String NewSHA1 order desired w = (r, w') →
  disk_inv (w_disk w') ∧ loaded_root (w_backend w') ∧ effect nvmet_scope (w_backend w) (w_backend w') ∧
  ∃ es prepared w1, r = Ok es ∧ length es = length desired ∧
    map_each (prepareNvmeItem s deps uuid_String NewSHA1) (nvmeItems s desired) w = (Ok prepared, w1) ∧
    (∀ q, root ++ ["ports"] `prefix_of` q → view (w_backend w1) q = view (w_backend w) q) ∧
    ∀ j d, desired !! j = Some d → es !! j = Some None →
      ∃ p, prepared !! j = Some (d, Ok p) ∧ ready d p ∧ desired_target d (pt_target p) ∧ served p (w_backend w').
Proof using H2 Hdeps order_perm.
  intros Hd Hi Hl Hp Hnd Hr. unfold nvme_Reconcile in Hr.
  destruct (map_each (prepareNvmeItem s deps uuid_String NewSHA1) (nvmeItems s desired) w) as [r1 w1] eqn:E1.
  destruct (prepare_phase _ _ _ _ Hd Hi (items_ok _ Hp) E1) as (D1&F1&ys&->&Hys).
  destruct (prepared_ready_all _ _ (items_ok _ Hp) Hys) as [Hfst Hrdy]. rewrite items_fst in Hfst.
  unfold mbind, M_bind in Hr. rewrite E1 in Hr. pose proof (disk_steps_inv _ _ D1 Hd) as Hd1.
  assert (loaded_root (w_backend w1)) as Hl1.
  { unfold loaded_root in *. destruct (view (w_backend w) _) as [n|] eqn:En; [|done]. rewrite (effect_keeps _ _ _ _ n F1); [done| |done].
    intros [x [Hx|Hx]]; apply prefix_length in Hx; rewrite !length_app in Hx; cbn in Hx; lia. }
  assert (NoDup (nqn_of ∘ fst <$> ys)) as Hnd1 by (rewrite list_fmap_compose, Hfst; done).
  assert (agent_does nvmet_scope (map_each (linkNvmeItem s order) ys)) as Hdo.
  { apply agent_does_map_each. intros [d x] Hin. apply does_linkNvmeItem. intros p ->. by apply (Hrdy (d, Ok p)). }
  destruct (Hdo _ _ _ Hd1 (eff_inv _ _ _ F1) Hr) as [D2 F2].
  destruct (link_phase _ _ _ _ Hd1 (eff_inv _ _ _ F1) Hl1 Hrdy Hnd1 Hr) as [(es&->&Hlen&Hes) [Hl2 _]].
  split; [by eapply disk_steps_inv|]. split; [done|]. split; [eapply effect_trans; [eapply effect_mono; [apply phase_nvmet|exact F1]|exact F2]|].
  exists es, ys, w1. split_and!; [done|by rewrite Hlen, <- Hfst, length_fmap|done| |].
  - intros q Hq. apply phase_ports; [done|done| |done]. intros Hn. apply Hl, (view_below _ root); [done|done|by apply prefix_app_r].
  - intros j d Hj He. rewrite <- Hfst, list_lookup_fmap in Hj. destruct (ys !! j) as [[d' x]|] eqn:Ej; [|done]. injection Hj as ->.
    destruct (Hes _ _ Ej He) as (p&Hx&Hsv). cbn in Hx. subst x. exists p.
    destruct (Forall2_lookup_r _ _ _ _ _ Hys Ej) as (i&Hij&Hpi). split_and!; [done| | |done].
    + apply (Hrdy (d, Ok p)); [by eapply list_elem_of_lookup_2|done].
    + by eapply (prepared_desired _ _ _ _ _ Hij Hpi).
Qed.

(** C11: [Reconcile] prepares every export before it links any: its first phase
    leaves everything below the ports as it was.  At the end every export
    reported without an error is complete and carried by its port, whatever
    became of the exports restored with it. *)
Theorem nvme_reconcile_serves desired w r w' :
  disk_inv (w_disk w) → fs_inv (w_backend w) → loaded_root (w_backend w) → Forall plain_hosts desired → NoDup (nqn_of <$> desired) →
  nvme_Reconcile s deps uuid_String NewSHA1 order desired w = (r, w') →
  ∃ es prepared w1, r = Ok es ∧ length es = length desired ∧
    map_each (prepareNvmeItem s deps uuid_String NewSHA1) (nvmeItems s desired) w = (Ok prepared, w1) ∧
    (∀ q, root ++ ["ports"] `prefix_of` q → view (w_backend w1) q = view (w_backend w) q) ∧
    ∀ j d, desired !! j = Some d → es !! j = Some None →
      ∃ p, prepared !! j = Some (d, Ok p) ∧ target_of d (pt_target p) ∧ served p (w_backend w').
Proof using H2 Hdeps order_perm.
  intros Hd Hi Hl Hp Hnd Hr. destruct (nvme_reconcile_run _ _ _ _ Hd Hi Hl Hp Hnd Hr) as (_&_&_&es&ys&w1&?&?&?&?&Hs).
  exists es, ys, w1. split_and!; [done..|]. intros j d Hj He. destruct (Hs j d Hj He) as (p&?&Hrd&_&?). exists p. by destruct Hrd.
Qed.
End Reconcile.
