(* ===== verification/ServerRestore.v ===== *)
(** * Restoring all exports after a restart

    ReconcileState against the iSCSI and the NVMe-oF TCP handlers together:
    the two protocols live in two directories of configfs, so what one of
    them restored stays while the other one follows.  The handlers of other
    protocols (NFS) and the adopted filesystems export elsewhere. *)
From stdpp Require Import base numbers list strings gmap functions pretty relations.
From Stdlib Require Import Ascii.
From S2P Require Import Prelude GoStd GoNet GoNetip FencingMark FencingStore Backend Fencing FencingCorrect.
From S2P Require Import AgentServer RecoveryAuth Recovery FencingTheorems AgentServerCorrect.
From S2P Require Import LioFs LioTarget LioLaws ConfigfsEffects LioCorrect LioTheorems LioServing IscsiAgent IscsiAgentCorrect IscsiReconcile.
From S2P Require Import ServerExport ServerExportCorrect.
From S2P Require Import NvmetTarget NvmetLaws NvmetCorrect NvmetPorts NvmetServing NvmetIsolation NvmeAgent NvmeAgentCorrect NvmeReconcile.
Open Scope Z_scope.

(** ** Two directories *)
Section Apart.
Context {B P : Type} `{IdLaws B} (s : Server B P).
Implicit Types (b : B) (q : path).
Abbreviation nvmet := (NvmeReconcile.root s).
Abbreviation lio := (lio_root s).

Lemma roots : ∃ c, nvmet = c ++ ["nvmet"] ∧ lio = c ++ ["target"].
Proof.
  exists (joinp [] (if bool_decide (configfsRoot s = "") then DefaultConfigfsRoot else configfsRoot s)).
  split; unfold NvmeReconcile.root, lio_root; by rewrite joinp_plain.
Qed.
Lemma roots_apart q : nvmet `prefix_of` q → lio `prefix_of` q → False.
Proof. destruct roots as (c&->&->). intros Hn Hl. by pose proof (prefix_snoc_eq _ _ _ _ Hn Hl). Qed.

(** What LIO does leaves nvmet alone. *)
Lemma lio_keeps_nvmet b b' q : effect (lio_scope s) b b' → nvmet `prefix_of` q → view b' q = view b q.
Proof.
  intros He Hq. apply (effect_untouched _ _ _ _ He); [intros Hl; by eapply roots_apart|].
  apply stable_off. intros p Hp Hpq. eapply roots_apart; [exact Hq|etrans; [exact Hp|exact Hpq]].
Qed.
Lemma served_view d p b b' : NvmeReconcile.ready s d p → (∀ q, nvmet `prefix_of` q → view b' q = view b q) → served p b → served p b'.
Proof.
  intros [Ht Hs Hp] Hv [Hpre (l&Hl&Hlt) Hin]. pose proof (target_wf _ _ _ Ht Hp) as Hw. pose proof (target_root _ _ _ Ht) as HR.
  assert (0 ≤ sp_id (pt_port p)) as Hid by (destruct (spec_id _ (target_portSpec_wf _ _ Hs)); lia). split.
  - eapply prepared_view; [done| |exact Hpre]. intros q Hq. apply Hv. rewrite (subsystemDir_eq (pt_target p)), HR in Hq. etrans; [|exact Hq]. by apply prefix_app_r.
  - exists l. split; [|done]. rewrite Hv; [done|]. rewrite (portSubsystemLink_eq (pt_target p)), HR by done. by apply prefix_app_r.
  - intros v Hv'. destruct (Hin v Hv') as (x&Hx&?). exists x. split; [|done]. rewrite Hv; [done|].
    rewrite (portDir_eq (pt_target p)), HR, <- app_assoc by done. by apply prefix_app_r.
Qed.

(** What nvmet does leaves a target of LIO alone. *)
Lemma nvmet_keeps_target (t : Target) `{!wf_target t} b b' : LioTarget.ConfigfsRoot t = configfsRoot s → fs_inv b →
  view b (targetDir t) = Some NDir → effect (nvmet_scope s) b b' → agree t b b'.
Proof.
  intros HR Hi Hv He q Hq. assert (lio `prefix_of` targetDir t) as Hl.
  { assert (cfsTargetDir t = lio) as HL by (unfold cfsTargetDir, rootPath, lio_root; by rewrite HR).
    unfold targetDir, iscsiDir. rewrite HL, !joinp_plain, <- app_assoc by (done || apply wf_IQN). by apply prefix_app_r. }
  assert (∀ p, nvmet `prefix_of` p → p `prefix_of` q → False) as Hno by (intros p Hp Hpq; apply (roots_apart q); by etrans).
  apply (effect_untouched _ _ _ _ He); [intros Hm; by apply (Hno q)|]. intros p [Hp|Hp] Hpq; [by destruct (Hno p)|].
  split; [|intros Hm; by apply (Hno p)]. destruct (prefix_weak_total p (targetDir t) q Hpq Hq) as [[r Hr]|Hr].
  - apply (law_above b p r Hi). rewrite <- Hr, Hv. done.
  - exfalso. destruct roots as (c&Hn&Hlc). rewrite Hn in Hp. rewrite Hlc in Hl.
    assert (c ++ ["target"] `prefix_of` c ++ ["nvmet"]) as E%prefix_app_head by (do 2 (etrans; [eassumption|]); done).
    by apply prefix_cons_inv_1 in E.
Qed.
End Apart.

Section Restore.
Context {B P C : Type} `{IdLaws B} (s : Server B P) (fx : FilesystemExports B P) (deps : IscsiDeps B C) {Hdeps : DepsLook deps}.
Context (uuid_String : string → option string) (NewSHA1 : string → string) (order : list (string * string) → list (string * string)).
Context (order_perm : ∀ l, order l ≡ₚ l).
Implicit Types (a : agent_state B) (vol : VolumeDesiredState P) (w : world B) (d : ExportDesiredState P).
Abbreviation ISCSI := PROTOCOL_TYPE_ISCSI.
Abbreviation NVMe := PROTOCOL_TYPE_NVMEOF_TCP.

(** A computation that leaves configfs alone. *)
Definition elsewhere {A} (m : Agent B A) : Prop := agent_does {| s_new := nothing; s_mod := nothing; s_on := nothing |} m.
Lemma elsewhere_view {A} (m : Agent B A) w r w' : elsewhere m → disk_inv (w_disk w) → fs_inv (w_backend w) → m w = (r, w') →
  disk_inv (w_disk w') ∧ fs_inv (w_backend w') ∧ ∀ q, view (w_backend w') q = view (w_backend w) q.
Proof.
  intros Hm Hd Hi Hr. destruct (Hm _ _ _ Hd Hi Hr) as [D F]. split_and!; [by eapply disk_steps_inv|apply F|].
  intros q. apply (effect_untouched _ _ _ _ F); [by intros []|]. apply stable_off. by intros ? [].
Qed.

(** The handlers of the server: the two modelled ones, and others that report
    on every entry and export elsewhere. *)
Record serves_protocols : Prop := {
  sp_iscsi h : handlerForProtocol s ISCSI = Ok h → h = iscsi_handler s deps;
  sp_nvme h : handlerForProtocol s NVMe = Ok h → h = nvme_handler s deps uuid_String NewSHA1 order;
  sp_other p h desired : p ≠ ISCSI → p ≠ NVMe → handlerForProtocol s p = Ok h →
    elsewhere (Reconcile h desired) ∧ ∀ w r w', Reconcile h desired w = (r, w') → ∃ errs, r = Ok errs ∧ length errs = length desired;
  sp_filesystem vol : elsewhere (reconcileFilesystem fx vol);
}.

(** A state with one export of a volume per protocol, one target per volume. *)
Record desired_state (vols : list (VolumeDesiredState P)) : Prop := {
  ds_one p vol : vol ∈ vols → (length (of_protocol p (vd_Exports vol)) ≤ 1)%nat;
  ds_target i j v1 v2 : vols !! i = Some v1 → vols !! j = Some v2 →
    ReplaceAll "/" "." (vd_VolumeId v1) = ReplaceAll "/" "." (vd_VolumeId v2) → i = j;
  ds_name vol : vol ∈ vols → vd_VolumeId vol ≠ "./";
  ds_hosts vol e h : vol ∈ vols → e ∈ vd_Exports vol → ee_ProtocolType e = NVMe → h ∈ ee_AllowedInitiators e → plain_name h = true;
}.
Definition uses_nvme (vols : list (VolumeDesiredState P)) : Prop := ∃ vol e, vol ∈ vols ∧ e ∈ vd_Exports vol ∧ ee_ProtocolType e = NVMe.

(** ** The contracts *)

Definition node_ok (nvme : Prop) w : Prop := disk_inv (w_disk w) ∧ fs_inv (w_backend w) ∧ (nvme → loaded_root s (w_backend w)).
Definition restorable (nvme : Prop) (p : ProtocolType) (desired : list (ExportDesiredState P)) : Prop :=
  match p with
  | PROTOCOL_TYPE_ISCSI => distinct s desired
  | PROTOCOL_TYPE_NVMEOF_TCP => nvme ∧ Forall plain_hosts desired ∧ NoDup (nqn_of <$> desired)
  | _ => True
  end.
Definition export_restored (p : ProtocolType) d (w : world B) : Prop :=
  match p with
  | PROTOCOL_TYPE_ISCSI => ∃ t, reconcileTarget s d = Ok t ∧ wf_target t ∧
      (∀ n, n ∈ AllowedInitiators t → plain_name n = true) ∧ serving t (w_backend w)
  | PROTOCOL_TYPE_NVMEOF_TCP => ∃ p, NvmeReconcile.ready s d p ∧ desired_target s d (pt_target p) ∧ served p (w_backend w)
  | _ => True
  end.

Lemma restored_view p d w w' : (∀ q, view (w_backend w') q = view (w_backend w) q) → export_restored p d w → export_restored p d w'.
Proof.
  intros Hv. destruct p; cbn; try done.
  - intros (x&Hx&?&?). exists x. split_and!; [done|done|]. eapply (served_view s); [done|intros; apply Hv|done].
  - intros (t&?&?&?&?). exists t. split_and!; [done..|]. by eapply agree_serving; [|intros q _; apply Hv|].
Qed.

Lemma iscsi_restores nvme : restores (node_ok nvme) (restorable nvme) export_restored ISCSI (iscsi_handler s deps).
Proof using Hdeps.
  intros desired w r w' HD (Hd&Hi&Hn) Hr. cbn [Reconcile iscsi_handler] in Hr.
  destruct (iscsi_Reconcile_below s deps _ _ _ _ (di_name _ _ HD) Hd Hi Hr) as [Hd' HF].
  destruct (reconcile_serves s deps _ _ _ _ Hd Hi HD Hr) as (errs&->&Hl&Hs).
  pose proof (λ q, lio_keeps_nvmet s _ _ q HF) as Hv. split_and!.
  - split_and!; [done|apply HF|]. intros Hx. unfold loaded_root. rewrite Hv by by apply prefix_app_r. by apply Hn.
  - intros q d Hq. destruct q; cbn; try done. intros (x&Hx&?&?). exists x. split_and!; [done|done|]. by eapply (served_view s).
  - exists errs. split_and!; [done|done|]. intros j d Hj He. destruct (Hs j d Hj He) as (t&Ht&?&?). exists t. split_and!; [done| |done..].
    eapply reconcileTarget_wf; [done|]. eapply (di_name _ _ HD). by eapply list_elem_of_lookup_2.
Qed.
Lemma nvme_restores nvme :
  restores (node_ok nvme) (restorable nvme) export_restored NVMe (nvme_handler s deps uuid_String NewSHA1 order).
Proof using Hdeps order_perm H2.
  intros desired w r w' (Hx&Hh&Hnd) (Hd&Hi&Hn) Hr. cbn [Reconcile nvme_handler] in Hr.
  destruct (nvme_reconcile_run s deps uuid_String NewSHA1 order order_perm _ _ _ _ Hd Hi (Hn Hx) Hh Hnd Hr)
    as (Hd'&Hl'&HF&es&ys&w1&->&Hlen&_&_&Hs). split_and!.
  - split_and!; [done|apply HF|done].
  - intros q d Hq. destruct q; cbn; try done. intros (t&Ht&Hw&Hp&Hserv). exists t. split_and!; [done..|].
    eapply agree_serving; [done| |exact Hserv]. apply (nvmet_keeps_target s); [done| |done|by apply serving_there|done].
    destruct (reconcileTarget_inv _ _ _ Ht) as (_&t0&Ht0&->&_). by apply volumeTarget_root in Ht0.
  - exists es. split_and!; [done|done|]. intros j d Hj He. destruct (Hs j d Hj He) as (p&_&?&?&?). by exists p.
Qed.
Lemma handlers_restore nvme p h : serves_protocols → handlerForProtocol s p = Ok h →
  restores (node_ok nvme) (restorable nvme) export_restored p h.
Proof using Hdeps order_perm H2.
  intros Hsp Hh. destruct (decide (p = ISCSI)) as [->|H3]; [rewrite (sp_iscsi Hsp _ Hh); apply iscsi_restores|].
  destruct (decide (p = NVMe)) as [->|H4]; [rewrite (sp_nvme Hsp _ Hh); apply nvme_restores|].
  intros desired w r w' _ (Hd&Hi&Hn) Hr. destruct (sp_other Hsp p h desired H3 H4 Hh) as [He Ho].
  destruct (elsewhere_view _ _ _ _ He Hd Hi Hr) as (Hd'&Hi'&Hv). split_and!.
  - split_and!; [done|done|]. unfold loaded_root. by rewrite Hv.
  - intros q d _. by apply restored_view.
  - destruct (Ho _ _ _ Hr) as (errs&->&?). exists errs. split_and!; [done..|]. intros j d _ _. by destruct p.
Qed.

(** The entries collected from such a state can be restored together. *)
Lemma collected_restorable vols c p : desired_state vols → collected_inv s vols (length vols) c → co_desired c p ≠ [] →
  restorable (uses_nvme vols) p (co_desired c p).
Proof.
  intros Hs Hc Hne. pose proof (ci_once _ _ _ _ Hc p (ds_one _ Hs p)) as Hn. pose proof (ci_entry _ _ _ _ Hc p) as Hent.
  assert (∀ j1 j2 d1 d2, co_desired c p !! j1 = Some d1 → co_desired c p !! j2 = Some d2 →
    ReplaceAll "/" "." (ds_VolumeID d1) = ReplaceAll "/" "." (ds_VolumeID d2) → j1 = j2) as Huniq.
  { intros j1 j2 d1 d2 H3 H4 E. destruct (Hent _ _ H3) as (i1&v1&e1&Hi1&Hv1&_&_&->&_). destruct (Hent _ _ H4) as (i2&v2&e2&Hi2&Hv2&_&_&->&_).
    assert (i1 = i2) as <- by (by eapply (ds_target _ Hs)). by eapply NoDup_lookup. }
  destruct p; cbn; try done.
  - split_and!.
    + destruct (co_desired c NVMe) as [|d l] eqn:E; [done|]. destruct (Hent 0%nat d) as (i&vol&e&_&Hv&He&Hp&_); [done|].
      exists vol, e. split_and!; [by eapply list_elem_of_lookup_2|done|done].
    + apply Forall_lookup. intros j d Hj h. destruct (Hent _ _ Hj) as (i&vol&e&_&Hv&He&Hp&->&_). cbn.
      eapply (ds_hosts _ Hs); [by eapply list_elem_of_lookup_2|done|done].
    + apply NoDup_alt. intros j1 j2 x H3 H4. apply list_lookup_fmap_Some_1 in H3 as (d1&->&H3). apply list_lookup_fmap_Some_1 in H4 as (d2&E&H4).
      eapply Huniq; [done..|]. unfold nqn_of in E. cbn in E. injection E as E. exact E.
  - split.
    + intros j1 j2 d1 d2 t1 t2 H3 H4 Ht1 Ht2 HI. eapply Huniq; [done..|].
      apply reconcileTarget_inv in Ht1 as (_&a1&(?&_&->)%volumeTarget_inv&_&HI1). apply reconcileTarget_inv in Ht2 as (_&a2&(?&_&->)%volumeTarget_inv&_&HI2).
      cbn in HI1, HI2. rewrite HI1, HI2 in HI. by apply string_app_inj_l in HI.
    + intros d (j&Hd)%list_elem_of_lookup. destruct (Hent _ _ Hd) as (i&vol&e&_&Hv&_&_&->&_).
      apply (ds_name _ Hs). by eapply list_elem_of_lookup_2.
Qed.

(** C9: When the agent is sent its complete state after a restart, the restore
    ends, every volume is reported on, and of each managed volume reported
    restored, whatever happened to the others, every iSCSI and NVMe-oF TCP
    export is restored when the call returns: its iSCSI target is on, guarded
    by its policy and with exactly the allowed initiators (off for a volume
    attached locally); its NVMe-oF subsystem is complete, with the allowed
    hosts, and carried by its port.  The state may mix protocols, NFS exports
    and adopted filesystems, which are exported elsewhere; no volume has two
    exports of one protocol, no two volumes share a target. *)
Theorem ReconcileState_restores req a r a' :
  serves_protocols → disk_inv (w_disk (ag_world a)) → fs_inv (w_backend (ag_world a)) →
  (uses_nvme (rs_Volumes req) → loaded_root s (w_backend (ag_world a))) →
  desired_state (rs_Volumes req) → rs_Complete req = true → ReconcileState s fx req a = (r, a') →
  ag_exportRestorePending a' = false ∧
  ∃ results, r = Ok results ∧ map ri_VolumeId results = map vd_VolumeId (rs_Volumes req) ∧
    ∀ i vol e x, rs_Volumes req !! i = Some vol → vd_FilesystemAdoption vol = None → e ∈ vd_Exports vol →
      results !! i = Some x → ri_Success x = true →
      let d := exportDesiredState vol e (volume_device s vol) in
      (ee_ProtocolType e = ISCSI → ∃ t, reconcileTarget s d = Ok t ∧ serving t (w_backend (ag_world a'))) ∧
      (ee_ProtocolType e = NVMe → ∃ p, desired_target s d (pt_target p) ∧ target_portSpec (pt_target p) = Ok (pt_port p) ∧
        served p (w_backend (ag_world a'))).
Proof using Hdeps order_perm H2.
  intros Hsp Hd Hi Hl Hs Hc Hr. set (nvme := uses_nvme (rs_Volumes req)) in *.
  assert (∀ vol w r w', node_ok nvme w → reconcileFilesystem fx vol w = (r, w') → node_ok nvme w') as Hfx.
  { intros vol w r0 w' (Hd0&Hi0&Hn0) Hr0. destruct (elsewhere_view _ _ _ _ (sp_filesystem Hsp vol) Hd0 Hi0 Hr0) as (?&?&Hv).
    split_and!; [done|done|]. unfold loaded_root. by rewrite Hv. }
  destruct (ReconcileState_run s fx (node_ok nvme) (restorable nvme) export_restored (λ p h, handlers_restore nvme p h Hsp) Hfx req a r a'
    (conj Hd (conj Hi Hl)) Hc (λ c p, collected_restorable _ c p Hs) Hr) as (Hpend&_&results&->&Hids&Hres).
  split; [done|]. exists results. split_and!; [done|done|]. intros i vol e x Hv Hm He Hx Hok. pose proof (Hres i vol e x Hv Hm He Hx Hok) as Hd'.
  split; intros Hp; rewrite Hp in Hd'; cbn in Hd'.
  - destruct Hd' as (t&?&_&_&?). by exists t.
  - destruct Hd' as (p&[]&?&?). by exists p.
Qed.
End Restore.
