(* ===== verification/NvmeDemo.v ===== *)
(** * The NVMe-oF components on a configfs in memory

    An export is applied, switched off and on, shared and removed on the
    configfs of [NvmetMemory], and an agent restores two exports after a
    restart.  The theorems on NVMe-oF are applied to these runs. *)
From stdpp Require Import base numbers list strings gmap pretty relations.
From Stdlib Require Import Ascii.
From S2P Require Import Prelude GoStd GoNet FencingMark FencingStore Backend Fencing FencingCorrect FencingTheorems AgentServer IscsiAgent IscsiAgentCorrect.
From S2P Require Import LioFs LioLaws ConfigfsEffects NvmetTarget NvmetLaws NvmetCorrect NvmetPorts NvmetServing NvmetIsolation NvmetRemoval NvmetMemory.
From S2P Require Import NvmeAgent NvmeAgentCorrect NvmeReconcile.
Open Scope Z_scope.

Definition nd_uuid : string → option string := Some.
Definition nd_sha1 (s : string) : string := "u:" +:+ s.
Definition nd_order : list (string * string) → list (string * string) := λ l, reverse l.
Lemma nd_order_perm l : nd_order l ≡ₚ l.
Proof. apply reverse_Permutation. Qed.
Definition nd_claim {K} (d : string) : M K go_error unit := mret tt.
Definition nd_release {K} (c : unit) : M K go_error unit := mret tt.
Lemma nd_claim_looks {K} `{FSLaws K} d : looks (K := K) (nd_claim d).
Proof. intros k Hk. by apply wp_ret. Qed.
Lemma nd_release_looks {K} `{FSLaws K} c : looks (K := K) (nd_release c).
Proof. intros k Hk. by apply wp_ret. Qed.

Definition nd_target : NvmetTarget := {|
  ConfigfsRoot := ""; SubsystemNQN := "nqn.2026-01.com.bhyoo.pillar-csi:p.v"; NamespaceID := 1; DevicePath := "/dev/p/v";
  BindAddress := "10.0.0.1"; Port := 0; AllowedHosts := ["nqn.h1"]; ACLEnabled := true; InlineDataSize := Some 8192;
  MaxDataTransferSize := Some 131072; PortMDTSFloor := None; TargetIdentity := zeroIdentity; LocalAttach := false |}.
#[export] Instance nd_target_wf : wf_nvmet nd_target.
Proof. split; [reflexivity|by compute|]. intros h ->%list_elem_of_singleton. reflexivity. Qed.

Definition nd_apply : M Mem go_error unit := Apply nd_claim nd_release nd_uuid nd_sha1 nd_order nd_target.
Definition nd_applied : GoResult unit * Mem := nd_apply freshMem.
Lemma ok_run {W E} (m : M W E unit) w : (m w).1 = Ok tt → m w = (Ok tt, (m w).2).
Proof. intros <-. apply surjective_pairing. Qed.
Lemma nd_applied_eq : nd_apply freshMem = (Ok tt, nd_applied.2).
Proof. apply ok_run. vm_compute. reflexivity. Qed.
Lemma nd_applied_inv : fs_inv nd_applied.2.
Proof. apply mem_check_sound. vm_compute. reflexivity. Qed.
Lemma nd_loaded : loaded nd_target freshMem.
Proof. unfold loaded. vm_compute. done. Qed.
Lemma nd_applied_loaded : loaded nd_target nd_applied.2.
Proof. unfold loaded. vm_compute. done. Qed.

(** ** One export *)

Definition nd_port : path := portDir nd_target (stablePortID "10.0.0.1" 4420).

Lemma Apply_links_prepared_witness : ∃ id, desiredIdentity nd_uuid nd_sha1 nd_target = Ok id ∧ prepared nd_target id nd_applied.2.
Proof.
  refine (Apply_links_prepared nd_claim nd_release nd_uuid nd_sha1 nd_order nd_claim_looks nd_release_looks nd_order_perm nd_target
    freshMem _ nd_applied.2 nd_port freshMem_inv _ nd_applied_eq _ _ _); [by vm_compute|by exists [Itoa (stablePortID "10.0.0.1" 4420)]; vm_compute|by vm_compute..].
Defined.
Lemma nvmet_Apply_serves_witness : ∃ id spec,
  desiredIdentity nd_uuid nd_sha1 nd_target = Ok id ∧ target_portSpec nd_target = Ok spec ∧ prepared nd_target id nd_applied.2 ∧
  port_serves spec (portDir nd_target (sp_id spec)) nd_applied.2 ∧
  link nd_applied.2 (portSubsystemLink nd_target (sp_id spec)) (subsystemDir nd_target).
Proof.
  exact (nvmet_Apply_serves nd_claim nd_release nd_uuid nd_sha1 nd_order nd_claim_looks nd_release_looks nd_order_perm nd_target
    freshMem nd_applied.2 freshMem_inv nd_applied_eq).
Defined.
Lemma Apply_claims_device_witness : LocalAttach nd_target = false ∧ ∃ k1 s,
  view k1 (namespaceDir nd_target ++ ["device_path"]) = Some (NAttr s) ∧ stands s (DevicePath nd_target) ∧ claimed nd_claim (k1 : Mem) (attr_text s).
Proof.
  refine (Apply_claims_device nd_claim nd_release nd_uuid nd_sha1 nd_order nd_claim_looks nd_release_looks nd_order_perm nd_target
    freshMem _ nd_applied.2 freshMem_inv eq_refl _ nd_applied_eq _).
  - intros s. vm_compute. done.
  - intros Hoff. specialize (Hoff ("1" +:+ newline)). vm_compute in Hoff. by specialize (Hoff eq_refl).
Defined.

(** Applied again, and with the identity of another record. *)
Definition nd_other : NvmetTarget := set_Identity nd_target {| id_UUID := "a"; id_NGUID := "b"; id_Serial := "c" |}.
#[export] Instance nd_other_wf : wf_nvmet nd_other.
Proof. split; [reflexivity|by compute|]. intros h ->%list_elem_of_singleton. reflexivity. Qed.
Definition nd_uuid_node : node := NAttr ("u:uuid:nqn.2026-01.com.bhyoo.pillar-csi:p.v/namespaces/1" +:+ newline).
Definition nd_reapplied : GoResult unit * Mem := Apply nd_claim nd_release nd_uuid nd_sha1 nd_order nd_other nd_applied.2.
Lemma live_identity_kept_witness : view nd_reapplied.2 (namespaceDir nd_other ++ ["device_uuid"]) = Some nd_uuid_node.
Proof.
  destruct (live_identity_kept nd_claim nd_release nd_uuid nd_sha1 nd_order nd_claim_looks nd_release_looks nd_order_perm nd_other
    nd_applied.2 nd_reapplied.1 nd_reapplied.2 "device_uuid" nd_uuid_node nd_applied_inv) as [H|[H _]];
    [exists ("1" +:+ newline); by vm_compute|apply surjective_pairing|by left|by vm_compute|exact H|done].
Defined.

Definition nd_second : NvmetTarget := {|
  ConfigfsRoot := ""; SubsystemNQN := "nqn.2026-01.com.bhyoo.pillar-csi:p.w"; NamespaceID := 1; DevicePath := "/dev/p/w";
  BindAddress := "10.0.0.1"; Port := 0; AllowedHosts := ["nqn.h1"]; ACLEnabled := true; InlineDataSize := Some 16384;
  MaxDataTransferSize := Some 65536; PortMDTSFloor := None; TargetIdentity := zeroIdentity; LocalAttach := false |}.
#[export] Instance nd_second_wf : wf_nvmet nd_second.
Proof. split; [reflexivity|by compute|]. intros h ->%list_elem_of_singleton. reflexivity. Qed.
Definition nd_refused : GoResult unit * Mem :=
  run_nvmet nd_claim nd_release nd_uuid nd_sha1 nd_order nd_second NApply nd_applied.2.
(** The second export asks for other limits of the shared port: it is
    refused, and the first one stays. *)
Lemma nvmet_isolated_witness : nd_refused.1 = Err ErrPortInlineDataSizeConflict ∧ foreign nd_second nd_applied.2 nd_refused.2.
Proof.
  split; [by vm_compute|].
  refine (nvmet_isolated nd_claim nd_release nd_uuid nd_sha1 nd_order nd_claim_looks nd_release_looks nd_order_perm nd_second NApply
    nd_applied.2 nd_refused.1 nd_refused.2 I nd_applied_inv _ (surjective_pairing _)).
  unfold loaded. by vm_compute.
Defined.

Definition nd_removed : GoResult unit * Mem := Remove nd_target nd_applied.2.
Lemma nvmet_Remove_complete_witness : (∀ q, subsystemDir nd_target `prefix_of` q → view nd_removed.2 q = None) ∧
  ∀ name, plain_name name = true → view nd_removed.2 (portPath nd_target name ++ ["subsystems"; SubsystemNQN nd_target]) = None.
Proof.
  refine (nvmet_Remove_complete nd_target nd_applied.2 nd_removed.2 nd_applied_inv nd_applied_loaded _). apply ok_run. by vm_compute.
Defined.
Definition nd_denied : GoResult unit * Mem := DenyHost nd_target "nqn.h1" nd_applied.2.
Lemma DenyHost_complete_witness : view nd_denied.2 (allowedHostLink nd_target "nqn.h1") = None ∧
  (view nd_denied.2 (hostDir nd_target "nqn.h1") = None ∨ ∃ n, plain_name n = true ∧ view nd_denied.2 (allowed_at nd_target n "nqn.h1") ≠ None).
Proof. refine (DenyHost_complete nd_target "nqn.h1" nd_applied.2 nd_denied.2 eq_refl nd_applied_inv _). apply ok_run. by vm_compute. Defined.

(** ** A batch of exports *)

Definition nd_batch : list (GoResult NvmetTarget) := [Ok nd_target; Err (EPlain "bad volume"); Ok nd_second].
Definition nd_floored (t : NvmetTarget) : NvmetTarget := set_PortMDTSFloor t (Some 65536).
Lemma floors_agree_witness : ∃ spec1 spec2, target_portSpec (nd_floored nd_target) = Ok spec1 ∧ target_portSpec (nd_floored nd_second) = Ok spec2 ∧
  linkedPortMDTSAllows spec2 (idlePortMDTS spec1) = Ok tt.
Proof.
  do 2 eexists. split; [by vm_compute|]. split; [by vm_compute|].
  refine (floors_agree nd_batch (nd_floored nd_target) (nd_floored nd_second) _ _ _ _ eq_refl _ _); [by left|do 2 right; by left|by vm_compute..].
Defined.

(** ** Identities *)

Definition Node : Type := Mem * idDisk.
#[export] Instance Node_FS : FS Node := Beside_FS.
#[export] Instance Node_laws : FSLaws Node := Beside_laws.
#[export] Instance Node_ids : IdStore Node := {| ids := snd; set_ids d n := (n.1, d) |}.
#[export] Instance Node_idlaws : IdLaws Node.
Proof. split; [done|done|done|]. intros p [m d]. cbn. by destruct (mview m p) as [[]|]. Qed.

Definition nd_ids : idDisk := {| id_stateDir := true; id_live := ∅; id_synced := ∅; id_dirSynced := true; id_faults := [] |}.
Definition nd_fence : option FencingToken := Some {| VolumeUid := "uid"; TokenGeneration := 1 |}.
(** The export is live with an identity that is not the derived one. *)
Definition nd_live : Mem := (Apply nd_claim nd_release nd_uuid nd_sha1 nd_order nd_other freshMem).2.
Definition nd_node : Node := (nd_live, nd_ids).
Definition nd_resolve : Node → GoResult Identity * Node := resolveNVMeIdentity nd_uuid nd_sha1 "p/v" nd_fence nd_target.
Lemma nd_node_inv : fs_inv nd_node.
Proof. apply mem_check_sound. vm_compute. reflexivity. Qed.
Lemma nd_resolve_ok : (nd_resolve nd_node).1 = Ok (TargetIdentity nd_other).
Proof. vm_compute. reflexivity. Qed.
Lemma ok_run_value {W E A} (m : M W E A) w a : (m w).1 = Ok a → m w = (Ok a, (m w).2).
Proof. intros <-. apply surjective_pairing. Qed.

Lemma live_identity_adopted_witness : TargetIdentity nd_other = {| id_UUID := "a"; id_NGUID := "b"; id_Serial := "c" |}.
Proof.
  refine (live_identity_adopted nd_uuid nd_sha1 "p/v" nd_fence nd_target "c" "a" "b" _ nd_node (nd_resolve nd_node).2 nd_node_inv
    _ _ _ _ _ _ _ (ok_run_value _ _ _ nd_resolve_ok)); try done; eexists; (split; [by vm_compute|by vm_compute]).
Defined.

(** The node restarts: the kernel has forgotten the export, and of the records
    what was synced is left. *)
Definition nd_rebooted : Node :=
  (freshMem, {| id_stateDir := true; id_live := id_synced (nd_resolve nd_node).2.2; id_synced := id_synced (nd_resolve nd_node).2.2;
                id_dirSynced := true; id_faults := [] |}).
Lemma identity_reproduced_witness : (nd_resolve nd_rebooted).1 = Ok (TargetIdentity nd_other).
Proof.
  destruct (nd_resolve nd_rebooted).1 as [id'|e] eqn:E; [|vm_compute in E; discriminate E]. f_equal.
  refine (identity_reproduced nd_uuid nd_sha1 "p/v" nd_fence nd_target (TargetIdentity nd_other) id' nd_node (nd_resolve nd_node).2 nd_rebooted
    (nd_resolve nd_rebooted).2 nd_node_inv freshMem_inv (ok_run_value _ _ _ nd_resolve_ok) _ _ (ok_run_value _ _ _ E));
    [right; split; [by vm_compute|left; by vm_compute]|by vm_compute].
Defined.

(** The exception: the first call fails at the fsync of its record, the retry
    succeeds without one, and a crash recreates the export with the derived
    identity. *)
Definition nd_crash (n : Node) : Node :=
  let synced := if id_dirSynced n.2 then id_synced n.2 else ∅ in
  (freshMem, {| id_stateDir := true; id_live := synced; id_synced := synced; id_dirSynced := true; id_faults := [] |}).
Definition nd_unsynced : Node :=
  (nd_live, {| id_stateDir := true; id_live := ∅; id_synced := ∅; id_dirSynced := true; id_faults := replicate 11 false ++ [true] |}).
Definition nd_failed : GoResult Identity * Node := nd_resolve nd_unsynced.
Definition nd_retried : GoResult Identity * Node := nd_resolve nd_failed.2.
Lemma identity_lost_unsynced :
  is_ok nd_failed.1 = false ∧ nd_retried.1 = Ok (TargetIdentity nd_other) ∧
  (nd_resolve (nd_crash nd_retried.2)).1 = Ok (DeriveIdentity nd_sha1 (SubsystemNQN nd_target) (NamespaceID nd_target)).
Proof. split_and!; vm_compute; reflexivity. Qed.

(** ** A restart *)

Definition nd_deps : IscsiDeps Node unit := {|
  deviceChecker := None; OsStatDeviceChecker := λ _, mret true; polls := 3;
  deviceClaimer := nd_claim; releaseClaim := nd_release; deriveUnitSerial := λ _, "serial" |}.
#[export] Instance nd_deps_look : DepsLook nd_deps.
Proof. split; intros; intros k Hk; by (apply wp_ret || done). Qed.
Definition nd_backend : VolumeBackend Node unit := {|
  be_Type := BACKEND_TYPE_ZFS_ZVOL; be_Layout := {| ly_ParentDataset := ""; ly_ThinPool := ""; ly_HostRoot := "" |};
  be_DevicePath := λ v, "/dev/" +:+ v; be_Create := λ _ _ _, mret ("/d"%string, 0); be_Delete := λ _, mret tt;
  be_Expand := λ _ n, mret n; be_Import := None; be_ImportLV := None; be_VerifyLV := None; be_InspectLV := None;
  be_ExistingFilesystemIdentity := None |}.
Definition nd_server : Server Node unit := {|
  backends := {[ "p" := nd_backend ]}; backendVariants := ∅; nfsManager := false;
  handlerForProtocol := λ _, Err (EStatus Unimplemented "protocol");
  Backend.ResizeNamespace := λ _, mret tt; configfsRoot := ""; configfs := λ _ _, CfsAbsent |}.

Definition nd_desired (v : string) (mdts : Z) : ExportDesiredState unit := {|
  ds_VolumeID := v; ds_DevicePath := ""; ds_BindAddress := ""; ds_Port := 0;
  ds_ProtocolParams := PPNvmeofTcp {| np_BindAddress := "10.0.0.1"; np_Port := 4420; np_InCapsuleDataSize := 8192; np_MaxDataTransferSize := Some mdts |};
  ds_AllowedInitiators := ["nqn.h1"]; ds_ACLEnabled := true; ds_Fence := nd_fence; ds_LocalAttach := false;
  ds_FilesystemAdoption := None; ds_CapacityBytes := 0; ds_BackendParams := tt |}.
Definition nd_batch_desired : list (ExportDesiredState unit) := [nd_desired "p/v" 131072; nd_desired "p/w" 65536; nd_desired "bad" 65536].
Definition nd_world : world Node := World ex_disk [] (freshMem, nd_ids).
Definition nd_reconciled := nvme_Reconcile nd_server nd_deps nd_uuid nd_sha1 nd_order nd_batch_desired nd_world.

Lemma nvme_reconcile_serves_witness : ∃ es prepared w1,
  nd_reconciled.1 = Ok es ∧ length es = 3%nat ∧
  map_each (prepareNvmeItem nd_server nd_deps nd_uuid nd_sha1) (nvmeItems nd_server nd_batch_desired) nd_world = (Ok prepared, w1) ∧
  (∀ q, NvmeReconcile.root nd_server ++ ["ports"] `prefix_of` q → view (w_backend w1) q = view (w_backend nd_world) q) ∧
  ∀ j d, nd_batch_desired !! j = Some d → es !! j = Some None →
    ∃ p, prepared !! j = Some (d, Ok p) ∧ target_of nd_server d (pt_target p) ∧ served p (w_backend nd_reconciled.2).
Proof.
  refine (nvme_reconcile_serves nd_server nd_deps nd_uuid nd_sha1 nd_order nd_order_perm nd_batch_desired nd_world nd_reconciled.1 nd_reconciled.2
    ex_disk_inv freshMem_inv _ _ _ (surjective_pairing _)).
  - by vm_compute.
  - repeat constructor; intros h ->%list_elem_of_singleton; reflexivity.
  - vm_compute. repeat (apply NoDup_cons_2; [by rewrite ?elem_of_cons, ?elem_of_nil; intros Hin; destruct_or? Hin|]). apply NoDup_nil_2.
Defined.
(** Two exports are served, on one port; the third names no pool. *)
Lemma nd_reconciled_results : ∃ e, nd_reconciled.1 = Ok [None; None; Some e].
Proof. eexists. vm_compute. reflexivity. Qed.
