(* ===== verification/RestoreDemo.v ===== *)
(** * A restart with exports of several protocols

    A node whose kernel kept an iSCSI target, switched off, and forgot an
    NVMe-oF export.  The complete state restores both, beside an NFS export
    and a volume that cannot be restored. *)
From stdpp Require Import base numbers list strings gmap functions pretty relations.
From Stdlib Require Import Ascii.
From S2P Require Import Prelude GoStd GoNet GoNetip FencingMark FencingStore Backend Fencing FencingCorrect.
From S2P Require Import AgentServer RecoveryAuth Recovery FencingTheorems AgentServerCorrect.
From S2P Require Import LioFs LioTarget LioLaws ConfigfsEffects LioCorrect LioTheorems LioServing IscsiAgent IscsiAgentCorrect IscsiReconcile.
From S2P Require Import ServerExport ServerExportCorrect LioKernel LioKernelLaws.
From S2P Require Import NvmetTarget NvmetLaws NvmetCorrect NvmetPorts NvmetServing NvmetIsolation NvmetMemory NvmeAgent NvmeAgentCorrect NvmeReconcile.
From S2P Require Import ServerRestore NvmeDemo.
Open Scope Z_scope.

Abbreviation rd_config := ["sys"; "kernel"; "config"].
Abbreviation rd_iqn := "iqn.2026-01.com.bhyoo.pillar-csi:p.w".
Abbreviation rd_initiator := "iqn.2020-01.a:i".
(** What LIO kept, below its directory. *)
Definition rd_kept : list (path * node) :=
  let target l := "target" :: l in
  let tpg l := target ("iscsi" :: rd_iqn :: "tpgt_1" :: l) in
  let store l := target ("core" :: "iblock_3260" :: "p.w" :: l) in
  [(target [], NDir); (target ["iscsi"], NDir); (target ["iscsi"; rd_iqn], NDir); (tpg [], NDir);
   (tpg ["enable"], text "0"); (tpg ["attrib"], NDir); (tpg ["attrib"; "authentication"], text "1"); (tpg ["attrib"; "generate_node_acls"], text "1");
   (tpg ["np"], NDir); (tpg ["lun"], NDir); (tpg ["lun"; "lun_0"], NDir);
   (tpg ["lun"; "lun_0"; "backstore"], NLink ("/sys/kernel/config/target/core/iblock_3260/p.w"));
   (tpg ["acls"], NDir); (tpg ["acls"; rd_initiator], NDir); (tpg ["acls"; rd_initiator; "attrib"], NDir);
   (tpg ["acls"; rd_initiator; "attrib"; "authentication"], text "0");
   (target ["core"], NDir); (target ["core"; "iblock_3260"], NDir); (store [], NDir); (store ["enable"], text "1");
   (store ["info"], text "Status: ACTIVATED UDEV PATH: /dev/p/w readonly: 0"); (store ["attrib"], NDir); (store ["attrib"; "emulate_tpu"], text "1");
   (store ["wwn"], NDir); (store ["wwn"; "vpd_unit_serial"], text "T10 VPD Unit Serial Number: serial")].
Definition rd_mem : Mem := foldr (λ e, mset (rd_config ++ e.1) e.2) freshMem rd_kept.
Lemma rd_mem_inv : fs_inv rd_mem.
Proof. apply mem_check_sound. vm_compute. reflexivity. Qed.

Definition rd_nfs : AgentProtocolHandler Node unit := {|
  Export_ := λ _, throw (EPlain ""); Unexport := λ _ _, mret tt; AllowInitiator := λ _ _ _ _, mret tt; DenyInitiator := λ _ _ _, mret tt;
  SetLocalAttach := λ _ _ _, throw (EPlain ""); Reconcile := λ desired, mret (map (λ _, None) desired) |}.
Definition rd_server : Server Node unit := {|
  backends := backends nd_server; backendVariants := ∅; nfsManager := false;
  handlerForProtocol := λ p,
    match p with
    | PROTOCOL_TYPE_ISCSI => Ok (iscsi_handler nd_server nd_deps)
    | PROTOCOL_TYPE_NVMEOF_TCP => Ok (nvme_handler nd_server nd_deps nd_uuid nd_sha1 nd_order)
    | PROTOCOL_TYPE_NFS => Ok rd_nfs
    | _ => Err (EStatus Unimplemented "protocol")
    end;
  Backend.ResizeNamespace := λ _, mret tt; configfsRoot := ""; configfs := λ _ _, CfsAbsent |}.
Definition rd_fx : FilesystemExports Node unit := {|
  exportFilesystem := λ _ _ _, throw (EPlain ""); unexportFilesystem := λ _ _ _, mret tt; changeFilesystemClient := λ _, mret tt;
  denyFilesystemClient := λ _, mret tt; localFilesystem := λ _, throw (EPlain ""); reconcileFilesystem := λ _, mret tt |}.
Lemma rd_protocols : serves_protocols rd_server rd_fx nd_deps nd_uuid nd_sha1 nd_order.
Proof.
  split; [by intros h [= <-]..| |intros; apply agent_does_ret].
  intros p h desired Hi Hn Hh. destruct p; try done. injection Hh as <-. split; [apply agent_does_ret|].
  intros w r w' [= <- <-]. eexists. split; [done|]. apply length_map.
Qed.

Definition rd_export (p : ProtocolType) (params : ProtocolParams) (initiator : string) : ExportEntry := {|
  ee_ProtocolType := p; ee_ExportParams := params; ee_AllowedInitiators := [initiator]; ee_AclEnabled := true; ee_LocalAttach := false |}.
Definition rd_nvme : ExportEntry := rd_export PROTOCOL_TYPE_NVMEOF_TCP
  (PPNvmeofTcp {| np_BindAddress := "10.0.0.1"; np_Port := 4420; np_InCapsuleDataSize := 8192; np_MaxDataTransferSize := Some 131072 |}) "nqn.h1".
Definition rd_iscsi : ExportEntry := rd_export PROTOCOL_TYPE_ISCSI
  (PPIscsi {| ip_BindAddress := "10.0.0.1"; ip_Port := 0; ip_Chap := None |}) rd_initiator.
Definition rd_share : ExportEntry := rd_export PROTOCOL_TYPE_NFS (PPNfs {| nfs_BindAddress := "10.0.0.1"; nfs_Version := ""; nfs_Squash := ""; nfs_Readonly := false |}) "10.0.0.2".
Definition rd_vol (v uid : string) (exports : list ExportEntry) : VolumeDesiredState unit := {|
  vd_VolumeId := v; vd_BackendType := BACKEND_TYPE_ZFS_ZVOL; vd_BackendParams := tt; vd_DevicePath := ""; vd_Exports := exports;
  vd_Fence := Some {| VolumeUid := uid; TokenGeneration := 1 |}; vd_FilesystemAdoption := None; vd_CapacityBytes := 0 |}.
Definition rd_vols : list (VolumeDesiredState unit) :=
  [rd_vol "p/v" "uid" [rd_nvme; rd_share]; rd_vol "q/x" "uid" [rd_iscsi]; rd_vol "p/w" "uid" [rd_iscsi]].
Lemma rd_state : desired_state rd_vols.
Proof.
  assert (∀ vol, vol ∈ rd_vols → vol = rd_vol "p/v" "uid" [rd_nvme; rd_share] ∨ vol = rd_vol "q/x" "uid" [rd_iscsi] ∨ vol = rd_vol "p/w" "uid" [rd_iscsi]) as Hv.
  { intros vol. unfold rd_vols. rewrite !elem_of_cons, elem_of_nil. tauto. }
  split.
  - intros p vol [->|[->| ->]]%Hv; destruct p; vm_compute; lia.
  - intros [|[|[|]]] [|[|[|]]] v1 v2; cbn; intros [= <-] [= <-]; done.
  - intros vol [->|[->| ->]]%Hv; discriminate.
  - intros vol e h [->|[->| ->]]%Hv; cbn; rewrite ?elem_of_cons, elem_of_nil; intros He Hp; destruct_or? He; subst e; try done.
    by intros ->%list_elem_of_singleton.
Qed.

Definition rd_agent : agent_state Node := AgentState true (World ex_disk [] (rd_mem, nd_ids)).
Definition rd_request : ReconcileStateRequest unit := {| rs_Volumes := rd_vols; rs_Complete := true |}.
Definition rd_restored : GoResult (list ReconcileItemResult) * agent_state Node := ReconcileState rd_server rd_fx rd_request rd_agent.

Lemma ReconcileState_restores_witness :
  ag_exportRestorePending rd_restored.2 = false ∧
  (∃ t, reconcileTarget rd_server (exportDesiredState (rd_vol "p/w" "uid" [rd_iscsi]) rd_iscsi "/dev/p/w") = Ok t ∧
    serving t (w_backend (ag_world rd_restored.2))) ∧
  ∃ p, desired_target rd_server (exportDesiredState (rd_vol "p/v" "uid" [rd_nvme; rd_share]) rd_nvme "/dev/p/v") (pt_target p) ∧
    served p (w_backend (ag_world rd_restored.2)).
Proof.
  destruct (ReconcileState_restores rd_server rd_fx nd_deps nd_uuid nd_sha1 nd_order nd_order_perm rd_request rd_agent
    rd_restored.1 rd_restored.2 rd_protocols ex_disk_inv rd_mem_inv ltac:(intros _; by vm_compute) rd_state eq_refl
    (surjective_pairing _)) as (Hp&results&Hr&_&Hres).
  assert (rd_restored.1 = Ok [{| ri_VolumeId := "p/v"; ri_Success := true; ri_ErrorMessage := "" |}; {| ri_VolumeId := "q/x"; ri_Success := false; ri_ErrorMessage := "no backend registered for pool" |}; {| ri_VolumeId := "p/w"; ri_Success := true; ri_ErrorMessage := "" |}]) as E
    by (vm_compute; reflexivity).
  rewrite E in Hr. injection Hr as <-. split; [exact Hp|]. split.
  - destruct (Hres 2%nat _ rd_iscsi _ eq_refl eq_refl ltac:(by left) eq_refl eq_refl) as [Hi _]. exact (Hi eq_refl).
  - destruct (Hres 0%nat _ rd_nvme _ eq_refl eq_refl ltac:(by left) eq_refl eq_refl) as [_ Hn].
    destruct (Hn eq_refl) as (p&Ht&_&Hs). exists p. split; [exact Ht|exact Hs].
Defined.
