(* ===== verification/NfsManager.v ===== *)
(** * The NFS export manager (internal/agent/nfs/manager.go)

    [Manager] keeps the admission policy of every export ([Desired]) and a
    write-ahead record of what it may have granted ([Ledger]) in owner.json,
    and makes the kernel's export table follow the policy.

    The manager runs in a world [W] that holds its memory and its state
    directory ([Host]) and the things it drives: the export table and the NFS
    daemons ([Runtime], the source's interface of that name).  Every file
    operation that can fail takes its outcome from [mg_faults]; the runtime
    decides about its own.  A crash in the middle of an operation is a run in
    which all calls after it fail without effect.

    Go iterates over a map in any order: [map_order] is some list of its
    entries.  Logging and the time limits of contexts are left out; a context
    that is done is one of the outcomes. *)
From stdpp Require Import base numbers list strings gmap.
From Stdlib Require Import Ascii.
From S2P Require Import Prelude GoStd GoNet GoNetip.
Open Scope Z_scope.

(** ** Exports *)

Definition rootVolumeID : string := "::pillar-nfs-root::".
Definition nfsVersion : string := "4.2".
Definition squashRoot : string := "root".
Definition squashNone : string := "none".
Definition squashAll : string := "all".
Definition optionRootSquash : string := "root_squash".
Definition optionNoSquash : string := "no_root_squash".

(** [Config], with the parsed listener address the manager keeps beside it. *)
Record Config := {
  cf_StateDir : string;
  cf_BindAddress : string;
  cf_ExportRoot : string;
  cf_bind : Addr;
}.

Record Export := {
  ex_VolumeID : string;
  ex_Path : string;
  ex_BindAddress : string;
  ex_Version : string;
  ex_Squash : string;
  ex_ReadOnly : bool;
  ex_ACLEnabled : bool;
  ex_Clients : list string;
  ex_Active : bool;
  ex_SourceKey : string;
  ex_FenceUID : string;
}.
#[export] Instance Export_eq_dec : EqDecision Export.
Proof. solve_decision. Defined.

(** Assignments to the fields of a copied export. *)
Definition set_policy (e : Export) (bind version squash : string) (clients : list string) : Export := {|
  ex_VolumeID := ex_VolumeID e; ex_Path := ex_Path e; ex_BindAddress := bind; ex_Version := version;
  ex_Squash := squash; ex_ReadOnly := ex_ReadOnly e; ex_ACLEnabled := ex_ACLEnabled e; ex_Clients := clients;
  ex_Active := ex_Active e; ex_SourceKey := ex_SourceKey e; ex_FenceUID := ex_FenceUID e |}.
Definition set_Clients (e : Export) (clients : list string) : Export :=
  set_policy e (ex_BindAddress e) (ex_Version e) (ex_Squash e) clients.
Definition set_hints (e : Export) (key uid : string) : Export := {|
  ex_VolumeID := ex_VolumeID e; ex_Path := ex_Path e; ex_BindAddress := ex_BindAddress e;
  ex_Version := ex_Version e; ex_Squash := ex_Squash e; ex_ReadOnly := ex_ReadOnly e;
  ex_ACLEnabled := ex_ACLEnabled e; ex_Clients := ex_Clients e; ex_Active := ex_Active e;
  ex_SourceKey := key; ex_FenceUID := uid |}.
Definition set_Active (e : Export) : Export := {|
  ex_VolumeID := ex_VolumeID e; ex_Path := ex_Path e; ex_BindAddress := ex_BindAddress e;
  ex_Version := ex_Version e; ex_Squash := ex_Squash e; ex_ReadOnly := ex_ReadOnly e;
  ex_ACLEnabled := ex_ACLEnabled e; ex_Clients := ex_Clients e; ex_Active := true;
  ex_SourceKey := ex_SourceKey e; ex_FenceUID := ex_FenceUID e |}.

Definition FSID (volumeID : string) : string :=
  let s := hex_encode (take 16 (sha256 (bytes_of_string ("pillar-csi/nfs/" +:+ volumeID)))) in
  let part i n := String.substring i n s in
  part 0%nat 8%nat +:+ "-" +:+ part 8%nat 4%nat +:+ "-" +:+ part 12%nat 4%nat +:+ "-" +:+ part 16%nat 4%nat
    +:+ "-" +:+ part 20%nat 12%nat.

(** The bytes of " \t\r\n\x00:()\\". *)
Definition unsafePathBytes : string :=
  String " " (String "009" (String "013" (String "010" (String "000" ":()\")))).
Definition safeExportPath (path : string) : bool :=
  IsAbs path && bool_decide (Clean path = path) && negb (bool_decide (path = "/")) &&
  negb (ContainsAny path unsafePathBytes).

Definition unicastAddress (address : string) : GoResult Addr :=
  match ParseAddr address with
  | None => Err (EPlain "parse NFS address")
  | Some ip =>
      if negb (bool_decide (ad_zone ip = "")) || IsUnspecified ip || IsMulticast ip then
        Err (EPlain "NFS address must be a unicast numeric IP without a zone")
      else Ok (Unmap ip)
  end.

Definition NewManager (stateDir bindAddress exportRoot : string) : GoResult Config :=
  if bool_decide (stateDir = "") || negb (IsAbs stateDir) then Err (EPlain "absolute NFS state directory required")
  else
    let exportRoot := if decide (exportRoot = "") then PathJoin [Dir stateDir; "datasets"] else exportRoot in
    if negb (safeExportPath exportRoot) then Err (EPlain "absolute safe dedicated NFS export root required")
    else
      addr ← unicastAddress bindAddress;
      Ok {| cf_StateDir := stateDir; cf_BindAddress := AddrString addr; cf_ExportRoot := exportRoot; cf_bind := addr |}.

Definition normalizePolicy (e : Export) : GoResult Export :=
  let version := if decide (ex_Version e = "") then nfsVersion else ex_Version e in
  if negb (bool_decide (version = nfsVersion)) then Err (EPlain "NFS version is unsupported; require 4.2")
  else
    let squash := if decide (ex_Squash e = "") then squashRoot else ex_Squash e in
    if containsb [squashRoot; squashNone; squashAll] squash then
      Ok (set_policy e (ex_BindAddress e) version squash (ex_Clients e))
    else Err (EPlain "invalid NFS squash").

Fixpoint canonicalClients (clients : list string) (bind : Addr) : GoResult (list string) :=
  match clients with
  | [] => Ok []
  | client :: clients =>
      ip ← unicastAddress client;
      if negb (Bool.eqb (Is4 ip) (Is4 bind)) then Err (EPlain "NFS client must be in the server address family")
      else rest ← canonicalClients clients bind; Ok (AddrString ip :: rest)
  end.

Definition normalizeClients (clients : list string) (bind : Addr) : GoResult (list string) :=
  clients ← canonicalClients clients bind;
  Ok (Compact (Sort clients)).

Definition normalized (e : Export) : GoResult Export :=
  if decide (ex_VolumeID e = "") then Err (EPlain "NFS volume ID is required")
  else if negb (safeExportPath (ex_Path e)) then Err (EPlain "unsafe NFS export path")
  else
    addr ← unicastAddress (ex_BindAddress e);
    let e := set_policy e (AddrString addr) (ex_Version e) (ex_Squash e) (ex_Clients e) in
    e ← normalizePolicy e;
    clients ← normalizeClients (ex_Clients e) addr;
    Ok (set_Clients e (if ex_ACLEnabled e then clients else [])).

(** [Export.clients]: the clients the policy admits. *)
Definition clients (e : Export) : list string :=
  if negb (ex_Active e) then []
  else if negb (ex_ACLEnabled e) then ["*"]
  else ex_Clients e.

Definition fsid (e : Export) : string :=
  if decide (ex_VolumeID e = rootVolumeID) then "0" else FSID (ex_VolumeID e).

Definition options (e : Export) : string :=
  let mode := if ex_ReadOnly e then "ro" else "rw" in
  let squash := if decide (ex_Squash e = squashNone) then optionNoSquash
                else if decide (ex_Squash e = squashAll) then "all_squash"
                else optionRootSquash in
  let traversal := if negb (bool_decide (ex_VolumeID e = rootVolumeID)) && negb (bool_decide (ex_SourceKey e = ""))
                      && negb (bool_decide (ex_FenceUID e = "")) then ",nohide" else "" in
  mode +:+ ",sync,no_subtree_check,secure,sec=sys,fsid=" +:+ fsid e +:+ "," +:+ squash +:+ traversal.

Record entry := { en_Path : string; en_Client : string; en_Options : string }.
#[export] Instance entry_eq_dec : EqDecision entry.
Proof. solve_decision. Defined.

(** [optionValue] on the split options. *)
Fixpoint firstValue (flags : list string) (key : string) : string :=
  match flags with
  | [] => ""
  | option :: flags =>
      match CutPrefix option (key +:+ "=") with
      | Some value => value
      | None => firstValue flags key
      end
  end.
Definition optionValue (opts key : string) : string := firstValue (Split "," opts) key.

(** The flag that contradicts a wanted one, "" when there is none. *)
Definition opposite (option : string) : string :=
  if decide (option = "ro") then "rw"
  else if decide (option = "rw") then "ro"
  else if decide (option = optionRootSquash) then optionNoSquash
  else if decide (option = optionNoSquash) then optionRootSquash
  else if decide (option = "all_squash") then "no_all_squash"
  else if decide (option = "secure") then "insecure"
  else if decide (option = "sync") then "async"
  else if decide (option = "no_subtree_check") then "subtree_check"
  else if decide (option = "nohide") then "hide"
  else "".

Fixpoint wantedFlags (flags wanted : list string) (wantNohide : bool) : bool :=
  match wanted with
  | [] => Bool.eqb (containsb flags "nohide") wantNohide
  | option :: wanted =>
      if negb (containsb flags option) then false
      else if negb (bool_decide (opposite option = "")) && containsb flags (opposite option) then false
      else wantedFlags flags wanted (wantNohide || bool_decide (option = "nohide"))
  end.
Definition optionsMatch (actual wanted : string) : bool :=
  let flags := Split "," actual in
  if containsb flags "crossmnt" then false
  else wantedFlags flags (Split "," wanted) false.

(** ** Durable state *)

(** The identity of the boot and of the supervised daemons, which only the
    runtime reads and writes. *)
Record helpers := {
  hp_Identity : string;
  hp_TrackerPID : Z;
  hp_TrackerStart : string;
  hp_MountdPID : Z;
  hp_MountdStart : string;
}.
#[export] Instance helpers_eq_dec : EqDecision helpers.
Proof. solve_decision. Defined.

Record diskState := {
  ds_Schema : Z;
  ds_helpers : helpers;
  ds_BindAddress : string;
  ds_ExportRoot : string;
  ds_Desired : gmap string Export;
  ds_Ledger : list Export;
}.

(** owner.json: a state, or bytes that are not one. *)
Inductive ownerFile := OwnerState (d : diskState) | OwnerCorrupt.

(** The state directory: owner.json as running processes see it, the versions
    of its entry a crash may leave, and whether the directory's own entry is
    durable. *)
Record stateDir := {
  sd_live : option ownerFile;
  sd_pending : list (option ownerFile);
  sd_synced : bool;
}.
Definition versions (d : stateDir) : list (option ownerFile) :=
  if sd_synced d then sd_pending d else None :: sd_pending d.

(** [Manager]: its fields, its state directory, and the outcomes of the file
    operations to come ([true]: the operation fails). *)
Record manager := {
  mg_state : diskState;
  mg_lock : bool;
  mg_started : bool;
  mg_closed : bool;
  mg_failure : option go_error;
  mg_exportErrors : gmap string go_error;
  mg_closeErr : option go_error;
  mg_dir : stateDir;
  mg_faults : list bool;
}.

Definition zeroHelpers : helpers :=
  {| hp_Identity := ""; hp_TrackerPID := 0; hp_TrackerStart := ""; hp_MountdPID := 0; hp_MountdStart := "" |}.
Definition zeroState : diskState :=
  {| ds_Schema := 0; ds_helpers := zeroHelpers; ds_BindAddress := ""; ds_ExportRoot := "";
     ds_Desired := ∅; ds_Ledger := [] |}.

(** The manager [NewManager] returns, on the state directory [d]. *)
Definition newManager (d : stateDir) (faults : list bool) : manager := {|
  mg_state := zeroState; mg_lock := false; mg_started := false; mg_closed := false; mg_failure := None;
  mg_exportErrors := ∅; mg_closeErr := None; mg_dir := d; mg_faults := faults |}.

(** Assignments. *)
Definition set_state (m : manager) (s : diskState) : manager := {|
  mg_state := s; mg_lock := mg_lock m; mg_started := mg_started m; mg_closed := mg_closed m;
  mg_failure := mg_failure m; mg_exportErrors := mg_exportErrors m; mg_closeErr := mg_closeErr m;
  mg_dir := mg_dir m; mg_faults := mg_faults m |}.
Definition set_flags (m : manager) (lock started closed : bool) : manager := {|
  mg_state := mg_state m; mg_lock := lock; mg_started := started; mg_closed := closed;
  mg_failure := mg_failure m; mg_exportErrors := mg_exportErrors m; mg_closeErr := mg_closeErr m;
  mg_dir := mg_dir m; mg_faults := mg_faults m |}.
Definition set_errors (m : manager) (failure : option go_error) (errs : gmap string go_error)
    (closeErr : option go_error) : manager := {|
  mg_state := mg_state m; mg_lock := mg_lock m; mg_started := mg_started m; mg_closed := mg_closed m;
  mg_failure := failure; mg_exportErrors := errs; mg_closeErr := closeErr;
  mg_dir := mg_dir m; mg_faults := mg_faults m |}.
Definition set_dir (m : manager) (d : stateDir) (faults : list bool) : manager := {|
  mg_state := mg_state m; mg_lock := mg_lock m; mg_started := mg_started m; mg_closed := mg_closed m;
  mg_failure := mg_failure m; mg_exportErrors := mg_exportErrors m; mg_closeErr := mg_closeErr m;
  mg_dir := d; mg_faults := faults |}.

Definition set_failure (m : manager) (failure : option go_error) : manager :=
  set_errors m failure (mg_exportErrors m) (mg_closeErr m).
Definition set_exportErrors (m : manager) (errs : gmap string go_error) : manager :=
  set_errors m (mg_failure m) errs (mg_closeErr m).
Definition set_Desired (s : diskState) (D : gmap string Export) : diskState :=
  {| ds_Schema := ds_Schema s; ds_helpers := ds_helpers s; ds_BindAddress := ds_BindAddress s;
     ds_ExportRoot := ds_ExportRoot s; ds_Desired := D; ds_Ledger := ds_Ledger s |}.
Definition set_Ledger (s : diskState) (L : list Export) : diskState :=
  {| ds_Schema := ds_Schema s; ds_helpers := ds_helpers s; ds_BindAddress := ds_BindAddress s;
     ds_ExportRoot := ds_ExportRoot s; ds_Desired := ds_Desired s; ds_Ledger := L |}.
Definition set_helpers (s : diskState) (h : helpers) : diskState :=
  {| ds_Schema := ds_Schema s; ds_helpers := h; ds_BindAddress := ds_BindAddress s;
     ds_ExportRoot := ds_ExportRoot s; ds_Desired := ds_Desired s; ds_Ledger := ds_Ledger s |}.

(** [errors.Join] of two errors, either of which may be nil. *)
Definition join_err (a b : option go_error) : option go_error := match a with Some e => Some e | None => b end.
(** Return an error, nil included. *)
Definition ret_err {W} (e : option go_error) : M W go_error unit :=
  match e with Some e => throw e | None => mret tt end.

(** ** The world of the manager *)

(** Why an export cannot be activated: its own fault, or a failure of the
    runtime it shares with the others ([runtimeValidationError]). *)
Inductive invalid := Isolated (e : go_error) | Shared (e : go_error).

(** What [runtime.start] does: work, and calls of [save] in between, whose
    result it continues with. *)
Inductive startProgram (W : Type) :=
| StartDone (r : GoResult unit) (h : helpers) (w : W)
| StartSave (h : helpers) (w : W) (continue : GoResult unit → W → startProgram W).
Arguments StartDone {W}.
Arguments StartSave {W}.

Class Host (W : Type) := {
  mgr_of : W → manager;
  set_mgr : manager → W → W;
  map_order : gmap string Export → list (string * Export);
}.

Class Runtime (W : Type) := {
  rt_identity : M W go_error string;
  rt_start : diskState → W → startProgram W;
  rt_list : M W go_error (list entry);
  rt_validateExport : Export → M W invalid unit;
  rt_grant : Export → string → M W go_error unit;
  rt_revoke : string → string → M W go_error unit;
  rt_health : M W go_error unit;
  rt_close : M W go_error unit;
  EvalSymlinks : string → M W go_error string;
  StatIsDir : string → M W go_error bool;
  BeforeActivate : option (Export → M W go_error unit);
}.

Section Manager.
Context {W : Type} `{Host W, Runtime W} (config : Config).
Implicit Types (e : Export).
Abbreviation Nfs := (M W go_error).

Definition on_mgr (f : manager → manager) : Nfs unit := modify (λ w, set_mgr (f (mgr_of w)) w).
Definition on_state (f : diskState → diskState) : Nfs unit := on_mgr (λ m, set_state m (f (mg_state m))).
Definition get_mgr {A} (f : manager → A) : Nfs A := reads (λ w, f (mgr_of w)).
Definition desired : Nfs (gmap string Export) := get_mgr (λ m, ds_Desired (mg_state m)).
Definition ledger : Nfs (list Export) := get_mgr (λ m, ds_Ledger (mg_state m)).

(** The next fallible file operation: [true] when it fails. *)
Definition sysfail : Nfs bool := λ w,
  let m := mgr_of w in
  match mg_faults m with
  | [] => (Ok false, w)
  | f :: fs => (Ok f, set_mgr (set_dir m (mg_dir m) fs) w)
  end.
Definition attempt (what : string) : Nfs unit :=
  f ← sysfail; if f : bool then throw (EPlain what) else mret tt.
(** [ctx.Err()] *)
Definition ctxErr : Nfs unit := attempt "context done".
Definition on_dir (f : stateDir → stateDir) : Nfs unit :=
  on_mgr (λ m, set_dir m (f (mg_dir m)) (mg_faults m)).

(** ** Persisting *)

Definition syncDirectory (effect : stateDir → stateDir) : Nfs unit :=
  attempt "open NFS ownership directory" ;;
  syncFails ← sysfail;
  (if syncFails : bool then mret tt else on_dir effect) ;;
  closeFails ← sysfail;
  if orb syncFails closeFails then throw (EPlain "sync NFS ownership directory") else mret tt.

Definition rename_owner (d : diskState) (s : stateDir) : stateDir :=
  {| sd_live := Some (OwnerState d); sd_pending := Some (OwnerState d) :: sd_pending s; sd_synced := sd_synced s |}.
Definition sync_owner (s : stateDir) : stateDir :=
  {| sd_live := sd_live s; sd_pending := [sd_live s]; sd_synced := sd_synced s |}.
Definition sync_parent (s : stateDir) : stateDir :=
  {| sd_live := sd_live s; sd_pending := sd_pending s; sd_synced := true |}.

(** Write the temporary file, rename it to owner.json, sync. *)
Definition commitOwner (d : diskState) : Nfs unit :=
  writeFails ← sysfail;
  syncFails ← sysfail;
  closeFails ← sysfail;
  if orb (orb writeFails syncFails) closeFails then throw (EPlain "write NFS ownership transaction")
  else
    attempt "commit NFS ownership transaction" ;;
    on_dir (rename_owner d) ;;
    syncDirectory sync_owner ;;
    syncDirectory sync_parent.

Definition persist : Nfs unit :=
  attempt "create NFS ownership transaction" ;;
  d ← get_mgr mg_state;
  r ← try (commitOwner d);
  removeFails ← sysfail;
  if removeFails : bool then throw (EPlain "remove NFS ownership transaction") else lift r.

(** ** Policy *)

Definition ExportPath (path : string) : GoResult string :=
  match Rel (cf_ExportRoot config) path with
  | None => Err (EPlain "NFS dataset path must be a child of the dedicated export root")
  | Some rel =>
      if bool_decide (rel = ".") || bool_decide (rel = "..") || HasPrefix rel "../" || IsAbs rel then
        Err (EPlain "NFS dataset path must be a child of the dedicated export root")
      else Ok ("/" +:+ rel)
  end.

Definition ValidateClient (client : string) : GoResult unit :=
  ip ← unicastAddress client;
  if negb (Bool.eqb (Is4 ip) (Is4 (cf_bind config))) then Err (EPlain "NFS initiator must be in the listener address family")
  else Ok tt.

(** The loop of [updateRoot] over the other exports. *)
Fixpoint rootLoop (errs : gmap string go_error) (l : list (string * Export)) (root : Export) : Export :=
  match l with
  | [] => root
  | (id, e) :: l =>
      if bool_decide (id = rootVolumeID) || negb (ex_Active e) || bool_decide (errs !! id ≠ None) then
        rootLoop errs l root
      else if negb (ex_ACLEnabled e) then
        {| ex_VolumeID := ex_VolumeID root; ex_Path := ex_Path root; ex_BindAddress := ex_BindAddress root;
           ex_Version := ex_Version root; ex_Squash := ex_Squash root; ex_ReadOnly := ex_ReadOnly root;
           ex_ACLEnabled := false; ex_Clients := []; ex_Active := true;
           ex_SourceKey := ex_SourceKey root; ex_FenceUID := ex_FenceUID root |}
      else rootLoop errs l (set_Clients root (ex_Clients root ++ ex_Clients e))
  end.

Definition rootOf (errs : gmap string go_error) (D : gmap string Export) : Export :=
  let root := rootLoop errs (map_order D) {|
    ex_VolumeID := rootVolumeID; ex_Path := cf_ExportRoot config; ex_BindAddress := cf_BindAddress config;
    ex_Version := nfsVersion; ex_Squash := squashRoot; ex_ReadOnly := true; ex_ACLEnabled := true;
    ex_Clients := []; ex_Active := false; ex_SourceKey := ""; ex_FenceUID := "" |} in
  if ex_ACLEnabled root then
    let cs := Compact (Sort (ex_Clients root)) in
    match cs with [] => set_Clients root cs | _ => set_Active (set_Clients root cs) end
  else root.

Definition updateRoot : Nfs unit :=
  on_mgr (λ m,
    let s := mg_state m in
    let root := rootOf (mg_exportErrors m) (ds_Desired s) in
    let s := set_Desired s (<[rootVolumeID := root]> (ds_Desired s)) in
    set_state m (if ex_Active root then set_Ledger s (ds_Ledger s ++ [root]) else s)).

Definition validateOwned (e : Export) : GoResult unit :=
  if decide (ex_VolumeID e = rootVolumeID) then
    if negb (bool_decide (ex_Path e = cf_ExportRoot config)) || negb (ex_ReadOnly e)
       || negb (bool_decide (ex_Squash e = squashRoot)) then
      Err (EPlain "invalid persisted NFS pseudoroot policy")
    else Ok tt
  else _ ← ExportPath (ex_Path e); Ok tt.

(** ** Loading *)

Definition validatePersisted (e : Export) : GoResult Export :=
  validated ← normalized e;
  if negb (bool_decide (ex_BindAddress validated = cf_BindAddress config)) then
    Err (EPlain "invalid persisted NFS listener address")
  else _ ← validateOwned validated; Ok validated.

(** Each entry is replaced by its normal form, up to the first invalid one. *)
Fixpoint validateDesired (l : list (string * Export)) (D : gmap string Export) : GoResult unit * gmap string Export :=
  match l with
  | [] => (Ok tt, D)
  | (id, e) :: l =>
      match validatePersisted e with
      | Err err => (Err err, D)
      | Ok validated =>
          if negb (bool_decide (id = ex_VolumeID e)) then (Err (EPlain "invalid persisted NFS export identity"), D)
          else validateDesired l (<[id := validated]> D)
      end
  end.
Fixpoint validateLedger (l : list Export) : GoResult unit * list Export :=
  match l with
  | [] => (Ok tt, [])
  | e :: l =>
      match validatePersisted e with
      | Err err => (Err err, e :: l)
      | Ok validated => let '(r, rest) := validateLedger l in (r, validated :: rest)
      end
  end.
Definition validateState : Nfs unit :=
  s ← get_mgr mg_state;
  let '(r, D) := validateDesired (map_order (ds_Desired s)) (ds_Desired s) in
  on_state (λ s, set_Desired s D) ;;
  lift r ;;
  let '(r, L) := validateLedger (ds_Ledger s) in
  on_state (λ s, set_Ledger s L) ;;
  lift r.

(** [json.Unmarshal] of a stored state into the manager's: a map keeps the
    keys the document does not have, an omitted field its value. *)
Definition unmarshal (old new : diskState) : diskState :=
  let omitZ (f : helpers → Z) := if f (ds_helpers new) =? 0 then f (ds_helpers old) else f (ds_helpers new) in
  let omitS (f : helpers → string) :=
    if decide (f (ds_helpers new) = "") then f (ds_helpers old) else f (ds_helpers new) in
  {| ds_Schema := ds_Schema new;
     ds_helpers := {| hp_Identity := hp_Identity (ds_helpers new);
                      hp_TrackerPID := omitZ hp_TrackerPID; hp_TrackerStart := omitS hp_TrackerStart;
                      hp_MountdPID := omitZ hp_MountdPID; hp_MountdStart := omitS hp_MountdStart |};
     ds_BindAddress := ds_BindAddress new; ds_ExportRoot := ds_ExportRoot new;
     ds_Desired := ds_Desired new ∪ ds_Desired old; ds_Ledger := ds_Ledger new |}.

(** What [loadState] makes of the file it read. *)
Definition loadFile (file : option ownerFile) : Nfs unit :=
  match file with
  | None =>
      on_state (λ _, {| ds_Schema := 1; ds_helpers := zeroHelpers; ds_BindAddress := cf_BindAddress config;
                        ds_ExportRoot := cf_ExportRoot config; ds_Desired := ∅; ds_Ledger := [] |})
  | Some OwnerCorrupt => throw (EPlain "corrupt NFS ownership")
  | Some (OwnerState d) =>
      on_state (λ s, unmarshal s d) ;;
      s ← get_mgr mg_state;
      if negb (ds_Schema s =? 1) || negb (bool_decide (ds_BindAddress s = cf_BindAddress config))
         || negb (bool_decide (ds_ExportRoot s = cf_ExportRoot config)) then
        throw (EPlain "NFS ownership configuration mismatch")
      else validateState
  end.

Definition loadState : Nfs unit :=
  attempt "read NFS ownership" ;;
  file ← get_mgr (λ m, sd_live (mg_dir m));
  loadFile file.

(** ** Ownership of rows *)

Definition owns (L : list Export) (row : entry) : bool :=
  existsb (λ e, bool_decide (ex_Path e = en_Path row) && containsb (clients e) (en_Client row)
                && bool_decide (optionValue (en_Options row) "fsid" = fsid e)) L.

Definition foreignConflict (L : list Export) (row : entry) : bool :=
  existsb (λ e, bool_decide (en_Path row = ex_Path e)
                || bool_decide (optionValue (en_Options row) "fsid" = fsid e)) L.

Fixpoint revokeRows (L : list Export) (rows : list entry) : Nfs (option go_error) :=
  match rows with
  | [] => mret None
  | row :: rows =>
      r ← (if owns L row then try (rt_revoke (en_Path row) (en_Client row)) else mret (Ok tt));
      rest ← revokeRows L rows;
      mret (join_err (err_of r) rest)
  end.
Definition revokeOwned : Nfs unit :=
  rows ← rt_list;
  L ← ledger;
  e ← revokeRows L rows;
  ret_err e.

Definition healthLocked : Nfs unit :=
  m ← get_mgr id;
  match mg_failure m with
  | Some e => throw e
  | None =>
      if negb (mg_started m) || mg_closed m then throw (EPlain "NFS runtime is not running") else rt_health
  end.

Definition failClosed (err : go_error) : Nfs unit :=
  revoked ← try revokeOwned;
  closed ← try rt_close;
  on_mgr (λ m, set_failure m (Some err)) ;;
  throw err.

(** ** Convergence *)

Definition beforeActivate (e : Export) : Nfs unit :=
  if bool_decide (ex_SourceKey e = "") && bool_decide (ex_FenceUID e = "") then mret tt
  else if bool_decide (ex_SourceKey e = "") || bool_decide (ex_FenceUID e = "") then
    throw (EPlain "incomplete adopted NFS ownership hint")
  else
    match BeforeActivate with
    | None => throw (EPlain "adopted NFS activation guard is unavailable")
    | Some guard => guard e
    end.

(** [runtime.validateExport] as a call that returns its error. *)
Definition validated (e : Export) : Nfs (option invalid) := λ w,
  match rt_validateExport e w with
  | (Ok _, w) => (Ok None, w)
  | (Err i, w) => (Ok (Some i), w)
  end.

Definition validateActivation (e : Export) : Nfs bool :=
  v ← validated e;
  err ← (match v with
         | Some i => mret (Some i)
         | None => r ← try (beforeActivate e); mret (match r with Ok _ => None | Err x => Some (Isolated x) end)
         end);
  match err with
  | None => mret true
  | Some (Shared x) => throw x
  | Some (Isolated x) =>
      on_mgr (λ m, set_exportErrors m (<[ex_VolumeID e := x]> (mg_exportErrors m))) ;;
      mret false
  end.

Abbreviation admissions := (gmap (string * string) entry).

Definition addEntries (e : Export) (wanted : admissions) : admissions :=
  foldl (λ wanted client,
    <[(ex_Path e, client) := {| en_Path := ex_Path e; en_Client := client; en_Options := options e |}]> wanted)
    wanted (clients e).

Definition admitExport (e : Export) (wanted : admissions) : Nfs admissions :=
  on_state (λ s, set_Ledger s (ds_Ledger s ++ [e])) ;;
  mret (addEntries e wanted).

Definition rootEntries (wanted : admissions) : Nfs admissions :=
  updateRoot ;;
  D ← desired;
  match D !! rootVolumeID with
  | None => mret wanted
  | Some root =>
      if negb (ex_Active root) then mret wanted
      else
        v ← validated root;
        match v with
        | Some (Isolated x) | Some (Shared x) => throw x
        | None => mret (addEntries root wanted)
        end
  end.

Fixpoint desiredLoop (l : list (string * Export)) (wanted : admissions) : Nfs admissions :=
  match l with
  | [] => mret wanted
  | (id, e) :: l =>
      if bool_decide (id = rootVolumeID) || negb (ex_Active e) then desiredLoop l wanted
      else
        usable ← validateActivation e;
        if negb usable then desiredLoop l wanted
        else wanted ← admitExport e wanted; desiredLoop l wanted
  end.

Definition desiredEntries : Nfs admissions :=
  on_mgr (λ m, set_exportErrors m ∅) ;;
  D ← desired;
  wanted ← desiredLoop (map_order D) ∅;
  rootEntries wanted.

Fixpoint revokeObsolete (L : list Export) (rows : list entry) (wanted : admissions) : Nfs unit :=
  match rows with
  | [] => mret tt
  | row :: rows =>
      if negb (owns L row) then
        if foreignConflict L row then throw (EPlain "foreign NFS export conflicts with volume")
        else revokeObsolete L rows wanted
      else
        match wanted !! (en_Path row, en_Client row) with
        | Some want =>
            if optionsMatch (en_Options row) (en_Options want) then revokeObsolete L rows wanted
            else rt_revoke (en_Path row) (en_Client row) ;; revokeObsolete L rows wanted
        | None => rt_revoke (en_Path row) (en_Client row) ;; revokeObsolete L rows wanted
        end
  end.

(** The owned row of each key, the last one listed. *)
Definition existingRows (L : list Export) (rows : list entry) : admissions :=
  foldl (λ m row, if owns L row then <[(en_Path row, en_Client row) := row]> m else m) ∅ rows.

Fixpoint grantClients (e : Export) (cs : list string) (existing wanted : admissions) : Nfs unit :=
  match cs with
  | [] => mret tt
  | client :: cs =>
      match wanted !! (ex_Path e, client) with
      | None => grantClients e cs existing wanted
      | Some want =>
          if match existing !! (ex_Path e, client) with
             | Some row => optionsMatch (en_Options row) (en_Options want)
             | None => false
             end
          then grantClients e cs existing wanted
          else rt_grant e client ;; grantClients e cs existing wanted
      end
  end.
Fixpoint grantExports (l : list (string * Export)) (existing wanted : admissions) : Nfs unit :=
  match l with
  | [] => mret tt
  | (_, e) :: l => grantClients e (clients e) existing wanted ;; grantExports l existing wanted
  end.
Definition grantDesired (rows : list entry) (wanted : admissions) : Nfs unit :=
  L ← ledger;
  D ← desired;
  grantExports (map_order D) (existingRows L rows) wanted.

Fixpoint verifyRows (L : list Export) (rows : list entry) (wanted : admissions) : GoResult admissions :=
  match rows with
  | [] => Ok wanted
  | row :: rows =>
      if negb (owns L row) then
        if foreignConflict L row then Err (EPlain "foreign NFS export conflicts with volume")
        else verifyRows L rows wanted
      else
        match wanted !! (en_Path row, en_Client row) with
        | Some want =>
            if optionsMatch (en_Options row) (en_Options want)
            then verifyRows L rows (delete (en_Path row, en_Client row) wanted)
            else Err (EPlain "NFS export readback mismatch")
        | None => Err (EPlain "NFS export readback mismatch")
        end
  end.
Definition verifyAdmissions (wanted : admissions) : Nfs unit :=
  rows ← rt_list;
  L ← ledger;
  left ← lift (verifyRows L rows wanted);
  if decide (left = ∅) then mret tt else throw (EPlain "NFS export readback missing admitted clients").

Fixpoint ledgerOf (errs : gmap string go_error) (l : list (string * Export)) : list Export :=
  match l with
  | [] => []
  | (id, e) :: l =>
      if negb (ex_Active e) || (negb (bool_decide (id = rootVolumeID)) && bool_decide (errs !! id ≠ None))
      then ledgerOf errs l
      else e :: ledgerOf errs l
  end.
Definition rebuildLedger : Nfs unit :=
  on_mgr (λ m, set_state m (set_Ledger (mg_state m) (ledgerOf (mg_exportErrors m) (map_order (ds_Desired (mg_state m)))))).

Definition converge : Nfs unit :=
  rows ← rt_list;
  wanted ← desiredEntries;
  persist ;;
  L ← ledger;
  revokeObsolete L rows wanted ;;
  grantDesired rows wanted ;;
  verifyAdmissions wanted ;;
  healthLocked ;;
  rebuildLedger ;;
  r ← try persist;
  match r with
  | Ok _ => mret tt
  | Err e => on_mgr (λ m, set_failure m (Some e)) ;; throw e
  end.

Definition apply_ : Nfs unit :=
  r ← try converge;
  match r with Ok _ => mret tt | Err e => failClosed e end.

(** ** Starting *)

(** An adopted export: one with an ownership hint. *)
Definition hinted (e : Export) : bool :=
  negb (bool_decide (ex_SourceKey e = "")) || negb (bool_decide (ex_FenceUID e = "")).

Definition preflightActivation : Nfs unit :=
  s ← get_mgr mg_state;
  let guarded :=
    existsb (λ '(id, e), negb (bool_decide (id = rootVolumeID)) && ex_Active e && hinted e)
            (map_order (ds_Desired s))
    || existsb (λ e, negb (bool_decide (ex_VolumeID e = rootVolumeID)) && hinted e) (ds_Ledger s) in
  if negb guarded then mret tt
  else
    rows ← rt_list;
    wanted ← desiredEntries;
    L ← ledger;
    revokeObsolete L rows wanted ;;
    rebuildLedger ;;
    persist.

Fixpoint runStart (p : startProgram W) : GoResult unit * W :=
  match p with
  | StartDone r h w => (r, snd (on_state (λ s, set_helpers s h) w))
  | StartSave h w continue =>
      let '(r, w) := persist (snd (on_state (λ s, set_helpers s h) w)) in runStart (continue r w)
  end.

Definition startLocked : Nfs unit :=
  identity ← rt_identity;
  loadState ;;
  updateRoot ;;
  preflightActivation ;;
  s ← get_mgr mg_state;
  (λ w, runStart (rt_start s w)) ;;
  on_state (λ s, set_helpers s {| hp_Identity := identity;
    hp_TrackerPID := hp_TrackerPID (ds_helpers s); hp_TrackerStart := hp_TrackerStart (ds_helpers s);
    hp_MountdPID := hp_MountdPID (ds_helpers s); hp_MountdStart := hp_MountdStart (ds_helpers s) |}) ;;
  r ← try persist;
  match r with
  | Err e => _ ← try rt_close; throw e
  | Ok _ =>
      on_mgr (λ m, set_flags m (mg_lock m) true (mg_closed m)) ;;
      apply_
  end.

(** [acquireLock], [releaseLock] *)
Definition acquireLock : Nfs unit :=
  attempt "acquire NFS ownership lock" ;;
  on_mgr (λ m, set_flags m true (mg_started m) (mg_closed m)).
Definition releaseLock : Nfs unit :=
  on_mgr (λ m, set_flags m false (mg_started m) (mg_closed m)) ;;
  attempt "release NFS ownership lock".

Definition Start : Nfs unit :=
  ctxErr ;;
  m ← get_mgr id;
  if mg_closed m then throw (EPlain "NFS manager is closed")
  else if mg_started m then healthLocked
  else
    match mg_failure m with
    | Some e => throw e
    | None =>
        attempt "create NFS ownership directory" ;;
        acquireLock ;;
        r ← try startLocked;
        started ← get_mgr mg_started;
        if started : bool then lift r
        else
          released ← try releaseLock;
          ret_err (join_err (err_of r) (err_of released))
    end.

(** ** Changing the policy *)

Definition putPolicy (D : gmap string Export) (e : Export) (exact : bool) : GoResult Export :=
  e ← (match D !! ex_VolumeID e with
       | None => Ok e
       | Some old =>
           if negb (bool_decide (ex_Path old = ex_Path e)) then Err (EPlain "NFS volume export path cannot change")
           else
             e ← (if hinted old then
                    if negb (hinted e) then Ok (set_hints e (ex_SourceKey old) (ex_FenceUID old))
                    else if negb (bool_decide (ex_SourceKey e = ex_SourceKey old))
                            || negb (bool_decide (ex_FenceUID e = ex_FenceUID old)) then
                      Err (EPlain "NFS adopted ownership hint cannot change")
                    else Ok e
                  else Ok e);
             Ok (if negb exact && ex_ACLEnabled old && ex_ACLEnabled e then set_Clients e (ex_Clients old) else e)
       end);
  if existsb (λ '(id, old), negb (bool_decide (id = ex_VolumeID e)) && bool_decide (ex_Path old = ex_Path e))
             (map_order D)
  then Err (EPlain "NFS export path already belongs to another volume")
  else Ok e.

Definition validatePut (e : Export) : Nfs unit :=
  if decide (ex_VolumeID e = rootVolumeID) then throw (EPlain "reserved NFS volume identity")
  else
    _ ← lift (ExportPath (ex_Path e));
    canonical ← EvalSymlinks (ex_Path e);
    if negb (bool_decide (canonical = ex_Path e)) then throw (EPlain "NFS export path must not traverse symlinks")
    else
      isDir ← StatIsDir (ex_Path e);
      if negb isDir then throw (EPlain "NFS exports require a mounted filesystem directory")
      else
        v ← validated e;
        match v with
        | Some (Isolated x) | Some (Shared x) => throw x
        | None =>
            if negb (bool_decide (ex_BindAddress e = cf_BindAddress config)) then
              throw (EPlain "NFS export bind address conflicts with owned listener")
            else mret tt
        end.

Definition rejectExport (e : Export) (validationErr : go_error) : Nfs unit :=
  D ← desired;
  match D !! ex_VolumeID e with
  | None => throw validationErr
  | Some old =>
      if negb (bool_decide (ex_Path old = ex_Path e)) then throw validationErr
      else
        h ← try healthLocked;
        match h with
        | Err _ => throw validationErr
        | Ok _ => ctxErr ;; _ ← try apply_; throw validationErr
        end
  end.

(** Record a policy and what it may grant, in memory. *)
Definition recordExport (id : string) (e : Export) : Nfs unit :=
  on_state (λ s, set_Ledger (set_Desired s (<[id := e]> (ds_Desired s))) (ds_Ledger s ++ [e])).

(** Apply the policy; the error of the export itself is an error too. *)
Definition applyFor (id : string) : Nfs unit :=
  applied ← try apply_;
  errs ← get_mgr mg_exportErrors;
  ret_err (join_err (err_of applied) (errs !! id)).

(** The part of [Put] under the manager's lock. *)
Definition putLocked (e : Export) (exact active : bool) : Nfs unit :=
  ctxErr ;;
  (if active then healthLocked else mret tt) ;;
  D ← desired;
  e ← lift (putPolicy D e exact);
  if negb active then mret tt
  else
    let e := set_Active e in
    recordExport (ex_VolumeID e) e ;;
    updateRoot ;;
    r ← try persist;
    match r with
    | Err err => failClosed err
    | Ok _ => applyFor (ex_VolumeID e)
    end.

Definition Put (e : Export) (exact active : bool) : Nfs unit :=
  ctxErr ;;
  e ← lift (normalized e);
  v ← try (validatePut e);
  match v with
  | Err err => if active then rejectExport e err else throw err
  | Ok _ => (if active then Start else mret tt) ;; putLocked e exact active
  end.

Definition changedClient (e : Export) (client : string) (allow : bool) : GoResult Export :=
  ip ← unicastAddress client;
  let client := AddrString ip in
  e ← normalized (set_Clients e (ex_Clients e ++ [client]));
  Ok (if allow then e else set_Clients e (base.filter (λ s, s ≠ client) (ex_Clients e))).

Definition stopOwned : Nfs unit :=
  revoked ← try revokeOwned;
  closed ← try rt_close;
  ret_err (join_err (err_of revoked) (err_of closed)).

Definition applyOrStop : Nfs unit :=
  h ← try healthLocked;
  match h with Err _ => stopOwned | Ok _ => apply_ end.

Definition commitClientChange (volumeID : string) (e : Export) (allow : bool) : Nfs unit :=
  recordExport volumeID e ;;
  updateRoot ;;
  r ← try persist;
  match r with
  | Err err => failClosed err
  | Ok _ => if negb allow then applyOrStop else applyFor volumeID
  end.

(** Whether the error of [Start] ends an operation: one that only withdraws
    goes on once the manager has started and holds its lock. *)
Definition startRefuses (strict : bool) (startErr : option go_error) : Nfs unit :=
  m ← get_mgr id;
  match startErr with
  | Some e => if strict || negb (mg_started m) || negb (mg_lock m) then throw e else mret tt
  | None => mret tt
  end.

(** The part of [ChangeClient] under the lock, with the error of [Start]. *)
Definition changeLocked (volumeID client : string) (allow : bool) (startErr : option go_error) : Nfs unit :=
  startRefuses allow startErr ;;
  ctxErr ;;
  (if allow then healthLocked else mret tt) ;;
  D ← desired;
  match D !! volumeID with
  | None => if allow then throw (EPlain "NFS volume is not exported") else mret tt
  | Some e =>
      e ← lift (changedClient e client allow);
      if negb (ex_ACLEnabled e) then mret tt
      else commitClientChange volumeID e allow
  end.

Definition ChangeClient (volumeID client : string) (allow : bool) : Nfs unit :=
  ctxErr ;;
  started ← try Start;
  changeLocked volumeID client allow (err_of started).

(** The part of [Remove] under the lock. *)
Definition removeLocked (volumeID : string) (startErr : option go_error) : Nfs unit :=
  startRefuses false startErr ;;
  ctxErr ;;
  on_state (λ s, set_Desired s (delete volumeID (ds_Desired s))) ;;
  updateRoot ;;
  r ← try persist;
  match r with
  | Err err => failClosed err
  | Ok _ => applyOrStop
  end.

Definition Remove (volumeID : string) : Nfs unit :=
  ctxErr ;;
  started ← try Start;
  removeLocked volumeID (err_of started).

(** ** Failures and shutdown *)

Definition daemonFailed (err : go_error) : Nfs unit :=
  m ← get_mgr id;
  if mg_closed m then mret tt
  else if negb (mg_started m) then on_mgr (λ m, set_failure m (Some err))
  else
    _ ← try revokeOwned;
    _ ← try rt_close;
    on_mgr (λ m, set_failure m (Some err)).

Definition Health : Nfs unit :=
  h ← try healthLocked;
  errs ← get_mgr mg_exportErrors;
  ret_err (join_err (err_of h) (snd <$> head (map_to_list errs))).

Definition Close : Nfs unit :=
  m ← get_mgr id;
  if mg_closed m then ret_err (mg_closeErr m)
  else
    on_mgr (λ m, set_flags m (mg_lock m) (mg_started m) true) ;;
    revoked ← (if mg_started m then try revokeOwned else mret (Ok tt));
    closed ← try rt_close;
    released ← (if mg_lock m then try releaseLock else mret (Ok tt));
    let err := join_err (join_err (err_of revoked) (err_of closed)) (err_of released) in
    on_mgr (λ m, set_errors m (mg_failure m) (mg_exportErrors m) err) ;;
    ret_err err.
End Manager.
