(* ===== verification/NfsLaws.v ===== *)
(** * What the NFS manager relies on, and its ownership record

    [NfsLaws] is the documented behaviour of exportfs and of the runtime
    around it, stated on the rows of the export table.  The invariant [Wal] is
    the write-ahead discipline: whatever the manager may have granted is owned
    by the ledger in memory and by every version of owner.json a crash may
    leave. *)
From stdpp Require Import base numbers list strings gmap.
From Stdlib Require Import Ascii.
From S2P Require Import Prelude GoStd GoNet GoNetip NfsManager.
Open Scope Z_scope.

(** ** Option texts *)

Definition fsidFlag (f : string) : string := "fsid=" +:+ f.

(** The flags of [opts] name no other fsid than [f]. *)
Definition only_fsid (opts f : string) : Prop :=
  optionValue opts "fsid" = f ∧ ∀ o, o ∈ Split "," opts → HasPrefix o "fsid=" = true → o = fsidFlag f.

Lemma hex_encode_chars b : Forall (λ c, c ≠ ","%char) (bytes_of_string (hex_encode b)).
Proof.
  induction b as [|c b IH]; [constructor|]. cbn [hex_encode].
  destruct c as [[] [] [] [] [] [] [] []]; (constructor; [done|constructor; [done|exact IH]]).
Qed.
Lemma substring_chars (P : ascii → Prop) n m s : Forall P (bytes_of_string s) → Forall P (bytes_of_string (String.substring n m s)).
Proof.
  revert n m. induction s as [|c s IH]; intros n m Hs; [destruct n, m; exact Hs|]. inversion Hs; subst.
  destruct n as [|n]; [destruct m as [|m]; [constructor|]|]; cbn; [constructor; [done|]|]; by apply IH.
Qed.
Lemma fsid_plain e : ","%char ∉ bytes_of_string (fsid e).
Proof.
  assert (Forall (λ c, c ≠ ","%char) (bytes_of_string (fsid e))) as Hf.
  { unfold fsid. case_decide; [repeat constructor; done|]. unfold FSID.
    rewrite !bytes_of_string_app. repeat apply Forall_app_2;
      first [apply substring_chars, hex_encode_chars|repeat constructor; done]. }
  intros Hin. by apply (proj1 (Forall_forall _ _) Hf _ Hin).
Qed.

Lemma options_fsid e : fsidFlag (fsid e) ∈ Split "," (options e).
Proof.
  unfold options. set (mode := if ex_ReadOnly e then "ro" else "rw").
  set (squash := if decide (ex_Squash e = squashNone) then _ else _).
  match goal with |- context [squash +:+ ?t] => set (rest := squash +:+ t) end.
  assert (∀ m f, m +:+ ",sync,no_subtree_check,secure,sec=sys,fsid=" +:+ f +:+ "," +:+ rest =
    (m +:+ ",sync,no_subtree_check,secure,sec=sys") +:+ String "," (fsidFlag f +:+ String "," rest)) as ->.
  { intros m f. by rewrite string_app_assoc. }
  rewrite Split_app, (Split_sep "," (fsidFlag _)).
  - apply elem_of_app. right. left.
  - unfold fsidFlag. rewrite bytes_of_string_app. intros [H|H]%elem_of_app; [|by apply (fsid_plain e)].
    cbn in H. set_solver.
Qed.

Lemma wantedFlags_sub flags wanted nh : wantedFlags flags wanted nh = true → ∀ o, o ∈ wanted → o ∈ flags.
Proof.
  revert nh. induction wanted as [|x wanted IH]; intros nh Hw o Ho; [by apply elem_of_nil in Ho|]. cbn in Hw.
  destruct (containsb flags x) eqn:Ex; [cbn in Hw|done]. destruct (_ && containsb _ _); [done|].
  apply elem_of_cons in Ho as [->|Ho]; [by apply containsb_true|by eapply IH].
Qed.
Lemma optionsMatch_sub actual wanted : optionsMatch actual wanted = true → ∀ o, o ∈ Split "," wanted → o ∈ Split "," actual.
Proof. unfold optionsMatch. destruct (containsb _ "crossmnt"); [done|]. apply wantedFlags_sub. Qed.

(** A row that passes for what an export wants carries its fsid. *)
Lemma optionsMatch_fsid opts e f : only_fsid opts f → optionsMatch opts (options e) = true → f = fsid e.
Proof.
  intros [_ Ho] Hm. pose proof (optionsMatch_sub _ _ Hm _ (options_fsid e)) as Hin.
  apply Ho in Hin; [|apply HasPrefix_app]. unfold fsidFlag in Hin. symmetry. by apply (inj (String.app "fsid=")) in Hin.
Qed.

(** ** Canonical clients *)

(** [s] is the text of a numeric address without a zone, IPv4 never written as
    IPv6, no multicast group, and unspecified only as "0.0.0.0". *)
Definition canonical (s : string) : Prop :=
  ∃ a, ParseAddr s = Some a ∧ AddrString a = s ∧ ad_zone a = "" ∧ Is4In6 a = false ∧ IsMulticast a = false ∧
    (IsUnspecified a = true → s = "0.0.0.0").

Lemma unicastAddress_inv s a : unicastAddress s = Ok a →
  ∃ ip, ParseAddr s = Some ip ∧ ad_zone ip = "" ∧ IsUnspecified ip = false ∧ IsMulticast ip = false ∧ a = Unmap ip.
Proof.
  unfold unicastAddress. destruct (ParseAddr s) as [ip|]; [|done]. destruct (negb _) eqn:Ez; [done|].
  apply negb_false_iff, bool_decide_eq_true in Ez. cbn [orb]. destruct (_ || _) eqn:E; [done|].
  apply orb_false_iff in E as [??]. intros [= <-]. eauto 7.
Qed.
Lemma Unmap_fixed a : Is4In6 a = false → Unmap a = a.
Proof. unfold Unmap. by intros ->. Qed.
Lemma canonical_text s a : canonical s → unicastAddress s = Ok a → AddrString a = s.
Proof.
  intros (b&Hb&Hs&_&H4&_) (ip&Hp&_&_&_&->)%unicastAddress_inv. rewrite Hb in Hp. injection Hp as <-. by rewrite Unmap_fixed.
Qed.
Lemma unicast_canonical s a : unicastAddress s = Ok a → canonical (AddrString a).
Proof.
  intros (ip&Hp&Hz&Hu&Hm&->)%unicastAddress_inv. destruct (ParseAddr_ok s ip Hp) as [Hb Hl].
  destruct (Unmap_ok ip Hb Hl) as [_ Hl']. exists (Unmap ip).
  assert (Is4In6 (Unmap ip) = false) as H4.
  { unfold Is4In6, Is4. destruct Hl' as [[-> _]|(->&?&_)]; [done|]. by apply bool_decide_eq_false_2. }
  split_and!; [by eapply ParseAddr_AddrString|done| |done| |].
  - destruct Hl' as [[_ ?]|(_&_&->)]; done.
  - unfold IsMulticast. by rewrite (Unmap_fixed _ H4).
  - destruct (Is4In6 ip) eqn:E; [|rewrite (Unmap_fixed _ E); congruence].
    destruct Hl' as [[Hl' _]|(Hl'&Hn&_)]; [|by unfold Unmap in Hl'; rewrite E in Hl'; cbn in Hl'; rewrite length_drop in Hl'; lia].
    intros [->%bool_decide_eq_true|H%bool_decide_eq_true]%orb_true_iff; [done|]. by rewrite H in Hl'.
Qed.

Lemma canonicalClients_canonical cs bind cs' : canonicalClients cs bind = Ok cs' →
  Forall canonical cs' ∧ (Forall canonical cs → cs' = cs).
Proof.
  revert cs'. induction cs as [|c cs IH]; intros cs'; cbn [canonicalClients]; [by intros [= <-]|].
  intros (ip&Hip&H)%result_bind_Ok. destruct (negb _); [done|]. apply result_bind_Ok in H as (rest&Hr&[= <-]).
  destruct (IH rest Hr) as [IH1 IH2]. split.
  - constructor; [by eapply unicast_canonical|done].
  - rewrite Forall_cons. intros [Hc Hcs]. by rewrite (canonical_text c ip Hc Hip), IH2.
Qed.
Lemma elem_of_Sort x l : x ∈ Sort l ↔ x ∈ l.
Proof. by rewrite Sort_perm. Qed.
Lemma normalizeClients_canonical cs bind cs' : normalizeClients cs bind = Ok cs' →
  Forall canonical cs' ∧ (Forall canonical cs → ∀ c, c ∈ cs' ↔ c ∈ cs).
Proof.
  intros (l&Hl&[= <-])%result_bind_Ok. destruct (canonicalClients_canonical _ _ _ Hl) as [H1 H2].
  rewrite Forall_forall in H1. split.
  - apply Forall_forall. intros c. rewrite elem_of_Compact, elem_of_Sort. apply H1.
  - intros Hc c. by rewrite elem_of_Compact, elem_of_Sort, (H2 Hc).
Qed.

Record normalizes (e e' : Export) : Prop := {
  nz_id : ex_VolumeID e' = ex_VolumeID e;
  nz_path : ex_Path e' = ex_Path e;
  nz_acl : ex_ACLEnabled e' = ex_ACLEnabled e;
  nz_active : ex_Active e' = ex_Active e;
  nz_readonly : ex_ReadOnly e' = ex_ReadOnly e;
  nz_hints : ex_SourceKey e' = ex_SourceKey e ∧ ex_FenceUID e' = ex_FenceUID e;
  nz_canonical : Forall canonical (ex_Clients e');
  nz_clients : ex_ACLEnabled e = true → Forall canonical (ex_Clients e) → ∀ c, c ∈ ex_Clients e' ↔ c ∈ ex_Clients e;
}.
Lemma normalized_ok e e' : normalized e = Ok e' → normalizes e e'.
Proof.
  unfold normalized. case_decide; [done|]. destruct (negb (safeExportPath _)); [done|].
  intros (addr&_&(e1&He1&(cs&Hcs&[= <-])%result_bind_Ok)%result_bind_Ok)%result_bind_Ok.
  unfold normalizePolicy in He1. destruct (negb _); [done|]. destruct (containsb _ _); [|done]. injection He1 as <-.
  cbn in Hcs. apply normalizeClients_canonical in Hcs as [H1 H2]. split; cbn; try done.
  - by destruct (ex_ACLEnabled e).
  - by intros ->.
Qed.

(** A normalized export admits the clients it had, when they are canonical. *)
Lemma normalizes_clients e e' : normalizes e e' → Forall canonical (ex_Clients e) → ∀ c, c ∈ clients e' ↔ c ∈ clients e.
Proof.
  intros Hn Hc c. unfold clients. rewrite (nz_active _ _ Hn), (nz_acl _ _ Hn).
  destruct (ex_Active e); [|done]. destruct (ex_ACLEnabled e) eqn:Ea; [|done]. cbn. by apply (nz_clients _ _ Hn).
Qed.
Lemma normalizes_fsid e e' : normalizes e e' → fsid e' = fsid e.
Proof. intros Hn. unfold fsid. by rewrite (nz_id _ _ Hn). Qed.

(** ** The laws *)

Definition row_key (x : entry) : string * string := (en_Path x, en_Client x).
Definition row_fsid (x : entry) : string := optionValue (en_Options x) "fsid".

Section Quiet.
Context {W : Type} `{Host W} (rows : W → list entry).
(** [m] touches neither the manager nor the export table. *)
Definition quiet {E A} (m : M W E A) : Prop := ∀ w, mgr_of (m w).2 = mgr_of w ∧ rows (m w).2 = rows w.
(** So does the runtime's start, between the calls of [save]. *)
Fixpoint quietStart (m : manager) (R : list entry) (p : startProgram W) : Prop :=
  match p with
  | StartDone _ _ w => mgr_of w = m ∧ rows w = R
  | StartSave _ w k => mgr_of w = m ∧ rows w = R ∧ ∀ r w', quietStart (mgr_of w') (rows w') (k r w')
  end.
End Quiet.

Class NfsLaws (W : Type) `{Host W, Runtime W} := {
  rows : W → list entry;
  law_get_set m w : mgr_of (set_mgr m w) = m;
  law_rows_set m w : rows (set_mgr m w) = rows w;
  law_order D : map_order D ≡ₚ map_to_list D;
  law_identity : quiet rows rt_identity;
  law_validateExport e : quiet rows (rt_validateExport e);
  law_health : quiet rows rt_health;
  law_close : quiet rows rt_close;
  law_EvalSymlinks p : quiet rows (EvalSymlinks p);
  law_StatIsDir p : quiet rows (StatIsDir p);
  law_BeforeActivate guard e : BeforeActivate = Some guard → quiet rows (guard e);
  law_start s w : quietStart rows (mgr_of w) (rows w) (rt_start s w);
  (** Reading the table tells the truth. *)
  law_list : quiet rows rt_list;
  law_list_rows w l : (rt_list w).1 = Ok l → l = rows w;
  (** A grant may add rows for its path and client with the fsid it was given,
      and replaces no other row. *)
  law_grant e c w :
    mgr_of (rt_grant e c w).2 = mgr_of w ∧
    (∀ x, x ∈ rows (rt_grant e c w).2 → x ∈ rows w ∨ row_key x = (ex_Path e, c) ∧ only_fsid (en_Options x) (fsid e)) ∧
    (∀ x, x ∈ rows w → row_key x ≠ (ex_Path e, c) → x ∈ rows (rt_grant e c w).2);
  (** A revocation removes at most the rows of its path and client, and all
      of them when it succeeds. *)
  law_revoke p c w :
    mgr_of (rt_revoke p c w).2 = mgr_of w ∧
    (∀ x, x ∈ rows (rt_revoke p c w).2 → x ∈ rows w) ∧
    (∀ x, x ∈ rows w → row_key x ≠ (p, c) → x ∈ rows (rt_revoke p c w).2) ∧
    ((rt_revoke p c w).1 = Ok tt → ∀ x, x ∈ rows (rt_revoke p c w).2 → row_key x ≠ (p, c));
}.

(** ** Ownership *)

Lemma owns_true L x : owns L x = true ↔
  ∃ e, e ∈ L ∧ ex_Path e = en_Path x ∧ en_Client x ∈ clients e ∧ row_fsid x = fsid e.
Proof.
  unfold owns. rewrite existsb_exists. setoid_rewrite <- list_elem_of_In. setoid_rewrite andb_true_iff.
  setoid_rewrite andb_true_iff. setoid_rewrite containsb_true. setoid_rewrite bool_decide_eq_true. unfold row_fsid. naive_solver.
Qed.
Lemma owns_mono L L' x : (∀ e, e ∈ L → e ∈ L') → owns L x = true → owns L' x = true.
Proof. rewrite !owns_true. naive_solver. Qed.

Section Wal.
Context {W : Type} `{HHost : Host W, HRuntime : Runtime W, HLaws : !NfsLaws W} (config : Config) (F : entry → Prop).
Implicit Types (w : W) (e : Export) (d : diskState).

Abbreviation mem w := (mg_state (mgr_of w)).
Abbreviation Desired w := (ds_Desired (mem w)).
Abbreviation Ledger w := (ds_Ledger (mem w)).
Abbreviation dir w := (mg_dir (mgr_of w)).

(** The paths the manager may export: its root and what is below it. *)
Definition in_tree (p : string) : Prop := p = cf_ExportRoot config ∨ is_ok (ExportPath config p) = true.
Definition export_ok e : Prop := Forall canonical (ex_Clients e) ∧ in_tree (ex_Path e).

Record state_ok d : Prop := {
  so_id id e : ds_Desired d !! id = Some e → ex_VolumeID e = id;
  so_path i j e e' : ds_Desired d !! i = Some e → ds_Desired d !! j = Some e' → ex_Path e = ex_Path e' → i = j;
  so_root id e : ds_Desired d !! id = Some e → ex_Path e = cf_ExportRoot config ↔ id = rootVolumeID;
  so_desired id e : ds_Desired d !! id = Some e → export_ok e;
  so_ledger e : e ∈ ds_Ledger d → export_ok e;
}.

(** Every row is foreign, or owned by the ledger [L]. *)
Definition covered (L : list Export) (R : list entry) : Prop :=
  ∀ x, x ∈ R → F x ∨ owns L x = true ∧ only_fsid (en_Options x) (row_fsid x).

Definition version_ok (R : list entry) (v : option ownerFile) : Prop :=
  match v with
  | Some (OwnerState d) => state_ok d ∧ covered (ds_Ledger d) R
  | _ => ∀ x, x ∈ R → F x
  end.
Record dir_ok (R : list entry) (s : stateDir) : Prop := {
  do_versions v : v ∈ versions s → version_ok R v;
  do_live : sd_live s ∈ sd_pending s;
}.

Record Wal w : Prop := {
  wal_dir : dir_ok (rows w) (dir w);
  wal_state : state_ok (mem w);
  wal_rows : covered (Ledger w) (rows w);
}.

Lemma covered_mono L L' R R' :
  covered L R → (∀ e, e ∈ L → e ∈ L') → (∀ x, x ∈ R' → x ∈ R) → covered L' R'.
Proof.
  intros Hc HL HR x Hx. destruct (Hc x (HR x Hx)) as [|[Ho Hf]]; [by left|right]. split; [|done]. by eapply owns_mono.
Qed.
Lemma version_ok_mono R R' v : (∀ x, x ∈ R' → x ∈ R) → version_ok R v → version_ok R' v.
Proof.
  intros HR. destruct v as [[d|]|]; cbn; [|by eauto..]. intros [Hs Hc]. split; [done|]. by eapply covered_mono.
Qed.
Lemma dir_ok_mono R R' s : (∀ x, x ∈ R' → x ∈ R) → dir_ok R s → dir_ok R' s.
Proof. intros HR [Hv Hl]. split; [|done]. intros v Hin. by eapply version_ok_mono, Hv. Qed.

Lemma rename_owner_ok R d s : dir_ok R s → state_ok d → covered (ds_Ledger d) R → dir_ok R (rename_owner d s).
Proof.
  intros [Hv Hl] Hd Hc. split; cbn; [|left]. unfold versions in *. cbn. intros v.
  assert (version_ok R (Some (OwnerState d))) as Hn by done.
  destruct (sd_synced s); rewrite ?elem_of_cons; intros; destruct_or?; subst; auto; apply Hv; set_solver.
Qed.
Lemma sync_owner_ok R s : dir_ok R s → dir_ok R (sync_owner s).
Proof.
  intros [Hv Hl]. split; cbn; [|by left]. unfold versions in *. cbn. intros v.
  destruct (sd_synced s); rewrite ?elem_of_cons, ?elem_of_nil; intros; destruct_or?; subst; try done; apply Hv; set_solver.
Qed.
Lemma sync_parent_ok R s : dir_ok R s → dir_ok R (sync_parent s).
Proof. intros [Hv Hl]. split; cbn; [|done]. intros v Hin. apply Hv. unfold versions. destruct (sd_synced s); set_solver. Qed.

(** *** File operations *)

(** Only the outcomes to come were used up. *)
Definition used w w' : Prop := rows w' = rows w ∧ ∃ f, mgr_of w' = set_dir (mgr_of w) (dir w) f.
(** Only the state directory changed. *)
Definition stored w w' : Prop := rows w' = rows w ∧ ∃ s f, mgr_of w' = set_dir (mgr_of w) s f.

#[global] Instance used_preorder : PreOrder used.
Proof.
  split.
  - intros w. split; [done|]. exists (mg_faults (mgr_of w)). by destruct (mgr_of w).
  - intros w1 w2 w3 [R1 [f1 E1]] [R2 [f2 E2]]. split; [congruence|]. exists f2. by rewrite E2, E1.
Qed.
#[global] Instance stored_preorder : PreOrder stored.
Proof.
  split.
  - intros w. split; [done|]. exists (dir w), (mg_faults (mgr_of w)). by destruct (mgr_of w).
  - intros w1 w2 w3 [R1 (s1&f1&E1)] [R2 (s2&f2&E2)]. split; [congruence|]. exists s2, f2. by rewrite E2, E1.
Qed.
Lemma used_stored w w' : used w w' → stored w w'.
Proof. intros [? [f ?]]. split; [done|]. by exists (dir w), f. Qed.
Lemma stored_mem w w' : stored w w' → mem w' = mem w.
Proof. intros [_ (s&f&->)]. done. Qed.
Lemma used_dir w w' : used w w' → dir w' = dir w.
Proof. intros [_ [f ->]]. done. Qed.
Lemma used_Wal w w' : used w w' → Wal w → Wal w'.
Proof. intros [ER [f Em]] [H1 H2 H3]. split; rewrite ?Em, ?ER; done. Qed.

Lemma sysfail_spec w : wp sysfail (λ r w', used w w' ∧ ∃ b, r = Ok b) w.
Proof.
  unfold wp, sysfail. destruct (mg_faults (mgr_of w)) as [|f fs]; cbn; [split; [done|eauto]|].
  split; [|eauto]. split; [apply law_rows_set|]. exists fs. by rewrite law_get_set.
Qed.
Lemma attempt_spec what w : wp (attempt what) (λ _ w', used w w') w.
Proof. unfold attempt. wcall sysfail_spec; [|by intros e w' [? _]]. intros [] w' [Hu _]; done. Qed.

Lemma on_dir_spec f w : wp (on_dir f) (λ r w', r = Ok tt ∧ rows w' = rows w ∧ mgr_of w' = set_dir (mgr_of w) (f (dir w)) (mg_faults (mgr_of w))) w.
Proof. unfold wp, on_dir, on_mgr, modify. cbn. by rewrite law_rows_set, law_get_set. Qed.

Lemma syncDirectory_spec effect w :
  wp (syncDirectory effect) (λ r w', stored w w' ∧ (dir w' = dir w ∨ dir w' = effect (dir w)) ∧ (r = Ok tt → dir w' = effect (dir w))) w.
Proof.
  unfold syncDirectory. wcall attempt_spec; [intros [] w1 H1|intros e w1 H1].
  2:{ split_and!; [by apply used_stored|left; by apply used_dir|done]. }
  wcall sysfail_spec; [intros sf w2 [H2 _]|by intros e w2 [_ [? ?]]].
  assert (used w w2) as H02 by by etrans. pose proof (used_dir _ _ H02) as Hd2. destruct sf; cbn [orb].
  - eapply wp_call; [by apply wp_ret with (Q := λ r w', r = Ok tt ∧ w' = w2)|intros [] w3 [_ ->]|by intros e w3 [? _]].
    wcall sysfail_spec; [intros cf w3 [H3 _]|by intros e w3 [_ [? ?]]]. apply wp_throw.
    assert (used w w3) by by etrans. split_and!; [by apply used_stored|left; by apply used_dir|done].
  - wcall on_dir_spec; [intros [] w3 (_&R3&E3)|by intros e w3 [? _]].
    assert (stored w w3) as H3. { etrans; [by apply used_stored|]. split; [done|]. eexists _, _. exact E3. }
    assert (dir w3 = effect (dir w)) as Hd3 by (rewrite E3; cbn; by rewrite Hd2).
    wcall sysfail_spec; [intros cf w4 [H4 _]|by intros e w4 [_ [? ?]]].
    assert (stored w w4) by (etrans; [exact H3|by apply used_stored]). pose proof (used_dir _ _ H4) as Hd4.
    destruct cf; [apply wp_throw|apply wp_ret]; split_and!; try done; try (right; congruence). congruence.
Qed.

(** owner.json is as it was, or holds what is in memory. *)
Definition replaced w w' : Prop := sd_live (dir w') = sd_live (dir w) ∨ sd_live (dir w') = Some (OwnerState (mem w)).

Lemma commitOwner_spec w : Wal w →
  wp (commitOwner (mem w)) (λ r w', dir_ok (rows w) (dir w') ∧ stored w w' ∧ replaced w w' ∧
    (r = Ok tt → versions (dir w') = [Some (OwnerState (mem w))])) w.
Proof.
  intros [Hd Hs Hc]. unfold commitOwner.
  wcall sysfail_spec; [intros f1 w1 [H1 _]|by intros e w1 [_ [? ?]]].
  wcall sysfail_spec; [intros f2 w2 [H2 _]|by intros e w2 [_ [? ?]]].
  wcall sysfail_spec; [intros f3 w3 [H3 _]|by intros e w3 [_ [? ?]]].
  assert (used w w3) as Hu by (etrans; [|done]; by etrans). clear H1 H2 H3.
  assert (∀ w', used w w' → dir_ok (rows w) (dir w') ∧ stored w w' ∧ replaced w w') as Hkeep.
  { intros w' Hu'. unfold replaced. rewrite (used_dir _ _ Hu'). split_and!; [done|by apply used_stored|by left]. }
  destruct (f1 || f2 || f3); [apply wp_throw; by destruct (Hkeep w3 Hu) as (?&?&?)|].
  wcall attempt_spec; [intros [] w4 H4|intros e w4 H4]; assert (used w w4) as Hu4 by by etrans.
  2:{ by destruct (Hkeep w4 Hu4) as (?&?&?). }
  wcall on_dir_spec; [intros [] w5 (_&R5&E5)|by intros e w5 [? _]].
  assert (stored w w5) as H5. { etrans; [by apply used_stored|]. split; [done|]. eexists _, _. exact E5. }
  assert (dir w5 = rename_owner (mem w) (dir w)) as Hd5 by (rewrite E5; cbn; by rewrite (used_dir _ _ Hu4)).
  pose proof (rename_owner_ok _ _ _ Hd Hs Hc) as Ho5. rewrite <- Hd5 in Ho5.
  wcall syncDirectory_spec; [intros [] w6 (H6&_&Hd6)|intros e w6 (H6&Hd6&_)].
  2:{ split_and!; [|by etrans|right|done]; destruct Hd6 as [->| ->]; rewrite ?Hd5; try done; [by rewrite <- Hd5|].
      rewrite <- Hd5. by apply sync_owner_ok. }
  specialize (Hd6 eq_refl). pose proof (sync_owner_ok _ _ Ho5) as Ho6. rewrite <- Hd6 in Ho6.
  wend syncDirectory_spec. intros r w7 (H7&Hd7&Hok). split_and!.
  - destruct Hd7 as [->| ->]; [done|by apply sync_parent_ok].
  - etrans; [|done]. by etrans.
  - right. destruct Hd7 as [->| ->]; rewrite Hd6, Hd5; done.
  - intros Hr. rewrite (Hok Hr), Hd6, Hd5. reflexivity.
Qed.

Lemma stored_Wal w w' : Wal w → stored w w' → dir_ok (rows w) (dir w') → Wal w'.
Proof.
  intros [_ Hs Hc] [ER (s&f&Em)] Hd. split; [by rewrite ER|by rewrite Em|]. rewrite Em, ER. exact Hc.
Qed.

Lemma persist_spec w : Wal w →
  wp persist (λ r w', Wal w' ∧ stored w w' ∧ replaced w w' ∧ (r = Ok tt → versions (dir w') = [Some (OwnerState (mem w))])) w.
Proof.
  intros Hw. unfold persist. wcall attempt_spec; [intros [] w1 H1|intros e w1 H1].
  2:{ split_and!; [by eapply used_Wal|by apply used_stored|left; by rewrite (used_dir _ _ H1)|done]. }
  apply wp_bind, wp_reads. apply wp_bind, wp_try.
  assert (mem w1 = mem w) as Hm by by apply stored_mem, used_stored.
  wend commitOwner_spec; [by eapply used_Wal|]. intros r w2 (H2&H3&H4&H5).
  assert (Wal w2) as Hw2 by (eapply stored_Wal; [by eapply used_Wal|done|done]).
  assert (stored w w2) as Hs2 by (etrans; [by apply used_stored|done]).
  assert (replaced w w2) as Hr2 by (unfold replaced in *; by rewrite (used_dir _ _ H1), Hm in H4).
  wcall sysfail_spec; [intros f w3 [H6 _]|by intros e w3 [_ [? ?]]].
  assert (stored w w3) as Hs3 by (etrans; [exact Hs2|by apply used_stored]).
  assert (replaced w w3) as Hr3 by (unfold replaced in *; by rewrite (used_dir _ _ H6)).
  destruct f; [apply wp_throw|apply wp_lift]; (split_and!; [by eapply used_Wal|done|done|try done]).
  intros Hr. rewrite (used_dir _ _ H6). rewrite <- Hm. auto.
Qed.
End Wal.
