(* ===== verification/NfsConverge.v ===== *)
(** * Convergence of the export table

    One pass of [converge] keeps the write-ahead invariant at every point, and
    when it succeeds the table holds exactly the admissions of the policy. *)
From stdpp Require Import base numbers list strings gmap.
From S2P Require Import Prelude GoStd GoNet GoNetip NfsManager NfsLaws.
Open Scope Z_scope.

Section Converge.
Context {W : Type} `{HHost : Host W, HRuntime : Runtime W, HLaws : !NfsLaws W} (config : Config) (F : entry → Prop).
Implicit Types (w : W) (e : Export) (d : diskState).

Abbreviation mem w := (mg_state (mgr_of w)).
Abbreviation Desired w := (ds_Desired (mem w)).
Abbreviation Ledger w := (ds_Ledger (mem w)).
Abbreviation dir w := (mg_dir (mgr_of w)).
Abbreviation errs w := (mg_exportErrors (mgr_of w)).
Abbreviation state_ok := (state_ok config).
Abbreviation Wal := (Wal config F).
Abbreviation admissions := (gmap (string * string) entry).

Lemma elem_of_order D id e : (id, e) ∈ map_order D ↔ D !! id = Some e.
Proof. rewrite law_order. apply elem_of_map_to_list. Qed.
Lemma order_NoDup D : NoDup (map_order D).*1.
Proof. rewrite law_order. apply NoDup_fst_map_to_list. Qed.

(** ** Growing the ledger *)

(** What the manager holds besides its policy is unchanged, the table and the
    state directory too, and the ledger lost nothing. *)
Record grows w w' : Prop := {
  gr_rows : rows w' = rows w;
  gr_dir : dir w' = dir w;
  gr_flags : mg_lock (mgr_of w') = mg_lock (mgr_of w) ∧ mg_started (mgr_of w') = mg_started (mgr_of w) ∧
             mg_closed (mgr_of w') = mg_closed (mgr_of w) ∧ mg_failure (mgr_of w') = mg_failure (mgr_of w);
  gr_desired id : id ≠ rootVolumeID → Desired w' !! id = Desired w !! id;
  gr_ledger e : e ∈ Ledger w → e ∈ Ledger w';
}.
#[global] Instance grows_preorder : PreOrder grows.
Proof.
  split; [done|]. intros w1 w2 w3 [A1 A2 (A3&A4&A5&A6) A7 A8] [B1 B2 (B3&B4&B5&B6) B7 B8].
  split; [congruence|congruence|split_and!; congruence| |auto]. intros id Hid. rewrite B7, A7 by done. done.
Qed.
Lemma grows_Wal w w' : Wal w → grows w w' → state_ok (mem w') → Wal w'.
Proof.
  intros [Hd _ Hc] Hg Hs. split; [by rewrite (gr_rows _ _ Hg), (gr_dir _ _ Hg)|done|].
  eapply covered_mono; [exact Hc|apply (gr_ledger _ _ Hg)|by rewrite (gr_rows _ _ Hg)].
Qed.
Lemma quiet_grows {E A} (m : M W E A) w r w' : quiet rows m → m w = (r, w') → grows w w' ∧ mgr_of w' = mgr_of w.
Proof.
  intros Hq Hm. destruct (Hq w) as [E1 E2]. rewrite Hm in *. cbn in *. split; [|done].
  split; rewrite ?E1; done.
Qed.
Lemma quiet_spec {E A} (m : M W E A) w : quiet rows m → wp m (λ _ w', grows w w' ∧ mgr_of w' = mgr_of w) w.
Proof. intros Hq. apply wp_of_run. intros r w' Hm. by eapply quiet_grows. Qed.

Lemma on_mgr_spec f w : wp (on_mgr f) (λ r w', r = Ok tt ∧ rows w' = rows w ∧ mgr_of w' = f (mgr_of w)) w.
Proof. unfold wp, on_mgr, modify. cbn. by rewrite law_rows_set, law_get_set. Qed.

(** *** The pseudoroot *)

Lemma rootLoop_ok er l root : let r := rootLoop er l root in
  ex_VolumeID r = ex_VolumeID root ∧ ex_Path r = ex_Path root ∧
  (Forall canonical (ex_Clients root) → (∀ id e, (id, e) ∈ l → Forall canonical (ex_Clients e)) → Forall canonical (ex_Clients r)).
Proof.
  revert root. induction l as [|[id e] l IH]; intros root; cbn [rootLoop]; [done|].
  destruct (_ || _); [|destruct (negb _)].
  - destruct (IH root) as (H1&H2&H3). split_and!; [done..|]. intros Hr Hl. apply H3; [done|]. intros. eapply Hl. by right.
  - cbn. split_and!; [done..|]. constructor.
  - destruct (IH (set_Clients root (ex_Clients root ++ ex_Clients e))) as (H1&H2&H3). split_and!; [done..|].
    intros Hr Hl. apply H3; [|intros; eapply Hl; by right]. cbn. apply Forall_app_2; [done|]. eapply Hl. by left.
Qed.
Lemma rootOf_ok er D : let r := rootOf config er D in
  ex_VolumeID r = rootVolumeID ∧ ex_Path r = cf_ExportRoot config ∧
  ((∀ id e, D !! id = Some e → Forall canonical (ex_Clients e)) → Forall canonical (ex_Clients r)).
Proof.
  unfold rootOf. match goal with |- context [rootLoop er ?l ?r0] => destruct (rootLoop_ok er l r0) as (H1&H2&H3) end.
  cbn in H1, H2, H3. set (r := rootLoop _ _ _) in *. destruct (ex_ACLEnabled r).
  - assert ((∀ id e, D !! id = Some e → Forall canonical (ex_Clients e)) → Forall canonical (Compact (Sort (ex_Clients r)))) as Hc.
    { intros HD. specialize (H3 ltac:(constructor)). rewrite Forall_forall in *. intros c. rewrite elem_of_Compact, elem_of_Sort.
      apply H3. intros id e Hin%elem_of_order. by eapply HD. }
    destruct (Compact _); cbn; auto.
  - split_and!; [done..|]. intros HD. apply H3; [constructor|]. intros id e Hin%elem_of_order. by eapply HD.
Qed.

Lemma state_ok_root er d L : state_ok d → (∀ e, e ∈ L → e ∈ ds_Ledger d ∨ e = rootOf config er (ds_Desired d)) →
  state_ok (set_Ledger (set_Desired d (<[rootVolumeID := rootOf config er (ds_Desired d)]> (ds_Desired d))) L).
Proof.
  intros [H1 H2 H3 H4 H5] HL. destruct (rootOf_ok er (ds_Desired d)) as (R1&R2&R3).
  assert (export_ok config (rootOf config er (ds_Desired d))) as R4.
  { split; [apply R3; intros id e He; by apply (H4 id e)|by left]. }
  assert (∀ id e, <[rootVolumeID := rootOf config er (ds_Desired d)]> (ds_Desired d) !! id = Some e →
    id = rootVolumeID ∧ e = rootOf config er (ds_Desired d) ∨ id ≠ rootVolumeID ∧ ds_Desired d !! id = Some e) as Hi.
  { intros id e. rewrite lookup_insert_Some. naive_solver. }
  split; cbn.
  - intros id e [[-> ->]|[_ ?]]%Hi; auto.
  - intros i j e e' [[-> ->]|[Hni Hi']]%Hi [[-> ->]|[Hnj Hj']]%Hi Hp; [done| | |by eapply H2].
    + rewrite R2 in Hp. symmetry in Hp. by apply (H3 _ _ Hj') in Hp.
    + rewrite R2 in Hp. by apply (H3 _ _ Hi') in Hp.
  - intros id e [[-> ->]|[Hn ?]]%Hi; [by rewrite R2|by apply H3].
  - intros id e [[-> ->]|[Hn ?]]%Hi; [done|by eapply H4].
  - intros e [He| ->]%HL; [by apply H5|done].
Qed.

Lemma updateRoot_spec w : state_ok (mem w) →
  wp (updateRoot config) (λ r w', r = Ok tt ∧ grows w w' ∧ state_ok (mem w') ∧ errs w' = errs w ∧
    Desired w' = <[rootVolumeID := rootOf config (errs w) (Desired w)]> (Desired w) ∧
    (ex_Active (rootOf config (errs w) (Desired w)) = true → rootOf config (errs w) (Desired w) ∈ Ledger w')) w.
Proof.
  intros Hs. wend on_mgr_spec. intros r w' (->&R&E). set (root := rootOf config (errs w) (Desired w)) in *.
  assert (mem w' = set_Ledger (set_Desired (mem w) (<[rootVolumeID := root]> (Desired w)))
    (if ex_Active root then Ledger w ++ [root] else Ledger w)) as Hm.
  { rewrite E. cbn. fold root. by destruct (ex_Active root). }
  assert (mgr_of w' = set_state (mgr_of w) (mem w')) as E' by by rewrite E. rewrite E'. cbn. rewrite Hm. cbn.
  split_and!; [done| |apply state_ok_root; [done|]|done|done|].
  - split; cbn; [done|by rewrite E'|by rewrite E'|rewrite Hm; cbn; intros id Hid; by rewrite lookup_insert_ne|].
    rewrite Hm. cbn. intros e He. destruct (ex_Active root); set_solver.
  - intros e. destruct (ex_Active root); set_solver.
  - intros ->. set_solver.
Qed.

(** ** What is wanted *)

Definition row_of e c : entry := {| en_Path := ex_Path e; en_Client := c; en_Options := options e |}.

Lemma lookup_addEntries e (wanted : admissions) p c :
  addEntries e wanted !! (p, c) = if decide (p = ex_Path e ∧ c ∈ clients e) then Some (row_of e c) else wanted !! (p, c).
Proof.
  unfold addEntries. generalize (clients e). intros l. revert wanted. induction l as [|x l IH]; intros wanted; cbn [foldl].
  - rewrite decide_False; [done|]. by intros [_ ?%elem_of_nil].
  - rewrite IH. destruct (decide (p = ex_Path e ∧ c ∈ l)) as [[-> Hc]|Hn].
    + rewrite decide_True by (split; [done|by right]). done.
    + destruct (decide (p = ex_Path e ∧ c = x)) as [[-> ->]|Hx].
      * rewrite lookup_insert_eq, decide_True; [done|]. split; [done|left].
      * rewrite lookup_insert_ne by (intros [= <- <-]; apply Hx; done). rewrite decide_False; [done|].
        intros [-> [->|?]%elem_of_cons]; [by apply Hx|by apply Hn].
Qed.

(** The export [id] takes part in the pass. *)
Definition available w id : Prop := id = rootVolumeID ∨ errs w !! id = None.

Record wanted_ok w (wanted : admissions) : Prop := {
  wo_from p c want : wanted !! (p, c) = Some want →
    ∃ id e, Desired w !! id = Some e ∧ available w id ∧ e ∈ Ledger w ∧ p = ex_Path e ∧ c ∈ clients e ∧ want = row_of e c;
  wo_all id e c : Desired w !! id = Some e → available w id → c ∈ clients e → wanted !! (ex_Path e, c) = Some (row_of e c);
}.

(** The same for the exports of [l], during the pass over them. *)
Record loop_inv w (l : list (string * Export)) (wanted : admissions) : Prop := {
  li_from p c want : wanted !! (p, c) = Some want →
    ∃ id e, (id, e) ∈ l ∧ id ≠ rootVolumeID ∧ errs w !! id = None ∧ e ∈ Ledger w ∧ p = ex_Path e ∧ c ∈ clients e ∧ want = row_of e c;
  li_all id e c : (id, e) ∈ l → id ≠ rootVolumeID → errs w !! id = None → c ∈ clients e →
    wanted !! (ex_Path e, c) = Some (row_of e c);
  li_errs id : errs w !! id ≠ None → id ∈ l.*1;
}.

Lemma validated_spec e w : wp (validated e) (λ r w', (∃ v, r = Ok v) ∧ grows w w' ∧ mgr_of w' = mgr_of w) w.
Proof.
  apply wp_of_run. unfold validated. intros r w' Hr. destruct (rt_validateExport e w) as [rv w1] eqn:Ev.
  apply quiet_grows in Ev; [|apply law_validateExport]. destruct rv; simplify_eq; eauto.
Qed.

Lemma validateActivation_spec e w : wp (validateActivation e) (λ r w', grows w w' ∧ mem w' = mem w ∧
  (r = Ok true → errs w' = errs w) ∧ (r = Ok false → ∃ x, errs w' = <[ex_VolumeID e := x]> (errs w))) w.
Proof.
  unfold validateActivation.
  wcall validated_spec; [intros v w1 (_&G1&E1)|by intros x w1 [[? ?] _]].
  match goal with |- wp (?m ≫= _) _ _ =>
    assert (wp m (λ r w', (∃ v, r = Ok v) ∧ grows w w' ∧ mgr_of w' = mgr_of w) w1) as Hb end.
  { destruct v as [i|]; [apply wp_ret; eauto|]. apply wp_bind, wp_try.
    assert (quiet rows (beforeActivate e)) as Hq.
    { unfold beforeActivate. destruct (_ && _); [done|]. destruct (_ || _); [done|].
      destruct BeforeActivate as [guard|] eqn:Eg; [|done]. by apply law_BeforeActivate. }
    wend (quiet_spec _ _ Hq). intros r w2 [G2 E2]. apply wp_ret.
    split_and!; [by eexists|by etrans|congruence]. }
  wcall Hb; [intros v' w2 (_&G2&E2)|by intros x w2 [[? ?] _]].
  destruct v' as [[x|x]|]; [|apply wp_throw; split_and!; [done|by rewrite E2|done|done]
    |apply wp_ret; split_and!; [done|by rewrite E2|by rewrite E2|done]].
  wcall on_mgr_spec; [intros [] w3 (_&R3&E3)|by intros ? w3 [? _]]. apply wp_ret. rewrite E3, E2. cbn. split_and!; [|done|done|by eauto].
  etrans; [exact G2|]. split; rewrite ?E3; try done.
Qed.

(** An export that takes no part adds nothing. *)
Lemma loop_inv_skip w w' l id e wanted : mem w' = mem w → errs w' = errs w → (clients e = [] ∨ id = rootVolumeID) →
  loop_inv w l wanted → loop_inv w' (l ++ [(id, e)]) wanted.
Proof.
  intros Em Ee Hskip [H1 H2 H3]. split; rewrite ?Em, ?Ee.
  - intros p c want Hw. destruct (H1 p c want Hw) as (i&x&?&?). exists i, x. set_solver.
  - intros i x c [Hin|[= -> ->]%list_elem_of_singleton]%elem_of_app Hr He Hc; [by eapply H2|].
    destruct Hskip as [Hs| ->]; [by rewrite Hs in Hc; apply elem_of_nil in Hc|done].
  - intros i Hi%H3. rewrite fmap_app. set_solver.
Qed.

(** Nor does one that failed validation. *)
Lemma loop_inv_failed w w' l id e x wanted : mem w' = mem w → errs w' = <[id := x]> (errs w) → id ∉ l.*1 →
  loop_inv w l wanted → loop_inv w' (l ++ [(id, e)]) wanted.
Proof.
  intros Em Ee Hnew [H1 H2 H3]. split; rewrite ?Em, ?Ee.
  - intros p c want Hw. destruct (H1 p c want Hw) as (i&y&Hi&Hr&Hn&?&?&?&?). exists i, y.
    split_and!; try done; [set_solver|]. rewrite lookup_insert_ne; [done|]. intros ->. apply Hnew.
    apply list_elem_of_fmap. by exists (i, y).
  - intros i y c [Hin|[= -> ->]%list_elem_of_singleton]%elem_of_app Hr He Hc; [|by rewrite lookup_insert_eq in He].
    eapply H2; [done|done| |done]. destruct (decide (i = id)) as [->|Hne]; [by rewrite lookup_insert_eq in He|].
    by rewrite lookup_insert_ne in He.
  - intros i Hi. rewrite fmap_app. destruct (decide (i = id)) as [->|Hne]; [set_solver|].
    rewrite lookup_insert_ne in Hi by done. apply H3 in Hi. set_solver.
Qed.

(** One that passed adds its clients. *)
Lemma loop_inv_admit w w' l id e wanted :
  (∀ i y, (i, y) ∈ l → ex_Path y = ex_Path e → (i, y) = (id, e)) →
  (∀ x, x ∈ Ledger w → x ∈ Ledger w') → e ∈ Ledger w' → errs w' = errs w → id ∉ l.*1 → id ≠ rootVolumeID →
  loop_inv w l wanted → loop_inv w' (l ++ [(id, e)]) (addEntries e wanted).
Proof.
  intros Hpath HL He Ee Hnew Hroot [H1 H2 H3]. split; rewrite ?Ee.
  - intros p c want. rewrite lookup_addEntries. case_decide as Hd.
    + intros [= <-]. destruct Hd as [-> Hc]. exists id, e. split_and!; try done; [set_solver|].
      destruct (errs w !! id) eqn:E; [|done]. exfalso. apply Hnew, H3. by rewrite E.
    + intros Hw. destruct (H1 p c want Hw) as (i&y&Hi&Hr&Hn&HyL&?&?&?). exists i, y. split_and!; try done; [set_solver|by apply HL].
  - intros i y c [Hin|[= -> ->]%list_elem_of_singleton]%elem_of_app Hr He' Hc; rewrite lookup_addEntries.
    + rewrite decide_False; [by eapply H2|]. intros [Hp _]. apply Hnew. injection (Hpath i y Hin Hp) as <- <-.
      apply list_elem_of_fmap. by exists (i, y).
    + by rewrite decide_True.
  - intros i Hi%H3. rewrite fmap_app. set_solver.
Qed.

Lemma desiredLoop_spec l pre wanted w :
  state_ok (mem w) → map_order (Desired w) = pre ++ l → loop_inv w pre wanted →
  wp (desiredLoop l wanted) (λ r w', grows w w' ∧ state_ok (mem w') ∧ Desired w' = Desired w ∧
    ∀ wt, r = Ok wt → loop_inv w' (map_order (Desired w)) wt) w.
Proof.
  revert pre wanted w. induction l as [|[id e] l IH]; intros pre wanted w Hs Ho Hi; cbn [desiredLoop].
  { apply wp_ret. rewrite app_nil_r in Ho. split_and!; [done..|]. intros wt [= <-]. by rewrite Ho. }
  assert (map_order (Desired w) = (pre ++ [(id, e)]) ++ l) as Ho' by by rewrite <- app_assoc.
  assert (Desired w !! id = Some e) as HD by (apply elem_of_order; rewrite Ho; set_solver).
  pose proof (order_NoDup (Desired w)) as Hnd. rewrite Ho, fmap_app in Hnd. cbn in Hnd. apply NoDup_app in Hnd as (_&Hnd&_).
  assert (id ∉ pre.*1) as Hnew by (intros Hin; apply (Hnd id Hin); left).
  assert (∀ m' w1 wt, grows w w1 → state_ok (mem w1) → Desired w1 = Desired w → loop_inv w1 (pre ++ [(id, e)]) wt →
    m' = desiredLoop l wt → wp m' (λ r w', grows w w' ∧ state_ok (mem w') ∧ Desired w' = Desired w ∧
    ∀ wt, r = Ok wt → loop_inv w' (map_order (Desired w)) wt) w1) as Hnext.
  { intros m' w1 wt G1 S1 D1 I1 ->. wend (IH (pre ++ [(id, e)])); [done|by rewrite D1|done|].
    intros r w' (G2&S2&D2&I2). rewrite D1 in I2. split_and!; [by etrans|done|congruence|done]. }
  destruct (bool_decide (id = rootVolumeID) || negb (ex_Active e)) eqn:Esk.
  { eapply Hnext; try done. eapply loop_inv_skip; try done. apply orb_true_iff in Esk as [->%bool_decide_eq_true|Ea]; [by right|left].
    unfold clients. by rewrite Ea. }
  apply orb_false_iff in Esk as [Hroot%bool_decide_eq_false _].
  wcall validateActivation_spec; [intros b w1 (G1&M1&T1&F1)|intros x w1 (G1&M1&_)].
  2:{ rewrite M1. split_and!; [done..|]. done. }
  destruct b; cbn [negb].
  - unfold admitExport. apply wp_bind. wcall on_mgr_spec; [intros [] w2 (_&R2&E2)|by intros ? w2 [? _]]. apply wp_ret.
    assert (mem w2 = set_Ledger (mem w) (Ledger w ++ [e])) as M2 by (rewrite E2; cbn; by rewrite M1).
    eapply Hnext; [|rewrite M2|by rewrite M2| |reflexivity].
    + etrans; [exact G1|]. split; rewrite ?E2; cbn; try done. intros y Hy. set_solver.
    + destruct Hs as [S1 S2 S3 S4 S5]. split; cbn; try done. intros y [Hy|Hy%list_elem_of_singleton]%elem_of_app; [by apply S5|subst].
      by eapply S4.
    + eapply loop_inv_admit; [| | |by rewrite E2; cbn; apply T1|done|done|exact Hi].
      * intros i y Hin Hp. assert (Desired w !! i = Some y) as HDi by (apply elem_of_order; rewrite Ho; set_solver).
        assert (i = id) as -> by (by eapply (so_path _ _ Hs)). congruence.
      * rewrite M2. cbn. set_solver.
      * rewrite M2. cbn. set_solver.
  - destruct (F1 eq_refl) as [x Ex]. rewrite (so_id _ _ Hs id e HD) in Ex.
    eapply Hnext; [done|by rewrite M1|by rewrite M1| |reflexivity]. by eapply loop_inv_failed.
Qed.

(** The pseudoroot joins the exports of the pass. *)
Lemma rootEntries_spec wt w2 : state_ok (mem w2) → loop_inv w2 (map_order (Desired w2)) wt →
  wp (rootEntries config wt) (λ r w', grows w2 w' ∧ state_ok (mem w') ∧ ∀ wt', r = Ok wt' → wanted_ok w' wt') w2.
Proof.
  intros S2 I2. unfold rootEntries.
  wcall (updateRoot_spec w2 S2); [intros [] w3 (_&G3&S3&Er3&D3&L3)|by intros ? w3 [? _]]. set (root := rootOf config (errs w2) (Desired w2)) in *.
  assert (grows w2 w3) as G by done. apply wp_bind, wp_reads. rewrite D3, lookup_insert_eq.
  destruct (rootOf_ok (errs w2) (Desired w2)) as (_&Rp&_). fold root in Rp.
  assert (∀ id e, Desired w3 !! id = Some e → id ≠ rootVolumeID → (id, e) ∈ map_order (Desired w2) ∧ ex_Path e ≠ ex_Path root) as Hold.
  { intros id e He Hr. rewrite D3, lookup_insert_ne in He by done. split; [by apply elem_of_order|].
    rewrite Rp. intros Hp. by apply (so_root _ _ S2 _ _ He) in Hp. }
  assert (∀ p c want, wt !! (p, c) = Some want → p ≠ ex_Path root ∧ ∃ id e, Desired w3 !! id = Some e ∧ available w3 id ∧ e ∈ Ledger w3 ∧
    p = ex_Path e ∧ c ∈ clients e ∧ want = row_of e c) as Hfrom.
  { intros p c want Hw. destruct (li_from _ _ _ I2 p c want Hw) as (id&e&Hin&Hr&Hn&HL&->&Hc&->).
    assert (Desired w3 !! id = Some e) as He by (rewrite D3, lookup_insert_ne by done; by apply elem_of_order).
    split; [by eapply Hold|]. exists id, e. split_and!; try done; [right; by rewrite Er3|by apply (gr_ledger _ _ G3)]. }
  assert (∀ id e c, Desired w3 !! id = Some e → id ≠ rootVolumeID → available w3 id → c ∈ clients e → wt !! (ex_Path e, c) = Some (row_of e c)) as Hall.
  { intros id e c He Hr [?|Ha] Hc; [done|]. eapply (li_all _ _ _ I2); [by eapply Hold|done|by rewrite <- Er3|done]. }
  destruct (ex_Active root) eqn:Ea; cbn [negb].
  - wcall validated_spec; [intros v w4 (_&G4&E4)|by intros ? w4 [[? ?] _]].
    assert (grows w2 w4) as G' by by etrans. assert (state_ok (mem w4)) as S4 by by rewrite E4.
    destruct v as [[x|x]|]; [apply wp_throw..|apply wp_ret]; (split_and!; [done|done|try done]).
    intros wt' [= <-]. split; unfold available in *; rewrite E4.
    + intros p c want. rewrite lookup_addEntries. case_decide as Hd; [|intros Hw; by destruct (Hfrom p c want Hw) as [_ ?]].
      intros [= <-]. destruct Hd as [-> Hc]. exists rootVolumeID, root. split_and!; try done; [by rewrite D3, lookup_insert_eq|by left|by apply L3].
    + intros id e c He Ha Hc. rewrite lookup_addEntries. destruct (decide (id = rootVolumeID)) as [->|Hr].
      * rewrite D3, lookup_insert_eq in He. injection He as <-. by rewrite decide_True.
      * rewrite decide_False; [by eapply Hall|]. intros [Hp _]. by destruct (Hold id e He Hr).
  - apply wp_ret. split_and!; [done|done|]. intros wt' [= <-]. split.
    + intros p c want Hw. by destruct (Hfrom p c want Hw) as [_ ?].
    + intros id e c He Ha Hc. destruct (decide (id = rootVolumeID)) as [->|Hr]; [|by eapply Hall].
      rewrite D3, lookup_insert_eq in He. injection He as <-. unfold clients in Hc. rewrite Ea in Hc. by apply elem_of_nil in Hc.
Qed.

Lemma desiredEntries_spec w : state_ok (mem w) →
  wp (desiredEntries config) (λ r w', grows w w' ∧ state_ok (mem w') ∧ ∀ wt, r = Ok wt → wanted_ok w' wt) w.
Proof.
  intros Hs. unfold desiredEntries. wcall on_mgr_spec; [intros [] w1 (_&R1&E1)|by intros ? w1 [? _]].
  assert (grows w w1) as G1 by (split; rewrite ?E1; done). assert (mem w1 = mem w) as M1 by by rewrite E1.
  apply wp_bind, wp_reads. rewrite <- M1 in Hs.
  wcall (desiredLoop_spec (map_order (Desired w1)) [] ∅ w1 Hs eq_refl).
  { split; [by intros p c want; rewrite lookup_empty|by intros ??? ?%elem_of_nil|]. by rewrite E1. }
  2:{ intros x w2 (G2&S2&_). split_and!; [by etrans|done|done]. }
  intros wt w2 (G2&S2&D2&I2). specialize (I2 wt eq_refl). rewrite <- D2 in I2.
  wend rootEntries_spec; [done|done|]. intros r w3 (G3&S3&Hw). split_and!; [etrans; [exact G1|]; by etrans|done|done].
Qed.

(** ** Revoking *)

(** Rows at other paths than the manager's stay. *)
Definition keeps w w' : Prop := ∀ x, x ∈ rows w → ¬ in_tree config (en_Path x) → x ∈ rows w'.
#[global] Instance keeps_preorder : PreOrder keeps.
Proof. split; [by intros w x|]. intros w1 w2 w3 H1 H2 x Hx Hp. auto. Qed.

Record shrinks w w' : Prop := {
  sh_mgr : mgr_of w' = mgr_of w;
  sh_rows x : x ∈ rows w' → x ∈ rows w;
  sh_keeps : keeps w w';
}.
#[global] Instance shrinks_preorder : PreOrder shrinks.
Proof.
  split; [done|]. intros w1 w2 w3 [A1 A2 A3] [B1 B2 B3]. split; [congruence|auto|by etrans].
Qed.
Lemma shrinks_Wal w w' : Wal w → shrinks w w' → Wal w'.
Proof.
  intros [Hd Hs Hc] [Em HR _]. split; rewrite ?Em; [by eapply dir_ok_mono|done|]. eapply covered_mono; [exact Hc|done|done].
Qed.
Lemma quiet_shrinks {E A} (m : M W E A) w : quiet rows m → wp m (λ _ w', shrinks w w') w.
Proof. intros Hq. wend (quiet_spec _ _ Hq). intros r w' [G Em]. split; [done|by rewrite (gr_rows _ _ G)|]. intros x Hx _. by rewrite (gr_rows _ _ G). Qed.

Lemma owns_in_tree d x : state_ok d → owns (ds_Ledger d) x = true → in_tree config (en_Path x).
Proof. intros Hs (e&He&<-&_)%owns_true. by apply (so_ledger _ _ Hs). Qed.

Lemma revoke_spec x w : in_tree config (en_Path x) →
  wp (rt_revoke (en_Path x) (en_Client x)) (λ r w', shrinks w w' ∧ (r = Ok tt → ∀ y, y ∈ rows w' → row_key y ≠ row_key x)) w.
Proof.
  intros Ht. destruct (law_revoke (en_Path x) (en_Client x) w) as (E&H1&H2&H3). unfold wp. split; [|exact H3].
  split; [done|exact H1|]. intros y Hy Hn. apply H2; [done|]. intros Hk. injection Hk as Hp _. by rewrite Hp in Hn.
Qed.

(** Row [x] is as it should be: wanted as it is, or no concern of ours. *)
Definition fits (L : list Export) (wanted : admissions) (x : entry) : Prop :=
  if owns L x then ∃ want, wanted !! row_key x = Some want ∧ optionsMatch (en_Options x) (en_Options want) = true
  else foreignConflict L x = false.

Lemma revokeObsolete_spec todo wanted w : state_ok (mem w) →
  (∀ x, x ∈ rows w → fits (Ledger w) wanted x ∨ x ∈ todo) →
  wp (revokeObsolete (Ledger w) todo wanted) (λ r w', shrinks w w' ∧ (r = Ok tt → ∀ x, x ∈ rows w' → fits (Ledger w) wanted x)) w.
Proof.
  intros Hs. remember (Ledger w) as L eqn:EL. revert w Hs EL. induction todo as [|row todo IH]; intros w Hs EL Hfit; cbn [revokeObsolete].
  { apply wp_ret. split; [done|]. intros _ x Hx. destruct (Hfit x Hx) as [|?%elem_of_nil]; done. }
  assert (fits L wanted row → wp (revokeObsolete L todo wanted)
    (λ r w', shrinks w w' ∧ (r = Ok tt → ∀ x, x ∈ rows w' → fits L wanted x)) w) as Hgood.
  { intros Hr. apply IH; [done|done|]. intros x Hx. destruct (Hfit x Hx) as [|[->|]%elem_of_cons]; auto. }
  assert (owns L row = true → wp (rt_revoke (en_Path row) (en_Client row) ;; revokeObsolete L todo wanted)
    (λ r w', shrinks w w' ∧ (r = Ok tt → ∀ x, x ∈ rows w' → fits L wanted x)) w) as Hbad.
  { intros Ho. rewrite EL in Ho. wcall (revoke_spec row w (owns_in_tree _ _ Hs Ho)); [intros [] w1 [S1 R1]|by intros x w1 [S1 _]].
    specialize (R1 eq_refl). wend IH; [by rewrite (sh_mgr _ _ S1)|by rewrite (sh_mgr _ _ S1)| |].
    - intros x Hx. destruct (Hfit x (sh_rows _ _ S1 x Hx)) as [|[->|]%elem_of_cons]; [by left| |by right]. by destruct (R1 row Hx).
    - intros r w2 [S2 R2]. split; [by etrans|done]. }
  unfold fits in Hgood at 1. destruct (owns L row) eqn:Eo; cbn [negb].
  - destruct (wanted !! (en_Path row, en_Client row)) as [want|] eqn:Ew; [|by apply Hbad].
    destruct (optionsMatch _ _) eqn:Em; [|by apply Hbad]. apply Hgood. by exists want.
  - destruct (foreignConflict L row) eqn:Ef; [by apply wp_throw|]. by apply Hgood.
Qed.

Lemma revokeRows_spec todo w : state_ok (mem w) → (∀ x, x ∈ rows w → owns (Ledger w) x = true → x ∈ todo) →
  wp (revokeRows (Ledger w) todo) (λ r w', shrinks w w' ∧ (r = Ok None → ∀ x, x ∈ rows w' → owns (Ledger w) x = false)) w.
Proof.
  intros Hs. remember (Ledger w) as L eqn:EL.
  assert (∀ w, state_ok (mem w) → L = Ledger w → wp (revokeRows L todo) (λ r w', shrinks w w' ∧ (∃ o, r = Ok o) ∧
    (r = Ok None → ∀ x, x ∈ rows w' → owns L x = true → x ∉ todo)) w) as Hr.
  2:{ intros Htodo. wend Hr; [done|done|]. intros r w' (S&_&R). split; [done|]. intros Hn x Hx. destruct (owns L x) eqn:Eo; [|done].
      destruct (R Hn x Hx Eo). apply Htodo; [by apply (sh_rows _ _ S)|done]. }
  clear w Hs EL. induction todo as [|row todo IH]; intros w Hs EL; cbn [revokeRows].
  { apply wp_ret. split_and!; [done|by eexists|]. set_solver. }
  match goal with |- wp (?m ≫= _) _ _ => assert (wp m (λ r w', shrinks w w' ∧ ∃ v, r = Ok v ∧
    (v = Ok tt → ∀ y, y ∈ rows w' → owns L y = true → y ≠ row)) w) as Hm end.
  { destruct (owns L row) eqn:Eo.
    - apply wp_try. rewrite EL in Eo. wend (revoke_spec row w (owns_in_tree _ _ Hs Eo)). intros r w1 [S1 R1]. split; [done|].
      exists r. split; [done|]. intros Hr y Hy _ ->. by destruct (R1 Hr row Hy).
    - apply wp_ret. split; [done|]. eexists. split; [done|]. intros _ y _ Hy ->. congruence. }
  wcall Hm; [intros v w1 (S1&v'&[= <-]&R1)|by intros x w1 (_&?&?&_)].
  wcall IH; [by rewrite (sh_mgr _ _ S1)|by rewrite (sh_mgr _ _ S1)|intros o w2 (S2&_&R2)|by intros x w2 (_&[? ?]&_)].
  apply wp_ret. split_and!; [by etrans|by eexists|]. intros Hn x Hx Ho.
  assert (v = Ok tt ∧ o = None) as [-> ->]. { destruct v as [[]|]; cbn in Hn; [|done]. by injection Hn as ->. }
  specialize (R1 eq_refl x (sh_rows _ _ S2 x Hx) Ho). specialize (R2 eq_refl x Hx Ho). set_solver.
Qed.

Lemma revokeOwned_spec w : state_ok (mem w) →
  wp revokeOwned (λ r w', shrinks w w' ∧ (r = Ok tt → ∀ x, x ∈ rows w' → owns (Ledger w) x = false)) w.
Proof.
  intros Hs. unfold revokeOwned. apply wp_bind. apply wp_of_run. intros r w1 Hl.
  assert (shrinks w w1) as S1. { eapply (wp_run _ _ _ _ _ (quiet_shrinks _ w law_list)). exact Hl. }
  destruct r as [l|x]; [|by split]. assert (l = rows w1) as ->.
  { destruct (law_list w) as [_ ER]. rewrite Hl in ER. cbn in ER. rewrite ER. apply law_list_rows. by rewrite Hl. }
  apply wp_bind, wp_reads. wcall (revokeRows_spec (rows w1) w1); [by rewrite (sh_mgr _ _ S1)|done|intros o w2 [S2 R2]|].
  - rewrite (sh_mgr _ _ S1) in R2. destruct o; [apply wp_throw|apply wp_ret]; (split; [by etrans|]); [done|auto].
  - intros x w2 [S2 _]. split; [by etrans|done].
Qed.

(** ** Granting *)

(** The state directory certainly holds what is in memory. *)
Definition durable w : Prop := versions (dir w) = [Some (OwnerState (mem w))].

(** Only the table changed, and what it gained is owned. *)
Definition granted w w' : Prop := mgr_of w' = mgr_of w ∧ Wal w' ∧ keeps w w'.

Lemma grant_spec e c w : Wal w → durable w → e ∈ Ledger w → c ∈ clients e → wp (rt_grant e c) (λ _ w', granted w w') w.
Proof.
  intros [[Hv Hl] Hs Hc] Hdur He Hcl. destruct (law_grant e c w) as (Em&Hnew&Hold). unfold wp.
  assert (covered F (Ledger w) (rows (rt_grant e c w).2)) as Hcov.
  { intros x [Hx|[[= Hp Hk] Hf]]%Hnew; [by apply Hc|right]. split; [|by rewrite (proj1 Hf : row_fsid x = _)].
    apply owns_true. exists e. split_and!; [done|done|by rewrite Hk|apply Hf]. }
  split; [done|]. split.
  - split; rewrite ?Em; [|done|done]. split; [|done]. rewrite Hdur. intros v ->%list_elem_of_singleton. by split.
  - intros x Hx Hn. apply Hold; [done|]. intros [= Hp _]. apply Hn. rewrite Hp. by apply (so_ledger _ _ Hs).
Qed.
Lemma granted_refl w : Wal w → granted w w.
Proof. intros Hw. by split. Qed.
Lemma granted_trans w1 w2 w3 : granted w1 w2 → granted w2 w3 → granted w1 w3.
Proof. intros (A1&A2&A3) (B1&B2&B3). split_and!; [congruence|done|by etrans]. Qed.

Lemma grantClients_spec id e cs existing wanted w : Wal w → durable w → wanted_ok w wanted → Desired w !! id = Some e →
  (∀ c, c ∈ cs → c ∈ clients e) → wp (grantClients e cs existing wanted) (λ _ w', granted w w') w.
Proof.
  revert w. induction cs as [|c cs IH]; intros w Hw Hd Ho HD Hcs; cbn [grantClients]; [by apply wp_ret, granted_refl|].
  assert (wp (grantClients e cs existing wanted) (λ _ w', granted w w') w) as Hrest by (apply IH; set_solver).
  destruct (wanted !! (ex_Path e, c)) as [want|] eqn:Ew; [|done]. case_match; [done|].
  destruct (wo_from _ _ Ho _ _ _ Ew) as (i&e'&Hi&_&HL&Hp&_). assert (i = id) as -> by (symmetry; by eapply (so_path _ _ (wal_state _ _ _ Hw))).
  assert (e' = e) as -> by congruence.
  wcall grant_spec; [done|done|done|set_solver|intros [] w1 G1|by intros x w1 G1]. pose proof G1 as (E1&W1&_).
  wend IH; [done|by unfold durable; rewrite E1| |by rewrite E1|set_solver|intros r w2 G2; by eapply granted_trans].
  destruct Ho as [H1 H2]. split; unfold available in *; rewrite E1; done.
Qed.
Lemma grantExports_spec l existing wanted w : Wal w → durable w → wanted_ok w wanted →
  (∀ id e, (id, e) ∈ l → Desired w !! id = Some e) → wp (grantExports l existing wanted) (λ _ w', granted w w') w.
Proof.
  revert w. induction l as [|[id e] l IH]; intros w Hw Hd Ho Hl; cbn [grantExports]; [by apply wp_ret, granted_refl|].
  wcall (grantClients_spec id); [done|done|done|apply Hl; left|done|intros [] w1 G1|by intros x w1 G1]. pose proof G1 as (E1&W1&_).
  wend IH; [done|by unfold durable; rewrite E1| | |intros r w2 G2; by eapply granted_trans].
  - destruct Ho as [H1 H2]. split; unfold available in *; rewrite E1; done.
  - intros i x Hin. rewrite E1. apply Hl. by right.
Qed.

(** ** Verifying *)

Lemma verifyRows_spec L R wanted left : verifyRows L R wanted = Ok left →
  (∀ x, x ∈ R → fits L wanted x) ∧
  (∀ k want, wanted !! k = Some want → left !! k = Some want ∨
    ∃ x, x ∈ R ∧ row_key x = k ∧ optionsMatch (en_Options x) (en_Options want) = true).
Proof.
  revert wanted. induction R as [|row R IH]; intros wanted; cbn [verifyRows]; [intros [= <-]; set_solver|].
  unfold fits. destruct (owns L row) eqn:Eo; cbn [negb].
  - destruct (wanted !! (en_Path row, en_Client row)) as [want|] eqn:Ew; [|done]. destruct (optionsMatch _ _) eqn:Em; [|done].
    intros [H1 H2]%IH. split.
    + intros x [->|Hx]%elem_of_cons; [rewrite Eo; by exists want|]. specialize (H1 x Hx). unfold fits in H1.
      destruct (owns L x); [|done]. destruct H1 as (want'&[_ Hw']%lookup_delete_Some&Hm). by exists want'.
    + intros k want' Hk. destruct (decide (k = row_key row)) as [->|Hne].
      * right. exists row. split_and!; [left|done|]. unfold row_key in Hk. congruence.
      * destruct (H2 k want') as [Hl|(x&?&?)]; [by rewrite lookup_delete_ne|by left|right; exists x; set_solver].
  - destruct (foreignConflict L row) eqn:Ef; [done|]. intros [H1 H2]%IH. split.
    + intros x [->|Hx]%elem_of_cons; [by rewrite Eo|by apply H1].
    + intros k want Hk. destruct (H2 k want Hk) as [|(x&?&?)]; [by left|right; exists x; set_solver].
Qed.

Definition present w (wanted : admissions) : Prop := ∀ k want, wanted !! k = Some want →
  ∃ x, x ∈ rows w ∧ row_key x = k ∧ optionsMatch (en_Options x) (en_Options want) = true.

(** Reading the table. *)
Lemma list_spec w : wp rt_list (λ r w', shrinks w w' ∧ rows w' = rows w ∧ ∀ l, r = Ok l → l = rows w) w.
Proof.
  apply wp_of_run. intros r w' Hl. pose proof (law_list w) as [E1 E2]. pose proof (law_list_rows w) as E3.
  rewrite Hl in *. cbn in *. split_and!; [|done|done]. split; [done|by rewrite E2|]. intros x Hx _. by rewrite E2.
Qed.

Lemma verifyAdmissions_spec wanted w : wp (verifyAdmissions wanted) (λ r w', shrinks w w' ∧
  (r = Ok tt → (∀ x, x ∈ rows w' → fits (Ledger w) wanted x) ∧ present w' wanted)) w.
Proof.
  unfold verifyAdmissions. wcall list_spec; [intros l w1 (S1&R1&Hl)|by intros x w1 [S1 _]].
  rewrite (Hl l eq_refl) in *. apply wp_bind, wp_reads. rewrite (sh_mgr _ _ S1). apply wp_bind, wp_lift.
  destruct (verifyRows (Ledger w) (rows w) wanted) as [left|x] eqn:Ev; [|by split]. apply verifyRows_spec in Ev as [H1 H2].
  case_decide as Hd; [apply wp_ret|by apply wp_throw]. split; [done|]. intros _. rewrite R1. split; [done|].
  intros k want Hk. rewrite R1. destruct (H2 k want Hk) as [Hk'|]; [|done]. by rewrite Hd, lookup_empty in Hk'.
Qed.

(** ** The ledger after a pass *)

Lemma elem_of_ledgerOf er l e : e ∈ ledgerOf er l ↔
  ∃ id, (id, e) ∈ l ∧ ex_Active e = true ∧ (id = rootVolumeID ∨ er !! id = None).
Proof.
  induction l as [|[id x] l IH]; cbn [ledgerOf]; [split; [by intros ?%elem_of_nil|by intros (?&?%elem_of_nil&_)]|].
  assert (negb (ex_Active x) || negb (bool_decide (id = rootVolumeID)) && bool_decide (er !! id ≠ None) = false ↔
    ex_Active x = true ∧ (id = rootVolumeID ∨ er !! id = None)) as Hb.
  { rewrite orb_false_iff, negb_false_iff, andb_false_iff, negb_false_iff, bool_decide_eq_true, bool_decide_eq_false.
    destruct (er !! id); naive_solver. }
  destruct (_ || _) eqn:E; [|rewrite elem_of_cons]; rewrite IH; setoid_rewrite elem_of_cons; split.
  - intros (i&?&?). exists i. auto.
  - intros (i&[[= -> ->]|?]&Ha&Hi); [|by exists i]. discriminate (proj2 Hb (conj Ha Hi)).
  - intros [->|(i&?&?)]; [|exists i; auto]. exists id. destruct (proj1 Hb eq_refl) as [??]. auto.
  - intros (i&[[= -> ->]|?]&?); [by left|right; by exists i].
Qed.

(** What passes for wanted is owned by the export that wants it. *)
Lemma wanted_admits w wanted x want : wanted_ok w wanted → wanted !! row_key x = Some want →
  optionsMatch (en_Options x) (en_Options want) = true →
  ∃ id e, Desired w !! id = Some e ∧ available w id ∧ ex_Path e = en_Path x ∧ en_Client x ∈ clients e ∧
    optionsMatch (en_Options x) (options e) = true.
Proof.
  intros Ho Hk Hm. destruct (wo_from _ _ Ho _ _ _ Hk) as (id&e&HD&Ha&_&Hp&Hc&->). by exists id, e.
Qed.

Lemma rebuildLedger_spec wanted w : Wal w → wanted_ok w wanted → (∀ x, x ∈ rows w → fits (Ledger w) wanted x) →
  wp rebuildLedger (λ r w', r = Ok tt ∧ Wal w' ∧ rows w' = rows w ∧ Desired w' = Desired w ∧ errs w' = errs w ∧
    ∃ s, mgr_of w' = set_state (mgr_of w) s) w.
Proof.
  intros [Hd Hs Hc] Ho Hf. wend on_mgr_spec. intros r w' (->&R&E).
  assert (mem w' = set_Ledger (mem w) (ledgerOf (errs w) (map_order (Desired w)))) as Hm by by rewrite E.
  assert (mgr_of w' = set_state (mgr_of w) (mem w')) as E' by by rewrite E. split_and!; [done| |done|by rewrite Hm|by rewrite E'|by eexists].
  split; rewrite ?R; [by rewrite E'|rewrite Hm|rewrite Hm; cbn].
  - destruct Hs as [S1 S2 S3 S4 S5]. split; cbn; try done. intros e (id&Hin%elem_of_order&_)%elem_of_ledgerOf. by eapply S4.
  - intros x Hx. destruct (Hc x Hx) as [|[Hown Hof]]; [by left|right; split; [|done]]. specialize (Hf x Hx). unfold fits in Hf.
    rewrite Hown in Hf. destruct Hf as (want&Hk&Hopt). destruct (wanted_admits _ _ _ _ Ho Hk Hopt) as (id&e&HD&Ha&Hp&Hcl&Hoe).
    apply owns_true. exists e. split_and!; [|done|done|by eapply optionsMatch_fsid]. apply elem_of_ledgerOf. exists id.
    split_and!; [by apply elem_of_order| |done]. unfold clients in Hcl. destruct (ex_Active e); [done|]. by apply elem_of_nil in Hcl.
Qed.

(** ** One pass *)

(** What every operation on the policy leaves alone. *)
Record passes w w' : Prop := {
  pa_keeps : keeps w w';
  pa_flags : mg_lock (mgr_of w') = mg_lock (mgr_of w) ∧ mg_started (mgr_of w') = mg_started (mgr_of w) ∧
             mg_closed (mgr_of w') = mg_closed (mgr_of w);
  pa_desired id : id ≠ rootVolumeID → Desired w' !! id = Desired w !! id;
  pa_failure : mg_failure (mgr_of w) ≠ None → mg_failure (mgr_of w') ≠ None;
}.
#[global] Instance passes_preorder : PreOrder passes.
Proof.
  split; [done|]. intros w1 w2 w3 [A1 (A2&A3&A4) A5 A6] [B1 (B2&B3&B4) B5 B6].
  split; [by etrans|split_and!; congruence| |auto]. intros id Hid. by rewrite B5, A5.
Qed.
Lemma grows_passes w w' : grows w w' → passes w w'.
Proof.
  intros [G1 G2 (G3&G4&G5&G6) G7 G8]. split; [intros x Hx _; by rewrite G1|done|done|by rewrite G6].
Qed.
Lemma stored_passes w w' : stored w w' → passes w w'.
Proof. intros [R (s&f&E)]. split; rewrite ?E; try done. intros x Hx _. by rewrite R. Qed.
Lemma shrinks_passes w w' : shrinks w w' → passes w w'.
Proof. intros [E _ K]. split; rewrite ?E; done. Qed.
Lemma granted_passes w w' : granted w w' → passes w w'.
Proof. intros (E&_&K). split; rewrite ?E; done. Qed.

(** Row [x] is admitted by the policy of an available export. *)
Definition admitted w x : Prop := ∃ id e, Desired w !! id = Some e ∧ available w id ∧ ex_Path e = en_Path x ∧
  en_Client x ∈ clients e ∧ optionsMatch (en_Options x) (options e) = true.

(** The table holds what the policy admits, and nothing else of ours. *)
Record exact w : Prop := {
  ex_only x : x ∈ rows w → F x ∨ admitted w x;
  ex_all id e c : Desired w !! id = Some e → available w id → c ∈ clients e →
    ∃ x, x ∈ rows w ∧ row_key x = (ex_Path e, c) ∧ optionsMatch (en_Options x) (options e) = true;
}.

Lemma exact_of w wanted : covered F (Ledger w) (rows w) → wanted_ok w wanted → (∀ x, x ∈ rows w → fits (Ledger w) wanted x) →
  present w wanted → exact w.
Proof.
  intros Hc Ho Hf Hp. split.
  - intros x Hx. destruct (Hc x Hx) as [|[Hown _]]; [by left|right]. specialize (Hf x Hx). unfold fits in Hf. rewrite Hown in Hf.
    destruct Hf as (want&Hk&Hm). by eapply wanted_admits.
  - intros id e c HD Ha Hcl. destruct (Hp _ _ (wo_all _ _ Ho id e c HD Ha Hcl)) as (x&Hx&Hk&Hm). by exists x.
Qed.
Lemma exact_eq w w' : rows w' = rows w → Desired w' = Desired w → errs w' = errs w → exact w → exact w'.
Proof. intros R D E [H1 H2]. split; unfold admitted, available in *; rewrite ?R, ?D, ?E; done. Qed.

Lemma healthLocked_quiet : quiet rows healthLocked.
Proof.
  intros w. unfold healthLocked, mbind, M_bind, get_mgr, reads, id. destruct (mg_failure _); [done|].
  destruct (_ || _); [done|]. apply law_health.
Qed.

Abbreviation converged w := (λ r w', Wal w' ∧ passes w w' ∧
  (r = Ok tt → exact w' ∧ durable w' ∧ mg_failure (mgr_of w') = mg_failure (mgr_of w))).

(** The end of a pass: the ledger shrinks to what is in the table. *)
Lemma converge_finish wanted w : Wal w → wanted_ok w wanted → (∀ x, x ∈ rows w → fits (Ledger w) wanted x) → present w wanted →
  wp (rebuildLedger ;; r ← try persist;
      match r with Ok _ => mret tt | Err e => on_mgr (λ m, set_failure m (Some e)) ;; throw e end) (converged w) w.
Proof.
  intros Hw Ho Hf Hp. pose proof (exact_of _ _ (wal_rows _ _ _ Hw) Ho Hf Hp) as Hx.
  wcall rebuildLedger_spec; [done|done|done|intros [] w1 (_&W1&R1&D1&Er1&s1&E1)|by intros x w1 [? _]].
  assert (passes w w1) as P1. { split; rewrite ?E1; try done; [intros x Hx' _; by rewrite R1|intros id _; rewrite <- E1; by rewrite D1]. }
  pose proof (exact_eq _ _ R1 D1 Er1 Hx) as X1.
  apply wp_bind, wp_try. wend (persist_spec config F w1 W1). intros r w2 (W2&T2&_&V2).
  assert (passes w w2) as P2 by (etrans; [exact P1|by apply stored_passes]). pose proof T2 as [R2 (s&f&E2)].
  destruct r as [[]|x].
  - apply wp_ret. split_and!; [done|done|]. intros _. split_and!.
    + eapply exact_eq; [exact R2|by rewrite E2|by rewrite E2|done].
    + unfold durable. rewrite (V2 eq_refl), E2. done.
    + by rewrite E2, E1.
  - wcall on_mgr_spec; [intros [] w3 (_&R3&E3)|by intros ? w3 [? _]]. apply wp_throw. split_and!; [|etrans; [exact P2|]|done].
    + destruct W2. split; rewrite ?E3, ?R3; done.
    + split; rewrite ?E3; try done. intros y Hy _. by rewrite R3.
Qed.

(** The pass over the table, once what it may grant is durable. *)
Lemma converge_rest wanted w : Wal w → durable w → wanted_ok w wanted →
  wp (L ← ledger; revokeObsolete L (rows w) wanted ;; grantDesired (rows w) wanted ;; verifyAdmissions wanted ;;
      healthLocked ;; rebuildLedger ;; r ← try persist;
      match r with Ok _ => mret tt | Err e => on_mgr (λ m, set_failure m (Some e)) ;; throw e end) (converged w) w.
Proof.
  intros W3 D3 O3. apply wp_bind, wp_reads.
  wcall (revokeObsolete_spec (rows w) wanted w (wal_state _ _ _ W3)); [by right|intros [] w4 [S4 _]|intros x w4 [S4 _]];
    pose proof (shrinks_Wal _ _ W3 S4) as W4; pose proof (shrinks_passes _ _ S4) as P4; [|done].
  assert (durable w4) as D4 by (unfold durable; by rewrite (sh_mgr _ _ S4)).
  assert (∀ w', mgr_of w' = mgr_of w → wanted_ok w' wanted) as Hok.
  { intros w' E. destruct O3. split; unfold available in *; rewrite E; done. }
  unfold grantDesired. apply wp_bind. apply wp_bind, wp_reads. apply wp_bind, wp_reads.
  wend grantExports_spec; [done|done|apply Hok, S4|by intros id e ?%elem_of_order|]. intros rg w5 G5. pose proof G5 as (E5&W5&_).
  assert (passes w w5) as P5 by (etrans; [exact P4|by apply granted_passes]). destruct rg as [[]|x]; [|done].
  wcall verifyAdmissions_spec; [intros [] w6 [S6 V6]|intros x w6 [S6 _]];
    pose proof (shrinks_Wal _ _ W5 S6) as W6; assert (passes w w6) as P6 by (etrans; [exact P5|by apply shrinks_passes]); [|done].
  destruct (V6 eq_refl) as [V6a V6b]. clear V6. assert (mgr_of w6 = mgr_of w) as E6 by (rewrite (sh_mgr _ _ S6), E5, (sh_mgr _ _ S4); done).
  wcall (quiet_spec _ w6 healthLocked_quiet); [intros [] w7 [G7 E7]|intros x w7 [G7 E7]];
    assert (passes w w7) as P7 by (etrans; [exact P6|by apply grows_passes]);
    assert (Wal w7) as W7 by (eapply grows_Wal; [exact W6|done|rewrite E7; by apply W6]); [|done].
  wend (converge_finish wanted); [done|apply Hok; congruence| | |].
  - intros x. rewrite (gr_rows _ _ G7), E7, (sh_mgr _ _ S6). apply V6a.
  - intros k want. rewrite (gr_rows _ _ G7). apply V6b.
  - intros r w8 (W8&P8&X8). split_and!; [done|by etrans|]. intros Hr. destruct (X8 Hr) as (?&?&Hfl). split_and!; [done..|].
    by rewrite Hfl, E7, E6.
Qed.

Lemma converge_spec w : Wal w → wp (converge config) (converged w) w.
Proof.
  intros Hw. unfold converge. wcall list_spec; [intros l w1 (S1&R1&Hl)|intros x w1 (S1&_)].
  2:{ split_and!; [by eapply shrinks_Wal|by apply shrinks_passes|done]. }
  rewrite (Hl l eq_refl), <- R1. clear l Hl. pose proof (shrinks_Wal _ _ Hw S1) as W1. pose proof (shrinks_passes _ _ S1) as P1.
  wcall (desiredEntries_spec w1 (wal_state _ _ _ W1)); [intros wanted w2 (G2&S2&O2)|intros x w2 (G2&S2&_)];
    pose proof (grows_Wal _ _ W1 G2 S2) as W2; assert (passes w w2) as P2 by (etrans; [exact P1|by apply grows_passes]); [|done].
  specialize (O2 wanted eq_refl). rewrite <- (gr_rows _ _ G2).
  wcall (persist_spec config F w2 W2); [intros [] w3 (W3&T3&_&V3)|intros x w3 (W3&T3&_)];
    assert (passes w w3) as P3 by (etrans; [exact P2|by apply stored_passes]); [|done].
  pose proof T3 as [R3 (s3&f3&E3)]. rewrite <- R3.
  wend converge_rest; [done|unfold durable; rewrite (V3 eq_refl), E3; done|destruct O2; split; unfold available in *; rewrite E3; done|].
  intros r w4 (W4&P4&X4). split_and!; [done|by etrans|]. intros Hr. destruct (X4 Hr) as (?&?&Hfl). split_and!; [done..|].
  rewrite Hfl, E3. cbn. destruct (gr_flags _ _ G2) as (_&_&_&->). by rewrite (sh_mgr _ _ S1).
Qed.

(** ** Failing closed *)

Lemma failClosed_spec err w : Wal w →
  wp (failClosed err) (λ r w', r = Err err ∧ Wal w' ∧ passes w w' ∧ mg_failure (mgr_of w') ≠ None ∧ ∀ x, x ∈ rows w' → x ∈ rows w) w.
Proof.
  intros Hw. unfold failClosed. apply wp_bind, wp_try. wend (revokeOwned_spec w (wal_state _ _ _ Hw)). intros r1 w1 [S1 _].
  apply wp_bind, wp_try. wend (quiet_shrinks _ w1 law_close). intros r2 w2 S2.
  assert (shrinks w w2) as S by by etrans. wcall on_mgr_spec; [intros [] w3 (_&R3&E3)|by intros ? w3 [? _]]. apply wp_throw.
  pose proof (shrinks_Wal _ _ Hw S) as W2. split_and!; [done| |etrans; [by apply shrinks_passes|]|by rewrite E3|rewrite R3; apply S].
  - destruct W2. split; rewrite ?E3, ?R3; done.
  - split; rewrite ?E3; try done. intros x Hx _. by rewrite R3.
Qed.

Lemma apply_spec w : Wal w → wp (apply_ config) (λ r w', Wal w' ∧ passes w w' ∧
  match r with
  | Ok _ => exact w' ∧ durable w' ∧ mg_failure (mgr_of w') = mg_failure (mgr_of w)
  | Err _ => mg_failure (mgr_of w') ≠ None
  end) w.
Proof.
  intros Hw. unfold apply_. apply wp_bind, wp_try. wend (converge_spec w Hw). intros r w1 (W1&P1&X1). destruct r as [[]|x].
  - apply wp_ret. auto.
  - wend (failClosed_spec x w1 W1). intros r w2 (->&W2&P2&F2&_). split_and!; [done|by etrans|done].
Qed.
End Converge.
