(* ===== verification/NfsStart.v ===== *)
(** * Starting the NFS manager

    What a manager makes of the ownership record it finds: every version of
    owner.json a crash may leave is one it can resume from without forgetting
    a row it may have granted.  [loadState], [preflightActivation], the
    runtime's start with its saves, and [Start] keep the invariant [Inv] of a
    manager in any phase of its life. *)
From stdpp Require Import base numbers list strings gmap.
From S2P Require Import Prelude GoStd GoNet GoNetip NfsManager NfsLaws NfsConverge.
Open Scope Z_scope.

(** ** Validating a persisted state *)

Section Validate.
Context (config : Config).
Implicit Types (e : Export).

Lemma ExportPath_root : is_ok (ExportPath config (cf_ExportRoot config)) = false.
Proof.
  unfold ExportPath. destruct (IsAbs (cf_ExportRoot config)) eqn:Ea.
  - by rewrite Rel_refl.
  - unfold Rel. by rewrite Ea.
Qed.

Record persisted e e' : Prop := {
  pe_normalizes : normalizes e e';
  pe_ok : export_ok config e';
  pe_root : ex_Path e' = cf_ExportRoot config ↔ ex_VolumeID e' = rootVolumeID;
}.
Lemma validatePersisted_ok e e' : validatePersisted config e = Ok e' → persisted e e'.
Proof.
  intros (v&Hv&H)%result_bind_Ok. destruct (negb _); [done|]. apply result_bind_Ok in H as ([]&Ho&[= <-]).
  apply normalized_ok in Hv as Hn. unfold validateOwned in Ho.
  assert (in_tree config (ex_Path v) ∧ (ex_Path v = cf_ExportRoot config ↔ ex_VolumeID v = rootVolumeID)) as [Ht Hr].
  { destruct (decide (ex_VolumeID v = rootVolumeID)) as [Hid|Hid].
    - destruct (bool_decide (ex_Path v = _)) eqn:E; [|done]. apply bool_decide_eq_true in E. split; [by left|done].
    - apply result_bind_Ok in Ho as (p&Hp&_). assert (is_ok (ExportPath config (ex_Path v)) = true) as Hi by by rewrite Hp.
      split; [by right|]. split; [|done]. intros E. by rewrite E, ExportPath_root in Hi. }
  split; [done|split; [apply Hn|done]|done].
Qed.

Lemma validateDesired_ok l D r D' : NoDup l.*1 → validateDesired config l D = (r, D') →
  (∀ id e, (id, e) ∈ l → D !! id = Some e) →
  (∀ id, is_Some (D' !! id) ↔ is_Some (D !! id)) ∧
  (r = Ok tt → ∀ id, D' !! id = D !! id ∧ id ∉ l.*1 ∨
        ∃ e e', D !! id = Some e ∧ D' !! id = Some e' ∧ persisted e e' ∧ ex_VolumeID e = id).
Proof.
  revert D. induction l as [|[i x] l IH]; intros D Hnd H Hl.
  { injection H as <- <-. split; [done|]. intros _ id. left. split; [done|apply not_elem_of_nil]. }
  cbn [validateDesired] in H. cbn in Hnd. apply NoDup_cons in Hnd as [Hi Hnd].
  destruct (validatePersisted config x) as [v|] eqn:Hv; [|by injection H as <- <-].
  destruct (bool_decide (i = ex_VolumeID x)) eqn:Eid; [cbn in H|by injection H as <- <-]. apply bool_decide_eq_true in Eid.
  assert (D !! i = Some x) as Hx by (apply Hl; left).
  assert (∀ j y, (j, y) ∈ l → <[i := v]> D !! j = Some y) as Hl'.
  { intros j y Hj. rewrite lookup_insert_ne; [apply Hl; by right|]. intros ->. apply Hi, list_elem_of_fmap. by exists (j, y). }
  apply validatePersisted_ok in Hv. destruct (IH _ Hnd H Hl') as [Hdom IH']. split.
  { intros id. rewrite Hdom, lookup_insert_is_Some'. naive_solver. }
  intros Hr id. destruct (IH' Hr id) as [[E Hn]|(e&e'&E1&E2&Hp&Hid)].
  - destruct (decide (id = i)) as [->|Hne].
    + right. exists x, v. rewrite E, lookup_insert_eq. split_and!; done.
    + left. rewrite E, lookup_insert_ne by done. split; [done|]. cbn. rewrite elem_of_cons. naive_solver.
  - destruct (decide (id = i)) as [->|Hne].
    + rewrite lookup_insert_eq in E1. injection E1 as <-. right. exists x, e'. split_and!; [done|done| |done].
      destruct Hv as [N1 _ _], Hp as [N2 ? ?]. split; [|done|done]. destruct N1, N2. split; try congruence.
      * destruct nz_hints, nz_hints0. split; congruence.
      * intros Ha Hc c. rewrite nz_clients0; [by apply nz_clients|congruence|done].
    + rewrite lookup_insert_ne in E1 by done. right. by exists e, e'.
Qed.

Lemma validateLedger_ok l l' : validateLedger config l = (Ok tt, l') →
  (∀ e', e' ∈ l' → export_ok config e') ∧ (∀ e, e ∈ l → ∃ e', e' ∈ l' ∧ normalizes e e').
Proof.
  revert l'. induction l as [|x l IH]; intros l'; cbn [validateLedger].
  - intros [= <-]. split; intros ? H; by apply elem_of_nil in H.
  - destruct (validatePersisted config x) as [v|] eqn:Hv; [|done]. destruct (validateLedger config l) as [r rest].
    intros [= -> <-]. destruct (IH rest eq_refl) as [H1 H2]. apply validatePersisted_ok in Hv as [Hn Hok _]. split.
    + intros e' [->|H]%elem_of_cons; auto.
    + intros e [->|H]%elem_of_cons; [exists v; split; [left|done]|]. destruct (H2 e H) as (e'&?&?). exists e'. split; [by right|done].
Qed.

(** A validated ledger owns what the stored one did. *)
Lemma validateLedger_owns l l' x : validateLedger config l = (Ok tt, l') → (∀ e, e ∈ l → export_ok config e) →
  owns l x = true → owns l' x = true.
Proof.
  intros [_ H2]%validateLedger_ok Hok (e&He&Hp&Hc&Hf)%owns_true. destruct (H2 e He) as (e'&He'&Hn).
  apply owns_true. exists e'. split_and!; [done| | |].
  - by rewrite (nz_path _ _ Hn).
  - apply (normalizes_clients _ _ Hn); [by apply Hok|done].
  - by rewrite (normalizes_fsid _ _ Hn).
Qed.
End Validate.

Section Starting.
Context {W : Type} `{HHost : Host W, HRuntime : Runtime W, HLaws : !NfsLaws W} (config : Config) (F : entry → Prop).
Implicit Types (w : W) (e : Export) (d : diskState).

Abbreviation mem w := (mg_state (mgr_of w)).
Abbreviation Desired w := (ds_Desired (mem w)).
Abbreviation Ledger w := (ds_Ledger (mem w)).
Abbreviation dir w := (mg_dir (mgr_of w)).
Abbreviation started w := (mg_started (mgr_of w)).
Abbreviation failure w := (mg_failure (mgr_of w)).
Abbreviation errs w := (mg_exportErrors (mgr_of w)).
Abbreviation state_ok := (state_ok config).
Abbreviation Wal := (Wal config F).
Abbreviation dir_ok := (dir_ok config F).

(** ** The invariant of a manager *)

(** A manager that has not started holds no policy that owner.json lacks, the
    pseudoroot's apart. *)
Definition idle w : Prop := ∀ id, id ≠ rootVolumeID → is_Some (Desired w !! id) →
  ∃ d, sd_live (dir w) = Some (OwnerState d) ∧ is_Some (ds_Desired d !! id).

Record Inv w : Prop := {
  iv_dir : dir_ok (rows w) (dir w);
  iv_on : started w = true → Wal w;
  iv_off : started w = false → idle w;
}.

(** What any operation leaves alone: rows outside the export tree, a recorded
    failure, and, once a failure is recorded, no row is added. *)
Record effect w w' : Prop := {
  ef_keeps : keeps config w w';
  ef_started : started w = true → started w' = true;
  ef_failure : failure w ≠ None → failure w' ≠ None;
  ef_secure : failure w ≠ None → ∀ x, x ∈ rows w' → x ∈ rows w;
}.
#[global] Instance effect_preorder : PreOrder effect.
Proof.
  split; [intros w; by split|]. intros w1 w2 w3 [K1 S1 F1 R1] [K2 S2 F2 R2]. split; [by etrans|by auto..].
Qed.
Lemma passes_effect w w' : passes config w w' → (failure w ≠ None → ∀ x, x ∈ rows w' → x ∈ rows w) → effect w w'.
Proof. intros [Hk (_&Hs&_) _ Hf] Hr. split; [done|by rewrite Hs|done|done]. Qed.
Lemma same_rows_effect w w' : passes config w w' → rows w' = rows w → effect w w'.
Proof. intros Hp E. apply passes_effect; [done|]. by rewrite E. Qed.
Lemma shrinks_effect w w' : shrinks config w w' → effect w w'.
Proof. intros Hs. apply passes_effect; [by apply shrinks_passes|]. intros _. apply Hs. Qed.
Lemma grows_effect w w' : grows w w' → effect w w'.
Proof. intros G. apply same_rows_effect; [by apply grows_passes|apply G]. Qed.
Lemma stored_effect w w' : stored w w' → effect w w'.
Proof. intros S. apply same_rows_effect; [by apply stored_passes|apply S]. Qed.

(** ** Loading *)

(** The validated map has the keys it had. *)
Lemma validateDesired_all D D' id : validateDesired config (map_order D) D = (Ok tt, D') →
  match D' !! id with
  | Some e' => ∃ e, D !! id = Some e ∧ persisted config e e' ∧ ex_VolumeID e = id
  | None => D !! id = None
  end.
Proof.
  intros H. destruct (validateDesired_ok config _ _ _ _ (order_NoDup _) H) as [_ Ha]; [intros i e; apply elem_of_order|].
  destruct (Ha eq_refl id) as [[E Hn]|(e&e'&E1&E2&Hp&Hid)].
  - rewrite E. destruct (D !! id) as [e|] eqn:Ee; [|done]. exfalso. apply Hn, list_elem_of_fmap. exists (id, e).
    split; [done|]. by apply elem_of_order.
  - rewrite E2. eauto.
Qed.

Lemma loaded_state_ok d old D' L' : state_ok d →
  (∀ id, id ≠ rootVolumeID → is_Some (old !! id) → is_Some (ds_Desired d !! id)) →
  validateDesired config (map_order (ds_Desired d ∪ old)) (ds_Desired d ∪ old) = (Ok tt, D') →
  validateLedger config (ds_Ledger d) = (Ok tt, L') →
  ∀ s, state_ok (set_Ledger (set_Desired s D') L').
Proof.
  intros Hd Hold HD HL s.
  assert (∀ id e', D' !! id = Some e' → ∃ e, (ds_Desired d ∪ old) !! id = Some e ∧ persisted config e e' ∧ ex_VolumeID e = id) as Hv.
  { intros id e' He'. apply validateDesired_all with (id := id) in HD. by rewrite He' in HD. }
  assert (∀ id e', id ≠ rootVolumeID → D' !! id = Some e' → ∃ e, ds_Desired d !! id = Some e ∧ ex_Path e' = ex_Path e) as Hn.
  { intros id e' Hr (e&He&[Hn _ _]&_)%Hv. rewrite lookup_union in He. destruct (ds_Desired d !! id) as [y|] eqn:Ed.
    - exists y. split; [done|]. rewrite (nz_path _ _ Hn). destruct (old !! id); cbn in He; congruence.
    - destruct (old !! id) as [z|] eqn:Eo; [|done]. destruct (Hold id Hr) as [y Hy]; [by rewrite Eo|congruence]. }
  assert (∀ id e', D' !! id = Some e' → ex_VolumeID e' = id) as Hid.
  { intros id e' (e&_&[N _ _]&<-)%Hv. apply (nz_id _ _ N). }
  assert (∀ id e', D' !! id = Some e' → ex_Path e' = cf_ExportRoot config ↔ id = rootVolumeID) as Hr.
  { intros id e' He'. rewrite <- (Hid _ _ He') at 1. by destruct (Hv _ _ He') as (e&_&[_ _ ?]&_). }
  split; cbn.
  - exact Hid.
  - intros i j e e' Hi Hj Hp. destruct (decide (i = rootVolumeID)) as [->|Hi'].
    { symmetry. apply (Hr j e' Hj). rewrite <- Hp. by apply (Hr _ e Hi). }
    destruct (decide (j = rootVolumeID)) as [->|Hj']. { apply (Hr i e Hi). rewrite Hp. by apply (Hr _ e' Hj). }
    destruct (Hn i e Hi' Hi) as (y&Hy&Ey), (Hn j e' Hj' Hj) as (z&Hz&Ez). eapply (so_path _ _ Hd); [done..|congruence].
  - exact Hr.
  - intros id e' (e&_&[_ ? _]&_)%Hv. done.
  - apply (validateLedger_ok _ _ _ HL).
Qed.

(** Only the policy in memory changed. *)
Definition reloaded w w' : Prop := rows w' = rows w ∧ ∃ s f, mgr_of w' = set_dir (set_state (mgr_of w) s) (dir w) f.
Lemma used_reloaded w w1 w2 : used w w1 → reloaded w1 w2 → reloaded w w2.
Proof. intros [R1 [f1 E1]] [R2 (s&f&E2)]. split; [congruence|]. exists s, f. by rewrite E2, E1. Qed.

Lemma on_state_spec f w : wp (on_state f) (λ r w', r = Ok tt ∧ rows w' = rows w ∧ mgr_of w' = set_state (mgr_of w) (f (mem w))) w.
Proof. apply (on_mgr_spec (λ m, set_state m (f (mg_state m)))). Qed.

Lemma stay_reloaded w : reloaded w w.
Proof. split; [done|]. exists (mem w), (mg_faults (mgr_of w)). by destruct (mgr_of w). Qed.
Lemma set_state_reloaded w w1 w2 s : reloaded w w1 → rows w2 = rows w1 → mgr_of w2 = set_state (mgr_of w1) s → reloaded w w2.
Proof. intros [R1 (s1&f&E1)] R2 E2. split; [congruence|]. exists s, f. by rewrite E2, E1. Qed.

(** Validating what was read: the state in memory is the stored one, merged
    into what was there. *)
Lemma validateState_spec d old w : sd_live (dir w) = Some (OwnerState d) → state_ok d →
  covered F (ds_Ledger d) (rows w) → dir_ok (rows w) (dir w) →
  (∀ id, id ≠ rootVolumeID → is_Some (old !! id) → is_Some (ds_Desired d !! id)) →
  Desired w = ds_Desired d ∪ old → Ledger w = ds_Ledger d →
  wp (validateState config) (λ r w', reloaded w w' ∧ idle w' ∧ (r = Ok tt → Wal w')) w.
Proof.
  intros El Hd Hc Hdir Hold HD HL. unfold validateState. apply wp_bind, wp_reads.
  assert (∀ id, id ≠ rootVolumeID → is_Some ((ds_Desired d ∪ old) !! id) → is_Some (ds_Desired d !! id)) as Hdom.
  { intros id Hr. rewrite lookup_union_is_Some. naive_solver. }
  destruct (validateDesired config _ _) as [r1 D'] eqn:EvD. rewrite HD in EvD.
  assert (∀ id, id ≠ rootVolumeID → is_Some (D' !! id) → is_Some (ds_Desired d !! id)) as HD'.
  { intros id Hr Hs. apply Hdom; [done|]. apply (validateDesired_ok config _ _ _ _ (order_NoDup _) EvD); [|done].
    intros i e. apply elem_of_order. }
  wcall on_state_spec; [intros [] w1 (_&R1&E1)|by intros x w1 [? _]]. apply wp_bind, wp_lift.
  assert (reloaded w w1) as L1 by (eapply set_state_reloaded; [apply stay_reloaded|done..]).
  assert (∀ w', dir w' = dir w → Desired w' = D' → idle w') as Hi.
  { intros w' Ed ED id Hr Hs. exists d. rewrite Ed. rewrite ED in Hs. auto. }
  destruct r1 as [[]|x]; [|split_and!; [done|apply Hi; by rewrite E1|done]].
  rewrite HL. destruct (validateLedger config (ds_Ledger d)) as [r2 L'] eqn:EvL.
  wcall on_state_spec; [intros [] w2 (_&R2&E2)|by intros x w2 [? _]]. apply wp_lift.
  split_and!; [eapply set_state_reloaded; [exact L1|done..]|apply Hi; by rewrite E2, E1|].
  intros ->. split; rewrite ?R2, ?R1, ?E2, ?E1; cbn; [done|by exact (loaded_state_ok _ _ _ _ Hd Hold EvD EvL _)|].
  intros x Hx. destruct (Hc x Hx) as [|[Ho Hf]]; [by left|right]. split; [|done].
  eapply validateLedger_owns; [done|apply (so_ledger _ _ Hd)|done].
Qed.

Lemma loadFile_spec w : dir_ok (rows w) (dir w) → version_ok config F (rows w) (sd_live (dir w)) → idle w →
  wp (loadFile config (sd_live (dir w))) (λ r w', reloaded w w' ∧ idle w' ∧ (r = Ok tt → Wal w')) w.
Proof.
  intros Hd Hv Hi. destruct (sd_live (dir w)) as [[d|]|] eqn:El; cbn in Hv |- *.
  - destruct Hv as [Hs Hc].
    assert (∀ id, id ≠ rootVolumeID → is_Some (Desired w !! id) → is_Some (ds_Desired d !! id)) as Hold.
    { intros id Hr Hsome. destruct (Hi id Hr Hsome) as (d'&Hd'&?). congruence. }
    wcall on_state_spec; [intros [] w1 (_&R1&E1)|by intros x w1 [? _]]. apply wp_bind, wp_reads.
    assert (reloaded w w1) as L1 by (eapply set_state_reloaded; [apply stay_reloaded|done..]).
    assert (sd_live (dir w1) = Some (OwnerState d)) as El1 by by rewrite E1.
    assert (Desired w1 = ds_Desired d ∪ Desired w ∧ Ledger w1 = ds_Ledger d) as [HD1 HL1] by by rewrite E1.
    destruct (_ || _).
    { apply wp_throw. split_and!; [done| |done]. intros id Hr Hsome. exists d. split; [done|].
      rewrite HD1, lookup_union_is_Some in Hsome. naive_solver. }
    wend validateState_spec; [exact El1|done|by rewrite R1|rewrite R1; by rewrite E1|exact Hold|done|done|].
    intros r w2 ([R2 (s&f&E2)]&?&?). split_and!; [|done|done]. split; [congruence|].
    destruct L1 as [_ (s1&f1&E1')]. exists s, f. by rewrite E2, E1'.
  - apply wp_throw. split_and!; [apply stay_reloaded|done|done].
  - wend on_state_spec. intros r w1 (_&R1&E1). split_and!.
    + eapply set_state_reloaded; [apply stay_reloaded|done..].
    + unfold idle. rewrite E1. cbn. intros id _ [e He]. done.
    + intros _. split; rewrite ?E1, ?R1; cbn; [done| |intros x Hx; left; by apply Hv].
      split; cbn; try done. intros e He. by apply elem_of_nil in He.
Qed.

Lemma loadState_spec w : dir_ok (rows w) (dir w) → idle w →
  wp (loadState config) (λ r w', reloaded w w' ∧ idle w' ∧ (r = Ok tt → Wal w')) w.
Proof.
  intros Hd Hi. unfold loadState.
  assert (∀ w', used w w' → reloaded w w' ∧ idle w') as Hu.
  { intros w' Hu. split; [eapply used_reloaded; [done|apply stay_reloaded]|]. unfold idle. by destruct Hu as [_ [f ->]]. }
  wcall attempt_spec; [intros [] w1 H1|intros x w1 H1; by destruct (Hu w1 H1)].
  assert (dir w1 = dir w ∧ rows w1 = rows w) as [Ed1 Er1] by (split; [by apply used_dir|apply H1]).
  apply wp_bind, wp_reads. wend loadFile_spec; [by rewrite Ed1, Er1| |by apply Hu|].
  - rewrite Ed1, Er1. apply (do_versions _ _ _ _ Hd). unfold versions. destruct (sd_synced _); [|right]; apply (do_live _ _ _ _ Hd).
  - intros r w2 (?&?&?). split_and!; [by eapply used_reloaded|done|done].
Qed.

(** ** Before the manager serves *)

(** The policy but the pseudoroot's is what it was, and owner.json as it was or
    with this policy. *)
Record settles w w' : Prop := {
  se_passes : passes config w w';
  se_rows x : x ∈ rows w' → x ∈ rows w;
  se_failure : failure w' = failure w;
  se_live : sd_live (dir w') = sd_live (dir w) ∨
            ∃ d, sd_live (dir w') = Some (OwnerState d) ∧ ∀ id, id ≠ rootVolumeID → ds_Desired d !! id = Desired w' !! id;
}.
#[global] Instance settles_preorder : PreOrder settles.
Proof.
  split; [intros w; split; [done|auto|done|by left]|]. intros w1 w2 w3 [P1 R1 F1 L1] [P2 R2 F2 L2].
  split; [by etrans|auto|congruence|]. destruct L2 as [L2|L2]; [|by right]. rewrite L2. destruct L1 as [L1|(d&L1&Hd)]; [by left|].
  right. exists d. split; [done|]. intros id Hr. rewrite (pa_desired _ _ _ P2 id Hr). auto.
Qed.
Lemma settles_idle w w' : settles w w' → idle w → idle w'.
Proof.
  intros [P _ _ L] Hi id Hr Hs. destruct L as [L|(d&L&Hd)].
  - rewrite L. apply Hi; [done|]. by rewrite <- (pa_desired _ _ _ P id Hr).
  - exists d. split; [done|]. by rewrite Hd.
Qed.
Lemma settles_effect w w' : settles w w' → effect w w'.
Proof. intros [P R _ _]. by apply passes_effect. Qed.
Lemma shrinks_settles w w' : shrinks config w w' → settles w w'.
Proof. intros S. split; [by apply shrinks_passes|apply S|by rewrite (sh_mgr _ _ _ S)|left; by rewrite (sh_mgr _ _ _ S)]. Qed.
Lemma grows_settles w w' : grows w w' → settles w w'.
Proof. intros G. split; [by apply grows_passes|by rewrite (gr_rows _ _ G)|apply (gr_flags _ _ G)|left; by rewrite (gr_dir _ _ G)]. Qed.

Lemma persist_settles w : Wal w → wp persist (λ r w', Wal w' ∧ settles w w' ∧ mem w' = mem w ∧ rows w' = rows w ∧
  errs w' = errs w ∧ (r = Ok tt → durable w')) w.
Proof.
  intros Hw. wend (persist_spec config F); [done|]. intros r w' (W'&S&L&V). pose proof (stored_mem _ _ S) as Hm.
  split_and!; [done| |done|apply S| |].
  - split; [by apply stored_passes|by rewrite (proj1 S)|by destruct S as [_ (s&f&->)]|]. destruct L as [L|L]; [by left|right].
    exists (mem w). by rewrite Hm.
  - by destruct S as [_ (s&f&->)].
  - intros Hr. unfold durable. rewrite Hm. auto.
Qed.

Lemma preflightActivation_spec w : Wal w →
  wp (preflightActivation config) (λ _ w', Wal w' ∧ settles w w') w.
Proof.
  intros Hw. unfold preflightActivation. apply wp_bind, wp_reads. destruct (negb _); [apply wp_ret; by split|].
  wcall list_spec; [intros l w1 (S1&R1&Hl)|intros x w1 (S1&_)]; pose proof (shrinks_Wal _ _ _ _ Hw S1) as W1;
    pose proof (shrinks_settles _ _ S1) as T1; [|done]. rewrite (Hl l eq_refl), <- R1. clear l Hl.
  wcall (desiredEntries_spec config F); [exact (wal_state _ _ _ W1)|intros wanted w2 (G2&S2&O2)|intros x w2 (G2&S2&_)];
    pose proof (grows_Wal _ _ _ _ W1 G2 S2) as W2;
    (assert (settles w w2) as T2 by (etrans; [exact T1|by apply grows_settles])); [|done].
  specialize (O2 wanted eq_refl). rewrite <- (gr_rows _ _ G2). apply wp_bind, wp_reads.
  wcall revokeObsolete_spec; [exact (wal_state _ _ _ W2)|auto|intros [] w3 [S3 H3]|intros x w3 [S3 _]];
    pose proof (shrinks_Wal _ _ _ _ W2 S3) as W3;
    (assert (settles w w3) as T3 by (etrans; [exact T2|by apply shrinks_settles])); [|done].
  assert (wanted_ok w3 wanted) as O3.
  { destruct O2 as [A B]. split; unfold available in *; by rewrite (sh_mgr _ _ _ S3). }
  wcall rebuildLedger_spec; [exact W3|exact O3|rewrite (sh_mgr _ _ _ S3); by apply H3|intros [] w4 (_&W4&R4&D4&_&s&E4)|by intros x w4 [? _]].
  assert (settles w w4) as T4.
  { etrans; [exact T3|]. split; [|by rewrite R4|by rewrite E4|left; by rewrite E4].
    split; [intros x Hx _; by rewrite R4|by rewrite E4|intros id _; by rewrite D4|by rewrite E4]. }
  wend persist_settles; [done|]. intros r w5 (W5&T5&_). split; [done|by etrans].
Qed.

(** New helper processes are recorded; the policy stays. *)
Lemma set_helpers_spec h w : Wal w →
  wp (on_state (λ s, set_helpers s (h s))) (λ r w', r = Ok tt ∧ Wal w' ∧ settles w w') w.
Proof.
  intros Hw. wend on_state_spec. intros r w' (->&R&E). split_and!; [done| |].
  - destruct Hw as [Hd Hs Hc]. split; rewrite ?E, ?R; [done|destruct Hs; by split|done].
  - split; [split|by rewrite R|by rewrite E|left; by rewrite E]; [intros x Hx _; by rewrite R|by rewrite E..].
Qed.

Lemma runStart_spec p w : Wal w → quietStart rows (mgr_of w) (rows w) p →
  Wal (runStart p).2 ∧ settles w (runStart p).2.
Proof.
  revert w. induction p as [r h w1|h w1 k IH]; intros w Hw Hq.
  - destruct Hq as [Em Er]. assert (shrinks config w w1) as S by (split; [done|by rewrite Er|intros x Hx _; by rewrite Er]).
    pose proof (shrinks_Wal _ _ _ _ Hw S) as W1. destruct (set_helpers_spec (λ _, h) w1 W1) as (_&W2&T2).
    split; [exact W2|]. etrans; [by apply shrinks_settles|exact T2].
  - destruct Hq as (Em&Er&Hk). assert (shrinks config w w1) as S by (split; [done|by rewrite Er|intros x Hx _; by rewrite Er]).
    pose proof (shrinks_Wal _ _ _ _ Hw S) as W1. destruct (set_helpers_spec (λ _, h) w1 W1) as (_&W2&T2).
    cbn [runStart]. set (w2 := (on_state _ w1).2) in *. destruct (persist w2) as [r w3] eqn:Ep.
    pose proof (wp_run _ _ _ _ _ (persist_settles w2 W2) Ep) as (W3&T3&_). cbn in W3, T3.
    destruct (IH r w3 w3 W3 (Hk r w3)) as [W4 T4]. split; [done|].
    etrans; [by apply shrinks_settles|]. etrans; [exact T2|]. by etrans.
Qed.

(** ** Start *)

(** A manager that has not come up. *)
Record early w : Prop := {
  ea_dir : dir_ok (rows w) (dir w);
  ea_idle : idle w;
  ea_started : started w = false;
  ea_failure : failure w = None;
}.
Lemma early_Inv w : early w → Inv w.
Proof. intros [Hd Hi Hs _]. split; [done|by rewrite Hs|done]. Qed.
Lemma early_effect w w' : failure w = None → started w = false → keeps config w w' → effect w w'.
Proof. intros Hf Hs Hk. split; [done|by rewrite Hs|done..]. Qed.
Lemma early_settles w w' : early w → settles w w' → dir_ok (rows w') (dir w') → early w'.
Proof.
  intros [Hd Hi Hs Hf] T Hd'. split; [done|by eapply settles_idle| |by rewrite (se_failure _ _ T)].
  by rewrite (proj1 (proj2 (pa_flags _ _ _ (se_passes _ _ T)))).
Qed.
Lemma Wal_Inv w : Wal w → started w = true → Inv w.
Proof. intros Hw Hs. split; [apply Hw|done|by rewrite Hs]. Qed.
Lemma passes_started w w' : passes config w w' → started w' = started w.
Proof. intros P. apply (pa_flags _ _ _ P). Qed.

Lemma shrinks_early w w' : early w → shrinks config w w' → early w'.
Proof.
  intros He S. eapply early_settles; [done|by apply shrinks_settles|]. rewrite (sh_mgr _ _ _ S).
  eapply dir_ok_mono; [apply (sh_rows _ _ _ S)|apply He].
Qed.
Lemma reloaded_early w w' : early w → reloaded w w' → idle w' → early w' ∧ keeps config w w'.
Proof.
  intros [Hd _ Hs Hf] [R (s&f&E)] Hi. split; [|intros x Hx _; by rewrite R].
  split; [by rewrite R, E|done|by rewrite E|by rewrite E].
Qed.

Abbreviation came_up w := (λ (r : GoResult unit) w', Inv w' ∧ effect w w' ∧ (started w' = false → early w') ∧
  (r = Ok tt → started w' = true ∧ failure w' = None ∧ exact F w' ∧ durable w')).

(** The last part: the manager is started, and applies its policy. *)
Lemma startLocked_finish w w4 : early w → early w4 → Wal w4 → keeps config w w4 →
  wp (r ← try persist;
      match r with
      | Err e => _ ← try rt_close; throw e
      | Ok _ => on_mgr (λ m, set_flags m (mg_lock m) true (mg_closed m)) ;; apply_ config
      end) (came_up w) w4.
Proof.
  intros Ea Ea4 W4 K4. apply wp_bind, wp_try. wend persist_settles; [done|]. intros r w5 (W5&T5&_).
  pose proof (early_settles _ _ Ea4 T5 (wal_dir _ _ _ W5)) as Ea5.
  assert (keeps config w w5) as K5 by (etrans; [exact K4|apply (pa_keeps _ _ _ (se_passes _ _ T5))]). destruct r as [[]|x].
  - wcall on_mgr_spec; [intros [] w6 (_&R6&E6)|by intros x w6 [? _]].
    assert (Wal w6) as W6 by (destruct W5; split; by rewrite ?R6, ?E6).
    assert (keeps config w w6) as K6 by (etrans; [exact K5|intros y Hy _; by rewrite R6]).
    wend apply_spec; [exact W6|]. intros r w7 (W7&P7&H7).
    assert (started w7 = true) as S7 by (rewrite (passes_started _ _ P7); by rewrite E6).
    split_and!; [by apply Wal_Inv| |congruence|].
    + apply early_effect; [apply Ea|apply Ea|]. etrans; [exact K6|apply P7].
    + intros ->. destruct H7 as (X7&D7&F7). split_and!; [done| |done|done]. rewrite F7, E6. apply Ea5.
  - apply wp_bind, wp_try. wend quiet_shrinks; [apply law_close|]. intros r w6 S6. apply wp_throw.
    split_and!; [by eapply early_Inv, shrinks_early| |intros _; by eapply shrinks_early|done].
    apply early_effect; [apply Ea|apply Ea|]. etrans; [exact K5|apply S6].
Qed.

Lemma startLocked_spec w : early w → wp (startLocked config) (came_up w) w.
Proof.
  intros Ea. unfold startLocked.
  assert (∀ w', early w' → keeps config w w' → Inv w' ∧ effect w w') as Hearly.
  { intros w' E' K'. split; [by apply early_Inv|]. apply early_effect; [apply Ea|apply Ea|done]. }
  assert (∀ w' x, early w' → keeps config w w' → came_up w (Err x) w') as Hstop.
  { intros w' x E' K'. by destruct (Hearly w' E' K'). } clear Hearly.
  wcall quiet_shrinks; [apply law_identity|intros identity w1 S1|intros x w1 S1];
    pose proof (shrinks_early _ _ Ea S1) as Ea1; [|apply Hstop; [done|apply S1]].
  wcall loadState_spec; [apply Ea1|apply Ea1|intros [] w2 (L2&I2&W2)|intros x w2 (L2&I2&_)];
    destruct (reloaded_early _ _ Ea1 L2 I2) as [Ea2 K2];
    (assert (keeps config w w2) as K02 by (etrans; [apply S1|exact K2])); [|by apply Hstop].
  specialize (W2 eq_refl).
  wcall updateRoot_spec; [exact (wal_state _ _ _ W2)|intros [] w3 (_&G3&S3&_)|by intros x w3 [? _]].
  pose proof (grows_Wal _ _ _ _ W2 G3 S3) as W3. pose proof (grows_settles _ _ G3) as T3.
  assert (∀ w', Wal w' → settles w2 w' → early w' ∧ keeps config w w') as Hset.
  { intros w' W' T'. split; [by eapply early_settles, W'|]. etrans; [exact K02|apply (se_passes _ _ T')]. }
  wcall preflightActivation_spec; [exact W3|intros [] w4 [W4 T4]|intros x w4 [W4 T4]];
    (assert (settles w2 w4) as T24 by by etrans); [|apply Hstop; by apply Hset].
  apply wp_bind, wp_reads.
  eapply wp_call with (P := λ _ w', Wal w' ∧ settles w2 w').
  { unfold wp. destruct (runStart_spec _ _ W4 (law_start (mem w4) w4)) as [W5 T5]. split; [exact W5|by etrans]. }
  2:{ intros x w5 [W5 T5]. apply Hstop; by apply Hset. }
  intros [] w5 [W5 T5].
  wcall (set_helpers_spec (λ s, {| hp_Identity := identity; hp_TrackerPID := hp_TrackerPID (ds_helpers s);
    hp_TrackerStart := hp_TrackerStart (ds_helpers s); hp_MountdPID := hp_MountdPID (ds_helpers s);
    hp_MountdStart := hp_MountdStart (ds_helpers s) |})); [exact W5|intros [] w6 (_&W6&T6)|by intros x w6 [? _]].
  destruct (Hset w6 W6) as [Ea6 K6]; [by etrans|]. by apply startLocked_finish.
Qed.

Lemma healthLocked_spec w : wp healthLocked (λ r w', shrinks config w w' ∧ rows w' = rows w ∧
  (r = Ok tt → started w = true ∧ failure w = None)) w.
Proof.
  apply wp_of_run. intros r w' Hr. destruct (healthLocked_quiet w) as [Em Er]. rewrite Hr in Em, Er. cbn in Em, Er.
  split_and!; [split; [done|by rewrite Er|intros x Hx _; by rewrite Er]|done|]. intros ->.
  unfold healthLocked, mbind, M_bind, get_mgr, reads, id in Hr. destruct (mg_failure (mgr_of w)); [done|].
  destruct (mg_started (mgr_of w)); [done|]. done.
Qed.

(** The flags alone, or the outcomes to come: neither concerns the policy. *)
Lemma flags_early w w' l : early w → rows w' = rows w → (∃ f, mgr_of w' = set_dir (set_flags (mgr_of w) l false (mg_closed (mgr_of w))) (dir w) f) →
  early w' ∧ keeps config w w'.
Proof.
  intros [Hd Hi Hs Hf] R [f E]. split; [|intros x Hx _; by rewrite R].
  split; [by rewrite R, E|unfold idle; by rewrite E|by rewrite E|by rewrite E].
Qed.
Lemma used_early w w' : early w → used w w' → early w' ∧ keeps config w w'.
Proof.
  intros Ea [R [f E]]. apply (flags_early w w' (mg_lock (mgr_of w)) Ea R). exists f. rewrite E.
  destruct Ea as [_ _ Hs _]. unfold set_flags. by rewrite <- Hs.
Qed.

Lemma acquireLock_early w : early w → wp acquireLock (λ _ w', early w' ∧ keeps config w w') w.
Proof.
  intros Ea. unfold acquireLock. wcall attempt_spec; [intros [] w1 U1|intros x w1 U1]; destruct (used_early _ _ Ea U1) as [Ea1 K1]; [|done].
  wend on_mgr_spec. intros r w2 (_&R2&E2). destruct (flags_early w1 w2 true Ea1 R2) as [Ea2 K2].
  - exists (mg_faults (mgr_of w1)). rewrite E2. unfold set_flags, set_dir. cbn. by rewrite (ea_started _ Ea1).
  - split; [done|by etrans].
Qed.
Lemma releaseLock_early w : early w → wp releaseLock (λ _ w', early w' ∧ keeps config w w') w.
Proof.
  intros Ea. unfold releaseLock. wcall on_mgr_spec; [intros [] w1 (_&R1&E1)|by intros x w1 [? _]].
  destruct (flags_early w w1 false Ea R1) as [Ea1 K1].
  { exists (mg_faults (mgr_of w)). rewrite E1. unfold set_flags, set_dir. cbn. by rewrite (ea_started _ Ea). }
  wend attempt_spec. intros r w2 U2. destruct (used_early _ _ Ea1 U2) as [Ea2 K2]. split; [done|by etrans].
Qed.

Lemma used_Inv w w' : Inv w → used w w' → Inv w'.
Proof.
  intros [Hd Hon Hoff] U. pose proof U as [R [f E]]. split; [by rewrite R, E| |].
  - rewrite E. intros Hs. eapply used_Wal; [done|by apply Hon].
  - unfold idle. by rewrite E.
Qed.
Lemma used_effect w w' : used w w' → effect w w'.
Proof. intros U. by apply stored_effect, used_stored. Qed.
Lemma shrinks_Inv w w' : Inv w → shrinks config w w' → Inv w'.
Proof.
  intros [Hd Hon Hoff] S. split.
  - rewrite (sh_mgr _ _ _ S). eapply dir_ok_mono; [apply (sh_rows _ _ _ S)|done].
  - rewrite (sh_mgr _ _ _ S). intros Hs. eapply shrinks_Wal; [by apply Hon|done].
  - unfold idle. by rewrite (sh_mgr _ _ _ S).
Qed.

(** [Start]: the manager comes up, or stays as recoverable as it was. *)
Lemma Start_spec w : Inv w →
  wp (Start config) (λ r w', Inv w' ∧ effect w w' ∧ (r = Ok tt → started w' = true ∧ failure w' = None ∧
    (started w = false → exact F w' ∧ durable w'))) w.
Proof.
  intros Hi. unfold Start. wcall attempt_spec; [intros [] w1 U1|intros x w1 U1]; pose proof (used_Inv _ _ Hi U1) as I1;
    pose proof (used_effect _ _ U1) as E1; [|done]. apply wp_bind, wp_reads. unfold id.
  assert (started w = started w1) as Es01 by by destruct U1 as [_ [f ->]].
  destruct (mg_closed (mgr_of w1)); [by apply wp_throw|]. destruct (mg_started (mgr_of w1)) eqn:Es.
  { wend healthLocked_spec. intros r w2 (S2&_&H2). split_and!; [by eapply shrinks_Inv|etrans; [exact E1|by apply shrinks_effect]|].
    intros Hr. destruct (H2 Hr). rewrite (sh_mgr _ _ _ S2). split_and!; [done|done|congruence]. }
  destruct (mg_failure (mgr_of w1)) eqn:Ef; [by apply wp_throw|].
  assert (early w1) as Ea1 by (split; [apply I1|by apply I1|done|done]).
  assert (∀ w', early w' → keeps config w1 w' → Inv w' ∧ effect w w') as Hstop.
  { intros w' Ea' K'. split; [by apply early_Inv|]. etrans; [exact E1|by apply early_effect]. }
  wcall attempt_spec; [intros [] w2 U2|intros x w2 U2]; destruct (used_early _ _ Ea1 U2) as [Ea2 K2]; [|by destruct (Hstop w2)].
  wcall acquireLock_early; [exact Ea2|intros [] w3 [Ea3 K3]|intros x w3 [Ea3 K3]];
    (assert (keeps config w1 w3) as K13 by by etrans); [|by destruct (Hstop w3)].
  apply wp_bind, wp_try. wend startLocked_spec; [exact Ea3|]. intros r w4 (I4&E4&Ha4&H4). apply wp_bind, wp_reads.
  assert (effect w w4) as E04 by (etrans; [apply (Hstop w3); done|done]).
  destruct (mg_started (mgr_of w4)) eqn:Es4.
  { apply wp_lift. split_and!; [done|done|]. intros Hr. by destruct (H4 Hr) as (?&?&?&?). }
  apply wp_bind, wp_try. wend releaseLock_early; [exact (Ha4 eq_refl)|]. intros r' w5 [Ea5 K5].
  assert (Inv w5 ∧ effect w w5) as [I5 E5].
  { split; [by apply early_Inv|]. etrans; [exact E04|apply early_effect; [by apply Ha4|done|done]]. }
  destruct r as [[]|x]; [by destruct (H4 eq_refl); congruence|]. by apply wp_throw.
Qed.
End Starting.
