(* ===== verification/NfsSections.v ===== *)
(** * The critical sections of the NFS manager

    [Put], [ChangeClient] and [Remove] run [Start] and then one section under
    the manager's lock; a daemon's failure and [Close] are sections of their
    own.  Each keeps the invariant [Inv] of the manager whatever fails in it,
    and a section that succeeds leaves the export table as the policy says. *)
From stdpp Require Import base numbers list strings gmap.
From S2P Require Import Prelude GoStd GoNet GoNetip NfsManager NfsLaws NfsConverge NfsStart.
Open Scope Z_scope.

Section Sections.
Context {W : Type} `{HHost : Host W, HRuntime : Runtime W, HLaws : !NfsLaws W} (config : Config) (F : entry → Prop).
Implicit Types (w : W) (e : Export) (d : diskState).

Abbreviation mem w := (mg_state (mgr_of w)).
Abbreviation Desired w := (ds_Desired (mem w)).
Abbreviation Ledger w := (ds_Ledger (mem w)).
Abbreviation dir w := (mg_dir (mgr_of w)).
Abbreviation started w := (mg_started (mgr_of w)).
Abbreviation failure w := (mg_failure (mgr_of w)).
Abbreviation errs w := (mg_exportErrors (mgr_of w)).
Abbreviation state_ok := (state_ok config).
Abbreviation Wal := (Wal config F).
Abbreviation Inv := (Inv config F).
Abbreviation effect := (effect config).

(** ** Changing the policy in memory *)

(** Only the policy changed. *)
Definition edited w w' : Prop := rows w' = rows w ∧ ∃ s, mgr_of w' = set_state (mgr_of w) s.

Lemma edited_effect w w' : edited w w' → effect w w'.
Proof. intros [R [s E]]. split; [intros x Hx _; by rewrite R|by rewrite E|by rewrite E|by rewrite R]. Qed.

Lemma recordExport_spec id e w : Wal w → ex_VolumeID e = id → export_ok config e →
  (ex_Path e = cf_ExportRoot config ↔ id = rootVolumeID) →
  (∀ j y, Desired w !! j = Some y → ex_Path y = ex_Path e → j = id) →
  wp (recordExport id e) (λ r w', r = Ok tt ∧ Wal w' ∧ edited w w' ∧ Desired w' = <[id := e]> (Desired w)) w.
Proof.
  intros [Hd Hs Hc] Hid Hok Hroot Huniq. wend on_state_spec. intros r w' (->&R&E).
  assert (∀ i y, <[id := e]> (Desired w) !! i = Some y → i = id ∧ y = e ∨ i ≠ id ∧ Desired w !! i = Some y) as Hi.
  { intros i y. destruct (decide (i = id)) as [->|Hne]; [rewrite lookup_insert_eq|rewrite lookup_insert_ne by done]; naive_solver. }
  split_and!; [done| |by split; [|eexists]|by rewrite E]. split; rewrite ?R, ?E; cbn; [done| |].
  - split; cbn.
    + intros i y [[-> ->]|[_ H]]%Hi; [done|by apply Hs].
    + intros i j y z [[-> ->]|[_ H1]]%Hi [[-> ->]|[_ H2]]%Hi Hp; [done|symmetry; by eapply Huniq|by eapply Huniq|].
      by eapply (so_path _ _ Hs).
    + intros i y [[-> ->]|[_ H]]%Hi; [done|by apply (so_root _ _ Hs)].
    + intros i y [[-> ->]|[_ H]]%Hi; [done|by eapply (so_desired _ _ Hs)].
    + intros y [H|H%list_elem_of_singleton]%elem_of_app; [by apply (so_ledger _ _ Hs)|by subst].
  - eapply covered_mono; [exact Hc| |auto]. intros y Hy. apply elem_of_app. by left.
Qed.

Lemma forget_spec id w : Wal w →
  wp (on_state (λ s, set_Desired s (delete id (ds_Desired s)))) (λ r w', r = Ok tt ∧ Wal w' ∧ edited w w' ∧
    Desired w' = delete id (Desired w)) w.
Proof.
  intros [Hd Hs Hc]. wend on_state_spec. intros r w' (->&R&E). split_and!; [done| |by split; [|eexists]|by rewrite E].
  split; rewrite ?R, ?E; cbn; [done| |done]. split; cbn.
  - intros i y [_ H]%lookup_delete_Some. by apply Hs.
  - intros i j y z [_ H1]%lookup_delete_Some [_ H2]%lookup_delete_Some. by apply (so_path _ _ Hs).
  - intros i y [_ H]%lookup_delete_Some. by apply (so_root _ _ Hs).
  - intros i y [_ H]%lookup_delete_Some. by eapply (so_desired _ _ Hs).
  - apply (so_ledger _ _ Hs).
Qed.

(** ** Committing a policy and applying it *)

(** After a policy change, the section goes on from a manager that differs in
    policy, ledger and files alone. *)
Record changed w w' : Prop := {
  ch_rows : rows w' = rows w;
  ch_started : started w' = started w;
  ch_failure : failure w' = failure w;
  ch_errs : errs w' = errs w;
}.
#[global] Instance changed_preorder : PreOrder changed.
Proof. split; [intros w; by split|]. intros ??? [] []. split; congruence. Qed.
Lemma edited_changed w w' : edited w w' → changed w w'.
Proof. intros [R [s E]]. split; [done|by rewrite E..]. Qed.
Lemma changed_effect w w' : changed w w' → effect w w'.
Proof. intros [R S Fa _]. split; [intros x Hx _; by rewrite R|by rewrite S|by rewrite Fa|by rewrite R]. Qed.
Lemma changed_Inv w w' : Inv w → started w = true → Wal w' → changed w w' → Inv w'.
Proof. intros _ Hs Hw C. apply Wal_Inv; [done|]. by rewrite (ch_started _ _ C). Qed.

Lemma updateRoot_changed w : Wal w → wp (updateRoot config) (λ r w', r = Ok tt ∧ Wal w' ∧ changed w w' ∧
  ∀ id, id ≠ rootVolumeID → Desired w' !! id = Desired w !! id) w.
Proof.
  intros Hw. wend updateRoot_spec; [exact (wal_state _ _ _ Hw)|]. intros r w' (->&G&S&E&D&_).
  split_and!; [done|by eapply grows_Wal| |apply G]. destruct (gr_flags _ _ G) as (_&?&_&?). by split; [apply G|..].
Qed.
Lemma persist_changed w : Wal w → wp persist (λ r w', Wal w' ∧ changed w w' ∧ mem w' = mem w ∧ (r = Ok tt → durable w')) w.
Proof.
  intros Hw. wend (persist_settles config F); [done|]. intros r w' (W'&T&M&R&E&D). split_and!; [done| |done|done].
  split; [done|apply (pa_flags _ _ _ (se_passes _ _ _ T))|apply T|done].
Qed.

(** Every row is foreign or admitted by the policy. *)
Definition conforms w : Prop := ∀ x, x ∈ rows w → F x ∨ admitted w x.

Lemma Wal_effect_Inv w w' : Wal w' → effect w w' → started w = true → Inv w'.
Proof. intros Hw E Hs. apply Wal_Inv; [done|]. by apply (ef_started _ _ _ E). Qed.

Lemma apply_effect w : Wal w → failure w = None → wp (apply_ config) (λ r w', Wal w' ∧ effect w w' ∧ passes config w w' ∧
  (r = Ok tt → exact F w' ∧ durable w' ∧ failure w' = None)) w.
Proof.
  intros Hw Hf. wend apply_spec; [exact Hw|]. intros r w' (W'&P&H). split_and!; [done|by apply passes_effect|done|].
  intros ->. destruct H as (?&?&?). split_and!; [done|done|congruence].
Qed.

Lemma applyFor_spec id w : Wal w → failure w = None →
  wp (applyFor config id) (λ r w', Wal w' ∧ effect w w' ∧ passes config w w' ∧
    (r = Ok tt → exact F w' ∧ durable w' ∧ errs w' !! id = None)) w.
Proof.
  intros Hw Hf. unfold applyFor. apply wp_bind, wp_try. wend apply_effect; [done|done|]. intros r w' (W'&E&P&H).
  apply wp_bind, wp_reads. destruct r as [[]|x]; cbn; [|by apply wp_throw].
  destruct (mg_exportErrors (mgr_of w') !! id) eqn:Ee; cbn; [by apply wp_throw|]. apply wp_ret.
  split_and!; [done|done|done|]. intros _. by destruct (H eq_refl) as (?&?&?).
Qed.

Lemma failClosed_effect err w : Wal w → wp (failClosed err) (λ r w', r = Err err ∧ Wal w' ∧ effect w w' ∧ failure w' ≠ None) w.
Proof.
  intros Hw. wend failClosed_spec; [exact Hw|]. intros r w' (->&W'&P&Hf&R). split_and!; [done|done|by apply passes_effect|done].
Qed.

(** Withdrawing everything the manager may have granted. *)
Lemma stopOwned_spec w : Wal w →
  wp stopOwned (λ r w', shrinks config w w' ∧ (r = Ok tt → ∀ x, x ∈ rows w' → F x)) w.
Proof.
  intros Hw. unfold stopOwned. apply wp_bind, wp_try. wend (revokeOwned_spec config F); [exact (wal_state _ _ _ Hw)|].
  intros r w1 [S1 H1]. apply wp_bind, wp_try. wend quiet_shrinks; [apply law_close|]. intros r2 w2 S2.
  assert (shrinks config w w2) as S by by etrans.
  destruct r as [[]|x]; cbn; [|by apply wp_throw]. destruct r2 as [[]|x]; cbn; [apply wp_ret|by apply wp_throw].
  split; [done|]. intros _ x Hx. apply (sh_rows _ _ _ S2) in Hx. specialize (H1 eq_refl x Hx).
  destruct (wal_rows _ _ _ Hw x) as [|[Ho _]]; [by apply (sh_rows _ _ _ S1)|done|congruence].
Qed.

Lemma applyOrStop_spec w : Wal w →
  wp (applyOrStop config) (λ r w', Wal w' ∧ effect w w' ∧ passes config w w' ∧ (r = Ok tt → conforms w' ∧ (durable w → durable w'))) w.
Proof.
  intros Hw. unfold applyOrStop. apply wp_bind, wp_try. wend healthLocked_spec. intros r w1 (S1&R1&H1).
  pose proof (shrinks_Wal _ _ _ _ Hw S1) as W1. pose proof (shrinks_effect _ _ _ S1) as E1. pose proof (shrinks_passes _ _ _ S1) as P1.
  destruct r as [[]|x].
  - destruct (H1 eq_refl) as [_ Hf]. wend apply_effect; [done|by rewrite (sh_mgr _ _ _ S1)|]. intros r w2 (W2&E2&P2&H2).
    split_and!; [done|by etrans|by etrans|]. intros Hr. destruct (H2 Hr) as (X&?&_).
    split; [exact (ex_only _ _ X)|done].
  - wend stopOwned_spec; [done|]. intros r w2 [S2 H2]. split_and!; [by eapply shrinks_Wal| | |].
    + etrans; [exact E1|by apply shrinks_effect].
    + etrans; [exact P1|by apply shrinks_passes].
    + intros Hr. split; [intros y Hy; left; auto|]. unfold durable. by rewrite (sh_mgr _ _ _ S2), (sh_mgr _ _ _ S1).
Qed.

(** ** Put *)

(** What [Put] passes on to its section: a normalized policy for a path below
    the export root. *)
Record ready e : Prop := {
  re_canonical : Forall canonical (ex_Clients e);
  re_path : is_ok (ExportPath config (ex_Path e)) = true;
  re_id : ex_VolumeID e ≠ rootVolumeID;
}.

(** The policy [p] that a request [e] is recorded as. *)
Record records e (exact : bool) p : Prop := {
  rc_id : ex_VolumeID p = ex_VolumeID e;
  rc_path : ex_Path p = ex_Path e;
  rc_acl : ex_ACLEnabled p = ex_ACLEnabled e;
  rc_mode : ex_ReadOnly p = ex_ReadOnly e ∧ ex_Squash p = ex_Squash e;
  rc_clients : exact = true → ex_Clients p = ex_Clients e;
}.

Lemma putPolicy_ok D e exact p : putPolicy D e exact = Ok p →
  records e exact p ∧ (∀ j y, D !! j = Some y → ex_Path y = ex_Path e → j = ex_VolumeID e) ∧
  (ex_Clients p = ex_Clients e ∨ ∃ old, D !! ex_VolumeID e = Some old ∧ ex_Clients p = ex_Clients old).
Proof.
  intros (q&Hq&Hp)%result_bind_Ok. destruct (existsb _ _) eqn:Ex; [done|injection Hp as ->].
  assert (records e exact p ∧ (ex_Clients p = ex_Clients e ∨ ∃ old, D !! ex_VolumeID e = Some old ∧ ex_Clients p = ex_Clients old)) as [Hr Hc].
  { destruct (D !! ex_VolumeID e) as [old|]; [|injection Hq as ->; split; [by split|by left]].
    destruct (negb _); [done|]. apply result_bind_Ok in Hq as (q&Hq&[= <-]).
    assert (q = e ∨ q = set_hints e (ex_SourceKey old) (ex_FenceUID old)) as Hqe.
    { destruct (hinted old); [|injection Hq as ->; by left]. destruct (negb (hinted e)); [injection Hq as <-; by right|].
      destruct (_ || _); [done|]. injection Hq as ->. by left. }
    destruct exact, (ex_ACLEnabled old), (ex_ACLEnabled q); cbn; destruct Hqe as [-> | ->]; (split; [by split|naive_solver]). }
  split_and!; [done| |done]. intros j y Hj Hy.
  destruct (decide (j = ex_VolumeID e)) as [|Hne]; [done|]. exfalso.
  assert (existsb (λ '(id, old), negb (bool_decide (id = ex_VolumeID p)) && bool_decide (ex_Path old = ex_Path p)) (map_order D) = true); [|congruence].
  apply existsb_exists. exists (j, y). rewrite <- list_elem_of_In, elem_of_order, (rc_id _ _ _ Hr), (rc_path _ _ _ Hr).
  split; [done|]. by rewrite bool_decide_false, bool_decide_true.
Qed.

(** What a successful [Put] leaves: the policy is recorded, on disk and in
    force. *)
Record published w e exact : Prop := {
  pb_policy : ∃ p, Desired w !! ex_VolumeID e = Some p ∧ records e exact p ∧ ex_Active p = true;
  pb_usable : errs w !! ex_VolumeID e = None;
  pb_table : NfsConverge.exact F w;
  pb_durable : durable w;
  pb_started : started w = true;
}.

Lemma putLocked_spec e exact active w : Inv w → ready e →
  wp (putLocked config e exact active) (λ r w', Inv w' ∧ effect w w' ∧ (active = true → r = Ok tt → published w' e exact)) w.
Proof.
  intros Hi [Hcan Hpath Hid]. unfold putLocked. wcall attempt_spec; [intros [] w1 U1|intros x w1 U1];
    pose proof (used_Inv _ _ _ _ Hi U1) as I1; pose proof (used_effect config _ _ U1) as E1; [|done].
  destruct active; cbn [negb].
  2:{ apply wp_bind, wp_ret. apply wp_bind, wp_reads. apply wp_bind, wp_lift. destruct (putPolicy _ _ _); [apply wp_ret|]; done. }
  wcall healthLocked_spec; [intros [] w2 (S2&_&H2)|intros x w2 (S2&_)]; pose proof (shrinks_Inv _ _ _ _ I1 S2) as I2;
    (assert (effect w w2) as E2 by (etrans; [exact E1|by apply shrinks_effect])); [|done].
  destruct (H2 eq_refl) as [Hs Hf]. rewrite <- (sh_mgr _ _ _ S2) in Hs, Hf. clear H2.
  pose proof (iv_on _ _ _ I2 Hs) as W2. apply wp_bind, wp_reads. apply wp_bind, wp_lift.
  destruct (putPolicy _ e exact) as [p|x] eqn:Ep; [|done]. apply putPolicy_ok in Ep as (Hr&Huniq&Hcl).
  assert (Forall canonical (ex_Clients p)) as Hcan'.
  { destruct Hcl as [->|(old&Hold&->)]; [done|]. by apply (so_desired _ _ (wal_state _ _ _ W2) _ _ Hold). }
  wcall (recordExport_spec (ex_VolumeID (set_Active p)) (set_Active p) w2); [exact W2|done| | | |intros [] w3 (_&W3&C3&D3)|by intros x w3 [? _]].
  - split; [done|]. cbn. rewrite (rc_path _ _ _ Hr). by right.
  - cbn. rewrite (rc_path _ _ _ Hr), (rc_id _ _ _ Hr). split; [|done]. intros E. by rewrite E, ExportPath_root in Hpath.
  - cbn. rewrite (rc_path _ _ _ Hr), (rc_id _ _ _ Hr). exact Huniq.
  - apply edited_changed in C3. cbn in D3. rewrite (rc_id _ _ _ Hr) in *. cbn [ex_VolumeID set_Active].
    wcall updateRoot_changed; [exact W3|intros [] w4 (_&W4&C4&D4)|by intros x w4 [? _]].
    apply wp_bind, wp_try. wend persist_changed; [exact W4|]. intros r w5 (W5&C5&M5&_).
    assert (changed w2 w5) as C25 by (etrans; [exact C3|]; by etrans). pose proof (changed_effect _ _ C25) as E25.
    assert (effect w w5) as E5 by by etrans.
    assert (started w5 = true) as S5 by by rewrite (ch_started _ _ C25).
    destruct r as [[]|x].
    + wend applyFor_spec; [exact W5|by rewrite (ch_failure _ _ C25)|]. intros r w6 (W6&E6&P6&H6).
      split_and!; [by eapply Wal_effect_Inv|by etrans|]. intros _ Hok. destruct (H6 Hok) as (X&Dur&He).
      split; [|by rewrite <- (rc_id _ _ _ Hr)|done|done|by apply (ef_started _ _ _ E6)]. exists (set_Active p). split_and!.
      * rewrite (pa_desired _ _ _ P6) by done. by rewrite M5, D4, D3, lookup_insert_eq.
      * destruct Hr. by split.
      * done.
    + wend failClosed_effect; [exact W5|]. intros r w6 (->&W6&E6&_). split_and!; [by eapply Wal_effect_Inv|by etrans|done].
Qed.

Lemma rejectExport_spec e err w : Inv w →
  wp (rejectExport config e err) (λ r w', (∃ x, r = Err x) ∧ Inv w' ∧ effect w w') w.
Proof.
  intros Hi. unfold rejectExport. apply wp_bind, wp_reads.
  destruct (ds_Desired _ !! _) as [old|]; [|apply wp_throw; by split_and!; [eexists|..]]. destruct (negb _); [apply wp_throw; by split_and!; [eexists|..]|].
  apply wp_bind, wp_try. wend healthLocked_spec. intros r w1 (S1&_&H1). pose proof (shrinks_Inv _ _ _ _ Hi S1) as I1.
  pose proof (shrinks_effect _ _ _ S1) as E1. destruct r as [[]|x]; [|apply wp_throw; by split_and!; [eexists|..]].
  destruct (H1 eq_refl) as [Hs Hf]. rewrite <- (sh_mgr _ _ _ S1) in Hs, Hf.
  wcall attempt_spec; [intros [] w2 U2|intros x w2 U2]; pose proof (used_Inv _ _ _ _ I1 U2) as I2;
    (assert (effect w w2) as E2 by (etrans; [exact E1|by apply used_effect])); [|by split_and!; [eexists|..]].
  destruct U2 as [_ [f EU]]. assert (started w2 = true ∧ failure w2 = None) as [Hs2 Hf2] by by rewrite EU.
  apply wp_bind, wp_try. wend apply_effect; [by apply (iv_on _ _ _ I2)|done|]. intros r w3 (W3&E3&_). apply wp_throw.
  split_and!; [by eauto|by eapply Wal_effect_Inv|by etrans].
Qed.

Lemma validatePut_spec e w : Inv w →
  wp (validatePut config e) (λ r w', Inv w' ∧ effect w w' ∧
    (r = Ok tt → ex_VolumeID e ≠ rootVolumeID ∧ is_ok (ExportPath config (ex_Path e)) = true)) w.
Proof.
  intros Hi. unfold validatePut. case_decide as Hid; [by apply wp_throw|]. apply wp_bind, wp_lift.
  destruct (ExportPath config (ex_Path e)) as [p|x] eqn:Ep; [|done].
  assert (∀ w', shrinks config w w' → Inv w' ∧ effect w w') as Hk.
  { intros w' S. split; [by eapply shrinks_Inv|by apply shrinks_effect]. }
  wcall quiet_shrinks; [apply law_EvalSymlinks|intros c w1 S1|intros x w1 S1; by destruct (Hk w1 S1)].
  destruct (negb _); [apply wp_throw; by destruct (Hk w1 S1)|].
  wcall quiet_shrinks; [apply law_StatIsDir|intros d w2 S2|intros x w2 S2]; (assert (shrinks config w w2) as S02 by by etrans);
    [|by destruct (Hk w2 S02)]. destruct (negb d); [apply wp_throw; by destruct (Hk w2 S02)|].
  wcall validated_spec; [intros v w3 (_&G3&E3)|by intros x w3 [[? ?] _]].
  assert (shrinks config w w3) as S03.
  { etrans; [exact S02|]. split; [done|by rewrite (gr_rows _ _ G3)|]. intros x Hx _. by rewrite (gr_rows _ _ G3). }
  destruct (Hk w3 S03) as [I3 E03].
  destruct v as [[]|]; [by apply wp_throw..|]. destruct (negb _); [by apply wp_throw|]. by apply wp_ret.
Qed.

Lemma Put_spec e exact active w : Inv w →
  wp (Put config e exact active) (λ r w', Inv w' ∧ effect w w' ∧
    (active = true → r = Ok tt → ∃ e', normalized e = Ok e' ∧ published w' e' exact)) w.
Proof.
  intros Hi. unfold Put. wcall attempt_spec; [intros [] w1 U1|intros x w1 U1];
    pose proof (used_Inv _ _ _ _ Hi U1) as I1; pose proof (used_effect config _ _ U1) as E1; [|done].
  apply wp_bind, wp_lift. destruct (normalized e) as [e'|x] eqn:En; [|done]. apply normalized_ok in En as Hn.
  apply wp_bind, wp_try. wend validatePut_spec; [exact I1|]. intros r w2 (I2&E2&H2). assert (effect w w2) as E02 by by etrans.
  destruct r as [[]|x].
  - destruct (H2 eq_refl) as [Hid Hp]. assert (ready e') as Hr by (split; [apply Hn|done|done]). destruct active.
    + wcall Start_spec; [exact I2|intros [] w3 (I3&E3&_)|intros x w3 (I3&E3&_)]; (assert (effect w w3) as E03 by by etrans); [|done].
      wend putLocked_spec; [exact I3|exact Hr|]. intros r w4 (I4&E4&H4). split_and!; [done|by etrans|]. eauto.
    + apply wp_bind, wp_ret. wend putLocked_spec; [exact I2|exact Hr|]. intros r w3 (I3&E3&_). split_and!; [done|by etrans|done].
  - destruct active; [|by apply wp_throw]. wend rejectExport_spec; [exact I2|]. intros r w3 ([y ->]&I3&E3).
    split_and!; [done|by etrans|done].
Qed.

(** ** ChangeClient and Remove *)

Lemma startRefuses_spec strict startErr w : (startErr = None → started w = true) →
  wp (startRefuses strict startErr) (λ r w', w' = w ∧ (r = Ok tt → started w = true)) w.
Proof.
  intros Hs. unfold startRefuses. apply wp_bind, wp_reads. unfold id. destruct startErr as [x|]; [|apply wp_ret; auto].
  destruct (mg_started (mgr_of w)) eqn:E; [|destruct strict; by apply wp_throw].
  destruct (_ || _); [by apply wp_throw|by apply wp_ret].
Qed.

Record reclients e client (allow : bool) e' : Prop := {
  rl_id : ex_VolumeID e' = ex_VolumeID e;
  rl_path : ex_Path e' = ex_Path e;
  rl_acl : ex_ACLEnabled e' = ex_ACLEnabled e;
  rl_active : ex_Active e' = ex_Active e;
  rl_canonical : Forall canonical (ex_Clients e');
  rl_in : allow = true → ex_ACLEnabled e = true → Forall canonical (ex_Clients e) →
    ∀ ip, unicastAddress client = Ok ip → AddrString ip ∈ ex_Clients e';
  rl_out ip : allow = false → unicastAddress client = Ok ip → AddrString ip ∉ ex_Clients e';
}.
Lemma changedClient_ok e client allow e' : changedClient e client allow = Ok e' → reclients e client allow e'.
Proof.
  intros (ip&Hip&(e1&Hn%normalized_ok&[= <-])%result_bind_Ok)%result_bind_Ok. destruct Hn. destruct allow; split; try done.
  - intros _ Ha Hc ip' Hip'. rewrite Hip in Hip'. injection Hip' as <-. apply nz_clients; [done| |].
    + apply Forall_app. split; [done|]. apply Forall_singleton. by eapply unicast_canonical.
    + apply elem_of_app. right. by apply list_elem_of_singleton.
  - cbn. apply Forall_forall. intros c [_ Hc]%list_elem_of_filter. by apply (proj1 (Forall_forall _ _) nz_canonical).
  - intros ip' _ Hip'. rewrite Hip in Hip'. injection Hip' as <-. cbn. rewrite list_elem_of_filter. tauto.
Qed.

(** The policy of [v] after a change that succeeded. *)
Record rechanged w v client (allow : bool) : Prop := {
  rg_policy e ip : Desired w !! v = Some e → ex_ACLEnabled e = true → unicastAddress client = Ok ip →
    (AddrString ip ∈ ex_Clients e ↔ allow = true) ∧ conforms w ∧ durable w;
  rg_present : allow = true → ∃ e, Desired w !! v = Some e;
  rg_started : started w = true;
  rg_exact e : allow = true → Desired w !! v = Some e → ex_ACLEnabled e = true → NfsConverge.exact F w ∧ errs w !! v = None;
}.

Lemma commitClientChange_spec v e0 e client allow w : Inv w → started w = true → (allow = true → failure w = None) →
  Desired w !! v = Some e0 → reclients e0 client allow e → ex_ACLEnabled e = true →
  wp (commitClientChange config v e allow) (λ r w', Inv w' ∧ effect w w' ∧
    (v ≠ rootVolumeID → r = Ok tt → rechanged w' v client allow)) w.
Proof.
  intros Hi Hs Hf H0 Hr Ha. pose proof (iv_on _ _ _ Hi Hs) as Hw. pose proof (wal_state _ _ _ Hw) as Hok.
  destruct (so_desired _ _ Hok _ _ H0) as [Hc0 Ht0]. unfold commitClientChange.
  wcall (recordExport_spec v e w); [exact Hw| | | | |intros [] w1 (_&W1&C1%edited_changed&D1)|by intros x w1 [? _]].
  - rewrite (rl_id _ _ _ _ Hr). by apply (so_id _ _ Hok).
  - split; [apply Hr|]. by rewrite (rl_path _ _ _ _ Hr).
  - rewrite (rl_path _ _ _ _ Hr). by apply (so_root _ _ Hok).
  - intros j y Hj Hp. rewrite (rl_path _ _ _ _ Hr) in Hp. by eapply (so_path _ _ Hok).
  - wcall updateRoot_changed; [exact W1|intros [] w2 (_&W2&C2&D2)|by intros x w2 [? _]].
    apply wp_bind, wp_try. wend persist_changed; [exact W2|]. intros r w3 (W3&C3&M3&V3).
    assert (changed w w3) as C by (etrans; [exact C1|]; by etrans). pose proof (changed_effect _ _ C) as E3.
    assert (∀ w', v ≠ rootVolumeID → passes config w3 w' → Desired w' !! v = Some e) as HD.
    { intros w' Hv P. rewrite (pa_desired _ _ _ P) by done. by rewrite M3, D2, D1, lookup_insert_eq. }
    assert (∀ ip, unicastAddress client = Ok ip → AddrString ip ∈ ex_Clients e ↔ allow = true) as Hin.
    { intros ip Hip. destruct allow; [split; [done|]|split; [|done]].
      - intros _. apply (rl_in _ _ _ _ Hr); [done|by rewrite <- (rl_acl _ _ _ _ Hr)|done|done].
      - intros Hc. by destruct (rl_out _ _ _ _ Hr ip eq_refl Hip). }
    destruct r as [[]|x].
    2:{ wend failClosed_effect; [exact W3|]. intros r w4 (->&W4&E4&_). assert (effect w w4) as E04 by by etrans.
      split_and!; [by eapply Wal_effect_Inv|done|done]. }
    destruct allow; cbn [negb].
    + wend applyFor_spec; [exact W3|rewrite (ch_failure _ _ C); auto|]. intros r w4 (W4&E4&P4&H4).
      assert (effect w w4) as E04 by by etrans.
      split_and!; [by eapply Wal_effect_Inv|done|]. intros Hv Hok4. destruct (H4 Hok4) as (X&Dur&He).
      assert (started w4 = true) by by apply (ef_started _ _ _ E04).
      split; [|by eauto|done|done]. intros y ip Hy _ Hip. rewrite (HD w4 Hv P4) in Hy. injection Hy as <-.
      split_and!; [by apply Hin|exact (ex_only _ _ X)|done].
    + wend applyOrStop_spec; [exact W3|]. intros r w4 (W4&E4&P4&H4). assert (effect w w4) as E04 by by etrans.
      split_and!; [by eapply Wal_effect_Inv|done|].
      intros Hv Hok4. destruct (H4 Hok4) as [Hco Hdur]. assert (started w4 = true) by by apply (ef_started _ _ _ E04).
      split; [|done|done|done]. intros y ip Hy _ Hip.
      rewrite (HD w4 Hv P4) in Hy. injection Hy as <-. split_and!; [by apply Hin|done|auto].
Qed.

Lemma changeLocked_spec v client allow startErr w : Inv w → (startErr = None → started w = true) →
  wp (changeLocked config v client allow startErr) (λ r w', Inv w' ∧ effect w w' ∧
    (v ≠ rootVolumeID → r = Ok tt → rechanged w' v client allow)) w.
Proof.
  intros Hi Hs. unfold changeLocked. wcall startRefuses_spec; [exact Hs|intros [] w' [-> Hst]|by intros x w' [-> _]].
  specialize (Hst eq_refl). clear Hs.
  wcall attempt_spec; [intros [] w1 U1|intros x w1 U1]; pose proof (used_Inv _ _ _ _ Hi U1) as I1;
    pose proof (used_effect config _ _ U1) as E1; [|done]. pose proof (ef_started _ _ _ E1 Hst) as S1.
  eapply (wp_call _ _ (λ r w2, shrinks config w1 w2 ∧ (r = Ok tt → allow = true → failure w1 = None))).
  { destruct allow; [|by apply wp_ret]. wend healthLocked_spec. intros r w2 (S2&_&H2). split; [done|]. intros Hr _. by destruct (H2 Hr). }
  2:{ intros x w2 [S2 _]. split_and!; [by eapply shrinks_Inv|etrans; [exact E1|by apply shrinks_effect]|done]. }
  intros [] w2 [S2 Hf]. specialize (Hf eq_refl). rewrite <- (sh_mgr _ _ _ S2) in Hf, S1. pose proof (shrinks_Inv _ _ _ _ I1 S2) as I2.
  assert (effect w w2) as E2 by (etrans; [exact E1|by apply shrinks_effect]). apply wp_bind, wp_reads.
  destruct (ds_Desired (mem w2) !! v) as [e0|] eqn:E0.
  2:{ destruct allow; [by apply wp_throw|]. apply wp_ret. split_and!; [done|done|]. intros _ _. split; [|done|done|done].
      intros e ip He. congruence. }
  apply wp_bind, wp_lift. destruct (changedClient e0 client allow) as [e|x] eqn:Ec; [|done]. apply changedClient_ok in Ec as Hr.
  destruct (ex_ACLEnabled e) eqn:Ea; cbn [negb].
  - wend commitClientChange_spec; [exact I2|exact S1|exact Hf|exact E0|exact Hr|exact Ea|].
    intros r w3 (I3&E3&H3). split_and!; [done|by etrans|done].
  - apply wp_ret. split_and!; [done|done|]. intros _ _. rewrite (rl_acl _ _ _ _ Hr) in Ea. split.
    + intros y ip Hy Hay. congruence.
    + by eauto.
    + done.
    + intros y _ Hy Hay. congruence.
Qed.

Lemma removeLocked_spec v startErr w : Inv w → (startErr = None → started w = true) →
  wp (removeLocked config v startErr) (λ r w', Inv w' ∧ effect w w' ∧
    (v ≠ rootVolumeID → r = Ok tt → Desired w' !! v = None ∧ conforms w' ∧ durable w')) w.
Proof.
  intros Hi Hs. unfold removeLocked. wcall startRefuses_spec; [exact Hs|intros [] w' [-> Hst]|by intros x w' [-> _]].
  specialize (Hst eq_refl). clear Hs.
  wcall attempt_spec; [intros [] w1 U1|intros x w1 U1]; pose proof (used_Inv _ _ _ _ Hi U1) as I1;
    pose proof (used_effect config _ _ U1) as E1; [|done]. pose proof (ef_started _ _ _ E1 Hst) as S1.
  wcall forget_spec; [exact (iv_on _ _ _ I1 S1)|intros [] w2 (_&W2&C2%edited_changed&D2)|by intros x w2 [? _]].
  wcall updateRoot_changed; [exact W2|intros [] w3 (_&W3&C3&D3)|by intros x w3 [? _]].
  apply wp_bind, wp_try. wend persist_changed; [exact W3|]. intros r w4 (W4&C4&M4&V4).
  assert (effect w w4) as E4.
  { etrans; [exact E1|]. apply changed_effect. etrans; [exact C2|]. by etrans. }
  destruct r as [[]|x].
  - wend applyOrStop_spec; [exact W4|]. intros r w5 (W5&E5&P5&H5). assert (effect w w5) as E05 by by etrans.
    split_and!; [by eapply Wal_effect_Inv|done|]. intros Hv Hr. destruct (H5 Hr) as [Hc Hd]. split_and!; [|done|auto].
    rewrite (pa_desired _ _ _ P5) by done. by rewrite M4, D3, D2, lookup_delete_eq.
  - wend failClosed_effect; [exact W4|]. intros r w5 (->&W5&E5&_). assert (effect w w5) as E05 by by etrans.
    split_and!; [by eapply Wal_effect_Inv|done|done].
Qed.

(** [Start], then the section with its error. *)
Lemma Start_then {A} (k : option go_error → M W go_error A) Q w : Inv w →
  (∀ (r : GoResult unit) w', Inv w' → effect w w' → (err_of r = None → started w' = true) → wp (k (err_of r)) Q w') →
  wp (r ← try (Start config); k (err_of r)) Q w.
Proof.
  intros Hi Hk. apply wp_bind, wp_try. wend Start_spec; [exact Hi|]. intros r w1 (I1&E1&H1). apply Hk; [done|done|].
  destruct r as [[]|]; [|done]. intros _. by apply H1.
Qed.

Lemma ChangeClient_spec v client allow w : Inv w →
  wp (ChangeClient config v client allow) (λ r w', Inv w' ∧ effect w w' ∧
    (v ≠ rootVolumeID → r = Ok tt → rechanged w' v client allow)) w.
Proof.
  intros Hi. unfold ChangeClient. wcall attempt_spec; [intros [] w1 U1|intros x w1 U1];
    pose proof (used_Inv _ _ _ _ Hi U1) as I1; pose proof (used_effect config _ _ U1) as E1; [|done].
  apply Start_then; [exact I1|]. intros r w2 I2 E2 H2. wend changeLocked_spec; [exact I2|exact H2|].
  intros r' w3 (I3&E3&H3). split_and!; [done| |done]. etrans; [exact E1|]. by etrans.
Qed.

Lemma Remove_spec v w : Inv w →
  wp (Remove config v) (λ r w', Inv w' ∧ effect w w' ∧
    (v ≠ rootVolumeID → r = Ok tt → Desired w' !! v = None ∧ conforms w' ∧ durable w')) w.
Proof.
  intros Hi. unfold Remove. wcall attempt_spec; [intros [] w1 U1|intros x w1 U1];
    pose proof (used_Inv _ _ _ _ Hi U1) as I1; pose proof (used_effect config _ _ U1) as E1; [|done].
  apply Start_then; [exact I1|]. intros r w2 I2 E2 H2. wend removeLocked_spec; [exact I2|exact H2|].
  intros r' w3 (I3&E3&H3). split_and!; [done| |done]. etrans; [exact E1|]. by etrans.
Qed.

(** ** Failures, shutdown, health *)

(** Assigning flags and errors keeps the invariant, as long as the manager
    stays as started as it was. *)
Lemma assign_spec f w : Inv w → (∀ m, mg_state (f m) = mg_state m ∧ mg_dir (f m) = mg_dir m ∧ mg_started (f m) = mg_started m ∧
    (mg_failure m ≠ None → mg_failure (f m) ≠ None)) →
  wp (on_mgr f) (λ r w', r = Ok tt ∧ Inv w' ∧ effect w w' ∧ mgr_of w' = f (mgr_of w) ∧ rows w' = rows w) w.
Proof.
  intros [Hd Hon Hoff] Hf. wend on_mgr_spec. intros r w' (->&R&E). destruct (Hf (mgr_of w)) as (E1&E2&E3&E4).
  split_and!; [done| | |done|done].
  - split; [by rewrite R, E, E2| |unfold idle; by rewrite E, E1, E2, E3].
    rewrite E, E3. intros Hs. destruct (Hon Hs). by split; rewrite ?R, ?E, ?E1, ?E2.
  - split; [intros x Hx _; by rewrite R|by rewrite E, E3|by rewrite E|by rewrite R].
Qed.

Lemma revokeOwned_Inv w : Inv w → started w = true →
  wp revokeOwned (λ r w', shrinks config w w' ∧ Inv w' ∧ (r = Ok tt → ∀ x, x ∈ rows w' → F x)) w.
Proof.
  intros Hi Hs. pose proof (iv_on _ _ _ Hi Hs) as Hw. wend (revokeOwned_spec config F); [exact (wal_state _ _ _ Hw)|].
  intros r w' [S H]. split_and!; [done|by eapply shrinks_Inv|]. intros Hr x Hx. specialize (H Hr x Hx).
  destruct (wal_rows _ _ _ Hw x) as [|[Ho _]]; [by apply (sh_rows _ _ _ S)|done|congruence].
Qed.

Lemma daemonFailed_spec err w : Inv w →
  wp (daemonFailed err) (λ _ w', Inv w' ∧ effect w w' ∧ (∀ x, x ∈ rows w' → x ∈ rows w)) w.
Proof.
  intros Hi. unfold daemonFailed. apply wp_bind, wp_reads. unfold id. destruct (mg_closed (mgr_of w)); [by apply wp_ret|].
  destruct (mg_started (mgr_of w)) eqn:Es; cbn [negb].
  - apply wp_bind, wp_try. wend revokeOwned_Inv; [exact Hi|exact Es|]. intros r1 w1 (S1&I1&_). apply wp_bind, wp_try.
    wend quiet_shrinks; [apply law_close|]. intros r2 w2 S2. pose proof (shrinks_Inv _ _ _ _ I1 S2) as I2.
    assert (shrinks config w w2) as S by by etrans.
    wend (assign_spec (λ m, set_failure m (Some err))); [exact I2|done|]. intros r w3 (_&I3&E3&_&R3).
    split_and!; [done|etrans; [by apply shrinks_effect|done]|rewrite R3; apply S].
  - wend (assign_spec (λ m, set_failure m (Some err))); [exact Hi|done|]. intros r w3 (_&I3&E3&_&R3).
    split_and!; [done|done|by rewrite R3].
Qed.

Lemma releaseLock_spec w : Inv w → wp releaseLock (λ _ w', Inv w' ∧ effect w w' ∧ rows w' = rows w) w.
Proof.
  intros Hi. unfold releaseLock. wcall (assign_spec (λ m, set_flags m false (mg_started m) (mg_closed m)));
    [exact Hi|done|intros [] w1 (_&I1&E1&_&R1)|by intros x w1 [? _]].
  wend attempt_spec. intros r w2 U2. split_and!; [by eapply used_Inv|etrans; [exact E1|by apply used_effect]|].
  destruct U2 as [-> _]. done.
Qed.

Lemma Close_spec w : Inv w →
  wp Close (λ r w', Inv w' ∧ effect w w' ∧ (∀ x, x ∈ rows w' → x ∈ rows w) ∧
    (r = Ok tt → mg_closed (mgr_of w) = false → started w = true → ∀ x, x ∈ rows w' → F x)) w.
Proof.
  intros Hi. unfold Close. apply wp_bind, wp_reads. unfold id. destruct (mg_closed (mgr_of w)) eqn:Ec.
  { destruct (mg_closeErr _); [apply wp_throw|apply wp_ret]; by split_and!. }
  wcall (assign_spec (λ m, set_flags m (mg_lock m) (mg_started m) true)); [exact Hi|done|intros [] w1 (_&I1&E1&M1&R1)|by intros x w1 [? _]].
  apply wp_bind. eapply (wp_mono _ (λ r w2, ∃ v, r = Ok v ∧ shrinks config w1 w2 ∧ Inv w2 ∧
    (err_of v = None → started w = true → ∀ x, x ∈ rows w2 → F x))).
  { destruct (mg_started (mgr_of w)) eqn:Es.
    - apply wp_try. wend revokeOwned_Inv; [exact I1|by rewrite M1|]. intros r w2 (S2&I2&H2). exists r. split_and!; [done|done|done|].
      destruct r as [[]|]; [|done]. intros _ _. by apply H2.
    - apply wp_ret. exists (Ok tt). by split_and!. }
  intros r w2 (v&->&S2&I2&H2). apply wp_bind, wp_try. wend quiet_shrinks; [apply law_close|]. intros c w3 S3.
  pose proof (shrinks_Inv _ _ _ _ I2 S3) as I3. apply wp_bind. eapply (wp_mono _ (λ r w4, ∃ u, r = Ok u ∧ Inv w4 ∧ effect w3 w4 ∧ rows w4 = rows w3)).
  { destruct (mg_lock (mgr_of w)); [apply wp_try; wend releaseLock_spec; [exact I3|]; intros r w4 ?; by exists r|].
    apply wp_ret. exists (Ok tt). by split_and!. }
  intros r w4 (u&->&I4&E4&R4). set (err := join_err _ _).
  wcall (assign_spec (λ m, set_errors m (mg_failure m) (mg_exportErrors m) err)); [exact I4|done|intros [] w5 (_&I5&E5&_&R5)|by intros x w5 [? _]].
  assert (effect w w5) as E05.
  { etrans; [exact E1|]. etrans; [by apply shrinks_effect|]. etrans; [by apply shrinks_effect|]. by etrans. }
  assert (∀ x, x ∈ rows w5 → x ∈ rows w2) as R25 by (intros x; rewrite R5, R4; apply S3).
  assert (∀ x, x ∈ rows w5 → x ∈ rows w) as R05 by (intros x Hx; rewrite <- R1; by apply S2, R25).
  destruct err eqn:Ee; [apply wp_throw; by split_and!|apply wp_ret]. split_and!; [done|done|done|].
  intros _ _ Hs x Hx. apply H2; [|done|by apply R25]. unfold err in Ee. destruct v as [[]|]; [done|]. done.
Qed.

Lemma Health_spec w : wp Health (λ r w', shrinks config w w' ∧ (r = Ok tt → started w = true ∧ failure w = None ∧ errs w = ∅)) w.
Proof.
  unfold Health. apply wp_bind, wp_try. wend healthLocked_spec. intros r w1 (S1&_&H1). apply wp_bind, wp_reads.
  destruct r as [[]|x]; cbn; [|by apply wp_throw]. destruct (H1 eq_refl) as [Hs Hf].
  destruct (map_to_list (errs w1)) as [|[i x] l] eqn:El; cbn; [apply wp_ret|by apply wp_throw].
  split; [done|]. intros _. split_and!; [done|done|]. rewrite <- (sh_mgr _ _ _ S1). by apply map_to_list_empty_iff.
Qed.
End Sections.
