(* ===== verification/NfsMemory.v ===== *)
(** * The export table in memory

    The runtime the unit tests of the manager use (memoryRuntime of
    manager_test.go): a list of rows, a liveness flag, and a fault that loses
    the acknowledgement of a grant or rejects every write.  It satisfies the
    laws the manager relies on, so that the theorems about the manager apply
    to a runtime that runs. *)
From stdpp Require Import base numbers list strings gmap.
From Stdlib Require Import Ascii.
From S2P Require Import Prelude GoStd GoNet GoNetip NfsManager NfsLaws.
Open Scope Z_scope.

(** ** The flags of an export *)

Definition optionFlags (e : Export) : list string :=
  [if ex_ReadOnly e then "ro" else "rw"; "sync"; "no_subtree_check"; "secure"; "sec=sys"; fsidFlag (fsid e);
   if decide (ex_Squash e = squashNone) then optionNoSquash
   else if decide (ex_Squash e = squashAll) then "all_squash" else optionRootSquash] ++
  (if negb (bool_decide (ex_VolumeID e = rootVolumeID)) && negb (bool_decide (ex_SourceKey e = ""))
      && negb (bool_decide (ex_FenceUID e = "")) then ["nohide"] else []).

Lemma options_split e : Split "," (options e) = optionFlags e.
Proof.
  unfold options, optionFlags. set (sq := if decide (ex_Squash e = squashNone) then _ else _).
  set (tr := _ && _ && _). set (mode := if ex_ReadOnly e then _ else _).
  assert (∀ m f t, m +:+ ",sync,no_subtree_check,secure,sec=sys,fsid=" +:+ f +:+ "," +:+ t =
    (m +:+ ",sync,no_subtree_check,secure,sec=sys") +:+ String "," (fsidFlag f +:+ String "," t)) as ->.
  { intros m f t. by rewrite string_app_assoc. }
  rewrite Split_app, (Split_sep "," (fsidFlag _)).
  2:{ unfold fsidFlag. rewrite bytes_of_string_app. intros [H|H]%elem_of_app; [|by apply (fsid_plain e)]. cbn in H. set_solver. }
  replace (Split "," (mode +:+ ",sync,no_subtree_check,secure,sec=sys")) with [mode; "sync"; "no_subtree_check"; "secure"; "sec=sys"]
    by (unfold mode; by destruct (ex_ReadOnly e)).
  assert (Split "," (sq +:+ (if tr then ",nohide" else "")) = sq :: (if tr then ["nohide"] else [])) as ->; [|done].
  unfold sq. destruct (decide (ex_Squash e = squashNone)), (decide (ex_Squash e = squashAll)), tr; done.
Qed.

(** What an export asks for names its own fsid alone. *)
Lemma options_only_fsid e : only_fsid (options e) (fsid e).
Proof.
  split.
  - unfold optionValue. rewrite options_split. unfold optionFlags. cbn [app firstValue].
    change ("fsid" +:+ "=") with "fsid=". unfold fsidFlag. rewrite CutPrefix_app. by destruct (ex_ReadOnly e).
  - rewrite options_split. unfold optionFlags. intros o Ho Hp.
    destruct (ex_ReadOnly e), (decide (ex_Squash e = squashNone)), (decide (ex_Squash e = squashAll)), (_ && _ && _);
      cbn in Ho; repeat (apply elem_of_cons in Ho as [-> |Ho]; [done|]); by apply elem_of_nil in Ho.
Qed.

(** ** The runtime *)

Record memory := {
  mr_mgr : manager;
  mr_rows : list entry;
  mr_alive : bool;
  mr_failGrant : bool;
  mr_rejectWrites : bool;
}.
Definition mr_set_mgr (m : manager) (w : memory) : memory :=
  {| mr_mgr := m; mr_rows := mr_rows w; mr_alive := mr_alive w; mr_failGrant := mr_failGrant w; mr_rejectWrites := mr_rejectWrites w |}.
Definition mr_set_rows (l : list entry) (w : memory) : memory :=
  {| mr_mgr := mr_mgr w; mr_rows := l; mr_alive := mr_alive w; mr_failGrant := mr_failGrant w; mr_rejectWrites := mr_rejectWrites w |}.
Definition mr_set_alive (b : bool) (w : memory) : memory :=
  {| mr_mgr := mr_mgr w; mr_rows := mr_rows w; mr_alive := b; mr_failGrant := mr_failGrant w; mr_rejectWrites := mr_rejectWrites w |}.

(** [slices.DeleteFunc] of the rows of a path and client *)
Definition without (path client : string) (l : list entry) : list entry := base.filter (λ x, row_key x ≠ (path, client)) l.

Definition memoryGrant (e : Export) (client : string) : M memory go_error unit := λ w,
  if mr_rejectWrites w then (Err (EPlain "kernel export table is not writable"), w)
  else
    let w := mr_set_rows (without (ex_Path e) client (mr_rows w) ++
                          [{| en_Path := ex_Path e; en_Client := client; en_Options := options e |}]) w in
    if mr_failGrant w then (Err (EPlain "lost grant acknowledgement"), w) else (Ok tt, w).
Definition memoryRevoke (path client : string) : M memory go_error unit := λ w,
  if mr_rejectWrites w then (Err (EPlain "kernel export table is not writable"), w)
  else (Ok tt, mr_set_rows (without path client (mr_rows w)) w).

#[export] Instance memoryHost : Host memory := {|
  mgr_of := mr_mgr; set_mgr := mr_set_mgr; map_order := map_to_list |}.
#[export] Instance memoryRuntime : Runtime memory := {|
  rt_identity := mret "boot/netns";
  rt_start := λ s w, StartSave {| hp_Identity := "boot/netns"; hp_TrackerPID := hp_TrackerPID (ds_helpers s);
    hp_TrackerStart := hp_TrackerStart (ds_helpers s); hp_MountdPID := hp_MountdPID (ds_helpers s);
    hp_MountdStart := hp_MountdStart (ds_helpers s) |} (mr_set_alive true w) (λ r w, StartDone r (ds_helpers (mg_state (mr_mgr w))) w);
  rt_list := reads mr_rows;
  rt_validateExport := λ _, mret tt;
  rt_grant := memoryGrant;
  rt_revoke := memoryRevoke;
  rt_health := λ w, (if mr_alive w then Ok tt else Err (EPlain "daemon unavailable"), w);
  rt_close := λ w, (Ok tt, mr_set_alive false w);
  EvalSymlinks := mret;
  StatIsDir := λ _, mret true;
  BeforeActivate := Some (λ _, mret tt);
|}.

#[export] Instance memoryLaws : NfsLaws memory.
Proof.
  refine {| rows := mr_rows |}; try done.
  - intros guard e [= <-] w. done.
  - by intros w l [= <-].
  - intros e c w. unfold rt_grant. cbn. unfold memoryGrant. destruct (mr_rejectWrites w); [by split_and!; [|left|]|].
    assert (∀ x, x ∈ without (ex_Path e) c (mr_rows w) ++ [{| en_Path := ex_Path e; en_Client := c; en_Options := options e |}] →
      x ∈ mr_rows w ∨ row_key x = (ex_Path e, c) ∧ only_fsid (en_Options x) (fsid e)) as H1.
    { intros x [[_ H]%list_elem_of_filter| ->%list_elem_of_singleton]%elem_of_app; [by left|right].
      split; [done|]. apply options_only_fsid. }
    assert (∀ x, x ∈ mr_rows w → row_key x ≠ (ex_Path e, c) →
      x ∈ without (ex_Path e) c (mr_rows w) ++ [{| en_Path := ex_Path e; en_Client := c; en_Options := options e |}]) as H2.
    { intros x Hx Hk. apply elem_of_app. left. by apply list_elem_of_filter. }
    destruct (mr_failGrant _); by split_and!.
  - intros p c w. unfold rt_revoke. cbn. unfold memoryRevoke. destruct (mr_rejectWrites w); [by split_and!|]. cbn.
    split_and!; [done| | |].
    + by intros x [_ H]%list_elem_of_filter.
    + intros x Hx Hk. by apply list_elem_of_filter.
    + intros _ x [H _]%list_elem_of_filter. done.
Defined.
