(* ===== verification/NfsTheorems.v ===== *)
(** * What the NFS manager guarantees

    Runs of the manager as sequences of critical sections, crashes and changes
    others make to the export table, and the theorems about every state such a
    run reaches: what owner.json must cover, what a successful operation
    leaves in the table, and that a recorded failure admits nothing more. *)
From stdpp Require Import base numbers list strings gmap relations.
From S2P Require Import Prelude GoStd GoNet GoNetip NfsManager NfsLaws NfsConverge NfsStart NfsSections NfsMemory.
Open Scope Z_scope.

(** A critical section of the manager, with the result of [Start] where one
    precedes it. *)
Inductive section :=
| SStart
| SPut (e : Export) (exact active : bool)
| SReject (e : Export) (err : go_error)
| SChange (volumeID client : string) (allow : bool) (startErr : option go_error)
| SRemove (volumeID : string) (startErr : option go_error)
| SFailed (err : go_error)
| SHealth
| SClose.

Section Runs.
Context {W : Type} `{HHost : Host W, HRuntime : Runtime W, HLaws : !NfsLaws W} (config : Config) (F : entry → Prop).
Implicit Types (w : W) (e : Export) (s : section).

Definition perform s : M W go_error unit :=
  match s with
  | SStart => Start config
  | SPut e exact active => putLocked config e exact active
  | SReject e err => rejectExport config e err
  | SChange v client allow startErr => changeLocked config v client allow startErr
  | SRemove v startErr => removeLocked config v startErr
  | SFailed err => daemonFailed err
  | SHealth => Health
  | SClose => Close
  end.

(** When a section can run: [Put] passes on a policy it normalized and
    validated, and [Start] returned nil only if the manager had started. *)
Definition enabled s w : Prop :=
  match s with
  | SPut e _ _ => ready config e
  | SChange _ _ _ None | SRemove _ None => mg_started (mgr_of w) = true
  | _ => True
  end.

(** The state directory after a crash that left the version [v]; its own entry
    is durable if there is one. *)
Definition survives (v : option ownerFile) (d : stateDir) : Prop :=
  sd_live d = v ∧ sd_pending d = [v] ∧ (sd_synced d = true ∨ v = None).

(** A section; or a crash; or what happens outside: others change the table,
    a check before a section uses the file system. *)
Inductive run_step w : W → Prop :=
| RunSection s w' : enabled s w → (perform s w).2 = w' → run_step w w'.
Inductive nfs_step w : W → Prop :=
| NfsRun w' : run_step w w' → nfs_step w w'
| NfsCrash w' v d faults : v ∈ versions (mg_dir (mgr_of w)) → survives v d → mgr_of w' = newManager d faults → rows w' = rows w → nfs_step w w'
| NfsOutside w' faults : mgr_of w' = set_dir (mgr_of w) (mg_dir (mgr_of w)) faults → (∀ x, x ∈ rows w' → x ∈ rows w ∨ F x) → nfs_step w w'.

(** A new agent: no state on disk, no row that is not foreign. *)
Definition fresh w : Prop :=
  (∃ d faults, mgr_of w = newManager d faults ∧ survives None d) ∧ ∀ x, x ∈ rows w → F x.
Definition reachable w : Prop := ∃ w0, fresh w0 ∧ rtc nfs_step w0 w.

Lemma perform_spec s w : Inv config F w → enabled s w →
  Inv config F (perform s w).2 ∧ effect config w (perform s w).2.
Proof.
  intros Hi He. destruct s; cbn in *.
  - destruct (Start_spec config F w Hi) as (?&?&_). done.
  - destruct (putLocked_spec config F e exact active w Hi He) as (?&?&_). done.
  - by destruct (rejectExport_spec config F e err w Hi) as (_&?&?).
  - destruct (changeLocked_spec config F volumeID client allow startErr w Hi) as (?&?&_); [|done].
    intros ->. exact He.
  - destruct (removeLocked_spec config F volumeID startErr w Hi) as (?&?&_); [|done]. intros ->. exact He.
  - destruct (daemonFailed_spec config F err w Hi) as (?&?&_). done.
  - destruct (Health_spec config w) as [S _]. split; [by eapply shrinks_Inv|by apply shrinks_effect].
  - destruct (Close_spec config F w Hi) as (?&?&_). done.
Qed.

Lemma survives_ok R v d : version_ok config F R v → survives v d → dir_ok config F R d.
Proof.
  intros Hv (E1&E2&E3). split; [|rewrite E1, E2; left]. unfold versions. rewrite E2. intros u.
  destruct (sd_synced d).
  - by intros ->%list_elem_of_singleton.
  - destruct E3 as [| ->]; [done|]. intros [->| ->%list_elem_of_singleton]%elem_of_cons; done.
Qed.
Lemma newManager_Inv w d faults : mgr_of w = newManager d faults → dir_ok config F (rows w) d → Inv config F w.
Proof. intros E Hd. split; rewrite ?E; [done|done|]. intros _ id _ [e He]. rewrite E in He. done. Qed.

Lemma covered_others L R R' : covered F L R → (∀ x, x ∈ R' → x ∈ R ∨ F x) → covered F L R'.
Proof. intros Hc HR x [Hx|Hx]%HR; [by apply Hc|by left]. Qed.
Lemma dir_ok_others R R' d : dir_ok config F R d → (∀ x, x ∈ R' → x ∈ R ∨ F x) → dir_ok config F R' d.
Proof.
  intros [Hv Hl] HR. split; [|done]. intros v Hin. specialize (Hv v Hin). destruct v as [[s|]|]; cbn in *.
  - destruct Hv. split; [done|by eapply covered_others].
  - intros x [Hx|Hx]%HR; auto.
  - intros x [Hx|Hx]%HR; auto.
Qed.

Lemma step_Inv w w' : Inv config F w → nfs_step w w' → Inv config F w'.
Proof.
  intros Hi [w1 [s w2 He <-]|w1 v d faults Hv Hs Em Er|w1 faults Em HR].
  - by apply perform_spec.
  - eapply newManager_Inv; [exact Em|]. rewrite Er. eapply survives_ok; [by apply (iv_dir _ _ _ Hi)|done].
  - destruct Hi as [Hd Hon Hoff]. split; rewrite ?Em; [by eapply dir_ok_others| |].
    + intros Hs. destruct (Hon Hs) as [H1 H2 H3]. split; rewrite ?Em; [by eapply dir_ok_others|done|by eapply covered_others].
    + intros Hs. unfold idle. rewrite Em. by apply Hoff.
Qed.
Lemma fresh_Inv w : fresh w → Inv config F w.
Proof. intros [(d&faults&E&Hs) HF]. eapply newManager_Inv; [exact E|]. by eapply survives_ok; [|exact Hs]. Qed.
Lemma reachable_Inv w : reachable w → Inv config F w.
Proof. intros (w0&H0&Hr). apply fresh_Inv in H0. induction Hr as [|w1 w2 w3 Hs _ IH]; [done|]. by apply IH, (step_Inv w1). Qed.
Lemma reachable_step w w' : reachable w → nfs_step w w' → reachable w'.
Proof. intros (w0&H0&Hr) Hs. exists w0. split; [done|]. by eapply rtc_r. Qed.

(** *** The operations are runs *)

Lemma used_steps w w' : used w w' → rtc nfs_step w w'.
Proof. intros [R [f E]]. apply rtc_once. eapply NfsOutside; [exact E|]. rewrite R. auto. Qed.
Lemma section_steps s w : enabled s w → rtc nfs_step w (perform s w).2.
Proof. intros He. apply rtc_once, NfsRun. by eapply RunSection. Qed.
Lemma quiet_steps {E A} (m : M W E A) w : quiet rows m → wp m (λ _ w', rtc nfs_step w w') w.
Proof.
  intros Hq. unfold wp. destruct (Hq w) as [Em ER]. apply rtc_once. apply NfsOutside with (mg_faults (mgr_of w)).
  - rewrite Em. by destruct (mgr_of w).
  - rewrite ER. auto.
Qed.

Lemma validatePut_quiet e : quiet rows (validatePut config e).
Proof.
  intros w. unfold validatePut. case_decide; [done|]. unfold mbind, M_bind, lift. destruct (ExportPath config (ex_Path e)); [|done].
  destruct (law_EvalSymlinks (ex_Path e) w) as [E1 R1]. destruct (EvalSymlinks (ex_Path e) w) as [[c|x] w1]; [|done].
  cbn in E1, R1. destruct (negb _); [done|].
  destruct (law_StatIsDir (ex_Path e) w1) as [E2 R2]. destruct (StatIsDir (ex_Path e) w1) as [[b|x] w2]; cbn in E2, R2; [|split; cbn; congruence].
  assert (mgr_of w2 = mgr_of w ∧ rows w2 = rows w) as [E02 R02] by (split; congruence). destruct (negb b); [done|].
  unfold validated. destruct (law_validateExport e w2) as [E3 R3]. destruct (rt_validateExport e w2) as [[u|i] w3]; cbn in E3, R3;
    assert (mgr_of w3 = mgr_of w ∧ rows w3 = rows w) as [E03 R03] by (split; congruence).
  - destruct (negb _); done.
  - by destruct i.
Qed.

(** A run that goes on after what [m] did. *)
Lemma steps_call {A C} (m : M W go_error A) (k : A → M W go_error C) P w : wp m P w →
  (∀ r w', P r w' → rtc nfs_step w w') → (∀ a w', P (Ok a) w' → wp (k a) (λ _ w'', rtc nfs_step w' w'') w') →
  wp (m ≫= k) (λ _ w', rtc nfs_step w w') w.
Proof.
  intros Hm Hr Hk. eapply wp_call; [exact Hm| |by eauto]. intros a w1 H1. eapply wp_mono; [by apply Hk|].
  intros r w2 H2. etrans; [by eapply Hr|exact H2].
Qed.

(** [Start], then a section with its error. *)
Lemma start_then_section (s : option go_error → section) w : Inv config F w →
  (∀ (r : GoResult unit) w', (err_of r = None → mg_started (mgr_of w') = true) → enabled (s (err_of r)) w') →
  wp (r ← try (Start config); perform (s (err_of r))) (λ _ w', rtc nfs_step w w') w.
Proof.
  intros Hi Hs. apply wp_bind, wp_try. apply wp_of_run. intros r w1 Hr.
  destruct (wp_run _ _ _ _ _ (Start_spec config F w Hi) Hr) as (_&_&H). unfold wp. trans w1.
  - pose proof (section_steps SStart w I) as S. cbn in S. by rewrite Hr in S.
  - apply section_steps, Hs. destruct r as [[]|]; [|done]. intros _. by apply H.
Qed.

(** Each operation is a run: a check, [Start] and its section. *)
Lemma ChangeClient_steps v client allow w : Inv config F w → wp (ChangeClient config v client allow) (λ _ w', rtc nfs_step w w') w.
Proof.
  intros Hi. unfold ChangeClient. eapply steps_call; [apply attempt_spec|intros r w'; apply used_steps|].
  intros [] w1 U1. apply (start_then_section (SChange v client allow)); [by eapply used_Inv|].
  intros r w' Hr. cbn. by destruct (err_of r); [|apply Hr].
Qed.
Lemma Remove_steps v w : Inv config F w → wp (Remove config v) (λ _ w', rtc nfs_step w w') w.
Proof.
  intros Hi. unfold Remove. eapply steps_call; [apply attempt_spec|intros r w'; apply used_steps|].
  intros [] w1 U1. apply (start_then_section (SRemove v)); [by eapply used_Inv|].
  intros r w' Hr. cbn. by destruct (err_of r); [|apply Hr].
Qed.
Lemma Put_steps e exact active w : Inv config F w → wp (Put config e exact active) (λ _ w', rtc nfs_step w w') w.
Proof.
  intros Hi. unfold Put. eapply steps_call; [apply attempt_spec|intros r w'; apply used_steps|].
  intros [] w1 U1. pose proof (used_Inv _ _ _ _ Hi U1) as I1. apply wp_bind, wp_lift.
  destruct (normalized e) as [e'|x] eqn:En; [|done]. apply normalized_ok in En.
  apply wp_bind, wp_try. eapply wp_of_run. intros v w2 Hv.
  assert (rtc nfs_step w1 w2) as S2. { pose proof (quiet_steps _ w1 (validatePut_quiet e')) as Q. unfold wp in Q. by rewrite Hv in Q. }
  destruct (wp_run _ _ _ _ _ (validatePut_spec config F e' w1 I1) Hv) as (I2&_&H2).
  cut (wp match v with
    | Ok _ => (if active then Start config else mret tt) ;; putLocked config e' exact active
    | Err err => if active then rejectExport config e' err else throw err end (λ _ w', rtc nfs_step w2 w') w2).
  { intros H. eapply wp_mono; [exact H|]. intros r w3 S3. by etrans. }
  destruct v as [[]|err].
  - destruct (H2 eq_refl) as [Hid Hp]. assert (ready config e') as Hr by (split; [apply En|done|done]).
    destruct active.
    + eapply (steps_call _ _ (λ _ w', rtc nfs_step w2 w')); [apply (section_steps SStart); done|done|].
      intros [] w3 S3. by apply (section_steps (SPut e' exact true)).
    + apply wp_bind, wp_ret. by apply (section_steps (SPut e' exact false)).
  - destruct active; [|by apply wp_throw]. by apply (section_steps (SReject e' err)).
Qed.

Lemma run_reachable {A} (m : M W go_error A) w :
  (Inv config F w → wp m (λ _ w', rtc nfs_step w w') w) → reachable w → reachable (m w).2.
Proof. intros Hm Hw. pose proof (Hm (reachable_Inv w Hw)) as Hs. destruct Hw as (w0&H0&Hr). exists w0. split; [done|]. by etrans. Qed.
End Runs.

(** ** The theorems *)

Section Theorems.
Context {W : Type} `{HHost : Host W, HRuntime : Runtime W, HLaws : !NfsLaws W} (config : Config) (F : entry → Prop).
Implicit Types (w : W) (e : Export).

(** C5: Whatever ran, failed or crashed, every row of the export table is foreign
    or owned by the ledger of each version of owner.json a crash could leave
    now, and by the ledger in memory once the manager has started. *)
Theorem nfs_rows_always_owned w : reachable config F w →
  (∀ v x, v ∈ versions (mg_dir (mgr_of w)) → x ∈ rows w →
    F x ∨ ∃ d, v = Some (OwnerState d) ∧ owns (ds_Ledger d) x = true) ∧
  (∀ x, mg_started (mgr_of w) = true → x ∈ rows w → F x ∨ owns (ds_Ledger (mg_state (mgr_of w))) x = true).
Proof.
  intros [[Hd _] Hon _]%reachable_Inv. split.
  - intros v x Hv Hx. specialize (Hd v Hv). destruct v as [[d|]|]; cbn in Hd; [|by left; apply Hd..].
    destruct Hd as [_ Hc]. destruct (Hc x Hx) as [|[Ho _]]; [by left|right]. by exists d.
  - intros x Hs Hx. destruct (wal_rows _ _ _ (Hon Hs) x Hx) as [|[Ho _]]; [by left|by right].
Qed.

(** C29: Every state on disk is well formed: the policies are keyed by their volume,
    no two share a path, only the pseudoroot is at the export root, the others
    below it, and every client is the canonical text of a single host address:
    numeric, without a zone, not multicast, IPv4 never mapped, and unspecified
    only as "0.0.0.0". *)
Theorem nfs_owner_well_formed w d : reachable config F w → Some (OwnerState d) ∈ versions (mg_dir (mgr_of w)) → state_ok config d.
Proof. intros [[Hd _] _ _]%reachable_Inv Hv. by apply (Hd _ Hv). Qed.

(** A manager that comes up with nothing against it has the table its policy
    asks for, on disk as in memory. *)
Theorem nfs_start_converges w w' : reachable config F w → mg_started (mgr_of w) = false → Start config w = (Ok tt, w') →
  (∀ x, x ∈ rows w' → F x ∨ admitted w' x) ∧
  (∀ id e c, ds_Desired (mg_state (mgr_of w')) !! id = Some e → available w' id → c ∈ clients e →
    ∃ x, x ∈ rows w' ∧ row_key x = (ex_Path e, c) ∧ optionsMatch (en_Options x) (options e) = true) ∧
  versions (mg_dir (mgr_of w')) = [Some (OwnerState (mg_state (mgr_of w')))].
Proof.
  intros Hi%reachable_Inv Hs Hr. destruct (wp_run _ _ _ _ _ (Start_spec config F w Hi) Hr) as (_&_&H).
  destruct (H eq_refl) as (_&_&H'). destruct (H' Hs) as ([X1 X2]&?). done.
Qed.

(** C12: A [Put] that returns nil has put the normalized policy in force: it is
    recorded, its clients are in the table with its options, and at its path
    the table has no other row but foreign ones. *)
Theorem nfs_put_enforced w w' e exact : reachable config F w → Put config e exact true w = (Ok tt, w') →
  ∃ e' p, normalized e = Ok e' ∧ ds_Desired (mg_state (mgr_of w')) !! ex_VolumeID e = Some p ∧ records e' exact p ∧
    (∀ c, c ∈ clients p → ∃ x, x ∈ rows w' ∧ row_key x = (ex_Path e, c) ∧ optionsMatch (en_Options x) (options p) = true) ∧
    (∀ x, x ∈ rows w' → en_Path x = ex_Path e → F x ∨ en_Client x ∈ clients p ∧ optionsMatch (en_Options x) (options p) = true) ∧
    versions (mg_dir (mgr_of w')) = [Some (OwnerState (mg_state (mgr_of w')))].
Proof.
  intros Hi%reachable_Inv Hr. destruct (wp_run _ _ _ _ _ (Put_spec config F e exact true w Hi) Hr) as (I'&_&H).
  destruct (H eq_refl eq_refl) as (e'&Hn&[(p&Hp&Hrec&Hact) Hu [X1 X2] Hd Hs]). exists e', p.
  pose proof (normalized_ok _ _ Hn) as Hne. rewrite (nz_id _ _ Hne) in Hp, Hu.
  assert (ex_Path p = ex_Path e) as Hpath by (rewrite (rc_path _ _ _ Hrec); apply Hne).
  split_and!; [done|done|done| | |done].
  - intros c Hc. rewrite <- Hpath. eapply X2; [exact Hp|by right|done].
  - intros x Hx Hxp. destruct (X1 x Hx) as [|(id&y&Hy&_&Hyp&Hc&Hm)]; [by left|right].
    assert (id = ex_VolumeID e) as ->; [|by simplify_eq].
    eapply (so_path _ _ (wal_state _ _ _ (iv_on _ _ _ I' Hs))); [exact Hy|exact Hp|congruence].
Qed.

(** C10: A client that was denied is out: an access-controlled export that is still
    in the policy does not list it, and no row but a foreign one admits it to
    the export's path. *)
Theorem nfs_deny_withdraws w w' v client e ip : reachable config F w → v ≠ rootVolumeID →
  ChangeClient config v client false w = (Ok tt, w') →
  ds_Desired (mg_state (mgr_of w')) !! v = Some e → ex_ACLEnabled e = true → unicastAddress client = Ok ip →
  (AddrString ip ∉ ex_Clients e) ∧ (∀ x, x ∈ rows w' → row_key x = (ex_Path e, AddrString ip) → F x) ∧
  versions (mg_dir (mgr_of w')) = [Some (OwnerState (mg_state (mgr_of w')))].
Proof.
  intros Hi%reachable_Inv Hv Hr He Ha Hip.
  destruct (wp_run _ _ _ _ _ (ChangeClient_spec config F v client false w Hi) Hr) as (I'&_&H).
  destruct (H Hv eq_refl) as [Hp _ Hs _]. destruct (Hp e ip He Ha Hip) as (Hin&Hc&Hd).
  assert (AddrString ip ∉ ex_Clients e) as Hout by (intros Hc'; by apply Hin in Hc').
  split_and!; [done| |done]. intros x Hx Hk. destruct (Hc x Hx) as [|(id&y&Hy&_&Hyp&Hcl&_)]; [done|exfalso].
  injection Hk as Hk1 Hk2. assert (id = v) as ->.
  { eapply (so_path _ _ (wal_state _ _ _ (iv_on _ _ _ I' Hs))); [exact Hy|exact He|congruence]. }
  simplify_eq. unfold clients in Hcl. rewrite Ha in Hcl. destruct (negb (ex_Active e)); [by apply elem_of_nil in Hcl|].
  cbn in Hcl. congruence.
Qed.

(** A volume that was removed is out: its policy is gone, in memory and on
    disk, and every row left is foreign or admitted by another policy. *)
Theorem nfs_remove_withdraws w w' v : reachable config F w → v ≠ rootVolumeID → Remove config v w = (Ok tt, w') →
  ds_Desired (mg_state (mgr_of w')) !! v = None ∧
  (∀ x, x ∈ rows w' → F x ∨ ∃ id e, id ≠ v ∧ ds_Desired (mg_state (mgr_of w')) !! id = Some e ∧
    ex_Path e = en_Path x ∧ en_Client x ∈ clients e ∧ optionsMatch (en_Options x) (options e) = true) ∧
  versions (mg_dir (mgr_of w')) = [Some (OwnerState (mg_state (mgr_of w')))].
Proof.
  intros Hi%reachable_Inv Hv Hr. destruct (wp_run _ _ _ _ _ (Remove_spec config F v w Hi) Hr) as (_&_&H).
  destruct (H Hv eq_refl) as (HD&Hc&Hd). split_and!; [done| |done].
  intros x Hx. destruct (Hc x Hx) as [|(id&e&He&_&?&?&?)]; [by left|right]. exists id, e. split_and!; [congruence|done..].
Qed.

(** C28: A recorded failure is final for this process: whatever sections run after
    it, the table gains no row and the failure stays. *)
Theorem nfs_failure_admits_nothing w w' : reachable config F w → mg_failure (mgr_of w) ≠ None →
  rtc (run_step config) w w' → mg_failure (mgr_of w') ≠ None ∧ ∀ x, x ∈ rows w' → x ∈ rows w.
Proof.
  intros Hi%reachable_Inv Hf Hr. induction Hr as [w|w w1 w2 [s w1' He <-] _ IH]; [done|].
  destruct (perform_spec config F s w Hi He) as [I1 E1]. destruct IH as [Hf2 HR]; [done|by apply (ef_failure _ _ _ E1)|].
  split; [done|]. intros x Hx. by apply (ef_secure _ _ _ E1 Hf), HR.
Qed.

(** Rows outside the export tree are no concern of the manager: no section
    removes one, whatever fails. *)
Theorem nfs_foreign_untouched w w' x : reachable config F w → rtc (run_step config) w w' →
  x ∈ rows w → ¬ in_tree config (en_Path x) → x ∈ rows w'.
Proof.
  intros Hi%reachable_Inv Hr Hx Hp. induction Hr as [w|w w1 w2 [s w1' He <-] _ IH]; [done|].
  destruct (perform_spec config F s w Hi He) as [I1 E1]. apply IH; [done|]. by apply (ef_keeps _ _ _ E1).
Qed.

(** [Close] of a running manager that returns nil leaves no row but foreign
    ones. *)
Theorem nfs_close_withdraws w w' : reachable config F w → mg_started (mgr_of w) = true → mg_closed (mgr_of w) = false →
  Close w = (Ok tt, w') → ∀ x, x ∈ rows w' → F x.
Proof.
  intros Hi%reachable_Inv Hs Hc Hr. destruct (wp_run _ _ _ _ _ (Close_spec config F w Hi) Hr) as (_&_&_&H). by apply H.
Qed.
End Theorems.

(** ** A run *)

Definition demo_config : Config := {|
  cf_StateDir := "/var/lib/pillar/nfs"; cf_BindAddress := "192.0.2.10"; cf_ExportRoot := "/var/lib/pillar/datasets";
  cf_bind := {| ad_bytes := [192; 0; 2; 10]; ad_zone := "" |} |}.
Definition demo_foreign : entry := {| en_Path := "/srv/home"; en_Client := "192.0.2.99"; en_Options := "rw,sync,fsid=7" |}.
Definition demo_export : Export := {|
  ex_VolumeID := "tank/pvc-1"; ex_Path := "/var/lib/pillar/datasets/pvc-1"; ex_BindAddress := "192.0.2.10"; ex_Version := "";
  ex_Squash := ""; ex_ReadOnly := false; ex_ACLEnabled := true; ex_Clients := ["192.0.2.21"; "::ffff:192.0.2.20"];
  ex_Active := false; ex_SourceKey := ""; ex_FenceUID := "" |}.
Definition demo_host (d : stateDir) (R : list entry) : memory := {|
  mr_mgr := newManager d []; mr_rows := R; mr_alive := false; mr_failGrant := false; mr_rejectWrites := false |}.
Definition demo_dir : stateDir := {| sd_live := None; sd_pending := [None]; sd_synced := false |}.
Definition demo0 : memory := demo_host demo_dir [demo_foreign].
Definition demo1 : memory := (Put demo_config demo_export true true demo0).2.
Definition demo2 : memory := (ChangeClient demo_config "tank/pvc-1" "192.0.2.20" false demo1).2.
Definition demo3 : memory := (Remove demo_config "tank/pvc-1" demo2).2.
(** The acknowledgement of a grant is lost. *)
Definition demo_lossy : memory := {|
  mr_mgr := newManager demo_dir []; mr_rows := [demo_foreign]; mr_alive := false; mr_failGrant := true; mr_rejectWrites := false |}.
Definition demo_failed : memory := (Put demo_config demo_export true true demo_lossy).2.
Definition demo_F (x : entry) : Prop := x = demo_foreign.
Abbreviation demo_reachable := (reachable demo_config demo_F).

Lemma demo_config_new : NewManager "/var/lib/pillar/nfs" "192.0.2.10" "" = Ok demo_config.
Proof. reflexivity. Qed.
Lemma demo_fresh w : mgr_of w = newManager demo_dir [] → rows w = [demo_foreign] → demo_reachable w.
Proof.
  intros Em ER. exists w. split; [|done]. split.
  - exists demo_dir, []. split; [done|]. split_and!; [done|done|by right].
  - rewrite ER. by intros x ?%list_elem_of_singleton.
Qed.
Lemma demo0_reachable : demo_reachable demo0.
Proof. by apply demo_fresh. Qed.
Lemma demo1_reachable : demo_reachable demo1.
Proof. apply (run_reachable _ _ (Put demo_config demo_export true true)); [intros Hi; by apply Put_steps|apply demo0_reachable]. Qed.
Lemma demo2_reachable : demo_reachable demo2.
Proof.
  apply (run_reachable _ _ (ChangeClient demo_config "tank/pvc-1" "192.0.2.20" false)); [intros Hi; by apply ChangeClient_steps|].
  apply demo1_reachable.
Qed.
Lemma demo_failed_reachable : demo_reachable demo_failed.
Proof. apply (run_reachable _ _ (Put demo_config demo_export true true)); [intros Hi; by apply Put_steps|by apply demo_fresh]. Qed.

Abbreviation demo_desired w := (ds_Desired (mg_state (mgr_of w))).
(** The export as it is recorded after the denial. *)
Definition demo_policy : Export := {|
  ex_VolumeID := "tank/pvc-1"; ex_Path := "/var/lib/pillar/datasets/pvc-1"; ex_BindAddress := "192.0.2.10"; ex_Version := "4.2";
  ex_Squash := "root"; ex_ReadOnly := false; ex_ACLEnabled := true; ex_Clients := ["192.0.2.21"];
  ex_Active := true; ex_SourceKey := ""; ex_FenceUID := "" |}.
Definition demo_removal : section := SRemove "tank/pvc-1" (Some (EPlain "failed")).

Lemma nfs_rows_always_owned_witness :
  Forall (λ x, demo_F x ∨ owns (ds_Ledger (mg_state (mgr_of demo1))) x = true) (rows demo1).
Proof. apply Forall_forall. intros x. exact (proj2 (nfs_rows_always_owned demo_config demo_F demo1 demo1_reachable) x ltac:(vm_compute; reflexivity)). Defined.
Lemma nfs_owner_well_formed_witness : state_ok demo_config (mg_state (mgr_of demo1)).
Proof. apply (nfs_owner_well_formed demo_config demo_F demo1 _ demo1_reachable). vm_compute. left. Defined.
Lemma nfs_start_converges_witness : Forall (λ x, demo_F x ∨ admitted (Start demo_config demo0).2 x) (rows (Start demo_config demo0).2).
Proof.
  apply Forall_forall.
  refine (proj1 (nfs_start_converges demo_config demo_F demo0 (Start demo_config demo0).2 demo0_reachable _ _)); vm_compute; reflexivity.
Defined.
Lemma nfs_put_enforced_witness : ∃ p, demo_desired demo1 !! "tank/pvc-1" = Some p ∧
  ∀ c, c ∈ clients p → ∃ x, x ∈ rows demo1 ∧ row_key x = (ex_Path demo_export, c).
Proof.
  destruct (nfs_put_enforced demo_config demo_F demo0 demo1 demo_export true demo0_reachable) as (e'&p&_&Hp&_&Hc&_); [vm_compute; reflexivity|].
  exists p. split; [exact Hp|]. intros c Hin. destruct (Hc c Hin) as (x&Hx&Hk&_). exists x. exact (conj Hx Hk).
Defined.
Lemma nfs_deny_withdraws_witness : Forall (λ x, row_key x = (ex_Path demo_policy, "192.0.2.20") → demo_F x) (rows demo2).
Proof.
  apply Forall_forall.
  refine (proj1 (proj2 (nfs_deny_withdraws demo_config demo_F demo1 demo2 "tank/pvc-1" "192.0.2.20" demo_policy
    {| ad_bytes := [192; 0; 2; 20]; ad_zone := "" |} demo1_reachable _ _ _ _ _))); [done|vm_compute; reflexivity..].
Defined.
Lemma nfs_remove_withdraws_witness : demo_desired demo3 !! "tank/pvc-1" = None.
Proof.
  refine (proj1 (nfs_remove_withdraws demo_config demo_F demo2 demo3 "tank/pvc-1" demo2_reachable _ _)); [done|vm_compute; reflexivity].
Defined.
Lemma nfs_failure_admits_nothing_witness : Forall (λ x, x ∈ rows demo_failed) (rows (perform demo_config demo_removal demo_failed).2).
Proof.
  apply Forall_forall.
  refine (proj2 (nfs_failure_admits_nothing demo_config demo_F demo_failed (perform demo_config demo_removal demo_failed).2
    demo_failed_reachable _ _)); [vm_compute; discriminate|].
  exact (rtc_once _ _ (RunSection demo_config demo_failed demo_removal _ I eq_refl)).
Defined.
Lemma nfs_foreign_untouched_witness : demo_foreign ∈ rows (perform demo_config SClose demo1).2.
Proof.
  refine (nfs_foreign_untouched demo_config demo_F demo1 (perform demo_config SClose demo1).2 demo_foreign demo1_reachable
    (rtc_once _ _ (RunSection demo_config demo1 SClose _ I eq_refl)) _ _); [vm_compute; left|].
  intros [H|H]; vm_compute in H; discriminate.
Defined.
Lemma nfs_close_withdraws_witness : Forall demo_F (rows (Close demo1).2).
Proof.
  apply Forall_forall.
  refine (nfs_close_withdraws demo_config demo_F demo1 (Close demo1).2 demo1_reachable _ _ _); vm_compute; reflexivity.
Defined.

(** *** An address the manager accepts and then rejects *)

Definition demo_mapped : Export := {|
  ex_VolumeID := "tank/pvc-1"; ex_Path := "/var/lib/pillar/datasets/pvc-1"; ex_BindAddress := "192.0.2.10"; ex_Version := "";
  ex_Squash := ""; ex_ReadOnly := false; ex_ACLEnabled := true; ex_Clients := ["::ffff:0.0.0.0"];
  ex_Active := false; ex_SourceKey := ""; ex_FenceUID := "" |}.
Definition demo_mapped_state : memory := (Put demo_config demo_mapped true true demo0).2.
Definition demo_restarted (w : memory) : memory := demo_host (mg_dir (mgr_of w)) (rows w).

(** C39: The IPv4-mapped unspecified address passes for a unicast one and is stored
    as 0.0.0.0, which does not: [Put] succeeds, and a manager started on what
    it wrote refuses the whole ownership record. *)
Theorem nfs_mapped_unspecified_locks_out :
  (Put demo_config demo_mapped true true demo0).1 = Ok tt ∧
  is_ok (Start demo_config (demo_restarted demo_mapped_state)).1 = false ∧
  is_ok (Start demo_config (demo_restarted demo1)).1 = true.
Proof. split_and!; vm_compute; reflexivity. Qed.
