(* ===== verification/Drain.v ===== *)
(** * Draining the agent (internal/agent/server_drain.go)

    Requests and Drain calls run at the same time, each on its own goroutine.
    A state holds the shared variables ([drained], the reader-writer lock
    [drainGate], the table [targetMu], the marker file) and the point every
    goroutine has reached: in [DrainGuardInterceptor] and its handler for a
    request, in [Drain] for a drain call.  [step] executes one atomic action
    of one of them; a schedule is a list of actions, so a statement about all
    schedules covers all interleavings.

    [drainGate] is Go's: a writer first announces itself, which stops new
    readers, and then waits for those already in.  A handler takes its target
    locks in batches, as [lockTargets] does: in their order, held together and
    released backwards before the next batch.  A target mutex is held when a
    goroutine is between its Lock and its Unlock.  What else a handler does
    (commands, devices, the other mutexes) is part of its actions, which end.
    The marker may be there from an earlier process. *)
From stdpp Require Import base numbers list list_numbers sorting.
From S2P Require Import Prelude.

(** ** Goroutines *)

(** Target locks are numbered in the order of their keys. *)
Abbreviation batch := (list nat) (only parsing).

(** [DrainGuardInterceptor]: the first load of [drained], taking the read
    lock, the second load, the handler with the target locks it holds, those
    it still takes in this batch, and its further batches; the release of
    the read lock. *)
Inductive rpc_pc :=
| RLoad (batches : list batch)
| RRLock (batches : list batch)
| RLoadLocked (batches : list batch)
| RHandler (held want : list nat) (batches : list batch)
| RRUnlock (served : bool)
| RReturned (served : bool).
(** [Drain]: the swap, the two steps of taking the write lock, the sweep over
    the target locks (to take one, or holding it), writing the marker, the
    release, the answer ([WasAlreadyDrained], or the error of the marker). *)
Inductive drain_pc :=
| DSwap | DLock | DWait
| DSweep (todo : list nat)
| DSwept (l : nat) (todo : list nat)
| DMarker
| DUnlock (marked : bool)
| DReturned (already marked : bool).

Record drain_state := {
  drained : bool;
  gate_readers : nat;
  gate_writer : bool;
  targetMu : list nat;
  marker : bool;
  rpcs : list rpc_pc;
  drains : list drain_pc;
}.

(** How writing the marker ends: it may fail and leave the file behind. *)
Inductive marker_io := MarkerWritten | MarkerFailed (created : bool).
Definition marker_ok (io : marker_io) : bool := match io with MarkerWritten => true | MarkerFailed _ => false end.
Definition marker_there (io : marker_io) : bool := match io with MarkerWritten => true | MarkerFailed created => created end.

Inductive action :=
| NewRpc (batches : list batch)  (* a request arrives *)
| NewDrain                       (* a Drain call arrives *)
| RpcStep (i : nat)              (* request [i] takes its next action *)
| DrainStep (j : nat) (io : marker_io). (* drain call [j] takes its next action *)

(** A new process, with or without the marker of an earlier one. *)
Definition initial (stale : bool) : drain_state := {|
  drained := false; gate_readers := 0; gate_writer := false; targetMu := []; marker := stale; rpcs := []; drains := [] |}.

Definition set_rpc (s : drain_state) (i : nat) (pc : rpc_pc) (readers : nat) (known : list nat) : drain_state := {|
  drained := drained s; gate_readers := readers; gate_writer := gate_writer s; targetMu := known; marker := marker s;
  rpcs := <[i := pc]> (rpcs s); drains := drains s |}.
Definition set_drain (s : drain_state) (j : nat) (pc : drain_pc) (d w m : bool) : drain_state := {|
  drained := d; gate_readers := gate_readers s; gate_writer := w; targetMu := targetMu s; marker := m;
  rpcs := rpcs s; drains := <[j := pc]> (drains s) |}.

(** ** Target locks *)

(** [slices.Sort] and [slices.Compact] on the keys of a batch. *)
Fixpoint insertKey (x : nat) (l : list nat) : list nat :=
  match l with
  | [] => [x]
  | y :: l => if (x <? y)%nat then x :: y :: l else if (x =? y)%nat then y :: l else y :: insertKey x l
  end.
Definition lockOrder (ids : batch) : list nat := foldr insertKey [] ids.

Definition holds_target (l : nat) (pc : rpc_pc) : bool := match pc with RHandler held _ _ => bool_decide (l ∈ held) | _ => false end.
Definition sweeps_target (l : nat) (pc : drain_pc) : bool := match pc with DSwept l' _ => (l' =? l)%nat | _ => false end.
Definition target_locked (s : drain_state) (l : nat) : bool := existsb (holds_target l) (rpcs s) || existsb (sweeps_target l) (drains s).
(** [LoadOrStore] *)
Definition load_or_store (l : nat) (known : list nat) : list nat := if bool_decide (l ∈ known) then known else known ++ [l].

(** The next action of a handler: its next lock, or with all of them its work
    and the release of the last one, or its next batch, or its return. *)
Definition handler_step (s : drain_state) (held want : list nat) (batches : list batch) : option (rpc_pc * list nat) :=
  match want, held, batches with
  | l :: want, _, _ => if target_locked s l then None else Some (RHandler (held ++ [l]) want batches, load_or_store l (targetMu s))
  | [], _ :: _, _ => Some (RHandler (removelast held) [] batches, targetMu s)
  | [], [], b :: batches => Some (RHandler [] (lockOrder b) batches, targetMu s)
  | [], [], [] => Some (RRUnlock true, targetMu s)
  end.

(** One action of a request; [None] while it is blocked or has returned. *)
Definition rpc_step (s : drain_state) (i : nat) : option drain_state :=
  pc ← rpcs s !! i;
  match pc with
  | RLoad bs => Some (set_rpc s i (if drained s then RReturned false else RRLock bs) (gate_readers s) (targetMu s))
  | RRLock bs => if gate_writer s then None else Some (set_rpc s i (RLoadLocked bs) (S (gate_readers s)) (targetMu s))
  | RLoadLocked bs => Some (set_rpc s i (if drained s then RRUnlock false else RHandler [] [] bs) (gate_readers s) (targetMu s))
  | RHandler held want bs => '(pc', known) ← handler_step s held want bs; Some (set_rpc s i pc' (gate_readers s) known)
  | RRUnlock served => Some (set_rpc s i (RReturned served) (pred (gate_readers s)) (targetMu s))
  | RReturned _ => None
  end.

(** One action of a drain call. *)
Definition drain_step (s : drain_state) (j : nat) (io : marker_io) : option drain_state :=
  pc ← drains s !! j;
  match pc with
  | DSwap => Some (set_drain s j (if drained s then DReturned true false else DLock) true (gate_writer s) (marker s))
  | DLock => if gate_writer s then None else Some (set_drain s j DWait (drained s) true (marker s))
  | DWait => if (gate_readers s =? 0)%nat then Some (set_drain s j (DSweep (targetMu s)) (drained s) (gate_writer s) (marker s)) else None
  | DSweep [] => Some (set_drain s j DMarker (drained s) (gate_writer s) (marker s))
  | DSweep (l :: todo) => if target_locked s l then None else Some (set_drain s j (DSwept l todo) (drained s) (gate_writer s) (marker s))
  | DSwept _ todo => Some (set_drain s j (DSweep todo) (drained s) (gate_writer s) (marker s))
  | DMarker => Some (set_drain s j (DUnlock (marker_ok io)) (drained s) (gate_writer s) (marker s || marker_there io))
  | DUnlock marked => Some (set_drain s j (DReturned false marked) (drained s) false (marker s))
  | DReturned _ _ => None
  end.

Definition step (a : action) (s : drain_state) : option drain_state :=
  match a with
  | NewRpc bs => Some {| drained := drained s; gate_readers := gate_readers s; gate_writer := gate_writer s; targetMu := targetMu s;
                         marker := marker s; rpcs := rpcs s ++ [RLoad bs]; drains := drains s |}
  | NewDrain => Some {| drained := drained s; gate_readers := gate_readers s; gate_writer := gate_writer s; targetMu := targetMu s;
                        marker := marker s; rpcs := rpcs s; drains := drains s ++ [DSwap] |}
  | RpcStep i => rpc_step s i
  | DrainStep j io => drain_step s j io
  end.

(** A schedule; actions that are blocked are skipped. *)
Fixpoint run (l : list action) (s : drain_state) : drain_state :=
  match l with
  | [] => s
  | a :: l => run l (default s (step a s))
  end.

(** ** Lists *)

Lemma sum_insert {A} (f : A → nat) l i x y : l !! i = Some x →
  (sum_list_with f (<[i := y]> l) + f x = sum_list_with f l + f y)%nat.
Proof.
  revert i. induction l as [|z l IH]; intros [|i] Hx; try done.
  - injection Hx as ->. cbn. lia.
  - specialize (IH i Hx). change (<[S i := y]> (z :: l)) with (z :: <[i := y]> l). cbn. lia.
Qed.
Lemma sum_lookup {A} (f : A → nat) l i x : l !! i = Some x → (f x ≤ sum_list_with f l)%nat.
Proof. revert i. induction l as [|z l IH]; intros [|i] Hx; try done; cbn; [injection Hx as ->|specialize (IH i Hx)]; lia. Qed.
Lemma sum_snoc {A} (f : A → nat) l x : sum_list_with f (l ++ [x]) = (sum_list_with f l + f x)%nat.
Proof. rewrite sum_list_with_app. cbn. lia. Qed.
Lemma sum_pos {A} (f : A → nat) l : (0 < sum_list_with f l)%nat → ∃ i x, l !! i = Some x ∧ (0 < f x)%nat.
Proof.
  induction l as [|z l IH]; cbn; [lia|]. intros H. destruct (f z) eqn:E; [|exists 0%nat, z; split; [done|lia]].
  destruct IH as (i&x&?&?); [done|]. by exists (S i), x.
Qed.
Lemma sum_le {A} (f g : A → nat) l : (∀ x, f x ≤ g x)%nat → (sum_list_with f l ≤ sum_list_with g l)%nat.
Proof. intros H. induction l as [|z l IH]; cbn; [done|]. specialize (H z). lia. Qed.
Definition count {A} (p : A → bool) (l : list A) : nat := sum_list_with (Nat.b2n ∘ p) l.

Lemma insertKey_in x l z : z ∈ insertKey x l → z = x ∨ z ∈ l.
Proof.
  induction l as [|y l IH]; cbn [insertKey]; [rewrite list_elem_of_singleton; auto|].
  destruct (x <? y)%nat; [|destruct (x =? y)%nat]; rewrite ?elem_of_cons; tauto.
Qed.
Lemma insertKey_sorted x l : StronglySorted lt l → StronglySorted lt (insertKey x l).
Proof.
  induction 1 as [|y l Hs IH Hy]; cbn [insertKey]; [by repeat constructor|]. destruct (Nat.ltb_spec x y) as [Hlt|Hge].
  - constructor; [by constructor|]. constructor; [done|]. eapply Forall_impl; [done|]. cbn. lia.
  - destruct (Nat.eqb_spec x y) as [->|Hne]; [by constructor|]. constructor; [done|]. rewrite Forall_forall in *.
    intros z [->|Hz]%insertKey_in; [lia|by apply Hy].
Qed.
Lemma insertKey_length x l : (length (insertKey x l) ≤ S (length l))%nat.
Proof. induction l as [|y l IH]; cbn [insertKey length]; [done|]. destruct (x <? y)%nat, (x =? y)%nat; cbn [length]; lia. Qed.
Lemma lockOrder_sorted b : StronglySorted lt (lockOrder b).
Proof. induction b as [|x b IH]; cbn; [constructor|by apply insertKey_sorted]. Qed.
Lemma lockOrder_length b : (length (lockOrder b) ≤ length b)%nat.
Proof. induction b as [|x b IH]; cbn; [done|]. pose proof (insertKey_length x (lockOrder b)). unfold lockOrder in *. lia. Qed.
Lemma sorted_prefix (a b : list nat) : StronglySorted lt (a ++ b) → StronglySorted lt a.
Proof.
  induction a as [|x a IH]; cbn; [constructor|]. inversion_clear 1 as [|? ? Hs Hx]. constructor; [by apply IH|]. by apply Forall_app in Hx as [? _].
Qed.
Lemma sorted_above (a b : list nat) x l : StronglySorted lt (a ++ x :: b) → l ∈ a → (l < x)%nat.
Proof.
  induction a as [|y a IH]; cbn; [by intros _ ?%elem_of_nil|]. inversion_clear 1 as [|? ? Hs Hx]. rewrite elem_of_cons.
  intros [->|Hl]; [|by apply IH]. apply Forall_app in Hx as [_ Hx]. by apply Forall_cons in Hx as [? _].
Qed.

(** ** The moves of a request *)

Definition holds_read (pc : rpc_pc) : bool := match pc with RLoadLocked _ | RHandler _ _ _ | RRUnlock _ => true | _ => false end.
Definition in_handler (pc : rpc_pc) : bool := match pc with RHandler _ _ _ => true | _ => false end.
Definition rpc_returned (pc : rpc_pc) : bool := match pc with RReturned _ => true | _ => false end.
(** A handler holds and takes its locks in their order. *)
Definition ordered (pc : rpc_pc) : Prop := match pc with RHandler held want _ => StronglySorted lt (held ++ want) | _ => True end.

(** The actions a request has left, and the locks it may yet take. *)
Definition batches_work (bs : list batch) : nat := sum_list_with (λ b, S (2 * length b)) bs.
Definition batches_locks (bs : list batch) : nat := sum_list_with length bs.
#[global] Arguments batches_work : simpl never.
#[global] Arguments batches_locks : simpl never.
Lemma batches_work_cons b bs : batches_work (b :: bs) = (S (2 * length b) + batches_work bs)%nat.
Proof. done. Qed.
Lemma batches_locks_cons b bs : batches_locks (b :: bs) = (length b + batches_locks bs)%nat.
Proof. done. Qed.
Definition rpc_work (pc : rpc_pc) : nat :=
  match pc with
  | RLoad bs => 5 + batches_work bs
  | RRLock bs => 4 + batches_work bs
  | RLoadLocked bs => 3 + batches_work bs
  | RHandler held want bs => 2 + length held + 2 * length want + batches_work bs
  | RRUnlock _ => 1
  | RReturned _ => 0
  end.
Definition rpc_locks (pc : rpc_pc) : nat :=
  match pc with
  | RLoad bs | RRLock bs | RLoadLocked bs => batches_locks bs
  | RHandler _ want bs => length want + batches_locks bs
  | _ => 0
  end.

Record rpc_move (s : drain_state) (pc pc' : rpc_pc) (n : nat) (known : list nat) : Prop := {
  rm_readers : (n + Nat.b2n (holds_read pc) = gate_readers s + Nat.b2n (holds_read pc'))%nat;
  rm_read : holds_read pc' = true → holds_read pc = true ∨ gate_writer s = false;
  rm_handler : in_handler pc' = true → in_handler pc = true ∨ drained s = false;
  rm_ordered : ordered pc → ordered pc';
  rm_work : (rpc_work pc' < rpc_work pc)%nat;
  rm_locks : (length known + rpc_locks pc' ≤ length (targetMu s) + rpc_locks pc)%nat;
  rm_known : known = targetMu s ∨ holds_read pc = true ∧ holds_read pc' = true;
}.

Lemma load_or_store_length l known : (length (load_or_store l known) ≤ S (length known))%nat.
Proof. unfold load_or_store. case_bool_decide; rewrite ?length_app; cbn; lia. Qed.
Lemma handler_move s held want bs pc' known : handler_step s held want bs = Some (pc', known) →
  (0 < gate_readers s)%nat → rpc_move s (RHandler held want bs) pc' (gate_readers s) known.
Proof.
  intros Hs Hr. destruct want as [|l want]; cbn in Hs.
  - destruct (decide (held = [])) as [->|Hne].
    + destruct bs as [|b bs]; injection Hs as <- <-; split; cbn; rewrite ?batches_work_cons, ?batches_locks_cons; try lia; auto.
      * intros _. apply lockOrder_sorted.
      * pose proof (lockOrder_length b). lia.
      * pose proof (lockOrder_length b). lia.
    + assert (Some (RHandler (removelast held) [] bs, targetMu s) = Some (pc', known)) as [= <- <-] by by destruct held.
      destruct held as [|x held _] using rev_ind; [done|]. rewrite removelast_last. split; cbn; rewrite ?length_app; cbn; try lia; auto.
      rewrite !app_nil_r. apply sorted_prefix.
  - destruct (target_locked s l); [done|]. injection Hs as <- <-. pose proof (load_or_store_length l (targetMu s)).
    split; cbn; rewrite ?length_app; cbn; try lia; auto. by rewrite <- app_assoc.
Qed.
Lemma rpc_step_move s i s' : rpc_step s i = Some s' → gate_readers s = count holds_read (rpcs s) →
  ∃ pc pc' n known, rpcs s !! i = Some pc ∧ s' = set_rpc s i pc' n known ∧ rpc_move s pc pc' n known.
Proof.
  unfold rpc_step. destruct (rpcs s !! i) as [pc|] eqn:E; [|done]. cbn. intros Hs Hr.
  assert (holds_read pc = true → (0 < gate_readers s)%nat) as Hpos.
  { intros Hp. pose proof (sum_lookup (Nat.b2n ∘ holds_read) _ _ _ E) as Hl. cbn in Hl. rewrite Hp in Hl. unfold count in Hr. cbn in Hl. lia. }
  destruct pc as [bs|bs|bs|held want bs|served|served]; cbn in Hpos; try (specialize (Hpos eq_refl)).
  - destruct (drained s); injection Hs as <-; do 4 eexists; (split_and!; [done..|]); split; cbn; try lia; auto.
  - destruct (gate_writer s) eqn:Ew; [done|]. injection Hs as <-. do 4 eexists. split_and!; [done..|]. split; cbn; try lia; auto.
  - destruct (drained s) eqn:Ed; injection Hs as <-; do 4 eexists; (split_and!; [done..|]); split; cbn; try lia; auto. intros _. constructor.
  - destruct (handler_step _ _ _ _) as [[pc' known]|] eqn:Eh; [|done]. injection Hs as <-. do 4 eexists. split_and!; [done..|].
    by apply handler_move.
  - injection Hs as <-. do 4 eexists. split_and!; [done..|]. split; cbn; try lia; auto.
  - done.
Qed.

(** ** Invariant *)

(** The drain call has announced itself as writer; it has the lock; it had it. *)
Definition writing (pc : drain_pc) : bool := match pc with DWait | DSweep _ | DSwept _ _ | DMarker | DUnlock _ => true | _ => false end.
Definition holds_write (pc : drain_pc) : bool := match pc with DSweep _ | DSwept _ _ | DMarker | DUnlock _ => true | _ => false end.
Definition had_lock (pc : drain_pc) : bool := holds_write pc || match pc with DReturned false _ => true | _ => false end.
Definition swapped (pc : drain_pc) : bool := match pc with DSwap => false | _ => true end.
(** The drain call that takes over: not one that came later. *)
Definition first (pc : drain_pc) : bool := match pc with DSwap | DReturned true _ => false | _ => true end.
Definition drain_returned (pc : drain_pc) : bool := match pc with DReturned _ _ => true | _ => false end.

Definition no_handler (s : drain_state) : Prop := ∀ i pc, rpcs s !! i = Some pc → in_handler pc = false.
Definition some_drain (p : drain_pc → bool) (s : drain_state) : Prop := ∃ j pc, drains s !! j = Some pc ∧ p pc = true.

Lemma holds_writing pc : holds_write pc = true → writing pc = true.
Proof. by destruct pc. Qed.
Lemma had_first pc : had_lock pc = true ∨ writing pc = true → first pc = true.
Proof. destruct pc as [| | | | | | |[]]; cbn; naive_solver. Qed.
Lemma had_swapped pc : had_lock pc = true → swapped pc = true.
Proof. by destruct pc. Qed.

Record drain_inv (stale : bool) (s : drain_state) : Prop := {
  di_readers : gate_readers s = count holds_read (rpcs s);
  di_excl : some_drain holds_write s → gate_readers s = 0%nat;
  di_writer j pc : drains s !! j = Some pc → writing pc = true → gate_writer s = true;
  di_held : gate_writer s = true → some_drain writing s;
  di_drained : some_drain swapped s → drained s = true;
  di_one j1 j2 p1 p2 : drains s !! j1 = Some p1 → drains s !! j2 = Some p2 → first p1 = true → first p2 = true → j1 = j2;
  di_quiet : some_drain had_lock s → no_handler s;
  di_marker : marker s = true → stale = true ∨ some_drain had_lock s;
  di_marked j a : drains s !! j = Some (DReturned a true) ∨ drains s !! j = Some (DUnlock true) → marker s = true;
  di_ordered i pc : rpcs s !! i = Some pc → ordered pc;
}.

(** A request's action keeps it: it takes the read lock without a writer, and
    enters its handler only before the swap. *)
Lemma rpc_step_inv stale s i s' : drain_inv stale s → rpc_step s i = Some s' → drain_inv stale s'.
Proof.
  intros Hi Hs. destruct (rpc_step_move _ _ _ Hs (di_readers _ _ Hi)) as (pc&pc'&n&known&Hpc&->&Hm). clear Hs.
  destruct Hi as [Hr Hex Hw Hhe Hd H1 Hq Hma Hmd Hor]. pose proof (sum_insert (Nat.b2n ∘ holds_read) _ _ _ pc' Hpc) as Hc.
  destruct Hm as [Mr Ml Mh Mo _ _ _].
  assert (∀ k p, <[i := pc']> (rpcs s) !! k = Some p → k = i ∧ p = pc' ∨ rpcs s !! k = Some p) as Hset.
  { intros k p. destruct (decide (k = i)) as [->|Hne]; [|rewrite list_lookup_insert_ne; auto].
    rewrite list_lookup_insert_eq by (by eapply lookup_lt_Some). intros [= <-]. auto. }
  split; cbn -[insert lookup]; try done.
  - unfold count in *. cbn in Hc. lia.
  - intros Hh. pose proof (Hex Hh) as H0. destruct Hh as (j&q&Hj&Hq'%holds_writing). specialize (Hw j q Hj Hq').
    destruct (holds_read pc') eqn:E; [destruct (Ml eq_refl) as [Hp|?]; [rewrite Hp in Mr|congruence]|]; cbn in Mr; lia.
  - intros Hl k p [[-> ->]|Hk]%Hset; [|by eapply Hq]. destruct (in_handler pc') eqn:E; [|done].
    destruct (Mh eq_refl) as [Hp|Hp]; [by rewrite (Hq Hl i pc Hpc) in Hp|]. rewrite Hd in Hp; [done|].
    destruct Hl as (j&q&Hj&Hq'). exists j, q. split; [done|by apply had_swapped].
  - intros k p [[-> ->]|Hk]%Hset; [apply Mo|]; by eapply Hor.
Qed.

Section SetDrain.
Context (stale : bool) (s : drain_state) (j : nat) (pc pc' : drain_pc) (d w m : bool).
Context (Hi : drain_inv stale s) (Hj : drains s !! j = Some pc).
Abbreviation s' := (set_drain s j pc' d w m).

Lemma drains_set k p : drains s' !! k = Some p → k = j ∧ p = pc' ∨ k ≠ j ∧ drains s !! k = Some p.
Proof.
  cbn -[insert lookup]. destruct (decide (k = j)) as [->|Hne].
  - rewrite list_lookup_insert_eq by (by eapply lookup_lt_Some). intros [= <-]. by left.
  - rewrite list_lookup_insert_ne by done. by right.
Qed.
Lemma drains_new : drains s' !! j = Some pc'.
Proof using Hj. cbn -[insert lookup]. apply list_lookup_insert_eq. by eapply lookup_lt_Some. Qed.

(** A drain call that still holds what it held. *)
Lemma some_drain_set (p : drain_pc → bool) : (p pc = true → p pc' = true) → some_drain p s → some_drain p s'.
Proof using Hj.
  intros Hp (k&x&Hk&Hx). destruct (decide (k = j)) as [->|Hne].
  - exists j, pc'. split; [apply drains_new|]. apply Hp. congruence.
  - exists k, x. cbn -[insert lookup]. by rewrite list_lookup_insert_ne.
Qed.

(** When a drain call's action keeps the invariant. *)
Record allowed : Prop := {
  al_excl : holds_write pc' = true → gate_readers s = 0%nat;
  al_lock : writing pc' = true → w = true;
  al_held : w = true → writing pc' = true ∨ gate_writer s = true ∧ writing pc = false;
  al_unlock : w = false → gate_writer s = false ∨ writing pc = true;
  al_drained : drained s = true ∨ swapped pc' = true → d = true;
  al_first : first pc' = true → first pc = true ∨ drained s = false;
  al_quiet : had_lock pc' = true → no_handler s;
  al_keeps : had_lock pc = true → had_lock pc' = true;
  al_marker : m = true → had_lock pc' = true ∨ marker s = true;
  al_marked a : marker s = true ∨ pc' = DReturned a true ∨ pc' = DUnlock true → m = true;
}.

Lemma set_drain_inv : allowed → drain_inv stale s'.
Proof using Hi Hj.
  intros [A1 A2 A3 A4 A5 A6 A7 A8 A9 A10]. pose proof Hi as [Hr Hex Hw Hhe Hd H1 Hq Hma Hmd Hor].
  assert (∀ k p, k ≠ j → drains s !! k = Some p → first p = true → first pc = true → False) as Hone by (intros k p Hne Hk Hp Hp'; by apply Hne, (H1 k j p pc)).
  split; try done.
  - intros (k&p&[[-> ->]|[Hne Hk]]%drains_set&Hp); [by apply A1|]. apply Hex. by exists k, p.
  - intros k p [[-> ->]|[Hne Hk]]%drains_set; [exact A2|]. intros Hp. cbn. destruct w; [done|exfalso].
    destruct (A4 eq_refl) as [Hg|Hg]; [by rewrite (Hw k p Hk Hp) in Hg|]. eapply Hone; [done|done|by apply had_first; right..].
  - cbn. intros Hg. destruct (A3 Hg) as [Hp|[Hg' Hp]]; [exists j, pc'; split; [apply drains_new|done]|].
    apply some_drain_set; [congruence|auto].
  - intros (k&p&[[-> ->]|[Hne Hk]]%drains_set&Hp); cbn; apply A5; [by right|left]. apply Hd. by exists k, p.
  - assert (∀ k p, k ≠ j → drains s !! k = Some p → first p = true → first pc' = true → False) as Hno.
    { intros k p Hne Hk Hp Hp'. destruct (A6 Hp') as [Hf|Hf]; [by eapply Hone|]. rewrite Hd in Hf; [done|]. exists k, p. split; [done|]. by destruct p. }
    intros j1 j2 p1 p2 [[-> ->]|[Hn1 Hk1]]%drains_set [[-> ->]|[Hn2 Hk2]]%drains_set F1 F2.
    + done.
    + destruct (Hno j2 p2 Hn2 Hk2 F2 F1).
    + destruct (Hno j1 p1 Hn1 Hk1 F1 F2).
    + by apply (H1 j1 j2 p1 p2).
  - intros (k&p&[[-> ->]|[Hne Hk]]%drains_set&Hp); [by apply A7|]. apply Hq. by exists k, p.
  - cbn. intros Hm'. destruct (A9 Hm') as [Hp|Hp]; [right; exists j, pc'; split; [apply drains_new|done]|].
    destruct (Hma Hp) as [?|Hl]; [by left|right]. by apply some_drain_set.
  - intros k a Hk. cbn. apply (A10 a). destruct Hk as [Hk|Hk]; apply drains_set in Hk as [[-> Hk]|[Hne Hk]];
      [by right; left|left; apply (Hmd k a); by left|by right; right|left; apply (Hmd k a); by right].
Qed.
End SetDrain.

Lemma drain_step_inv stale s j io s' : drain_inv stale s → drain_step s j io = Some s' → drain_inv stale s'.
Proof.
  intros Hi Hs. unfold drain_step in Hs. destruct (drains s !! j) as [pc|] eqn:Epc; [|done]. cbn in Hs.
  pose proof (di_writer _ _ Hi j pc Epc) as Hw.
  assert (holds_write pc = true → gate_readers s = 0%nat) as Hx by (intros; apply (di_excl _ _ Hi); by exists j, pc).
  assert (had_lock pc = true → no_handler s) as Hq by (intros; apply (di_quiet _ _ Hi); by exists j, pc).
  assert (swapped pc = true → drained s = true) as Hd by (intros; apply (di_drained _ _ Hi); by exists j, pc).
  assert (∀ b, pc = DUnlock b → b = true → marker s = true) as Hm.
  { intros b -> ->. apply (di_marked _ _ Hi j false). by right. }
  assert (gate_readers s = 0%nat → no_handler s) as H0.
  { intros H0 i p Hp. rewrite (di_readers _ _ Hi) in H0. pose proof (sum_lookup (Nat.b2n ∘ holds_read) _ _ _ Hp) as Hl.
    unfold count in H0. rewrite H0 in Hl. destruct p; cbn in *; try done; lia. }
  destruct pc as [| | |[|l todo]|l todo| |marked|already marked]; cbn in Hw, Hx, Hq, Hd.
  - destruct (drained s) eqn:Ed; injection Hs as <-; (eapply set_drain_inv; [done|exact Epc|]); split; cbn; try done; try tauto;
      clear Hi; destruct (gate_writer s); intuition congruence.
  - destruct (gate_writer s) eqn:Ew; [done|]. injection Hs as <-. eapply set_drain_inv; [done|exact Epc|]. split; cbn; try done; tauto || naive_solver.
  - destruct (Nat.eqb_spec (gate_readers s) 0) as [Er|]; [|done]. injection Hs as <-. rewrite (Hw eq_refl).
    eapply set_drain_inv; [done|exact Epc|]. split; cbn; try done; tauto || naive_solver.
  - injection Hs as <-. rewrite (Hw eq_refl). eapply set_drain_inv; [done|exact Epc|]. split; cbn; try done; tauto || naive_solver.
  - destruct (target_locked s l); [done|]. injection Hs as <-. rewrite (Hw eq_refl). eapply set_drain_inv; [done|exact Epc|].
    split; cbn; try done; tauto || naive_solver.
  - injection Hs as <-. rewrite (Hw eq_refl). eapply set_drain_inv; [done|exact Epc|]. split; cbn; try done; tauto || naive_solver.
  - injection Hs as <-. rewrite (Hw eq_refl). eapply set_drain_inv; [done|exact Epc|]. split; cbn; try done; try tauto.
    intros a [->|[?|[= Hio]]]; [done|done|]. destruct io; [apply orb_true_r|done].
  - injection Hs as <-. eapply set_drain_inv; [done|exact Epc|]. split; cbn; try done; try tauto.
    intros a [?|[[= _ ->]|?]]; [done| |done]. by apply (Hm true).
  - done.
Qed.

Lemma step_inv stale a s s' : drain_inv stale s → step a s = Some s' → drain_inv stale s'.
Proof.
  intros Hi. destruct a as [bs| |i|j io]; cbn; [intros [= <-]..|by apply rpc_step_inv|by apply drain_step_inv];
    destruct Hi as [Hr Hex Hw Hhe Hd H1 Hq Hma Hmd Hor].
  - assert (∀ k p, (rpcs s ++ [RLoad bs]) !! k = Some p → p = RLoad bs ∨ rpcs s !! k = Some p) as Hnew.
    { intros k p [Hk|[_ Hk]]%lookup_app_Some; [by right|left]. by apply list_lookup_singleton_Some in Hk as [_ ?]. }
    split; cbn -[lookup]; try done; [unfold count in *; rewrite sum_snoc; cbn; lia| |].
    + intros Hl k p [->|Hk]%Hnew; [done|by eapply Hq].
    + intros k p [->|Hk]%Hnew; [done|by eapply Hor].
  - assert (∀ k p, (drains s ++ [DSwap]) !! k = Some p → p = DSwap ∨ drains s !! k = Some p) as Hnew.
    { intros k p [Hk|[_ Hk]]%lookup_app_Some; [by right|left]. by apply list_lookup_singleton_Some in Hk as [_ ?]. }
    assert (∀ p, p DSwap = false → (∃ k x, (drains s ++ [DSwap]) !! k = Some x ∧ p x = true) → some_drain p s) as Hold.
    { intros p Hp (k&x&[->|Hk]%Hnew&Hx); [congruence|by exists k, x]. }
    assert (∀ p, some_drain p s → ∃ k x, (drains s ++ [DSwap]) !! k = Some x ∧ p x = true) as Hkeep.
    { intros p (k&x&Hk&Hx). exists k, x. split; [by apply lookup_app_l_Some|done]. }
    split; cbn -[lookup]; try done.
    + intros Hl. by apply Hex, Hold.
    + intros k p [->|Hk]%Hnew; [done|by eauto].
    + intros Hg. by apply Hkeep, Hhe.
    + intros Hf. by apply Hd, Hold.
    + intros j1 j2 p1 p2 [->|Hk1]%Hnew [->|Hk2]%Hnew; try done. by apply H1.
    + intros Hl. by apply Hq, Hold.
    + intros Hx. destruct (Hma Hx) as [?|?]; [by left|right]. by apply Hkeep.
    + intros k a [[?|Hk]%Hnew|[?|Hk]%Hnew]; [done|apply (Hmd k a); by left|done|apply (Hmd k a); by right].
Qed.

(** What one action keeps, a schedule keeps. *)
Lemma run_keeps (P : drain_state → Prop) l s : (∀ a s s', P s → step a s = Some s' → P s') → P s → P (run l s).
Proof.
  intros HP. revert s. induction l as [|a l IH]; intros s Hs; cbn; [done|]. apply IH. destruct (step a s) eqn:E; [by eapply HP|done].
Qed.
Lemma initial_inv stale : drain_inv stale (initial stale).
Proof.
  assert (∀ p, some_drain p (initial stale) → False) as Hno by (by intros p (k&x&Hk&_)).
  split; cbn; try done; try (by intros ?%Hno); [by left|by intros k a [?|?]].
Qed.
Lemma reachable_inv stale l : drain_inv stale (run l (initial stale)).
Proof. apply run_keeps; [intros; by eapply step_inv|apply initial_inv]. Qed.

(** ** Safety *)

(** A drain call that returned stays as it is, the marker stays, and once a
    drain call has swapped the flag no further request enters its handler. *)
Lemma rpc_step_shape s i s' : rpc_step s i = Some s' → ∃ pc n known, s' = set_rpc s i pc n known.
Proof.
  unfold rpc_step. destruct (rpcs s !! i) as [[]|]; cbn; repeat case_match; try done; try (intros [= <-]; eauto).
  destruct (handler_step _ _ _ _) as [[]|]; [|done]. intros [= <-]. eauto.
Qed.
Lemma step_keeps_drains a s s' j pc : drains s !! j = Some pc → drain_returned pc = true → step a s = Some s' → drains s' !! j = Some pc.
Proof.
  intros Hj Hp Hs. destruct a as [bs| |i|k io]; cbn in Hs.
  - by injection Hs as <-.
  - injection Hs as <-. by apply lookup_app_l_Some.
  - by apply rpc_step_shape in Hs as (?&?&?&->).
  - unfold drain_step in Hs. destruct (drains s !! k) as [q|] eqn:Ek; [|done]. cbn in Hs.
    destruct (decide (k = j)) as [->|Hne]; [rewrite Hj in Ek; injection Ek as <-; by destruct pc|].
    destruct q as [| | |[|? ?]| | | |]; repeat case_match; try done; injection Hs as <-; cbn -[insert lookup]; by rewrite list_lookup_insert_ne.
Qed.
Lemma step_keeps_marker a s s' : marker s = true → step a s = Some s' → marker s' = true.
Proof.
  intros Hm Hs. destruct a as [bs| |i|k io]; cbn in Hs; [by injection Hs as <-..| |].
  - by apply rpc_step_shape in Hs as (?&?&?&->).
  - unfold drain_step in Hs. destruct (drains s !! k) as [[| | |[|? ?]| | | |]|]; cbn in Hs; repeat case_match; try done; injection Hs as <-; cbn; by rewrite ?Hm.
Qed.
Definition handling (s : drain_state) (i : nat) : Prop := ∃ pc, rpcs s !! i = Some pc ∧ in_handler pc = true.
Lemma step_enters stale a s s' i : drain_inv stale s → drained s = true → step a s = Some s' → drained s' = true ∧ (handling s' i → handling s i).
Proof.
  intros Hi Hd Hs. destruct a as [bs| |k|k io]; cbn in Hs.
  - injection Hs as <-. split; [done|]. intros (pc&Hp&Hh). apply lookup_app_Some in Hp as [Hp|[_ Hp]]; [by exists pc|].
    apply list_lookup_singleton_Some in Hp as [_ <-]. done.
  - by injection Hs as <-.
  - destruct (rpc_step_move _ _ _ Hs (di_readers _ _ Hi)) as (pc&pc'&n&known&Hpc&->&Hm). split; [done|]. intros (p&Hp&Hh).
    cbn -[insert lookup] in Hp. destruct (decide (i = k)) as [->|Hne]; [|rewrite list_lookup_insert_ne in Hp by done; by exists p].
    rewrite list_lookup_insert_eq in Hp by (by eapply lookup_lt_Some). injection Hp as ->.
    destruct (rm_handler _ _ _ _ _ Hm Hh) as [?|?]; [by exists pc|congruence].
  - unfold drain_step in Hs. destruct (drains s !! k) as [[| | |[|? ?]| | | |]|]; cbn in Hs; repeat case_match; try done; injection Hs as <-; cbn; done.
Qed.

(** C31: Once any Drain call has returned, however it answered, no request that is
    not yet in its handler ever enters it.  Once the Drain call that took over
    has returned, error or not, or the marker of this process is there, no
    request is in its handler and none ever will be again.  A Drain call that
    took over and reports success has written the marker.  (A Drain call that
    answers that it came second does not wait for running handlers, and the
    marker of an earlier process, which nothing removes, says nothing.) *)
Theorem drain_waits_for_handlers stale l l' :
  let s := run l (initial stale) in
  (∀ j already marked, drains s !! j = Some (DReturned already marked) →
    (∀ i, handling (run l' s) i → handling s i) ∧
    (already = false → no_handler (run l' s)) ∧
    (marked = true → marker s = true)) ∧
  (stale = false → marker s = true → no_handler (run l' s)).
Proof.
  intros s. pose proof (reachable_inv stale l) as Hi. fold s in Hi. clearbody s. split.
  - intros j already marked Hj. split_and!.
    + intros i. assert (drained s = true) as Hd by (apply (di_drained _ _ Hi); by exists j, (DReturned already marked)).
      apply (run_keeps (λ s', drain_inv stale s' ∧ drained s' = true ∧ (handling s' i → handling s i))); [|done].
      intros a s1 s2 (I1&D1&H1) Hs. destruct (step_enters _ _ _ _ i I1 D1 Hs). split_and!; [by eapply step_inv|done|tauto].
    + intros ->. eapply di_quiet; [apply (run_keeps (drain_inv stale)); [intros; by eapply step_inv|exact Hi]|].
      exists j, (DReturned false marked). split; [|done].
      apply (run_keeps (λ s, drains s !! j = Some (DReturned false marked))); [intros; by eapply step_keeps_drains|done].
    + intros ->. apply (di_marked _ _ Hi j already). by left.
  - intros -> Hm. assert (drain_inv false (run l' s)) as Hi' by (apply run_keeps; [intros; by eapply step_inv|done]).
    apply (di_quiet _ _ Hi'). destruct (di_marker _ _ Hi') as [?|?]; [|done..].
    apply (run_keeps (λ s, marker s = true)); [intros; by eapply step_keeps_marker|done].
Qed.

(** A request with two target locks is admitted, a drain waits for it, a second
    drain does not, and a late request is refused. *)
Definition drain_schedule : list action :=
  [NewRpc [[2; 1]]; RpcStep 0; RpcStep 0; RpcStep 0; RpcStep 0; RpcStep 0; NewDrain; DrainStep 0 MarkerWritten; DrainStep 0 MarkerWritten;
   NewDrain; DrainStep 1 MarkerWritten; NewRpc []; RpcStep 1]%nat.
Definition drain_schedule_end : list action :=
  replicate 6 (RpcStep 0) ++ replicate 5 (DrainStep 0 MarkerWritten) ++ replicate 3 (DrainStep 0 MarkerWritten).
Definition drain_full : list action := drain_schedule ++ drain_schedule_end.
Lemma drain_waits_for_handlers_witness :
  rpcs (run drain_schedule (initial true)) = [RHandler [1] [2] []; RReturned false]%nat ∧
  drains (run drain_schedule (initial true)) = [DWait; DReturned true false] ∧
  drains (run drain_full (initial true)) = [DReturned false true; DReturned true false] ∧
  no_handler (run [NewRpc []; RpcStep 2] (run drain_full (initial true))).
Proof.
  split_and!; [vm_compute; reflexivity..|].
  destruct (drain_waits_for_handlers true drain_full [NewRpc []; RpcStep 2]) as [H _].
  destruct (H 0%nat false true) as (_&Hn&_); [vm_compute; reflexivity|]. apply Hn. reflexivity.
Defined.

(** ** Progress *)

(** The actions a drain call has left, when there are at most [k] target locks. *)
Definition drain_left (k : nat) (pc : drain_pc) : nat :=
  match pc with
  | DSwap => 6 + 2 * k
  | DLock => 5 + 2 * k
  | DWait => 4 + 2 * k
  | DSweep todo => 3 + 2 * length todo
  | DSwept _ todo => 4 + 2 * length todo
  | DMarker => 2
  | DUnlock _ => 1
  | DReturned _ _ => 0
  end.
(** What is left to the requests selected by [p]: actions, and target locks
    that there will be. *)
Definition only_for (p : rpc_pc → bool) (f : rpc_pc → nat) (pc : rpc_pc) : nat := if p pc then f pc else 0.
Definition rpcs_left (p : rpc_pc → bool) (s : drain_state) : nat := sum_list_with (only_for p rpc_work) (rpcs s).
Definition locks_left (p : rpc_pc → bool) (s : drain_state) : nat := length (targetMu s) + sum_list_with (only_for p rpc_locks) (rpcs s).
Definition everyone (pc : rpc_pc) : bool := true.
Definition work (s : drain_state) : nat := rpcs_left everyone s + sum_list_with (drain_left (locks_left everyone s)) (drains s).
(** What drain call [j] waits for: its own actions and those of the requests admitted. *)
Definition need (j : nat) (s : drain_state) : nat :=
  match drains s !! j with Some pc => rpcs_left holds_read s + drain_left (locks_left holds_read s) pc | None => 0 end.

Lemma drain_left_mono k k' pc : (k ≤ k')%nat → (drain_left k pc ≤ drain_left k' pc)%nat.
Proof. intros Hk. destruct pc; cbn; lia. Qed.

Lemma rpc_move_left p s i pc pc' n known : rpcs s !! i = Some pc → rpc_move s pc pc' n known →
  (p pc' = true → p pc = true) → (holds_read pc = true → holds_read pc' = true → p pc' = true) →
  let s' := set_rpc s i pc' n known in
  (rpcs_left p s' ≤ rpcs_left p s ∧ (p pc = true → rpcs_left p s' < rpcs_left p s) ∧ locks_left p s' ≤ locks_left p s)%nat.
Proof.
  intros Hpc [_ _ _ _ Mw Ml Mk] Hp Hp'. cbn. unfold rpcs_left, locks_left. cbn -[insert].
  pose proof (sum_insert (only_for p rpc_work) _ _ _ pc' Hpc) as H1. pose proof (sum_insert (only_for p rpc_locks) _ _ _ pc' Hpc) as H2.
  unfold only_for in H1 at 2 4. unfold only_for in H2 at 2 4.
  destruct (p pc'); [rewrite (Hp eq_refl) in *; split_and!; lia|].
  destruct Mk as [->|[M1 M2]]; [|by specialize (Hp' M1 M2)]. destruct (p pc); (split_and!; [lia|done || lia|lia]).
Qed.
Lemma drain_step_move s j io s' : drain_step s j io = Some s' →
  ∃ pc pc' d w m, drains s !! j = Some pc ∧ s' = set_drain s j pc' d w m ∧
    ∀ k, (length (targetMu s) ≤ k → drain_left k pc' < drain_left k pc)%nat.
Proof.
  unfold drain_step. destruct (drains s !! j) as [pc|]; [|done]. cbn. intros Hs. exists pc.
  destruct pc as [| | |[|l todo]|l todo| |marked|already marked]; repeat case_match; try done; injection Hs as <-; do 4 eexists; (split_and!; [done..|]);
    cbn; intros; lia.
Qed.

Lemma step_work stale a s s' : drain_inv stale s → step a s = Some s' →
  match a with RpcStep _ | DrainStep _ _ => (work s' < work s)%nat | _ => True end.
Proof.
  intros Hi Hs. destruct a as [| |i|j io]; [done..| |]; cbn in Hs; unfold work.
  - destruct (rpc_step_move _ _ _ Hs (di_readers _ _ Hi)) as (pc&pc'&n&known&Hpc&->&Hm).
    destruct (rpc_move_left everyone _ _ _ _ _ _ Hpc Hm) as (_&H1&H2); [done..|]. specialize (H1 eq_refl).
    pose proof (sum_le _ _ (drains s) (λ pc, drain_left_mono _ _ pc H2)). cbn -[insert locks_left rpcs_left] in *. lia.
  - destruct (drain_step_move _ _ _ _ Hs) as (pc&pc'&d&w&m&Hj&->&Hlt).
    pose proof (sum_insert (drain_left (locks_left everyone s)) _ _ _ pc' Hj). specialize (Hlt (locks_left everyone s)). unfold locks_left in Hlt at 1.
    unfold rpcs_left, locks_left in *. cbn -[insert] in *. lia.
Qed.

(** A request that cannot act waits for a target lock. *)
Lemma reader_blocked s i pc : rpcs s !! i = Some pc → holds_read pc = true → rpc_step s i = None →
  ∃ held l want bs, pc = RHandler held (l :: want) bs ∧ target_locked s l = true.
Proof.
  unfold rpc_step. intros -> Hh Hs. cbn in Hs. destruct pc as [| | |held [|l want] bs| |]; try done.
  - destruct held, bs; done.
  - cbn in Hs. destruct (target_locked s l) eqn:E; [eauto 10|done].
Qed.
Lemma writer_excludes stale s j pc i q : drain_inv stale s → drains s !! j = Some pc → holds_write pc = true →
  rpcs s !! i = Some q → holds_read q = false.
Proof.
  intros Hi Hj Hp Hq. assert (gate_readers s = 0%nat) as H0 by (apply (di_excl _ _ Hi); by exists j, pc).
  rewrite (di_readers _ _ Hi) in H0. pose proof (sum_lookup (Nat.b2n ∘ holds_read) _ _ _ Hq) as Hl. unfold count in H0. cbn in Hl.
  destruct (holds_read q); [cbn in Hl; lia|done].
Qed.

(** The requests that are in never wait for each other in a circle: the one
    that waits for the last lock is not blocked. *)
Lemma reader_acts stale s i pc : drain_inv stale s → rpcs s !! i = Some pc → holds_read pc = true →
  ∃ k q, rpcs s !! k = Some q ∧ holds_read q = true ∧ rpc_step s k ≠ None.
Proof.
  intros Hi. set (head := λ pc, match pc with RHandler _ (l :: _) _ => l | _ => 0%nat end).
  remember (sum_list_with head (rpcs s) - head pc)%nat as n eqn:Hn. revert i pc Hn.
  induction n as [n IH] using lt_wf_ind. intros i pc -> Hpc Hh.
  destruct (rpc_step s i) as [s'|] eqn:Es; [exists i, pc; split_and!; [done..|congruence]|].
  destruct (reader_blocked _ _ _ Hpc Hh Es) as (held&l&want&bs&->&Hl). clear Es.
  unfold target_locked in Hl. apply orb_true_iff in Hl as [Hl|Hl]; apply existsb_exists in Hl as (q&(k&Hk)%list_elem_of_In%list_elem_of_lookup&Hq).
  - destruct q as [| | |held' [|l' want'] bs'| |]; try done.
    { exists k, (RHandler held' [] bs'). split_and!; [done..|]. unfold rpc_step. rewrite Hk. cbn. by destruct held', bs'. }
    pose proof (di_ordered _ _ Hi k _ Hk) as Ho. apply bool_decide_eq_true in Hq. pose proof (sorted_above _ _ _ _ Ho Hq) as Hlt.
    pose proof (sum_lookup head _ _ _ Hk) as Hle. cbn in Hle.
    eapply (IH _ _ k _ eq_refl Hk); [done]. Unshelve. cbn. lia.
  - destruct q as [| | | |l' todo| | |]; try done. by rewrite (writer_excludes _ _ _ _ _ _ Hi Hk eq_refl Hpc) in Hh.
Qed.

(** The action of drain call [j], or of a request it may wait for. *)
Definition advances (j : nat) (s : drain_state) (a : action) : Prop :=
  match a with
  | DrainStep k _ => k = j
  | RpcStep i => ∃ pc, rpcs s !! i = Some pc ∧ holds_read pc = true
  | _ => False
  end.
Lemma drain_acts stale s j pc : drain_inv stale s → drains s !! j = Some pc → drain_returned pc = false →
  ∃ a, advances j s a ∧ step a s ≠ None.
Proof.
  intros Hi Hj Hp.
  assert ((∃ io, drain_step s j io ≠ None) ∨ ∃ i q, rpcs s !! i = Some q ∧ holds_read q = true) as [[io Hio]|(i&q&Hq&Hh)].
  - unfold drain_step. rewrite Hj. cbn. assert (∀ l, holds_write pc = true → (∀ todo, pc ≠ DSwept l todo) → target_locked s l = false) as Hfree.
    { intros l Hw Hne. apply orb_false_iff. split; apply not_true_iff_false; intros (x&(k&Hk)%list_elem_of_In%list_elem_of_lookup&Hx)%existsb_exists.
      - assert (holds_read x = false) by (by eapply writer_excludes). by destruct x.
      - destruct x as [| | | |l' todo| | |]; try done. apply Nat.eqb_eq in Hx as ->.
        assert (k = j) as -> by (eapply (di_one _ _ Hi); [done..|]; by apply had_first; right; apply holds_writing).
        rewrite Hj in Hk. injection Hk as ->. by eapply Hne. }
    destruct pc as [| | |[|l todo]|l todo| |marked|already marked]; try (left; exists MarkerWritten; done).
    + destruct (gate_writer s) eqn:Ew; [|left; by exists MarkerWritten].
      destruct (di_held _ _ Hi Ew) as (k&x&Hk&Hx). assert (k = j) as -> by (eapply (di_one _ _ Hi); [done..|by apply had_first; right|done]).
      rewrite Hj in Hk. by injection Hk as <-.
    + destruct (Nat.eqb_spec (gate_readers s) 0) as [E|E]; [left; by exists MarkerWritten|right].
      rewrite (di_readers _ _ Hi) in E. destruct (sum_pos (Nat.b2n ∘ holds_read) (rpcs s)) as (i&q&Hq&Hh); [unfold count in E; lia|].
      exists i, q. split; [done|]. change (0 < Nat.b2n (holds_read q))%nat in Hh. destruct (holds_read q); [done|cbn in Hh; lia].
    + left. exists MarkerWritten. rewrite Hfree; [done..|]. by intros ? ?.
  - by exists (DrainStep j io).
  - destruct (reader_acts _ _ _ _ Hi Hq Hh) as (k&x&Hk&Hx&Hs). exists (RpcStep k). split; [by exists x|done].
Qed.

(** While a drain call is announced, no action adds to what it waits for. *)
Lemma step_need stale s j pc a s' : drain_inv stale s → drains s !! j = Some pc → writing pc = true → step a s = Some s' →
  (need j s' ≤ need j s)%nat ∧ (advances j s a → (need j s' < need j s)%nat).
Proof.
  intros Hi Hj Hp Hs. unfold need at 2 4. rewrite Hj. pose proof (di_writer _ _ Hi j pc Hj Hp) as Hw. destruct a as [bs| |i|k io]; cbn in Hs.
  - injection Hs as <-. unfold need, rpcs_left, locks_left. cbn -[lookup]. rewrite Hj, !sum_snoc.
    change (only_for holds_read _ (RLoad bs)) with 0%nat. rewrite !Nat.add_0_r. split; [done|done].
  - injection Hs as <-. unfold need, rpcs_left, locks_left. cbn -[lookup]. rewrite (lookup_app_l_Some _ _ _ _ Hj). by split.
  - destruct (rpc_step_move _ _ _ Hs (di_readers _ _ Hi)) as (q&q'&n&known&Hq&->&Hm).
    destruct (rpc_move_left holds_read _ _ _ _ _ _ Hq Hm) as (H1&H2&H3); [|done|].
    { intros Hr. destruct (rm_read _ _ _ _ _ Hm Hr); [done|congruence]. }
    pose proof (drain_left_mono _ _ pc H3). unfold need. change (drains (set_rpc s i q' n known)) with (drains s). rewrite Hj.
    split; [lia|]. intros (x&Hx&Hr). rewrite Hq in Hx. injection Hx as <-. specialize (H2 Hr). lia.
  - destruct (drain_step_move _ _ _ _ Hs) as (q&q'&d&w&m&Hk&->&Hlt). specialize (Hlt (locks_left holds_read s)).
    unfold need. cbn -[insert lookup locks_left rpcs_left]. destruct (decide (k = j)) as [->|Hne].
    + rewrite list_lookup_insert_eq by (by eapply lookup_lt_Some). rewrite Hj in Hk. injection Hk as <-.
      assert (drain_left (locks_left holds_read s) q' < drain_left (locks_left holds_read s) pc)%nat by (apply Hlt; unfold locks_left; lia).
      change (rpcs_left holds_read (set_drain s j q' d w m)) with (rpcs_left holds_read s).
      change (locks_left holds_read (set_drain s j q' d w m)) with (locks_left holds_read s). split; [|intros _]; lia.
    + rewrite list_lookup_insert_ne, Hj by done. split; [done|]. intros Hkj. by destruct Hne.
Qed.

(** A run in which no action is blocked. *)
Fixpoint exec (l : list action) (s : drain_state) : option drain_state :=
  match l with
  | [] => Some s
  | a :: l => s' ← step a s; exec l s'
  end.
Definition internal (a : action) : bool := match a with RpcStep _ | DrainStep _ _ => true | _ => false end.
Definition all_returned (s : drain_state) : Prop :=
  (∀ i pc, rpcs s !! i = Some pc → rpc_returned pc = true) ∧ (∀ j pc, drains s !! j = Some pc → drain_returned pc = true).

Lemma exec_bound stale l s s' : drain_inv stale s → Forall (λ a, internal a = true) l → exec l s = Some s' →
  drain_inv stale s' ∧ (length l + work s' ≤ work s)%nat.
Proof.
  revert s. induction l as [|a l IH]; intros s Hi Hl Hs; cbn in Hs; [injection Hs as <-; by split|].
  apply Forall_cons in Hl as [Ha Hl]. destruct (step a s) as [s1|] eqn:E; [|done].
  destruct (IH s1 (step_inv _ _ _ _ Hi E) Hl Hs) as [Hi' Hle]. pose proof (step_work _ _ _ _ Hi E) as Hw.
  split; [done|]. cbn [length]. destruct a; try done; lia.
Qed.
Lemma stuck_returned stale s : drain_inv stale s → (∀ a, internal a = true → step a s = None) → all_returned s.
Proof.
  intros Hi Hs.
  assert (∀ j pc, drains s !! j = Some pc → drain_returned pc = true) as Hd.
  { intros j pc Hj. apply not_false_iff_true. intros Hp. destruct (drain_acts _ _ _ _ Hi Hj Hp) as (a&Ha&Hn). apply Hn, Hs. by destruct a. }
  split; [|done]. intros i pc Hpc. destruct (holds_read pc) eqn:Eh.
  { destruct (reader_acts _ _ _ _ Hi Hpc Eh) as (k&q&_&_&Hk). by destruct (Hk (Hs (RpcStep k) eq_refl)). }
  pose proof (Hs (RpcStep i) eq_refl) as Hn. cbn in Hn. unfold rpc_step in Hn. rewrite Hpc in Hn. cbn in Hn.
  destruct pc; try done. destruct (gate_writer s) eqn:Ew; [|done].
  destruct (di_held _ _ Hi Ew) as (j&q&Hj&Hq). specialize (Hd j q Hj). by destruct q.
Qed.

(** C38: No request and no Drain call waits forever for another.  If no more
    arrive, at most [work] further actions are possible, in whichever order,
    and when none is possible any more all of them have returned.  And however
    many arrive: a Drain call that has not returned, or a request that was
    admitted, can always act; and once the Drain call is announced, each such
    action reduces what it waits for, which no other action adds to. *)
Theorem drain_progress stale l :
  let s := run l (initial stale) in
  (∀ acts s', Forall (λ a, internal a = true) acts → exec acts s = Some s' →
    (length acts ≤ work s)%nat ∧ ((∀ a, internal a = true → step a s' = None) → all_returned s')) ∧
  (∀ j pc, drains s !! j = Some pc → drain_returned pc = false →
    (∃ a, advances j s a ∧ step a s ≠ None) ∧
    (writing pc = true → ∀ a s', step a s = Some s' → (need j s' ≤ need j s)%nat ∧ (advances j s a → (need j s' < need j s)%nat))).
Proof.
  intros s. pose proof (reachable_inv stale l) as Hi. fold s in Hi. clearbody s. split.
  - intros acts s' Ha He. destruct (exec_bound _ _ _ _ Hi Ha He) as [Hi' Hle]. split; [lia|by apply (stuck_returned stale)].
  - intros j pc Hj Hp. split; [by eapply drain_acts|]. intros Hw a s' Hs. by eapply step_need.
Qed.

(** Two requests want the same two locks, named in opposite orders, while a
    drain call waits: all three return. *)
Definition crossed_schedule : list action :=
  [NewRpc [[1; 2]]; NewRpc [[2; 1]]; RpcStep 0; RpcStep 0; RpcStep 0; RpcStep 0; RpcStep 1; RpcStep 1; RpcStep 1; RpcStep 1; RpcStep 0;
   NewDrain; DrainStep 0 MarkerWritten; DrainStep 0 MarkerWritten]%nat.
Definition crossed_rest : list action :=
  replicate 5 (RpcStep 0) ++ replicate 6 (RpcStep 1) ++ replicate 8 (DrainStep 0 MarkerWritten).
Lemma drain_progress_witness :
  rpcs (run crossed_schedule (initial false)) = [RHandler [1] [2] []; RHandler [] [1; 2] []]%nat ∧
  drains (run crossed_schedule (initial false)) = [DWait] ∧
  (length crossed_rest ≤ work (run crossed_schedule (initial false)))%nat ∧
  rpcs <$> exec crossed_rest (run crossed_schedule (initial false)) = Some [RReturned true; RReturned true].
Proof.
  split_and!; [vm_compute; reflexivity..| |vm_compute; reflexivity].
  destruct (drain_progress false crossed_schedule) as [H _].
  destruct (exec crossed_rest (run crossed_schedule (initial false))) as [s'|] eqn:E; [|vm_compute in E; discriminate E].
  refine (proj1 (H crossed_rest s' _ E)). unfold crossed_rest. cbn. by repeat constructor.
Defined.
