(* ===== verification/IscsiPdu.v ===== *)
(** * iSCSI login PDUs (internal/iscsi/pdu.go)

    The Basic Header Segments userspace exchanges with the target, and the
    key=value text of the login phase.  Header fields are numbers of their
    width; a PDU is the list of its bytes. *)
From stdpp Require Import base numbers list strings gmap.
From Stdlib Require Import Ascii.
From S2P Require Import Prelude GoStd.
Open Scope Z_scope.

Definition bhsLen : nat := 48.
Definition opLoginReq : Z := 0x03.
Definition opLogoutReq : Z := 0x06.
Definition opLoginRsp : Z := 0x23.
Definition opLogoutRsp : Z := 0x26.
Definition opReject : Z := 0x3f.
Definition opImmediate : Z := 0x40.
Definition opcodeMask : Z := 0x3f.
Definition flagTransit : Z := 0x80.
Definition flagContinue : Z := 0x40.
Definition flagFinal : Z := 0x80.
Definition stageSecurity : Z := 0.
Definition stageOperational : Z := 1.
Definition stageFullFeature : Z := 3.
Definition maxLoginDataLen : nat := Z.to_nat 8192.
Definition logoutReasonCloseSession : Z := 0.

(** [isid] is an array of six bytes. *)
Definition isid : Type := bytes.

Record loginRequest := {
  rq_Transit : bool;
  rq_Continue : bool;
  rq_CSG : Z;
  rq_NSG : Z;
  rq_ISID : isid;
  rq_TSIH : Z;
  rq_ITT : Z;
  rq_CID : Z;
  rq_CmdSN : Z;
  rq_ExpStatSN : Z;
  rq_Data : bytes;
}.

(** [binary.BigEndian.PutUint16], [PutUint32] and their inverses. *)
Definition put_be (n : nat) (x : Z) : bytes := map byte_of_Z (be_bytes n x).
Definition get_be (b : bytes) : Z := be_word (map Z_of_byte b).

(** [putDataSegmentLength]: bytes 5 to 7. *)
Definition putDataSegmentLength (n : Z) : bytes :=
  [byte_of_Z (Z.shiftr n 16); byte_of_Z (Z.shiftr n 8); byte_of_Z n].

Definition loginFlags (r : loginRequest) : Z :=
  let f := if rq_Transit r then flagTransit else 0 in
  let f := if rq_Continue r then Z.lor f flagContinue else f in
  let f := Z.lor f (Z.shiftl (Z.land (rq_CSG r) 3) 2) in
  if rq_Transit r then Z.lor f (Z.land (rq_NSG r) 3) else f.

Definition marshal (r : loginRequest) : result string (bytes * bytes) :=
  if (maxLoginDataLen <? length (rq_Data r))%nat then Err "login request data segment exceeds the kernel limit"
  else
    let zero := byte_of_Z 0 in
    Ok ([byte_of_Z (Z.lor opImmediate opLoginReq); byte_of_Z (loginFlags r); zero; zero; zero]
          ++ putDataSegmentLength (Z.of_nat (length (rq_Data r)))
          ++ rq_ISID r ++ put_be 2 (rq_TSIH r) ++ put_be 4 (rq_ITT r) ++ put_be 2 (rq_CID r) ++ [zero; zero]
          ++ put_be 4 (rq_CmdSN r) ++ put_be 4 (rq_ExpStatSN r) ++ replicate 16 zero,
        rq_Data r).

(** Byte [i] of a header. *)
Definition byte_at (h : bytes) (i : nat) : Z := Z_of_byte (nth i h (byte_of_Z 0)).
Definition slice (h : bytes) (i n : nat) : bytes := take n (drop i h).

Definition dataSegmentLength (h : bytes) : Z :=
  Z.lor (Z.lor (Z.shiftl (byte_at h 5) 16) (Z.shiftl (byte_at h 6) 8)) (byte_at h 7).

Record loginResponse := {
  rs_Transit : bool;
  rs_Continue : bool;
  rs_CSG : Z;
  rs_NSG : Z;
  rs_VersionMax : Z;
  rs_VersionActive : Z;
  rs_ISID : isid;
  rs_TSIH : Z;
  rs_ITT : Z;
  rs_StatSN : Z;
  rs_ExpCmdSN : Z;
  rs_MaxCmdSN : Z;
  rs_StatusClass : Z;
  rs_StatusDetail : Z;
  rs_Data : bytes;
}.

Definition splitPDU (pdu : bytes) : result string (bytes * bytes) :=
  if (length pdu <? bhsLen)%nat then Err "decode iSCSI PDU: short header"
  else
    let hdr := take bhsLen pdu in
    if negb (byte_at hdr 4 * 4 =? 0) then Err "decode iSCSI PDU: unexpected AHS"
    else
      let dl := dataSegmentLength hdr in
      let rest := drop bhsLen pdu in
      if Z.of_nat (length rest) <? dl then Err "decode iSCSI PDU: data segment length exceeds the received bytes"
      else Ok (hdr, take (Z.to_nat dl) rest).

Definition pduOpcode (pdu : bytes) : Z :=
  match pdu with [] => 0 | b :: _ => Z.land (Z_of_byte b) opcodeMask end.

Definition parseLoginResponse (pdu : bytes) : result string loginResponse :=
  '(hdr, data) ← splitPDU pdu;
  let op := Z.land (byte_at hdr 0) opcodeMask in
  if op =? opReject then Err "target sent Reject PDU instead of a login response"
  else if negb (op =? opLoginRsp) then Err "expected login response opcode"
  else
    let r := {|
      rs_Transit := negb (Z.land (byte_at hdr 1) flagTransit =? 0);
      rs_Continue := negb (Z.land (byte_at hdr 1) flagContinue =? 0);
      rs_CSG := Z.land (Z.shiftr (byte_at hdr 1) 2) 3;
      rs_NSG := Z.land (byte_at hdr 1) 3;
      rs_VersionMax := byte_at hdr 2;
      rs_VersionActive := byte_at hdr 3;
      rs_ISID := slice hdr 8 6;
      rs_TSIH := get_be (slice hdr 14 2);
      rs_ITT := get_be (slice hdr 16 4);
      rs_StatSN := get_be (slice hdr 24 4);
      rs_ExpCmdSN := get_be (slice hdr 28 4);
      rs_MaxCmdSN := get_be (slice hdr 32 4);
      rs_StatusClass := byte_at hdr 36;
      rs_StatusDetail := byte_at hdr 37;
      rs_Data := data |} in
    if rs_Transit r && rs_Continue r then Err "decode login response: T and C bits both set" else Ok r.

Definition marshalLogoutRequest : bytes :=
  [byte_of_Z (Z.lor opImmediate opLogoutReq); byte_of_Z (Z.lor flagFinal logoutReasonCloseSession)]
    ++ replicate 46 (byte_of_Z 0).

Definition parseLogoutResponse (pdu : bytes) : result string Z :=
  '(hdr, _) ← splitPDU pdu;
  if negb (Z.land (byte_at hdr 0) opcodeMask =? opLogoutRsp) then Err "expected logout response opcode"
  else Ok (byte_at hdr 2).

(** ** Login text *)

Record textKV := { Key : string; Value : string }.
#[export] Instance textKV_eq_dec : EqDecision textKV.
Proof. solve_decision. Defined.

Definition NUL : ascii := byte_of_Z 0.

Fixpoint encodeText (kvs : list textKV) : bytes :=
  match kvs with
  | [] => []
  | kv :: kvs =>
      bytes_of_string (Key kv) ++ ["="%char] ++ bytes_of_string (Value kv) ++ [NUL] ++ encodeText kvs
  end.

(** The pairs of the NUL-separated fields, empty ones skipped. *)
Fixpoint decodeFields (fs : list string) : result string (list textKV) :=
  match fs with
  | [] => Ok []
  | f :: fs =>
      if bool_decide (f = "") then decodeFields fs
      else
        let '(k, v, ok) := Cut "=" f in
        if negb ok || bool_decide (k = "") then Err "decode login text: malformed pair"
        else kvs ← decodeFields fs; Ok ({| Key := k; Value := v |} :: kvs)
  end.

Definition decodeText (data : bytes) : result string (list textKV) :=
  decodeFields (Split NUL (string_of_bytes data)).

(** ** Theorems *)

(** The fields of a Login Request header at the places RFC 7143 section 11.12
    gives them, as a target reads them. *)
Record request_header := {
  rh_opcode : Z; rh_immediate : bool; rh_transit : bool; rh_continue : bool; rh_csg : Z; rh_nsg : Z;
  rh_versions : Z * Z; rh_ahs : Z; rh_datalen : Z; rh_isid : bytes; rh_tsih : Z; rh_itt : Z; rh_cid : Z;
  rh_cmdsn : Z; rh_expstatsn : Z;
}.

Definition read_request (h : bytes) : request_header := {|
  rh_opcode := byte_at h 0 `mod` 64; rh_immediate := Z.testbit (byte_at h 0) 6;
  rh_transit := Z.testbit (byte_at h 1) 7; rh_continue := Z.testbit (byte_at h 1) 6;
  rh_csg := (byte_at h 1 `div` 4) `mod` 4; rh_nsg := byte_at h 1 `mod` 4;
  rh_versions := (byte_at h 2, byte_at h 3); rh_ahs := byte_at h 4;
  rh_datalen := byte_at h 5 * 65536 + byte_at h 6 * 256 + byte_at h 7;
  rh_isid := slice h 8 6; rh_tsih := get_be (slice h 14 2); rh_itt := get_be (slice h 16 4);
  rh_cid := get_be (slice h 20 2); rh_cmdsn := get_be (slice h 24 4); rh_expstatsn := get_be (slice h 28 4) |}.

(** The widths of the fields of a request. *)
Definition request_wf (r : loginRequest) : Prop :=
  0 ≤ rq_CSG r < 4 ∧ 0 ≤ rq_NSG r < 4 ∧ length (rq_ISID r) = 6%nat ∧
  0 ≤ rq_TSIH r < 2 ^ 16 ∧ 0 ≤ rq_ITT r < 2 ^ 32 ∧ 0 ≤ rq_CID r < 2 ^ 16 ∧
  0 ≤ rq_CmdSN r < 2 ^ 32 ∧ 0 ≤ rq_ExpStatSN r < 2 ^ 32.

Lemma put_be_2 x : put_be 2 x = [byte_of_Z (x `div` 256); byte_of_Z x].
Proof.
  unfold put_be, be_bytes, le_bytes. cbn [seq map rev app]. rewrite !Z.shiftr_div_pow2 by lia.
  change (2 ^ (8 * Z.of_nat 0)) with 1. change (2 ^ (8 * Z.of_nat 1)) with 256. rewrite Z.div_1_r.
  unfold byte_of_Z. by rewrite !Zmod_mod.
Qed.

Lemma put_be_4 x :
  put_be 4 x = [byte_of_Z (x `div` 16777216); byte_of_Z (x `div` 65536); byte_of_Z (x `div` 256); byte_of_Z x].
Proof.
  unfold put_be, be_bytes, le_bytes. cbn [seq map rev app]. rewrite !Z.shiftr_div_pow2 by lia.
  change (2 ^ (8 * Z.of_nat 0)) with 1. change (2 ^ (8 * Z.of_nat 1)) with 256.
  change (2 ^ (8 * Z.of_nat 2)) with 65536. change (2 ^ (8 * Z.of_nat 3)) with 16777216. rewrite Z.div_1_r.
  unfold byte_of_Z. by rewrite !Zmod_mod.
Qed.

Lemma get_put_be_2 x : 0 ≤ x < 2 ^ 16 → get_be (put_be 2 x) = x.
Proof.
  intros H. rewrite put_be_2. unfold get_be, be_word. cbn [map foldl]. rewrite !Z_of_byte_of_Z.
  pose proof (Z.div_mod x 256). rewrite (Z.mod_small (x `div` 256)); [lia|].
  split; [apply Z.div_pos; lia|apply Z.div_lt_upper_bound; lia].
Qed.

Lemma div_mod_step x a : 0 < a → (x `div` a) `mod` 256 = x `div` a - 256 * (x `div` (a * 256)).
Proof. intros Ha. rewrite <- Z.div_div by lia. pose proof (Z.div_mod (x `div` a) 256). lia. Qed.

Lemma get_put_be_4 x : 0 ≤ x < 2 ^ 32 → get_be (put_be 4 x) = x.
Proof.
  intros H. rewrite put_be_4. unfold get_be, be_word. cbn [map foldl]. rewrite !Z_of_byte_of_Z.
  rewrite (div_mod_step x 16777216), (div_mod_step x 65536), (div_mod_step x 256) by lia.
  rewrite (Z.div_small x (16777216 * 256)) by lia.
  pose proof (Z.div_mod x 256).
  change (65536 * 256) with 16777216. change (256 * 256) with 65536. lia.
Qed.

Lemma get_be_2 x : 0 ≤ x < 2 ^ 16 → get_be [byte_of_Z (x `div` 256); byte_of_Z x] = x.
Proof. rewrite <- put_be_2. apply get_put_be_2. Qed.
Lemma get_be_4 x :
  0 ≤ x < 2 ^ 32 →
  get_be [byte_of_Z (x `div` 16777216); byte_of_Z (x `div` 65536); byte_of_Z (x `div` 256); byte_of_Z x] = x.
Proof. rewrite <- put_be_4. apply get_put_be_4. Qed.

Lemma length6 (l : bytes) : length l = 6%nat → ∃ a b c d e f, l = [a; b; c; d; e; f].
Proof. destruct l as [|a [|b [|c [|d [|e [|f [|]]]]]]]; cbn; intros; try lia. eauto 10. Qed.

(** The bits of the flag byte. *)
Lemma loginFlags_bits r :
  0 ≤ rq_CSG r < 4 → 0 ≤ rq_NSG r < 4 →
  0 ≤ loginFlags r < 256 ∧ Z.testbit (loginFlags r) 7 = rq_Transit r ∧ Z.testbit (loginFlags r) 6 = rq_Continue r ∧
  (loginFlags r `div` 4) `mod` 4 = rq_CSG r ∧ loginFlags r `mod` 4 = (if rq_Transit r then rq_NSG r else 0).
Proof.
  intros HC HN. unfold loginFlags.
  assert (rq_CSG r = 0 ∨ rq_CSG r = 1 ∨ rq_CSG r = 2 ∨ rq_CSG r = 3) as Hc by lia.
  assert (rq_NSG r = 0 ∨ rq_NSG r = 1 ∨ rq_NSG r = 2 ∨ rq_NSG r = 3) as Hn by lia.
  destruct Hc as [-> | [-> | [-> | ->]]], Hn as [-> | [-> | [-> | ->]]], (rq_Transit r), (rq_Continue r);
    vm_compute; intuition congruence.
Qed.

Definition read_back (r : loginRequest) : request_header := {|
  rh_opcode := opLoginReq; rh_immediate := true; rh_transit := rq_Transit r; rh_continue := rq_Continue r;
  rh_csg := rq_CSG r; rh_nsg := if rq_Transit r then rq_NSG r else 0; rh_versions := (0, 0); rh_ahs := 0;
  rh_datalen := Z.of_nat (length (rq_Data r)); rh_isid := rq_ISID r; rh_tsih := rq_TSIH r; rh_itt := rq_ITT r;
  rh_cid := rq_CID r; rh_cmdsn := rq_CmdSN r; rh_expstatsn := rq_ExpStatSN r |}.

(** A marshalled login request carries every field at its place in the
    48-byte header, without truncation: reading the header back as RFC 7143
    lays it out gives the request, with NSG reserved as 0 unless it transits,
    and DataSegmentLength the length of the data that follows. *)
Theorem marshal_roundtrip r :
  request_wf r → (length (rq_Data r) ≤ maxLoginDataLen)%nat →
  ∃ hdr, marshal r = Ok (hdr, rq_Data r) ∧ length hdr = bhsLen ∧ read_request hdr = read_back r.
Proof.
  intros (HC&HN&HI&HT&HITT&HCID&HCmd&HExp) Hlen.
  destruct (length6 _ HI) as (i0&i1&i2&i3&i4&i5&EI). destruct (loginFlags_bits r HC HN) as (Hf&F1&F2&F3&F4).
  unfold marshal. rewrite (proj2 (Nat.ltb_ge _ _) Hlen). rewrite EI.
  eexists. split; [reflexivity|].
  rewrite !put_be_2, !put_be_4. split; [reflexivity|].
  unfold read_request, read_back. unfold putDataSegmentLength.
  set (n := Z.of_nat (length (rq_Data r))). assert (0 ≤ n ≤ 8192) as Hn by (unfold n, maxLoginDataLen in *; lia).
  assert (byte_at [byte_of_Z (loginFlags r)] 0 = loginFlags r) as EF.
  { unfold byte_at. cbn [nth]. rewrite Z_of_byte_of_Z. apply Z.mod_small. lia. }
  unfold byte_at in *. cbn [app nth replicate] in *. unfold slice. cbn [app drop take replicate].
  rewrite !get_be_4, !get_be_2 by done. rewrite EF, F1, F2, F3, F4, EI.
  rewrite !Z_of_byte_of_Z, !Z.shiftr_div_pow2 by lia. change (2 ^ 16) with 65536. change (2 ^ 8) with 256.
  f_equal; try reflexivity.
  rewrite (Z.div_small n 65536) by lia. rewrite (Z.mod_small (n `div` 256)) by (split; [apply Z.div_pos|apply Z.div_lt_upper_bound]; lia).
  pose proof (Z.div_mod n 256). rewrite Z.mod_0_l by lia. lia.
Qed.

(** *** Text *)

(** A pair that can be sent: a key without ['='], and no NUL anywhere. *)
Definition kv_wf (kv : textKV) : Prop :=
  Key kv ≠ "" ∧ ("="%char ∉ bytes_of_string (Key kv)) ∧
  (NUL ∉ bytes_of_string (Key kv)) ∧ (NUL ∉ bytes_of_string (Value kv)).

(** Login text survives the wire: decoding the encoding of a list of
    key=value pairs gives the list back, for keys without ['='] and pairs
    without NUL bytes. *)
Theorem text_roundtrip kvs :
  Forall kv_wf kvs → decodeText (encodeText kvs) = Ok kvs.
Proof.
  unfold decodeText. induction 1 as [|kv kvs (Hne&Heq&Hnk&Hnv) _ IH]; [reflexivity|].
  set (field := Key kv +:+ String "=" (Value kv)).
  assert (string_of_bytes (encodeText (kv :: kvs)) = field +:+ String NUL (string_of_bytes (encodeText kvs))) as ->.
  { cbn [encodeText]. rewrite !string_of_bytes_app, !string_of_bytes_of_string. unfold field.
    assert (∀ a b c, (a +:+ b) +:+ c = a +:+ b +:+ c) as Hassoc
      by (intros a b c; induction a as [|x a IHa]; [done|];
        change (String x ((a +:+ b) +:+ c) = String x (a +:+ b +:+ c)); by rewrite IHa).
    by rewrite Hassoc. }
  rewrite Split_sep.
  2: { unfold field. rewrite bytes_of_string_app. apply not_elem_of_app. split; [done|].
       apply not_elem_of_cons. split; [done|exact Hnv]. }
  cbn [decodeFields]. rewrite bool_decide_eq_false_2 by (unfold field; by destruct (Key kv)).
  unfold field. rewrite Cut_sep by done. cbn [negb orb]. rewrite bool_decide_eq_false_2 by done.
  rewrite IH. cbn. by destruct kv.
Qed.

(** Splitting a PDU never reads past what was received: the header is the
    48 bytes in front, the data segment is exactly the declared length and
    follows it, and there is no additional header. *)
Theorem splitPDU_spec pdu hdr data :
  splitPDU pdu = Ok (hdr, data) ↔
  ∃ pad, pdu = hdr ++ data ++ pad ∧ length hdr = bhsLen ∧ byte_at hdr 4 = 0 ∧
         Z.of_nat (length data) = dataSegmentLength hdr.
Proof.
  assert (∀ i, 0 ≤ byte_at (take bhsLen pdu) i) as Hb by (intros i; apply Z_of_byte_bound).
  assert (∀ h, 0 ≤ dataSegmentLength h) as Hd.
  { intros h. unfold dataSegmentLength. rewrite !Z.lor_nonneg, !Z.shiftl_nonneg. split_and!; apply Z_of_byte_bound. }
  unfold splitPDU. split.
  - destruct (Nat.ltb_spec (length pdu) bhsLen); [done|].
    destruct (Z.eqb_spec (byte_at (take bhsLen pdu) 4 * 4) 0); [|done]. cbn [negb].
    destruct (Z.ltb_spec (Z.of_nat (length (drop bhsLen pdu))) (dataSegmentLength (take bhsLen pdu))); [done|].
    intros [= <- <-]. exists (drop (Z.to_nat (dataSegmentLength (take bhsLen pdu))) (drop bhsLen pdu)).
    rewrite take_drop, take_drop. split_and!; [done|rewrite length_take; lia|lia|].
    rewrite length_take. pose proof (Hd (take bhsLen pdu)). lia.
  - intros (pad&->&Hl&H4&Hlen). rewrite length_app, Hl.
    destruct (Nat.ltb_spec (bhsLen + length (data ++ pad)) bhsLen); [lia|].
    rewrite take_app_length', drop_app_length' by done. rewrite H4. cbn [negb Z.mul Z.eqb].
    rewrite length_app. destruct (Z.ltb_spec (Z.of_nat (length data + length pad)) (dataSegmentLength hdr)); [lia|].
    by rewrite <- Hlen, Nat2Z.id, take_app_length.
Qed.

(** ** Concrete runs *)

Definition ex_request : loginRequest := {|
  rq_Transit := true; rq_Continue := false; rq_CSG := 0; rq_NSG := 1;
  rq_ISID := map byte_of_Z [128; 1; 2; 3; 4; 5]; rq_TSIH := 0x1234; rq_ITT := 7; rq_CID := 1;
  rq_CmdSN := 0xdeadbeef; rq_ExpStatSN := 0;
  rq_Data := encodeText [{| Key := "SessionType"; Value := "Normal" |}] |}.

Lemma marshal_roundtrip_witness : ∃ hdr, marshal ex_request = Ok (hdr, rq_Data ex_request) ∧ length hdr = bhsLen.
Proof.
  destruct (marshal_roundtrip ex_request) as (hdr & H1 & H2 & _); [|vm_compute; lia|].
  - unfold request_wf; cbn; lia.
  - exists hdr. auto.
Defined.

Lemma text_roundtrip_witness :
  decodeText (encodeText [{| Key := "AuthMethod"; Value := "CHAP" |}]) = Ok [{| Key := "AuthMethod"; Value := "CHAP" |}].
Proof.
  apply (text_roundtrip [{| Key := "AuthMethod"; Value := "CHAP" |}]). repeat constructor; vm_compute; try done;
    intros H; repeat (apply elem_of_cons in H as [H|H]; [discriminate|]); by apply elem_of_nil in H.
Defined.
