(* ===== verification/IscsiChap.v ===== *)
(** * CHAP authentication of an iSCSI login (internal/iscsi/chap.go)

    The exchange of one login runs on a [chapState] and on two things the
    process shares between logins: the table of challenges it has outstanding
    and the random source. *)
From stdpp Require Import base numbers list strings gmap pretty.
From Stdlib Require Import Ascii.
From S2P Require Import Prelude GoStd GoNet IscsiPdu.
Open Scope Z_scope.

Definition authMethodCHAP : string := "CHAP".
Definition chapAlgorithmMD5 : string := "5".
Definition keyAuthMethod : string := "AuthMethod".
Definition keyCHAPA : string := "CHAP_A".
Definition keyCHAPI : string := "CHAP_I".
Definition keyCHAPC : string := "CHAP_C".
Definition keyCHAPN : string := "CHAP_N".
Definition keyCHAPR : string := "CHAP_R".
Definition valueNone : string := "None".
Definition chapChallengeLength : nat := 16.
Definition maxCHAPChallengeLength : nat := Z.to_nat 1024.

Record Portal := { Address : string; Port : Z }.

(** Errors of a login: one that wraps ErrTargetAuthenticationFailed, a
    [LoginError] with its status and redirect, or any other. *)
Inductive login_error :=
| LMsg (msg : string)
| LTargetAuthenticationFailed (msg : string)
| LoginError (class detail : Z) (redirect : option Portal).

Record CHAPCredentials := {
  Username : string;
  Secret : string;
  MutualUsername : string;
  MutualSecret : string;
}.

Definition Mutual (c : CHAPCredentials) : bool :=
  negb (bool_decide (MutualUsername c = "")) || negb (bool_decide (MutualSecret c = "")).

Definition validate (c : CHAPCredentials) : result login_error unit :=
  if bool_decide (Username c = "") then Err (LMsg "CHAP username is empty")
  else if bool_decide (Secret c = "") then Err (LMsg "CHAP secret is empty")
  else if Mutual c && bool_decide (MutualUsername c = "") then Err (LMsg "mutual CHAP username is empty")
  else if Mutual c && bool_decide (MutualSecret c = "") then Err (LMsg "mutual CHAP secret is empty")
  else if Mutual c && bool_decide (MutualSecret c = Secret c) then
    Err (LMsg "mutual CHAP secret equals the CHAP secret")
  else Ok tt.

Inductive chapStep := chapAwaitMethod | chapAwaitChallenge | chapAwaitResult | chapAwaitMutual | chapDone.
#[export] Instance chapStep_eq_dec : EqDecision chapStep.
Proof. solve_decision. Defined.

Definition chapResponse (id : ascii) (secret : string) (challenge : bytes) : bytes :=
  md5 ([id] ++ bytes_of_string secret ++ challenge).

Definition decodeCHAPBinary (v : string) : result login_error bytes :=
  let malformed := Err (LMsg "not a 0x (hex) or 0b (base64) encoded binary value") in
  match v with
  | String c0 (String c1 (String _ _ as body)) =>
      if negb (Ascii.eqb c0 "0") then malformed
      else
        let decoded :=
          if Ascii.eqb c1 "x" || Ascii.eqb c1 "X" then
            Some (hex_decode (if Nat.odd (String.length body) then String "0" body else body))
          else if Ascii.eqb c1 "b" || Ascii.eqb c1 "B" then
            Some (match b64_decode true body with Some b => Some b | None => b64_decode false body end)
          else None in
        match decoded with
        | None => malformed
        | Some None => Err (LMsg "decode")
        | Some (Some []) => Err (LMsg "empty")
        | Some (Some b) => Ok b
        end
  | _ => malformed
  end.

Definition encodeCHAPBinary (b : bytes) : string := "0x" +:+ hex_encode b.

Definition parseCHAPID (v : string) : result login_error ascii :=
  let '(base, digits) := if HasPrefix v "0x" || HasPrefix v "0X" then (16, drop_string 2 v) else (10, v) in
  match ParseUint digits base 8 with
  | Some n => Ok (byte_of_Z n)
  | None => Err (LMsg "parse CHAP_I")
  end.

(** ** Process state *)

(** [outstandingChallenges] counts logins per challenge; [p_rand] are the
    buffers [rand.Read] will return, first byte and rest, until it fails. *)
Record process := { p_outstanding : gmap string Z; p_rand : list (ascii * bytes) }.

Definition set_outstanding (p : process) (m : gmap string Z) : process :=
  {| p_outstanding := m; p_rand := p_rand p |}.

Definition count (m : gmap string Z) (k : string) : Z := default 0 (m !! k).

Definition registerChallenge (c : bytes) (m : gmap string Z) : gmap string Z :=
  let k := string_of_bytes c in <[k := count m k + 1]> m.

Definition releaseChallenge (k : string) (m : gmap string Z) : gmap string Z :=
  let n := count m k - 1 in if n <=? 0 then delete k m else <[k := n]> m.

Definition isOutstandingChallenge (c : bytes) (m : gmap string Z) : bool :=
  0 <? count m (string_of_bytes c).

(** The draws [newMutualChallenge] makes: the first one whose challenge
    differs from the target's, and the draws left. *)
Fixpoint newMutualChallenge (targetChallenge : bytes) (draws : list (ascii * bytes))
    : option (ascii * bytes) * list (ascii * bytes) :=
  match draws with
  | [] => (None, [])
  | (id, challenge) :: draws =>
      if negb (bool_decide (challenge = targetChallenge)) then (Some (id, challenge), draws)
      else newMutualChallenge targetChallenge draws
  end.

(** ** The exchange *)

(** [cs_release] is the challenge the release function gives back, when set. *)
Record chapState := {
  cs_creds : CHAPCredentials;
  cs_step : chapStep;
  cs_recv : gmap string string;
  cs_id : ascii;
  cs_challenge : bytes;
  cs_release : option string;
}.

Definition newChapState (creds : CHAPCredentials) : chapState := {|
  cs_creds := creds; cs_step := chapAwaitMethod; cs_recv := ∅; cs_id := byte_of_Z 0; cs_challenge := [];
  cs_release := None |}.

Definition set_step (c : chapState) (step : chapStep) : chapState := {|
  cs_creds := cs_creds c; cs_step := step; cs_recv := cs_recv c; cs_id := cs_id c;
  cs_challenge := cs_challenge c; cs_release := cs_release c |}.
Definition set_recv (c : chapState) (recv : gmap string string) : chapState := {|
  cs_creds := cs_creds c; cs_step := cs_step c; cs_recv := recv; cs_id := cs_id c;
  cs_challenge := cs_challenge c; cs_release := cs_release c |}.
Definition set_mutual (c : chapState) (id : ascii) (challenge : bytes) (release : option string) : chapState := {|
  cs_creds := cs_creds c; cs_step := cs_step c; cs_recv := cs_recv c; cs_id := id;
  cs_challenge := challenge; cs_release := release |}.

(** Code of the exchange runs on the exchange's state and the process. *)
Definition Chap := M (chapState * process) login_error.

Definition store (key value : string) (c : chapState) : result login_error chapState :=
  match cs_recv c !! key with
  | Some _ => Err (LMsg "target sent a key twice in one response")
  | None => Ok (set_recv c (<[key := value]> (cs_recv c)))
  end.

Definition close (c : chapState) (p : process) : chapState * process :=
  match cs_release c with
  | None => (c, p)
  | Some k => (set_mutual c (cs_id c) (cs_challenge c) None,
               set_outstanding p (releaseChallenge k (p_outstanding p)))
  end.

Definition unexpected (allowed : list string) (c : chapState) : result login_error unit :=
  if forallb (λ kv, containsb allowed kv.1) (map_to_list (cs_recv c)) then Ok tt
  else Err (LMsg "target sent an unexpected key during CHAP authentication").

Definition kv (k v : string) : textKV := {| Key := k; Value := v |}.

Definition onMethod : Chap (list textKV * bool) :=
  c ← reads fst;
  lift (unexpected [keyAuthMethod] c) ;;
  match cs_recv c !! keyAuthMethod with
  | None => throw (LMsg "target did not answer AuthMethod=CHAP")
  | Some method =>
      if decide (method = valueNone) then throw (LMsg "target selected AuthMethod=None although CHAP credentials are configured")
      else if decide (method ≠ authMethodCHAP) then throw (LMsg "target answered another AuthMethod to the CHAP offer")
      else
        modify (λ '(c, p), (set_step c chapAwaitChallenge, p)) ;;
        mret ([kv keyCHAPA chapAlgorithmMD5], true)
  end.

Definition recvKey (k : string) (c : chapState) : result login_error string :=
  match cs_recv c !! k with Some v => Ok v | None => Err (LMsg "target CHAP challenge lacks a key") end.

Definition onChallenge : Chap (list textKV * bool) :=
  '(c, p) ← reads id;
  lift (unexpected [keyCHAPA; keyCHAPI; keyCHAPC] c) ;;
  a ← lift (recvKey keyCHAPA c);
  i ← lift (recvKey keyCHAPI c);
  ch ← lift (recvKey keyCHAPC c);
  if decide (a ≠ chapAlgorithmMD5) then throw (LMsg "target selected another CHAP_A; only MD5 is supported")
  else
    id ← lift (parseCHAPID i);
    targetChallenge ← lift (decodeCHAPBinary ch);
    if (maxCHAPChallengeLength <? length targetChallenge)%nat then throw (LMsg "target CHAP challenge is too long")
    else if isOutstandingChallenge targetChallenge (p_outstanding p) then
      throw (LMsg "target reflected a CHAP challenge this initiator issued; refusing the login")
    else
      let creds := cs_creds c in
      let response := encodeCHAPBinary (chapResponse id (Secret creds) targetChallenge) in
      if negb (Mutual creds) then
        modify (λ '(c, p), (set_step c chapAwaitResult, p)) ;;
        mret ([kv keyCHAPN (Username creds); kv keyCHAPR response], false)
      else
        let '(draw, rest) := newMutualChallenge targetChallenge (p_rand p) in
        modify (λ '(c, p), (c, {| p_outstanding := p_outstanding p; p_rand := rest |})) ;;
        match draw with
        | None => throw (LMsg "generate mutual CHAP challenge")
        | Some (ourID, challenge) =>
            modify (λ '(c, p),
              (set_step (set_mutual c ourID challenge (Some (string_of_bytes challenge))) chapAwaitMutual,
               set_outstanding p (registerChallenge challenge (p_outstanding p)))) ;;
            mret ([kv keyCHAPN (Username creds); kv keyCHAPR response;
                   kv keyCHAPI (Itoa (Z_of_byte ourID)); kv keyCHAPC (encodeCHAPBinary challenge)], false)
        end.

Definition targetAuth (e : login_error) : login_error :=
  match e with LMsg m => LTargetAuthenticationFailed m | e => e end.

Definition onMutualResponse : Chap unit :=
  c ← reads fst;
  lift (unexpected [keyCHAPN; keyCHAPR] c) ;;
  match cs_recv c !! keyCHAPN, cs_recv c !! keyCHAPR with
  | Some name, Some resp =>
      if decide (name ≠ MutualUsername (cs_creds c)) then
        throw (LTargetAuthenticationFailed "CHAP_N does not match the mutual username")
      else
        match decodeCHAPBinary resp with
        | Err e => throw (targetAuth e)
        | Ok got =>
            let want := chapResponse (cs_id c) (MutualSecret (cs_creds c)) (cs_challenge c) in
            if decide (got ≠ want) then throw (LTargetAuthenticationFailed "wrong CHAP_R (mutual secret mismatch)")
            else
              modify (λ '(c, p), close c p) ;;
              modify (λ '(c, p), (set_step c chapDone, p))
        end
  | _, _ => throw (LTargetAuthenticationFailed "target did not answer the mutual CHAP challenge")
  end.

(** Run [m] and clear [recv] however it ends. *)
Definition clearing_recv {A} (m : Chap A) : Chap A := λ w,
  let '(r, (c, p)) := m w in (r, (set_recv c ∅, p)).

Definition advance : Chap (list textKV * bool) := clearing_recv (
  c ← reads fst;
  match cs_step c with
  | chapAwaitMethod => onMethod
  | chapAwaitChallenge => onChallenge
  | chapAwaitMutual => onMutualResponse ;; mret ([], false)
  | chapAwaitResult | chapDone =>
      lift (unexpected [] c) ;;
      modify (λ '(c, p), (set_step c chapDone, p)) ;;
      mret ([], false)
  end).
