(* ===== verification/IscsiLogin.v ===== *)
(** * The iSCSI login phase (internal/iscsi/login.go)

    Security negotiation, then operational negotiation, against a target that
    answers as it pleases: [exchange] is what the target does with a request.
    The state of a login, the process and the target are threaded explicitly;
    an error keeps them, because the deferred clean-up of [loginSession] runs
    on them. *)
From stdpp Require Import base numbers list strings gmap pretty.
From Stdlib Require Import Ascii.
From S2P Require Import Prelude GoStd GoNet IscsiPdu IscsiChap.
Open Scope Z_scope.

Definition offerMaxRecvDataSegmentLength : Z := 262144.
Definition offerMaxBurstLength : Z := 16776192.
Definition offerFirstBurstLength : Z := 262144.
Definition offerMaxOutstandingR2T : Z := 1.
Definition offerDefaultTime2Wait : Z := 2.
Definition offerDefaultTime2Retain : Z := 0.
Definition offerErrorRecoveryLevel : Z := 0.
Definition maxLoginRounds : nat := 32.
Definition DefaultPort : Z := 3260.

Definition keyMaxRecvDataSegmentLength : string := "MaxRecvDataSegmentLength".
Definition valueYes : string := "Yes".
Definition valueNo : string := "No".

(** ** Negotiated parameters *)

Record negotiated := {
  HeaderDigest : bool;
  DataDigest : bool;
  MaxRecvDLength : Z;
  MaxXmitDLength : Z;
  InitialR2T : bool;
  ImmediateData : bool;
  MaxBurstLength : Z;
  FirstBurstLength : Z;
  MaxOutstandingR2T : Z;
  DataPDUInOrder : bool;
  DataSequenceInOrder : bool;
  ErrorRecoveryLevel : Z;
  IFMarker : bool;
  OFMarker : bool;
  DefaultTime2Wait : Z;
  DefaultTime2Retain : Z;
}.

Definition rfcDefaults : negotiated := {|
  HeaderDigest := false; DataDigest := false; MaxRecvDLength := offerMaxRecvDataSegmentLength;
  MaxXmitDLength := 8192; InitialR2T := true; ImmediateData := true; MaxBurstLength := 262144;
  FirstBurstLength := 65536; MaxOutstandingR2T := 1; DataPDUInOrder := true; DataSequenceInOrder := true;
  ErrorRecoveryLevel := 0; IFMarker := false; OFMarker := false; DefaultTime2Wait := 2;
  DefaultTime2Retain := 20 |}.

(** Assignment through the pointer to the named field. *)
Definition set_bool (key : string) (b : bool) (n : negotiated) : negotiated := {|
  HeaderDigest := if decide (key = "HeaderDigest") then b else HeaderDigest n;
  DataDigest := if decide (key = "DataDigest") then b else DataDigest n;
  MaxRecvDLength := MaxRecvDLength n; MaxXmitDLength := MaxXmitDLength n;
  InitialR2T := if decide (key = "InitialR2T") then b else InitialR2T n;
  ImmediateData := if decide (key = "ImmediateData") then b else ImmediateData n;
  MaxBurstLength := MaxBurstLength n; FirstBurstLength := FirstBurstLength n;
  MaxOutstandingR2T := MaxOutstandingR2T n;
  DataPDUInOrder := if decide (key = "DataPDUInOrder") then b else DataPDUInOrder n;
  DataSequenceInOrder := if decide (key = "DataSequenceInOrder") then b else DataSequenceInOrder n;
  ErrorRecoveryLevel := ErrorRecoveryLevel n;
  IFMarker := if decide (key = "IFMarker") then b else IFMarker n;
  OFMarker := if decide (key = "OFMarker") then b else OFMarker n;
  DefaultTime2Wait := DefaultTime2Wait n; DefaultTime2Retain := DefaultTime2Retain n |}.

Definition set_num (key : string) (x : Z) (n : negotiated) : negotiated := {|
  HeaderDigest := HeaderDigest n; DataDigest := DataDigest n; MaxRecvDLength := MaxRecvDLength n;
  MaxXmitDLength := if decide (key = keyMaxRecvDataSegmentLength) then x else MaxXmitDLength n;
  InitialR2T := InitialR2T n; ImmediateData := ImmediateData n;
  MaxBurstLength := if decide (key = "MaxBurstLength") then x else MaxBurstLength n;
  FirstBurstLength := if decide (key = "FirstBurstLength") then x else FirstBurstLength n;
  MaxOutstandingR2T := if decide (key = "MaxOutstandingR2T") then x else MaxOutstandingR2T n;
  DataPDUInOrder := DataPDUInOrder n; DataSequenceInOrder := DataSequenceInOrder n;
  ErrorRecoveryLevel := if decide (key = "ErrorRecoveryLevel") then x else ErrorRecoveryLevel n;
  IFMarker := IFMarker n; OFMarker := OFMarker n;
  DefaultTime2Wait := if decide (key = "DefaultTime2Wait") then x else DefaultTime2Wait n;
  DefaultTime2Retain := if decide (key = "DefaultTime2Retain") then x else DefaultTime2Retain n |}.

Inductive keyRule := ruleMin | ruleMax | ruleOr | ruleAnd | ruleDigest.

Record operationalKey := { name : string; rule : keyRule; offer : string }.

Definition operationalOffers : list operationalKey := [
  {| name := "HeaderDigest"; rule := ruleDigest; offer := valueNone |};
  {| name := "DataDigest"; rule := ruleDigest; offer := valueNone |};
  {| name := "MaxConnections"; rule := ruleMin; offer := "1" |};
  {| name := "InitialR2T"; rule := ruleOr; offer := valueNo |};
  {| name := "ImmediateData"; rule := ruleAnd; offer := valueYes |};
  {| name := "MaxBurstLength"; rule := ruleMin; offer := Itoa offerMaxBurstLength |};
  {| name := "FirstBurstLength"; rule := ruleMin; offer := Itoa offerFirstBurstLength |};
  {| name := "DefaultTime2Wait"; rule := ruleMax; offer := Itoa offerDefaultTime2Wait |};
  {| name := "DefaultTime2Retain"; rule := ruleMin; offer := Itoa offerDefaultTime2Retain |};
  {| name := "MaxOutstandingR2T"; rule := ruleMin; offer := Itoa offerMaxOutstandingR2T |};
  {| name := "DataPDUInOrder"; rule := ruleOr; offer := valueYes |};
  {| name := "DataSequenceInOrder"; rule := ruleOr; offer := valueYes |};
  {| name := "ErrorRecoveryLevel"; rule := ruleMin; offer := Itoa offerErrorRecoveryLevel |};
  {| name := "IFMarker"; rule := ruleAnd; offer := valueNo |};
  {| name := "OFMarker"; rule := ruleAnd; offer := valueNo |} ].

Definition isNonValue (v : string) : bool :=
  bool_decide (v = "Irrelevant") || bool_decide (v = "NotUnderstood") || bool_decide (v = "Reject").

Definition parseBoolKey (v : string) : result login_error bool :=
  if decide (v = valueYes) then Ok true
  else if decide (v = valueNo) then Ok false
  else Err (LMsg "invalid boolean value").

Definition parseNumKey (v : string) : result login_error Z :=
  match ParseUint v 0 32 with Some n => Ok n | None => Err (LMsg "invalid numeric value") end.

Definition resolveBoolKey (k : operationalKey) (answer : string) : result login_error string :=
  ours ← parseBoolKey (offer k);
  theirs ← parseBoolKey answer;
  let res := match rule k with ruleOr => ours || theirs | _ => ours && theirs end in
  Ok (if res then valueYes else valueNo).

Definition resolveNumKey (k : operationalKey) (answer : string) : result login_error string :=
  ours ← parseNumKey (offer k);
  theirs ← parseNumKey answer;
  Ok (Itoa (match rule k with ruleMax => Z.max ours theirs | _ => Z.min ours theirs end)).

Definition resolveKey (k : operationalKey) (answer : string) : result login_error string :=
  match rule k with
  | ruleDigest =>
      if containsb (Split "," answer) valueNone then Ok valueNone
      else Err (LMsg "target selected a digest, only None is supported")
  | ruleOr | ruleAnd => resolveBoolKey k answer
  | ruleMin | ruleMax => resolveNumKey k answer
  end.

Definition boolKeys : list string :=
  ["InitialR2T"; "ImmediateData"; "DataPDUInOrder"; "DataSequenceInOrder"; "IFMarker"; "OFMarker"].
Definition numKeys : list string :=
  ["MaxBurstLength"; "FirstBurstLength"; "DefaultTime2Wait"; "DefaultTime2Retain"; "MaxOutstandingR2T";
   "ErrorRecoveryLevel"].

(** [boolField], [numField]: the assignment to the parameter a key
    negotiates, none for other keys. *)
Definition boolField (key : string) : option (bool → negotiated → negotiated) :=
  if containsb boolKeys key then Some (set_bool key) else None.
Definition numField (key : string) : option (Z → negotiated → negotiated) :=
  if containsb numKeys key then Some (set_num key) else None.

(** [applyNegotiated]; it stores an out-of-range MaxRecvDataSegmentLength
    before it fails, which no caller observes. *)
Definition applyNegotiated (n : negotiated) (key v : string) : result login_error negotiated :=
  if bool_decide (key = "HeaderDigest") || bool_decide (key = "DataDigest") then
    Ok (set_bool key (negb (bool_decide (v = valueNone))) n)
  else if bool_decide (key = keyMaxRecvDataSegmentLength) then
    x ← parseNumKey v;
    if (x <? 512) || (16777215 <? x) then Err (LMsg "target declared a value outside 512-16777215")
    else Ok (set_num key x n)
  else
    match boolField key, numField key with
    | Some dst, _ => b ← parseBoolKey v; Ok (dst b n)
    | None, Some dst => x ← parseNumKey v; Ok (dst x n)
    | None, None => Ok n
    end.

Definition normalized (p : Portal) : Portal := {| Address := normalizeIP (Address p); Port := Port p |}.

Definition parseTargetAddress (v : string) : result login_error Portal :=
  let addr := (Cut "," v).1.1 in
  if bool_decide (addr = "") then Err (LMsg "parse TargetAddress: empty address")
  else
    match SplitHostPort addr with
    | None => Ok (normalized {| Address := TrimSuffix (TrimPrefix addr "[") "]"; Port := DefaultPort |})
    | Some (host, portStr) =>
        match Atoi portStr with
        | Some port =>
            if (port <? 1) || (65535 <? port) then Err (LMsg "parse TargetAddress: invalid port")
            else Ok (normalized {| Address := host; Port := port |})
        | None => Err (LMsg "parse TargetAddress: invalid port")
        end
    end.

Definition finalizeNegotiated (n : negotiated) : negotiated :=
  let n := if MaxBurstLength n <? FirstBurstLength n then set_num "FirstBurstLength" (MaxBurstLength n) n else n in
  if MaxOutstandingR2T n =? 0 then set_num "MaxOutstandingR2T" 1 n else n.

(** ** Login state *)

Record loginInput := {
  in_InitiatorIQN : string;
  in_TargetIQN : string;
  in_ISID : isid;
  in_TSIH : Z;
  in_CID : Z;
  in_CHAP : option CHAPCredentials;
}.

(** [loginResult]; TPGT is -1 when the target did not declare it. *)
Record loginResult := {
  lr_TSIH : Z;
  lr_TPGT : Z;
  lr_StatSN : Z;
  lr_TargetAlias : string;
  lr_Params : negotiated;
}.

Record loginState := {
  st_in : loginInput;
  st_res : loginResult;
  st_csg : Z;
  st_pending : list textKV;
  st_offeredOperational : bool;
  st_answered : gset string;
  st_authAccepted : bool;
  st_chap : option chapState;
  st_holdTransit : bool;
  st_expStatSN : Z;
}.

(** Field assignments. *)
Definition set_res (st : loginState) (r : loginResult) : loginState := {|
  st_in := st_in st; st_res := r; st_csg := st_csg st; st_pending := st_pending st;
  st_offeredOperational := st_offeredOperational st; st_answered := st_answered st;
  st_authAccepted := st_authAccepted st; st_chap := st_chap st; st_holdTransit := st_holdTransit st;
  st_expStatSN := st_expStatSN st |}.
Definition set_csg (st : loginState) (csg : Z) : loginState := {|
  st_in := st_in st; st_res := st_res st; st_csg := csg; st_pending := st_pending st;
  st_offeredOperational := st_offeredOperational st; st_answered := st_answered st;
  st_authAccepted := st_authAccepted st; st_chap := st_chap st; st_holdTransit := st_holdTransit st;
  st_expStatSN := st_expStatSN st |}.
Definition set_pending (st : loginState) (l : list textKV) : loginState := {|
  st_in := st_in st; st_res := st_res st; st_csg := st_csg st; st_pending := l;
  st_offeredOperational := st_offeredOperational st; st_answered := st_answered st;
  st_authAccepted := st_authAccepted st; st_chap := st_chap st; st_holdTransit := st_holdTransit st;
  st_expStatSN := st_expStatSN st |}.
Definition set_offered (st : loginState) (b : bool) (answered : gset string) : loginState := {|
  st_in := st_in st; st_res := st_res st; st_csg := st_csg st; st_pending := st_pending st;
  st_offeredOperational := b; st_answered := answered;
  st_authAccepted := st_authAccepted st; st_chap := st_chap st; st_holdTransit := st_holdTransit st;
  st_expStatSN := st_expStatSN st |}.
Definition set_auth (st : loginState) (accepted : bool) (chap : option chapState) (hold : bool) : loginState := {|
  st_in := st_in st; st_res := st_res st; st_csg := st_csg st; st_pending := st_pending st;
  st_offeredOperational := st_offeredOperational st; st_answered := st_answered st;
  st_authAccepted := accepted; st_chap := chap; st_holdTransit := hold;
  st_expStatSN := st_expStatSN st |}.
Definition set_expStatSN (st : loginState) (sn : Z) : loginState := {|
  st_in := st_in st; st_res := st_res st; st_csg := st_csg st; st_pending := st_pending st;
  st_offeredOperational := st_offeredOperational st; st_answered := st_answered st;
  st_authAccepted := st_authAccepted st; st_chap := st_chap st; st_holdTransit := st_holdTransit st;
  st_expStatSN := sn |}.

Definition add_pending (st : loginState) (l : list textKV) : loginState := set_pending st (st_pending st ++ l).

Definition newLoginState (input : loginInput) : loginState := {|
  st_in := input;
  st_res := {| lr_TSIH := 0; lr_TPGT := -1; lr_StatSN := 0; lr_TargetAlias := ""; lr_Params := rfcDefaults |};
  st_csg := stageSecurity;
  st_pending := [kv "InitiatorName" (in_InitiatorIQN input); kv "TargetName" (in_TargetIQN input);
                 kv "SessionType" "Normal";
                 kv keyAuthMethod (match in_CHAP input with Some _ => authMethodCHAP | None => valueNone end)];
  st_offeredOperational := false; st_answered := ∅; st_authAccepted := false;
  st_chap := newChapState <$> in_CHAP input;
  st_holdTransit := false; st_expStatSN := 0 |}.

Definition offerOperational (st : loginState) : loginState :=
  if st_offeredOperational st then st
  else
    let offers := base.filter (λ k, name k ∉ st_answered st) operationalOffers in
    set_offered (add_pending st (map (λ k, kv (name k) (offer k)) offers
      ++ [kv keyMaxRecvDataSegmentLength (Itoa offerMaxRecvDataSegmentLength)])) true (st_answered st).

Definition nextRequest (st : loginState) : loginRequest * loginState :=
  let transit := negb (st_holdTransit st) in
  let st := set_auth st (st_authAccepted st) (st_chap st) false in
  let '(nsg, st) := if st_csg st =? stageOperational then (stageFullFeature, offerOperational st)
                    else (stageOperational, st) in
  let nsg := if transit then nsg else 0 in
  ({| rq_Transit := transit; rq_Continue := false; rq_CSG := st_csg st; rq_NSG := nsg;
      rq_ISID := in_ISID (st_in st); rq_TSIH := in_TSIH (st_in st); rq_ITT := 0; rq_CID := in_CID (st_in st);
      rq_CmdSN := 0; rq_ExpStatSN := st_expStatSN st; rq_Data := encodeText (st_pending st) |},
   set_pending st []).

(** [rejection]: the last TargetAddress of a redirect counts. *)
Fixpoint redirectOf (text : list textKV) (found : option Portal) : result login_error (option Portal) :=
  match text with
  | [] => Ok found
  | kv :: text =>
      if decide (Key kv ≠ "TargetAddress") then redirectOf text found
      else p ← parseTargetAddress (Value kv); redirectOf text (Some p)
  end.

Definition rejection (resp : loginResponse) (text : list textKV) : login_error :=
  if negb (rs_StatusClass resp =? 1) then LoginError (rs_StatusClass resp) (rs_StatusDetail resp) None
  else
    match redirectOf text None with
    | Err e => e
    | Ok r => LoginError (rs_StatusClass resp) (rs_StatusDetail resp) r
    end.

Definition checkResponse (st : loginState) (resp : loginResponse) (text : list textKV) : result login_error unit :=
  if negb (rs_StatusClass resp =? 0) then Err (rejection resp text)
  else if negb (rs_VersionActive resp =? 0) then Err (LMsg "target selected an unsupported iSCSI version")
  else if negb (rs_CSG resp =? st_csg st) then Err (LMsg "response stage does not match request stage")
  else Ok tt.

Definition applyAuthKey (st : loginState) (kv : textKV) : result login_error loginState :=
  match st_chap st with
  | Some c =>
      c' ← store (Key kv) (Value kv) c;
      Ok (set_auth st (st_authAccepted st) (Some c') (st_holdTransit st))
  | None =>
      if decide (Key kv ≠ keyAuthMethod) then Err (LMsg "target sent a CHAP key although AuthMethod=None was offered")
      else if decide (Value kv ≠ valueNone) then Err (LMsg "target requires authentication but no CHAP credentials are configured")
      else Ok (set_auth st true None (st_holdTransit st))
  end.

Definition findOffer (key : string) : option operationalKey :=
  List.find (λ k, bool_decide (name k = key)) operationalOffers.

Definition set_Params (st : loginState) (n : negotiated) : loginState :=
  let r := st_res st in
  set_res st {| lr_TSIH := lr_TSIH r; lr_TPGT := lr_TPGT r; lr_StatSN := lr_StatSN r;
                lr_TargetAlias := lr_TargetAlias r; lr_Params := n |}.

Definition applyOperational (st : loginState) (kv0 : textKV) : result login_error loginState :=
  match findOffer (Key kv0) with
  | None => Ok (if isNonValue (Value kv0) then st else add_pending st [kv (Key kv0) "NotUnderstood"])
  | Some k =>
      if isNonValue (Value kv0) then Ok st
      else
        v ← resolveKey k (Value kv0);
        let st := if st_offeredOperational st then st
                  else set_offered (add_pending st [kv (Key kv0) v]) false ({[Key kv0]} ∪ st_answered st) in
        n ← applyNegotiated (lr_Params (st_res st)) (Key kv0) v;
        Ok (set_Params st n)
  end.

Definition authKeys : list string := [keyAuthMethod; keyCHAPA; keyCHAPI; keyCHAPC; keyCHAPN; keyCHAPR].

Definition applyKey (st : loginState) (kv : textKV) : result login_error loginState :=
  let r := st_res st in
  if containsb authKeys (Key kv) then applyAuthKey st kv
  else if decide (Key kv = "TargetPortalGroupTag") then
    match ParseUint (Value kv) 0 16 with
    | None => Err (LMsg "invalid TargetPortalGroupTag")
    | Some tpgt => Ok (set_res st {| lr_TSIH := lr_TSIH r; lr_TPGT := tpgt; lr_StatSN := lr_StatSN r;
                                     lr_TargetAlias := lr_TargetAlias r; lr_Params := lr_Params r |})
    end
  else if decide (Key kv = "TargetAlias") then
    Ok (set_res st {| lr_TSIH := lr_TSIH r; lr_TPGT := lr_TPGT r; lr_StatSN := lr_StatSN r;
                      lr_TargetAlias := Value kv; lr_Params := lr_Params r |})
  else if decide (Key kv = "TargetAddress") then Ok st
  else if decide (Key kv = keyMaxRecvDataSegmentLength) then
    n ← applyNegotiated (lr_Params r) (Key kv) (Value kv); Ok (set_Params st n)
  else applyOperational st kv.

Fixpoint applyText (st : loginState) (text : list textKV) : result login_error loginState :=
  match text with
  | [] => Ok st
  | kv :: text => st ← applyKey st kv; applyText st text
  end.

Definition securityDone (st : loginState) : bool :=
  match st_chap st with
  | Some c => bool_decide (cs_step c = chapDone)
  | None => st_authAccepted st
  end.

(** [finish] *)
Definition finish (st : loginState) (resp : loginResponse) : result login_error loginState :=
  if negb (st_offeredOperational st) || negb (st_csg st =? stageOperational) then
    Err (LMsg "target skipped operational negotiation")
  else if (0 <? length (st_pending st))%nat then
    Err (LMsg "target entered full feature phase with unanswered keys")
  else if rs_TSIH resp =? 0 then Err (LMsg "final login response carries TSIH 0")
  else
    let r := st_res st in
    Ok (set_res st {| lr_TSIH := rs_TSIH resp; lr_TPGT := lr_TPGT r; lr_StatSN := rs_StatSN resp;
                      lr_TargetAlias := lr_TargetAlias r; lr_Params := finalizeNegotiated (lr_Params r) |}).

Definition transition (st : loginState) (resp : loginResponse) : result login_error (bool * loginState) :=
  if rs_NSG resp =? stageFullFeature then st ← finish st resp; Ok (true, st)
  else if rs_NSG resp =? stageOperational then
    if (st_csg st =? stageSecurity) && negb (securityDone st) then
      Err (LMsg "target left the security stage before authentication completed")
    else Ok (false, set_csg st stageOperational)
  else Err (LMsg "target requested an invalid next stage").

(** ** The login loop *)
Section Login.
Context {T : Type} (exchange : loginRequest → M T login_error loginResponse).

Record login := { l_st : loginState; l_process : process; l_target : T }.
Abbreviation Login := (M login login_error).

Definition on_state {A} (f : loginState → result login_error (A * loginState)) : Login A := λ l,
  match f (l_st l) with
  | Ok (a, st) => (Ok a, {| l_st := st; l_process := l_process l; l_target := l_target l |})
  | Err e => (Err e, l)
  end.
Definition update_state (f : loginState → result login_error loginState) : Login unit :=
  on_state (λ st, st ← f st; Ok (tt, st)).

Definition on_target {A} (m : M T login_error A) : Login A := λ l,
  let '(r, t) := m (l_target l) in (r, {| l_st := l_st l; l_process := l_process l; l_target := t |}).

(** [exchangeComplete]: follow C bits until the text is complete. *)
Fixpoint exchangeRounds (rounds : nat) (req : loginRequest) (buf : bytes) : Login (loginResponse * list textKV) :=
  match rounds with
  | O => throw (LMsg "login response text continued beyond the exchange limit")
  | S rounds =>
      resp ← on_target (exchange req);
      if (rs_StatusClass resp =? 0) && negb (bool_decide (rq_ISID req = rs_ISID resp)) then
        throw (LMsg "login response ISID does not match request ISID")
      else
        let sn := (rs_StatSN resp + 1) `mod` 2 ^ 32 in
        update_state (λ st, Ok (set_expStatSN st sn)) ;;
        let buf := buf ++ rs_Data resp in
        if negb (rs_StatusClass resp =? 0) || negb (rs_Continue resp) then
          text ← lift (match decodeText buf with Ok t => Ok t | Err m => Err (LMsg m) end);
          mret (resp, text)
        else
          exchangeRounds rounds
            {| rq_Transit := false; rq_Continue := false; rq_CSG := rq_CSG req; rq_NSG := 0; rq_ISID := rq_ISID req;
               rq_TSIH := rq_TSIH req; rq_ITT := 0; rq_CID := rq_CID req; rq_CmdSN := 0; rq_ExpStatSN := sn;
               rq_Data := [] |} buf
  end.
Definition exchangeComplete (req : loginRequest) : Login (loginResponse * list textKV) :=
  exchangeRounds maxLoginRounds req [].

(** Run CHAP code on the exchange in the login state. *)
Definition on_chap {A} (c : chapState) (m : Chap A) : Login A := λ l,
  let '(r, (c', p)) := m (c, l_process l) in
  (r, {| l_st := set_auth (l_st l) (st_authAccepted (l_st l)) (Some c') (st_holdTransit (l_st l));
         l_process := p; l_target := l_target l |}).

Definition advanceCHAP : Login unit :=
  st ← reads l_st;
  match st_chap st with
  | None => mret tt
  | Some c =>
      if negb (st_csg st =? stageSecurity) then
        on_chap c (clearing_recv (lift (unexpected [] c)))
      else
        r ← on_chap c advance;
        update_state (λ st, Ok (set_auth (add_pending st r.1) (st_authAccepted st) (st_chap st) r.2))
  end.

(** One round of [loginSession]: true when the session is established. *)
Definition loginRound : Login bool :=
  req ← on_state (λ st, Ok (nextRequest st));
  rt ← exchangeComplete req;
  st ← reads l_st;
  lift (checkResponse st rt.1 rt.2) ;;
  update_state (λ st, applyText st rt.2) ;;
  advanceCHAP ;;
  if negb (rs_Transit rt.1) then mret false
  else on_state (λ st, transition st rt.1).

Fixpoint loginLoop (rounds : nat) : Login loginResult :=
  match rounds with
  | O => throw (LMsg "no full feature phase after the allowed exchanges")
  | S rounds =>
      done ← loginRound;
      if done : bool then reads (λ l, st_res (l_st l)) else loginLoop rounds
  end.

(** [defer st.chap.close()] *)
Definition closing {A} (m : Login A) : Login A := λ l,
  let '(r, l') := m l in
  (r, match st_chap (l_st l') with
      | None => l'
      | Some c =>
          let '(c', p) := close c (l_process l') in
          {| l_st := set_auth (l_st l') (st_authAccepted (l_st l')) (Some c') (st_holdTransit (l_st l'));
             l_process := p; l_target := l_target l' |}
      end).

Definition newLogin (input : loginInput) (p : process) (t : T) : login :=
  {| l_st := newLoginState input; l_process := p; l_target := t |}.

Definition loginSession (input : loginInput) (p : process) (t : T) : result login_error loginResult * login :=
  closing (loginLoop maxLoginRounds) (newLogin input p t).
End Login.
