(* ===== verification/IscsiLoginCorrect.v ===== *)
(** * What a completed iSCSI login guarantees

    The target is arbitrary; [logged] records what was sent to it and what it
    answered, so that the theorems can speak about the exchange. *)
From stdpp Require Import base numbers list strings gmap pretty.
From Stdlib Require Import Ascii.
From S2P Require Import Prelude GoStd GoNet IscsiPdu IscsiChap IscsiLogin.
Open Scope Z_scope.

(** ** Exchanges *)

Abbreviation exchange_log := (list (loginRequest * loginResponse)).

Definition logged {T} (exchange : loginRequest → M T login_error loginResponse)
    (req : loginRequest) : M (T * exchange_log) login_error loginResponse := λ '(t, log),
  match exchange req t with
  | (Ok resp, t') => (Ok resp, (t', log ++ [(req, resp)]))
  | (Err e, t') => (Err e, (t', log))
  end.

(** The data segments of consecutive responses. *)
Definition answer_of (seg : exchange_log) : bytes := concat (map (λ e, rs_Data e.2) seg).

(** A key the target sent, in the text of some consecutive responses. *)
Definition received (log : exchange_log) (key value : string) : Prop :=
  ∃ before seg after text, log = before ++ seg ++ after ∧ decodeText (answer_of seg) = Ok text ∧ kv key value ∈ text.

(** A key the initiator sent. *)
Definition sent (log : exchange_log) (key value : string) : Prop :=
  ∃ req resp kvs, (req, resp) ∈ log ∧ rq_Data req = encodeText kvs ∧ kv key value ∈ kvs.

Lemma received_mono log more key value : received log key value → received (log ++ more) key value.
Proof.
  intros (b&seg&a&text&->&H). exists b, seg, (a ++ more), text. split; [|done]. by rewrite !app_assoc.
Qed.
Lemma sent_mono log more key value : sent log key value → sent (log ++ more) key value.
Proof. intros (req&resp&kvs&Hin&H). exists req, resp, kvs. split; [apply elem_of_app; by left|done]. Qed.

Section Rounds.
Context {T : Type} (exchange : loginRequest → M T login_error loginResponse).
Let ex := logged exchange.
Abbreviation log l := (l_target l).2.

(** What [exchangeComplete] leaves alone, and what it records. *)
Record exchanged (l l' : @login (T * exchange_log)) (seg : exchange_log) : Prop := {
  ex_process : l_process l' = l_process l;
  ex_state : ∃ sn, l_st l' = set_expStatSN (l_st l) sn;
  ex_log : log l' = log l ++ seg;
}.

Lemma exchangeRounds_spec rounds req buf l :
  wp (exchangeRounds ex rounds req buf) (λ r l', ∃ seg, exchanged l l' seg ∧ (length seg ≤ rounds)%nat ∧
    ∀ resp text, r = Ok (resp, text) →
      decodeText (buf ++ answer_of seg) = Ok text ∧ ∃ resp0, head seg = Some (req, resp0)) l.
Proof.
  revert req buf l. induction rounds as [|rounds IH]; intros req buf l; cbn [exchangeRounds].
  { apply wp_throw. exists []. split; [split; [done|by exists (st_expStatSN (l_st l)); destruct (l_st l)|by rewrite app_nil_r]|].
    split; [cbn; lia|done]. }
  apply wp_bind. apply wp_of_run. intros r l1 Hrun. unfold on_target, ex, logged in Hrun.
  destruct (l_target l) as [t lg] eqn:Et. destruct (exchange req t) as [[resp|e] t']; simplify_eq.
  2: { exists []. split; [split; [done|by exists (st_expStatSN (l_st l)); destruct (l_st l)|by rewrite Et, app_nil_r]|].
       split; [cbn; lia|done]. }
  set (l1 := {| l_st := l_st l; l_process := l_process l; l_target := (t', lg ++ [(req, resp)]) |}).
  assert (exchanged l l1 [(req, resp)]) as H1.
  { split; [done|by exists (st_expStatSN (l_st l)); destruct (l_st l)|by rewrite Et]. }
  destruct (_ && _); [apply wp_throw; exists [(req, resp)]; split; [done|split; [cbn; lia|done]]|].
  set (sn := (rs_StatSN resp + 1) `mod` 2 ^ 32).
  set (l2 := {| l_st := set_expStatSN (l_st l) sn; l_process := l_process l; l_target := l_target l1 |}).
  apply wp_bind. apply wp_of_run. intros r2 l2' Hrun2.
  assert (r2 = Ok tt ∧ l2' = l2) as [-> ->] by (cbn in Hrun2; by simplify_eq). clear Hrun2.
  assert (exchanged l l2 [(req, resp)]) as H2.
  { split; [done|by exists sn|by apply H1]. }
  destruct (_ || _).
  - apply wp_bind, wp_lift. destruct (decodeText (buf ++ rs_Data resp)) as [text|m] eqn:Ed.
    + apply wp_ret. exists [(req, resp)]. split; [done|]. split; [cbn; lia|]. intros ?? [= <- <-].
      unfold answer_of. cbn. rewrite app_nil_r. split; [done|by eexists].
    + exists [(req, resp)]. split; [done|]. split; [cbn; lia|done].
  - eapply wp_mono; [apply IH|]. intros r l3 (seg&[P S L]&Hlen&Hok). exists ((req, resp) :: seg). split.
    + split; [by rewrite P|destruct S as [sn' ->]; by exists sn'|].
      rewrite L, (ex_log _ _ _ H2), <- app_assoc. done.
    + split; [cbn; lia|]. intros resp' text' E. destruct (Hok _ _ E) as [Hd _].
      split; [|by eexists]. rewrite <- app_assoc in Hd. exact Hd.
Qed.

Lemma exchangeComplete_spec req l :
  wp (exchangeComplete ex req) (λ r l', ∃ seg, exchanged l l' seg ∧ (length seg ≤ maxLoginRounds)%nat ∧
    ∀ resp text, r = Ok (resp, text) →
      decodeText (answer_of seg) = Ok text ∧ ∃ resp0, head seg = Some (req, resp0)) l.
Proof. exact (exchangeRounds_spec maxLoginRounds req [] l). Qed.
End Rounds.

(** ** The process table is balanced *)

(** Every entry of the table counts a login that is still running. *)
Definition outstanding_wf (m : gmap string Z) : Prop := map_Forall (λ _ n, 0 < n) m.

Lemma release_register m c :
  outstanding_wf m → releaseChallenge (string_of_bytes c) (registerChallenge c m) = m.
Proof.
  intros Hwf. unfold releaseChallenge, registerChallenge, count. rewrite lookup_insert_eq. cbn.
  destruct (m !! string_of_bytes c) as [n|] eqn:E; cbn.
  - pose proof (Hwf _ _ E) as Hn. cbn in Hn. destruct (Z.leb_spec (n + 1 - 1) 0); [lia|].
    rewrite insert_insert_eq. replace (n + 1 - 1) with n by lia. by apply insert_id.
  - rewrite delete_insert_id by done. done.
Qed.

Section Chap.
Context (creds : CHAPCredentials) (p0 : process).

(** The table during a login: our challenge is in it exactly while it can
    still be released. *)
Definition table_ok (c : chapState) (p : process) : Prop :=
  (cs_step c = chapAwaitMethod ∨ cs_step c = chapAwaitChallenge → cs_release c = None) ∧
  match cs_release c with
  | None => p_outstanding p = p_outstanding p0
  | Some k => ∃ ch, k = string_of_bytes ch ∧ p_outstanding p = registerChallenge ch (p_outstanding p0)
  end.

Lemma close_table c p :
  outstanding_wf (p_outstanding p0) → table_ok c p → p_outstanding (close c p).2 = p_outstanding p0.
Proof.
  intros Hwf [_ H]. unfold close. destruct (cs_release c) as [k|]; [|done].
  destruct H as (ch&->&H). cbn. rewrite H. by apply release_register.
Qed.

Lemma set_recv_table c p recv : table_ok (set_recv c recv) p ↔ table_ok c p.
Proof. done. Qed.

Lemma clearing_recv_wp {A} (m : Chap A) (Q : result login_error A → chapState * process → Prop) w :
  wp m (λ r '(c, p), Q r (set_recv c ∅, p)) w → wp (clearing_recv m) Q w.
Proof. unfold wp, clearing_recv. by destruct (m w) as [r [c p]]. Qed.

Lemma advance_table c p :
  outstanding_wf (p_outstanding p0) → table_ok c p →
  wp advance (λ _ '(c', p'), table_ok c' p') (c, p).
Proof.
  intros Hwf Ht. unfold advance. apply clearing_recv_wp. apply wp_bind, wp_reads. cbn [fst].
  destruct (cs_step c) eqn:Es.
  - apply wp_bind, wp_reads, wp_bind, wp_lift. cbn [fst]. destruct (unexpected _ c); [|done].
    destruct (cs_recv c !! keyAuthMethod); [|done]. case_decide; [done|]. case_decide; [done|].
    apply wp_bind, wp_modify, wp_ret. destruct Ht as [H1 H2]. split; [by auto|exact H2].
  - destruct Ht as [H1 H2]. specialize (H1 (or_intror Es)). rewrite H1 in H2.
    assert (table_ok c p) as Ht by (split; [done|by rewrite H1]).
    apply wp_bind, wp_reads. cbn [id]. apply wp_bind, wp_lift. destruct (unexpected _ c); [|done].
    apply wp_bind, wp_lift. destruct (recvKey keyCHAPA c); [|done].
    apply wp_bind, wp_lift. destruct (recvKey keyCHAPI c); [|done].
    apply wp_bind, wp_lift. destruct (recvKey keyCHAPC c); [|done].
    case_decide; [done|]. apply wp_bind, wp_lift. destruct (parseCHAPID _); [|done].
    apply wp_bind, wp_lift. destruct (decodeCHAPBinary _); [|done].
    destruct (_ <? _)%nat; [done|]. destruct (isOutstandingChallenge _ _); [done|]. destruct (negb _).
    { apply wp_bind, wp_modify, wp_ret. split; [by intros [?|?]|]. cbn. by rewrite H1. }
    destruct (newMutualChallenge _ _) as [draw rest]. apply wp_bind, wp_modify.
    destruct draw as [[ourID challenge]|].
    + apply wp_bind, wp_modify, wp_ret. split; [by intros [?|?]|]. cbn. exists challenge. by rewrite H2.
    + split; [done|]. cbn. by rewrite H1.
  - apply wp_bind, wp_lift. destruct (unexpected _ c); [|done]. apply wp_bind, wp_modify, wp_ret.
    destruct Ht as [H1 H2]. split; [by intros [?|?]|exact H2].
  - apply wp_bind. unfold onMutualResponse. apply wp_bind, wp_reads. cbn [fst].
    apply wp_bind, wp_lift. destruct (unexpected _ c); [|done].
    destruct (cs_recv c !! keyCHAPN); [|done]. destruct (cs_recv c !! keyCHAPR); [|done].
    case_decide; [done|]. destruct (decodeCHAPBinary _); [|done]. case_decide; [done|].
    apply wp_bind, wp_modify, wp_modify, wp_ret.
    pose proof (close_table c p Hwf Ht) as Hc. unfold close in *. destruct (cs_release c) eqn:Er;
      (split; [by intros [?|?]|]); cbn in *; [exact Hc|]. by rewrite Er.
  - apply wp_bind, wp_lift. destruct (unexpected _ c); [|done]. apply wp_bind, wp_modify, wp_ret.
    destruct Ht as [H1 H2]. split; [by intros [?|?]|exact H2].
Qed.
End Chap.

(** ** What the CHAP exchange established *)
Section Evidence.
Context (creds : CHAPCredentials) (p0 : process).

(** A key that was sent or is about to be. *)
Definition told (log : exchange_log) (pending : list textKV) (key value : string) : Prop :=
  sent log key value ∨ kv key value ∈ pending.

(** The target chose CHAP and challenged us, with a challenge no login of this
    process has outstanding, and we answered it with the secret. *)
Definition responded (log : exchange_log) (pending : list textKV) : Prop :=
  received log keyAuthMethod authMethodCHAP ∧
  ∃ i c id challenge,
    received log keyCHAPI i ∧ received log keyCHAPC c ∧
    parseCHAPID i = Ok id ∧ decodeCHAPBinary c = Ok challenge ∧
    isOutstandingChallenge challenge (p_outstanding p0) = false ∧
    told log pending keyCHAPN (Username creds) ∧
    told log pending keyCHAPR (encodeCHAPBinary (chapResponse id (Secret creds) challenge)).

(** We challenged the target with [id] and [challenge], drawn for this login. *)
Definition challenged (log : exchange_log) (pending : list textKV) (id : ascii) (challenge : bytes) : Prop :=
  (id, challenge) ∈ p_rand p0 ∧
  told log pending keyCHAPI (Itoa (Z_of_byte id)) ∧ told log pending keyCHAPC (encodeCHAPBinary challenge).

(** The target answered that challenge with the mutual secret. *)
Definition verified (log : exchange_log) (id : ascii) (challenge : bytes) : Prop :=
  received log keyCHAPN (MutualUsername creds) ∧
  ∃ v, received log keyCHAPR v ∧ decodeCHAPBinary v = Ok (chapResponse id (MutualSecret creds) challenge).

Definition evidence (c : chapState) (p : process) (log : exchange_log) (pending : list textKV) : Prop :=
  cs_creds c = creds ∧
  match cs_step c with
  | chapAwaitMethod => p = p0
  | chapAwaitChallenge => p = p0 ∧ received log keyAuthMethod authMethodCHAP
  | chapAwaitResult => Mutual creds = false ∧ responded log pending
  | chapAwaitMutual =>
      Mutual creds = true ∧ responded log pending ∧ challenged log pending (cs_id c) (cs_challenge c)
  | chapDone =>
      responded log pending ∧
      (Mutual creds = true → ∃ id challenge, challenged log pending id challenge ∧ verified log id challenge)
  end.

Lemma told_mono log pending more pending' key value :
  (∀ k v, kv k v ∈ pending → told (log ++ more) pending' k v) →
  told log pending key value → told (log ++ more) pending' key value.
Proof. intros Hp [?|?]; [left; by apply sent_mono|by apply Hp]. Qed.

Lemma evidence_mono c p log pending more pending' :
  (∀ k v, kv k v ∈ pending → told (log ++ more) pending' k v) →
  evidence c p log pending → evidence c p (log ++ more) pending'.
Proof.
  intros Hp [Hc H]. split; [done|].
  assert (responded log pending → responded (log ++ more) pending') as Hr.
  { intros [Ha (i&ch&id&chal&H1&H2&H3&H4&H5&H6&H7)]. split; [by apply received_mono|].
    exists i, ch, id, chal. split_and!; eauto using received_mono, told_mono. }
  assert (∀ id chal, challenged log pending id chal → challenged (log ++ more) pending' id chal) as Hch.
  { intros id chal (H1&H2&H3). split_and!; eauto using told_mono. }
  assert (∀ id chal, verified log id chal → verified (log ++ more) id chal) as Hv.
  { intros id chal [H1 (v&H2&H3)]. split; [by apply received_mono|]. exists v. split; [by apply received_mono|done]. }
  destruct (cs_step c); naive_solver eauto using received_mono.
Qed.

Lemma newMutualChallenge_drawn target draws x rest :
  newMutualChallenge target draws = (Some x, rest) → x ∈ draws.
Proof.
  induction draws as [|[id ch] draws IH]; cbn; [done|]. destruct (negb _).
  - intros; simplify_eq. by left.
  - intros. right. auto.
Qed.

Lemma told_pending log pending send key value :
  kv key value ∈ send → told log (pending ++ send) key value.
Proof. intros. right. apply elem_of_app. by right. Qed.

(** The step of [advance] that answers the target's challenge. *)
Lemma onChallenge_evidence c p log pending :
  (∀ k v, cs_recv c !! k = Some v → received log k v) →
  cs_step c = chapAwaitChallenge → evidence c p log pending →
  wp onChallenge (λ r '(c', p'), ∀ send hold, r = Ok (send, hold) → evidence (set_recv c' ∅) p' log (pending ++ send)) (c, p).
Proof.
  intros Hrecv Es [Hc He]. rewrite Es in He. destruct He as [-> Ha].
  assert (∀ k v, recvKey k c = Ok v → received log k v) as Hk.
  { intros k v. unfold recvKey. destruct (cs_recv c !! k) eqn:E; intros; simplify_eq. by apply Hrecv. }
  apply wp_bind, wp_reads. cbn [id]. apply wp_bind, wp_lift. destruct (unexpected _ c); [|done].
  apply wp_bind, wp_lift. destruct (recvKey keyCHAPA c); [|done].
  apply wp_bind, wp_lift. destruct (recvKey keyCHAPI c) as [i|] eqn:Ei; [|done].
  apply wp_bind, wp_lift. destruct (recvKey keyCHAPC c) as [ch|] eqn:Ech; [|done].
  case_decide; [done|]. apply wp_bind, wp_lift. destruct (parseCHAPID i) as [id|] eqn:Eid; [|done].
  apply wp_bind, wp_lift. destruct (decodeCHAPBinary ch) as [chal|] eqn:Echal; [|done].
  destruct (_ <? _)%nat; [done|]. destruct (isOutstandingChallenge chal _) eqn:Eo; [done|].
  rewrite Hc. set (response := encodeCHAPBinary (chapResponse id (Secret creds) chal)).
  assert (∀ send, kv keyCHAPN (Username creds) ∈ send → kv keyCHAPR response ∈ send → responded log (pending ++ send)) as Hresp.
  { intros send H1 H2. split; [done|]. exists i, ch, id, chal. split_and!; auto using told_pending. }
  destruct (Mutual creds) eqn:Em; cbn [negb].
  - destruct (newMutualChallenge chal (p_rand p0)) as [draw rest] eqn:Ed. apply wp_bind, wp_modify.
    destruct draw as [[ourID challenge]|]; [|done]. apply wp_bind, wp_modify, wp_ret.
    intros send hold [= <- <-]. split; [done|]. cbn. split; [done|]. split; [apply Hresp; set_solver|].
    split_and!; [by eapply newMutualChallenge_drawn|apply told_pending; set_solver|apply told_pending; set_solver].
  - apply wp_bind, wp_modify, wp_ret. intros send hold [= <- <-]. split; [done|]. cbn. split; [done|].
    apply Hresp; set_solver.
Qed.

Lemma advance_evidence c p log pending :
  (∀ k v, cs_recv c !! k = Some v → received log k v) →
  evidence c p log pending →
  wp advance (λ r '(c', p'), ∀ send hold, r = Ok (send, hold) → evidence c' p' log (pending ++ send) ∧ cs_recv c' = ∅) (c, p).
Proof.
  intros Hrecv He. unfold advance. apply clearing_recv_wp. apply wp_bind, wp_reads. cbn [fst].
  assert (∀ c' p', evidence (set_recv c' ∅) p' log pending → evidence (set_recv c' ∅) p' log (pending ++ [])) as Hnil
    by (intros; by rewrite app_nil_r).
  destruct (cs_step c) eqn:Es.
  - destruct He as [Hc He]. rewrite Es in He. subst p.
    apply wp_bind, wp_reads, wp_bind, wp_lift. cbn [fst]. destruct (unexpected _ c); [|done].
    destruct (cs_recv c !! keyAuthMethod) as [m|] eqn:Em; [|done]. case_decide; [done|]. case_decide as Hm; [done|].
    apply wp_bind, wp_modify, wp_ret. intros send hold [= <- <-]. split; [|done]. split; [done|]. cbn.
    split; [done|]. rewrite <- Hm. by apply Hrecv.
  - eapply wp_mono; [by apply (onChallenge_evidence c p log pending)|].
    intros r [c' p'] H send hold Hr. split; [by eapply H|done].
  - apply wp_bind, wp_lift. destruct (unexpected _ c); [|done]. apply wp_bind, wp_modify, wp_ret.
    intros send hold [= <- <-]. split; [|done]. apply Hnil. destruct He as [Hc He]. rewrite Es in He.
    split; [done|]. cbn. destruct He as [Hm ?]. rewrite Hm. done.
  - apply wp_bind. unfold onMutualResponse. apply wp_bind, wp_reads. cbn [fst].
    apply wp_bind, wp_lift. destruct (unexpected _ c); [|done].
    destruct (cs_recv c !! keyCHAPN) as [nm|] eqn:En; [|done]. destruct (cs_recv c !! keyCHAPR) as [rsp|] eqn:Er; [|done].
    case_decide as Hn; [done|]. destruct (decodeCHAPBinary rsp) as [got|] eqn:Eg; [|done]. case_decide as Hw; [done|].
    apply wp_bind, wp_modify, wp_modify, wp_ret. destruct He as [Hc He]. rewrite Es in He. destruct He as (Hm&Hr&Hch).
    assert (evidence (set_recv (set_step c chapDone) ∅) p log pending) as Hev.
    { split; [done|]. cbn. split; [done|]. intros _. exists (cs_id c), (cs_challenge c). split; [done|].
      rewrite Hc in Hn, Hw. subst. split; [by apply Hrecv|]. exists rsp. split; [by apply Hrecv|done]. }
    unfold close. destruct (cs_release c); cbn; intros send hold [= <- <-]; (split; [|done]);
      rewrite app_nil_r; exact Hev.
  - apply wp_bind, wp_lift. destruct (unexpected _ c); [|done]. apply wp_bind, wp_modify, wp_ret.
    intros send hold [= <- <-]. split; [|done]. apply Hnil. destruct He as [Hc He]. rewrite Es in He. split; [done|]. exact He.
Qed.
End Evidence.

(** ** Applying the text of a response *)

Definition chap_applied (text : list textKV) (o o' : option chapState) : Prop :=
  match o, o' with
  | None, None => True
  | Some c, Some c' =>
      c' = set_recv c (cs_recv c') ∧
      ∀ k v, cs_recv c' !! k = Some v → cs_recv c !! k = Some v ∨ kv k v ∈ text
  | _, _ => False
  end.

Record applied (st st' : loginState) (text : list textKV) : Prop := {
  ap_in : st_in st' = st_in st;
  ap_csg : st_csg st' = st_csg st;
  ap_offered : st_offeredOperational st' = st_offeredOperational st;
  ap_hold : st_holdTransit st' = st_holdTransit st;
  ap_pending : ∃ extra, st_pending st' = st_pending st ++ extra;
  ap_chap : chap_applied text (st_chap st) (st_chap st');
  ap_auth : st_chap st = None → st_authAccepted st' = true →
    st_authAccepted st = true ∨ kv keyAuthMethod valueNone ∈ text;
  ap_accepted : st_authAccepted st = true → st_authAccepted st' = true;
}.

Lemma chap_applied_refl text o : chap_applied text o o.
Proof. destruct o as [[]|]; cbn; auto. Qed.

Lemma applied_keep st st' text :
  st_in st' = st_in st → st_csg st' = st_csg st → st_offeredOperational st' = st_offeredOperational st →
  st_holdTransit st' = st_holdTransit st → (∃ extra, st_pending st' = st_pending st ++ extra) →
  st_chap st' = st_chap st → st_authAccepted st' = st_authAccepted st → applied st st' text.
Proof. intros ????? Hc Ha. split; try done; [rewrite Hc; apply chap_applied_refl|rewrite Ha; auto|by rewrite Ha]. Qed.

Lemma applyKey_applied st x st' : applyKey st x = Ok st' → applied st st' [x].
Proof.
  assert (∀ st' : loginState, st_pending st' = st_pending st → ∃ extra, st_pending st' = st_pending st ++ extra)
    as Hp by (intros ? ->; exists []; by rewrite app_nil_r).
  unfold applyKey. destruct (containsb authKeys (Key x)).
  { unfold applyAuthKey. destruct (st_chap st) as [c|] eqn:Ec.
    - unfold store. destruct (cs_recv c !! Key x) eqn:Ek; [done|]. intros; simplify_eq/=.
      split; try done; [by apply Hp| |by rewrite Ec]. rewrite Ec. cbn. split; [done|].
      intros k v. rewrite lookup_insert_Some. intros [[<- <-]|[_ ?]]; [right; destruct x; by left|by left].
    - case_decide as Hk; [done|]. case_decide as Hv; [done|]. intros; simplify_eq.
      split; try done; [by apply Hp|by rewrite Ec|].
      intros _ _. right. destruct x; cbn in *; subst. by left. }
  case_decide. { destruct (ParseUint _ _ _); [|done]. intros; simplify_eq. by apply applied_keep; try done; apply Hp. }
  case_decide. { intros; simplify_eq. by apply applied_keep; try done; apply Hp. }
  case_decide. { intros; simplify_eq. by apply applied_keep; try done; apply Hp. }
  case_decide. { destruct (applyNegotiated _ _ _); [|done]. cbn. intros; simplify_eq. by apply applied_keep; try done; apply Hp. }
  unfold applyOperational. destruct (findOffer (Key x)) as [k|].
  2: { intros; simplify_eq. destruct (isNonValue _); apply applied_keep; try done; [by apply Hp|by eexists]. }
  destruct (isNonValue _); [intros; simplify_eq; by apply applied_keep; try done; apply Hp|].
  destruct (resolveKey k (Value x)) as [v|]; [|done]. cbn [mbind result_bind].
  destruct (st_offeredOperational st) eqn:Eo;
    (destruct (applyNegotiated _ _ _) as [n|]; [|done]); cbn; intros; simplify_eq;
    apply applied_keep; try done; [by apply Hp|by eexists].
Qed.

Lemma applied_trans st1 st2 st3 x text :
  applied st1 st2 [x] → applied st2 st3 text → applied st1 st3 (x :: text).
Proof.
  intros [I1 C1 O1 H1 [e1 P1] A1 U1 V1] [I2 C2 O2 H2 [e2 P2] A2 U2 V2]. split; try congruence; [| | |by auto].
  - exists (e1 ++ e2). rewrite P2, P1. by rewrite app_assoc.
  - destruct (st_chap st1) as [c1|], (st_chap st2) as [c2|], (st_chap st3) as [c3|]; try done. cbn in *.
    destruct A1 as [E1 R1], A2 as [E2 R2]. split; [rewrite E2, E1; done|].
    intros k v Hk. destruct (R2 k v Hk) as [Hk2|Hk2]; [|right; by right].
    destruct (R1 k v Hk2) as [?|[->|[]%elem_of_nil]%elem_of_cons]; [by left|right; by left].
  - intros Hn Ha. assert (st_chap st2 = None) as Hn2.
    { rewrite Hn in A1. by destruct (st_chap st2). }
    destruct (U2 Hn2 Ha) as [Hb|Hb]; [|right; by right].
    destruct (U1 Hn Hb) as [?|Hc]; [by left|]. right. apply elem_of_cons in Hc as [->|[]%elem_of_nil]. by left.
Qed.

Lemma applyText_applied st text st' : applyText st text = Ok st' → applied st st' text.
Proof.
  revert st. induction text as [|x text IH]; intros st; cbn.
  - intros; simplify_eq. apply applied_keep; try done. exists []. by rewrite app_nil_r.
  - destruct (applyKey st x) as [st1|] eqn:E; [|done]. cbn. intros H.
    eapply applied_trans; [by apply applyKey_applied|by apply IH].
Qed.

(** ** One round *)
Section Round.
Context {T : Type} (exchange : loginRequest → M T login_error loginResponse).
Let ex := logged exchange.
Abbreviation log l := (l_target l).2.
Implicit Types l : @login (T * exchange_log).

(** The end of a round, after [advanceCHAP] left [l4]. *)
Definition round_end (resp : loginResponse) (rc : result login_error unit) l4 (r : result login_error bool) l' : Prop :=
  match rc with
  | Err e => r = Err e ∧ l' = l4
  | Ok _ => (if negb (rs_Transit resp) then mret false else on_state (λ st, transition st resp)) l4 = (r, l')
  end.

Inductive round_outcome l (seg : exchange_log) : result login_error bool → login → Prop :=
| ro_early e l' :
    l_process l' = l_process l → st_chap (l_st l') = st_chap (l_st l) → round_outcome l seg (Err e) l'
| ro_advanced resp resp0 text st3 t sn rc l4 r l' :
    head seg = Some ((nextRequest (l_st l)).1, resp0) →
    decodeText (answer_of seg) = Ok text →
    rs_CSG resp = st_csg (l_st l) →
    applied (set_expStatSN (nextRequest (l_st l)).2 sn) st3 text →
    advanceCHAP {| l_st := st3; l_process := l_process l; l_target := t |} = (rc, l4) → t.2 = log l ++ seg →
    round_end resp rc l4 r l' → round_outcome l seg r l'.

Lemma nextRequest_chap st : st_chap (nextRequest st).2 = st_chap st ∧ st_csg (nextRequest st).2 = st_csg st.
Proof.
  unfold nextRequest. cbn -[offerOperational]. destruct (st_csg st =? stageOperational); [|done].
  unfold offerOperational. by destruct (st_offeredOperational _).
Qed.

Lemma advanceCHAP_target l r l' : advanceCHAP l = (r, l') → l_target l' = l_target l.
Proof.
  unfold advanceCHAP. intros H. rewrite (M_bind_Ok _ _ _ (l_st l) l) in H by done.
  destruct (st_chap (l_st l)) as [c|]; [|unfold mret, M_ret in H; by simplify_eq].
  unfold on_chap, update_state, on_state, mbind, M_bind in H.
  destruct (negb _).
  - destruct (clearing_recv _ _) as [rc [c' p']]. by simplify_eq.
  - destruct (advance _) as [[rc|e] [c' p']]; by simplify_eq/=.
Qed.

Lemma loginRound_spec l :
  wp (loginRound ex) (λ r l', ∃ seg, log l' = log l ++ seg ∧ (length seg ≤ maxLoginRounds)%nat ∧ round_outcome l seg r l') l.
Proof.
  unfold loginRound. apply wp_bind. apply wp_of_run. intros r1 l1 H1.
  unfold on_state in H1. destruct (nextRequest (l_st l)) as [req st1] eqn:En. simplify_eq.
  set (l1 := {| l_st := st1; l_process := l_process l; l_target := l_target l |}).
  pose proof (nextRequest_chap (l_st l)) as [Hc1 Hg1]. rewrite En in Hc1, Hg1. cbn [snd] in Hc1, Hg1.
  apply wp_call with (1 := exchangeComplete_spec exchange req l1).
  2: { intros e l2 (seg&[P [sn S] L]&Hlen&_). exists seg. split; [done|]. split; [done|]. by apply ro_early; [|rewrite S]. }
  intros [resp text] l2 (seg&[P [sn S] L]&Hlen&Hok). destruct (Hok _ _ eq_refl) as [Hd [resp0 Hh]]. clear Hok.
  apply wp_bind, wp_reads. apply wp_bind, wp_lift. cbn [fst snd].
  assert (∀ e, round_outcome l seg (Err e) l2) as Hearly.
  { intros e. by apply ro_early; [|rewrite S]. }
  destruct (checkResponse (l_st l2) resp text) as [[]|e] eqn:Ec; [|exists seg; eauto].
  apply wp_bind. apply wp_of_run. intros r3 l3 H3. unfold update_state, on_state in H3.
  destruct (applyText (l_st l2) text) as [st3|e] eqn:Et; cbn in H3; simplify_eq; [|exists seg; eauto].
  apply wp_bind, wp_of_run. intros rc l4 H4.
  assert (wp (if negb (rs_Transit resp) then mret false else on_state (λ st, transition st resp))
    (λ r l', log l' = log l4) l4) as Hend.
  { destruct (negb _); [by apply wp_ret|]. apply wp_of_run. unfold on_state. intros r5 l5 H5.
    destruct (transition _ _) as [[]|]; by simplify_eq. }
  pose proof (advanceCHAP_target _ _ _ H4) as Ht4. cbn in Ht4.
  assert (rs_CSG resp = st_csg (l_st l)) as Hcsg.
  { unfold checkResponse in Ec. rewrite S in Ec. cbn in Ec. repeat (destruct (_ =? _) eqn:? in Ec; [|done]).
    rewrite <- Hg1. by apply Z.eqb_eq. }
  assert (∀ r l', log l' = log l4 → round_end resp rc l4 r l' →
    ∃ seg, log l' = log l ++ seg ∧ (length seg ≤ maxLoginRounds)%nat ∧ round_outcome l seg r l') as Hfin.
  { intros r l' Hl He. exists seg. split; [rewrite Hl, Ht4; exact L|]. split; [done|].
    apply (ro_advanced l seg resp resp0 text st3 (l_target l2) sn rc l4); try done; rewrite ?En; try done.
    - apply applyText_applied. rewrite S in Et. exact Et.
    - rewrite P in H4. exact H4. }
  destruct rc as [[]|e]; [|by apply Hfin].
  eapply wp_mono_run; [exact Hend|]. intros r l' Hrun Hl. by apply Hfin.
Qed.

Lemma transition_spec st resp done st' :
  transition st resp = Ok (done, st') →
  st_chap st' = st_chap st ∧ st_in st' = st_in st ∧ st_authAccepted st' = st_authAccepted st ∧
  (if done then st_csg st = stageOperational ∧ st_pending st = []
   else st_csg st' = stageOperational ∧ st_pending st' = st_pending st ∧
        (st_csg st = stageSecurity → securityDone st = true)).
Proof.
  unfold transition, finish. destruct (_ =? stageFullFeature).
  - destruct (st_offeredOperational st); [|done]. destruct (Z.eqb_spec (st_csg st) stageOperational); [|done].
    destruct (st_pending st) eqn:Ep; [|done]. cbn. destruct (_ =? 0); [done|]. intros; by simplify_eq/=.
  - destruct (_ =? stageOperational); [|done]. destruct (Z.eqb_spec (st_csg st) stageSecurity) as [E|E];
      [destruct (securityDone st) eqn:Es; [|done]|]; cbn; intros; by simplify_eq/=.
Qed.

Lemma round_end_spec resp rc l4 r l' :
  round_end resp rc l4 r l' →
  l_process l' = l_process l4 ∧ st_chap (l_st l') = st_chap (l_st l4) ∧ st_in (l_st l') = st_in (l_st l4).
Proof.
  unfold round_end. destruct rc as [[]|e]; [|intros [-> ->]; done].
  destruct (negb _); [unfold mret, M_ret; intros; by simplify_eq|].
  unfold on_state. destruct (transition _ _) as [[d st']|e] eqn:E; intros; simplify_eq; [|done].
  apply transition_spec in E as (?&?&_). done.
Qed.

(** *** The table of outstanding challenges *)

Definition login_table (p0 : process) l : Prop :=
  match st_chap (l_st l) with
  | None => p_outstanding (l_process l) = p_outstanding p0
  | Some c => table_ok p0 c (l_process l)
  end.

Lemma advanceCHAP_table p0 l :
  outstanding_wf (p_outstanding p0) → login_table p0 l → wp advanceCHAP (λ _ l', login_table p0 l') l.
Proof.
  intros Hwf Ht. unfold advanceCHAP. apply wp_bind, wp_reads. unfold login_table in Ht.
  destruct (st_chap (l_st l)) as [c|] eqn:Ec; [|apply wp_ret; unfold login_table; by rewrite Ec].
  destruct (negb _).
  - apply wp_of_run. unfold on_chap, clearing_recv, lift. intros r l' H. by simplify_eq.
  - apply wp_bind, wp_of_run. unfold on_chap. intros r l1 H.
    pose proof (advance_table p0 c (l_process l) Hwf Ht) as Ha. unfold wp in Ha.
    destruct (advance (c, l_process l)) as [ra [c' p']]. simplify_eq. cbn in Ha.
    destruct r as [[send hold]|e]; [|exact Ha]. by apply wp_of_run; intros r l2 H2; cbn in H2; simplify_eq.
Qed.

Lemma chap_applied_table p0 text o o' p :
  chap_applied text o o' →
  (match o with None => p_outstanding p = p_outstanding p0 | Some c => table_ok p0 c p end) →
  match o' with None => p_outstanding p = p_outstanding p0 | Some c => table_ok p0 c p end.
Proof. destruct o as [c|], o' as [c'|]; cbn; try done. by intros [-> _] ?. Qed.

Lemma loginRound_table p0 l :
  outstanding_wf (p_outstanding p0) → login_table p0 l →
  wp (loginRound ex) (λ _ l', login_table p0 l' ∧ ∃ seg, log l' = log l ++ seg ∧ (length seg ≤ maxLoginRounds)%nat) l.
Proof.
  intros Hwf Ht. eapply wp_mono; [apply loginRound_spec|]. intros r l' (seg&Hl&Hn&Ho). split; [|eauto].
  destruct Ho as [e l' Hp Hc|resp resp0 text st3 t sn rc l4 r l' _ _ _ Hap Hadv _ He].
  - unfold login_table. by rewrite Hc, Hp.
  - apply round_end_spec in He as (Hp&Hc&_). unfold login_table. rewrite Hp, Hc.
    assert (login_table p0 {| l_st := st3; l_process := l_process l; l_target := t |}) as H3.
    { unfold login_table. cbn. eapply chap_applied_table; [exact (ap_chap _ _ _ Hap)|].
      cbn. rewrite (proj1 (nextRequest_chap (l_st l))). exact Ht. }
    pose proof (advanceCHAP_table p0 _ Hwf H3) as Ha. by eapply wp_run in Ha.
Qed.

Lemma loginLoop_table p0 rounds l :
  outstanding_wf (p_outstanding p0) → login_table p0 l →
  wp (loginLoop ex rounds) (λ _ l', login_table p0 l' ∧ (length (log l') ≤ length (log l) + rounds * maxLoginRounds)%nat) l.
Proof.
  intros Hwf. revert l. induction rounds as [|rounds IH]; intros l Ht; [apply wp_throw; split; [done|lia]|].
  cbn [loginLoop]. rewrite Nat.mul_succ_l. eapply wp_call; [by apply loginRound_table| |].
  - intros [] l1 (Ht1&seg&Hl&Hs).
    + split; [done|]. cbn. rewrite Hl, length_app. lia.
    + eapply wp_mono; [by apply IH|]. intros r l2 [Ht2 Hl2]. split; [done|]. rewrite Hl, length_app in Hl2. lia.
  - intros e l1 (Ht1&seg&Hl&Hs). split; [done|]. rewrite Hl, length_app. lia.
Qed.

#[local] Opaque loginLoop.

Lemma closing_table {A} p0 (m : M login login_error A) n l :
  outstanding_wf (p_outstanding p0) →
  wp m (λ _ l', login_table p0 l' ∧ (length (log l') ≤ n)%nat) l →
  wp (closing m) (λ _ l', p_outstanding (l_process l') = p_outstanding p0 ∧ (length (log l') ≤ n)%nat) l.
Proof.
  intros Hwf [Ht Hl]. unfold wp, closing. destruct (m l) as [r l']. cbn [fst snd] in *. unfold login_table in Ht.
  destruct (st_chap (l_st l')) as [c|]; [|by split].
  pose proof (close_table p0 c (l_process l') Hwf Ht) as Hc. by destruct (close c (l_process l')).
Qed.

(** A login leaves nothing behind: however it ends, the table of
    outstanding challenges is what it was before, so a challenge never stays
    refused after its login, and the target was asked at most 32 times 32
    times, whatever it answers. *)
Theorem login_releases_challenge input p t r l :
  outstanding_wf (p_outstanding p) →
  loginSession (logged exchange) input p (t, []) = (r, l) →
  p_outstanding (l_process l) = p_outstanding p ∧ (length (log l) ≤ maxLoginRounds * maxLoginRounds)%nat.
Proof.
  intros Hwf Hrun. assert (login_table p (newLogin input p (t, []))) as Ht0.
  { unfold login_table. cbn. by destruct (in_CHAP input). }
  pose proof (closing_table p (loginLoop ex maxLoginRounds) _ (newLogin input p (t, []))  Hwf
                (loginLoop_table p maxLoginRounds _ Hwf Ht0)) as H.
  unfold loginSession in Hrun. change (logged exchange) with ex in Hrun.
  destruct (wp_run _ _ _ _ _ H Hrun) as [H1 H2]. split; [exact H1|exact H2].
Qed.
End Round.

(** ** A completed login is authenticated *)
Section Authenticated.
Context {T : Type} (exchange : loginRequest → M T login_error loginResponse).
Let ex := logged exchange.
Abbreviation log l := (l_target l).2.
Implicit Types l : @login (T * exchange_log).
Context (chap : option CHAPCredentials) (p0 : process).

(** What the state of a login knows about the exchange so far, between rounds. *)
Definition login_auth l : Prop :=
  (st_csg (l_st l) = stageSecurity ∨ st_csg (l_st l) = stageOperational ∧ securityDone (l_st l) = true) ∧
  match chap, st_chap (l_st l) with
  | Some creds, Some c =>
      cs_recv c = ∅ ∧ evidence creds p0 c (l_process l) (log l) (st_pending (l_st l))
  | None, None => st_authAccepted (l_st l) = true → received (log l) keyAuthMethod valueNone
  | _, _ => False
  end.

(** What the theorem states. *)
Definition authenticated (lg : exchange_log) : Prop :=
  match chap with
  | Some creds =>
      responded creds p0 lg [] ∧
      (Mutual creds = true → ∃ id challenge, challenged p0 lg [] id challenge ∧ verified creds lg id challenge)
  | None => received lg keyAuthMethod valueNone
  end.

Lemma offerOperational_pending st x : x ∈ st_pending st → x ∈ st_pending (offerOperational st).
Proof.
  unfold offerOperational. destruct (st_offeredOperational st); [done|].
  intros. cbn [st_pending set_offered add_pending set_pending]. apply elem_of_app. by left.
Qed.

Lemma offerOperational_auth st : st_authAccepted (offerOperational st) = st_authAccepted st.
Proof. unfold offerOperational. by destruct (st_offeredOperational st). Qed.

Lemma nextRequest_pending st :
  st_pending (nextRequest st).2 = [] ∧ st_authAccepted (nextRequest st).2 = st_authAccepted st ∧
  ∃ kvs, rq_Data (nextRequest st).1 = encodeText kvs ∧ ∀ x, x ∈ st_pending st → x ∈ kvs.
Proof.
  unfold nextRequest. cbn [st_csg set_auth]. destruct (st_csg st =? stageOperational);
    cbn [fst snd rq_Data st_pending st_authAccepted set_pending]; rewrite ?offerOperational_auth;
    (split; [done|]; split; [done|]); eexists; (split; [done|]); intros x Hx; [|done].
  by apply offerOperational_pending.
Qed.

(** After the exchange and the text of a round. *)
Record midway l (seg : exchange_log) (st3 : loginState) (text : list textKV) : Prop := {
  mid_auth : login_auth l;
  mid_text : decodeText (answer_of seg) = Ok text;
  mid_head : ∃ resp0, head seg = Some ((nextRequest (l_st l)).1, resp0);
  mid_applied : ∃ sn, applied (set_expStatSN (nextRequest (l_st l)).2 sn) st3 text;
}.

Lemma mid_received l seg st3 text k v : midway l seg st3 text → kv k v ∈ text → received (log l ++ seg) k v.
Proof. intros Hm Hin. exists (log l), seg, [], text. rewrite app_nil_r. split_and!; [done|by apply Hm|done]. Qed.

Lemma mid_told l seg st3 text k v :
  midway l seg st3 text → kv k v ∈ st_pending (l_st l) → told (log l ++ seg) (st_pending st3) k v.
Proof.
  intros Hm Hin. left. destruct (mid_head _ _ _ _ Hm) as [resp0 Hh].
  destruct (nextRequest_pending (l_st l)) as (_&_&kvs&Hd&Hsub). exists (nextRequest (l_st l)).1, resp0, kvs.
  split_and!; [|done|by apply Hsub]. destruct seg; simplify_eq/=. apply elem_of_app. right. by left.
Qed.

(** The state before [advanceCHAP]: the received keys are stored. *)
Definition stored l : Prop :=
  (st_csg (l_st l) = stageSecurity ∨ st_csg (l_st l) = stageOperational ∧ securityDone (l_st l) = true) ∧
  match chap, st_chap (l_st l) with
  | Some creds, Some c =>
      (∀ k v, cs_recv c !! k = Some v → received (log l) k v) ∧
      evidence creds p0 c (l_process l) (log l) (st_pending (l_st l))
  | None, None => st_authAccepted (l_st l) = true → received (log l) keyAuthMethod valueNone
  | _, _ => False
  end.

Lemma mid_stored l seg st3 text t :
  midway l seg st3 text → t.2 = log l ++ seg →
  stored {| l_st := st3; l_process := l_process l; l_target := t |}.
Proof.
  intros Hm Ht. unfold stored. cbn. rewrite Ht.
  pose proof (mid_auth _ _ _ _ Hm) as [Hs Ha]. destruct (mid_applied _ _ _ _ Hm) as [sn Hap].
  destruct (nextRequest_chap (l_st l)) as [Hc Hg]. destruct (nextRequest_pending (l_st l)) as (_&Hac&_).
  rewrite (ap_csg _ _ _ Hap). cbn [st_csg set_expStatSN]. rewrite Hg. unfold securityDone in *.
  pose proof (ap_chap _ _ _ Hap) as Hch. cbn in Hch. rewrite Hc in Hch.
  destruct chap as [creds|], (st_chap (l_st l)) as [c0|] eqn:E0, (st_chap st3) as [c|]; try done.
  - destruct Ha as [Hr He], Hch as [Hcc Hrecv]. split; [by rewrite Hcc|]. split.
    + intros k v Hk. destruct (Hrecv k v Hk) as [H|H]; [by rewrite Hr in H|by eapply mid_received].
    + rewrite Hcc. eapply evidence_mono in He; [exact He|]. intros k v Hin. by eapply mid_told.
  - split.
    + destruct Hs as [?|[? Hacc]]; [by left|right; split; [done|]]. apply (ap_accepted _ _ _ Hap). cbn. by rewrite Hac.
    + intros Hacc. destruct (ap_auth _ _ _ Hap) as [H|H]; [cbn; by rewrite Hc|done| |].
      * apply received_mono, Ha. cbn in H. by rewrite Hac in H.
      * by eapply mid_received.
Qed.

Lemma advanceCHAP_auth l : stored l → wp advanceCHAP (λ r l', r = Ok tt → login_auth l') l.
Proof.
  intros [Hs Ha]. unfold advanceCHAP. apply wp_bind, wp_reads. unfold login_auth, securityDone in *.
  destruct chap as [creds|], (st_chap (l_st l)) as [c|] eqn:Ec; try done.
  2: { apply wp_ret. intros _. by rewrite Ec. }
  destruct Ha as [Hrecv He]. destruct (Z.eqb_spec (st_csg (l_st l)) stageSecurity) as [Eg|Eg]; cbn [negb].
  - apply wp_bind, wp_of_run. unfold on_chap. intros r l1 H.
    pose proof (advance_evidence creds p0 c (l_process l) _ _ Hrecv He) as Hadv. unfold wp in Hadv.
    destruct (advance (c, l_process l)) as [ra [c' p']]. simplify_eq. cbn [fst snd] in Hadv.
    destruct r as [[send hold]|e]; [|done]. destruct (Hadv _ _ eq_refl) as [He' Hr'].
    apply wp_of_run. intros r l2 H2 _. cbn in H2. simplify_eq. cbn. split; [by left|by split].
  - destruct Hs as [?|[Hs Hd]]; [done|]. apply wp_of_run. unfold on_chap, clearing_recv, lift. intros r l' H _.
    simplify_eq. cbn. split; [by right|]. split; [done|exact He].
Qed.

(** A round keeps the evidence, and the last one completes it. *)
Lemma loginRound_auth l :
  login_auth l →
  wp (loginRound ex) (λ r l', (r = Ok false → login_auth l') ∧ (r = Ok true → authenticated (log l'))) l.
Proof.
  intros Ha. eapply wp_mono; [apply loginRound_spec|]. intros r l' (seg&Hl&_&Ho).
  destruct Ho as [e l' _ _|resp resp0 text st3 t sn rc l4 r l' Hh Hd _ Hap Hadv Ht He]; [done|].
  assert (midway l seg st3 text) as Hm by (split; eauto).
  pose proof (wp_run _ _ _ _ _ (advanceCHAP_auth _ (mid_stored _ _ _ _ t Hm Ht)) Hadv) as H4. cbn beta in H4.
  unfold round_end in He. destruct rc as [[]|e]; [|destruct He as [-> ->]; done]. specialize (H4 eq_refl).
  destruct (negb _). { unfold mret, M_ret in He. by simplify_eq. }
  unfold on_state in He. destruct (transition _ _) as [[d st']|e] eqn:E; simplify_eq; [|done].
  apply transition_spec in E as (Hc&_&Hacc&H). destruct H4 as [Hs Hev]. unfold login_auth, authenticated. cbn.
  unfold securityDone in *. rewrite Hc, Hacc. destruct d; split; intros [=].
  - destruct H as [Hg Hp]. destruct Hs as [Hs|[_ Hs]]; [by rewrite Hg in Hs|]. rewrite Hp in Hev.
    destruct chap as [creds|], (st_chap (l_st l4)) as [c|]; try done; [|by apply Hev].
    destruct Hev as [_ [_ Hev]]. apply bool_decide_eq_true in Hs. by rewrite Hs in Hev.
  - destruct H as (Hg&Hp&Hsec). rewrite Hg, Hp. split; [|exact Hev]. right. split; [done|].
    destruct Hs as [Hs|[_ Hs]]; auto.
Qed.

Lemma loginLoop_auth rounds l :
  login_auth l → wp (loginLoop ex rounds) (λ r l', ∀ res, r = Ok res → authenticated (log l')) l.
Proof.
  revert l. induction rounds as [|rounds IH]; intros l Ha; [by apply wp_throw|].
  cbn [loginLoop]. eapply wp_call; [by apply loginRound_auth| |done].
  intros [] l1 [H1 H2]; [|by apply IH, H1]. intros res _. by apply H2.
Qed.

#[local] Opaque loginLoop.

Lemma closing_log {A} (m : M login login_error A) (P : result login_error A → exchange_log → Prop) l :
  wp m (λ r l', P r (log l')) l → wp (closing m) (λ r l', P r (log l')) l.
Proof.
  unfold wp, closing. destruct (m l) as [r l']. cbn [fst snd]. destruct (st_chap (l_st l')) as [c|]; [|done].
  by destruct (close c (l_process l')).
Qed.

End Authenticated.

#[local] Opaque loginLoop.

(** C33: A session that logs in is authenticated as configured. With CHAP
    credentials the target chose CHAP (never the weaker None), challenged us
    with a challenge that no login of the process had outstanding, and was sent
    our name and the digest of its challenge under our secret; with mutual
    credentials it was also sent an identifier and challenge drawn for this
    login and answered with the mutual name and the digest of that challenge
    under the mutual secret. Without credentials the target accepted
    AuthMethod=None. *)
Theorem login_authenticated {T} (exchange : loginRequest → M T login_error loginResponse) input p t res l :
  loginSession (logged exchange) input p (t, []) = (Ok res, l) → authenticated (in_CHAP input) p (l_target l).2.
Proof.
  intros Hrun. assert (login_auth (in_CHAP input) p (newLogin input p (t, []))) as Ha.
  { unfold login_auth. cbn. split; [by left|]. destruct (in_CHAP input); cbn; done. }
  pose proof (closing_log (loginLoop (logged exchange) maxLoginRounds)
    (λ r lg, ∀ res, r = Ok res → authenticated (in_CHAP input) p lg) _
    (loginLoop_auth exchange (in_CHAP input) p maxLoginRounds _ Ha)) as H.
  unfold loginSession in Hrun. by eapply (wp_run _ _ _ _ _ H Hrun).
Qed.

(** ** A login against a target that wants mutual CHAP *)

Definition demo_creds : CHAPCredentials := {|
  Username := "initiator"; Secret := "initiator-secret"; MutualUsername := "target"; MutualSecret := "target-secret" |}.

Definition demo_input : loginInput := {|
  in_InitiatorIQN := "iqn.2024-01.io.example:node"; in_TargetIQN := "iqn.2024-01.io.example:vol";
  in_ISID := replicate 6 (byte_of_Z 128); in_TSIH := 0; in_CID := 1; in_CHAP := Some demo_creds |}.

Definition demo_process : process := {|
  p_outstanding := {[ "other" := 1 ]}; p_rand := [(byte_of_Z 9, bytes_of_string "0123456789abcdef")] |}.

Definition demo_response (csg nsg : Z) (transit : bool) (text : list textKV) : loginResponse := {|
  rs_Transit := transit; rs_Continue := false; rs_CSG := csg; rs_NSG := nsg; rs_VersionMax := 0;
  rs_VersionActive := 0; rs_ISID := in_ISID demo_input; rs_TSIH := 1; rs_ITT := 0; rs_StatSN := 0; rs_ExpCmdSN := 0;
  rs_MaxCmdSN := 0; rs_StatusClass := 0; rs_StatusDetail := 0; rs_Data := encodeText text |}.

Definition demo_target (req : loginRequest) : M nat login_error loginResponse := λ n,
  (Ok (match n with
       | O => demo_response stageSecurity 0 false [kv keyAuthMethod authMethodCHAP]
       | 1%nat => demo_response stageSecurity 0 false
           [kv keyCHAPA "5"; kv keyCHAPI "7"; kv keyCHAPC (encodeCHAPBinary (bytes_of_string "challenge"))]
       | 2%nat => demo_response stageSecurity stageOperational true
           [kv keyCHAPN "target";
            kv keyCHAPR (encodeCHAPBinary (chapResponse (byte_of_Z 9) "target-secret" (bytes_of_string "0123456789abcdef")))]
       | _ => demo_response stageOperational stageFullFeature true [kv "MaxBurstLength" "65536"]
       end), S n).

Definition demo_session := loginSession (logged demo_target) demo_input demo_process (O, []).

Lemma demo_session_ok : ∃ res, demo_session = (Ok res, demo_session.2).
Proof. eexists. vm_compute. reflexivity. Qed.

Lemma login_authenticated_witness :
  (∃ res, demo_session = (Ok res, demo_session.2)) ∧
  authenticated (Some demo_creds) demo_process (l_target demo_session.2).2.
Proof.
  split; [exact demo_session_ok|]. destruct demo_session_ok as [res H].
  exact (login_authenticated demo_target demo_input demo_process O res demo_session.2 H).
Defined.

Lemma login_releases_challenge_witness :
  p_outstanding (l_process demo_session.2) = p_outstanding demo_process ∧
  (length (l_target demo_session.2).2 ≤ maxLoginRounds * maxLoginRounds)%nat.
Proof.
  apply (login_releases_challenge demo_target demo_input demo_process O demo_session.1).
  - apply map_Forall_singleton. reflexivity.
  - apply surjective_pairing.
Defined.
